(* ===== verification/_CoqProject ===== *)
-Q . S2P
Prelude.v
Num.v
Asset.v
TradingFunction.v
Position.v
Vcb.v
DexState.v
Indexes.v
IndexFacts.v
PositionManager.v
PositionFacts.v
OpeningFacts.v
DexMachine.v
Batch.v
Path.v
PathFacts.v
PathTheorems.v
Router.v
RouterFacts.v
ExecutionFacts.v
FillFacts.v
FillLoop.v
FillRouteFacts.v
RouteSpec.v
RouteLoad.v
RoutingFacts.v
SettlementFacts.v
Fee.v
EndBlock.v
EndBlockFacts.v
BlockMachine.v
DexTheorems.v
RouterTheorems.v
Auction.v
AuctionFacts.v
AuctionSteps.v
AuctionMachine.v
AuctionTheorems.v
Validator.v
Rate.v
RateFacts.v
Clock.v
Stake.v
StakeManager.v
StakeEpoch.v
StakeFacts.v
StakeUptime.v
StakeEpochFacts.v
StakeElection.v
StakeComet.v
StakeHandlers.v
Distributions.v
Tally.v
Governance.v
Fmd.v
AppParams.v
Chain.v
FmdTheorems.v
GovernanceFacts.v
ChainFacts.v
Devnet.v
GovernanceMachine.v
ChainGovernance.v
ChainStaking.v
ChainGenesis.v
StakeTheorems.v
GovernanceTheorems.v
Tct.v
TctSpec.v
TctLaws.v
TctNodes.v
TctTiers.v
TctTree.v
TctContents.v
TctMachine.v
TctBlocks.v
TctBuilders.v
TctTheorems.v
