(* ===== verification/Prelude.v ===== *)
(** * Penumbra: a verified shallow embedding of the core state machine

    This library models the parts of the Penumbra node that decide who owns what: amounts and
    balances, the decentralised exchange (DEX) with its liquidity positions, routing and batch
    swaps, fees, Dutch auctions, staking, governance, the driver that runs genesis, blocks and
    transactions over the last two, and the tiered commitment tree that proves which notes exist.  The
    definitions are executable translations of the Rust code under src/crates/core and
    src/crates/crypto/tct; the theorems state what makes the code correct.

    ** How the program is put together

    A node keeps a key-value state.  A block delivers transactions, whose actions run handlers of
    the components, and then ends: the auctions that are due are executed, the DEX runs the block's
    swaps in batches, arbitrages its own positions, evicts and closes positions, and the other
    components finish (app/src/app/mod.rs).  Each component guards the value it holds with a ledger,
    the value circuit breaker, which refuses to pay out more than has come in.  An auction sells
    its input by opening, at every step, a position on the DEX, so the two components trade
    ownership of value through their two ledgers.

    Staking keeps the validators: their definitions, states, power, rates and pools.  A block begins
    with the evidence of misbehaviour and the signatures of the last block, which tombstone and jail;
    an epoch ends with the delegations of its blocks, new rates, the election of the active set and
    its report to CometBFT.  Governance snapshots the active validators when a proposal is
    submitted, collects the votes of validators and of their delegators, concludes proposals at the
    end of a block and schedules what they enact: parameter changes are applied when the next block
    begins, in all components at once.

    Notes and swaps are recorded as commitments in an append-only Merkle tree: a tree of epochs of
    blocks of commitments, three tiers of eight levels each.  A node of the chain inserts hashes only; a
    client keeps what belongs to it, and prunes everything else down to hashes.  The tip, the frontier,
    is still open, with hashes that are cached on demand; what is behind it is complete.

    ** What the files model

    - [Prelude]: outcomes, the monad of a component, machine integers, and shared lemmas.
    - [Num]: core/num (amount.rs, fixpoint.rs and fixpoint/, percentage/mod.rs).
    - [Asset]: core/asset (value.rs, balance.rs, balance/imbalance.rs, balance/iter.rs).
    - [TradingFunction]: dex/src/trading_pair.rs, lp/reserves.rs, lp/trading_function.rs.
    - [Position]: dex/src/lp/position.rs.
    - [Vcb]: dex/src/component/circuit_breaker/value.rs, over the interface [VcbStore] that the
      states of the DEX and of the auctions implement.
    - [DexState]: the state of the DEX (state_key.rs, dex.rs, swap_manager.rs, lqt.rs, params.rs);
      [Indexes]: the indexes over positions (position_manager/, chandelier.rs); [PositionManager]:
      position_manager.rs, eviction_manager.rs and the position handlers.  [IndexFacts],
      [PositionFacts] and [OpeningFacts] hold their lemmas; [DexMachine] is the invariant of the ledger
      and of the swap flows, kept by the handlers and by the closing of positions.
    - [Batch]: batch_swap_output_data.rs.
    - [Path]: router/path.rs, path_cache.rs, path_search.rs; [PathFacts], [PathTheorems].
    - [Router]: router/fill_route.rs, route_and_fill.rs, circuit_breaker/execution.rs,
      swap_execution.rs, arb.rs; [RouterFacts], [ExecutionFacts], [FillFacts], [FillLoop],
      [FillRouteFacts], [RouteSpec], [RouteLoad], [RoutingFacts] and [SettlementFacts] build up to
      [RouterTheorems].
    - [Fee]: core/component/fee (gas.rs, fee.rs, params.rs, component/).
    - [EndBlock]: the end of a DEX block over the states of the DEX and of the fees (dex.rs);
      [EndBlockFacts]; [BlockMachine] is the step relation of the DEX over whole blocks, with the
      phases of [end_block] as steps, and [DexTheorems] its theorems.
    - [Auction]: core/component/auction; [AuctionFacts], [AuctionSteps]; [AuctionMachine] interleaves
      the handlers of the auctions with the steps of the DEX; [AuctionTheorems].
    - [Validator]: the data of core/component/stake (validator.rs, validator/, funding_stream.rs) and
      the ring buffer of signed blocks (uptime.rs); [Rate]: penalty.rs, rate.rs, delegate.rs,
      undelegate.rs; [RateFacts].
    - [Clock]: the heights and epochs of core/component/sct (clock.rs, sct.rs); [Stake]: the state of
      staking with its store and indexes (state_key.rs, validator_store.rs, stake.rs);
      [StakeManager]: validator_manager.rs and uptime_tracker.rs; [StakeEpoch]: epoch_handler.rs, the
      action handlers, and the component itself.  [StakeFacts] holds the invariant of a validator
      and the state machine on it, [StakeUptime] the tracking of signatures under any schedule,
      [StakeEpochFacts] and [StakeElection] the end of an epoch, [StakeComet] the updates of CometBFT
      and the set it keeps, [StakeHandlers] the action handlers.
    - [Distributions]: core/component/distributions.
    - [Tally]: the data of core/component/governance (vote.rs, tally.rs, proposal.rs,
      proposal_state.rs); [Governance]: its state (state_key.rs, view.rs), action handlers and end of
      block; [GovernanceFacts]; [GovernanceMachine] is the invariant of proposals and their order.
    - [Fmd]: the detection parameters of core/component/shielded-pool (fmd.rs); [FmdTheorems].
    - [Tct]: the nodes and tiers of crypto/tct (internal/, but for its codecs); [TctTree]: the tree, the
      builders of blocks and epochs, indices and proofs (tree.rs, block.rs, epoch.rs, index.rs, proof.rs).
      [TctSpec] says what the contents of a frontier are and how they hash, and [TctContents] what the
      operations do to contents; [TctLaws] states as classes ([Represents], [Grows]) what a level
      promises to the one above, which [TctNodes] and [TctTiers] discharge; [TctMachine], [TctBlocks]
      and [TctBuilders] lift this to trees and builders; [TctTheorems].
    - [AppParams]: app/src/params, with the state [App] of the application and the submission of
      proposals; [Chain]: app/mod.rs and action_handler/ (genesis, transactions and blocks).
      [ChainFacts] says when an invariant of components is kept by transactions; [ChainGovernance] and
      [ChainStaking] lift the invariants of governance and of staking to blocks, and [ChainGenesis]
      starts staking from a genesis file; [Devnet] is a small chain that runs, on which the theorems
      about chains are instantiated; [StakeTheorems]; [GovernanceTheorems].

    ** How code becomes definitions

    A function that only computes is a Rocq function; one that reads and writes the state is a
    computation of [comp S E], a state and error monad.  The result of a call is an [outcome]:
    [Ok], [Err] (an error the caller sees) or [Panic] (a failed [expect], or an overflow of a plain
    operator: the debug profile panics and the release profile wraps, and the theorems that exclude
    [Panic] are about both).  Writes made before an error stay, except in a [transaction], the
    [StateDelta] of the code.  Integers are [Z] with their width written out.  The state of a
    component is a record with one field per family of keys; where the order of keys matters it is
    the order of their encodings.

    The code that is not in the repository is a parameter: the hash of a position and the encoding
    of an asset id ([DexEnv]), the group of commitments ([CommitmentGroup]), the hashes of auctions
    ([AuctionEnv]), the ids of the staking tokens ([StakingToken], [StakeTokens]), the addresses of
    consensus keys, the text of identity keys and the signatures of definitions ([StakeEnv]), the
    tokens, signatures, proofs and IBC clients of governance ([GovernanceEnv]), the JSON values of
    parameters ([ParameterJson]), the transactions and plans kept encoded ([ChainEnv]), and the field
    and hash function of the commitment tree ([HashEnv]), whose maps are traversed in any order
    ([HashOrder]).  A method that caches a hash behind a shared reference is two definitions, the value
    it returns and the caches it fills.  Tasks that complete in any order take a schedule, a permutation of what they are asked to do.  What
    the code keeps in the object store is in the records too, and cleared by the commit.

    ** What the theorems show

    - C1 to C3: a fill conserves value, never favours the trader, and never panics.
    - C4: the bytes of a fixed-point number keep the order.
    - C5 to C8: in every reachable state of the DEX, between any two phases of its blocks, the ledger
      covers the positions and, while actions are delivered, what the swaps have paid in; the indexes
      are exact and the price index finds a cheapest position; closed positions can always be
      withdrawn.
    - C9: the claims of a batch never exceed its outputs.
    - C10 and C11: the concurrent search for a route gives one result under every schedule; what it
      reports can be executed within the bounds.
    - C12 to C15: filling a route either trades or leaves no trace; a batch is recorded exactly as
      the positions and the ledger have settled it; arbitrage keeps the books; the end of a DEX block never fails.
    - C16 to C21: the operations of the commitment tree refine those on its plain contents and never
      panic; its roots are the hashes of the contents, whatever is cached or pruned; what is indexed has
      a proof that verifies, and no other proof verifies in its place; positions only go up; the index
      records what is kept, and forgetting leaves the root alone.
    - C22: fees are charged exactly.
    - C23 to C26: the auctions' ledger covers their reserves and their positions are where they are
      recorded; due auctions always execute, conserving value; offers descend on schedule; a
      withdrawal of an open auction loses its position.
    - C27 to C29: delegating back and forth never gains; exchange rates grow by the base reward that
      the commission leaves; the ring buffer of a validator counts the blocks it has missed.
    - C30 to C33: along a chain of blocks, from genesis on, validators stay well-formed; votes and
      evidence never fail, in any order; epochs elect the strongest validators; and the updates lead
      CometBFT from the set it holds to the active validators, and are accepted exactly when these
      are some and their total power is within CometBFT's bound.
    - C34 to C39: along a chain of blocks proposals stay well-formed and their outcomes are final; a
      tally counts every validator once; the pass threshold is ignored; a sweep of delegators' votes
      loses votes; deposits can be claimed again.
    - C40: the grace period of detection parameters is never open while they stay the same.
    - Theorems without a number state further facts of the same components, such as
      [fill_output_exact], [accepted_positions_fill_totally], [fixpoint_mul_exact],
      [balance_eq_decides_denotation], [commitment_homomorphic], [eviction_never_fails],
      [path_search_beats_direct], [path_search_total], [vcb_never_pays_out_more_than_it_holds],
      [positions_only_move_forward], [fill_iteration_sound], [only_passed_proposals_take_effect],
      [built_blocks_can_be_inserted] and [positions_roundtrip].
    - Some of them are about divergences: [redirect_keeps_original_pair] in [Position],
      [liquidity_ranking_collides] in [DexTheorems], [spill_price_can_repeat_the_best_route] in
      [PathTheorems], [sliding_window_is_all_or_nothing] in [FmdTheorems], and the examples
      [a_longer_period_opens_it] in [FmdTheorems], [the_total_power_is_not_bounded] in [StakeTheorems],
      [builder_ends_empty_blocks] in [TctTheorems] and [forgotten_versions_go_down] in [TctLaws].

    ** Bounds and fuel

    Loops that are not structural take fuel, and running out of it is [Panic], so that the theorems
    that exclude [Panic] also show termination: a path search runs [max_hops] rounds; a fill draws
    a position from a stream in every iteration but the last, and has the streams' total size as
    fuel; routing has one round more than the execution circuit breaker allows ([round_budget]);
    the search for a fresh position of an auction has one attempt more than there are positions.
    The theorems about whole blocks assume that the ledger of an asset, with the fees to be swapped,
    is below 2^112 ([ledger_cap]) when a block ends, far above any supply, because the code multiplies
    amounts in 128 and 256 bits ([BlockMachine.room]; nothing is assumed of what the trades gain);
    the auctions' theorems assume that the two ledgers stay below 2^128 together and the positions
    below 2^32.  The chains of staking assume a genesis that would pass the checks of a parameter
    change, with one consensus key per validator ([content_ok]), and that decoded values have the
    width of their types; heights stay below 2^64.

    ** What is not modelled

    Proof circuits and their R1CS gadgets, key derivation, encryption and hashing, whose content is
    cryptographic; codecs to protobuf and to text, RPC and metrics; the candlestick summaries in
    floating point; the storage layer, which the code uses as a map with ordered streams (a stream
    also shows writes made after it was opened; the only entries a fill writes belong to positions
    it skips by their ids).  The driver of [Chain] runs staking, governance, distributions and the
    detection parameters; the DEX, the fees and the auctions have their own blocks
    ([BlockMachine], [AuctionMachine]).  What CometBFT accepts is stated in [StakeComet] as its
    documentation has it.  The incremental storage of the commitment tree and its views are not modelled, nor
    is its use by the component of the chain that keeps anchors and nullifiers.  Funding and its
    tournament, the community pool, notes and nullifiers and IBC are not modelled; [World] holds what
    governance reads of them. *)

From Stdlib Require Export ZArith Lia.
From stdpp Require Export base numbers option list gmap fin_maps sets strings sorting.

#[global] Open Scope Z_scope.

(** ** Outcomes

    What a Rust function can do: return [Ok], return an error, or panic.  [Panic] stands for a
    failed [expect]/[unwrap]/[assert!] and for an arithmetic overflow or underflow of a plain
    [+], [-], [*] (which the debug profile turns into a panic and the release profile wraps:
    a theorem that excludes [Panic] is therefore about both). *)

Inductive outcome (E A : Type) : Type :=
| Ok (a : A)
| Err (e : E)
| Panic.
Arguments Ok {E A} a.
Arguments Err {E A} e.
Arguments Panic {E A}.

#[global] Instance outcome_eq_dec {E A} `{EqDecision E, EqDecision A} :
  EqDecision (outcome E A).
Proof. solve_decision. Defined.

Section Outcome.
Context {E : Type}.

Definition outcome_bind {A B} (m : outcome E A) (k : A -> outcome E B) : outcome E B :=
  match m with
  | Ok a => k a
  | Err e => Err e
  | Panic => Panic
  end.

(** [.ok_or(e)] *)
Definition ok_or {A} (o : option A) (e : E) : outcome E A :=
  match o with Some a => Ok a | None => Err e end.

(** [Option::expect] *)
Definition expect_some {A} (o : option A) : outcome E A :=
  match o with Some a => Ok a | None => Panic end.

(** [Result::expect], across error types. *)
Definition expect_ok {E' A} (m : outcome E' A) : outcome E A :=
  match m with Ok a => Ok a | _ => Panic end.

(** [Result::map_err] *)
Definition map_err {E' A} (f : E' -> E) (m : outcome E' A) : outcome E A :=
  match m with Ok a => Ok a | Err e => Err (f e) | Panic => Panic end.

(** [Result::unwrap_or]; a panic while computing the result still panics. *)
Definition unwrap_or {A} (d : A) (m : outcome E A) : A :=
  match m with Ok a => a | _ => d end.

(** [Result::ok] *)
Definition to_option {A} (m : outcome E A) : option A :=
  match m with Ok a => Some a | _ => None end.

(** [ensure!] *)
Definition guard_or (b : bool) (e : E) : outcome E unit :=
  if b then Ok tt else Err e.
End Outcome.

Declare Scope outcome_scope.
Delimit Scope outcome_scope with outcome.
Notation "'let!' x ':=' c 'in' k" := (outcome_bind c (fun x => k))
  (at level 10, x name, c at level 100, k at level 200) : outcome_scope.
Notation "'let!' ' p ':=' c 'in' k" := (outcome_bind c (fun x => match x with p => k end))
  (at level 10, p pattern, c at level 100, k at level 200) : outcome_scope.
#[global] Open Scope outcome_scope.

(** An [anyhow::Error] is its message. *)
Abbreviation anyhow := (outcome string).

Section OutcomeLemmas.
Context {E : Type}.

Lemma outcome_bind_ok {A B} (m : outcome E A) (k : A -> outcome E B) b :
  outcome_bind m k = Ok b <-> exists a, m = Ok a /\ k a = Ok b.
Proof. destruct m; simpl; naive_solver. Qed.

Lemma outcome_bind_err {A B} (m : outcome E A) (k : A -> outcome E B) e :
  outcome_bind m k = Err e <-> m = Err e \/ exists a, m = Ok a /\ k a = Err e.
Proof. destruct m; simpl; naive_solver. Qed.

Lemma outcome_bind_panic {A B} (m : outcome E A) (k : A -> outcome E B) :
  outcome_bind m k = Panic <-> m = Panic \/ exists a, m = Ok a /\ k a = Panic.
Proof. destruct m; simpl; naive_solver. Qed.

Lemma ok_or_ok {A} (o : option A) (e : E) a : ok_or o e = Ok a <-> o = Some a.
Proof. destruct o; simpl; naive_solver. Qed.

Lemma expect_some_ok {A} (o : option A) a : @expect_some E A o = Ok a <-> o = Some a.
Proof. destruct o; simpl; naive_solver. Qed.

Lemma expect_ok_ok {E' A} (m : outcome E' A) a : @expect_ok E E' A m = Ok a <-> m = Ok a.
Proof. destruct m; simpl; naive_solver. Qed.

Lemma map_err_ok {E' A} (f : E' -> E) (m : outcome E' A) a :
  map_err f m = Ok a <-> m = Ok a.
Proof. destruct m; simpl; naive_solver. Qed.

Lemma guard_or_ok (b : bool) (e : E) u : guard_or b e = Ok u <-> b = true.
Proof. destruct b, u; simpl; naive_solver. Qed.
End OutcomeLemmas.

(** ** Computations over a state

    A handler of the node runs against a mutable state.  [comp S E A] threads it; an error keeps
    the state reached so far, exactly like an early return with [?]: only the callers that wrap a
    computation in a fresh [StateDelta] drop the writes of a failed one ([transaction]). *)

Definition comp (S E A : Type) : Type := S -> outcome E A * S.

Section Comp.
Context {S E : Type}.

Definition ret {A} (a : A) : comp S E A := fun s => (Ok a, s).
Definition fail {A} (e : E) : comp S E A := fun s => (Err e, s).
Definition panic {A} : comp S E A := fun s => (Panic, s).
Definition bind {A B} (m : comp S E A) (k : A -> comp S E B) : comp S E B := fun s =>
  match m s with
  | (Ok a, s') => k a s'
  | (Err e, s') => (Err e, s')
  | (Panic, s') => (Panic, s')
  end.
Definition gets {A} (f : S -> A) : comp S E A := fun s => (Ok (f s), s).
Definition modify (f : S -> S) : comp S E unit := fun s => (Ok tt, f s).
Definition lift {A} (o : outcome E A) : comp S E A := fun s => (o, s).
Definition ensure (b : bool) (e : E) : comp S E unit := if b then ret tt else fail e.
Definition when (b : bool) (m : comp S E unit) : comp S E unit := if b then m else ret tt.

(** [.expect(..)] on a stateful call. *)
Definition expecting {E' A} (m : comp S E' A) : comp S E A := fun s =>
  match m s with
  | (Ok a, s') => (Ok a, s')
  | (_, s') => (Panic, s')
  end.

(** [.map_err(..).ok()]: an error is logged and forgotten, its writes remain. *)
Definition ignore_error {A} (m : comp S E A) : comp S E unit := fun s =>
  match m s with
  | (Panic, s') => (Panic, s')
  | (_, s') => (Ok tt, s')
  end.

(** [StateDelta::new] around a computation, applied only when it returns [Ok]. *)
Definition transaction {A} (m : comp S E A) : comp S E A := fun s =>
  match m s with
  | (Ok a, s') => (Ok a, s')
  | (r, _) => (r, s)
  end.

(** A [for] loop over a list. *)
Fixpoint for_each {A} (l : list A) (body : A -> comp S E unit) : comp S E unit :=
  match l with
  | [] => ret tt
  | x :: l' => bind (body x) (fun _ => for_each l' body)
  end.

(** A [for] loop that carries an accumulator. *)
Fixpoint for_fold {A B} (l : list A) (b : B) (body : B -> A -> comp S E B) : comp S E B :=
  match l with
  | [] => ret b
  | x :: l' => bind (body b x) (fun b' => for_fold l' b' body)
  end.
End Comp.

Declare Scope comp_scope.
Delimit Scope comp_scope with comp.
Notation "x <- c ;; k" := (bind c (fun x => k))
  (at level 100, c at next level, right associativity) : comp_scope.
Notation "' p <- c ;; k" := (bind c (fun x => match x with p => k end))
  (at level 100, p pattern, c at next level, right associativity) : comp_scope.
Notation "c ;;; k" := (bind c (fun _ => k))
  (at level 100, right associativity) : comp_scope.
#[global] Open Scope comp_scope.

Section CompLemmas.
Context {S E : Type}.

Lemma bind_ok {A B} (m : comp S E A) (k : A -> comp S E B) s b s' :
  bind m k s = (Ok b, s') <-> exists a s1, m s = (Ok a, s1) /\ k a s1 = (Ok b, s').
Proof. unfold bind. destruct (m s) as [[a|e|] s1]; naive_solver. Qed.

Lemma bind_run_ok {A B} (m : comp S E A) (k : A -> comp S E B) s a s1 :
  m s = (Ok a, s1) -> bind m k s = k a s1.
Proof. unfold bind. by intros ->. Qed.

Lemma ret_ok {A} (a b : A) (s s' : S) : @ret S E A a s = (Ok b, s') <-> b = a /\ s' = s.
Proof. unfold ret. naive_solver. Qed.

Lemma gets_ok {A} (f : S -> A) b (s s' : S) : @gets S E A f s = (Ok b, s') <-> b = f s /\ s' = s.
Proof. unfold gets. naive_solver. Qed.

Lemma modify_ok (f : S -> S) u (s s' : S) : @modify S E f s = (Ok u, s') <-> u = tt /\ s' = f s.
Proof. unfold modify. destruct u. naive_solver. Qed.

Lemma bind_run_err {A B} (m : comp S E A) (k : A -> comp S E B) s e s1 :
  m s = (Err e, s1) -> bind m k s = (Err e, s1).
Proof. unfold bind. by intros ->. Qed.

Lemma bind_run_panic {A B} (m : comp S E A) (k : A -> comp S E B) s s1 :
  m s = (Panic, s1) -> bind m k s = (Panic, s1).
Proof. unfold bind. by intros ->. Qed.

Lemma bind_gets {A B} (f : S -> A) (k : A -> comp S E B) s : bind (gets f) k s = k (f s) s.
Proof. done. Qed.

Lemma bind_modify {B} (f : S -> S) (k : unit -> comp S E B) s : bind (modify f) k s = k tt (f s).
Proof. done. Qed.

Lemma bind_ensure_true {B} (e : E) (k : unit -> comp S E B) : bind (ensure true e) k = k tt.
Proof. done. Qed.

Lemma bind_ensure_false {B} (e : E) (k : unit -> comp S E B) s : bind (ensure false e) k s = (Err e, s).
Proof. done. Qed.

Lemma bind_lift_ok {A B} (a : A) (k : A -> comp S E B) : bind (lift (Ok a)) k = k a.
Proof. done. Qed.

Lemma ensure_ok (b : bool) (e : E) (s : S) u s' :
  ensure b e s = (Ok u, s') <-> b = true /\ s' = s.
Proof. destruct b, u; unfold ensure, ret, fail; naive_solver. Qed.

Lemma lift_ok {A} (o : outcome E A) (s : S) a s' :
  lift o s = (Ok a, s') <-> o = Ok a /\ s' = s.
Proof. unfold lift. naive_solver. Qed.

Lemma expecting_ok {E' A} (m : comp S E' A) s a s' :
  @expecting S E E' A m s = (Ok a, s') <-> m s = (Ok a, s').
Proof. unfold expecting. destruct (m s) as [[]]; naive_solver. Qed.

Lemma transaction_ok {A} (m : comp S E A) s a s' :
  transaction m s = (Ok a, s') <-> m s = (Ok a, s').
Proof. unfold transaction. destruct (m s) as [[]]; naive_solver. Qed.

(** A transaction that fails leaves no trace. *)
Lemma transaction_not_ok {A} (m : comp S E A) s r s' :
  transaction m s = (r, s') -> (forall a, r <> Ok a) -> s' = s.
Proof. unfold transaction. destruct (m s) as [[]]; naive_solver. Qed.
End CompLemmas.

(** ** Partial-correctness triples

    [{{ P }} m {{ Q }}]: from a state satisfying [P], if [m] returns [Ok a] in state [s'], then
    [Q a s'] holds. *)

Definition triple {S E A} (P : S -> Prop) (m : comp S E A) (Q : A -> S -> Prop) : Prop :=
  forall s a s', P s -> m s = (Ok a, s') -> Q a s'.

Section Triple.
Context {S E : Type}.
Implicit Types P : S -> Prop.

Lemma triple_ret {A} P (a : A) (Q : A -> S -> Prop) :
  (forall s, P s -> Q a s) -> triple (E:=E) P (ret a) Q.
Proof. intros H s ? ? ? [= <- <-]. auto. Qed.

Lemma triple_fail {A} P (e : E) (Q : A -> S -> Prop) : triple P (fail e) Q.
Proof. intros ? ? ? ? [=]. Qed.

Lemma triple_panic {A} P (Q : A -> S -> Prop) : triple (E:=E) P panic Q.
Proof. intros ? ? ? ? [=]. Qed.

Lemma triple_bind {A B} P (m : comp S E A) R (k : A -> comp S E B) Q :
  triple P m R -> (forall a, triple (R a) (k a) Q) -> triple P (bind m k) Q.
Proof.
  intros Hm Hk s b s' HP H. apply bind_ok in H as (a & s1 & H1 & H2).
  eapply Hk; [eapply Hm; eauto | done].
Qed.

Lemma triple_modify P (f : S -> S) (Q : unit -> S -> Prop) :
  (forall s, P s -> Q tt (f s)) -> triple (E:=E) P (modify f) Q.
Proof. intros H s ? ? ? [= <- <-]. auto. Qed.

Lemma triple_gets {A} P (f : S -> A) (Q : A -> S -> Prop) :
  (forall s, P s -> Q (f s) s) -> triple (E:=E) P (gets f) Q.
Proof. intros H s ? ? ? [= <- <-]. auto. Qed.

Lemma triple_lift {A} P (o : outcome E A) (Q : A -> S -> Prop) :
  (forall s a, P s -> o = Ok a -> Q a s) -> triple P (lift o) Q.
Proof. intros H s ? ? ? [= -> <-]. auto. Qed.

Lemma triple_ensure P b (e : E) (Q : unit -> S -> Prop) :
  (forall s, P s -> b = true -> Q tt s) -> triple P (ensure b e) Q.
Proof. intros H s [] ? ? [? ->]%ensure_ok. auto. Qed.

Lemma triple_conseq {A} P P' (m : comp S E A) Q Q' :
  triple P' m Q' -> (forall s, P s -> P' s) -> (forall a s, Q' a s -> Q a s) ->
  triple P m Q.
Proof. intros H HP HQ s a s' Hs Hm. eapply HQ, H; eauto. Qed.

Lemma triple_for_each {A} (I : S -> Prop) (l : list A) (body : A -> comp S E unit) :
  (forall x, x ∈ l -> triple I (body x) (fun _ => I)) ->
  triple I (for_each l body) (fun _ => I).
Proof.
  induction l as [|x l IH]; intros H; simpl.
  - by apply triple_ret.
  - eapply triple_bind; [apply H; set_solver | intros []].
    apply IH. intros y Hy. apply H. set_solver.
Qed.

Lemma triple_expecting {E' A} P (m : comp S E' A) (Q : A -> S -> Prop) :
  triple P m Q -> triple (E:=E) P (expecting m) Q.
Proof. intros H s a s' HP Hm. exact (H s a s' HP (proj1 (expecting_ok m s a s') Hm)). Qed.
End Triple.

(** Injection that consumes its hypothesis. *)
Ltac inject H := first [ discriminate H | injection H; clear H; intros; subst | clear H ].

(** Eliminate the variables a primitive step has determined: results, then states. *)
Ltac subst_results :=
  repeat match goal with
  | H : ?x = _ |- _ => is_var x; first [subst x | fail 1]
  end.

(** [inv_comp] decomposes hypotheses [m s = (Ok a, s')] down to the primitive steps. *)
Ltac inv_comp_step :=
  match goal with
  | H : bind _ _ _ = (Ok _, _) |- _ =>
      let a := fresh "a" in let s := fresh "s" in let H1 := fresh H in
      apply bind_ok in H as (a & s & H1 & H)
  | H : ensure _ _ _ = (Ok _, _) |- _ => apply ensure_ok in H as [H ->]
  | H : lift _ _ = (Ok _, _) |- _ => apply lift_ok in H as [H ->]
  | H : @expecting _ _ _ _ ?m ?s = (Ok ?a, ?s') |- _ =>
      apply (proj1 (expecting_ok m s a s')) in H
  | H : ret _ _ = (Ok _, _) |- _ => apply ret_ok in H as [? ?]; subst_results
  | H : gets _ _ = (Ok _, _) |- _ => apply gets_ok in H as [? ?]; subst_results
  | H : modify _ _ = (Ok _, _) |- _ => apply modify_ok in H as [? ?]; subst_results
  | H : fail _ _ = (Ok _, _) |- _ => unfold fail in H; discriminate H
  | H : panic _ = (Ok _, _) |- _ => unfold panic in H; discriminate H
  end.
Ltac inv_comp := repeat inv_comp_step.

(** [inv_outcome] does the same for pure outcomes. *)
Ltac inv_outcome_step :=
  match goal with
  | H : outcome_bind _ _ = Ok _ |- _ =>
      let a := fresh "a" in let H1 := fresh H in
      apply outcome_bind_ok in H as (a & H1 & H)
  | H : ok_or _ _ = Ok _ |- _ => apply ok_or_ok in H
  | H : expect_some _ = Ok _ |- _ => apply expect_some_ok in H
  | H : expect_ok ?m = Ok ?a |- _ => apply (proj1 (expect_ok_ok m a)) in H
  | H : map_err ?f ?m = Ok ?a |- _ => apply (proj1 (map_err_ok f m a)) in H
  | H : guard_or _ _ = Ok _ |- _ => apply guard_or_ok in H
  | H : Ok _ = Ok _ |- _ => inject H
  | H : Err _ = Ok _ |- _ => discriminate H
  | H : Panic = Ok _ |- _ => discriminate H
  end.
Ltac inv_outcome := repeat inv_outcome_step.

(** Boolean comparisons of the code, as propositions. *)
Ltac to_prop :=
  repeat match goal with
  | H : (_ && _)%bool = true |- _ => apply andb_true_iff in H as [? ?]
  | H : (_ || _)%bool = false |- _ => apply orb_false_iff in H as [? ?]
  | H : negb _ = true |- _ => apply negb_true_iff in H
  | H : negb _ = false |- _ => apply negb_false_iff in H
  | H : (_ <? _) = true |- _ => apply Z.ltb_lt in H
  | H : (_ <? _) = false |- _ => apply Z.ltb_ge in H
  | H : (_ <=? _) = true |- _ => apply Z.leb_le in H
  | H : (_ <=? _) = false |- _ => apply Z.leb_gt in H
  | H : (_ =? _) = true |- _ => apply Z.eqb_eq in H
  | H : (_ =? _) = false |- _ => apply Z.eqb_neq in H
  | H : bool_decide _ = true |- _ => apply bool_decide_eq_true in H
  | H : bool_decide _ = false |- _ => apply bool_decide_eq_false in H
  end.

(** Closed side conditions: conjunctions of (dis)equations and comparisons of constants. *)
Ltac by_computation :=
  vm_compute; repeat split; solve [ reflexivity | discriminate | let H := fresh in intro H; discriminate H ].

(** ** Machine integers

    An unsigned [w]-bit integer is a [Z] in [0, 2^w).  The checked, saturating and plain
    operations of Rust are spelled out below. *)

Definition in_width (w x : Z) : Prop := 0 <= x < 2 ^ w.
Abbreviation is_u8 := (in_width 8).
Abbreviation is_u16 := (in_width 16).
Abbreviation is_u32 := (in_width 32).
Abbreviation is_u64 := (in_width 64).
Abbreviation is_u128 := (in_width 128).

#[global] Instance in_width_dec w x : Decision (in_width w x).
Proof. unfold in_width. apply _. Defined.

Definition max_int (w : Z) : Z := 2 ^ w - 1.

Definition checked_add (w x y : Z) : option Z := if x + y <? 2 ^ w then Some (x + y) else None.
Definition checked_sub (x y : Z) : option Z := if y <=? x then Some (x - y) else None.
Definition checked_mul (w x y : Z) : option Z := if x * y <? 2 ^ w then Some (x * y) else None.
Definition saturating_add (w x y : Z) : Z := Z.min (x + y) (max_int w).
Definition saturating_sub (x y : Z) : Z := Z.max (x - y) 0.

(** The plain operators: out-of-range results panic (see [outcome]). *)
Definition plain_add {E} (w x y : Z) : outcome E Z := expect_some (checked_add w x y).
Definition plain_sub {E} (x y : Z) : outcome E Z := expect_some (checked_sub x y).
Definition plain_mul {E} (w x y : Z) : outcome E Z := expect_some (checked_mul w x y).

Section MachineIntegers.
Lemma checked_add_some w x y z :
  checked_add w x y = Some z <-> z = x + y /\ x + y < 2 ^ w.
Proof. unfold checked_add. destruct (Z.ltb_spec (x + y) (2 ^ w)); naive_solver lia. Qed.

Lemma checked_sub_some x y z : checked_sub x y = Some z <-> z = x - y /\ y <= x.
Proof. unfold checked_sub. destruct (Z.leb_spec y x); naive_solver lia. Qed.

Lemma checked_mul_some w x y z :
  checked_mul w x y = Some z <-> z = x * y /\ x * y < 2 ^ w.
Proof. unfold checked_mul. destruct (Z.ltb_spec (x * y) (2 ^ w)); naive_solver lia. Qed.

Lemma plain_add_ok {E} w x y z :
  @plain_add E w x y = Ok z <-> z = x + y /\ x + y < 2 ^ w.
Proof. unfold plain_add. rewrite expect_some_ok. apply checked_add_some. Qed.

Lemma plain_sub_ok {E} x y z : @plain_sub E x y = Ok z <-> z = x - y /\ y <= x.
Proof. unfold plain_sub. rewrite expect_some_ok. apply checked_sub_some. Qed.

Lemma plain_mul_ok {E} w x y z :
  @plain_mul E w x y = Ok z <-> z = x * y /\ x * y < 2 ^ w.
Proof. unfold plain_mul. rewrite expect_some_ok. apply checked_mul_some. Qed.

Lemma plain_add_run {E} w x y : x + y < 2 ^ w -> @plain_add E w x y = Ok (x + y).
Proof. intros. by apply plain_add_ok. Qed.

Lemma plain_sub_run {E} x y : y <= x -> @plain_sub E x y = Ok (x - y).
Proof. intros. by apply plain_sub_ok. Qed.

Lemma plain_mul_run {E} w x y : x * y < 2 ^ w -> @plain_mul E w x y = Ok (x * y).
Proof. intros. by apply plain_mul_ok. Qed.

Lemma saturating_add_in_width w x y :
  0 <= w -> in_width w x -> in_width w y -> in_width w (saturating_add w x y).
Proof. unfold in_width, saturating_add, max_int. intros. lia. Qed.

Lemma saturating_add_exact w x y : x + y < 2 ^ w -> saturating_add w x y = x + y.
Proof. unfold saturating_add, max_int. lia. Qed.

Lemma saturating_sub_in_width w x y :
  in_width w x -> 0 <= y -> in_width w (saturating_sub x y).
Proof. unfold in_width, saturating_sub. lia. Qed.

Lemma saturating_sub_exact x y : y <= x -> saturating_sub x y = x - y.
Proof. unfold saturating_sub. lia. Qed.
End MachineIntegers.

Create HintDb machine_int.
#[export] Hint Resolve saturating_add_in_width saturating_sub_in_width : machine_int.

(** Big- and little-endian encodings of fixed-width integers, as lists of byte values. *)
Fixpoint le_bytes (n : nat) (x : Z) : list Z :=
  match n with
  | O => []
  | S n' => (x mod 256) :: le_bytes n' (x / 256)
  end.
Definition be_bytes (n : nat) (x : Z) : list Z := rev (le_bytes n x).

Fixpoint of_le_bytes (bs : list Z) : Z :=
  match bs with
  | [] => 0
  | b :: bs' => b + 256 * of_le_bytes bs'
  end.
Definition of_be_bytes (bs : list Z) : Z := of_le_bytes (rev bs).

Section Bytes.
Lemma le_bytes_length n x : length (le_bytes n x) = n.
Proof. revert x; induction n; intros; simpl; auto. Qed.

Lemma be_bytes_length n x : length (be_bytes n x) = n.
Proof. unfold be_bytes. rewrite length_rev. apply le_bytes_length. Qed.

Lemma of_le_bytes_le_bytes n x :
  0 <= x < 256 ^ Z.of_nat n -> of_le_bytes (le_bytes n x) = x.
Proof.
  revert x. induction n as [|n IH]; intros x Hx.
  - simpl in *. lia.
  - cbn [le_bytes of_le_bytes].
    replace (Z.of_nat (S n)) with (Z.of_nat n + 1) in Hx by lia.
    rewrite Z.pow_add_r in Hx by lia.
    rewrite IH; [pose proof (Z.div_mod x 256); lia|].
    split; [apply Z.div_pos; lia | apply Z.div_lt_upper_bound; lia].
Qed.

Lemma of_be_bytes_be_bytes n x :
  0 <= x < 256 ^ Z.of_nat n -> of_be_bytes (be_bytes n x) = x.
Proof.
  intros. unfold of_be_bytes, be_bytes. rewrite rev_involutive.
  by apply of_le_bytes_le_bytes.
Qed.
End Bytes.

(** Lexicographic comparison of byte strings, the order of the key-value store. *)
Fixpoint lex_compare (l1 l2 : list Z) : comparison :=
  match l1, l2 with
  | [], [] => Eq
  | [], _ :: _ => Lt
  | _ :: _, [] => Gt
  | x :: l1', y :: l2' =>
      match x ?= y with Eq => lex_compare l1' l2' | c => c end
  end.

Section Lex.
Lemma lex_compare_app a b c d :
  length a = length c ->
  lex_compare (a ++ b) (c ++ d) =
    match lex_compare a c with Eq => lex_compare b d | r => r end.
Proof.
  revert c. induction a as [|x a IH]; intros [|y c] Hl; simplify_eq/=; [done|].
  destruct (x ?= y); auto.
Qed.

Lemma be_bytes_S n x : be_bytes (S n) x = be_bytes n (x / 256) ++ [x mod 256].
Proof. done. Qed.

Lemma compare_div_mod b x y :
  0 < b ->
  (x ?= y) = match x / b ?= y / b with Eq => x mod b ?= y mod b | r => r end.
Proof.
  intros Hb.
  pose proof (Z.div_mod x b ltac:(lia)). pose proof (Z.div_mod y b ltac:(lia)).
  pose proof (Z.mod_pos_bound x b Hb). pose proof (Z.mod_pos_bound y b Hb).
  destruct (Z.compare_spec (x / b) (y / b)) as [Heq|Hlt|Hgt].
  - destruct (Z.compare_spec (x mod b) (y mod b));
      [apply Z.compare_eq_iff | apply Z.compare_lt_iff | apply Z.compare_gt_iff]; nia.
  - apply Z.compare_lt_iff. nia.
  - apply Z.compare_gt_iff. nia.
Qed.

Lemma lex_compare_antisym a b : lex_compare a b = CompOpp (lex_compare b a).
Proof.
  revert b. induction a as [|x a IH]; intros [|y b]; cbn; [done..|].
  rewrite (Z.compare_antisym y x). destruct (y ?= x); cbn; auto.
Qed.

Lemma lex_compare_eq a b : lex_compare a b = Eq -> a = b.
Proof.
  revert b. induction a as [|x a IH]; intros [|y b]; cbn; [done..|].
  destruct (Z.compare_spec x y); [|done..]. intros. f_equal; auto.
Qed.

Lemma lex_compare_refl a : lex_compare a a = Eq.
Proof. induction a; cbn; [done|]. by rewrite Z.compare_refl. Qed.

Lemma lex_compare_lt_trans a b c :
  lex_compare a b = Lt -> lex_compare b c = Lt -> lex_compare a c = Lt.
Proof.
  revert b c. induction a as [|x a IH]; intros [|y b] [|z c]; cbn; [done..|].
  destruct (Z.compare_spec x y), (Z.compare_spec y z), (Z.compare_spec x z);
    subst; try done; try lia; eauto.
Qed.

(** Big-endian encodings compare like the numbers they encode. *)
Lemma lex_compare_be_bytes n x y :
  0 <= x < 256 ^ Z.of_nat n -> 0 <= y < 256 ^ Z.of_nat n ->
  lex_compare (be_bytes n x) (be_bytes n y) = (x ?= y).
Proof.
  revert x y. induction n as [|n IH]; intros x y Hx Hy.
  - simpl in *. replace x with y by lia. by rewrite Z.compare_refl.
  - rewrite !be_bytes_S, lex_compare_app by (by rewrite !be_bytes_length).
    replace (Z.of_nat (S n)) with (Z.of_nat n + 1) in Hx, Hy by lia.
    rewrite Z.pow_add_r in Hx, Hy by lia.
    rewrite IH by (split; [apply Z.div_pos; lia | apply Z.div_lt_upper_bound; lia]).
    rewrite (compare_div_mod 256 x y) by lia.
    destruct (x / 256 ?= y / 256); [|done..].
    cbn. by destruct (x mod 256 ?= y mod 256).
Qed.
End Lex.

(** ** Sums over finite maps and lists *)

Section Sums.
Context `{Countable K} {A : Type}.

(** The sum of [f] over the values of a map. *)
Definition map_sum (f : A -> Z) (m : gmap K A) : Z :=
  map_fold (fun _ v acc => f v + acc) 0 m.

Lemma map_sum_empty f : map_sum f ∅ = 0.
Proof. apply map_fold_empty. Qed.

Lemma map_sum_insert_fresh f m k v :
  m !! k = None -> map_sum f (<[k := v]> m) = f v + map_sum f m.
Proof.
  intros Hk. unfold map_sum. rewrite map_fold_insert_L; [done| |done].
  intros. simpl. lia.
Qed.

Lemma map_sum_delete f m k v :
  m !! k = Some v -> map_sum f m = f v + map_sum f (delete k m).
Proof.
  intros Hk. rewrite <- (insert_delete_id m k v) at 1 by done.
  apply map_sum_insert_fresh. apply lookup_delete_eq.
Qed.

Lemma map_sum_update f m k v v' :
  m !! k = Some v -> map_sum f (<[k := v']> m) = map_sum f m + f v' - f v.
Proof.
  intros Hk. rewrite (map_sum_delete f m k v Hk).
  rewrite <- insert_delete_eq, map_sum_insert_fresh by apply lookup_delete_eq. lia.
Qed.

Lemma map_sum_insert f m k v :
  map_sum f (<[k := v]> m) = map_sum f m + f v - from_option f 0 (m !! k).
Proof.
  destruct (m !! k) eqn:Hk; cbn; [by rewrite (map_sum_update f m k _ v Hk)|].
  rewrite map_sum_insert_fresh by done. lia.
Qed.

Lemma map_sum_nonneg f m :
  (forall k v, m !! k = Some v -> 0 <= f v) -> 0 <= map_sum f m.
Proof.
  induction m as [|k v m Hk IH] using map_ind; intros Hf.
  - rewrite map_sum_empty. lia.
  - rewrite map_sum_insert_fresh by done.
    assert (0 <= f v) by (apply (Hf k); apply lookup_insert_eq).
    assert (0 <= map_sum f m); [|lia].
    apply IH. intros k' v' Hk'. apply (Hf k'). rewrite lookup_insert_ne; congruence.
Qed.

Lemma map_sum_lookup_le f m k v :
  (forall k v, m !! k = Some v -> 0 <= f v) -> m !! k = Some v -> f v <= map_sum f m.
Proof.
  intros Hf Hk. rewrite (map_sum_delete f m k v Hk).
  assert (0 <= map_sum f (delete k m)); [|lia].
  apply map_sum_nonneg. intros k' v' [_ Hk']%lookup_delete_Some. by apply (Hf k').
Qed.
End Sums.

Lemma NoDup_omap {A B} (f : A -> option B) l :
  (forall x y b, f x = Some b -> f y = Some b -> x = y) -> NoDup l -> NoDup (omap f l).
Proof.
  intros Hinj. induction 1 as [|x l Hx Hl IH]; cbn; [constructor|].
  destruct (f x) as [b|] eqn:Hf; [|done]. constructor; [|done].
  intros (y & Hy & Hfy)%list_elem_of_omap. by rewrite (Hinj x y b Hf Hfy) in Hx.
Qed.

Definition list_sum (l : list Z) : Z := foldr Z.add 0 l.

Lemma list_sum_app l1 l2 : list_sum (l1 ++ l2) = list_sum l1 + list_sum l2.
Proof. induction l1; simpl in *; lia. Qed.

Lemma list_sum_nonneg l : Forall (fun x => 0 <= x) l -> 0 <= list_sum l.
Proof. induction 1; simpl in *; lia. Qed.

Lemma list_sum_elem_le l x : Forall (fun x => 0 <= x) l -> x ∈ l -> x <= list_sum l.
Proof.
  intros Hl. induction Hl as [|y l Hy Hl IH]; [set_solver|].
  pose proof (list_sum_nonneg l Hl). cbn. fold (list_sum l).
  rewrite elem_of_cons. intros [->|H']; [lia|]. specialize (IH H'). lia.
Qed.

Lemma Forall2_elem_of {A B} (P : A -> B -> Prop) l k x :
  Forall2 P l k -> x ∈ l -> exists y, y ∈ k /\ P x y.
Proof. induction 1; set_solver. Qed.

(** The first element of a sorted list is the least. *)
Lemma sorted_head_least {A} (R : relation A) `{!Reflexive R} l x y :
  StronglySorted R (x :: l) -> y ∈ x :: l -> R x y.
Proof.
  intros [_ Hf]%StronglySorted_inv. rewrite elem_of_cons. rewrite Forall_forall in Hf.
  intros [-> | Hy]; auto.
Qed.

(** ** Ordered maps

    A [BTreeMap] with integer keys is a [gmap] that is iterated in ascending key order. *)

Section BTree.
Context {A : Type}.
Implicit Types m : gmap Z A.

Definition btree_keys m : list Z := merge_sort Z.le (elements (dom m)).
Definition btree_items m : list (Z * A) :=
  omap (fun k => pair k <$> m !! k) (btree_keys m).

Lemma elem_of_btree_keys m k : k ∈ btree_keys m <-> is_Some (m !! k).
Proof.
  unfold btree_keys. rewrite merge_sort_Permutation, elem_of_elements. apply elem_of_dom.
Qed.

Lemma btree_keys_NoDup m : NoDup (btree_keys m).
Proof. unfold btree_keys. rewrite merge_sort_Permutation. apply NoDup_elements. Qed.

Lemma btree_keys_sorted m : StronglySorted Z.le (btree_keys m).
Proof. apply StronglySorted_merge_sort; apply _. Qed.

Lemma elem_of_btree_items m k v : (k, v) ∈ btree_items m <-> m !! k = Some v.
Proof.
  unfold btree_items. rewrite list_elem_of_omap. split.
  - intros (k' & _ & (v' & Hk & [= -> ->])%fmap_Some). done.
  - intros Hk. exists k. rewrite elem_of_btree_keys, Hk. naive_solver.
Qed.

Lemma btree_items_keys m : (btree_items m).*1 = btree_keys m.
Proof.
  unfold btree_items.
  assert (H : forall k, k ∈ btree_keys m -> is_Some (m !! k))
    by (intros; by apply elem_of_btree_keys).
  induction (btree_keys m) as [|k l IH]; [done|]. cbn.
  destruct (H k ltac:(set_solver)) as [v ->]. cbn. f_equal. apply IH. set_solver.
Qed.

Lemma btree_items_NoDup m : NoDup (btree_items m).*1.
Proof. rewrite btree_items_keys. apply btree_keys_NoDup. Qed.

Lemma btree_items_perm m : btree_items m ≡ₚ map_to_list m.
Proof.
  apply NoDup_Permutation.
  - eapply NoDup_fmap_1, btree_items_NoDup.
  - apply NoDup_map_to_list.
  - intros [k v]. by rewrite elem_of_btree_items, elem_of_map_to_list.
Qed.

Lemma btree_items_length m : length (btree_items m) = size m.
Proof. rewrite btree_items_perm. apply length_map_to_list. Qed.

Lemma btree_items_inj m1 m2 : btree_items m1 = btree_items m2 -> m1 = m2.
Proof. intros H. apply map_to_list_inj. by rewrite <- !btree_items_perm, H. Qed.
End BTree.

Lemma btree_items_fmap {A B} (f : A -> B) (m : gmap Z A) :
  btree_items (f <$> m) = prod_map id f <$> btree_items m.
Proof.
  unfold btree_items, btree_keys. rewrite dom_fmap_L.
  induction (merge_sort _ _) as [|k l IH]; [done|]. cbn.
  rewrite lookup_fmap, IH. by destruct (m !! k).
Qed.
