(* ===== verification/Num.v ===== *)
(** * Numbers: [Amount], the 128.128-bit fixed-point type and [Percentage]

    Models crates/core/num: [amount.rs], [fixpoint.rs] with [fixpoint/div.rs], [fixpoint/from.rs],
    [fixpoint/ops.rs], and [percentage/mod.rs].  The circuit counterparts are not modelled. *)

From S2P Require Import Prelude.

(** ** [Amount]: an unsigned 128-bit integer *)
Module Amount.
Definition zero : Z := 0.
Definition checked_sub (a b : Z) : option Z := Prelude.checked_sub a b.
Definition checked_add (a b : Z) : option Z := Prelude.checked_add 128 a b.
Definition checked_mul (a b : Z) : option Z := Prelude.checked_mul 128 a b.
Definition saturating_add (a b : Z) : Z := Prelude.saturating_add 128 a b.
Definition saturating_sub (a b : Z) : Z := Prelude.saturating_sub a b.
(** [!self.inner] *)
Definition not (a : Z) : Z := max_int 128 - a.
Definition to_le_bytes (a : Z) : list Z := le_bytes 16 a.
Definition to_be_bytes (a : Z) : list Z := be_bytes 16 a.
Definition from_le_bytes (bs : list Z) : Z := of_le_bytes bs.
Definition from_be_bytes (bs : list Z) : Z := of_be_bytes bs.

(** The plain operators. *)
Definition add {E} (a b : Z) : outcome E Z := plain_add 128 a b.
Definition sub {E} (a b : Z) : outcome E Z := plain_sub a b.
Definition mul {E} (a b : Z) : outcome E Z := plain_mul 128 a b.
Definition div {E} (a b : Z) : outcome E Z := if b =? 0 then Panic else Ok (a / b).
Definition rem {E} (a b : Z) : outcome E Z := if b =? 0 then Panic else Ok (a mod b).

(** [impl Sum for Amount] *)
Definition sum {E} (l : list Z) : outcome E Z :=
  fold_left (fun acc x => let! a := acc in add a x) l (Ok zero).

(** The protobuf encoding: two 64-bit words. *)
Record proto := Proto { lo : Z; hi : Z }.

Definition to_proto (a : Z) : proto :=
  {| lo := a mod 2 ^ 64; hi := Z.shiftr a 64 mod 2 ^ 64 |}.

Definition of_proto {E} (p : proto) : outcome E Z :=
  let shifted := Z.shiftl (hi p) 64 mod 2 ^ 128 in
  plain_add 128 shifted (lo p).

(** Casts from and to [i128]. *)
Definition from_i128 (x : Z) : Z := x mod 2 ^ 128.
Definition to_i128 (a : Z) : Z := if a <? 2 ^ 127 then a else a - 2 ^ 128.

Lemma sum_exact {E} l :
  Forall (fun x => 0 <= x) l -> list_sum l < 2 ^ 128 -> @sum E l = Ok (list_sum l).
Proof.
  intros Hl Hs. unfold sum, zero.
  assert (G : forall acc, 0 <= acc -> acc + list_sum l < 2 ^ 128 ->
    fold_left (fun a x => let! a' := a in add a' x) l (Ok acc)
      = (Ok (acc + list_sum l) : outcome E Z)); [|by apply G; lia].
  clear Hs. induction Hl as [|x l Hx Hl IH]; intros acc Hacc Hs; cbn [fold_left].
  - cbn. by rewrite Z.add_0_r.
  - pose proof (list_sum_nonneg l Hl). cbn [list_sum foldr] in Hs.
    change (foldr Z.add 0 l) with (list_sum l) in Hs.
    cbn [outcome_bind]. unfold add. rewrite plain_add_run by lia.
    rewrite IH by lia. cbn. f_equal. unfold list_sum. lia.
Qed.

Lemma not_involutive a : not (not a) = a.
Proof. unfold not. lia. Qed.

Lemma to_of_i128 a : is_u128 a -> from_i128 (to_i128 a) = a.
Proof.
  unfold in_width, from_i128, to_i128. intros Ha.
  destruct (Z.ltb_spec a (2 ^ 127)).
  - apply Z.mod_small. lia.
  - replace (a - 2 ^ 128) with (a + (-1) * 2 ^ 128) by lia.
    rewrite Z.mod_add by lia. apply Z.mod_small. lia.
Qed.

(** The two-word protobuf encoding loses nothing. *)
Lemma proto_roundtrip {E} a : is_u128 a -> @of_proto E (to_proto a) = Ok a.
Proof.
  unfold in_width, of_proto, to_proto; cbn. intros Ha.
  rewrite Z.shiftr_div_pow2, Z.shiftl_mul_pow2 by lia.
  assert (0 <= a / 2 ^ 64 < 2 ^ 64)
    by (split; [apply Z.div_pos | apply Z.div_lt_upper_bound]; lia).
  rewrite (Z.mod_small (a / 2 ^ 64)) by lia.
  rewrite Z.mod_small by lia.
  apply plain_add_ok. pose proof (Z.div_mod a (2 ^ 64)). lia.
Qed.
End Amount.

(** ** [U128x128]: 128 integral and 128 fractional bits, stored as one 256-bit integer *)
Module U128x128.
Inductive error :=
| Overflow
| Underflow
| DivisionByZero
| NonIntegral (value : Z)
| SliceLength (len : nat).

#[global] Instance error_eq_dec : EqDecision error.
Proof. solve_decision. Defined.

Definition B : Z := 2 ^ 128.
Definition U256 : Z := 2 ^ 256.
Definition wf (x : Z) : Prop := 0 <= x < U256.

(** [ethnum]'s (high, low) words. *)
Definition into_words (x : Z) : Z * Z := (x / B, x mod B).
Definition from_words (h l : Z) : Z := h * B + l.

(** The unsigned conversions [From<u8>] ... [From<u128>] and [From<Amount>]. *)
Definition from_uint (v : Z) : Z := from_words v 0.

Definition default : Z := from_uint 0.

Definition to_bytes (x : Z) : list Z :=
  let '(h, l) := into_words x in be_bytes 16 h ++ be_bytes 16 l.

Definition from_bytes (bs : list Z) : Z :=
  from_words (of_be_bytes (take 16 bs)) (of_be_bytes (take 16 (drop 16 bs))).

(** [TryFrom<&[u8]>] *)
Definition try_from_slice (bs : list Z) : outcome error Z :=
  if decide (length bs = 32%nat) then Ok (from_bytes bs) else Err (SliceLength (length bs)).

Definition is_integral (x : Z) : bool := (into_words x).2 =? 0.

Definition round_down (x : Z) : Z := from_words (into_words x).1 0.

Definition round_up (x : Z) : outcome error Z :=
  let '(integral, fractional) := into_words x in
  if fractional =? 0 then Ok x
  else
    let! integral := ok_or (Prelude.checked_add 128 integral 1) Overflow in
    Ok (from_words integral 0).

(** [TryFrom<U128x128> for u128]; [TryFrom<U128x128> for Amount] is the same conversion. *)
Definition try_into_u128 (x : Z) : outcome error Z :=
  if is_integral x then Ok (into_words x).1 else Err (NonIntegral x).

Definition try_into_u64 (x : Z) : outcome error Z :=
  let! v := try_into_u128 x in
  if v <? 2 ^ 64 then Ok v else Err Overflow.

(** [U256::checked_shl] only refuses shifts of 256 bits or more and drops the bits shifted out. *)
Definition checked_shl (x n : Z) : option Z :=
  if n <? 256 then Some (Z.shiftl x n mod U256) else None.

Definition checked_mul (x y : Z) : outcome error Z :=
  let '(x1, x0) := into_words x in
  let '(y1, y0) := into_words y in
  let x0y0 := x0 * y0 in
  let x0y1 := x0 * y1 in
  let x1y0 := x1 * y0 in
  let x1y1 := x1 * y1 in
  let '(x1y1_hi, _) := into_words x1y1 in
  if negb (x1y1_hi =? 0) then Err Overflow
  else
    ok_or (acc ← checked_shl x1y1 128;
           acc ← Prelude.checked_add 256 acc x0y1;
           acc ← Prelude.checked_add 256 acc x1y0;
           Prelude.checked_add 256 acc (Z.shiftr x0y0 128)) Overflow.

(** A [UBig] fits when it has at most 32 bytes. *)
Definition ubig_to_u256 (x : Z) : option Z := if x <? U256 then Some x else None.

Definition stub_div_rem_u384_by_u256 (x y : Z) : outcome error (Z * Z) :=
  if y =? 0 then Err DivisionByZero
  else
    let x_big_128 := Z.shiftl x 128 in
    let q_big := x_big_128 / y in
    let rem_big := x_big_128 - y * q_big in
    match ubig_to_u256 q_big with
    | None => Err Overflow
    | Some q =>
        let! rem := expect_some (ubig_to_u256 rem_big) in
        Ok (q, rem)
    end.

Definition checked_div (x y : Z) : outcome error Z :=
  let! '(quo, _) := stub_div_rem_u384_by_u256 x y in Ok quo.

Definition checked_add (x y : Z) : outcome error Z :=
  ok_or (Prelude.checked_add 256 x y) Overflow.

Definition checked_sub (x y : Z) : outcome error Z :=
  ok_or (Prelude.checked_sub x y) Underflow.

Definition saturating_sub (x y : Z) : Z := Prelude.saturating_sub x y.

Definition ratio (numerator denominator : Z) : outcome error Z :=
  checked_div numerator denominator.

Definition apply_to_amount (self rhs : Z) : outcome error Z :=
  let! mul := checked_mul (from_uint rhs) self in
  expect_ok (try_into_u128 (round_down mul)).

(** *** Lemmas *)

Lemma B_pos : 0 < B.
Proof. unfold B. lia. Qed.

Lemma U256_B : U256 = B * B.
Proof. reflexivity. Qed.

Lemma B_lt_U256 : B < U256.
Proof. reflexivity. Qed.

Lemma from_uint_eq v : from_uint v = v * B.
Proof. unfold from_uint, from_words. lia. Qed.

Lemma wf_words x : wf x <-> 0 <= x / B < B.
Proof.
  unfold wf. rewrite U256_B. pose proof B_pos.
  pose proof (Z.div_mod x B ltac:(lia)). pose proof (Z.mod_pos_bound x B ltac:(lia)).
  split; intros; split; nia.
Qed.

Lemma wf_from_uint v : is_u128 v -> wf (from_uint v).
Proof. unfold in_width, wf. rewrite from_uint_eq, U256_B. fold B. pose proof B_pos. nia. Qed.

Lemma is_integral_spec x : is_integral x = true <-> x = x / B * B.
Proof.
  unfold is_integral, into_words; simpl. rewrite Z.eqb_eq.
  pose proof (Z.div_mod x B). pose proof B_pos. lia.
Qed.

Lemma is_integral_from_uint v : is_integral (from_uint v) = true.
Proof.
  apply is_integral_spec. rewrite from_uint_eq. pose proof B_pos.
  rewrite Z.div_mul by lia. lia.
Qed.

Lemma try_into_u128_from_uint v : try_into_u128 (from_uint v) = Ok v.
Proof.
  unfold try_into_u128. rewrite is_integral_from_uint.
  unfold into_words; simpl. rewrite from_uint_eq, Z.div_mul; [done|].
  pose proof B_pos; lia.
Qed.

Lemma round_down_eq x : round_down x = from_uint (x / B).
Proof. done. Qed.

(** Ceiling division by [B], the integral part of [round_up]. *)
Definition ceil (x : Z) : Z := (x + B - 1) / B.

Lemma ceil_spec x : B * (ceil x - 1) < x <= B * ceil x.
Proof.
  unfold ceil. pose proof B_pos.
  pose proof (Z.div_mod (x + B - 1) B ltac:(lia)).
  pose proof (Z.mod_pos_bound (x + B - 1) B ltac:(lia)). lia.
Qed.

Lemma ceil_le x n : x <= B * n -> ceil x <= n.
Proof. intros H. pose proof (ceil_spec x). pose proof B_pos. nia. Qed.

Lemma ceil_nonneg x : 0 <= x -> 0 <= ceil x.
Proof. intros H. pose proof (ceil_spec x). pose proof B_pos. nia. Qed.

Lemma round_up_eq x :
  0 <= x -> ceil x < B -> round_up x = Ok (from_uint (ceil x)).
Proof.
  intros Hx Hc. unfold round_up, into_words. pose proof B_pos.
  pose proof (Z.div_mod x B ltac:(lia)). pose proof (Z.mod_pos_bound x B ltac:(lia)).
  pose proof (ceil_spec x).
  destruct (Z.eqb_spec (x mod B) 0) as [Hz|Hz].
  - assert (ceil x = x / B) as -> by nia. f_equal. rewrite from_uint_eq. lia.
  - assert (ceil x = x / B + 1) as Hc' by nia.
    unfold Prelude.checked_add. fold B.
    destruct (Z.ltb_spec (x / B + 1) B); [|lia]. simpl. by rewrite Hc'.
Qed.

(** Fixed-point multiplication computes the exact product rounded down to 2^-128, and reports
    an overflow exactly when the result needs more than 256 bits. *)
Lemma checked_mul_eq x y :
  wf x -> wf y ->
  checked_mul x y = if x * y / B <? U256 then Ok (x * y / B) else Err Overflow.
Proof.
  intros Hx Hy. unfold checked_mul, into_words, checked_shl.
  pose proof B_pos as HB.
  apply wf_words in Hx, Hy.
  pose proof (Z.div_mod x B ltac:(lia)) as Ex. pose proof (Z.mod_pos_bound x B HB) as Mx.
  pose proof (Z.div_mod y B ltac:(lia)) as Ey. pose proof (Z.mod_pos_bound y B HB) as My.
  set (x1 := x / B) in *. set (x0 := x mod B) in *.
  set (y1 := y / B) in *. set (y0 := y mod B) in *.
  assert (x * y / B = x1 * y1 * B + x0 * y1 + x1 * y0 + x0 * y0 / B) as ->.
  { rewrite Ex, Ey.
    replace ((B * x1 + x0) * (B * y1 + y0))
      with (x0 * y0 + (x1 * y1 * B + x0 * y1 + x1 * y0) * B) by ring.
    rewrite Z.div_add by lia. lia. }
  rewrite Z.shiftr_div_pow2, Z.shiftl_mul_pow2 by lia. fold B.
  assert (0 <= x0 * y0 / B) by (apply Z.div_pos; nia).
  assert (0 <= x1 * y1) by nia. assert (0 <= x0 * y1) by nia. assert (0 <= x1 * y0) by nia.
  change (128 <? 256) with true; cbn [mbind option_bind].
  destruct (Z.eqb_spec (x1 * y1 / B) 0) as [Hhi|Hhi]; cbn [negb].
  - assert (x1 * y1 < B).
    { apply Z.div_small_iff in Hhi; [|lia]. destruct Hhi; lia. }
    rewrite Z.mod_small by (rewrite U256_B; nia).
    unfold Prelude.checked_add. change (2 ^ 256) with U256.
    repeat (match goal with |- context [?a <? ?b] => destruct (Z.ltb_spec a b) end; simpl);
      try done; lia.
  - assert (B <= x1 * y1).
    { destruct (Z.lt_ge_cases (x1 * y1) B); [|done]. rewrite Z.div_small in Hhi; lia. }
    destruct (Z.ltb_spec (x1 * y1 * B + x0 * y1 + x1 * y0 + x0 * y0 / B) U256); [|done].
    rewrite U256_B in *. nia.
Qed.

(** Fixed-point division: the exact quotient rounded down to 2^-128. *)
Lemma stub_div_rem_eq x y :
  0 <= x -> wf y ->
  stub_div_rem_u384_by_u256 x y =
    if y =? 0 then Err DivisionByZero
    else if x * B / y <? U256 then Ok (x * B / y, x * B mod y) else Err Overflow.
Proof.
  intros Hx [Hy1 Hy2]. unfold stub_div_rem_u384_by_u256, ubig_to_u256.
  destruct (Z.eqb_spec y 0); [done|].
  rewrite Z.shiftl_mul_pow2 by lia. fold B.
  destruct (Z.ltb_spec (x * B / y) U256); [|done].
  rewrite <- Z.mod_eq by lia.
  pose proof (Z.mod_pos_bound (x * B) y ltac:(lia)).
  destruct (Z.ltb_spec (x * B mod y) U256); [done|lia].
Qed.

Lemma checked_div_eq x y :
  0 <= x -> wf y ->
  checked_div x y =
    if y =? 0 then Err DivisionByZero
    else if x * B / y <? U256 then Ok (x * B / y) else Err Overflow.
Proof.
  intros. unfold checked_div. rewrite stub_div_rem_eq by done.
  destruct (y =? 0); [done|]. by destruct (_ <? _).
Qed.

Lemma checked_mul_ok x y z :
  wf x -> wf y -> checked_mul x y = Ok z <-> z = x * y / B /\ x * y / B < U256.
Proof.
  intros. rewrite checked_mul_eq by done.
  destruct (Z.ltb_spec (x * y / B) U256); naive_solver lia.
Qed.

Lemma checked_mul_wf x y z : wf x -> wf y -> checked_mul x y = Ok z -> wf z.
Proof.
  intros Hx Hy [-> Hz]%checked_mul_ok; [|done..]. pose proof B_pos.
  split; [|done]. apply Z.div_pos; [|done]. unfold wf in *. nia.
Qed.

Lemma checked_div_wf x y z : 0 <= x -> wf y -> checked_div x y = Ok z -> wf z.
Proof.
  intros Hx Hy. pose proof B_pos. rewrite checked_div_eq by done.
  destruct (Z.eqb_spec y 0); [done|].
  destruct (Z.ltb_spec (x * B / y) U256); [|done].
  intros [= <-]. split; [|done]. apply Z.div_pos; [nia|]. unfold wf in *. lia.
Qed.

Lemma checked_mul_never_panics x y : wf x -> wf y -> checked_mul x y <> Panic.
Proof. intros. rewrite checked_mul_eq by done. by destruct (_ <? _). Qed.

Lemma checked_div_never_panics x y : 0 <= x -> wf y -> checked_div x y <> Panic.
Proof.
  intros. rewrite checked_div_eq by done. destruct (_ =? _); [done|]. by destruct (_ <? _).
Qed.

(** [apply_to_amount] is multiplication of an integer by a fraction, rounded down once. *)
Lemma apply_to_amount_eq f a :
  wf f -> is_u128 a ->
  apply_to_amount f a = if f * a / B <? B then Ok (f * a / B) else Err Overflow.
Proof.
  intros Hf Ha. unfold apply_to_amount. pose proof B_pos.
  rewrite checked_mul_eq by (done || by apply wf_from_uint).
  rewrite from_uint_eq. replace (a * B * f) with (f * a * B) by ring.
  rewrite Z.div_mul by lia. rewrite U256_B.
  assert (0 <= f * a) by (unfold wf, in_width in *; nia).
  destruct (Z.ltb_spec (f * a) (B * B)) as [Hlt|Hge]; cbn [outcome_bind].
  - rewrite round_down_eq, try_into_u128_from_uint. cbn [expect_ok].
    destruct (Z.ltb_spec (f * a / B) B) as [|Hc]; [done|].
    assert (f * a / B < B) by (apply Z.div_lt_upper_bound; lia). lia.
  - destruct (Z.ltb_spec (f * a / B) B) as [Hc|]; [|done].
    pose proof (Z.div_le_lower_bound (f * a) B B). lia.
Qed.

Lemma to_from_bytes x : wf x -> from_bytes (to_bytes x) = x.
Proof.
  intros Hx. unfold from_bytes, to_bytes, into_words. pose proof B_pos.
  rewrite take_app_length' by (by rewrite be_bytes_length).
  rewrite drop_app_length' by (by rewrite be_bytes_length).
  rewrite take_ge by (by rewrite be_bytes_length).
  change (256 ^ Z.of_nat 16) with B.
  rewrite !of_be_bytes_be_bytes; change (256 ^ Z.of_nat 16) with B.
  - unfold from_words. pose proof (Z.div_mod x B). lia.
  - apply Z.mod_pos_bound; lia.
  - by apply wf_words.
Qed.

(** The byte encoding preserves the order, which is what makes it usable as a price key. *)
Lemma to_bytes_lex x y :
  wf x -> wf y -> lex_compare (to_bytes x) (to_bytes y) = (x ?= y).
Proof.
  intros Hx Hy. apply wf_words in Hx, Hy. pose proof B_pos.
  unfold to_bytes, into_words.
  rewrite lex_compare_app by (by rewrite !be_bytes_length).
  rewrite !lex_compare_be_bytes; change (256 ^ Z.of_nat 16) with B;
    try done; try (apply Z.mod_pos_bound; lia).
  by rewrite (compare_div_mod B x y) by lia.
Qed.
End U128x128.

(** ** [Percentage] *)
Module Percentage.
Definition zero : Z := 0.
Definition to_percent (p : Z) : Z := p.
Definition from_percent (p : Z) : Z := Z.min p 100.
Definition complement {E} (p : Z) : outcome E Z := plain_sub 100 p.
(** [From<Percentage> for U128x128] *)
Definition to_fixpoint {E} (p : Z) : outcome E Z :=
  expect_ok (U128x128.ratio (U128x128.from_uint (to_percent p)) (U128x128.from_uint 100)).

Definition wf (p : Z) : Prop := 0 <= p <= 100.

Lemma from_percent_wf p : 0 <= p -> wf (from_percent p).
Proof. unfold wf, from_percent. lia. Qed.

Lemma to_fixpoint_eq {E} p : wf p -> @to_fixpoint E p = Ok (p * U128x128.B / 100).
Proof.
  unfold wf, to_fixpoint, U128x128.ratio, to_percent. intros Hp.
  rewrite U128x128.checked_div_eq.
  - rewrite !U128x128.from_uint_eq. pose proof U128x128.B_pos.
    destruct (Z.eqb_spec (100 * U128x128.B) 0); [lia|].
    rewrite Z.mul_comm with (n := p * _), Z.mul_comm with (n := 100).
    rewrite Z.div_mul_cancel_l by lia.
    assert (p * U128x128.B / 100 <= U128x128.B) by (apply Z.div_le_upper_bound; nia).
    destruct (Z.ltb_spec (p * U128x128.B / 100) U128x128.U256); [done|].
    assert (U128x128.B < U128x128.U256) by reflexivity. lia.
  - rewrite U128x128.from_uint_eq. pose proof U128x128.B_pos. nia.
  - by apply U128x128.wf_from_uint.
Qed.
End Percentage.

(** ** Properties *)

(** Fixed-point multiplication through 128-bit limbs is exact multiplication rounded down to 2^-128,
    and fails exactly on results of more than 256 bits. *)
Theorem fixpoint_mul_exact x y :
  U128x128.wf x -> U128x128.wf y ->
  U128x128.checked_mul x y =
    if x * y / U128x128.B <? U128x128.U256 then Ok (x * y / U128x128.B)
    else Err U128x128.Overflow.
Proof. apply U128x128.checked_mul_eq. Qed.

(** (C4) The 32-byte encoding of fixed-point numbers is an order embedding into byte strings ordered
    lexicographically (the order of the price index), and decoding inverts it. *)
Theorem fixpoint_bytes_order_embedding x y :
  U128x128.wf x -> U128x128.wf y ->
  lex_compare (U128x128.to_bytes x) (U128x128.to_bytes y) = (x ?= y)
  /\ U128x128.from_bytes (U128x128.to_bytes x) = x
  /\ length (U128x128.to_bytes x) = 32%nat.
Proof.
  intros Hx Hy. split; [by apply U128x128.to_bytes_lex|].
  split; [by apply U128x128.to_from_bytes|].
  unfold U128x128.to_bytes, U128x128.into_words. by rewrite length_app, !be_bytes_length.
Qed.

Lemma fixpoint_mul_exact_witness :
  U128x128.wf (3 * 2 ^ 127) /\
  U128x128.checked_mul (3 * 2 ^ 127) (5 * 2 ^ 126) =
    if 3 * 2 ^ 127 * (5 * 2 ^ 126) / U128x128.B <? U128x128.U256
    then Ok (3 * 2 ^ 127 * (5 * 2 ^ 126) / U128x128.B) else Err U128x128.Overflow.
Proof.
  assert (H1 : U128x128.wf (3 * 2 ^ 127)) by by_computation.
  assert (H2 : U128x128.wf (5 * 2 ^ 126)) by by_computation.
  split; [exact H1|]. exact (fixpoint_mul_exact _ _ H1 H2).
Defined.

Lemma fixpoint_bytes_order_embedding_witness :
  U128x128.wf (2 ^ 127) /\ U128x128.wf (2 ^ 128) /\
  lex_compare (U128x128.to_bytes (2 ^ 127)) (U128x128.to_bytes (2 ^ 128)) = Lt.
Proof.
  assert (H1 : U128x128.wf (2 ^ 127)) by by_computation.
  assert (H2 : U128x128.wf (2 ^ 128)) by by_computation.
  split; [exact H1|]. split; [exact H2|].
  exact (proj1 (fixpoint_bytes_order_embedding _ _ H1 H2)).
Defined.
