(* ===== verification/Asset.v ===== *)
(** * Assets: values, imbalances and balances

    Models crates/core/asset: the [Value] record, [balance/imbalance.rs], [balance.rs] (addition,
    negation, comparison, commitment) and [balance/iter.rs].  A balance is specified by what it
    denotes, a signed integer for every asset; the operations are proved to compute on denotations,
    whatever the representation ([negated] flag, stored sign) happens to be. *)

From S2P Require Import Prelude.
From S2P Require Import Num.

(** An [asset::Id] is a field element; its order is the order of its canonical integer. *)
Abbreviation asset_id := Z.

Record Value := mkValue { amount : Z; value_asset : asset_id }.
#[global] Instance Value_eq_dec : EqDecision Value.
Proof. solve_decision. Defined.

Module Imbalance.
Inductive t (T : Type) : Type :=
| Required (x : T)
| Provided (x : T).
Arguments Required {T} x.
Arguments Provided {T} x.

Inductive sign := SRequired | SProvided.

#[global] Instance t_eq_dec {T} `{EqDecision T} : EqDecision (t T).
Proof. solve_decision. Defined.
#[global] Instance sign_eq_dec : EqDecision sign.
Proof. solve_decision. Defined.

Definition neg {T} (i : t T) : t T :=
  match i with Required x => Provided x | Provided x => Required x end.

Definition into_inner {T} (i : t T) : sign * T :=
  match i with Required x => (SRequired, x) | Provided x => (SProvided, x) end.

Definition of_sign {T} (s : sign) (x : T) : t T :=
  match s with SRequired => Required x | SProvided => Provided x end.

Definition map {T T'} (f : T -> T') (i : t T) : t T' :=
  match i with Required x => Required (f x) | Provided x => Provided (f x) end.

Definition required {T} (i : t T) : option T :=
  match i with Required x => Some x | Provided _ => None end.
Definition provided {T} (i : t T) : option T :=
  match i with Required _ => None | Provided x => Some x end.

(** The two cases of [add] whose left operand is [Required]. *)
Definition add_required {E} (r : Z) (other : t Z) : outcome E (option (t Z)) :=
  match other with
  | Required s =>
      match checked_add 128 r s with
      | Some x => Ok (Some (Required x))
      | None => Panic
      end
  | Provided p =>
      Ok (match p ?= r with
          | Lt => Some (Required (r - p))
          | Eq => None
          | Gt => Some (Provided (p - r))
          end)
  end.

(** [impl Add for Imbalance<NonZeroU128>]: the other cases negate, add and negate back. *)
Definition add {E} (x y : t Z) : outcome E (option (t Z)) :=
  match x with
  | Required r => add_required r y
  | Provided p => let! o := add_required p (neg y) in Ok (option_map neg o)
  end.

(** What an imbalance stands for. *)
Definition denote (i : t Z) : Z := match i with Required x => - x | Provided x => x end.
Definition denote_opt (o : option (t Z)) : Z := from_option denote 0 o.

Definition magnitude {T} (i : t T) : T := (into_inner i).2.
Definition wf (i : t Z) : Prop := 0 < magnitude i < 2 ^ 128.

Lemma imbalance_denote_neg i : denote (neg i) = - denote i.
Proof. destruct i; simpl; lia. Qed.

Lemma neg_neg {T} (i : t T) : neg (neg i) = i.
Proof. by destruct i. Qed.

Lemma wf_neg i : wf (neg i) <-> wf i.
Proof. by destruct i. Qed.

Lemma denote_wf_nonzero i : wf i -> denote i <> 0.
Proof. destruct i; unfold wf, magnitude; cbn -[Z.pow]; lia. Qed.

Lemma denote_inj i j : wf i -> wf j -> denote i = denote j -> i = j.
Proof. destruct i, j; unfold wf, magnitude; cbn -[Z.pow]; intros; f_equal; lia. Qed.

(** Addition is integer addition of denotations; a zero result is [None], and the only failure
    is a magnitude that leaves 128 bits. *)
Lemma add_spec {E} x y :
  wf x -> wf y ->
  match @add E x y with
  | Ok o => denote_opt o = denote x + denote y /\ (forall i, o = Some i -> wf i)
  | Err _ => False
  | Panic => 2 ^ 128 <= Z.abs (denote x + denote y)
  end.
Proof.
  unfold wf, magnitude, add, add_required, checked_add.
  destruct x as [r|r], y as [s|s]; cbn -[Z.pow]; intros Hx Hy;
    repeat first
      [ match goal with |- context [?a <? ?b] => destruct (Z.ltb_spec a b) end
      | match goal with |- context [?a ?= ?b] => destruct (Z.compare_spec a b) end
      | progress cbn -[Z.pow] ];
    first [ split; [lia | intros ? [= <-]; cbn -[Z.pow]; lia] | split; [lia|done] | lia ].
Qed.
End Imbalance.

Module Balance.
Import Imbalance.

Record t := mk { negated : bool; balance : gmap asset_id (Imbalance.t Z) }.

Definition zero : t := mk false ∅.
Definition is_zero (b : t) : bool := bool_decide (balance b = ∅).
Definition dimension (b : t) : nat := size (balance b).

Definition neg (b : t) : t := mk (negb (negated b)) (balance b).

(** [Iter] and [IntoIter]: ascending asset ids, each imbalance flipped when [negated]. *)
Definition iter (b : t) : list (Imbalance.t Value) :=
  (fun '(id, imb) =>
     let v := Imbalance.map (fun a => mkValue a id) imb in
     if negated b then Imbalance.neg v else v) <$> btree_items (balance b).

Definition required (b : t) : list Value := omap Imbalance.required (iter b).
Definition provided (b : t) : list Value := omap Imbalance.provided (iter b).

Definition from_value (v : Value) : t :=
  mk false (if amount v =? 0 then ∅ else {[ value_asset v := Provided (amount v) ]}).

Definition from_signed_value (sgn : bool) (v : Value) : option t :=
  if amount v =? 0 then None
  else Some (mk false
         {[ value_asset v := if sgn then Required (amount v) else Provided (amount v) ]}).

(** One round of the loop of [add]: merge one imbalance into [self]. *)
Definition add_imbalance {E} (self : t) (i : Imbalance.t Value) : outcome E t :=
  let '(sgn, v) := into_inner i in
  let! imbalance :=
    (if amount v =? 0 then Panic else Ok (of_sign sgn (amount v))) in
  match balance self !! value_asset v with
  | None =>
      let stored := if negated self then Imbalance.neg imbalance else imbalance in
      Ok (mk (negated self) (<[ value_asset v := stored ]> (balance self)))
  | Some entry =>
      let existing := if negated self then Imbalance.neg entry else entry in
      let! sum := Imbalance.add existing imbalance in
      match sum with
      | Some new_imbalance =>
          let stored := if negated self then Imbalance.neg new_imbalance else new_imbalance in
          Ok (mk (negated self) (<[ value_asset v := stored ]> (balance self)))
      | None => Ok (mk (negated self) (delete (value_asset v) (balance self)))
      end
  end.

Fixpoint add_all {E} (self : t) (l : list (Imbalance.t Value)) : outcome E t :=
  match l with
  | [] => Ok self
  | i :: l' => let! self' := add_imbalance self i in add_all self' l'
  end.

(** [impl Add for Balance] iterates through the smaller operand. *)
Definition add {E} (self other : t) : outcome E t :=
  let '(self, other) :=
    if (dimension self <? dimension other)%nat then (other, self) else (self, other) in
  add_all self (iter other).

Definition sub {E} (self other : t) : outcome E t := add self (neg other).
Definition add_value {E} (self : t) (v : Value) : outcome E t := add self (from_value v).
Definition sub_value {E} (self : t) (v : Value) : outcome E t := sub self (from_value v).

(** [PartialEq]: same dimension and the same canonical imbalances in order. *)
Definition eqb (a b : t) : bool :=
  bool_decide (dimension a = dimension b)
  && forallb (fun p => bool_decide (p.1 = p.2)) (zip (iter a) (iter b)).

(** *** Denotation *)

Definition wf (b : t) : Prop := map_Forall (fun _ i => Imbalance.wf i) (balance b).

Definition signed (neg : bool) (i : Imbalance.t Z) : Z :=
  if neg then - Imbalance.denote i else Imbalance.denote i.

(** The quantity of [id] that the balance provides (negative when it requires it). *)
Definition denote (b : t) (id : asset_id) : Z :=
  from_option (signed (negated b)) 0 (balance b !! id).

(** The denotation of one entry of the iterator. *)
Definition denote_item (i : Imbalance.t Value) (id : asset_id) : Z :=
  let '(sgn, v) := into_inner i in
  if decide (value_asset v = id) then Imbalance.denote (of_sign sgn (amount v)) else 0.

Definition wf_item (i : Imbalance.t Value) : Prop :=
  Imbalance.wf (Imbalance.map amount i).

(** Canonical form of a stored entry. *)
Lemma signed_neg_if n i :
  signed n (if n then Imbalance.neg i else i) = Imbalance.denote i.
Proof. unfold signed. destruct n; rewrite ?imbalance_denote_neg; lia. Qed.

Lemma denote_neg_if (n : bool) i :
  Imbalance.denote (if n then Imbalance.neg i else i) = signed n i.
Proof. unfold signed. destruct n; by rewrite ?imbalance_denote_neg. Qed.

Lemma wf_neg_if (n : bool) i : Imbalance.wf (if n then Imbalance.neg i else i) <-> Imbalance.wf i.
Proof. destruct n; by rewrite ?wf_neg. Qed.

Lemma denote_neg b id : denote (neg b) id = - denote b id.
Proof.
  unfold denote, neg, signed; cbn. destruct (balance b !! id), (negated b); cbn; lia.
Qed.

Lemma wf_neg_iff b : wf (neg b) <-> wf b.
Proof. done. Qed.

Lemma denote_insert b id n i id' :
  denote (mk n (<[ id := if n then Imbalance.neg i else i ]> (balance b))) id' =
    if decide (id = id') then Imbalance.denote i else denote (mk n (balance b)) id'.
Proof.
  unfold denote; cbn. rewrite lookup_insert. case_decide; [|done].
  cbn. apply signed_neg_if.
Qed.

Lemma denote_delete b id n id' :
  denote (mk n (delete id (balance b))) id' =
    if decide (id = id') then 0 else denote (mk n (balance b)) id'.
Proof. unfold denote; cbn. rewrite lookup_delete. by case_decide. Qed.

Lemma wf_insert b id n i :
  wf b -> Imbalance.wf i ->
  wf (mk n (<[ id := if n then Imbalance.neg i else i ]> (balance b))).
Proof.
  intros Hb Hi. apply map_Forall_insert_2; [by apply wf_neg_if | exact Hb].
Qed.

Lemma wf_delete b id n : wf b -> wf (mk n (delete id (balance b))).
Proof. intros Hb. by apply map_Forall_delete. Qed.

(** One round adds one item, or reports an overflow of 128 bits. *)
Lemma add_imbalance_spec {E} b i :
  wf b -> wf_item i ->
  match @add_imbalance E b i with
  | Ok b' => wf b' /\ forall id, denote b' id = denote b id + denote_item i id
  | Err _ => False
  | Panic => exists id, 2 ^ 128 <= Z.abs (denote b id + denote_item i id)
  end.
Proof.
  intros Hb Hi. unfold add_imbalance, denote_item.
  destruct (into_inner i) as [sgn v] eqn:Hinner.
  assert (Hw : Imbalance.wf (of_sign sgn (amount v))).
  { destruct i; simplify_eq/=; exact Hi. }
  assert (amount v <> 0) as Hnz by (destruct sgn; unfold Imbalance.wf, Imbalance.magnitude in Hw; cbn -[Z.pow] in Hw; lia).
  destruct (Z.eqb_spec (amount v) 0); [done|]. cbn [outcome_bind].
  set (imb := of_sign sgn (amount v)) in *.
  destruct (balance b !! value_asset v) as [entry|] eqn:Hentry.
  - assert (He : Imbalance.wf (if negated b then Imbalance.neg entry else entry)).
    { apply wf_neg_if. eapply Hb; eauto. }
    pose proof (@Imbalance.add_spec E _ _ He Hw) as Hadd. rewrite denote_neg_if in Hadd.
    assert (Hd : denote b (value_asset v) = signed (negated b) entry)
      by (unfold denote; by rewrite Hentry).
    destruct (Imbalance.add _ imb) as [[s|]| |]; cbn [outcome_bind].
    + destruct Hadd as [Hs Hwf]. cbn in Hs. split; [apply wf_insert; auto|].
      intros id. rewrite denote_insert. case_decide; subst; [lia|].
      destruct b; cbn. lia.
    + destruct Hadd as [Hs _]. cbn in Hs. split; [by apply wf_delete|].
      intros id. rewrite denote_delete. case_decide; subst; [lia|].
      destruct b; cbn. lia.
    + done.
    + exists (value_asset v). rewrite decide_True by done. by rewrite Hd.
  - split; [by apply wf_insert|].
    assert (Hd : denote b (value_asset v) = 0) by (unfold denote; by rewrite Hentry).
    intros id. rewrite denote_insert. case_decide; subst; [lia|]. destruct b; cbn. lia.
Qed.

Definition denote_items (l : list (Imbalance.t Value)) (id : asset_id) : Z :=
  list_sum ((fun i => denote_item i id) <$> l).

(** An asset occurs at most once in an iterator. *)
Definition distinct_items (l : list (Imbalance.t Value)) : Prop :=
  NoDup ((fun i => value_asset (into_inner i).2) <$> l).

Lemma denote_items_fresh l id :
  id ∉ (fun i => value_asset (into_inner i).2) <$> l -> denote_items l id = 0.
Proof.
  unfold denote_items. induction l as [|i l IH]; [done|].
  rewrite fmap_cons, not_elem_of_cons. intros [Hne Hl].
  rewrite fmap_cons. cbn [list_sum foldr]. fold (list_sum ((fun i => denote_item i id) <$> l)).
  rewrite IH by done. unfold denote_item. destruct (into_inner i) as [sgn v].
  rewrite decide_False by (cbn in Hne; congruence). lia.
Qed.

Lemma add_all_spec {E} b l :
  wf b -> Forall wf_item l -> distinct_items l ->
  match @add_all E b l with
  | Ok b' => wf b' /\ forall id, denote b' id = denote b id + denote_items l id
  | Err _ => False
  | Panic => exists id, 2 ^ 128 <= Z.abs (denote b id + denote_items l id)
  end.
Proof.
  intros Hb Hl. revert b Hb. induction Hl as [|i l Hi Hl IH]; intros b Hb Hd.
  - cbn. split; [done|]. intros. unfold denote_items; cbn. lia.
  - cbn [add_all]. pose proof (@add_imbalance_spec E b i Hb Hi) as H1.
    unfold distinct_items in Hd. rewrite fmap_cons in Hd. apply NoDup_cons in Hd as [Hfresh Hd].
    assert (Hcons : forall id, denote_items (i :: l) id = denote_item i id + denote_items l id)
      by done.
    destruct (add_imbalance b i) as [b'| |]; cbn [outcome_bind].
    + destruct H1 as [Hb' Hden]. specialize (IH b' Hb' Hd).
      destruct (add_all b' l).
      * destruct IH as [? IH]. split; [done|]. intros id. rewrite IH, Hden, Hcons. lia.
      * done.
      * destruct IH as [id IH]. exists id. rewrite Hden in IH. rewrite Hcons.
        by rewrite Z.add_assoc.
    + done.
    + destruct H1 as [id H1]. exists id. rewrite Hcons.
      destruct (decide (value_asset (into_inner i).2 = id)) as [Heq|Hne].
      * subst. rewrite denote_items_fresh by done. by rewrite Z.add_0_r.
      * exfalso. revert H1. unfold denote_item. destruct (into_inner i) as [sgn v].
        cbn in Hne. rewrite decide_False by done. rewrite Z.add_0_r.
        unfold denote. destruct (balance b !! id) as [e|] eqn:He; cbn; [|lia].
        pose proof (Hb _ _ He) as Hwe. unfold Imbalance.wf, Imbalance.magnitude in Hwe.
        unfold signed. destruct e, (negated b); cbn -[Z.pow] in *; lia.
Qed.

Lemma iter_wf b : wf b -> Forall wf_item (iter b).
Proof.
  intros Hb. unfold iter. apply Forall_fmap, Forall_forall. intros [id i] Hin. cbn.
  apply elem_of_btree_items in Hin. pose proof (Hb _ _ Hin) as Hi.
  destruct (negated b), i; exact Hi.
Qed.

Lemma iter_assets b :
  (fun i => value_asset (into_inner i).2) <$> iter b = (btree_items (balance b)).*1.
Proof.
  unfold iter. rewrite <- list_fmap_compose. apply list_fmap_ext. intros _ [id i] _. cbn.
  by destruct (negated b), i.
Qed.

Lemma iter_distinct b : distinct_items (iter b).
Proof. unfold distinct_items. rewrite iter_assets. apply btree_items_NoDup. Qed.

Lemma denote_items_elem l i :
  distinct_items l -> i ∈ l ->
  denote_items l (value_asset (into_inner i).2) = denote_item i (value_asset (into_inner i).2).
Proof.
  unfold distinct_items. induction l as [|j l IH]; [set_solver|].
  rewrite fmap_cons, NoDup_cons. intros [Hfresh Hd] Hin.
  change (denote_items (j :: l) ?id) with (denote_item j id + denote_items l id).
  apply elem_of_cons in Hin as [<-|Hin].
  - rewrite denote_items_fresh by done. lia.
  - rewrite IH by done.
    assert (value_asset (into_inner j).2 <> value_asset (into_inner i).2).
    { intros Heq. apply Hfresh. rewrite Heq. apply list_elem_of_fmap. eauto. }
    unfold denote_item at 1. destruct (into_inner j) as [sgn v]; cbn in *.
    by rewrite decide_False by done.
Qed.

Lemma denote_iter b id : denote_items (iter b) id = denote b id.
Proof.
  unfold denote. destruct (balance b !! id) as [e|] eqn:He; cbn.
  - set (v := Imbalance.map (fun a => mkValue a id) e).
    assert (Hin : (if negated b then Imbalance.neg v else v) ∈ iter b).
    { unfold iter. apply list_elem_of_fmap. exists (id, e). split; [done|].
      by apply elem_of_btree_items. }
    pose proof (denote_items_elem _ _ (iter_distinct b) Hin) as Hd.
    unfold denote_item, signed in *. subst v.
    destruct (negated b), e; cbn in *; rewrite decide_True in Hd by done; cbn in *; lia.
  - apply denote_items_fresh. rewrite iter_assets. intros Hin.
    apply list_elem_of_fmap in Hin as ([k i] & -> & Hin).
    apply elem_of_btree_items in Hin. naive_solver.
Qed.

(** The value-balance algebra: addition of balances is pointwise addition of denotations. *)
Lemma add_denote {E} a b :
  wf a -> wf b ->
  match @add E a b with
  | Ok c => wf c /\ forall id, denote c id = denote a id + denote b id
  | Err _ => False
  | Panic => exists id, 2 ^ 128 <= Z.abs (denote a id + denote b id)
  end.
Proof.
  intros Ha Hb. unfold add. destruct (_ <? _)%nat.
  - pose proof (@add_all_spec E b (iter a) Hb (iter_wf a Ha) (iter_distinct a)) as H.
    destruct (add_all b (iter a)).
    + destruct H as [? H]. split; [done|]. intros id. rewrite H, denote_iter. lia.
    + done.
    + destruct H as [id H]. exists id. rewrite denote_iter in H. by rewrite Z.add_comm.
  - pose proof (@add_all_spec E a (iter b) Ha (iter_wf b Hb) (iter_distinct b)) as H.
    destruct (add_all a (iter b)).
    + destruct H as [? H]. split; [done|]. intros id. by rewrite H, denote_iter.
    + done.
    + destruct H as [id H]. exists id. by rewrite denote_iter in H.
Qed.

Lemma from_value_denote v id :
  denote (from_value v) id = if decide (value_asset v = id) then amount v else 0.
Proof.
  unfold denote, from_value; cbn. destruct (Z.eqb_spec (amount v) 0); cbn.
  - rewrite lookup_empty. cbn. by case_decide.
  - case_decide; subst.
    + by rewrite lookup_singleton_eq.
    + by rewrite lookup_singleton_ne.
Qed.

Lemma from_value_wf v : is_u128 (amount v) -> wf (from_value v).
Proof.
  unfold in_width, wf, from_value; cbn. intros Hv. destruct (Z.eqb_spec (amount v) 0).
  - apply map_Forall_empty.
  - apply map_Forall_singleton. unfold Imbalance.wf, Imbalance.magnitude; cbn -[Z.pow]. lia.
Qed.

Lemma zero_wf : wf zero.
Proof. apply map_Forall_empty. Qed.

Lemma is_zero_denote b : wf b -> is_zero b = true <-> forall id, denote b id = 0.
Proof.
  intros Hb. unfold is_zero. rewrite bool_decide_eq_true. split.
  - intros He id. unfold denote. by rewrite He.
  - intros Hd. apply map_empty. intros id.
    destruct (balance b !! id) as [e|] eqn:He; [|done]. exfalso.
    specialize (Hd id). unfold denote in Hd. rewrite He in Hd. cbn in Hd.
    pose proof (denote_wf_nonzero e (Hb _ _ He)).
    unfold signed in Hd. destruct (negated b); lia.
Qed.

Lemma iter_lookup b id i :
  i ∈ iter b -> value_asset (into_inner i).2 = id ->
  exists e, balance b !! id = Some e
       /\ i = Imbalance.map (fun a => mkValue a id) (if negated b then Imbalance.neg e else e).
Proof.
  unfold iter. intros ([k e] & -> & Hin)%list_elem_of_fmap Hid.
  apply elem_of_btree_items in Hin.
  destruct (negated b), e; cbn in Hid; subst; eexists; split; eauto.
Qed.

Lemma zip_forallb_eq {A} `{EqDecision A} (l1 l2 : list A) :
  length l1 = length l2 ->
  forallb (fun p => bool_decide (p.1 = p.2)) (zip l1 l2) = true <-> l1 = l2.
Proof.
  revert l2. induction l1 as [|x l1 IH]; intros [|y l2] Hl; simplify_eq/=; [done|].
  rewrite andb_true_iff, bool_decide_eq_true, (IH l2) by done. naive_solver.
Qed.

(** The canonical entries of two balances agree exactly when their denotations do. *)
Lemma eqb_denote a b :
  wf a -> wf b -> eqb a b = true <-> forall id, denote a id = denote b id.
Proof.
  intros Ha Hb.
  assert (Hlen : forall c, length (iter c) = dimension c).
  { intros c. unfold iter. rewrite length_fmap. apply btree_items_length. }
  assert (Hcanon : forall c d : t, wf c -> wf d -> (forall id, denote c id = denote d id) ->
    balance c = (if xorb (negated c) (negated d) then Imbalance.neg <$> balance d
                 else balance d)).
  { intros c d Hc Hd Hden. apply map_eq. intros id. specialize (Hden id).
    assert (Hside : (if xorb (negated c) (negated d) then Imbalance.neg <$> balance d
                     else balance d) !! id
            = (fun e => if xorb (negated c) (negated d) then Imbalance.neg e else e)
                <$> balance d !! id).
    { destruct (xorb _ _); [by rewrite lookup_fmap | by destruct (balance d !! id)]. }
    rewrite Hside. unfold denote in Hden.
    destruct (balance c !! id) as [e|] eqn:He, (balance d !! id) as [f|] eqn:Hf; cbn in *;
      [f_equal | exfalso | exfalso | done];
      try pose proof (Hc _ _ He) as We; try pose proof (Hd _ _ Hf) as Wf.
    - apply denote_inj; [done|destruct (xorb _ _); by rewrite ?wf_neg|].
      unfold signed in Hden. destruct (negated c), (negated d); cbn in *;
        rewrite ?imbalance_denote_neg; lia.
    - apply denote_wf_nonzero in We. unfold signed in Hden. destruct (negated c); lia.
    - apply denote_wf_nonzero in Wf. unfold signed in Hden. destruct (negated d); lia. }
  unfold eqb. rewrite andb_true_iff, bool_decide_eq_true. split.
  - intros [Hdim Hzip]. apply zip_forallb_eq in Hzip; [|by rewrite !Hlen].
    intros id. rewrite <- !denote_iter. by rewrite Hzip.
  - intros Hden. specialize (Hcanon a b Ha Hb Hden).
    assert (Hdim : dimension a = dimension b).
    { unfold dimension. rewrite Hcanon. destruct (xorb _ _); [|done]. by rewrite map_size_fmap. }
    split; [done|]. apply zip_forallb_eq; [by rewrite !Hlen|].
    unfold iter. rewrite Hcanon.
    destruct (negated a), (negated b); cbn [xorb]; try done;
      rewrite btree_items_fmap, <- list_fmap_compose; apply list_fmap_ext;
      intros _ [k [x|x]] _; done.
Qed.
End Balance.

(** ** Balance commitments

    [Balance::commit] works in the decaf377 group, which is not part of the repository: the group
    and the generators are parameters, and [CommitmentGroup] states what is used of them, namely
    that they form a module over the integers (scalars in [Fr] act through their residues). *)

Class CommitmentGroup (G : Type) := {
  gzero : G;
  gadd : G -> G -> G;
  gopp : G -> G;
  gmul : Z -> G -> G;
  value_generator : asset_id -> G;
  value_blinding_generator : G;
}.

Class CommitmentGroupLaws (G : Type) `{CommitmentGroup G} : Prop := {
  gadd_assoc : forall x y z : G, gadd x (gadd y z) = gadd (gadd x y) z;
  gadd_comm : forall x y : G, gadd x y = gadd y x;
  gadd_zero : forall x : G, gadd gzero x = x;
  gadd_opp : forall x : G, gadd x (gopp x) = gzero;
  gmul_add : forall a b (x : G), gmul (a + b) x = gadd (gmul a x) (gmul b x);
  gmul_zero : forall x : G, gmul 0 x = gzero;
}.

Module Commitment.
Import Imbalance.

Section Commit.
Context {G : Type} `{CommitmentGroup G}.

Definition commit_step (c : G) (i : Imbalance.t Value) : G :=
  let '(sgn, v) := into_inner i in
  let term := gmul (amount v) (value_generator (value_asset v)) in
  match sgn with
  | SRequired => gadd c (gopp term)
  | SProvided => gadd c term
  end.

Definition commit (b : Balance.t) (blinding_factor : Z) : G :=
  gadd (foldl commit_step gzero (Balance.iter b))
       (gmul blinding_factor value_blinding_generator).

Context `{!CommitmentGroupLaws G}.

Definition gsum (l : list G) : G := foldr gadd gzero l.

Lemma gadd_zero_r (x : G) : gadd x gzero = x.
Proof. by rewrite gadd_comm, gadd_zero. Qed.

Lemma gadd_swap (a b c d : G) : gadd (gadd a b) (gadd c d) = gadd (gadd a c) (gadd b d).
Proof.
  rewrite <- !gadd_assoc. f_equal. rewrite !gadd_assoc. f_equal. apply gadd_comm.
Qed.

Lemma gmul_opp a (x : G) : gmul (- a) x = gopp (gmul a x).
Proof.
  assert (gadd (gmul (- a) x) (gmul a x) = gzero) as E.
  { rewrite <- gmul_add, Z.add_opp_diag_l. apply gmul_zero. }
  rewrite <- (gadd_zero_r (gmul (- a) x)), <- (gadd_opp (gmul a x)).
  by rewrite gadd_assoc, E, gadd_zero.
Qed.

Lemma gsum_app l1 l2 : gsum (l1 ++ l2) = gadd (gsum l1) (gsum l2).
Proof.
  unfold gsum. induction l1 as [|x l1 IH]; cbn; [by rewrite gadd_zero|].
  by rewrite IH, gadd_assoc.
Qed.

Lemma gsum_perm l1 l2 : l1 ≡ₚ l2 -> gsum l1 = gsum l2.
Proof.
  unfold gsum. induction 1 as [|x l1 l2 _ IH|x y l|l1 l2 l3 _ IH1 _ IH2]; cbn; [done| | |congruence].
  - by rewrite IH.
  - rewrite !gadd_assoc. f_equal. apply gadd_comm.
Qed.

Lemma gsum_zip_add {A} (f g : A -> G) l :
  gsum ((fun x => gadd (f x) (g x)) <$> l) = gadd (gsum (f <$> l)) (gsum (g <$> l)).
Proof.
  unfold gsum. induction l as [|x l IH]; cbn; [by rewrite gadd_zero|].
  rewrite IH. apply gadd_swap.
Qed.

Lemma gsum_zero {A} (f : A -> G) l :
  (forall x, x ∈ l -> f x = gzero) -> gsum (f <$> l) = gzero.
Proof.
  unfold gsum. induction l as [|x l IH]; intros Hl; [done|]. cbn. rewrite (Hl x) by set_solver.
  rewrite gadd_zero. apply IH. set_solver.
Qed.

(** The value part of a commitment, read off the denotation. *)
Definition value_part (b : Balance.t) (ids : list asset_id) : G :=
  gsum ((fun id => gmul (Balance.denote b id) (value_generator id)) <$> ids).

Lemma commit_step_acc l c :
  foldl commit_step c l = gadd c (gsum ((fun i => commit_step gzero i) <$> l)).
Proof.
  unfold gsum. revert c. induction l as [|i l IH]; intros c; cbn; [by rewrite gadd_zero_r|].
  rewrite IH, gadd_assoc. f_equal. unfold commit_step.
  destruct (into_inner i) as [[] v]; by rewrite gadd_zero.
Qed.

Lemma commit_items b :
  (fun i => commit_step gzero i) <$> Balance.iter b
    = (fun id => gmul (Balance.denote b id) (value_generator id))
        <$> btree_keys (Balance.balance b).
Proof.
  rewrite <- btree_items_keys. unfold Balance.iter. rewrite <- !list_fmap_compose.
  apply list_fmap_ext. intros n [id e] Hn.
  assert (Hlk : Balance.balance b !! id = Some e).
  { apply elem_of_btree_items, list_elem_of_lookup. eauto. }
  cbn. unfold Balance.denote. rewrite Hlk. cbn. unfold Balance.signed, commit_step.
  destruct (Balance.negated b), e; cbn;
    rewrite ?Z.opp_involutive, ?gadd_zero, <- ?gmul_opp; done.
Qed.

Lemma value_part_perm b l1 l2 : l1 ≡ₚ l2 -> value_part b l1 = value_part b l2.
Proof. intros Hp. apply gsum_perm. by rewrite Hp. Qed.

(** Assets the balance does not mention contribute nothing. *)
Lemma commit_value_part b r (ids : gset asset_id) :
  dom (Balance.balance b) ⊆ ids ->
  commit b r = gadd (value_part b (elements ids)) (gmul r value_blinding_generator).
Proof.
  intros Hids. unfold commit. f_equal. rewrite commit_step_acc, gadd_zero, commit_items.
  fold (value_part b (btree_keys (Balance.balance b))).
  rewrite (value_part_perm b (elements ids)
    (btree_keys (Balance.balance b) ++ elements (ids ∖ dom (Balance.balance b)))).
  - unfold value_part. rewrite fmap_app, gsum_app.
    rewrite (gsum_zero _ (elements (ids ∖ _))); [by rewrite gadd_zero_r|].
    intros id. rewrite elem_of_elements, elem_of_difference, elem_of_dom. intros [_ Hid].
    unfold Balance.denote. destruct (Balance.balance b !! id); [naive_solver|].
    cbn. apply gmul_zero.
  - unfold btree_keys. rewrite merge_sort_Permutation.
    rewrite <- elements_disj_union by set_solver.
    by rewrite <- union_difference_L by done.
Qed.
End Commit.
End Commitment.

(** ** Properties *)

(** Adding balances adds what they denote, asset by asset, for every combination of stored signs
    and [negated] flags, and the result is again well formed; the addition fails only when a
    magnitude leaves 128 bits. *)
Theorem balance_add_correct {E} a b :
  Balance.wf a -> Balance.wf b ->
  match @Balance.add E a b with
  | Ok c => Balance.wf c
      /\ forall id, Balance.denote c id = Balance.denote a id + Balance.denote b id
  | Err _ => False
  | Panic => exists id, 2 ^ 128 <= Z.abs (Balance.denote a id + Balance.denote b id)
  end.
Proof. apply Balance.add_denote. Qed.

(** The comparison of balances decides equality of denotations, so the two representations that
    negation can produce are indistinguishable; in particular a balance is zero exactly when it
    denotes zero everywhere. *)
Theorem balance_eq_decides_denotation a b :
  Balance.wf a -> Balance.wf b ->
  (Balance.eqb a b = true <-> forall id, Balance.denote a id = Balance.denote b id)
  /\ (Balance.is_zero a = true <-> forall id, Balance.denote a id = 0).
Proof. intros. split; [by apply Balance.eqb_denote | by apply Balance.is_zero_denote]. Qed.

(** Balance commitments are homomorphic: committing to a sum with the sum of the blinding factors
    is adding the commitments.  This is what lets a transaction be checked on commitments. *)
Theorem commitment_homomorphic {G} `{CommitmentGroupLaws G} {E} a b c r s :
  Balance.wf a -> Balance.wf b -> @Balance.add E a b = Ok c ->
  Commitment.commit c (r + s) = gadd (Commitment.commit a r) (Commitment.commit b s).
Proof.
  intros Ha Hb Hc.
  pose proof (@Balance.add_denote E a b Ha Hb) as Hadd. rewrite Hc in Hadd.
  destruct Hadd as [_ Hden].
  set (ids := dom (Balance.balance a) ∪ dom (Balance.balance b) ∪ dom (Balance.balance c)).
  rewrite (Commitment.commit_value_part c (r + s) ids) by set_solver.
  rewrite (Commitment.commit_value_part a r ids) by set_solver.
  rewrite (Commitment.commit_value_part b s ids) by set_solver.
  rewrite Commitment.gadd_swap, gmul_add. f_equal.
  unfold Commitment.value_part. rewrite <- Commitment.gsum_zip_add. f_equal.
  apply list_fmap_ext. intros _ id _. by rewrite Hden, gmul_add.
Qed.

(** *** Witnesses *)

Definition sample_a : Balance.t := Balance.from_value (mkValue 7 1).
Definition sample_b : Balance.t := Balance.neg (Balance.from_value (mkValue 3 1)).

Lemma sample_a_wf : Balance.wf sample_a.
Proof. apply Balance.from_value_wf. by_computation. Defined.

Lemma sample_b_wf : Balance.wf sample_b.
Proof. apply Balance.wf_neg_iff, Balance.from_value_wf. by_computation. Defined.

Lemma balance_add_correct_witness :
  exists c, @Balance.add string sample_a sample_b = Ok c
    /\ Balance.denote c 1 = Balance.denote sample_a 1 + Balance.denote sample_b 1
    /\ Balance.denote c 1 = 4.
Proof.
  pose proof (@balance_add_correct string sample_a sample_b sample_a_wf sample_b_wf) as H.
  destruct (@Balance.add string sample_a sample_b) as [c| |] eqn:Hc.
  - exists c. split; [reflexivity|]. destruct H as [_ H]. split; [apply H|].
    rewrite (H 1). vm_compute. reflexivity.
  - destruct H.
  - exfalso. vm_compute in Hc. discriminate Hc.
Defined.

Lemma balance_eq_decides_denotation_witness :
  Balance.wf sample_a /\ Balance.wf sample_b /\ Balance.eqb sample_a sample_b = false
  /\ ~ (forall id, Balance.denote sample_a id = Balance.denote sample_b id).
Proof.
  split; [exact sample_a_wf|]. split; [exact sample_b_wf|].
  assert (He : Balance.eqb sample_a sample_b = false) by (vm_compute; reflexivity).
  split; [exact He|]. intros H.
  apply (proj1 (balance_eq_decides_denotation sample_a sample_b sample_a_wf sample_b_wf)) in H.
  rewrite H in He. discriminate He.
Defined.

(** The integers, with generator [id + 1] for asset [id], are a commitment group. *)
Definition integer_group : CommitmentGroup Z := {|
  gzero := 0; gadd := Z.add; gopp := Z.opp; gmul := Z.mul;
  value_generator := fun id => id + 1; value_blinding_generator := 1;
|}.

Lemma integer_group_laws : @CommitmentGroupLaws Z integer_group.
Proof. split; intros; cbn; lia. Defined.

Lemma commitment_homomorphic_witness :
  exists c, @Balance.add string sample_a sample_b = Ok c
    /\ @Commitment.commit Z integer_group c (5 + 6)
       = @Commitment.commit Z integer_group sample_a 5
         + @Commitment.commit Z integer_group sample_b 6.
Proof.
  destruct (@Balance.add string sample_a sample_b) as [c| |] eqn:Hc.
  - exists c. split; [reflexivity|].
    exact (@commitment_homomorphic Z integer_group integer_group_laws string
             sample_a sample_b c 5 6 sample_a_wf sample_b_wf Hc).
  - vm_compute in Hc. discriminate Hc.
  - vm_compute in Hc. discriminate Hc.
Defined.
