(* ===== verification/TradingFunction.v ===== *)
(** * Trading pairs, reserves and trading functions

    Models crates/core/component/dex/src: [trading_pair.rs], [lp/reserves.rs] and
    [lp/trading_function.rs].  [Bare] is the constant-sum function [p * R_1 + q * R_2] with a fee,
    on reserves without asset ids; [Typed] adds the trading pair. *)

From S2P Require Import Prelude.
From S2P Require Import Num.
From S2P Require Import Asset.

(** ** Trading pairs *)

Record DirectedTradingPair := mkDirected { start : asset_id; end_ : asset_id }.
Record TradingPair := mkPair { asset_1 : asset_id; asset_2 : asset_id }.

#[global] Instance DirectedTradingPair_eq_dec : EqDecision DirectedTradingPair.
Proof. solve_decision. Defined.
#[global] Instance TradingPair_eq_dec : EqDecision TradingPair.
Proof. solve_decision. Defined.
#[global] Instance DirectedTradingPair_countable : Countable DirectedTradingPair.
Proof.
  refine (inj_countable' (fun p => (start p, end_ p)) (fun '(a, b) => mkDirected a b) _).
  by intros [].
Defined.
#[global] Instance TradingPair_countable : Countable TradingPair.
Proof.
  refine (inj_countable' (fun p => (asset_1 p, asset_2 p)) (fun '(a, b) => mkPair a b) _).
  by intros [].
Defined.

Module Pair.
(** [TradingPair::new]: the canonical order of the two assets. *)
Definition new (a b : asset_id) : TradingPair :=
  if a <? b then mkPair a b else mkPair b a.

Definition flip (d : DirectedTradingPair) : DirectedTradingPair := mkDirected (end_ d) (start d).
Definition to_canonical (d : DirectedTradingPair) : TradingPair := new (start d) (end_ d).

(** [TradingPair::to_bytes], given the canonical encoding of field elements. *)
Definition to_bytes (asset_bytes : asset_id -> list Z) (t : TradingPair) : list Z :=
  asset_bytes (asset_1 t) ++ asset_bytes (asset_2 t).

(** [TryFrom<[u8; 64]>]: only canonical pairs decode. *)
Definition try_from_bytes (asset_of_bytes : list Z -> option asset_id) (bytes : list Z)
  : anyhow TradingPair :=
  let! a1 := ok_or (asset_of_bytes (take 32 bytes)) "invalid asset_1 bytes in TradingPair" in
  let! a2 := ok_or (asset_of_bytes (take 32 (drop 32 bytes)))
                   "invalid asset_2 bytes in TradingPair" in
  let result := mkPair a1 a2 in
  let! _ := guard_or (bool_decide (new a1 a2 = result)) "non-canonical trading pair" in
  Ok result.

Definition canonical (t : TradingPair) : Prop := asset_1 t <= asset_2 t.

Lemma new_canonical a b : canonical (new a b).
Proof. unfold canonical, new. destruct (Z.ltb_spec a b); cbn; lia. Qed.

Lemma new_comm a b : new a b = new b a.
Proof.
  unfold new. destruct (Z.ltb_spec a b), (Z.ltb_spec b a); try lia; [done..|].
  by replace a with b by lia.
Qed.

Lemma to_canonical_flip d : to_canonical (flip d) = to_canonical d.
Proof. apply new_comm. Qed.

Lemma new_id t : canonical t -> new (asset_1 t) (asset_2 t) = t.
Proof.
  destruct t as [a b]; unfold canonical, new; cbn. intros.
  destruct (Z.ltb_spec a b); [done|]. by replace a with b by lia.
Qed.

(** Decoding inverts encoding on canonical pairs, and never returns another kind of pair. *)
Lemma bytes_roundtrip asset_bytes asset_of_bytes t :
  (forall a, length (asset_bytes a) = 32%nat) ->
  (forall a, asset_of_bytes (asset_bytes a) = Some a) ->
  canonical t ->
  try_from_bytes asset_of_bytes (to_bytes asset_bytes t) = Ok t.
Proof.
  intros Hlen Hdec Hc. unfold try_from_bytes, to_bytes.
  rewrite take_app_length' by (by rewrite Hlen).
  rewrite drop_app_length' by (by rewrite Hlen).
  rewrite take_ge by (by rewrite Hlen).
  rewrite !Hdec. cbn [ok_or outcome_bind]. 
  pose proof (new_id t Hc) as ->. rewrite bool_decide_eq_true_2; by destruct t.
Qed.

Lemma try_from_bytes_canonical asset_of_bytes bs t :
  try_from_bytes asset_of_bytes bs = Ok t -> canonical t.
Proof.
  unfold try_from_bytes. intros H. inv_outcome. to_prop.
  match goal with H : new _ _ = ?t |- canonical ?t => rewrite <- H end. apply new_canonical.
Qed.
End Pair.

(** ** Reserves *)

Record Reserves := mkReserves { r1 : Z; r2 : Z }.
#[global] Instance Reserves_eq_dec : EqDecision Reserves.
Proof. solve_decision. Defined.

Definition MAX_RESERVE_AMOUNT : Z := Z.shiftl 1 80 - 1.
Definition MAX_FEE_BPS : Z := 5000.

Module ReservesOps.
Definition check_bounds (r : Reserves) : anyhow unit :=
  if (MAX_RESERVE_AMOUNT <? r1 r) || (MAX_RESERVE_AMOUNT <? r2 r) then
    Err "Reserve amounts are out-of-bounds"
  else if (r1 r =? 0) && (r2 r =? 0) then
    Err "initial reserves must provision some amount of either asset"
  else Ok tt.

Definition flip (r : Reserves) : Reserves := mkReserves (r2 r) (r1 r).
Definition zero : Reserves := mkReserves 0 0.

(** Typed reserves, as a balance. *)
Definition balance {E} (r : Reserves) (pair : TradingPair) : outcome E Balance.t :=
  Balance.add_value (Balance.from_value (mkValue (r1 r) (asset_1 pair)))
                    (mkValue (r2 r) (asset_2 pair)).

(** What a pair of reserves holds of an asset. *)
Definition holds (r : Reserves) (pair : TradingPair) (id : asset_id) : Z :=
  (if decide (asset_1 pair = id) then r1 r else 0)
  + (if decide (asset_2 pair = id) then r2 r else 0).

Lemma reserves_flip_flip r : flip (flip r) = r.
Proof. by destruct r. Qed.

Lemma balance_denote {E} r pair b :
  is_u128 (r1 r) -> is_u128 (r2 r) ->
  @balance E r pair = Ok b -> Balance.wf b /\ forall id, Balance.denote b id = holds r pair id.
Proof.
  intros H1 H2 Hb. unfold balance, Balance.add_value in Hb.
  pose proof (@Balance.add_denote E _ _ (Balance.from_value_wf (mkValue _ (asset_1 pair)) H1)
    (Balance.from_value_wf (mkValue _ (asset_2 pair)) H2)) as Hadd.
  rewrite Hb in Hadd. destruct Hadd as [Hwf Hd]. split; [done|].
  intros id. rewrite Hd, !Balance.from_value_denote. done.
Qed.
End ReservesOps.

(** ** The bare trading function *)

Record BareTradingFunction := mkBare { fee : Z; p : Z; q : Z }.
#[global] Instance BareTradingFunction_eq_dec : EqDecision BareTradingFunction.
Proof. solve_decision. Defined.

(** [?] on a fixed-point error. *)
Definition fixpoint_message (e : U128x128.error) : string :=
  match e with
  | U128x128.Overflow => "overflow"
  | U128x128.Underflow => "underflow"
  | U128x128.DivisionByZero => "division by zero"
  | U128x128.NonIntegral _ => "attempted to convert non-integral value to an integer"
  | U128x128.SliceLength _ => "attempted to decode a slice of the wrong length"
  end.

Module Bare.
Import U128x128.

Definition flip (f : BareTradingFunction) : BareTradingFunction :=
  mkBare (fee f) (q f) (p f).

(** The fee as a discount factor, [(10_000 - fee) / 10_000]. *)
Definition gamma {E} (f : BareTradingFunction) : outcome E Z :=
  let! d := plain_sub 10000 (fee f) in
  expect_ok (checked_div (from_uint d) (from_uint 10000)).

Definition effective_price_inv {E} (f : BareTradingFunction) : outcome E Z :=
  let! price_ratio := expect_ok (checked_div (from_uint (p f)) (from_uint (q f))) in
  let! g := gamma f in
  expect_ok (checked_mul price_ratio g).

Definition effective_price {E} (f : BareTradingFunction) : outcome E Z :=
  let! price_ratio := expect_ok (checked_div (from_uint (q f)) (from_uint (p f))) in
  let! g := gamma f in
  expect_ok (checked_div price_ratio g).

Definition effective_price_key_bytes {E} (f : BareTradingFunction) : outcome E (list Z) :=
  let! price := effective_price f in Ok (to_bytes price).

Definition convert_to_lambda_2 (f : BareTradingFunction) (delta_1 : Z) : anyhow Z :=
  let! inv := effective_price_inv f in
  map_err fixpoint_message (checked_mul inv delta_1).

Definition convert_to_delta_1 (f : BareTradingFunction) (lambda_2 : Z) : anyhow Z :=
  let! price := effective_price f in
  map_err fixpoint_message (checked_mul price lambda_2).

(** Trade [delta_1] of asset 1 against the reserves: (unfilled, new reserves, output). *)
Definition fill (f : BareTradingFunction) (delta_1 : Z) (reserves : Reserves)
  : anyhow (Z * Reserves * Z) :=
  let delta_1_fp := from_uint delta_1 in
  let! tentative_lambda_2 := convert_to_lambda_2 f delta_1_fp in
  if tentative_lambda_2 <=? from_uint (r2 reserves) then
    let! lambda_2 := expect_ok (try_into_u128 (round_down tentative_lambda_2)) in
    let! r1' := plain_add 128 (r1 reserves) delta_1 in
    let! r2' := plain_sub (r2 reserves) lambda_2 in
    Ok (0, mkReserves r1' r2', lambda_2)
  else
    let! fillable_delta_1 := convert_to_delta_1 f (from_uint (r2 reserves)) in
    let! rounded := expect_ok (round_up fillable_delta_1) in
    let! fillable_delta_1_exact := expect_ok (try_into_u128 rounded) in
    let! unfilled_amount := plain_sub delta_1 fillable_delta_1_exact in
    let! r1' := plain_add 128 (r1 reserves) fillable_delta_1_exact in
    Ok (unfilled_amount, mkReserves r1' 0, r2 reserves).

(** Infer the input that buys exactly [lambda_2]: [None] when the reserves cannot cover it. *)
Definition fill_output (f : BareTradingFunction) (reserves : Reserves) (lambda_2 : Z)
  : anyhow (option (Reserves * Z)) :=
  if r2 reserves <? lambda_2 then Ok None
  else
    let! fillable_delta_1 := convert_to_delta_1 f (from_uint lambda_2) in
    let! rounded := expect_ok (round_up fillable_delta_1) in
    let! fillable_delta_1_exact := expect_ok (try_into_u128 rounded) in
    let! r1' := plain_add 128 (r1 reserves) fillable_delta_1_exact in
    let! r2' := plain_sub (r2 reserves) lambda_2 in
    Ok (Some (mkReserves r1' r2', fillable_delta_1_exact)).

(** *** Prices

    The bounds that [Position::check_stateless] enforces. *)
Definition wf (f : BareTradingFunction) : Prop :=
  0 <= fee f <= MAX_FEE_BPS /\ 0 < p f <= MAX_RESERVE_AMOUNT /\ 0 < q f <= MAX_RESERVE_AMOUNT.

Definition gamma_val (f : BareTradingFunction) : Z := (10000 - fee f) * B / 10000.
Definition price_val (f : BareTradingFunction) : Z := (q f * B / p f) * B / gamma_val f.
Definition price_inv_val (f : BareTradingFunction) : Z := (p f * B / q f) * gamma_val f / B.

Lemma wf_flip f : wf f -> wf (flip f).
Proof. unfold wf; cbn. naive_solver. Qed.

Lemma bare_flip_flip f : flip (flip f) = f.
Proof. by destruct f. Qed.

(** The quotient of two integers below 2^128, as a fixed-point number. *)
Lemma div_from_uint a b :
  is_u128 a -> is_u128 b -> 0 < b ->
  checked_div (from_uint a) (from_uint b) = Ok (a * B / b).
Proof.
  intros Ha Hb Hpos. pose proof B_pos.
  rewrite checked_div_eq; [|rewrite from_uint_eq; unfold in_width in *; nia
                           |by apply wf_from_uint].
  rewrite !from_uint_eq. destruct (Z.eqb_spec (b * B) 0); [nia|].
  rewrite Z.div_mul_cancel_r by lia.
  destruct (Z.ltb_spec (a * B / b) U256) as [|Hge]; [done|].
  exfalso. assert (a * B / b <= a * B) by (apply Z.div_le_upper_bound; unfold in_width in *; nia).
  rewrite U256_B in Hge. unfold in_width in Ha. fold B in Ha. nia.
Qed.

Lemma gamma_bounds f : wf f -> B / 2 <= gamma_val f <= B.
Proof.
  unfold wf, gamma_val, MAX_FEE_BPS. intros (Hfee & _). pose proof B_pos. split.
  - apply Z.div_le_lower_bound; [lia|].
    pose proof (Z.mul_div_le B 2 ltac:(lia)). nia.
  - apply Z.div_le_upper_bound; nia.
Qed.

Lemma gamma_wf f : wf f -> U128x128.wf (gamma_val f) /\ 0 < gamma_val f.
Proof.
  intros Hwf. pose proof (gamma_bounds f Hwf). pose proof B_lt_U256.
  assert (0 < B / 2) by reflexivity. unfold U128x128.wf. lia.
Qed.

Lemma gamma_eq {E} f : wf f -> @gamma E f = Ok (gamma_val f).
Proof.
  intros (Hfee & _). unfold MAX_FEE_BPS in Hfee. unfold gamma.
  rewrite plain_sub_run by lia. cbn [outcome_bind].
  by rewrite div_from_uint by (unfold in_width; lia).
Qed.

Lemma coefficients_u128 f : wf f -> is_u128 (p f) /\ is_u128 (q f).
Proof.
  unfold wf, in_width. change MAX_RESERVE_AMOUNT with (2 ^ 80 - 1). lia.
Qed.

Lemma ratio_bound a b :
  0 <= a <= MAX_RESERVE_AMOUNT -> 0 < b -> 0 <= a * B / b <= MAX_RESERVE_AMOUNT * B.
Proof.
  intros Ha Hb. pose proof B_pos. split; [apply Z.div_pos; nia|].
  apply Z.div_le_upper_bound; [done|].
  assert (a * B <= MAX_RESERVE_AMOUNT * B) by nia.
  assert (0 <= MAX_RESERVE_AMOUNT * B) by nia. nia.
Qed.

Lemma effective_price_eq {E} f : wf f -> @effective_price E f = Ok (price_val f).
Proof.
  intros Hwf. pose proof (coefficients_u128 f Hwf) as [Hp Hq].
  pose proof (gamma_bounds f Hwf) as Hg. pose proof Hwf as (_ & Hp' & Hq').
  unfold effective_price. rewrite div_from_uint by (done || lia).
  cbn [outcome_bind expect_ok]. rewrite gamma_eq by done. cbn [outcome_bind].
  pose proof (ratio_bound (q f) (p f) ltac:(lia) ltac:(lia)) as Hr.
  pose proof B_pos. pose proof (gamma_wf f Hwf) as [Hgw Hgp].
  rewrite checked_div_eq by (done || lia).
  destruct (Z.eqb_spec (gamma_val f) 0); [lia|].
  unfold price_val. destruct (Z.ltb_spec (q f * B / p f * B / gamma_val f) U256) as [|Hge];
    [done|]. exfalso.
  assert (q f * B / p f * B / gamma_val f <= MAX_RESERVE_AMOUNT * B * 4).
  { apply Z.div_le_upper_bound; [lia|].
    assert (4 * gamma_val f >= B) by (assert (4 * (B / 2) >= B) by done; lia). nia. }
  assert (MAX_RESERVE_AMOUNT * B * 4 < U256) by reflexivity. lia.
Qed.

Lemma price_inv_le f : wf f -> 0 <= price_inv_val f <= p f * B / q f.
Proof.
  intros Hwf. pose proof (gamma_bounds f Hwf). pose proof Hwf as (_ & Hp & Hq).
  pose proof (ratio_bound (p f) (q f) ltac:(lia) ltac:(lia)). pose proof B_pos.
  assert (0 < B / 2) by reflexivity. unfold price_inv_val. split.
  - apply Z.div_pos; nia.
  - apply Z.div_le_upper_bound; nia.
Qed.

Lemma effective_price_inv_eq {E} f : wf f -> @effective_price_inv E f = Ok (price_inv_val f).
Proof.
  intros Hwf. pose proof (coefficients_u128 f Hwf) as [Hp Hq].
  pose proof (gamma_bounds f Hwf) as Hg. pose proof Hwf as (_ & Hp' & Hq').
  unfold effective_price_inv. rewrite div_from_uint by (done || lia).
  cbn [outcome_bind expect_ok]. rewrite gamma_eq by done. cbn [outcome_bind].
  pose proof (ratio_bound (p f) (q f) ltac:(lia) ltac:(lia)) as Hr.
  assert (0 < B / 2) by reflexivity. pose proof B_pos.
  assert (MAX_RESERVE_AMOUNT * B < U256) by reflexivity. assert (B < U256) by reflexivity.
  rewrite checked_mul_eq by (unfold U128x128.wf; lia).
  pose proof (price_inv_le f Hwf). unfold price_inv_val in *.
  destruct (Z.ltb_spec (p f * B / q f * gamma_val f / B) U256); [done|lia].
Qed.

Lemma price_wf f : wf f -> U128x128.wf (price_val f).
Proof.
  intros Hwf. pose proof (@effective_price_eq string f Hwf) as He.
  unfold effective_price in He. inv_outcome.
  pose proof Hwf as (_ & Hp & Hq). pose proof (coefficients_u128 f Hwf) as [? ?].
  rewrite div_from_uint in He0 by (done || lia). rewrite gamma_eq in He1 by done.
  simplify_eq. eapply checked_div_wf; [|..|exact He].
  - apply ratio_bound; lia.
  - pose proof (gamma_bounds f Hwf). unfold U128x128.wf.
    assert (0 < B / 2) by reflexivity. assert (B < U256) by reflexivity. lia.
Qed.

Lemma price_inv_wf f : wf f -> U128x128.wf (price_inv_val f).
Proof.
  intros Hwf. pose proof (price_inv_le f Hwf). pose proof Hwf as (_ & Hp & Hq).
  pose proof (ratio_bound (p f) (q f) ltac:(lia) ltac:(lia)).
  assert (MAX_RESERVE_AMOUNT * B < U256) by reflexivity. unfold U128x128.wf. lia.
Qed.

(** Both prices are rounded down, so a round trip at these prices never gains. *)
Lemma price_product f : wf f -> price_inv_val f * price_val f <= B * B.
Proof.
  intros Hwf. pose proof (gamma_bounds f Hwf) as Hg. pose proof Hwf as (_ & Hp & Hq).
  assert (0 < B / 2) by reflexivity. pose proof B_pos.
  pose proof (ratio_bound (p f) (q f) ltac:(lia) ltac:(lia)).
  pose proof (ratio_bound (q f) (p f) ltac:(lia) ltac:(lia)).
  pose proof (price_inv_le f Hwf). pose proof (price_wf f Hwf) as [? _].
  unfold price_val, price_inv_val in *.
  set (a := p f * B / q f) in *. set (b := q f * B / p f) in *. set (g := gamma_val f) in *.
  assert (a * b <= B * B).
  { pose proof (Z.mul_div_le (p f * B) (q f) ltac:(lia)) as Ha. fold a in Ha.
    pose proof (Z.mul_div_le (q f * B) (p f) ltac:(lia)) as Hb. fold b in Hb.
    assert ((q f * p f) * (a * b) <= (q f * p f) * (B * B)).
    { replace (q f * p f * (a * b)) with ((q f * a) * (p f * b)) by ring.
      replace (q f * p f * (B * B)) with ((p f * B) * (q f * B)) by ring.
      apply Z.mul_le_mono_nonneg; nia. }
    assert (0 < q f * p f) by nia. by apply Z.mul_le_mono_pos_l with (p := q f * p f). }
  pose proof (Z.mul_div_le (a * g) B ltac:(lia)) as Ex.
  pose proof (Z.mul_div_le (b * B) g ltac:(lia)) as Ey.
  set (x := a * g / B) in *. set (y := b * B / g) in *.
  assert ((B * g) * (x * y) <= (B * g) * (B * B)).
  { replace (B * g * (x * y)) with ((B * x) * (g * y)) by ring.
    transitivity ((a * g) * (b * B)).
    - apply Z.mul_le_mono_nonneg; nia.
    - replace (a * g * (b * B)) with ((a * b) * (B * g)) by ring.
      rewrite (Z.mul_comm (B * g)). apply Z.mul_le_mono_nonneg_r; nia. }
  assert (0 < B * g) by nia. by apply Z.mul_le_mono_pos_l with (p := B * g).
Qed.

Lemma mul_from_uint x a :
  U128x128.wf x -> is_u128 a ->
  checked_mul x (from_uint a) = if x * a <? U256 then Ok (x * a) else Err Overflow.
Proof.
  intros Hx Ha. rewrite checked_mul_eq by (done || by apply wf_from_uint).
  rewrite from_uint_eq, Z.mul_assoc, Z.div_mul; [done|]. pose proof B_pos; lia.
Qed.

Lemma convert_to_lambda_2_eq f a :
  wf f -> is_u128 a ->
  convert_to_lambda_2 f (from_uint a) =
    if price_inv_val f * a <? U256 then Ok (price_inv_val f * a) else Err "overflow"%string.
Proof.
  intros Hwf Ha. unfold convert_to_lambda_2.
  rewrite effective_price_inv_eq by done. cbn [outcome_bind].
  rewrite mul_from_uint by (done || by apply price_inv_wf). by destruct (_ <? _).
Qed.

Lemma convert_to_delta_1_eq f a :
  wf f -> is_u128 a ->
  convert_to_delta_1 f (from_uint a) =
    if price_val f * a <? U256 then Ok (price_val f * a) else Err "overflow"%string.
Proof.
  intros Hwf Ha. unfold convert_to_delta_1.
  rewrite effective_price_eq by done. cbn [outcome_bind].
  rewrite mul_from_uint by (done || by apply price_wf). by destruct (_ <? _).
Qed.

(** The input that exhausts the reserves. *)
Definition max_fill (f : BareTradingFunction) (lambda_2 : Z) : Z := ceil (price_val f * lambda_2).

(** The argument in the comments of [fill]: in the second branch, the input suffices. *)
Lemma max_fill_le f delta_1 r :
  wf f -> is_u128 delta_1 -> 0 <= r ->
  r * B < price_inv_val f * delta_1 -> price_val f * r < B * delta_1.
Proof.
  intros Hwf Hd Hr Hlt. pose proof (price_product f Hwf). pose proof B_pos.
  pose proof (price_wf f Hwf) as [? _]. pose proof (price_inv_le f Hwf).
  unfold in_width in Hd.
  destruct (Z.eq_dec (price_val f) 0) as [->|]; [nia|].
  assert (price_val f * (r * B) < price_val f * (price_inv_val f * delta_1)) by nia.
  assert (price_val f * (price_inv_val f * delta_1) <= B * B * delta_1) by nia. nia.
Qed.

(** [fill], completely: an overflow error, a full fill or a fill that exhausts the reserves.
    It never panics on inputs that keep the reserves in 128 bits. *)
Lemma fill_eq f delta_1 r :
  wf f -> is_u128 delta_1 -> 0 <= r1 r -> is_u128 (r2 r) -> r1 r + delta_1 < 2 ^ 128 ->
  fill f delta_1 r =
    if U256 <=? price_inv_val f * delta_1 then Err "overflow"%string
    else if price_inv_val f * delta_1 <=? r2 r * B then
      Ok (0, mkReserves (r1 r + delta_1) (r2 r - price_inv_val f * delta_1 / B),
          price_inv_val f * delta_1 / B)
    else
      Ok (delta_1 - max_fill f (r2 r), mkReserves (r1 r + max_fill f (r2 r)) 0, r2 r).
Proof.
  intros Hwf Hd Hr1 Hr2 Hsum. unfold fill. rewrite convert_to_lambda_2_eq by done.
  pose proof B_pos. pose proof (price_inv_le f Hwf). pose proof (price_wf f Hwf) as [? _].
  destruct (Z.leb_spec U256 (price_inv_val f * delta_1)),
    (Z.ltb_spec (price_inv_val f * delta_1) U256); try lia; [done|].
  cbn [outcome_bind]. rewrite from_uint_eq.
  destruct (Z.leb_spec (price_inv_val f * delta_1) (r2 r * B)) as [Hle|Hgt].
  - rewrite round_down_eq, try_into_u128_from_uint. cbn [outcome_bind expect_ok].
    rewrite plain_add_run by done. cbn [outcome_bind].
    assert (price_inv_val f * delta_1 / B <= r2 r) by (apply Z.div_le_upper_bound; lia).
    by rewrite plain_sub_run by done.
  - rewrite <- from_uint_eq, convert_to_delta_1_eq by done.
    unfold in_width in Hr2. pose proof (max_fill_le f delta_1 (r2 r) Hwf Hd ltac:(lia) Hgt).
    assert (0 <= price_val f * r2 r) by nia.
    assert (Hm : max_fill f (r2 r) <= delta_1) by (apply ceil_le; lia).
    unfold in_width in Hd. fold B in Hd.
    destruct (Z.ltb_spec (price_val f * r2 r) U256); [|rewrite U256_B in *; nia].
    cbn [outcome_bind]. fold (max_fill f (r2 r)).
    rewrite round_up_eq by (unfold max_fill in Hm; lia). cbn [outcome_bind expect_ok].
    rewrite try_into_u128_from_uint. cbn [outcome_bind expect_ok].
    fold (max_fill f (r2 r)). rewrite plain_sub_run by done. cbn [outcome_bind].
    by rewrite plain_add_run by lia.
Qed.

(** The amount bought is paid for at the price net of fees. *)
Lemma price_inv_fee f :
  wf f -> price_inv_val f * q f * 10000 <= p f * (10000 - fee f) * B.
Proof.
  intros Hwf. pose proof (gamma_bounds f Hwf). pose proof Hwf as (Hfee & Hp & Hq).
  unfold MAX_FEE_BPS in Hfee. pose proof B_pos. assert (0 < B / 2) by reflexivity.
  pose proof (ratio_bound (p f) (q f) ltac:(lia) ltac:(lia)).
  pose proof (Z.mul_div_le (p f * B) (q f) ltac:(lia)) as Ea.
  pose proof (Z.mul_div_le ((10000 - fee f) * B) 10000 ltac:(lia)) as Eg.
  fold (gamma_val f) in Eg. unfold price_inv_val.
  set (a := p f * B / q f) in *. set (g := gamma_val f) in *.
  pose proof (Z.mul_div_le (a * g) B ltac:(lia)) as Ex. set (x := a * g / B) in *.
  apply Z.mul_le_mono_pos_l with (p := B); [done|].
  transitivity ((q f * a) * (10000 * g)).
  - replace (q f * a * (10000 * g)) with ((a * g) * (q f * 10000)) by ring.
    replace (B * (x * q f * 10000)) with (B * x * (q f * 10000)) by ring.
    apply Z.mul_le_mono_nonneg_r; nia.
  - replace (B * (p f * (10000 - fee f) * B)) with ((p f * B) * ((10000 - fee f) * B)) by ring.
    apply Z.mul_le_mono_nonneg; nia.
Qed.

Lemma price_ge f : wf f -> q f * B / p f <= price_val f.
Proof.
  intros Hwf. pose proof (gamma_bounds f Hwf). pose proof Hwf as (Hfee & Hp & Hq).
  assert (0 < B / 2) by reflexivity. pose proof B_pos.
  pose proof (ratio_bound (q f) (p f) ltac:(lia) ltac:(lia)).
  unfold price_val. apply Z.div_le_lower_bound; nia.
Qed.

(** Exhausting [r] units of asset 2 costs at least their value, up to one unit of asset 1. *)
Lemma max_fill_value f r :
  wf f -> is_u128 r -> q f * r < p f * (max_fill f r + 1).
Proof.
  intros Hwf Hr. pose proof Hwf as (Hfee & Hp & Hq). pose proof B_pos.
  pose proof (price_ge f Hwf) as Hge. unfold in_width in Hr. fold B in Hr.
  pose proof (ceil_spec (price_val f * r)) as [_ Hc]. fold (max_fill f r) in Hc.
  pose proof (Z.div_mod (q f * B) (p f) ltac:(lia)) as Hdm.
  pose proof (Z.mod_pos_bound (q f * B) (p f) ltac:(lia)).
  set (b := q f * B / p f) in *.
  assert (q f * B - p f < p f * b) by lia.
  assert (b * r <= B * max_fill f r).
  { transitivity (price_val f * r); [|lia]. apply Z.mul_le_mono_nonneg_r; lia. }
  destruct (Z.eq_dec r 0) as [->|]; [unfold max_fill; rewrite !Z.mul_0_r;
    pose proof (ceil_nonneg 0 ltac:(lia)); nia|].
  assert ((q f * B - p f) * r < p f * b * r) by (apply Z.mul_lt_mono_pos_r; lia).
  assert (p f * (b * r) <= p f * (B * max_fill f r)) by (apply Z.mul_le_mono_nonneg_l; lia).
  assert (p f * r <= p f * B) by (apply Z.mul_le_mono_nonneg_l; lia).
  apply Z.mul_lt_mono_pos_r with (p := B); [done|].
  replace (q f * r * B) with ((q f * B - p f) * r + p f * r) by ring.
  replace (p f * (max_fill f r + 1) * B) with (p f * (B * max_fill f r) + p f * B) by ring.
  lia.
Qed.

(** Inputs on which the code's arithmetic stays in range: well-formed coefficients, 128-bit
    amounts, and an input that fits on top of the reserves. *)
Definition fill_pre (f : BareTradingFunction) (delta_1 : Z) (r : Reserves) : Prop :=
  wf f /\ is_u128 delta_1 /\ 0 <= r1 r /\ is_u128 (r2 r) /\ r1 r + delta_1 < 2 ^ 128.

(** The shape of a successful fill, from which the properties follow. *)
Lemma fill_ok_cases f delta_1 r u r' lambda_2 :
  fill_pre f delta_1 r -> fill f delta_1 r = Ok (u, r', lambda_2) ->
  let consumed := delta_1 - u in
  0 <= consumed <= delta_1
  /\ r' = mkReserves (r1 r + consumed) (r2 r - lambda_2)
  /\ 0 <= lambda_2 <= r2 r
  /\ ((u = 0 /\ lambda_2 = price_inv_val f * delta_1 / B)
      \/ (lambda_2 = r2 r /\ consumed = max_fill f (r2 r))).
Proof.
  intros (Hwf & Hd & Hr1 & Hr2 & Hsum) Hfill. rewrite fill_eq in Hfill by done.
  pose proof B_pos. pose proof (price_inv_le f Hwf). pose proof (price_wf f Hwf) as [? _].
  unfold in_width in *.
  destruct (Z.leb_spec U256 (price_inv_val f * delta_1)); [done|].
  destruct (Z.leb_spec (price_inv_val f * delta_1) (r2 r * B)) as [Hle|Hgt];
    simplify_eq; cbn zeta.
  - rewrite Z.sub_0_r.
    assert (0 <= price_inv_val f * delta_1 / B <= r2 r)
      by (split; [apply Z.div_pos; nia | apply Z.div_le_upper_bound; lia]).
    repeat split; try lia; auto.
  - pose proof (max_fill_le f delta_1 (r2 r) Hwf Hd ltac:(lia) Hgt).
    assert (max_fill f (r2 r) <= delta_1) by (apply ceil_le; lia).
    assert (0 <= max_fill f (r2 r)) by (apply ceil_nonneg; nia).
    replace (delta_1 - (delta_1 - max_fill f (r2 r))) with (max_fill f (r2 r)) by lia.
    rewrite Z.sub_diag. repeat split; try lia; auto.
Qed.

Lemma fill_ok_fee f delta_1 r u r' lambda_2 :
  fill_pre f delta_1 r -> fill f delta_1 r = Ok (u, r', lambda_2) -> 0 < r2 r' ->
  q f * lambda_2 * 10000 <= p f * (10000 - fee f) * (delta_1 - u).
Proof.
  intros Hpre Hfill Hr'. pose proof (fill_ok_cases _ _ _ _ _ _ Hpre Hfill) as (_ & -> & _ & Hc).
  cbn in Hr'. destruct Hc as [[-> ->]|[-> _]]; [|lia].
  destruct Hpre as (Hwf & Hd & _). unfold in_width in Hd.
  pose proof (price_inv_fee f Hwf) as Hfee. pose proof B_pos.
  pose proof (Z.mul_div_le (price_inv_val f * delta_1) B ltac:(lia)) as Hdiv.
  set (l := price_inv_val f * delta_1 / B) in *. pose proof Hwf as (_ & _ & Hq).
  rewrite Z.sub_0_r. apply Z.mul_le_mono_pos_l with (p := B); [done|].
  transitivity (price_inv_val f * q f * 10000 * delta_1).
  - replace (B * (q f * l * 10000)) with (B * l * (q f * 10000)) by ring.
    replace (price_inv_val f * q f * 10000 * delta_1)
      with (price_inv_val f * delta_1 * (q f * 10000)) by ring.
    apply Z.mul_le_mono_nonneg_r; lia.
  - replace (B * (p f * (10000 - fee f) * delta_1))
      with (p f * (10000 - fee f) * B * delta_1) by ring.
    apply Z.mul_le_mono_nonneg_r; lia.
Qed.

Lemma fill_ok_value f delta_1 r u r' lambda_2 :
  fill_pre f delta_1 r -> fill f delta_1 r = Ok (u, r', lambda_2) ->
  q f * lambda_2 < p f * (delta_1 - u + 1).
Proof.
  intros Hpre Hfill. pose proof (fill_ok_cases _ _ _ _ _ _ Hpre Hfill) as (Hcon & -> & _ & Hc).
  destruct Hpre as (Hwf & Hd & _ & Hr2 & _). pose proof Hwf as (Hfee & Hp & Hq).
  destruct Hc as [[-> ->]|[-> ->]]; [|by apply max_fill_value].
  pose proof (price_inv_fee f Hwf). pose proof B_pos. unfold in_width in *.
  pose proof (price_inv_le f Hwf) as [? Hle].
  pose proof (Z.mul_div_le (p f * B) (q f) ltac:(lia)).
  pose proof (Z.mul_div_le (price_inv_val f * delta_1) B ltac:(lia)).
  set (l := price_inv_val f * delta_1 / B) in *.
  assert (q f * price_inv_val f <= p f * B) by nia.
  assert (q f * (B * l) <= q f * (price_inv_val f * delta_1)) by nia.
  assert (q f * price_inv_val f * delta_1 <= p f * B * delta_1) by nia.
  assert (B * (q f * l) <= B * (p f * delta_1)) by lia.
  assert (q f * l <= p f * delta_1) by (by apply Z.mul_le_mono_pos_l with (p := B)). lia.
Qed.

(** [fill_output] on arguments whose price fits. *)
Lemma fill_output_eq f r lambda_2 :
  wf f -> 0 <= r1 r -> is_u128 (r2 r) -> 0 <= lambda_2 ->
  max_fill f lambda_2 < B - r1 r ->
  fill_output f r lambda_2 =
    if r2 r <? lambda_2 then Ok None
    else Ok (Some (mkReserves (r1 r + max_fill f lambda_2) (r2 r - lambda_2),
                   max_fill f lambda_2)).
Proof.
  intros Hwf Hr1 Hr2 Hl Hfit. unfold fill_output.
  destruct (Z.ltb_spec (r2 r) lambda_2) as [|Hle]; [done|].
  unfold in_width in *. rewrite convert_to_delta_1_eq by (unfold in_width; done || lia).
  pose proof (price_wf f Hwf) as [? _]. pose proof B_pos.
  assert (0 <= price_val f * lambda_2) by nia.
  pose proof (ceil_spec (price_val f * lambda_2)) as [_ Hc]. unfold max_fill in *.
  destruct (Z.ltb_spec (price_val f * lambda_2) U256); [|rewrite U256_B in *; nia].
  cbn [outcome_bind]. rewrite round_up_eq by lia. cbn [outcome_bind expect_ok].
  rewrite try_into_u128_from_uint. cbn [outcome_bind expect_ok]. fold B.
  rewrite plain_add_run by (fold B; lia). cbn [outcome_bind].
  by rewrite plain_sub_run by done.
Qed.
End Bare.

(** ** The typed trading function *)

Record TradingFunction := mkPhi { component : BareTradingFunction; pair : TradingPair }.
#[global] Instance TradingFunction_eq_dec : EqDecision TradingFunction.
Proof. solve_decision. Defined.

Module Typed.
Definition new (pair : TradingPair) (fee p q : Z) : TradingFunction :=
  mkPhi (mkBare fee p q) pair.

Definition matches_input (phi : TradingFunction) (input_id : asset_id) : bool :=
  (input_id =? asset_1 (pair phi)) || (input_id =? asset_2 (pair phi)).

Definition fill (phi : TradingFunction) (input : Value) (reserves : Reserves)
  : anyhow (Value * Reserves * Value) :=
  if value_asset input =? asset_1 (pair phi) then
    let! '(unfilled, new_reserves, output) := Bare.fill (component phi) (amount input) reserves in
    Ok (mkValue unfilled (asset_1 (pair phi)), new_reserves,
        mkValue output (asset_2 (pair phi)))
  else if value_asset input =? asset_2 (pair phi) then
    let flipped_reserves := ReservesOps.flip reserves in
    let! '(unfilled, new_reserves, output) :=
      Bare.fill (Bare.flip (component phi)) (amount input) flipped_reserves in
    Ok (mkValue unfilled (asset_2 (pair phi)), ReservesOps.flip new_reserves,
        mkValue output (asset_1 (pair phi)))
  else Err "input asset id did not match either end of trading pair".

Definition fill_output (phi : TradingFunction) (reserves : Reserves) (output : Value)
  : anyhow (option (Reserves * Value)) :=
  if value_asset output =? asset_2 (pair phi) then
    let! o := Bare.fill_output (component phi) reserves (amount output) in
    Ok (option_map (fun '(new_reserves, input) =>
          (new_reserves, mkValue input (asset_1 (pair phi)))) o)
  else if value_asset output =? asset_1 (pair phi) then
    let flipped_reserves := ReservesOps.flip reserves in
    let flipped_function := Bare.flip (component phi) in
    let! o := Bare.fill_output flipped_function flipped_reserves (amount output) in
    Ok (option_map (fun '(new_reserves, input) =>
          (ReservesOps.flip new_reserves, mkValue input (asset_2 (pair phi)))) o)
  else Err "output asset id did not match either end of trading pair".

Definition orient_end (phi : TradingFunction) (end_ : asset_id) : option BareTradingFunction :=
  if end_ =? asset_2 (pair phi) then Some (component phi)
  else if end_ =? asset_1 (pair phi) then Some (Bare.flip (component phi))
  else None.

Definition orient_start (phi : TradingFunction) (start : asset_id)
  : option BareTradingFunction :=
  if start =? asset_1 (pair phi) then Some (component phi)
  else if start =? asset_2 (pair phi) then Some (Bare.flip (component phi))
  else None.

(** How much of an asset a value carries. *)
Definition carries (v : Value) (id : asset_id) : Z :=
  if decide (value_asset v = id) then amount v else 0.

Definition wf (phi : TradingFunction) : Prop :=
  Bare.wf (component phi) /\ asset_1 (pair phi) <> asset_2 (pair phi).

(** The arithmetic preconditions of [Bare.fill], in whichever direction the input points. *)
Definition fill_pre (phi : TradingFunction) (input : Value) (r : Reserves) : Prop :=
  wf phi /\ is_u128 (amount input) /\ is_u128 (r1 r) /\ is_u128 (r2 r)
  /\ r1 r + amount input < 2 ^ 128 /\ r2 r + amount input < 2 ^ 128.

(** A successful fill, reduced to a bare fill in one of the two directions. *)
Lemma fill_ok_inv phi input r unfilled r' output :
  fill phi input r = Ok (unfilled, r', output) ->
  exists u s' l,
    (value_asset input = asset_1 (pair phi)
     /\ Bare.fill (component phi) (amount input) r = Ok (u, s', l)
     /\ unfilled = mkValue u (asset_1 (pair phi)) /\ r' = s'
     /\ output = mkValue l (asset_2 (pair phi)))
    \/ (value_asset input = asset_2 (pair phi)
        /\ Bare.fill (Bare.flip (component phi)) (amount input) (ReservesOps.flip r)
           = Ok (u, s', l)
        /\ unfilled = mkValue u (asset_2 (pair phi)) /\ r' = ReservesOps.flip s'
        /\ output = mkValue l (asset_1 (pair phi))).
Proof.
  unfold fill. intros H.
  destruct (Z.eqb_spec (value_asset input) (asset_1 (pair phi))) as [He1|Hne1];
    [|destruct (Z.eqb_spec (value_asset input) (asset_2 (pair phi))) as [He2|Hne2]; [|done]];
    apply outcome_bind_ok in H as ([[u s'] l] & Hf & H); exists u, s', l; inject H; naive_solver.
Qed.

Lemma fill_conserves_value phi input r unfilled r' output id :
  fill_pre phi input r -> fill phi input r = Ok (unfilled, r', output) ->
  carries input id + ReservesOps.holds r (pair phi) id
    = carries unfilled id + carries output id + ReservesOps.holds r' (pair phi) id.
Proof.
  intros ([Hwf Hne] & Hd & Hr1 & Hr2 & Hs1 & Hs2) H.
  pose proof Hr1 as [? _]. pose proof Hr2 as [? _].
  apply fill_ok_inv in H as (u & s' & l & [(Hin & Hf & -> & -> & ->)|(Hin & Hf & -> & -> & ->)]).
  - apply Bare.fill_ok_cases in Hf as (Hc & -> & Hl & _); [|done].
    unfold carries, ReservesOps.holds; cbn. rewrite Hin.
    repeat case_decide; subst; try congruence; lia.
  - apply Bare.fill_ok_cases in Hf as (Hc & -> & Hl & _).
    + unfold carries, ReservesOps.holds; cbn. rewrite Hin.
      repeat case_decide; subst; try congruence; cbn; lia.
    + split; [by apply Bare.wf_flip|done].
Qed.
End Typed.

(** ** Properties *)

Section TradingFunctionProperties.
(** (C1) A fill of a position conserves value exactly, asset by asset: what the trader brings plus the
    old reserves is what the trader takes back (unfilled input and output) plus the new
    reserves. *)
Theorem fill_conserves phi input r unfilled r' output :
  Typed.fill_pre phi input r -> Typed.fill phi input r = Ok (unfilled, r', output) ->
  forall id, Typed.carries input id + ReservesOps.holds r (pair phi) id
    = Typed.carries unfilled id + Typed.carries output id + ReservesOps.holds r' (pair phi) id.
Proof. intros Hpre H id. by apply Typed.fill_conserves_value. Qed.

(** (C2) A fill never favours the trader.  The pool's value at the coefficients, [p * R_1 + q * R_2],
    drops by less than [p] (one unit of the input, the rounding of an exhausting fill); and when
    the reserves are not exhausted the trader pays for the output at the price net of the
    fee. *)
Theorem fill_never_favours_trader f delta_1 r u r' lambda_2 :
  Bare.fill_pre f delta_1 r -> Bare.fill f delta_1 r = Ok (u, r', lambda_2) ->
  p f * r1 r + q f * r2 r < p f * r1 r' + q f * r2 r' + p f
  /\ (0 < r2 r' -> q f * lambda_2 * 10000 <= p f * (10000 - fee f) * (delta_1 - u))
  /\ (u <> 0 -> r2 r' = 0).
Proof.
  intros Hpre H. pose proof (Bare.fill_ok_value _ _ _ _ _ _ Hpre H) as Hv.
  pose proof (Bare.fill_ok_fee _ _ _ _ _ _ Hpre H) as Hfee.
  pose proof (Bare.fill_ok_cases _ _ _ _ _ _ Hpre H) as (Hc & -> & Hl & Hcases).
  cbn in *. split; [|split; [done|]].
  - nia.
  - destruct Hcases as [[-> _]|[-> _]]; lia.
Qed.

(** (C3) [fill] is total on in-range inputs: it never panics (the [expect]s and the subtractions
    justified by the comments cannot fail), and it errs exactly when the output does not fit the
    fixed-point range. *)
Theorem fill_never_panics f delta_1 r :
  Bare.fill_pre f delta_1 r ->
  Bare.fill f delta_1 r <> Panic
  /\ (Bare.fill f delta_1 r = Err "overflow"%string
      <-> U128x128.U256 <= Bare.price_inv_val f * delta_1).
Proof.
  intros (Hwf & Hd & Hr1 & Hr2 & Hsum). rewrite Bare.fill_eq by done.
  destruct (Z.leb_spec U128x128.U256 (Bare.price_inv_val f * delta_1)); [split; done|].
  destruct (_ <=? _); split; try done; split; done || lia.
Qed.

(** [fill_output] computes the least input that covers the requested output at the effective
    price, moves exactly the requested amount, and returns [None] exactly when the request
    exceeds the reserves. *)
Theorem fill_output_exact f r lambda_2 :
  Bare.wf f -> 0 <= r1 r -> is_u128 (r2 r) -> 0 <= lambda_2 ->
  Bare.max_fill f lambda_2 < U128x128.B - r1 r ->
  match Bare.fill_output f r lambda_2 with
  | Ok None => r2 r < lambda_2
  | Ok (Some (r', delta_1)) =>
      r1 r' = r1 r + delta_1 /\ r2 r' + lambda_2 = r2 r /\ 0 <= r2 r'
      /\ Bare.price_val f * lambda_2 <= U128x128.B * delta_1
      /\ (forall d, Bare.price_val f * lambda_2 <= U128x128.B * d -> delta_1 <= d)
      /\ q f * lambda_2 < p f * (delta_1 + 1)
  | _ => False
  end.
Proof.
  intros Hwf Hr1 Hr2 Hl Hfit. rewrite Bare.fill_output_eq by done.
  destruct (Z.ltb_spec (r2 r) lambda_2); [done|]. cbn [r1 r2].
  pose proof (U128x128.ceil_spec (Bare.price_val f * lambda_2)) as [_ Hc].
  unfold in_width in Hr2. split_and!; [lia..|exact Hc| |].
  - intros d Hd. by apply U128x128.ceil_le.
  - apply Bare.max_fill_value; [done|]. unfold in_width; lia.
Qed.
End TradingFunctionProperties.

(** *** Witnesses: a 30bps position between assets 1 and 2 *)

Definition sample_phi : TradingFunction := mkPhi (mkBare 30 3 2) (mkPair 1 2).
Definition sample_reserves : Reserves := mkReserves 500 700.

Lemma fill_conserves_witness :
  Typed.fill sample_phi (mkValue 1000 1) sample_reserves
    = Ok (mkValue 531 1, mkReserves 969 0, mkValue 700 2)
  /\ Typed.carries (mkValue 1000 1) 2 + ReservesOps.holds sample_reserves (mkPair 1 2) 2
     = Typed.carries (mkValue 531 1) 2 + Typed.carries (mkValue 700 2) 2
       + ReservesOps.holds (mkReserves 969 0) (mkPair 1 2) 2.
Proof.
  assert (H : Typed.fill sample_phi (mkValue 1000 1) sample_reserves
    = Ok (mkValue 531 1, mkReserves 969 0, mkValue 700 2)) by (vm_compute; reflexivity).
  split; [exact H|].
  apply (fill_conserves sample_phi (mkValue 1000 1) sample_reserves _ _ _).
  - by_computation.
  - exact H.
Defined.

Lemma fill_never_favours_trader_witness :
  Bare.fill (mkBare 30 3 2) 100 sample_reserves = Ok (0, mkReserves 600 551, 149)
  /\ 2 * 149 * 10000 <= 3 * (10000 - 30) * (100 - 0).
Proof.
  assert (H : Bare.fill (mkBare 30 3 2) 100 sample_reserves = Ok (0, mkReserves 600 551, 149))
    by (vm_compute; reflexivity).
  split; [exact H|].
  apply (fill_never_favours_trader (mkBare 30 3 2) 100 sample_reserves 0 (mkReserves 600 551) 149).
  - by_computation.
  - exact H.
  - by_computation.
Defined.

Lemma fill_never_panics_witness :
  Bare.fill_pre (mkBare 30 3 2) 100 sample_reserves
  /\ Bare.fill (mkBare 30 3 2) 100 sample_reserves <> Panic.
Proof.
  assert (H : Bare.fill_pre (mkBare 30 3 2) 100 sample_reserves).
  { by_computation. }
  split; [exact H|]. apply (fill_never_panics (mkBare 30 3 2) 100 sample_reserves H).
Defined.

Lemma fill_output_exact_witness :
  Bare.fill_output (mkBare 30 3 2) sample_reserves 149
    = Ok (Some (mkReserves 600 551, 100))
  /\ 2 * 149 < 3 * (100 + 1).
Proof.
  assert (H : Bare.fill_output (mkBare 30 3 2) sample_reserves 149
    = Ok (Some (mkReserves 600 551, 100))) by (vm_compute; reflexivity).
  split; [exact H|].
  pose proof (fill_output_exact (mkBare 30 3 2) sample_reserves 149) as W.
  rewrite H in W. apply W.
  - by_computation.
  - by_computation.
  - by_computation.
  - by_computation.
  - by_computation.
Defined.
