(* ===== verification/Position.v ===== *)
(** * Liquidity positions

    Models crates/core/component/dex/src/lp/position.rs: the position record and its state, the
    stateless checks, the identifier, and the flows between two states of a position. *)

From S2P Require Import Prelude.
From S2P Require Import Num.
From S2P Require Import Asset.
From S2P Require Import TradingFunction.

(** What the DEX uses of code outside the repository: the blake2b hash that derives position ids
    (personalised with "penumbra_lp_id", truncated to 32 bytes and read as a big-endian integer,
    so that ids compare like their bytes), the canonical 32-byte encoding of a field element, and
    the hash-to-field that fixes the staking token's asset id. *)
Class DexEnv := {
  lp_hash : list Z -> Z;
  asset_bytes : asset_id -> list Z;
  STAKING_TOKEN_ASSET_ID : asset_id;
}.

Module PositionState.
Inductive t :=
| Opened
| Closed
| Withdrawn (sequence : Z).

#[global] Instance t_eq_dec : EqDecision t.
Proof. solve_decision. Defined.

(** [matches!(state, Opened)] *)
Definition is_opened (s : t) : bool := match s with Opened => true | _ => false end.
Definition is_closed (s : t) : bool := match s with Closed => true | _ => false end.

(** The life of a position: opened once, traded against while open, closed, then withdrawn from
    any number of times with consecutive sequence numbers; rewards may be paid in any state. *)
Inductive transition : option t -> t -> Prop :=
| transition_open : transition None Opened
| transition_trade : transition (Some Opened) Opened
| transition_close : transition (Some Opened) Closed
| transition_stay_closed : transition (Some Closed) Closed
| transition_withdraw : transition (Some Closed) (Withdrawn 0)
| transition_withdraw_again n : transition (Some (Withdrawn n)) (Withdrawn (n + 1))
| transition_stay_withdrawn n : transition (Some (Withdrawn n)) (Withdrawn n).

(** The wire encoding: an enum tag and a sequence number. *)
Record proto := Proto { tag : Z; proto_sequence : Z }.

Definition to_proto (s : t) : proto :=
  {| tag := match s with Opened => 1 | Closed => 2 | Withdrawn _ => 3 end;
     proto_sequence := match s with Withdrawn sequence => sequence | _ => 0 end |}.
End PositionState.

Record Position := mkPosition {
  state : PositionState.t;
  reserves : Reserves;
  phi : TradingFunction;
  nonce : list Z;
  close_on_fill : bool;
}.
#[global] Instance Position_eq_dec : EqDecision Position.
Proof. solve_decision. Defined.

Abbreviation position_id := Z.

(** ** Flows: what entered and left a position between two states *)

Module Flows.
Record t := mk {
  fpair : DirectedTradingPair;
  delta_1 : Z; delta_2 : Z;
  lambda_1 : Z; lambda_2 : Z;
  fee_1 : Z; fee_2 : Z;
}.

Definition from_phi_and_reserves {E} (phi : TradingFunction) (current prev : Reserves)
  : outcome E t :=
  let! '(d1, d2, l1, l2) :=
    (if r1 prev <? r1 current then
       let! d1 := plain_sub (r1 current) (r1 prev) in
       let! l2 := plain_sub (r2 prev) (r2 current) in
       Ok (d1, 0, 0, l2)
     else
       let! d2 := plain_sub (r2 current) (r2 prev) in
       let! l1 := plain_sub (r1 prev) (r1 current) in
       Ok (0, d2, l1, 0)) in
  let fee_bps := fee (component phi) in
  let! f1 := plain_mul 128 d1 fee_bps in
  let! f2 := plain_mul 128 d2 fee_bps in
  Ok (mk (mkDirected (asset_1 (pair phi)) (asset_2 (pair phi)))
         d1 d2 l1 l2 (f1 / 10000) (f2 / 10000)).

(** Reorient flows around a pair. *)
Definition redirect (f : t) (pair : DirectedTradingPair) : option t :=
  if decide (fpair f = pair) then Some f
  else
    let flip := Pair.flip pair in
    if decide (fpair f = flip) then
      Some (mk flip (delta_2 f) (delta_1 f) (lambda_2 f) (lambda_1 f) (fee_2 f) (fee_1 f))
    else None.
End Flows.

Module PositionOps.
Section Ops.
Context `{DexEnv}.

Definition new_with_nonce (nonce : list Z) (pair : DirectedTradingPair) (fee p q : Z)
  (reserves : Reserves) : Position :=
  let canonical_tp := Pair.to_canonical pair in
  let '(p, q, reserves) :=
    if negb (start pair =? asset_1 canonical_tp) then (q, p, mkReserves (r2 reserves) (r1 reserves))
    else (p, q, reserves) in
  mkPosition PositionState.Opened reserves (Typed.new canonical_tp fee p q) nonce false.

(** [Position::new] draws the nonce from the generator and then does the same. *)
Definition new (rng_bytes : list Z) (pair : DirectedTradingPair) (fee p q : Z)
  (reserves : Reserves) : Position :=
  let canonical_tp := Pair.to_canonical pair in
  let '(p, q, reserves) :=
    if negb (start pair =? asset_1 canonical_tp) then (q, p, mkReserves (r2 reserves) (r1 reserves))
    else (p, q, reserves) in
  mkPosition PositionState.Opened reserves (Typed.new canonical_tp fee p q) rng_bytes false.

Definition id (lp : Position) : position_id :=
  lp_hash (nonce lp
    ++ asset_bytes (asset_1 (pair (phi lp)))
    ++ asset_bytes (asset_2 (pair (phi lp)))
    ++ le_bytes 4 (fee (component (phi lp)))
    ++ le_bytes 16 (p (component (phi lp)))
    ++ le_bytes 16 (q (component (phi lp)))).

Definition check_stateless (lp : Position) : anyhow unit :=
  let r := reserves lp in
  let f := component (phi lp) in
  if (MAX_RESERVE_AMOUNT <? r1 r) || (MAX_RESERVE_AMOUNT <? r2 r) then
    Err "Reserve amounts are out-of-bounds"
  else if (r1 r =? 0) && (r2 r =? 0) then
    Err "initial reserves must provision some amount of either asset"
  else if (p f =? 0) || (q f =? 0) then Err "trading function coefficients must be nonzero"
  else if (MAX_RESERVE_AMOUNT <? p f) || (MAX_RESERVE_AMOUNT <? q f) then
    Err "trading function coefficients are too large"
  else if asset_1 (pair (phi lp)) =? asset_2 (pair (phi lp)) then
    Err "cyclical pairs aren't allowed"
  else if MAX_FEE_BPS <? fee f then Err "fee cannot be greater than 50% (5000bps)"
  else Ok tt.

Definition reserves_for (lp : Position) (asset : asset_id) : option Z :=
  if asset =? asset_1 (pair (phi lp)) then Some (r1 (reserves lp))
  else if asset =? asset_2 (pair (phi lp)) then Some (r2 (reserves lp))
  else None.

Definition reserves_1 (lp : Position) : Value :=
  mkValue (r1 (reserves lp)) (asset_1 (pair (phi lp))).
Definition reserves_2 (lp : Position) : Value :=
  mkValue (r2 (reserves lp)) (asset_2 (pair (phi lp))).

Definition flows {E} (new prev : Position) : outcome E Flows.t :=
  Flows.from_phi_and_reserves (phi new) (reserves new) (reserves prev).

(** Updates of the mutable parts. *)
Definition with_state (st : PositionState.t) (lp : Position) : Position :=
  mkPosition st (reserves lp) (phi lp) (nonce lp) (close_on_fill lp).
Definition with_reserves (r : Reserves) (lp : Position) : Position :=
  mkPosition (state lp) r (phi lp) (nonce lp) (close_on_fill lp).

(** *** Invariants *)

(** Unsigned machine integers in every field. *)
Definition typed (lp : Position) : Prop :=
  is_u128 (r1 (reserves lp)) /\ is_u128 (r2 (reserves lp))
  /\ is_u32 (fee (component (phi lp)))
  /\ is_u128 (p (component (phi lp))) /\ is_u128 (q (component (phi lp))).

(** What a position holds of an asset. *)
Definition holds (lp : Position) (id : asset_id) : Z :=
  ReservesOps.holds (reserves lp) (pair (phi lp)) id.

Lemma id_with_state st lp : id (with_state st lp) = id lp.
Proof. done. Qed.

Lemma id_with_reserves r lp : id (with_reserves r lp) = id lp.
Proof. done. Qed.

(** The stateless checks establish the preconditions of the trading function's arithmetic. *)
Lemma check_stateless_wf lp :
  typed lp -> check_stateless lp = Ok tt ->
  Typed.wf (phi lp)
  /\ 0 <= r1 (reserves lp) <= MAX_RESERVE_AMOUNT /\ 0 <= r2 (reserves lp) <= MAX_RESERVE_AMOUNT
  /\ (r1 (reserves lp) <> 0 \/ r2 (reserves lp) <> 0).
Proof.
  unfold typed, in_width, check_stateless. intros Ht Hc.
  repeat match type of Hc with
  | (if ?b then _ else _) = _ => destruct b eqn:?; [discriminate|]
  end.
  to_prop. repeat match goal with
  | H : (_ && _)%bool = false |- _ => apply andb_false_iff in H
  end.
  unfold Typed.wf, Bare.wf. split_and!; lia.
Qed.

Lemma reserves_for_start lp : reserves_for lp (asset_1 (pair (phi lp))) = Some (r1 (reserves lp)).
Proof. unfold reserves_for. by rewrite Z.eqb_refl. Qed.

Lemma reserves_for_end lp :
  asset_1 (pair (phi lp)) <> asset_2 (pair (phi lp)) ->
  reserves_for lp (asset_2 (pair (phi lp))) = Some (r2 (reserves lp)).
Proof.
  intros Hne. unfold reserves_for.
  destruct (Z.eqb_spec (asset_2 (pair (phi lp))) (asset_1 (pair (phi lp)))); [congruence|].
  by rewrite Z.eqb_refl.
Qed.

(** Swapping the ends of the directed pair together with the coefficients and the reserves names
    the same position: the constructor is independent of the orientation it is given. *)
Lemma new_orientation n d f a b r :
  start d <> end_ d ->
  new_with_nonce n d f a b r
    = new_with_nonce n (Pair.flip d) f b a (ReservesOps.flip r).
Proof.
  destruct d as [x y], r as [s t]. cbn. intros Hne.
  unfold new_with_nonce, Pair.to_canonical, Pair.flip, Pair.new. cbn.
  destruct (Z.ltb_spec x y), (Z.ltb_spec y x); try lia; cbn;
    repeat case_match; to_prop; simplify_eq; done || lia.
Qed.
End Ops.
End PositionOps.

(** ** Properties *)

(** [check_stateless] accepts only positions on which every later fill is total: for any input that
    fits in 80 bits, filling an accepted position in either direction never panics. *)
Theorem accepted_positions_fill_totally `{DexEnv} lp input :
  PositionOps.typed lp -> PositionOps.check_stateless lp = Ok tt ->
  0 <= amount input <= MAX_RESERVE_AMOUNT ->
  Typed.fill (phi lp) input (reserves lp) <> Panic.
Proof.
  intros Ht Hc Hi. apply PositionOps.check_stateless_wf in Hc as ([Hwf Hne] & H1 & H2 & _); [|done].
  assert (Hmax : MAX_RESERVE_AMOUNT + MAX_RESERVE_AMOUNT < 2 ^ 128) by reflexivity.
  assert (Hpre : forall f r, Bare.wf f -> 0 <= r1 r <= MAX_RESERVE_AMOUNT ->
    0 <= r2 r <= MAX_RESERVE_AMOUNT -> Bare.fill f (amount input) r <> Panic).
  { intros f r Hf Hr1 Hr2. rewrite Bare.fill_eq by (unfold in_width; done || lia).
    by repeat case_match. }
  unfold Typed.fill. case_match.
  - specialize (Hpre (component (phi lp)) (reserves lp) Hwf H1 H2).
    by destruct (Bare.fill _ _ _) as [[[]]| |].
  - case_match; [|done].
    specialize (Hpre (Bare.flip (component (phi lp))) (ReservesOps.flip (reserves lp))
      (Bare.wf_flip _ Hwf) H2 H1).
    by destruct (Bare.fill _ _ _) as [[[]]| |].
Qed.

(** A position named from either end of its directed pair is the same position, with the same
    identifier. *)
Theorem new_position_orientation_independent `{DexEnv} n d f a b r :
  start d <> end_ d ->
  PositionOps.new_with_nonce n d f a b r
    = PositionOps.new_with_nonce n (Pair.flip d) f b a (ReservesOps.flip r)
  /\ PositionOps.id (PositionOps.new_with_nonce n d f a b r)
     = PositionOps.id (PositionOps.new_with_nonce n (Pair.flip d) f b a (ReservesOps.flip r)).
Proof. intros Hne. rewrite <- PositionOps.new_orientation; done. Qed.

(** Redirecting flows to the opposite pair swaps the amounts but keeps the original pair as the
    label: the result is labelled with a pair different from the one asked for. *)
Theorem redirect_keeps_original_pair f d :
  Flows.fpair f = Pair.flip d -> start d <> end_ d ->
  exists g, Flows.redirect f d = Some g
    /\ Flows.delta_1 g = Flows.delta_2 f /\ Flows.lambda_1 g = Flows.lambda_2 f
    /\ Flows.fpair g = Flows.fpair f /\ Flows.fpair g <> d.
Proof.
  intros Hf Hne. assert (Hd : Flows.fpair f <> d).
  { rewrite Hf. destruct d as [x y]; cbn in *. unfold Pair.flip; cbn. congruence. }
  unfold Flows.redirect. rewrite decide_False by done. rewrite decide_True by done.
  eexists. split; [reflexivity|]. cbn. rewrite <- Hf. auto.
Qed.

(** *** Witnesses *)

(** A concrete environment: a polynomial hash, 32-byte encodings, asset 100 as staking token. *)
Definition sample_env : DexEnv := {|
  lp_hash := fun bs => foldl (fun h b => (h * 257 + b + 1) mod 2 ^ 256) 7 bs;
  asset_bytes := le_bytes 32;
  STAKING_TOKEN_ASSET_ID := 100;
|}.

Definition sample_position : Position :=
  @PositionOps.new_with_nonce [1; 2; 3] (mkDirected 2 1) 30 2 3 (mkReserves 700 500).

Lemma accepted_positions_fill_totally_witness :
  @PositionOps.check_stateless sample_position = Ok tt
  /\ Typed.fill (phi sample_position) (mkValue 1000 1) (reserves sample_position) <> Panic.
Proof.
  assert (H : @PositionOps.check_stateless sample_position = Ok tt) by (vm_compute; reflexivity).
  split; [exact H|].
  apply (@accepted_positions_fill_totally sample_env sample_position (mkValue 1000 1)).
  - by_computation.
  - exact H.
  - by_computation.
Defined.

Lemma new_position_orientation_independent_witness :
  start (mkDirected 2 1) <> end_ (mkDirected 2 1)
  /\ PositionOps.new_with_nonce [1; 2; 3] (mkDirected 2 1) 30 2 3 (mkReserves 700 500)
     = PositionOps.new_with_nonce [1; 2; 3] (mkDirected 1 2) 30 3 2 (mkReserves 500 700).
Proof.
  assert (H : start (mkDirected 2 1) <> end_ (mkDirected 2 1)) by discriminate.
  split; [exact H|].
  exact (proj1 (@new_position_orientation_independent sample_env [1; 2; 3] (mkDirected 2 1) 30 2 3
    (mkReserves 700 500) H)).
Defined.

Lemma redirect_keeps_original_pair_witness :
  exists g, Flows.redirect (Flows.mk (mkDirected 1 2) 10 0 0 7 1 0) (mkDirected 2 1) = Some g
    /\ Flows.lambda_1 g = 7 /\ Flows.fpair g = mkDirected 1 2.
Proof.
  destruct (redirect_keeps_original_pair (Flows.mk (mkDirected 1 2) 10 0 0 7 1 0) (mkDirected 2 1)
    ltac:(reflexivity) ltac:(discriminate)) as (g & Hg & _ & Hl & Hp & _).
  exists g. split; [exact Hg|]. split; [exact Hl | exact Hp].
Defined.
