(* ===== verification/Vcb.v ===== *)
(** * Value circuit breakers

    Models crates/core/component/dex/src/component/circuit_breaker/value.rs: a ledger of the value
    a component has taken custody of.  The auction component keeps a ledger of its own with the
    same operations (crates/core/component/auction/src/component/auction.rs), so they are proved
    once, against the store interface [VcbStore], and instantiated by each component. *)

From S2P Require Import Prelude.
From S2P Require Import Num.
From S2P Require Import Asset.
From S2P Require Import TradingFunction.

(** The events of the circuit breakers. *)
Inductive VcbEvent :=
| EventValueCircuitBreakerCredit (asset : asset_id) (previous_balance new_balance : Z)
| EventValueCircuitBreakerDebit (asset : asset_id) (previous_balance new_balance : Z).

(** What the operations use of the state: a balance per asset and the event log. *)
Class VcbStore (S : Type) := {
  get_vcb_for_asset : asset_id -> S -> option Z;
  put_value_balance : asset_id -> Z -> S -> S;
  record_vcb_event : VcbEvent -> S -> S;
}.

Class VcbStoreLaws (S : Type) `{VcbStore S} := {
  get_put_same a v s : get_vcb_for_asset a (put_value_balance a v s) = Some v;
  get_put_other a b v s :
    a <> b -> get_vcb_for_asset b (put_value_balance a v s) = get_vcb_for_asset b s;
  get_record a e s : get_vcb_for_asset a (record_vcb_event e s) = get_vcb_for_asset a s;
}.

Module Vcb.
Section Operations.
Context {S : Type} `{VcbStore S}.

(** The recorded balance; assets never seen count as zero. *)
Definition balance (a : asset_id) (s : S) : Z := default 0 (get_vcb_for_asset a s).

Definition dex_vcb_credit (value : Value) : comp S string unit :=
  if amount value =? 0 then ret tt
  else
    prev_balance <- gets (balance (value_asset value));;
    new_balance <- lift (ok_or (checked_add 128 prev_balance (amount value))
      "overflowed balance while crediting value circuit breaker");;
    modify (put_value_balance (value_asset value) new_balance);;;
    modify (record_vcb_event
      (EventValueCircuitBreakerCredit (value_asset value) prev_balance new_balance)).

Definition dex_vcb_debit (value : Value) : comp S string unit :=
  if amount value =? 0 then ret tt
  else
    prev_balance <- gets (balance (value_asset value));;
    new_balance <- lift (ok_or (checked_sub prev_balance (amount value))
      "underflowed balance while debiting value circuit breaker");;
    modify (put_value_balance (value_asset value) new_balance);;;
    modify (record_vcb_event
      (EventValueCircuitBreakerDebit (value_asset value) prev_balance new_balance)).

(** The states an operation writes: nothing, or one balance and one event. *)
Definition touched (v : Value) (b : Z) (ev : Z -> Z -> VcbEvent) (s : S) : S :=
  if amount v =? 0 then s
  else record_vcb_event (ev (balance (value_asset v) s) b) (put_value_balance (value_asset v) b s).

Lemma credit_spec v s u s' :
  dex_vcb_credit v s = (Ok u, s') <->
  u = tt
  /\ (amount v <> 0 -> balance (value_asset v) s + amount v < 2 ^ 128)
  /\ s' = touched v (balance (value_asset v) s + amount v)
            (EventValueCircuitBreakerCredit (value_asset v)) s.
Proof.
  unfold dex_vcb_credit, touched. destruct u, (Z.eqb_spec (amount v) 0).
  - unfold ret. naive_solver.
  - unfold bind, gets, lift, modify, checked_add.
    destruct (Z.ltb_spec (balance (value_asset v) s + amount v) (2 ^ 128)); cbn; naive_solver lia.
Qed.

Lemma debit_spec v s u s' :
  dex_vcb_debit v s = (Ok u, s') <->
  u = tt
  /\ (amount v <> 0 -> amount v <= balance (value_asset v) s)
  /\ s' = touched v (balance (value_asset v) s - amount v)
            (EventValueCircuitBreakerDebit (value_asset v)) s.
Proof.
  unfold dex_vcb_debit, touched. destruct u, (Z.eqb_spec (amount v) 0).
  - unfold ret. naive_solver.
  - unfold bind, gets, lift, modify, checked_sub.
    destruct (Z.leb_spec (amount v) (balance (value_asset v) s)); cbn; naive_solver lia.
Qed.

Context `{!VcbStoreLaws S}.

Lemma balance_touched v b ev s a :
  balance a (touched v b ev s) =
    if decide (a = value_asset v /\ amount v <> 0) then b else balance a s.
Proof.
  unfold touched, balance. destruct (Z.eqb_spec (amount v) 0).
  - by rewrite decide_False by naive_solver.
  - rewrite get_record. case_decide as E.
    + destruct E as [-> _]. by rewrite get_put_same.
    + rewrite get_put_other by naive_solver. done.
Qed.

Lemma credit_balance v s u s' a :
  dex_vcb_credit v s = (Ok u, s') -> balance a s' = balance a s + Typed.carries v a.
Proof.
  intros (-> & _ & ->)%credit_spec. rewrite balance_touched. unfold Typed.carries.
  repeat case_decide; naive_solver lia.
Qed.

Lemma debit_balance v s u s' a :
  dex_vcb_debit v s = (Ok u, s') -> balance a s' = balance a s - Typed.carries v a.
Proof.
  intros (-> & _ & ->)%debit_spec. rewrite balance_touched. unfold Typed.carries.
  repeat case_decide; naive_solver lia.
Qed.

(** Any sequence of credits and debits. *)
Inductive movement := Credit (v : Value) | Debit (v : Value).

Definition run_movement (m : movement) : comp S string unit :=
  match m with Credit v => dex_vcb_credit v | Debit v => dex_vcb_debit v end.

Definition net (a : asset_id) (m : movement) : Z :=
  match m with Credit v => Typed.carries v a | Debit v => - Typed.carries v a end.

Definition movement_typed (m : movement) : Prop :=
  match m with Credit v | Debit v => is_u128 (amount v) end.

Definition balances_typed (s : S) : Prop := forall a, is_u128 (balance a s).

Lemma run_movement_balance m s u s' a :
  run_movement m s = (Ok u, s') -> balance a s' = balance a s + net a m.
Proof.
  destruct m; cbn; intros Hm;
    [apply (credit_balance _ _ _ _ a) in Hm | apply (debit_balance _ _ _ _ a) in Hm]; lia.
Qed.

Lemma run_movement_typed m s u s' :
  movement_typed m -> balances_typed s -> run_movement m s = (Ok u, s') -> balances_typed s'.
Proof.
  intros Hm Hs Hr a. pose proof (Hs a) as Ha. unfold in_width in *.
  destruct m as [v|v]; cbn in Hm, Hr.
  - apply credit_spec in Hr as (_ & Hb & ->). rewrite balance_touched.
    case_decide as E; [destruct E as [-> E]; pose proof (Hs (value_asset v)) as Hv;
      unfold in_width in *; lia | done].
  - apply debit_spec in Hr as (_ & Hb & ->). rewrite balance_touched.
    case_decide as E; [destruct E as [-> E]; pose proof (Hs (value_asset v)) as Hv;
      unfold in_width in *; lia | done].
Qed.

Lemma run_movements_typed ms s u s' :
  Forall movement_typed ms -> balances_typed s ->
  for_each ms run_movement s = (Ok u, s') -> balances_typed s'.
Proof.
  intros Hms. revert s. induction Hms as [|m ms Hm _ IH]; intros s Hs Hr; cbn in Hr.
  - unfold ret in Hr. naive_solver.
  - apply bind_ok in Hr as (a & s1 & H1 & H2). eauto using run_movement_typed.
Qed.

Lemma run_movements_balance ms s u s' a :
  for_each ms run_movement s = (Ok u, s') ->
  balance a s' = balance a s + list_sum (net a <$> ms).
Proof.
  revert s. induction ms as [|m ms IH]; intros s Hr; cbn in Hr |- *.
  - unfold ret in Hr. simplify_eq. lia.
  - apply bind_ok in Hr as ([] & s1 & H1 & H2). apply IH in H2.
    apply (run_movement_balance _ _ _ _ a) in H1. cbn in *. unfold list_sum in *. lia.
Qed.

(** An operation that would leave the range fails and writes nothing. *)
Lemma debit_underflow v s :
  amount v <> 0 -> balance (value_asset v) s < amount v ->
  dex_vcb_debit v s = (Err "underflowed balance while debiting value circuit breaker", s).
Proof.
  intros Hv Hb. unfold dex_vcb_debit, bind, gets, lift, checked_sub.
  destruct (Z.eqb_spec (amount v) 0); [done|].
  destruct (Z.leb_spec (amount v) (balance (value_asset v) s)); [lia | done].
Qed.
End Operations.
End Vcb.

(** ** Properties *)

(** The ledger never lets out more than went in: after any successful sequence of credits and
    debits from a well-typed ledger, the balance of every asset is the initial one plus the
    credits minus the debits, it is still a 128-bit amount - in particular non-negative - and
    one more debit above it is refused with the state untouched. *)
Theorem vcb_never_pays_out_more_than_it_holds {S} `{VcbStoreLaws S} ms s u s' a extra :
  Forall Vcb.movement_typed ms -> Vcb.balances_typed s ->
  for_each ms Vcb.run_movement s = (Ok u, s') ->
  Vcb.balance a s' = Vcb.balance a s + list_sum (Vcb.net a <$> ms)
  /\ 0 <= Vcb.balance a s' < 2 ^ 128
  /\ (0 < extra -> Vcb.dex_vcb_debit (mkValue (Vcb.balance a s' + extra) a) s'
        = (Err "underflowed balance while debiting value circuit breaker", s')).
Proof.
  intros Hms Hs Hr. pose proof (Vcb.run_movements_typed _ _ _ _ Hms Hs Hr a) as Ht.
  split_and!; [by eapply Vcb.run_movements_balance | apply Ht | apply Ht |].
  intros Hx. unfold in_width in Ht. apply Vcb.debit_underflow; cbn [amount value_asset]; lia.
Qed.

(** *** Witness: a bare ledger *)

Record Ledger := mkLedger { ledger_balances : gmap asset_id Z; ledger_events : list VcbEvent }.

#[global] Instance ledger_store : VcbStore Ledger := {|
  get_vcb_for_asset a s := ledger_balances s !! a;
  put_value_balance a v s := mkLedger (<[a := v]> (ledger_balances s)) (ledger_events s);
  record_vcb_event e s := mkLedger (ledger_balances s) (ledger_events s ++ [e]);
|}.

#[global] Instance ledger_laws : VcbStoreLaws Ledger.
Proof.
  split; intros; cbn; [apply lookup_insert_eq | by apply lookup_insert_ne | done].
Qed.

Lemma vcb_never_pays_out_more_than_it_holds_witness :
  exists s', for_each [Vcb.Credit (mkValue 100 1); Vcb.Debit (mkValue 30 1)] Vcb.run_movement
    (mkLedger ∅ []) = (Ok tt, s')
  /\ Vcb.balance 1 s' = 70
  /\ Vcb.dex_vcb_debit (mkValue (Vcb.balance 1 s' + 1) 1) s'
     = (Err "underflowed balance while debiting value circuit breaker", s').
Proof.
  set (ms := [Vcb.Credit (mkValue 100 1); Vcb.Debit (mkValue 30 1)]).
  set (s' := (for_each ms Vcb.run_movement (mkLedger ∅ [])).2).
  exists s'. assert (Hr : for_each ms Vcb.run_movement (mkLedger ∅ []) = (Ok tt, s')).
  { unfold s'. vm_compute. reflexivity. }
  split; [exact Hr|].
  destruct (vcb_never_pays_out_more_than_it_holds ms (mkLedger ∅ []) tt s' 1 1) as (_ & _ & Hd).
  - repeat constructor; by_computation.
  - intros a. by_computation.
  - exact Hr.
  - split; [vm_compute; reflexivity | apply Hd; reflexivity].
Defined.
