(* ===== verification/DexState.v ===== *)
(** * The state of the DEX

    Models what the component keeps in the node's state (crates/core/component/dex/src/state_key.rs
    and the accessors of component/dex.rs, component/swap_manager.rs, component/lqt.rs), the events
    it records, and the writes the other DEX modules share.  A key of the key-value store is the
    tuple of its variable parts; where the order of keys matters the part is encoded as in the
    store, and the reads sort by it. *)

From S2P Require Import Prelude.
From S2P Require Import Num.
From S2P Require Import Asset.
From S2P Require Import TradingFunction.
From S2P Require Import Position.
From S2P Require Import Vcb.

(** ** Data *)

Record DexParameters := mkDexParameters {
  is_enabled : bool;
  fixed_candidates : list asset_id;
  max_hops : Z;
  max_positions_per_pair : Z;
  max_execution_budget : Z;
}.

Record RoutingParams := mkRoutingParams {
  price_limit : option Z;
  routing_candidates : list asset_id;
  routing_max_hops : Z;
}.

Record SwapExecution := mkSwapExecution {
  traces : list (list Value);
  input : Value;
  output : Value;
}.
#[global] Instance SwapExecution_eq_dec : EqDecision SwapExecution.
Proof. solve_decision. Defined.

Record BatchSwapOutputData := mkBsod {
  delta_1 : Z; delta_2 : Z;
  lambda_1 : Z; lambda_2 : Z;
  unfilled_1 : Z; unfilled_2 : Z;
  height : Z;
  trading_pair : TradingPair;
  sct_position_prefix : Z * Z * Z;
}.
#[global] Instance BatchSwapOutputData_eq_dec : EqDecision BatchSwapOutputData.
Proof. solve_decision. Defined.

(** The events of component/dex/src/event.rs that the modelled code records. *)
Inductive Event :=
| EventPositionOpen (id : position_id) (pair : TradingPair) (reserves_1 reserves_2 : Z)
    (trading_fee : Z) (position : Position)
| EventPositionClose (id : position_id)
| EventQueuePositionClose (id : position_id)
| EventPositionWithdraw (id : position_id) (pair : TradingPair) (reserves_1 reserves_2 : Z)
    (sequence : Z)
| EventPositionExecution (id : position_id) (pair : TradingPair) (reserves_1 reserves_2 : Z)
    (prev_reserves_1 prev_reserves_2 : Z) (context : DirectedTradingPair)
| EventVcb (e : VcbEvent)
| EventLqtPositionVolume (epoch_index : Z) (asset : asset_id) (id : position_id)
    (volume total_volume staking_token_in asset_in staking_fees asset_fees : Z)
| EventBatchSwap (bsod : BatchSwapOutputData)
    (execution_1_for_2 execution_2_for_1 : option SwapExecution)
| EventArbExecution (height : Z) (execution : SwapExecution).

(** The epoch of the current height, as the sct component records it (sct/src/epoch.rs). *)
Record Epoch := mkEpoch { index : Z; start_height : Z }.

Record DexState := mkDexState {
  dex_params : option DexParameters;
  current_epoch : option Epoch;
  block_height : Z;
  positions : gmap position_id Position;
  price_index : gmap (DirectedTradingPair * list Z * position_id) Position;
  inventory_index : gset (DirectedTradingPair * Z * position_id);
  routable_assets : gmap (asset_id * Z) asset_id;
  base_liquidity : gmap DirectedTradingPair Z;
  num_positions : gmap TradingPair Z;
  volume_by_position : gmap (Z * position_id) Z;
  by_volume : gmap (Z * asset_id * Z * position_id) Z;
  value_balances : gmap asset_id Z;
  pending_position_closures : list position_id;
  recently_accessed_assets : gset asset_id;
  active_trading_pairs : gset TradingPair;
  block_executions : gmap DirectedTradingPair (list (Z * option Z * option Z));
  swap_flows : gmap TradingPair (Z * Z);
  output_data_at : gmap (Z * TradingPair) BatchSwapOutputData;
  swap_execution_at : gmap (Z * DirectedTradingPair) SwapExecution;
  arb_execution_at : gmap Z SwapExecution;
  pending_outputs : gmap TradingPair BatchSwapOutputData;
  events : list Event;
}.

(** Field updates. *)
Definition set_dex_params (v : option DexParameters) (s : DexState)
  : DexState :=
  mkDexState v (current_epoch s) (block_height s) (positions s) (price_index s)
    (inventory_index s) (routable_assets s) (base_liquidity s) (num_positions s)
    (volume_by_position s) (by_volume s) (value_balances s) (pending_position_closures s)
    (recently_accessed_assets s) (active_trading_pairs s) (block_executions s) (swap_flows s)
    (output_data_at s) (swap_execution_at s) (arb_execution_at s) (pending_outputs s) (events s).
Definition set_current_epoch (v : option Epoch) (s : DexState)
  : DexState :=
  mkDexState (dex_params s) v (block_height s) (positions s) (price_index s) (inventory_index s)
    (routable_assets s) (base_liquidity s) (num_positions s) (volume_by_position s)
    (by_volume s) (value_balances s) (pending_position_closures s) (recently_accessed_assets s)
    (active_trading_pairs s) (block_executions s) (swap_flows s) (output_data_at s)
    (swap_execution_at s) (arb_execution_at s) (pending_outputs s) (events s).
Definition set_block_height (v : Z) (s : DexState)
  : DexState :=
  mkDexState (dex_params s) (current_epoch s) v (positions s) (price_index s)
    (inventory_index s) (routable_assets s) (base_liquidity s) (num_positions s)
    (volume_by_position s) (by_volume s) (value_balances s) (pending_position_closures s)
    (recently_accessed_assets s) (active_trading_pairs s) (block_executions s) (swap_flows s)
    (output_data_at s) (swap_execution_at s) (arb_execution_at s) (pending_outputs s) (events s).
Definition set_positions (v : gmap position_id Position) (s : DexState)
  : DexState :=
  mkDexState (dex_params s) (current_epoch s) (block_height s) v (price_index s)
    (inventory_index s) (routable_assets s) (base_liquidity s) (num_positions s)
    (volume_by_position s) (by_volume s) (value_balances s) (pending_position_closures s)
    (recently_accessed_assets s) (active_trading_pairs s) (block_executions s) (swap_flows s)
    (output_data_at s) (swap_execution_at s) (arb_execution_at s) (pending_outputs s) (events s).
Definition set_price_index (v : gmap (DirectedTradingPair * list Z * position_id) Position)
  (s : DexState)
  : DexState :=
  mkDexState (dex_params s) (current_epoch s) (block_height s) (positions s) v
    (inventory_index s) (routable_assets s) (base_liquidity s) (num_positions s)
    (volume_by_position s) (by_volume s) (value_balances s) (pending_position_closures s)
    (recently_accessed_assets s) (active_trading_pairs s) (block_executions s) (swap_flows s)
    (output_data_at s) (swap_execution_at s) (arb_execution_at s) (pending_outputs s) (events s).
Definition set_inventory_index (v : gset (DirectedTradingPair * Z * position_id)) (s : DexState)
  : DexState :=
  mkDexState (dex_params s) (current_epoch s) (block_height s) (positions s) (price_index s) v
    (routable_assets s) (base_liquidity s) (num_positions s) (volume_by_position s)
    (by_volume s) (value_balances s) (pending_position_closures s) (recently_accessed_assets s)
    (active_trading_pairs s) (block_executions s) (swap_flows s) (output_data_at s)
    (swap_execution_at s) (arb_execution_at s) (pending_outputs s) (events s).
Definition set_routable_assets (v : gmap (asset_id * Z) asset_id) (s : DexState)
  : DexState :=
  mkDexState (dex_params s) (current_epoch s) (block_height s) (positions s) (price_index s)
    (inventory_index s) v (base_liquidity s) (num_positions s) (volume_by_position s)
    (by_volume s) (value_balances s) (pending_position_closures s) (recently_accessed_assets s)
    (active_trading_pairs s) (block_executions s) (swap_flows s) (output_data_at s)
    (swap_execution_at s) (arb_execution_at s) (pending_outputs s) (events s).
Definition set_base_liquidity (v : gmap DirectedTradingPair Z) (s : DexState)
  : DexState :=
  mkDexState (dex_params s) (current_epoch s) (block_height s) (positions s) (price_index s)
    (inventory_index s) (routable_assets s) v (num_positions s) (volume_by_position s)
    (by_volume s) (value_balances s) (pending_position_closures s) (recently_accessed_assets s)
    (active_trading_pairs s) (block_executions s) (swap_flows s) (output_data_at s)
    (swap_execution_at s) (arb_execution_at s) (pending_outputs s) (events s).
Definition set_num_positions (v : gmap TradingPair Z) (s : DexState)
  : DexState :=
  mkDexState (dex_params s) (current_epoch s) (block_height s) (positions s) (price_index s)
    (inventory_index s) (routable_assets s) (base_liquidity s) v (volume_by_position s)
    (by_volume s) (value_balances s) (pending_position_closures s) (recently_accessed_assets s)
    (active_trading_pairs s) (block_executions s) (swap_flows s) (output_data_at s)
    (swap_execution_at s) (arb_execution_at s) (pending_outputs s) (events s).
Definition set_volume_by_position (v : gmap (Z * position_id) Z) (s : DexState)
  : DexState :=
  mkDexState (dex_params s) (current_epoch s) (block_height s) (positions s) (price_index s)
    (inventory_index s) (routable_assets s) (base_liquidity s) (num_positions s) v (by_volume s)
    (value_balances s) (pending_position_closures s) (recently_accessed_assets s)
    (active_trading_pairs s) (block_executions s) (swap_flows s) (output_data_at s)
    (swap_execution_at s) (arb_execution_at s) (pending_outputs s) (events s).
Definition set_by_volume (v : gmap (Z * asset_id * Z * position_id) Z) (s : DexState)
  : DexState :=
  mkDexState (dex_params s) (current_epoch s) (block_height s) (positions s) (price_index s)
    (inventory_index s) (routable_assets s) (base_liquidity s) (num_positions s)
    (volume_by_position s) v (value_balances s) (pending_position_closures s)
    (recently_accessed_assets s) (active_trading_pairs s) (block_executions s) (swap_flows s)
    (output_data_at s) (swap_execution_at s) (arb_execution_at s) (pending_outputs s) (events s).
Definition set_value_balances (v : gmap asset_id Z) (s : DexState)
  : DexState :=
  mkDexState (dex_params s) (current_epoch s) (block_height s) (positions s) (price_index s)
    (inventory_index s) (routable_assets s) (base_liquidity s) (num_positions s)
    (volume_by_position s) (by_volume s) v (pending_position_closures s)
    (recently_accessed_assets s) (active_trading_pairs s) (block_executions s) (swap_flows s)
    (output_data_at s) (swap_execution_at s) (arb_execution_at s) (pending_outputs s) (events s).
Definition set_pending_position_closures (v : list position_id) (s : DexState)
  : DexState :=
  mkDexState (dex_params s) (current_epoch s) (block_height s) (positions s) (price_index s)
    (inventory_index s) (routable_assets s) (base_liquidity s) (num_positions s)
    (volume_by_position s) (by_volume s) (value_balances s) v (recently_accessed_assets s)
    (active_trading_pairs s) (block_executions s) (swap_flows s) (output_data_at s)
    (swap_execution_at s) (arb_execution_at s) (pending_outputs s) (events s).
Definition set_recently_accessed_assets (v : gset asset_id) (s : DexState)
  : DexState :=
  mkDexState (dex_params s) (current_epoch s) (block_height s) (positions s) (price_index s)
    (inventory_index s) (routable_assets s) (base_liquidity s) (num_positions s)
    (volume_by_position s) (by_volume s) (value_balances s) (pending_position_closures s) v
    (active_trading_pairs s) (block_executions s) (swap_flows s) (output_data_at s)
    (swap_execution_at s) (arb_execution_at s) (pending_outputs s) (events s).
Definition set_active_trading_pairs (v : gset TradingPair) (s : DexState)
  : DexState :=
  mkDexState (dex_params s) (current_epoch s) (block_height s) (positions s) (price_index s)
    (inventory_index s) (routable_assets s) (base_liquidity s) (num_positions s)
    (volume_by_position s) (by_volume s) (value_balances s) (pending_position_closures s)
    (recently_accessed_assets s) v (block_executions s) (swap_flows s) (output_data_at s)
    (swap_execution_at s) (arb_execution_at s) (pending_outputs s) (events s).
Definition set_block_executions (v : gmap DirectedTradingPair (list (Z * option Z * option Z))) (s : DexState)
  : DexState :=
  mkDexState (dex_params s) (current_epoch s) (block_height s) (positions s) (price_index s)
    (inventory_index s) (routable_assets s) (base_liquidity s) (num_positions s)
    (volume_by_position s) (by_volume s) (value_balances s) (pending_position_closures s)
    (recently_accessed_assets s) (active_trading_pairs s) v (swap_flows s) (output_data_at s)
    (swap_execution_at s) (arb_execution_at s) (pending_outputs s) (events s).
Definition set_swap_flows (v : gmap TradingPair (Z * Z)) (s : DexState)
  : DexState :=
  mkDexState (dex_params s) (current_epoch s) (block_height s) (positions s) (price_index s)
    (inventory_index s) (routable_assets s) (base_liquidity s) (num_positions s)
    (volume_by_position s) (by_volume s) (value_balances s) (pending_position_closures s)
    (recently_accessed_assets s) (active_trading_pairs s) (block_executions s) v (output_data_at s)
    (swap_execution_at s) (arb_execution_at s) (pending_outputs s) (events s).
Definition set_output_data_at (v : gmap (Z * TradingPair) BatchSwapOutputData) (s : DexState)
  : DexState :=
  mkDexState (dex_params s) (current_epoch s) (block_height s) (positions s) (price_index s)
    (inventory_index s) (routable_assets s) (base_liquidity s) (num_positions s)
    (volume_by_position s) (by_volume s) (value_balances s) (pending_position_closures s)
    (recently_accessed_assets s) (active_trading_pairs s) (block_executions s) (swap_flows s) v
    (swap_execution_at s) (arb_execution_at s) (pending_outputs s) (events s).
Definition set_swap_execution_at (v : gmap (Z * DirectedTradingPair) SwapExecution) (s : DexState)
  : DexState :=
  mkDexState (dex_params s) (current_epoch s) (block_height s) (positions s) (price_index s)
    (inventory_index s) (routable_assets s) (base_liquidity s) (num_positions s)
    (volume_by_position s) (by_volume s) (value_balances s) (pending_position_closures s)
    (recently_accessed_assets s) (active_trading_pairs s) (block_executions s) (swap_flows s)
    (output_data_at s) v (arb_execution_at s) (pending_outputs s) (events s).
Definition set_arb_execution_at (v : gmap Z SwapExecution) (s : DexState)
  : DexState :=
  mkDexState (dex_params s) (current_epoch s) (block_height s) (positions s) (price_index s)
    (inventory_index s) (routable_assets s) (base_liquidity s) (num_positions s)
    (volume_by_position s) (by_volume s) (value_balances s) (pending_position_closures s)
    (recently_accessed_assets s) (active_trading_pairs s) (block_executions s) (swap_flows s)
    (output_data_at s) (swap_execution_at s) v (pending_outputs s) (events s).
Definition set_pending_outputs (v : gmap TradingPair BatchSwapOutputData) (s : DexState)
  : DexState :=
  mkDexState (dex_params s) (current_epoch s) (block_height s) (positions s) (price_index s)
    (inventory_index s) (routable_assets s) (base_liquidity s) (num_positions s)
    (volume_by_position s) (by_volume s) (value_balances s) (pending_position_closures s)
    (recently_accessed_assets s) (active_trading_pairs s) (block_executions s) (swap_flows s)
    (output_data_at s) (swap_execution_at s) (arb_execution_at s) v (events s).
Definition set_events (v : list Event) (s : DexState)
  : DexState :=
  mkDexState (dex_params s) (current_epoch s) (block_height s) (positions s) (price_index s)
    (inventory_index s) (routable_assets s) (base_liquidity s) (num_positions s)
    (volume_by_position s) (by_volume s) (value_balances s) (pending_position_closures s)
    (recently_accessed_assets s) (active_trading_pairs s) (block_executions s) (swap_flows s)
    (output_data_at s) (swap_execution_at s) (arb_execution_at s) (pending_outputs s) v.


(** The events are a log: recording appends. *)
Definition record_event (e : Event) (s : DexState) : DexState := set_events (events s ++ [e]) s.

(** The circuit breaker's ledger lives in [value_balances]. *)
#[global] Instance dex_vcb_store : VcbStore DexState := {|
  get_vcb_for_asset a s := value_balances s !! a;
  put_value_balance a v s := set_value_balances (<[a := v]> (value_balances s)) s;
  record_vcb_event e s := record_event (EventVcb e) s;
|}.

#[global] Instance dex_vcb_laws : VcbStoreLaws DexState.
Proof.
  split; intros; cbn; [apply lookup_insert_eq | by apply lookup_insert_ne | done].
Qed.

Abbreviation dex := (comp DexState string).

(** ** Keys of the ordered indexes *)

Module StateKey.
(** [!x] of a 128-bit amount: descending amounts have ascending complements. *)
Definition complement (x : Z) : Z := max_int 128 - x.

Definition price_index_key {E} (pair : DirectedTradingPair) (btf : BareTradingFunction)
  (id : position_id) : outcome E (DirectedTradingPair * list Z * position_id) :=
  let! bytes := Bare.effective_price_key_bytes btf in Ok (pair, bytes, id).

Definition routable_assets_key (from : asset_id) (a_from_b : Z) : asset_id * Z :=
  (from, complement a_from_b).

Definition inventory_key (pair : DirectedTradingPair) (inventory : Z) (id : position_id)
  : DirectedTradingPair * Z * position_id := (pair, inventory, id).

Definition by_volume_key (epoch_index : Z) (asset : asset_id) (position : position_id) (volume : Z)
  : Z * asset_id * Z * position_id := (epoch_index, asset, complement volume, position).

(** [parse_key], after the fixed-width fields have been split. *)
Definition parse_by_volume_key (key : Z * asset_id * Z * position_id)
  : asset_id * Z * position_id :=
  let '(_, asset, amount_complement, position_id) := key in
  (asset, complement amount_complement, position_id).

Lemma complement_complement x : complement (complement x) = x.
Proof. unfold complement. lia. Qed.

Lemma complement_lt x y : complement x < complement y <-> y < x.
Proof. unfold complement. lia. Qed.
End StateKey.

(** ** Reads *)

Module DexRead.
(** [component/dex.rs], [StateReadExt] *)
Definition get_dex_params : dex DexParameters :=
  o <- gets dex_params;; lift (ok_or o "Missing DexParameters").

Definition routing_params_of (p : DexParameters) : RoutingParams :=
  mkRoutingParams None (fixed_candidates p) (max_hops p).

Definition routing_params : dex RoutingParams :=
  p <- get_dex_params;; ret (routing_params_of p).

Definition with_extra_candidates (extra : list asset_id) (p : RoutingParams) : RoutingParams :=
  mkRoutingParams (price_limit p) (routing_candidates p ++ extra) (routing_max_hops p).

Definition clamp_to_limit (p : RoutingParams) (spill_price : option Z) : option Z * bool :=
  match spill_price, price_limit p with
  | Some spill_price, Some price_limit =>
      if price_limit <? spill_price then (Some price_limit, true) else (Some spill_price, false)
  | Some spill_price, None => (Some spill_price, false)
  | None, Some price_limit => (Some price_limit, true)
  | None, None => (None, false)
  end.

Definition position_by_id (id : position_id) (s : DexState) : option Position := positions s !! id.

Definition swap_flow (pair : TradingPair) (s : DexState) : Z * Z :=
  default (0, 0) (swap_flows s !! pair).

(** [component/lqt.rs]: the volume tally of the current epoch; there always is an epoch. *)
Definition get_current_epoch : dex Epoch := o <- gets current_epoch;; lift (expect_some o).

Definition get_volume_for_position (id : position_id) : dex Z :=
  epoch <- get_current_epoch;;
  gets (fun s => default 0 (volume_by_position s !! (index epoch, id))).

Definition get_position_count (pair : TradingPair) (s : DexState) : Z :=
  default 0 (num_positions s !! pair).
End DexRead.

(** ** Writes shared by the modules of the component *)

Module DexWrite.
Import DexRead.

Definition RECENTLY_ACCESSED_ASSET_LIMIT : nat := 10.

Definition add_recently_accessed_asset (asset : asset_id) (fixed : list asset_id) : dex unit :=
  assets <- gets recently_accessed_assets;;
  if (RECENTLY_ACCESSED_ASSET_LIMIT <=? size assets)%nat then ret tt
  else if bool_decide (asset ∈ fixed) then ret tt
  else modify (set_recently_accessed_assets (assets ∪ {[asset]})).

Definition mark_trading_pair_as_active (pair : TradingPair) : dex unit :=
  active_pairs <- gets active_trading_pairs;;
  if bool_decide (pair ∈ active_pairs) then ret tt
  else modify (set_active_trading_pairs (active_pairs ∪ {[pair]})).

Definition put_swap_execution_at_height (h : Z) (pair : DirectedTradingPair) (e : SwapExecution)
  : dex unit :=
  modify (fun s => set_swap_execution_at (<[(h, pair) := e]> (swap_execution_at s)) s).

(** Record a batch: debit everything that leaves the DEX, then publish the outputs. *)
Definition set_output_data (bsod : BatchSwapOutputData)
  (swap_execution_1_for_2 swap_execution_2_for_1 : option SwapExecution) : dex unit :=
  let tp := trading_pair bsod in
  out_1 <- lift (plain_add 128 (unfilled_1 bsod) (lambda_1 bsod));;
  Vcb.dex_vcb_debit (mkValue out_1 (asset_1 tp));;;
  out_2 <- lift (plain_add 128 (unfilled_2 bsod) (lambda_2 bsod));;
  Vcb.dex_vcb_debit (mkValue out_2 (asset_2 tp));;;
  modify (fun s => set_output_data_at (<[(height bsod, tp) := bsod]> (output_data_at s)) s);;;
  match swap_execution_1_for_2 with
  | Some e => put_swap_execution_at_height (height bsod) (mkDirected (asset_1 tp) (asset_2 tp)) e
  | None => ret tt
  end;;;
  match swap_execution_2_for_1 with
  | Some e => put_swap_execution_at_height (height bsod) (mkDirected (asset_2 tp) (asset_1 tp)) e
  | None => ret tt
  end;;;
  modify (fun s => set_pending_outputs (<[tp := bsod]> (pending_outputs s)) s);;;
  modify (record_event (EventBatchSwap bsod swap_execution_1_for_2 swap_execution_2_for_1)).

Definition set_arb_execution (h : Z) (e : SwapExecution) : dex unit :=
  modify (fun s => set_arb_execution_at (<[h := e]> (arb_execution_at s)) s).

(** [component/swap_manager.rs]: credit the inflows, then add them to the pair's flow. *)
Definition accumulate_swap_flow (tp : TradingPair) (flow : Z * Z) : dex unit :=
  Vcb.dex_vcb_credit (mkValue flow.1 (asset_1 tp));;;
  Vcb.dex_vcb_credit (mkValue flow.2 (asset_2 tp));;;
  old <- gets swap_flows;;
  new <- lift (match old !! tp with
               | Some f =>
                   let! x := plain_add 128 f.1 flow.1 in
                   let! y := plain_add 128 f.2 flow.2 in Ok (x, y)
               | None => Ok flow
               end);;
  modify (set_swap_flows (<[tp := new]> old)).
End DexWrite.
