(* ===== verification/Indexes.v ===== *)
(** * Position indexes

    Models the indexes the DEX keeps over its positions, one module each:
    component/position_manager/price_index.rs (best price first), inventory_index.rs (eviction
    order), base_liquidity_index.rs (path search), counter.rs (positions per pair),
    volume_tracker.rs (staking-token outflow), and the execution records of
    component/chandelier.rs. *)

From S2P Require Import Prelude.
From S2P Require Import Num.
From S2P Require Import Asset.
From S2P Require Import TradingFunction.
From S2P Require Import Position.
From S2P Require Import Vcb.
From S2P Require Import DexState.

(** The two directions of a position's pair. *)
Definition pair_ab (lp : Position) : DirectedTradingPair :=
  mkDirected (asset_1 (pair (phi lp))) (asset_2 (pair (phi lp))).
Definition pair_ba (lp : Position) : DirectedTradingPair := Pair.flip (pair_ab lp).

Module PriceIndex.
Definition deindex_position_by_price (position : Position) (id : position_id) : dex unit :=
  let phi12 := component (phi position) in
  let phi21 := Bare.flip phi12 in
  k12 <- lift (StateKey.price_index_key (pair_ab position) phi12 id);;
  modify (fun s => set_price_index (delete k12 (price_index s)) s);;;
  k21 <- lift (StateKey.price_index_key (pair_ba position) phi21 id);;
  modify (fun s => set_price_index (delete k21 (price_index s)) s).

Definition index_position_by_price (position : Position) (id : position_id) : dex unit :=
  let phi12 := component (phi position) in
  let phi21 := Bare.flip phi12 in
  when (negb (r2 (reserves position) =? 0))
    (k12 <- lift (StateKey.price_index_key (pair_ab position) phi12 id);;
     modify (fun s => set_price_index (<[k12 := position]> (price_index s)) s));;;
  when (negb (r1 (reserves position) =? 0))
    (k21 <- lift (StateKey.price_index_key (pair_ba position) phi21 id);;
     modify (fun s => set_price_index (<[k21 := position]> (price_index s)) s)).

Definition update_position_by_price_index (id : position_id) (prev_state : option Position)
  (new_state : Position) : dex unit :=
  match prev_state with
  | Some prev_lp => deindex_position_by_price prev_lp id
  | None => ret tt
  end;;;
  when (PositionState.is_opened (state new_state)) (index_position_by_price new_state id).

(** The order of the keys under one pair: price bytes, then position id. *)
Definition key_le (x y : list Z * position_id * Position) : Prop :=
  match lex_compare x.1.1 y.1.1 with Lt => True | Gt => False | Eq => x.1.2 <= y.1.2 end.

#[global] Instance key_le_dec x y : Decision (key_le x y).
Proof. unfold key_le. destruct (lex_compare _ _); apply _. Defined.

(** The entries stored under a pair's prefix. *)
Definition entries (pair : DirectedTradingPair) (s : DexState)
  : list (list Z * position_id * Position) :=
  omap (fun '(d, bytes, id, lp) => if decide (d = pair) then Some (bytes, id, lp) else None)
    (map_to_list (price_index s)).

Definition positions_by_price (pair : DirectedTradingPair) (s : DexState)
  : list (position_id * Position) :=
  (fun '(_, id, lp) => (id, lp)) <$> merge_sort key_le (entries pair s).

Definition best_position (pair : DirectedTradingPair) (s : DexState)
  : option (position_id * Position) := head (positions_by_price pair s).
End PriceIndex.

Module InventoryIndex.
Definition index_position_by_inventory (position : Position) (id : position_id) : dex unit :=
  inventory_a <- lift (expect_some (PositionOps.reserves_for position (start (pair_ab position))));;
  modify (fun s => set_inventory_index
    ({[ StateKey.inventory_key (pair_ab position) inventory_a id ]} ∪ inventory_index s) s);;;
  inventory_b <- lift (expect_some (PositionOps.reserves_for position (start (pair_ba position))));;
  modify (fun s => set_inventory_index
    ({[ StateKey.inventory_key (pair_ba position) inventory_b id ]} ∪ inventory_index s) s).

Definition deindex_position_by_inventory (prev_position : Position) (id : position_id) : dex unit :=
  inventory_a <- lift (expect_some
    (PositionOps.reserves_for prev_position (start (pair_ab prev_position))));;
  modify (fun s => set_inventory_index
    (inventory_index s ∖ {[ StateKey.inventory_key (pair_ab prev_position) inventory_a id ]}) s);;;
  inventory_b <- lift (expect_some
    (PositionOps.reserves_for prev_position (start (pair_ba prev_position))));;
  modify (fun s => set_inventory_index
    (inventory_index s ∖ {[ StateKey.inventory_key (pair_ba prev_position) inventory_b id ]}) s).

Definition update_position_by_inventory_index (id : position_id) (prev_state : option Position)
  (new_state : Position) : dex unit :=
  match prev_state with
  | Some prev_lp => deindex_position_by_inventory prev_lp id
  | None => ret tt
  end;;;
  when (PositionState.is_opened (state new_state)) (index_position_by_inventory new_state id).

(** The order of the keys under one pair: inventory, then position id. *)
Definition key_le (x y : Z * position_id) : Prop :=
  x.1 < y.1 \/ (x.1 = y.1 /\ x.2 <= y.2).

#[global] Instance inventory_key_le_dec x y : Decision (key_le x y).
Proof. unfold key_le. apply _. Defined.

(** The ids stored under a pair's prefix, smallest inventory first. *)
Definition positions_by_inventory (pair : DirectedTradingPair) (s : DexState)
  : list position_id :=
  snd <$> merge_sort key_le
    (omap (fun '(d, inventory, id) => if decide (d = pair) then Some (inventory, id) else None)
       (elements (inventory_index s))).
End InventoryIndex.

Module LiquidityIndex.
Definition update_asset_by_base_liquidity_index_inner (id : position_id)
  (pair : DirectedTradingPair) (old_contrib new_contrib : Z) : dex unit :=
  prev_tally <- gets (fun s => default 0 (base_liquidity s !! pair));;
  let new_tally := saturating_add 128 (saturating_sub prev_tally old_contrib) new_contrib in
  if prev_tally =? new_tally then ret tt
  else
    modify (fun s => set_routable_assets
      (delete (StateKey.routable_assets_key (start pair) prev_tally) (routable_assets s)) s);;;
    modify (fun s => set_routable_assets
      (<[StateKey.routable_assets_key (start pair) new_tally := end_ pair]> (routable_assets s)) s);;;
    modify (fun s => set_base_liquidity (<[pair := new_tally]> (base_liquidity s)) s).

(** A position's contributions to the two directions. *)
Definition contributions {E} (pos : option Position) (pab : DirectedTradingPair)
  : outcome E (Z * Z) :=
  match pos with
  | Some lp =>
      match state lp with
      | PositionState.Closed | PositionState.Withdrawn _ => Ok (0, 0)
      | PositionState.Opened =>
          let! a := expect_some (PositionOps.reserves_for lp (start pab)) in
          let! b := expect_some (PositionOps.reserves_for lp (end_ pab)) in
          Ok (a, b)
      end
  | None => Ok (0, 0)
  end.

Definition update_asset_by_base_liquidity_index (id : position_id) (prev_state : option Position)
  (new_state : Position) : dex unit :=
  let pab := pair_ab new_state in
  '(prev_a, prev_b) <- lift (contributions prev_state pab);;
  '(new_a, new_b) <- lift (contributions (Some new_state) pab);;
  if (prev_a =? 0) && (new_a =? 0) && (prev_b =? 0) && (new_b =? 0) then ret tt
  else
    update_asset_by_base_liquidity_index_inner id pab prev_a new_a;;;
    update_asset_by_base_liquidity_index_inner id (Pair.flip pab) prev_b new_b.

Definition rank_le (x y : Z * asset_id) : Prop := x.1 <= y.1.
#[global] Instance rank_le_dec x y : Decision (rank_le x y).
Proof. unfold rank_le. apply _. Defined.

(** The assets routable from [from], most liquid first: the keys hold complements. *)
Definition ordered_routable_assets (from : asset_id) (s : DexState) : list asset_id :=
  snd <$> merge_sort rank_le
    (omap (fun '((a, c), to) => if decide (a = from) then Some (c, to) else None)
       (map_to_list (routable_assets s))).

Definition DYNAMIC_ASSET_LIMIT : nat := 10.

Definition candidate_set (from : asset_id) (fixed : list asset_id) (s : DexState)
  : list asset_id :=
  fixed ++ take DYNAMIC_ASSET_LIMIT (filter (.∉ fixed) (ordered_routable_assets from s)).
End LiquidityIndex.

Module Counter.
Import DexRead.

Definition increment_position_counter (tp : TradingPair) : dex Z :=
  prev <- gets (get_position_count tp);;
  match checked_add 32 prev 1 with
  | None => fail "incrementing position counter would overflow"
  | Some new_total =>
      modify (fun s => set_num_positions (<[tp := new_total]> (num_positions s)) s);;; ret new_total
  end.

Definition decrement_position_counter (tp : TradingPair) : dex Z :=
  prev <- gets (get_position_count tp);;
  match checked_sub prev 1 with
  | None => fail "decrementing position counter would underflow"
  | Some new_total =>
      modify (fun s => set_num_positions (<[tp := new_total]> (num_positions s)) s);;; ret new_total
  end.

Definition update_trading_pair_position_counter (prev_state : option Position)
  (new_state : Position) : dex unit :=
  let tp := pair (phi new_state) in
  match state <$> prev_state, state new_state with
  | None, PositionState.Opened => increment_position_counter tp;;; ret tt
  | Some PositionState.Opened, PositionState.Closed => decrement_position_counter tp;;; ret tt
  | _, _ => ret tt
  end.
End Counter.

Module VolumeTracker.
Section Tracker.
Context `{DexEnv}.
Import DexRead.

Definition update_volume (epoch_index : Z) (asset : asset_id) (id : position_id)
  (old_volume new_volume : Z) : dex unit :=
  modify (fun s => set_volume_by_position
    (<[(epoch_index, id) := new_volume]> (volume_by_position s)) s);;;
  modify (fun s => set_by_volume
    (delete (StateKey.by_volume_key epoch_index asset id old_volume) (by_volume s)) s);;;
  modify (fun s => set_by_volume
    (<[StateKey.by_volume_key epoch_index asset id new_volume := new_volume]> (by_volume s)) s).

(** The asset paired with the staking token. *)
Definition other_asset (tp : TradingPair) : asset_id :=
  if negb (asset_1 tp =? STAKING_TOKEN_ASSET_ID) then asset_1 tp else asset_2 tp.

Definition update_volume_index (id : position_id) (prev_state : option Position)
  (new_state : Position) : dex unit :=
  if negb (Typed.matches_input (phi new_state) STAKING_TOKEN_ASSET_ID) then ret tt
  else
    match prev_state with
    | None => ret tt
    | Some prev_state =>
        if negb (PositionState.is_opened (state new_state)) then ret tt
        else
          let other := other_asset (pair (phi new_state)) in
          raw_flows <- lift (PositionOps.flows new_state prev_state);;
          flows <- lift (expect_some
            (Flows.redirect raw_flows (mkDirected STAKING_TOKEN_ASSET_ID other)));;
          let staking_token_outflow := Flows.lambda_1 flows in
          old_volume <- get_volume_for_position id;;
          let new_volume := saturating_add 128 old_volume staking_token_outflow in
          epoch <- get_current_epoch;;
          let epoch_index := index epoch in
          modify (record_event (EventLqtPositionVolume epoch_index other id
            staking_token_outflow new_volume (Flows.delta_1 flows) (Flows.delta_2 flows)
            (Flows.fee_1 flows) (Flows.fee_2 flows)));;;
          update_volume epoch_index other id old_volume new_volume
    end.

(** The ids of an epoch's positions on an asset, largest volume first. *)
Definition volume_le (x y : Z * position_id * Z) : Prop :=
  x.1.1 < y.1.1 \/ (x.1.1 = y.1.1 /\ x.1.2 <= y.1.2).
#[global] Instance volume_le_dec x y : Decision (volume_le x y).
Proof. unfold volume_le. apply _. Defined.

Definition positions_by_volume_stream (epoch_index : Z) (asset : asset_id) (s : DexState)
  : list (asset_id * position_id * Z) :=
  (fun '(c, id, _) => (asset, id, StateKey.complement c)) <$> merge_sort volume_le
    (omap (fun '((e, a, c, id), v) =>
             if decide (e = epoch_index /\ a = asset) then Some (c, id, v) else None)
       (map_to_list (by_volume s))).
End Tracker.
End VolumeTracker.

Module Chandelier.
Section Records.
Definition block_executions_by_pair (tp : DirectedTradingPair) (s : DexState)
  : list (Z * option Z * option Z) := default [] (block_executions s !! tp).

Definition put_block_executions_by_pair (tp : DirectedTradingPair)
  (l : list (Z * option Z * option Z)) : dex unit :=
  modify (fun s => set_block_executions (<[tp := l]> (block_executions s)) s).

(** [Option<Amount>]'s order: [None] first. *)
Definition option_ltb (x y : option Z) : bool :=
  match x, y with
  | Some x, Some y => x <? y
  | None, Some _ => true
  | _, None => false
  end.

Definition record_position_execution (prev_state new_state : Position) : dex unit :=
  if decide (prev_state = new_state) then ret tt
  else
    let tp := pair (phi prev_state) in
    let directed :=
      if option_ltb (PositionOps.reserves_for prev_state (asset_1 tp))
                    (PositionOps.reserves_for new_state (asset_1 tp))
      then mkDirected (asset_1 tp) (asset_2 tp) else mkDirected (asset_2 tp) (asset_1 tp) in
    executions <- gets (block_executions_by_pair directed);;
    oriented <- lift (ok_or (Typed.orient_start (phi prev_state) (end_ directed))
      "recording position execution failed, position missing an end = asset 2");;
    execution_price <- lift (Bare.effective_price oriented);;
    new_reserves <- lift (ok_or (PositionOps.reserves_for new_state (start directed))
      "missing reserves");;
    prev_reserves <- lift (ok_or (PositionOps.reserves_for prev_state (start directed))
      "missing reserves");;
    volume <- lift (plain_sub new_reserves prev_reserves);;
    put_block_executions_by_pair directed
      (executions ++ [(execution_price, Some (U128x128.from_uint volume), None)]).

Definition record_swap_execution (swap : SwapExecution) : dex unit :=
  if (amount (output swap) =? 0) || (amount (input swap) =? 0) then ret tt
  else
    let tp := mkDirected (value_asset (input swap)) (value_asset (output swap)) in
    executions <- gets (block_executions_by_pair tp);;
    execution_price <- lift (expect_ok
      (U128x128.ratio (U128x128.from_uint (amount (output swap)))
        (U128x128.from_uint (amount (input swap)))));;
    put_block_executions_by_pair tp
      (executions ++ [(execution_price, None, Some (U128x128.from_uint (amount (input swap))))]).
End Records.
End Chandelier.
