(* ===== verification/IndexFacts.v ===== *)
(** * The indexes are exact views of the positions

    For each index of Indexes.v: what it must contain, as a function of the positions, and that
    one update step keeps it so.  The position manager's theorems use these facts through
    [updated], the relation between the states around an update. *)

From S2P Require Import Prelude.
From S2P Require Import Num.
From S2P Require Import Asset.
From S2P Require Import TradingFunction.
From S2P Require Import Position.
From S2P Require Import Vcb.
From S2P Require Import DexState.
From S2P Require Import Indexes.

Abbreviation position_map := (gmap position_id Position).

(** The next positions, when [id] is set to [new]. *)
Abbreviation after ps id new := (<[id := new]> (ps : position_map)).

Module PriceIndexFacts.
Import PriceIndex.

Abbreviation price_bytes := (@Bare.effective_price_key_bytes string).

(** [offers lp d f]: the opened position sells the end asset of [d], with trading function [f]. *)
Definition offers (lp : Position) (d : DirectedTradingPair) (f : BareTradingFunction) : Prop :=
  state lp = PositionState.Opened
  /\ ((d = pair_ab lp /\ f = component (phi lp) /\ r2 (reserves lp) <> 0)
      \/ (d = pair_ba lp /\ f = Bare.flip (component (phi lp)) /\ r1 (reserves lp) <> 0)).

Definition listed (lp : Position) (d : DirectedTradingPair) (bytes : list Z) : Prop :=
  exists f, offers lp d f /\ price_bytes f = Ok bytes.

Lemma listed_opened lp d b : listed lp d b -> state lp = PositionState.Opened.
Proof. unfold listed, offers. naive_solver. Qed.

(** The index holds exactly the opened positions, under every pair they sell to. *)
Definition exact (m : gmap (DirectedTradingPair * list Z * position_id) Position)
  (ps : position_map) : Prop :=
  forall d bytes id lp,
    m !! (d, bytes, id) = Some lp <-> ps !! id = Some lp /\ listed lp d bytes.

Lemma price_exact_empty : exact ∅ ∅.
Proof. intros d b i lp. rewrite !lookup_empty. naive_solver. Qed.

Lemma price_index_key_ok d f id k :
  @StateKey.price_index_key string d f id = Ok k ->
  exists b, price_bytes f = Ok b /\ k = (d, b, id).
Proof. unfold StateKey.price_index_key. intros. inv_outcome. eauto. Qed.

(** After [deindex], no entry of the position is left and no other entry has changed. *)
Lemma price_deindex_spec lp id s u s' :
  deindex_position_by_price lp id s = (Ok u, s') ->
  exists m, s' = set_price_index m s /\
    forall d b i lq, m !! (d, b, i) = Some lq <->
      price_index s !! (d, b, i) = Some lq
      /\ ~ (i = id /\ ((d = pair_ab lp /\ price_bytes (component (phi lp)) = Ok b)
           \/ (d = pair_ba lp /\ price_bytes (Bare.flip (component (phi lp))) = Ok b))).
Proof.
  unfold deindex_position_by_price. intros Hd. inv_comp.
  apply price_index_key_ok in Hd0 as (b1 & Hb1 & ->), Hd2 as (b2 & Hb2 & ->).
  eexists. split; [reflexivity|]. intros d b i lq. cbn.
  rewrite !lookup_delete_Some. rewrite Hb1, Hb2. naive_solver.
Qed.

Lemma put_step (c : bool) d f lp id s u s' :
  @when _ string c (k <- lift (StateKey.price_index_key d f id);;
          modify (fun s => set_price_index (<[k := lp]> (price_index s)) s)) s = (Ok u, s') ->
  exists m, s' = set_price_index m s /\
    forall d' b i lq, m !! (d', b, i) = Some lq <->
      (c = true /\ d' = d /\ price_bytes f = Ok b /\ i = id /\ lq = lp)
      \/ (~ (c = true /\ d' = d /\ price_bytes f = Ok b /\ i = id)
          /\ price_index s !! (d', b, i) = Some lq).
Proof.
  unfold when. destruct c; intros Hp.
  - inv_comp. apply price_index_key_ok in Hp0 as (b & Hb & ->). eexists. split; [done|].
    intros d' b' i lq. rewrite lookup_insert_Some, Hb. naive_solver.
  - unfold ret in Hp. simplify_eq. exists (price_index s'). split; [by destruct s'|].
    naive_solver.
Qed.

Lemma price_index_spec lp id s u s' :
  state lp = PositionState.Opened ->
  (forall d b lq, price_index s !! (d, b, id) <> Some lq) ->
  index_position_by_price lp id s = (Ok u, s') ->
  exists m, s' = set_price_index m s /\
    forall d b i lq, m !! (d, b, i) = Some lq <->
      price_index s !! (d, b, i) = Some lq \/ (i = id /\ lq = lp /\ listed lp d b).
Proof.
  unfold index_position_by_price. intros Ho Hfresh Hi.
  apply bind_ok in Hi as (u1 & s1 & H1 & H2).
  apply put_step in H1 as (m1 & -> & Hm1), H2 as (m2 & -> & Hm2).
  exists m2. split; [done|]. intros d b i lq. rewrite Hm2. cbn. rewrite Hm1.
  unfold listed, offers. rewrite !negb_true_iff, !Z.eqb_neq. split.
  - naive_solver.
  - intros [Hin | (-> & -> & f & (_ & [(-> & -> & Hr) | (-> & -> & Hr)]) & Hf)].
    + assert (i <> id) by (intros ->; by eapply Hfresh). naive_solver.
    + destruct (decide (r1 (reserves lp) <> 0 /\ pair_ab lp = pair_ba lp
        /\ price_bytes (Bare.flip (component (phi lp))) = Ok b)); naive_solver.
    + naive_solver.
Qed.

Lemma price_update_spec id prev new s u s' :
  exact (price_index s) (positions s) -> positions s !! id = prev ->
  update_position_by_price_index id prev new s = (Ok u, s') ->
  exists m, s' = set_price_index m s /\ exact m (after (positions s) id new).
Proof.
  intros Hex Hprev Hu. unfold update_position_by_price_index in Hu.
  apply bind_ok in Hu as (u1 & s1 & H1 & H2).
  assert (exists m, s1 = set_price_index m s /\
    forall d b i lq, m !! (d, b, i) = Some lq <-> price_index s !! (d, b, i) = Some lq /\ i <> id)
    as (m & -> & Hm).
  { destruct prev as [lp|].
    - apply price_deindex_spec in H1 as (m & -> & Hm). exists m. split; [done|].
      intros d b i lq. rewrite Hm, (Hex d b i lq). unfold listed, offers. naive_solver.
    - unfold ret in H1. simplify_eq. exists (price_index s1). split; [by destruct s1|].
      intros d b i lq. rewrite (Hex d b i lq). naive_solver. }
  unfold when in H2. destruct (state new) eqn:Hst; cbn in H2.
  2-3: unfold ret in H2; simplify_eq; exists m; split; [done|]; clear H1;
    intros d b i lq; rewrite Hm, (Hex d b i lq), lookup_insert_Some;
    assert (~ listed new d b) by (intros ?%listed_opened; congruence); naive_solver.
  apply price_index_spec in H2 as (m' & -> & Hm'); [|done|].
  - exists m'. split; [done|]. intros d b i lq. rewrite Hm'. cbn. rewrite Hm, (Hex d b i lq).
    rewrite lookup_insert_Some. naive_solver.
  - intros ???. cbn. rewrite Hm. naive_solver.
Qed.

(** *** Reading the index *)

#[global] Instance key_le_total : Total key_le.
Proof.
  intros [[b1 i1] l1] [[b2 i2] l2]. unfold key_le. cbn. rewrite (lex_compare_antisym b1 b2).
  destruct (lex_compare b2 b1); cbn; lia || tauto.
Qed.

#[global] Instance key_le_trans : Transitive key_le.
Proof.
  intros [[b1 i1] l1] [[b2 i2] l2] [[b3 i3] l3]. unfold key_le. cbn.
  destruct (lex_compare b1 b2) eqn:E1; [|intros _|done].
  - apply lex_compare_eq in E1 as ->. destruct (lex_compare b2 b3); lia || done.
  - destruct (lex_compare b2 b3) eqn:E2; [|intros _|done].
    + apply lex_compare_eq in E2 as <-. by rewrite E1.
    + by rewrite (lex_compare_lt_trans _ _ _ E1 E2).
Qed.

Lemma elem_of_entries s d b i lp :
  (b, i, lp) ∈ entries d s <-> price_index s !! (d, b, i) = Some lp.
Proof.
  unfold entries. rewrite list_elem_of_omap. split.
  - intros ([[[d' b'] i'] lp'] & Hin & Heq). apply elem_of_map_to_list in Hin.
    case_decide; naive_solver.
  - intros Hl. exists (d, b, i, lp). split; [by apply elem_of_map_to_list|].
    by rewrite decide_True.
Qed.

Lemma elem_of_positions_by_price s d i lp :
  exact (price_index s) (positions s) ->
  (i, lp) ∈ positions_by_price d s <-> positions s !! i = Some lp /\ exists b, listed lp d b.
Proof.
  intros Hex. unfold positions_by_price. rewrite list_elem_of_fmap. split.
  - intros ([[b i'] lp'] & [= -> ->] & Hin). rewrite merge_sort_Permutation in Hin.
    apply elem_of_entries, Hex in Hin. naive_solver.
  - intros [Hp [b Hb]]. exists (b, i, lp). split; [done|].
    rewrite merge_sort_Permutation. apply elem_of_entries, Hex. done.
Qed.

End PriceIndexFacts.

Module InventoryFacts.
Import InventoryIndex.

(** The eviction order holds each opened position once per direction. *)
Definition stocked (lp : Position) (d : DirectedTradingPair) (inventory : Z) : Prop :=
  (d = pair_ab lp \/ d = pair_ba lp) /\ PositionOps.reserves_for lp (start d) = Some inventory.

Definition exact (m : gset (DirectedTradingPair * Z * position_id)) (ps : position_map) : Prop :=
  forall d inventory id,
    (d, inventory, id) ∈ m <->
    exists lp, ps !! id = Some lp /\ state lp = PositionState.Opened /\ stocked lp d inventory.

Lemma inventory_exact_empty : exact ∅ ∅.
Proof. intros d v i. rewrite elem_of_empty. setoid_rewrite lookup_empty. naive_solver. Qed.

Lemma inventory_deindex_spec lp id s u s' :
  deindex_position_by_inventory lp id s = (Ok u, s') ->
  exists m, s' = set_inventory_index m s /\
    forall d v i, (d, v, i) ∈ m <-> (d, v, i) ∈ inventory_index s /\ ~ (i = id /\ stocked lp d v).
Proof.
  unfold deindex_position_by_inventory. intros Hd. inv_comp. inv_outcome.
  eexists. split; [reflexivity|]. intros d v i. cbn. unfold stocked, StateKey.inventory_key.
  rewrite !elem_of_difference, !elem_of_singleton. naive_solver.
Qed.

Lemma inventory_index_spec lp id s u s' :
  index_position_by_inventory lp id s = (Ok u, s') ->
  exists m, s' = set_inventory_index m s /\
    forall d v i, (d, v, i) ∈ m <-> (d, v, i) ∈ inventory_index s \/ (i = id /\ stocked lp d v).
Proof.
  unfold index_position_by_inventory. intros Hd. inv_comp. inv_outcome.
  eexists. split; [reflexivity|]. intros d v i. cbn. unfold stocked, StateKey.inventory_key.
  rewrite !elem_of_union, !elem_of_singleton. naive_solver.
Qed.

Lemma inventory_update_spec id prev new s u s' :
  exact (inventory_index s) (positions s) -> positions s !! id = prev ->
  update_position_by_inventory_index id prev new s = (Ok u, s') ->
  exists m, s' = set_inventory_index m s /\ exact m (after (positions s) id new).
Proof.
  intros Hex Hprev Hu. unfold update_position_by_inventory_index in Hu.
  apply bind_ok in Hu as (u1 & s1 & H1 & H2).
  assert (exists m, s1 = set_inventory_index m s /\
    forall d v i, (d, v, i) ∈ m <-> (d, v, i) ∈ inventory_index s /\ i <> id) as (m & -> & Hm).
  { destruct prev as [lp|].
    - apply inventory_deindex_spec in H1 as (m & -> & Hm). exists m. split; [done|].
      intros d v i. rewrite Hm, (Hex d v i). naive_solver.
    - unfold ret in H1. simplify_eq. exists (inventory_index s1). split; [by destruct s1|].
      intros d v i. rewrite (Hex d v i). naive_solver. }
  clear H1 Hprev. unfold exact in Hex. setoid_rewrite Hex in Hm.
  unfold when in H2. destruct (state new) eqn:Hst; cbn in H2.
  2-3: unfold ret in H2; simplify_eq; exists m; split; [done|];
    intros d v i; rewrite Hm; setoid_rewrite lookup_insert_Some;
    split; [naive_solver | intros (? & [[-> ->]|?] & ? & ?); [congruence | naive_solver]].
  apply inventory_index_spec in H2 as (m' & -> & Hm'). exists m'. split; [done|].
  intros d v i. rewrite Hm'. cbn. rewrite Hm. setoid_rewrite lookup_insert_Some.
  destruct (decide (i = id)); naive_solver.
Qed.
End InventoryFacts.

Module CounterFacts.
Import Counter.

Definition opened_on (tp : TradingPair) (lp : Position) : Z :=
  if decide (state lp = PositionState.Opened /\ pair (phi lp) = tp) then 1 else 0.

(** The counter of a pair is the number of its opened positions. *)
Definition exact (m : gmap TradingPair Z) (ps : position_map) : Prop :=
  forall tp, default 0 (m !! tp) = map_sum (opened_on tp) ps.

Lemma counter_exact_empty : exact ∅ ∅.
Proof. intros tp. by rewrite lookup_empty, map_sum_empty. Qed.

Lemma increment_ok tp s r s' :
  increment_position_counter tp s = (Ok r, s') ->
  s' = set_num_positions (<[tp := default 0 (num_positions s !! tp) + 1]> (num_positions s)) s.
Proof.
  unfold increment_position_counter, DexRead.get_position_count, bind, gets.
  destruct (checked_add _ _ _) eqn:Hc; [|done]. apply checked_add_some in Hc as [-> _].
  cbn. by intros [= _ <-].
Qed.

Lemma decrement_ok tp s r s' :
  decrement_position_counter tp s = (Ok r, s') ->
  s' = set_num_positions (<[tp := default 0 (num_positions s !! tp) + -1]> (num_positions s)) s.
Proof.
  unfold decrement_position_counter, DexRead.get_position_count, bind, gets.
  destruct (checked_sub _ _) eqn:Hc; [|done]. apply checked_sub_some in Hc as [-> _].
  cbn. by intros [= _ <-].
Qed.

Lemma counter_shift m ps tp delta ps' :
  exact m ps ->
  (forall tp', map_sum (opened_on tp') ps'
     = map_sum (opened_on tp') ps + (if decide (tp' = tp) then delta else 0)) ->
  exact (<[tp := default 0 (m !! tp) + delta]> m) ps'.
Proof.
  intros Hex Hs tp'. rewrite Hs, lookup_insert, <- Hex.
  repeat case_decide; simplify_eq/=; lia.
Qed.

Lemma counter_update_spec id prev new s u s' :
  exact (num_positions s) (positions s) -> positions s !! id = prev ->
  PositionState.transition (state <$> prev) (state new) ->
  (forall lp, prev = Some lp -> pair (phi lp) = pair (phi new)) ->
  update_trading_pair_position_counter prev new s = (Ok u, s') ->
  exists m, s' = set_num_positions m s /\ exact m (after (positions s) id new).
Proof.
  intros Hex Hprev Ht Hpair Hu.
  assert (Hsum : forall tp, map_sum (opened_on tp) (after (positions s) id new)
    = map_sum (opened_on tp) (positions s) + opened_on tp new - from_option (opened_on tp) 0 prev)
    by (intros; subst prev; apply map_sum_insert).
  assert (Hkeep : (forall tp, opened_on tp new = from_option (opened_on tp) 0 prev) ->
    exists m, s = set_num_positions m s /\ exact m (after (positions s) id new)).
  { intros Heq. exists (num_positions s). split; [by destruct s|].
    intros tp. rewrite Hsum, Heq, (Hex tp). lia. }
  unfold update_trading_pair_position_counter in Hu.
  inversion Ht as [Hp Hn|Hp Hn|Hp Hn|Hp Hn|Hp Hn|n Hp Hn|n Hp Hn]; rewrite <- ?Hp, <- ?Hn in Hu;
    destruct prev as [lp|]; try discriminate Hp; cbn in Hp; try injection Hp as Hp.
  2, 4-7: unfold ret in Hu; simplify_eq; apply Hkeep; intros tp; cbn; unfold opened_on;
    rewrite <- Hp, <- Hn, ?(Hpair lp eq_refl); repeat case_decide; naive_solver.
  - inv_comp. apply increment_ok in Hu0 as ->. eexists; split; [reflexivity|].
    apply (counter_shift _ (positions s) _ 1); [done|]. intros tp. rewrite Hsum. cbn.
    unfold opened_on. rewrite <- Hn. repeat case_decide; naive_solver lia.
  - inv_comp. apply decrement_ok in Hu0 as ->. eexists; split; [reflexivity|].
    apply (counter_shift _ (positions s) _ (-1)); [done|]. intros tp. rewrite Hsum. cbn.
    unfold opened_on. rewrite <- Hn, <- Hp, (Hpair lp eq_refl).
    repeat case_decide; naive_solver lia.
Qed.
End CounterFacts.

Module LiquidityFacts.
Import LiquidityIndex.

(** What an opened position contributes to the tally of a directed pair. *)
Definition contribution (d : DirectedTradingPair) (lp : Position) : Z :=
  if PositionState.is_opened (state lp) then
    if decide (d = pair_ab lp) then r1 (reserves lp)
    else if decide (d = pair_ba lp) then r2 (reserves lp) else 0
  else 0.

Definition supply (d : DirectedTradingPair) (ps : position_map) : Z :=
  map_sum (contribution d) ps.

(** The tally of a directed pair is the sum of its opened positions' inventories. *)
Definition exact (m : gmap DirectedTradingPair Z) (ps : position_map) : Prop :=
  forall d, default 0 (m !! d) = supply d ps.

(** Reserves are amounts, and a pair has two different assets. *)
Definition sound (lp : Position) : Prop :=
  0 <= r1 (reserves lp) /\ 0 <= r2 (reserves lp)
  /\ asset_1 (pair (phi lp)) <> asset_2 (pair (phi lp)).

Lemma liquidity_exact_empty : exact ∅ ∅.
Proof. intros d. unfold supply. by rewrite lookup_empty, map_sum_empty. Qed.

Lemma contribution_nonneg d lp : sound lp -> 0 <= contribution d lp.
Proof. unfold sound, contribution. intros. repeat case_match; lia. Qed.

Lemma pair_ab_ne_ba lp : sound lp -> pair_ab lp <> pair_ba lp.
Proof. intros (_ & _ & Hne). unfold pair_ab, pair_ba, Pair.flip. cbn. congruence. Qed.

Lemma contributions_ok lp pab :
  sound lp -> pab = pair_ab lp ->
  @contributions string (Some lp) pab = Ok (contribution pab lp, contribution (Pair.flip pab) lp).
Proof.
  intros Hs ->. pose proof (pair_ab_ne_ba lp Hs) as Hne. destruct Hs as (_ & _ & Ha).
  unfold contributions, contribution. fold (pair_ba lp).
  destruct (state lp); cbn [PositionState.is_opened]; [|done..].
  change (start (pair_ab lp)) with (asset_1 (pair (phi lp))).
  change (end_ (pair_ab lp)) with (asset_2 (pair (phi lp))).
  rewrite PositionOps.reserves_for_start, PositionOps.reserves_for_end by done. cbn.
  rewrite decide_True, decide_False, decide_True by done. done.
Qed.

(** One round of the update, when nothing saturates. *)
Lemma inner_spec id d old_c new_c s u s' :
  let tally := default 0 (base_liquidity s !! d) in
  old_c <= tally -> tally - old_c + new_c < 2 ^ 128 ->
  update_asset_by_base_liquidity_index_inner id d old_c new_c s = (Ok u, s') ->
  exists m r, s' = set_base_liquidity m (set_routable_assets r s)
    /\ forall d', default 0 (m !! d') = if decide (d' = d) then tally - old_c + new_c
                                        else default 0 (base_liquidity s !! d').
Proof.
  intros tally Hle Hlt. unfold update_asset_by_base_liquidity_index_inner, bind, gets, modify.
  fold tally. rewrite saturating_sub_exact, saturating_add_exact by done.
  destruct (Z.eqb_spec tally (tally - old_c + new_c)) as [Heq|Hne].
  - unfold ret. intros [= _ <-]. exists (base_liquidity s), (routable_assets s).
    split; [by destruct s|]. intros d'. case_decide; [subst d'; fold tally; lia | done].
  - intros [= _ <-]. eexists _, _. split; [reflexivity|]. intros d'.
    rewrite lookup_insert. repeat case_decide; congruence || done.
Qed.

Lemma liquidity_update_spec id prev new s u s' :
  exact (base_liquidity s) (positions s) -> positions s !! id = prev ->
  map_Forall (fun _ => sound) (positions s) -> sound new ->
  (forall lp, prev = Some lp -> pair (phi lp) = pair (phi new)) ->
  (forall d, supply d (after (positions s) id new) < 2 ^ 128) ->
  update_asset_by_base_liquidity_index id prev new s = (Ok u, s') ->
  exists m r, s' = set_base_liquidity m (set_routable_assets r s)
    /\ exact m (after (positions s) id new).
Proof.
  intros Hex Hprev Hall Hnew Hpair Hcap Hu.
  assert (Hsum : forall d, supply d (after (positions s) id new)
    = supply d (positions s) + contribution d new - from_option (contribution d) 0 prev)
    by (intros; subst prev; apply map_sum_insert).
  assert (Hle : forall d, from_option (contribution d) 0 prev <= supply d (positions s)).
  { intros d. destruct prev as [lp|]; cbn.
    - apply (map_sum_lookup_le _ _ id); [|done]. intros k v Hk.
      apply contribution_nonneg, (Hall _ _ Hk).
    - apply map_sum_nonneg. intros k v Hk. apply contribution_nonneg, (Hall _ _ Hk). }
  assert (Hc : @contributions string prev (pair_ab new)
    = Ok (from_option (contribution (pair_ab new)) 0 prev,
          from_option (contribution (pair_ba new)) 0 prev)).
  { destruct prev as [lp|]; [|done]. cbn [from_option]. unfold pair_ba.
    apply contributions_ok; [by apply (Hall id)|]. unfold pair_ab. by rewrite (Hpair lp). }
  assert (Hother : forall d, d <> pair_ab new -> d <> pair_ba new ->
    contribution d new = 0 /\ from_option (contribution d) 0 prev = 0).
  { intros d H1 H2. unfold contribution at 1. rewrite !decide_False by done.
    split; [by case_match|]. destruct prev as [lp|]; [|done]. cbn. unfold contribution.
    unfold pair_ba, pair_ab in *. rewrite (Hpair lp), !decide_False by done. by case_match. }
  unfold update_asset_by_base_liquidity_index in Hu.
  rewrite Hc, (contributions_ok new) in Hu by done. fold (pair_ba new) in Hu.
  rewrite !bind_lift_ok in Hu.
  pose proof (pair_ab_ne_ba new Hnew) as Hne.
  case_match eqn:Hz.
  - unfold ret in Hu. simplify_eq. exists (base_liquidity s'), (routable_assets s').
    split; [by destruct s'|]. intros d. rewrite Hsum, (Hex d). to_prop.
    destruct (decide (d = pair_ab new)) as [->|]; [lia|].
    destruct (decide (d = pair_ba new)) as [->|]; [lia|].
    destruct (Hother d); [done..|]. lia.
  - apply bind_ok in Hu as (u1 & s1 & H1 & H2).
    apply inner_spec in H1 as (m1 & q1 & -> & Hm1);
      [|rewrite (Hex (pair_ab new)); apply Hle
       |rewrite (Hex (pair_ab new)); specialize (Hcap (pair_ab new)); rewrite Hsum in Hcap; lia].
    apply inner_spec in H2 as (m2 & q2 & -> & Hm2); cbn in *;
      rewrite Hm1, decide_False, (Hex (pair_ba new)) in * by done;
      [|apply Hle |specialize (Hcap (pair_ba new)); rewrite Hsum in Hcap; lia].
    exists m2, q2. split; [done|]. intros d. rewrite Hm2, Hm1, Hsum, (Hex d), (Hex (pair_ab new)).
    destruct (decide (d = pair_ba new)) as [->|]; [lia|].
    destruct (decide (d = pair_ab new)) as [->|]; [lia|].
    destruct (Hother d); [done..|]. lia.
Qed.
End LiquidityFacts.

Module VolumeFacts.
Section Volume.
Context `{DexEnv}.
Import VolumeTracker.

(** The volume ranking of an epoch holds each position that has a volume there, once, at its
    latest volume, under the asset it trades against the staking token. *)
Definition exact (vp : gmap (Z * position_id) Z) (bv : gmap (Z * asset_id * Z * position_id) Z)
  (ps : position_map) : Prop :=
  (forall e i, is_Some (vp !! (e, i)) -> is_Some (ps !! i))
  /\ forall e a c i v, bv !! (e, a, c, i) = Some v <->
       vp !! (e, i) = Some v /\ c = StateKey.complement v
       /\ exists lp, ps !! i = Some lp /\ a = other_asset (pair (phi lp)).

Lemma volume_exact_empty : exact ∅ ∅ ∅.
Proof. split; intros *; rewrite !lookup_empty; [intros [? [=]] | naive_solver]. Qed.

Lemma exact_after vp bv ps id new :
  exact vp bv ps -> (forall lp, ps !! id = Some lp -> pair (phi lp) = pair (phi new)) ->
  exact vp bv (after ps id new).
Proof.
  intros [Hd He] Hp. split.
  - intros e i Hi. rewrite lookup_insert. case_decide; eauto.
  - intros e a c i v. rewrite He. setoid_rewrite lookup_insert_Some. split.
    + intros (Hv & -> & lp & Hl & ->). split_and!; [done..|].
      destruct (decide (id = i)) as [->|]; [|naive_solver].
      exists new. split; [by left|]. by rewrite (Hp lp).
    + intros (Hv & -> & lp & [[-> ->]|[Hne Hl]] & ->); [|naive_solver].
      destruct (Hd e i) as [lq Hq]; [eauto|]. split_and!; [done..|].
      exists lq. split; [done|]. by rewrite (Hp lq).
Qed.

Lemma update_volume_spec e id lp old v s u s' :
  exact (volume_by_position s) (by_volume s) (positions s) -> positions s !! id = Some lp ->
  old = default 0 (volume_by_position s !! (e, id)) ->
  update_volume e (other_asset (pair (phi lp))) id old v s = (Ok u, s') ->
  exists vp bv, s' = set_by_volume bv (set_volume_by_position vp s)
    /\ vp = <[(e, id) := v]> (volume_by_position s) /\ exact vp bv (positions s).
Proof.
  intros [Hd He] Hlp -> Hu. unfold update_volume in Hu. inv_comp.
  eexists _, _. split; [reflexivity|]. split; [done|]. cbn. unfold StateKey.by_volume_key. split.
  - intros e' i. rewrite lookup_insert. case_decide; [naive_solver | apply Hd].
  - intros e' a c i w. rewrite lookup_insert_Some, lookup_delete_Some, He, lookup_insert_Some.
    destruct (decide ((e, id) = (e', i))) as [[= <- <-]|Hne]; [|naive_solver].
    rewrite Hlp. split; [|naive_solver].
    intros [[Hk ->]|(_ & Hold & Hv & -> & lq & [= <-] & ->)].
    + simplify_eq. naive_solver.
    + exfalso. apply Hold. by rewrite Hv.
Qed.

Lemma volume_update_spec id prev new s u s' :
  exact (volume_by_position s) (by_volume s) (positions s) -> positions s !! id = prev ->
  (forall lp, prev = Some lp -> pair (phi lp) = pair (phi new)) ->
  update_volume_index id prev new s = (Ok u, s') ->
  exists vp bv ev,
    s' = set_by_volume bv (set_volume_by_position vp (set_events ev s))
    /\ exact vp bv (after (positions s) id new).
Proof.
  intros Hex Hprev Hp Hu. unfold update_volume_index in Hu.
  assert (Hsame : s' = s -> exists vp bv ev,
    s' = set_by_volume bv (set_volume_by_position vp (set_events ev s))
    /\ exact vp bv (after (positions s) id new)).
  { intros ->. exists (volume_by_position s), (by_volume s), (events s).
    split; [by destruct s|]. apply exact_after; [done|]. naive_solver. }
  destruct (negb _); [inv_comp; auto|]. destruct prev as [lp|]; [|inv_comp; auto].
  destruct (negb _); [inv_comp; auto|].
  unfold DexRead.get_volume_for_position, DexRead.get_current_epoch in Hu. inv_comp. inv_outcome. simplify_eq.
  rewrite <- (Hp lp eq_refl) in Hu.
  apply update_volume_spec in Hu as (vp & bv & -> & _ & Hex').
  - exists vp, bv. eexists. split; [reflexivity|]. apply exact_after; [done|]. naive_solver.
  - done.
  - done.
  - done.
Qed.
End Volume.
End VolumeFacts.
