(* ===== verification/PositionManager.v ===== *)
(** * The position manager

    Models component/position_manager.rs, component/eviction_manager.rs and the action handlers of
    component/action_handler/position/: the operations that create, trade against, close, reward
    and withdraw liquidity positions.  [update_position] is the only writer of positions; every
    operation runs through it, so the invariants of the indexes are proved once for it and lifted
    to the operations by rule induction over the steps of [DexMachine]. *)

From S2P Require Import Prelude.
From S2P Require Import Num.
From S2P Require Import Asset.
From S2P Require Import TradingFunction.
From S2P Require Import Position.
From S2P Require Import Vcb.
From S2P Require Import DexState.
From S2P Require Import Indexes.
From S2P Require Import IndexFacts.

Module PositionManager.
Section Manager.
Context `{DexEnv}.
Import DexRead DexWrite PositionState.

Definition guard_invalid_transitions (prev_state : option Position) (new_state : Position)
  (id : position_id) : anyhow unit :=
  match prev_state with
  | Some prev_lp =>
      match state prev_lp, state new_state with
      | Opened, Opened => Ok tt
      | Opened, Closed => Ok tt
      | Closed, Closed => Ok tt
      | Closed, Withdrawn sequence =>
          guard_or (sequence =? 0)
            "withdrawn positions must have their sequence start at zero"
      | Withdrawn old_seq, Withdrawn new_seq =>
          let! next := plain_add 64 old_seq 1 in
          guard_or ((new_seq =? next) || (new_seq =? old_seq))
            "if the sequence number increase, it must increase by exactly one"
      | _, _ => Err "invalid transition"
      end
  | None =>
      guard_or (is_opened (state new_state)) "fresh positions MUST start in the `Opened` state"
  end.

(** The sole entry point for writing positions. *)
Definition update_position (id : position_id) (prev_state : option Position)
  (new_state : Position) : dex Position :=
  lift (guard_invalid_transitions prev_state new_state id);;;
  InventoryIndex.update_position_by_inventory_index id prev_state new_state;;;
  LiquidityIndex.update_asset_by_base_liquidity_index id prev_state new_state;;;
  Counter.update_trading_pair_position_counter prev_state new_state;;;
  PriceIndex.update_position_by_price_index id prev_state new_state;;;
  VolumeTracker.update_volume_index id prev_state new_state;;;
  modify (fun s => set_positions (<[id := new_state]> (positions s)) s);;;
  ret new_state.

Definition close_position_by_id (id : position_id) : dex unit :=
  o <- gets (position_by_id id);;
  prev_state <- lift (ok_or o "could not find position to close");;
  ensure (is_opened (state prev_state) || is_closed (state prev_state))
    "attempted to close a position in an unexpected state, expected Opened or Closed";;;
  if is_closed (state prev_state) then ret tt
  else
    let new_state := PositionOps.with_state Closed prev_state in
    update_position id (Some prev_state) new_state;;;
    modify (record_event (EventPositionClose id)).

Definition queue_close_position (id : position_id) : dex unit :=
  o <- gets (position_by_id id);;
  current_state <- lift (ok_or o "could not find position to close");;
  if is_opened (state current_state) then
    modify (fun s => set_pending_position_closures (pending_position_closures s ++ [id]) s);;;
    modify (record_event (EventQueuePositionClose id))
  else ret tt.

Definition close_queued_positions : dex unit :=
  to_close <- gets pending_position_closures;;
  for_each to_close close_position_by_id;;;
  modify (set_pending_position_closures []).

Definition open_position (position : Position) : dex unit :=
  let id := PositionOps.id position in
  if negb (is_opened (state position)) then
    fail "attempted to open a position with a state besides `Opened`"
  else
    existing <- gets (position_by_id id);;
    match existing with
    | Some _ => fail "attempted to open a position with an ID which already exists"
    | None =>
        Vcb.dex_vcb_credit (PositionOps.reserves_1 position);;;
        Vcb.dex_vcb_credit (PositionOps.reserves_2 position);;;
        params <- routing_params;;
        add_recently_accessed_asset (asset_1 (pair (phi position))) (routing_candidates params);;;
        add_recently_accessed_asset (asset_2 (pair (phi position))) (routing_candidates params);;;
        mark_trading_pair_as_active (pair (phi position));;;
        modify (record_event (EventPositionOpen id (pair (phi position))
          (amount (PositionOps.reserves_1 position)) (amount (PositionOps.reserves_2 position))
          (fee (component (phi position))) position));;;
        update_position id None position;;; ret tt
    end.

Definition position_execution (new_state : Position) (context : DirectedTradingPair)
  : dex Position :=
  let id := PositionOps.id new_state in
  o <- gets (position_by_id id);;
  prev_state <- lift (ok_or o "withdrew from unknown position");;
  if decide (prev_state = new_state) then
    ensure (is_opened (state prev_state) || is_closed (state prev_state))
      "attempted to do a no-op execution against a position, expected Opened or Closed";;;
    ret new_state
  else
    ensure (is_opened (state prev_state))
      "attempted to execute against a position, expected Opened";;;
    ensure (is_opened (state new_state)) "supplied post-execution state, expected Opened";;;
    modify (record_event (EventPositionExecution id (pair (phi new_state))
      (r1 (reserves new_state)) (r2 (reserves new_state))
      (r1 (reserves prev_state)) (r2 (reserves prev_state)) context));;;
    let exhausted := (r1 (reserves new_state) =? 0) || (r2 (reserves new_state) =? 0) in
    let new_state' :=
      if close_on_fill new_state && exhausted
      then PositionOps.with_state Closed new_state else new_state in
    when (close_on_fill new_state && exhausted) (modify (record_event (EventPositionClose id)));;;
    ignore_error (Chandelier.record_position_execution prev_state new_state');;;
    update_position id (Some prev_state) new_state'.

(** The withdrawal's sequence number must continue the position's. *)
Definition check_withdraw_sequence (st : PositionState.t) (sequence : Z) : anyhow unit :=
  if sequence =? 0 then
    guard_or (is_closed st) "attempted to withdraw position with unexpected state, expected Closed"
  else
    match st with
    | Withdrawn current_sequence =>
        let! next := plain_add 64 current_sequence 1 in
        guard_or (next =? sequence) "attempted to withdraw position with unexpected sequence"
    | _ => Err "attempted to withdraw position with unexpected state, expected Withdrawn"
    end.

(** The sequence number of the withdrawal event. *)
Definition event_sequence {E} (st : PositionState.t) : outcome E Z :=
  match st with Withdrawn sequence => plain_add 64 sequence 1 | _ => Ok 0 end.

Definition withdraw_position (id : position_id) (sequence : Z) : dex Balance.t :=
  o <- gets (position_by_id id);;
  prev_state <- lift (ok_or o "withdrew from unknown position");;
  lift (check_withdraw_sequence (state prev_state) sequence);;;
  event_seq <- lift (event_sequence (state prev_state));;
  modify (record_event (EventPositionWithdraw id (pair (phi prev_state))
    (r1 (reserves prev_state)) (r2 (reserves prev_state)) event_seq));;;
  reserves <- lift (ReservesOps.balance (reserves prev_state) (pair (phi prev_state)));;
  Vcb.dex_vcb_debit (PositionOps.reserves_1 prev_state);;;
  Vcb.dex_vcb_debit (PositionOps.reserves_2 prev_state);;;
  let new_state := PositionOps.with_reserves ReservesOps.zero
                     (PositionOps.with_state (Withdrawn sequence) prev_state) in
  update_position id (Some prev_state) new_state;;;
  ret reserves.

Definition reward_position (id : position_id) (reward : Z) : dex unit :=
  o <- gets (position_by_id id);;
  prev_state <- lift (ok_or o "rewarding unknown position");;
  let tp := pair (phi prev_state) in
  let deposit (r : Reserves) : dex unit :=
    update_position id (Some prev_state) (PositionOps.with_reserves r prev_state);;;
    Vcb.dex_vcb_credit (mkValue reward STAKING_TOKEN_ASSET_ID) in
  let '(mkReserves x y) := reserves prev_state in
  if asset_1 tp =? STAKING_TOKEN_ASSET_ID then
    x' <- lift (expect_some (checked_add 128 x reward));; deposit (mkReserves x' y)
  else if asset_2 tp =? STAKING_TOKEN_ASSET_ID then
    y' <- lift (expect_some (checked_add 128 y reward));; deposit (mkReserves x y')
  else ret tt.

(** *** Eviction *)

(** The excess positions of a pair: those among the [overhead] smallest of both directions. *)
Definition eviction_overlap (tp : TradingPair) (overhead : nat) (s : DexState)
  : list position_id :=
  let ab := mkDirected (asset_1 tp) (asset_2 tp) in
  let overhead_ab := take overhead (InventoryIndex.positions_by_inventory ab s) in
  let overhead_ba := take overhead (InventoryIndex.positions_by_inventory (Pair.flip ab) s) in
  merge_sort Z.le (elements
    (list_to_set overhead_ab ∩ list_to_set overhead_ba : gset position_id)).

Definition pair_le (x y : TradingPair) : Prop :=
  asset_1 x < asset_1 y \/ (asset_1 x = asset_1 y /\ asset_2 x <= asset_2 y).
#[global] Instance pair_le_dec x y : Decision (pair_le x y).
Proof. unfold pair_le. apply _. Defined.

Definition evict_positions : dex unit :=
  hot_pairs <- gets active_trading_pairs;;
  params <- get_dex_params;;
  for_each (merge_sort pair_le (elements hot_pairs)) (fun tp =>
    total_positions <- gets (get_position_count tp);;
    let overhead_size := saturating_sub total_positions (max_positions_per_pair params) in
    if overhead_size =? 0 then ret tt
    else
      overlap <- gets (eviction_overlap tp (Z.to_nat overhead_size));;
      for_each overlap close_position_by_id).

(** *** Action handlers *)

Definition position_open_check_stateless (position : Position) : anyhow unit :=
  let! _ := PositionOps.check_stateless position in
  guard_or (is_opened (state position)) "attempted to open a position with a state besides `Opened`".

Definition position_open_check_and_execute (position : Position) : dex unit :=
  params <- get_dex_params;;
  ensure (is_enabled params) "Dex MUST be enabled to open positions.";;;
  open_position position.

Definition position_close_check_and_execute (id : position_id) : dex unit :=
  queue_close_position id.

Definition position_withdraw_check_and_execute `{CommitmentGroup G, EqDecision G}
  (id : position_id) (sequence : Z) (reserves_commitment : G) : dex unit :=
  actual_reserves <- withdraw_position id sequence;;
  if decide (reserves_commitment = Commitment.commit actual_reserves 0) then ret tt
  else fail "reserves commitment is incorrect".
End Manager.
End PositionManager.
