(* ===== verification/PositionFacts.v ===== *)
(** * Invariants of the position manager

    [consistent]: the indexes are exact views of the positions; [surplus]: the value the circuit
    breaker accounts for beyond what the positions hold.  Each operation preserves the first and
    moves the second by a stated amount; [DexMachine] collects the operations in a step relation. *)

From S2P Require Import Prelude.
From S2P Require Import Num.
From S2P Require Import Asset.
From S2P Require Import TradingFunction.
From S2P Require Import Position.
From S2P Require Import Vcb.
From S2P Require Import DexState.
From S2P Require Import Indexes.
From S2P Require Import IndexFacts.
From S2P Require Import PositionManager.

Section Facts.
Context `{DexEnv}.
Import PositionManager.

(** ** The state invariant *)

Definition sound_position (id : position_id) (lp : Position) : Prop :=
  PositionOps.id lp = id /\ PositionOps.typed lp /\ Typed.wf (phi lp).

Record consistent (s : DexState) : Prop := {
  consistent_positions : map_Forall sound_position (positions s);
  consistent_price : PriceIndexFacts.exact (price_index s) (positions s);
  consistent_inventory : InventoryFacts.exact (inventory_index s) (positions s);
  consistent_counter : CounterFacts.exact (num_positions s) (positions s);
  consistent_liquidity : LiquidityFacts.exact (base_liquidity s) (positions s);
  consistent_volume :
    VolumeFacts.exact (volume_by_position s) (by_volume s) (positions s);
}.

(** What the positions hold of an asset, and what the ledger has beyond it. *)
Definition held (a : asset_id) (ps : position_map) : Z :=
  map_sum (fun lp => PositionOps.holds lp a) ps.
Definition surplus (a : asset_id) (s : DexState) : Z := Vcb.balance a s - held a (positions s).

Definition solvent (s : DexState) : Prop :=
  Vcb.balances_typed s /\ forall a, 0 <= surplus a s.

(** The state without positions, their indexes, and the log. *)
Definition unindexed (s : DexState) : DexState :=
  set_positions ∅ (set_price_index ∅ (set_inventory_index ∅ (set_routable_assets ∅
    (set_base_liquidity ∅ (set_num_positions ∅ (set_volume_by_position ∅ (set_by_volume ∅
      (set_events [] s)))))))).

Lemma balance_unindexed a s s' :
  unindexed s' = unindexed s -> Vcb.balance a s' = Vcb.balance a s.
Proof.
  intros Hu. unfold Vcb.balance. cbn.
  by rewrite (f_equal value_balances Hu : value_balances s' = value_balances s).
Qed.

Lemma typed_sound lp :
  PositionOps.typed lp -> Typed.wf (phi lp) -> LiquidityFacts.sound lp.
Proof. unfold PositionOps.typed, Typed.wf, LiquidityFacts.sound, in_width. naive_solver lia. Qed.

Lemma all_sound s :
  map_Forall sound_position (positions s) ->
  map_Forall (fun _ => LiquidityFacts.sound) (positions s).
Proof. intros Ha id lp Hl. destruct (Ha id lp Hl) as (_ & ? & ?). by apply typed_sound. Qed.

Lemma holds_nonneg lp a : LiquidityFacts.sound lp -> 0 <= PositionOps.holds lp a.
Proof.
  intros (? & ? & _). unfold PositionOps.holds, ReservesOps.holds. repeat case_decide; lia.
Qed.

Lemma contribution_le_holds d lp :
  LiquidityFacts.sound lp -> LiquidityFacts.contribution d lp <= PositionOps.holds lp (start d).
Proof.
  intros Hs. pose proof (holds_nonneg lp (start d) Hs) as Hn. destruct Hs as (Hr1 & Hr2 & Hne).
  unfold LiquidityFacts.contribution. unfold PositionOps.holds, ReservesOps.holds in *.
  destruct (PositionState.is_opened (state lp)); [|exact Hn].
  unfold pair_ab, pair_ba, Pair.flip in *. repeat case_decide; simplify_eq; cbn in *; lia || congruence.
Qed.

Lemma held_after a ps id new :
  held a (after ps id new) = held a ps + PositionOps.holds new a
    - from_option (fun lp => PositionOps.holds lp a) 0 (ps !! id).
Proof. apply (map_sum_insert (fun lp => PositionOps.holds lp a)). Qed.

Lemma map_sum_le {K} `{Countable K} {A} (f g : A -> Z) (m : gmap K A) :
  (forall k v, m !! k = Some v -> f v <= g v) -> map_sum f m <= map_sum g m.
Proof.
  induction m as [|k v m Hk IH] using map_ind; intros Hf; [by rewrite !map_sum_empty|].
  rewrite !map_sum_insert_fresh by done. pose proof (Hf k v (lookup_insert_eq _ _ _)).
  enough (map_sum f m <= map_sum g m) by lia. apply IH. intros k' v' Hv. apply (Hf k').
  rewrite lookup_insert_ne; congruence.
Qed.

(** Whatever backs the positions bounds the liquidity tallies. *)
Lemma supply_bound ps d b :
  map_Forall (fun _ => LiquidityFacts.sound) ps -> held (start d) ps <= b -> b < 2 ^ 128 ->
  LiquidityFacts.supply d ps < 2 ^ 128.
Proof.
  intros Hall Hle Hb. eapply Z.le_lt_trans; [|exact Hb]. etransitivity; [|exact Hle].
  apply map_sum_le. intros id lp Hl. apply contribution_le_holds, (Hall id lp Hl).
Qed.

Lemma carries_reserves lp a :
  Typed.carries (PositionOps.reserves_1 lp) a + Typed.carries (PositionOps.reserves_2 lp) a
    = PositionOps.holds lp a.
Proof. done. Qed.

(** ** The sole writer *)

Lemma guard_transition prev new id u :
  guard_invalid_transitions prev new id = Ok u ->
  PositionState.transition (state <$> prev) (state new).
Proof.
  unfold guard_invalid_transitions. destruct prev as [lp|]; cbn.
  - destruct (state lp), (state new); intros Hg; try discriminate Hg; try constructor.
    + inv_outcome. to_prop. subst. constructor.
    + inv_outcome. apply plain_add_ok in Hg0 as [-> _]. apply orb_true_iff in Hg as [Hg|Hg];
        to_prop; subst; constructor.
  - intros Hg. inv_outcome. destruct (state new); [constructor | discriminate..].
Qed.

Lemma update_position_spec id prev new s lp' s' :
  consistent s -> positions s !! id = prev -> sound_position id new ->
  (forall lp, prev = Some lp -> pair (phi lp) = pair (phi new)) ->
  (forall d, LiquidityFacts.supply d (after (positions s) id new) < 2 ^ 128) ->
  update_position id prev new s = (Ok lp', s') ->
  lp' = new /\ consistent s' /\ positions s' = after (positions s) id new
  /\ unindexed s' = unindexed s
  /\ PositionState.transition (state <$> prev) (state new).
Proof.
  intros [Hall Hpr Hinv Hcnt Hliq Hvol] Hprev Hnew Hpair Hcap Hu.
  unfold update_position in Hu. inv_comp.
  apply guard_transition in Hu0 as Ht.
  apply InventoryFacts.inventory_update_spec in Hu1 as (m1 & -> & H1); [|done..].
  apply LiquidityFacts.liquidity_update_spec in Hu2 as (m2 & q2 & -> & H2);
    [|done|done|by apply all_sound|apply typed_sound; apply Hnew|done|done].
  apply (CounterFacts.counter_update_spec id) in Hu3 as (m3 & -> & H3); [|done..].
  apply PriceIndexFacts.price_update_spec in Hu4 as (m4 & -> & H4); [|done..].
  apply VolumeFacts.volume_update_spec in Hu5 as (m5 & m6 & ev & -> & H5); [|done..].
  split_and!; [done| |done|done|done]. split; cbn; [|done..].
  by apply map_Forall_insert_2.
Qed.

(** ** Frames *)

(** Whatever its arguments, a write touches only positions, indexes and the log. *)
Ltac frame_by_cases :=
  unfold when; intros; repeat first [progress inv_comp | case_match]; done.

Lemma inventory_frame id prev new s u s' :
  InventoryIndex.update_position_by_inventory_index id prev new s = (Ok u, s') ->
  unindexed s' = unindexed s.
Proof.
  unfold InventoryIndex.update_position_by_inventory_index,
    InventoryIndex.deindex_position_by_inventory, InventoryIndex.index_position_by_inventory.
  frame_by_cases.
Qed.

Lemma liquidity_frame id prev new s u s' :
  LiquidityIndex.update_asset_by_base_liquidity_index id prev new s = (Ok u, s') ->
  unindexed s' = unindexed s.
Proof.
  unfold LiquidityIndex.update_asset_by_base_liquidity_index,
    LiquidityIndex.update_asset_by_base_liquidity_index_inner.
  frame_by_cases.
Qed.

Lemma counter_frame prev new s u s' :
  Counter.update_trading_pair_position_counter prev new s = (Ok u, s') ->
  unindexed s' = unindexed s.
Proof.
  unfold Counter.update_trading_pair_position_counter. intros Hu.
  destruct (state <$> prev) as [[]|], (state new); inv_comp; try done.
  - by apply CounterFacts.decrement_ok in Hu0 as ->.
  - by apply CounterFacts.increment_ok in Hu0 as ->.
Qed.

Lemma price_frame id prev new s u s' :
  PriceIndex.update_position_by_price_index id prev new s = (Ok u, s') ->
  unindexed s' = unindexed s.
Proof.
  unfold PriceIndex.update_position_by_price_index, PriceIndex.deindex_position_by_price,
    PriceIndex.index_position_by_price.
  frame_by_cases.
Qed.

Lemma volume_frame id prev new s u s' :
  VolumeTracker.update_volume_index id prev new s = (Ok u, s') -> unindexed s' = unindexed s.
Proof.
  unfold VolumeTracker.update_volume_index, VolumeTracker.update_volume,
    DexRead.get_volume_for_position, DexRead.get_current_epoch.
  frame_by_cases.
Qed.

Lemma update_position_frame id prev new s lp' s' :
  update_position id prev new s = (Ok lp', s') -> unindexed s' = unindexed s.
Proof.
  intros Hu. unfold update_position in Hu. inv_comp.
  apply inventory_frame in Hu1. apply liquidity_frame in Hu2. apply counter_frame in Hu3.
  apply price_frame in Hu4. apply volume_frame in Hu5. etransitivity; [exact Hu5|]. congruence.
Qed.

(** The part of the state [consistent] is about. *)
Definition indexes (s : DexState) :=
  (positions s, price_index s, inventory_index s, num_positions s, base_liquidity s,
   volume_by_position s, by_volume s).

Lemma consistent_frame s s' : indexes s' = indexes s -> consistent s -> consistent s'.
Proof.
  unfold indexes. intros Hi [H1 H2 H3 H4 H5 H6].
  injection Hi as E1 E2 E3 E4 E5 E6 E7. by split; rewrite ?E1, ?E2, ?E3, ?E4, ?E5, ?E6, ?E7.
Qed.

Lemma indexes_positions s s' : indexes s' = indexes s -> positions s' = positions s.
Proof. by intros [=]. Qed.

Lemma credit_frame v s u s' :
  Vcb.dex_vcb_credit v s = (Ok u, s') ->
  exists vb ev, s' = set_value_balances vb (set_events ev s).
Proof.
  intros (_ & _ & ->)%Vcb.credit_spec. unfold Vcb.touched. case_match; [|by eexists _, _].
  exists (value_balances s), (events s). by destruct s.
Qed.

Lemma debit_frame v s u s' :
  Vcb.dex_vcb_debit v s = (Ok u, s') ->
  exists vb ev, s' = set_value_balances vb (set_events ev s).
Proof.
  intros (_ & _ & ->)%Vcb.debit_spec. unfold Vcb.touched. case_match; [|by eexists _, _].
  exists (value_balances s), (events s). by destruct s.
Qed.

Lemma recent_frame a fixed s u s' :
  DexWrite.add_recently_accessed_asset a fixed s = (Ok u, s') ->
  exists v, s' = set_recently_accessed_assets v s.
Proof.
  unfold DexWrite.add_recently_accessed_asset. intros Ha. inv_comp.
  repeat case_match; inv_comp; eauto; exists (recently_accessed_assets s); by destruct s.
Qed.

Lemma active_frame tp s u s' :
  DexWrite.mark_trading_pair_as_active tp s = (Ok u, s') ->
  exists v, s' = set_active_trading_pairs v s.
Proof.
  unfold DexWrite.mark_trading_pair_as_active. intros Ha. inv_comp.
  repeat case_match; inv_comp; eauto; exists (active_trading_pairs s); by destruct s.
Qed.

Lemma chandelier_frame prev new s r s' :
  Chandelier.record_position_execution prev new s = (r, s') ->
  exists v, s' = set_block_executions v s.
Proof.
  assert (exists v, s = set_block_executions v s) by (exists (block_executions s); by destruct s).
  unfold Chandelier.record_position_execution, Chandelier.put_block_executions_by_pair,
    bind, gets, lift, modify.
  repeat case_match; intros [= _ <-]; eauto; simplify_eq; eauto.
Qed.

Lemma ignore_error_ok {A} (m : dex A) s u s' :
  ignore_error m s = (Ok u, s') -> exists r, m s = (r, s').
Proof. unfold ignore_error. destruct (m s) as [[]]; naive_solver. Qed.

(** ** Closing *)

Lemma holds_with_state st lp a :
  PositionOps.holds (PositionOps.with_state st lp) a = PositionOps.holds lp a.
Proof. done. Qed.

Lemma sound_with_state st id lp :
  sound_position id lp -> sound_position id (PositionOps.with_state st lp).
Proof. done. Qed.

Lemma solvent_capacity s ps d :
  map_Forall sound_position ps -> Vcb.balances_typed s ->
  (forall a, held a ps <= Vcb.balance a s) -> LiquidityFacts.supply d ps < 2 ^ 128.
Proof.
  intros Hall Ht Hle. apply (supply_bound _ _ (Vcb.balance (start d) s)); [|apply Hle|apply Ht].
  intros id lp Hl. destruct (Hall id lp Hl) as (_ & ? & ?). by apply typed_sound.
Qed.

(** [written s s' id new]: [s'] is [s] with [id] set to [new] and the indexes updated. *)
Definition written (s s' : DexState) (id : position_id) (new : Position) : Prop :=
  consistent s' /\ positions s' = after (positions s) id new /\ unindexed s' = unindexed s
  /\ PositionState.transition (state <$> positions s !! id) (state new).

Lemma update_written id prev new s lp' s' sb :
  consistent s -> positions s !! id = prev -> sound_position id new ->
  (forall lp, prev = Some lp -> pair (phi lp) = pair (phi new)) ->
  Vcb.balances_typed sb ->
  (forall a, held a (after (positions s) id new) <= Vcb.balance a sb) ->
  update_position id prev new s = (Ok lp', s') -> lp' = new /\ written s s' id new.
Proof.
  intros Hc Hprev Hnew Hpair Ht Hle Hu.
  eapply update_position_spec in Hu as (? & ? & ? & ? & ?); [|done..|].
  - split; [done|]. unfold written. by rewrite Hprev.
  - intros d. eapply solvent_capacity; [|done..]. apply map_Forall_insert_2; [done | apply Hc].
Qed.

(** Every operation on an existing position starts by fetching it. *)
Lemma fetch_ok {B} id e (k : Position -> dex B) s b s' :
  (o <- gets (DexRead.position_by_id id);; lp <- lift (ok_or o e);; k lp) s = (Ok b, s') ->
  exists lp, positions s !! id = Some lp /\ k lp s = (Ok b, s').
Proof. intros Hr. inv_comp. inv_outcome. eauto. Qed.

(** The two ways a close can succeed. *)
Lemma close_spec id s u s' :
  consistent s -> solvent s -> close_position_by_id id s = (Ok u, s') ->
  exists lp, positions s !! id = Some lp /\
    ((state lp = PositionState.Closed /\ s' = s)
     \/ (state lp = PositionState.Opened
         /\ exists s1, written s s1 id (PositionOps.with_state PositionState.Closed lp)
                       /\ s' = record_event (EventPositionClose id) s1)).
Proof.
  intros Hc [Ht Hs] Hr. apply fetch_ok in Hr as (lp & Hlp & Hr). exists lp. split; [done|].
  apply bind_ok in Hr as (u1 & s1 & [Hst ->]%ensure_ok & Hr).
  destruct (state lp) eqn:Hst'; cbn in Hr, Hst; [right | left | done].
  - split; [done|]. inv_comp. rewrite <- Hlp in Hr0.
    apply (update_written _ _ _ _ _ _ s) in Hr0 as [-> Hw]; try done.
    + eauto.
    + by apply sound_with_state, (consistent_positions _ Hc id).
    + naive_solver.
    + intros a'. specialize (Hs a'). unfold surplus in Hs. rewrite held_after, Hlp. cbn [from_option].
      rewrite holds_with_state. lia.
  - inv_comp. done.
Qed.

Lemma written_surplus s s' id new a :
  written s s' id new ->
  surplus a s' = surplus a s - PositionOps.holds new a
    + from_option (fun lp => PositionOps.holds lp a) 0 (positions s !! id).
Proof.
  intros (_ & Hp & Hu & _). unfold surplus. rewrite Hp, held_after, (balance_unindexed a s s' Hu).
  lia.
Qed.

Lemma written_balances s s' id new :
  written s s' id new -> Vcb.balances_typed s -> Vcb.balances_typed s'.
Proof. intros (_ & _ & Hu & _) Ht a. by rewrite (balance_unindexed a s s' Hu). Qed.

(** *** Opening *)

Lemma credits_spec v w s u1 s1 u2 s2 :
  Vcb.dex_vcb_credit v s = (Ok u1, s1) -> Vcb.dex_vcb_credit w s1 = (Ok u2, s2) ->
  is_u128 (amount v) -> is_u128 (amount w) -> Vcb.balances_typed s ->
  indexes s2 = indexes s /\ pending_position_closures s2 = pending_position_closures s
  /\ Vcb.balances_typed s2
  /\ forall a, Vcb.balance a s2 = Vcb.balance a s + Typed.carries v a + Typed.carries w a.
Proof.
  intros H1 H2 Hv Hw Ht.
  pose proof (Vcb.run_movement_typed (Vcb.Credit v) _ _ _ Hv Ht H1) as Ht1.
  pose proof (Vcb.run_movement_typed (Vcb.Credit w) _ _ _ Hw Ht1 H2) as Ht2.
  assert (Hb : forall a, Vcb.balance a s2 = Vcb.balance a s + Typed.carries v a + Typed.carries w a).
  { intros a. rewrite (Vcb.credit_balance _ _ _ _ a H2), (Vcb.credit_balance _ _ _ _ a H1). lia. }
  apply credit_frame in H1 as (? & ? & ->), H2 as (? & ? & ->). done.
Qed.

Lemma debits_spec v w s u1 s1 u2 s2 :
  Vcb.dex_vcb_debit v s = (Ok u1, s1) -> Vcb.dex_vcb_debit w s1 = (Ok u2, s2) ->
  is_u128 (amount v) -> is_u128 (amount w) -> Vcb.balances_typed s ->
  indexes s2 = indexes s /\ pending_position_closures s2 = pending_position_closures s
  /\ Vcb.balances_typed s2
  /\ forall a, Vcb.balance a s2 = Vcb.balance a s - Typed.carries v a - Typed.carries w a.
Proof.
  intros H1 H2 Hv Hw Ht.
  pose proof (Vcb.run_movement_typed (Vcb.Debit v) _ _ _ Hv Ht H1) as Ht1.
  pose proof (Vcb.run_movement_typed (Vcb.Debit w) _ _ _ Hw Ht1 H2) as Ht2.
  assert (Hb : forall a, Vcb.balance a s2 = Vcb.balance a s - Typed.carries v a - Typed.carries w a).
  { intros a. rewrite (Vcb.debit_balance _ _ _ _ a H2), (Vcb.debit_balance _ _ _ _ a H1). lia. }
  apply debit_frame in H1 as (? & ? & ->), H2 as (? & ? & ->). done.
Qed.

Lemma debit_total v (s : DexState) :
  amount v <= Vcb.balance (value_asset v) s -> exists s', Vcb.dex_vcb_debit v s = (Ok tt, s').
Proof. intros Hle. eexists. apply Vcb.debit_spec. by split_and!. Qed.

Lemma typed_reserves lp :
  PositionOps.typed lp ->
  is_u128 (amount (PositionOps.reserves_1 lp)) /\ is_u128 (amount (PositionOps.reserves_2 lp)).
Proof. unfold PositionOps.typed. cbn. tauto. Qed.

Lemma unindexed_pending s s' :
  unindexed s' = unindexed s -> pending_position_closures s' = pending_position_closures s.
Proof. intros Hu. exact (f_equal pending_position_closures Hu). Qed.

Lemma open_spec lp s u s' :
  consistent s -> solvent s ->
  PositionOps.typed lp -> Typed.wf (phi lp) ->
  open_position lp s = (Ok u, s') ->
  let id := PositionOps.id lp in
  positions s !! id = None /\ state lp = PositionState.Opened
  /\ consistent s' /\ positions s' = after (positions s) id lp
  /\ pending_position_closures s' = pending_position_closures s
  /\ Vcb.balances_typed s' /\ forall a, surplus a s' = surplus a s.
Proof.
  intros Hc [Ht Hs] Hty Hck Hr id. unfold open_position in Hr.
  destruct (PositionState.is_opened (state lp)) eqn:Hop; cbn [negb] in Hr; [|by inv_comp].
  assert (state lp = PositionState.Opened) as Hst by (by destruct (state lp)).
  apply bind_ok in Hr as (o & s0 & [-> ->]%gets_ok & Hr).
  unfold DexRead.position_by_id in Hr. fold id in Hr.
  destruct (positions s !! id) as [|] eqn:Hnone; [by inv_comp|].
  inv_comp. apply recent_frame in Hr3 as (v1 & ->), Hr4 as (v2 & ->).
  apply active_frame in Hr5 as (v3 & ->).
  unfold DexRead.routing_params, DexRead.get_dex_params in Hr2. inv_comp.
  pose proof (typed_reserves lp Hty) as [Hr1t Hr2t].
  eapply credits_spec in Hr1 as (Hi & Hpend & Htb & Hb); [|exact Hr0|done|done|done].
  pose proof (indexes_positions _ _ Hi) as Hpos.
  match type of Hr7 with update_position _ _ _ ?sx = _ => set (sw := sx) in * end.
  assert (Hc1 : consistent sw) by (eapply consistent_frame; [|exact Hc]; exact Hi).
  assert (Hp1 : positions sw = positions s) by exact Hpos.
  assert (Hbw : forall a, Vcb.balance a sw = Vcb.balance a s + PositionOps.holds lp a).
  { intros a'. rewrite <- carries_reserves, Z.add_assoc. apply Hb. }
  assert (Htw : Vcb.balances_typed sw) by exact Htb.
  assert (Hpw : pending_position_closures sw = pending_position_closures s) by exact Hpend.
  clearbody sw. eapply (update_written _ _ _ _ _ _ sw) in Hr7 as [_ Hw]; try done.
  - pose proof Hw as (Hc' & Hp' & Hu' & _). split_and!; try done.
    + by rewrite Hp', Hp1.
    + by rewrite (unindexed_pending _ _ Hu').
    + by eapply written_balances.
    + intros a'. rewrite (written_surplus _ _ _ _ a' Hw). unfold surplus.
      rewrite Hp1, Hnone, Hbw. cbn [from_option]. lia.
  - by rewrite Hp1.
  - intros a'. rewrite Hp1, held_after, Hnone, Hbw. cbn [from_option].
    specialize (Hs a'). unfold surplus in Hs. lia.
Qed.

(** *** Withdrawing *)

Definition withdrawn (sequence : Z) (lp : Position) : Position :=
  PositionOps.with_reserves ReservesOps.zero
    (PositionOps.with_state (PositionState.Withdrawn sequence) lp).

Lemma holds_withdrawn n lp a : PositionOps.holds (withdrawn n lp) a = 0.
Proof. unfold PositionOps.holds, ReservesOps.holds. cbn. by repeat case_decide. Qed.

Lemma sound_withdrawn n id lp : sound_position id lp -> sound_position id (withdrawn n lp).
Proof.
  intros (Hid & (_ & _ & Ht) & Hw). split_and!; [done| |done]. by split_and!; [| |apply Ht..].
Qed.

Lemma check_withdraw_sequence_ok st n u :
  check_withdraw_sequence st n = Ok u ->
  (st = PositionState.Closed /\ n = 0)
  \/ exists m, st = PositionState.Withdrawn m /\ n = m + 1 /\ n < 2 ^ 64.
Proof.
  unfold check_withdraw_sequence. destruct (Z.eqb_spec n 0).
  - intros Hg. inv_outcome. destruct st; naive_solver.
  - destruct st as [| |m]; try done. intros Hg. inv_outcome.
    apply plain_add_ok in Hg0 as [-> Hlt]. to_prop. right. exists m. split; [done|lia].
Qed.

Lemma withdraw_spec id n s b s' :
  consistent s -> solvent s -> withdraw_position id n s = (Ok b, s') ->
  exists lp, positions s !! id = Some lp
    /\ ((state lp = PositionState.Closed /\ n = 0)
        \/ exists m, state lp = PositionState.Withdrawn m /\ n = m + 1)
    /\ @ReservesOps.balance string (reserves lp) (pair (phi lp)) = Ok b
    /\ consistent s' /\ positions s' = after (positions s) id (withdrawn n lp)
    /\ pending_position_closures s' = pending_position_closures s
    /\ Vcb.balances_typed s'
    /\ (forall a, Vcb.balance a s' = Vcb.balance a s - PositionOps.holds lp a)
    /\ forall a, surplus a s' = surplus a s.
Proof.
  intros Hc [Ht Hs] Hr. apply fetch_ok in Hr as (lp & Hlp & Hr). exists lp. split; [done|].
  pose proof (consistent_positions _ Hc id lp Hlp) as Hsound.
  pose proof Hsound as (_ & Hty & _). pose proof (typed_reserves lp Hty) as [Hr1t Hr2t].
  inv_comp. cbv zeta in Hr. inv_comp. apply check_withdraw_sequence_ok in Hr0.
  eapply debits_spec in Hr5 as (Hi & Hpend & Htb & Hb); [|exact Hr4|done|done|done].
  pose proof (indexes_positions _ _ Hi) as Hpos.
  match goal with Hx : update_position _ _ _ ?sx = _ |- _ =>
    rename Hx into Hup; set (sw := sx) in * end.
  assert (Hc1 : consistent sw) by (eapply consistent_frame; [|exact Hc]; exact Hi).
  assert (Hp1 : positions sw = positions s) by exact Hpos.
  assert (Hbw : forall a, Vcb.balance a sw = Vcb.balance a s - PositionOps.holds lp a).
  { intros a'. rewrite <- carries_reserves, Z.sub_add_distr. apply Hb. }
  assert (Hpw : pending_position_closures sw = pending_position_closures s) by exact Hpend.
  clearbody sw. eapply (update_written _ _ _ _ _ _ sw) in Hup as [_ Hw]; try done.
  - pose proof Hw as (Hc' & Hp' & Hu' & _). split_and!; try done.
    + naive_solver.
    + by rewrite Hp', Hp1.
    + by rewrite (unindexed_pending _ _ Hu').
    + by eapply written_balances.
    + intros a'. by rewrite (balance_unindexed a' _ _ Hu').
    + intros a'. rewrite (written_surplus _ _ _ _ a' Hw). unfold surplus.
      fold (withdrawn n lp). rewrite Hp1, Hlp, Hbw, holds_withdrawn. cbn [from_option]. lia.
  - by rewrite Hp1.
  - by apply sound_withdrawn.
  - naive_solver.
  - intros a'. fold (withdrawn n lp). rewrite Hp1, held_after, Hlp, Hbw, holds_withdrawn.
    cbn [from_option]. specialize (Hs a'). unfold surplus in Hs. lia.
Qed.

(** *** Rewarding *)

Lemma reward_spec id reward s u s' :
  consistent s -> solvent s -> is_u128 reward -> reward_position id reward s = (Ok u, s') ->
  exists lp, positions s !! id = Some lp
    /\ (s' = s \/ exists lp', positions s' = after (positions s) id lp' /\ state lp' = state lp
                     /\ phi lp' = phi lp)
    /\ consistent s' /\ pending_position_closures s' = pending_position_closures s
    /\ Vcb.balances_typed s' /\ forall a, surplus a s' = surplus a s.
Proof.
  intros Hc [Ht Hs] Hrw Hr. apply fetch_ok in Hr as (lp & Hlp & Hr). exists lp. split; [done|].
  pose proof (consistent_positions _ Hc id lp Hlp) as Hsound.
  pose proof Hsound as (Hid & Hty & Hwf). pose proof (proj2 Hwf) as Hne.
  assert (Hdep : forall r,
    (update_position id (Some lp) (PositionOps.with_reserves r lp);;;
     Vcb.dex_vcb_credit (mkValue reward STAKING_TOKEN_ASSET_ID)) s = (Ok u, s') ->
    is_u128 (r1 r) -> is_u128 (r2 r) ->
    (forall a, ReservesOps.holds r (pair (phi lp)) a
       = PositionOps.holds lp a + Typed.carries (mkValue reward STAKING_TOKEN_ASSET_ID) a) ->
    (s' = s \/ exists lp', positions s' = after (positions s) id lp' /\ state lp' = state lp
                     /\ phi lp' = phi lp)
    /\ consistent s' /\ pending_position_closures s' = pending_position_closures s
    /\ Vcb.balances_typed s' /\ forall a, surplus a s' = surplus a s).
  { clear Hr. intros r Hr Hx Hy Hh. apply bind_ok in Hr as (lp' & s1 & Hup & Hcr).
    pose proof (update_position_frame _ _ _ _ _ _ Hup) as Hf.
    assert (Ht' : Vcb.balances_typed s').
    { eapply (Vcb.run_movement_typed (Vcb.Credit (mkValue reward _))); [exact Hrw| |exact Hcr].
      intros a. rewrite (balance_unindexed a _ _ Hf). apply Ht. }
    assert (Hb : forall a, Vcb.balance a s'
      = Vcb.balance a s + Typed.carries (mkValue reward STAKING_TOKEN_ASSET_ID) a).
    { intros a. rewrite (Vcb.credit_balance _ _ _ _ a Hcr). by rewrite (balance_unindexed a _ _ Hf). }
    rewrite <- Hlp in Hup.
    eapply (update_written _ _ _ _ _ _ s') in Hup as [_ Hw]; try done.
    - pose proof Hw as (Hc' & Hp' & Hu' & _). apply credit_frame in Hcr as (vb & ev & Hs').
      assert (positions s' = positions s1) as Hps by (by rewrite Hs').
      split_and!; try done.
      + right. eexists. split; [by rewrite Hps, Hp'|done].
      + eapply consistent_frame; [|exact Hc']. by rewrite Hs'.
      + rewrite Hs'. apply (unindexed_pending s s1). exact Hu'.
      + intros a. unfold surplus. rewrite Hps, Hp', held_after, Hlp, Hb. cbn [from_option].
        unfold PositionOps.holds at 1. cbn [reserves phi PositionOps.with_reserves].
        rewrite Hh. lia.
    - split; [done|]. split; [|done]. unfold PositionOps.typed in *. cbn. tauto.
    - naive_solver.
    - intros a. rewrite held_after, Hlp, Hb. cbn [from_option].
      unfold PositionOps.holds at 1. cbn [reserves phi PositionOps.with_reserves].
      rewrite Hh. specialize (Hs a). unfold surplus in Hs. lia. }
  pose proof Hty as (Hx & Hy & _). unfold PositionOps.holds in Hdep.
  destruct (reserves lp) as [x y] eqn:Hres. cbn [r1 r2] in Hx, Hy.
  unfold in_width, ReservesOps.holds, Typed.carries in *. cbn [r1 r2 amount value_asset] in Hdep.
  destruct (Z.eqb_spec (asset_1 (pair (phi lp))) STAKING_TOKEN_ASSET_ID) as [E1|E1];
    [|destruct (Z.eqb_spec (asset_2 (pair (phi lp))) STAKING_TOKEN_ASSET_ID) as [E2|E2]].
  - apply bind_ok in Hr as (x' & s1 & [Hadd ->]%lift_ok & Hr). inv_outcome.
    apply checked_add_some in Hadd as [-> Hlt].
    apply (Hdep (mkReserves (x + reward) y)); cbn [r1 r2]; [done|lia..|].
    intros a. rewrite E1. repeat case_decide; congruence || lia.
  - apply bind_ok in Hr as (y' & s1 & [Hadd ->]%lift_ok & Hr). inv_outcome.
    apply checked_add_some in Hadd as [-> Hlt].
    apply (Hdep (mkReserves x (y + reward))); cbn [r1 r2]; [done|lia..|].
    intros a. rewrite E2. repeat case_decide; congruence || lia.
  - inv_comp. split_and!; [by left|done..].
Qed.

(** *** Trading *)

(** What an execution stores: the position closes itself when it is set to and is exhausted. *)
Definition executed (lp : Position) : Position :=
  if close_on_fill lp && ((r1 (reserves lp) =? 0) || (r2 (reserves lp) =? 0))
  then PositionOps.with_state PositionState.Closed lp else lp.

Lemma executed_same lp :
  reserves (executed lp) = reserves lp /\ phi (executed lp) = phi lp
  /\ PositionOps.id (executed lp) = PositionOps.id lp.
Proof. unfold executed. by case_match. Qed.

(** Everything a trade leaves alone: the state without positions, indexes, log and price records. *)
Definition outside (s : DexState) : DexState := set_block_executions ∅ (unindexed s).

(** An execution that keeps every asset's total in 128 bits. *)
Lemma execution_wide new context s lp' s' :
  consistent s ->
  (forall prev, positions s !! PositionOps.id new = Some prev ->
     phi new = phi prev /\ PositionOps.typed new) ->
  (forall a, held a (after (positions s) (PositionOps.id new) new) < 2 ^ 128) ->
  position_execution new context s = (Ok lp', s') ->
  exists prev, positions s !! PositionOps.id new = Some prev
    /\ ((prev = new /\ lp' = new /\ s' = s)
        \/ (state prev = PositionState.Opened /\ state new = PositionState.Opened
            /\ lp' = executed new /\ consistent s'
            /\ positions s' = after (positions s) (PositionOps.id new) (executed new)
            /\ outside s' = outside s)).
Proof.
  intros Hc Hpre Hcap Hr. apply fetch_ok in Hr as (prev & Hprev & Hr). exists prev.
  split; [done|]. specialize (Hpre _ Hprev) as (Hphi & Hty).
  destruct (decide (prev = new)) as [|Hne]; [left; inv_comp; done|]. right.
  apply bind_ok in Hr as (? & ? & [Hop ->]%ensure_ok & Hr).
  apply bind_ok in Hr as (? & ? & [Hon ->]%ensure_ok & Hr).
  apply bind_ok in Hr as (? & s1 & [-> ->]%modify_ok & Hr). cbv zeta in Hr.
  fold (executed new) in Hr.
  apply bind_ok in Hr as (? & s2 & Hw2 & Hr). apply bind_ok in Hr as (? & s3 & Hi3 & Hup).
  apply ignore_error_ok in Hi3 as (r & [v ->]%chandelier_frame).
  assert (exists ev, s2 = set_events ev s) as [ev ->].
  { unfold when in Hw2. case_match; inv_comp; by eexists. }
  match type of Hup with update_position _ _ _ ?sx = _ => set (sw := sx) in * end.
  assert (Hcw : consistent sw) by (by eapply consistent_frame; [|exact Hc]).
  destruct (executed_same new) as (Er & Ep & Ei).
  assert (Hso : sound_position (PositionOps.id new) (executed new)).
  { split; [done|]. unfold PositionOps.typed. rewrite Er, Ep. split; [done|]. rewrite Hphi.
    by apply (consistent_positions _ Hc _ _ Hprev). }
  assert (Hpw : positions sw = positions s) by done.
  assert (How : outside sw = outside s) by done.
  clearbody sw. eapply update_position_spec in Hup as (-> & Hc' & Hp' & Hu' & _); try done.
  - split_and!; try done.
    + by destruct (state prev).
    + by destruct (state new).
    + by rewrite Hp', Hpw.
    + rewrite <- How. unfold outside. by rewrite Hu'.
  - by rewrite Hpw.
  - intros ? [= <-]. by rewrite Ep, Hphi.
  - intros d. rewrite Hpw. eapply supply_bound; [|reflexivity|].
    + intros k lp Hk.
      assert (Hall : map_Forall sound_position (after (positions s) (PositionOps.id new) (executed new)))
        by (apply map_Forall_insert_2; [done | apply Hc]).
      destruct (Hall k lp Hk) as (_ & ? & ?). by apply typed_sound.
    + specialize (Hcap (start d)). rewrite held_after in *. unfold PositionOps.holds at 1. by rewrite Er, Ep.
Qed.

Lemma balance_outside a s s' : outside s' = outside s -> Vcb.balance a s' = Vcb.balance a s.
Proof.
  intros Hu. unfold Vcb.balance. cbn.
  by rewrite (f_equal value_balances Hu : value_balances s' = value_balances s).
Qed.

(** An execution within the ledger's surplus. *)
Lemma execution_spec new context s lp' s' :
  consistent s -> Vcb.balances_typed s ->
  (forall prev, positions s !! PositionOps.id new = Some prev ->
     phi new = phi prev /\ PositionOps.typed new
     /\ forall a, PositionOps.holds new a - PositionOps.holds prev a <= surplus a s) ->
  position_execution new context s = (Ok lp', s') ->
  exists prev, positions s !! PositionOps.id new = Some prev
    /\ ((prev = new /\ lp' = new /\ s' = s)
        \/ (state prev = PositionState.Opened /\ state new = PositionState.Opened
            /\ lp' = executed new /\ consistent s'
            /\ positions s' = after (positions s) (PositionOps.id new) (executed new)
            /\ pending_position_closures s' = pending_position_closures s
            /\ Vcb.balances_typed s'
            /\ forall a, surplus a s' = surplus a s
                 - (PositionOps.holds new a - PositionOps.holds prev a))).
Proof.
  intros Hc Ht Hpre Hr. pose proof Hr as (prev & Hprev & _)%fetch_ok.
  destruct (Hpre _ Hprev) as (Hphi & Hty & Hcap).
  apply execution_wide in Hr as (prev' & Hprev' & Hr); [|done|naive_solver|].
  - simplify_eq. exists prev'. split; [done|].
    destruct Hr as [Hsame|(Ho & Ho' & -> & Hc' & Hp' & Hu')]; [by left|right].
    split_and!; try done.
    + exact (f_equal pending_position_closures Hu').
    + intros a. rewrite (balance_outside _ _ _ Hu'). apply Ht.
    + intros a. unfold surplus. rewrite (balance_outside _ _ _ Hu'), Hp', held_after, Hprev'.
      cbn [from_option]. destruct (executed_same new) as (Er & Ep & _).
      unfold PositionOps.holds at 1. rewrite Er, Ep. fold (PositionOps.holds new a). lia.
  - intros a. specialize (Hcap a). specialize (Ht a). unfold surplus, in_width in *.
    rewrite held_after, Hprev. cbn [from_option]. lia.
Qed.

(** ** Closing always succeeds *)

Lemma inner_total id d x y s :
  exists s', LiquidityIndex.update_asset_by_base_liquidity_index_inner id d x y s = (Ok tt, s')
    /\ num_positions s' = num_positions s.
Proof.
  unfold LiquidityIndex.update_asset_by_base_liquidity_index_inner, bind, gets, modify.
  case_match; by eexists.
Qed.

Lemma price_key_total d f id :
  Bare.wf f -> exists k, @StateKey.price_index_key string d f id = Ok k.
Proof.
  intros Hf. unfold StateKey.price_index_key, Bare.effective_price_key_bytes.
  rewrite Bare.effective_price_eq by done. by eexists.
Qed.

Lemma deindex_total lp id s :
  Typed.wf (phi lp) ->
  exists s', InventoryIndex.deindex_position_by_inventory lp id s = (Ok tt, s')
    /\ num_positions s' = num_positions s.
Proof.
  intros [_ Hne]. unfold InventoryIndex.deindex_position_by_inventory, bind, lift, modify.
  change (start (pair_ab lp)) with (asset_1 (pair (phi lp))).
  change (start (pair_ba lp)) with (asset_2 (pair (phi lp))).
  rewrite PositionOps.reserves_for_start, PositionOps.reserves_for_end by done. by eexists.
Qed.

Lemma price_deindex_total lp id s :
  Typed.wf (phi lp) -> exists s', PriceIndex.deindex_position_by_price lp id s = (Ok tt, s').
Proof.
  intros [Hwf _]. unfold PriceIndex.deindex_position_by_price, bind, lift, modify.
  destruct (price_key_total (pair_ab lp) _ id Hwf) as [k1 ->].
  destruct (price_key_total (pair_ba lp) _ id (Bare.wf_flip _ Hwf)) as [k2 ->]. by eexists.
Qed.

Lemma inventory_index_total lp id s :
  Typed.wf (phi lp) ->
  exists s', InventoryIndex.index_position_by_inventory lp id s = (Ok tt, s').
Proof.
  intros [_ Hne]. unfold InventoryIndex.index_position_by_inventory, bind, lift, modify.
  change (start (pair_ab lp)) with (asset_1 (pair (phi lp))).
  change (start (pair_ba lp)) with (asset_2 (pair (phi lp))).
  rewrite PositionOps.reserves_for_start, PositionOps.reserves_for_end by done. by eexists.
Qed.

Lemma price_index_total lp id s :
  Typed.wf (phi lp) -> exists s', PriceIndex.index_position_by_price lp id s = (Ok tt, s').
Proof.
  intros [Hwf _]. unfold PriceIndex.index_position_by_price, when, bind, lift, modify.
  destruct (price_key_total (pair_ab lp) _ id Hwf) as [k1 H1].
  destruct (price_key_total (pair_ba lp) _ id (Bare.wf_flip _ Hwf)) as [k2 H2].
  unfold ret. destruct (negb (r2 (reserves lp) =? 0)), (negb (r1 (reserves lp) =? 0));
    rewrite ?H1, ?H2; by eexists.
Qed.

Lemma opened_count_pos s id lp :
  consistent s -> positions s !! id = Some lp -> state lp = PositionState.Opened ->
  1 <= default 0 (num_positions s !! pair (phi lp)).
Proof.
  intros Hc Hl Ho. rewrite (consistent_counter _ Hc (pair (phi lp))).
  transitivity (CounterFacts.opened_on (pair (phi lp)) lp).
  - unfold CounterFacts.opened_on. by rewrite decide_True.
  - apply (map_sum_lookup_le _ _ id); [|done]. intros k v _. unfold CounterFacts.opened_on.
    case_decide; lia.
Qed.

(** A write that leaves the position not opened cannot fail once its transition is allowed. *)
Lemma update_total id lp new s :
  consistent s -> positions s !! id = Some lp -> sound_position id new -> phi new = phi lp ->
  guard_invalid_transitions (Some lp) new id = Ok tt -> state new <> PositionState.Opened ->
  exists s', update_position id (Some lp) new s = (Ok new, s').
Proof.
  intros Hc Hl Hnew Hphi Hg Hno.
  destruct (consistent_positions _ Hc id lp Hl) as (_ & Hty & Hwf).
  pose proof Hnew as (_ & Hty' & Hwf').
  assert (Hop : PositionState.is_opened (state new) = false) by (by destruct (state new)).
  unfold update_position. rewrite Hg, bind_lift_ok.
  destruct (deindex_total lp id s Hwf) as (s1 & Hs1 & Hn1).
  erewrite bind_run_ok by (unfold InventoryIndex.update_position_by_inventory_index;
    erewrite bind_run_ok by exact Hs1; rewrite Hop; reflexivity).
  assert (exists s2, LiquidityIndex.update_asset_by_base_liquidity_index id (Some lp) new s1
    = (Ok tt, s2) /\ num_positions s2 = num_positions s1) as (s2 & Hs2 & Hn2).
  { unfold LiquidityIndex.update_asset_by_base_liquidity_index.
    rewrite (LiquidityFacts.contributions_ok lp), (LiquidityFacts.contributions_ok new)
      by (done || (by unfold pair_ab; rewrite Hphi) || by apply typed_sound).
    rewrite !bind_lift_ok. case_match; [by eexists|].
    destruct (inner_total id (pair_ab new) (LiquidityFacts.contribution (pair_ab new) lp)
      (LiquidityFacts.contribution (pair_ab new) new) s1) as (sa & Ha & Hna).
    erewrite bind_run_ok by exact Ha.
    destruct (inner_total id (Pair.flip (pair_ab new))
      (LiquidityFacts.contribution (Pair.flip (pair_ab new)) lp)
      (LiquidityFacts.contribution (Pair.flip (pair_ab new)) new) sa) as (sb & Hb & Hnb).
    exists sb. split; [done | congruence]. }
  erewrite bind_run_ok by exact Hs2.
  assert (exists s3, Counter.update_trading_pair_position_counter (Some lp) new s2 = (Ok tt, s3))
    as [s3 Hs3].
  { unfold Counter.update_trading_pair_position_counter, Counter.decrement_position_counter.
    cbn [fmap option_fmap option_map]. rewrite Hphi.
    destruct (state lp) eqn:Ho, (state new); try by eexists.
    pose proof (opened_count_pos s id lp Hc Hl Ho).
    unfold bind, gets, modify, DexRead.get_position_count, checked_sub. rewrite Hn2, Hn1.
    destruct (Z.leb_spec 1 (default 0 (num_positions s !! pair (phi lp)))); [by eexists | lia]. }
  erewrite bind_run_ok by exact Hs3.
  destruct (price_deindex_total lp id s3 Hwf) as [s4 Hs4].
  erewrite bind_run_ok by (unfold PriceIndex.update_position_by_price_index;
    erewrite bind_run_ok by exact Hs4; rewrite Hop; reflexivity).
  erewrite bind_run_ok by (unfold VolumeTracker.update_volume_index;
    case_match; [|rewrite Hop]; reflexivity).
  by eexists.
Qed.

Lemma update_close_total id lp s :
  consistent s -> positions s !! id = Some lp -> state lp = PositionState.Opened ->
  exists s', update_position id (Some lp) (PositionOps.with_state PositionState.Closed lp) s
    = (Ok (PositionOps.with_state PositionState.Closed lp), s').
Proof.
  intros Hc Hl Ho. apply update_total; try done.
  - by apply sound_with_state, (consistent_positions _ Hc id).
  - unfold guard_invalid_transitions. by rewrite Ho.
Qed.

Lemma close_total id lp s :
  consistent s -> positions s !! id = Some lp ->
  state lp = PositionState.Opened \/ state lp = PositionState.Closed ->
  exists s', close_position_by_id id s = (Ok tt, s').
Proof.
  intros Hc Hl Hst. unfold close_position_by_id, DexRead.position_by_id.
  unfold bind at 1, gets. rewrite Hl. cbn [ok_or]. rewrite bind_lift_ok.
  destruct Hst as [Ho|Ho]; rewrite Ho; [|by eexists].
  destruct (update_close_total id lp s Hc Hl Ho) as [s' Hu].
  cbn [PositionState.is_opened PositionState.is_closed orb].
  erewrite bind_run_ok by reflexivity. erewrite bind_run_ok by exact Hu. by eexists.
Qed.
End Facts.
