(* ===== verification/OpeningFacts.v ===== *)
(** * Opening positions always succeeds

    [open_position] cannot fail for a well-formed fresh position when the ledger and the counter of
    its pair have room; and the operations the other components call leave the settings of the DEX
    (its parameters, the epoch, the height and the swap flows of the block) alone. *)

From S2P Require Import Prelude.
From S2P Require Import Num.
From S2P Require Import Asset.
From S2P Require Import TradingFunction.
From S2P Require Import Position.
From S2P Require Import Vcb.
From S2P Require Import DexState.
From S2P Require Import Indexes.
From S2P Require Import IndexFacts.
From S2P Require Import PositionManager.
From S2P Require Import PositionFacts.

Section Opening.
Context `{DexEnv}.
Import PositionManager.

(** ** Settings *)

Definition settings (s : DexState) := (dex_params s, current_epoch s, block_height s, swap_flows s).

Lemma unindexed_settings s s' : unindexed s' = unindexed s -> settings s' = settings s.
Proof. intros Hu. exact (f_equal settings Hu). Qed.

Lemma update_settings id prev new s lp s' :
  update_position id prev new s = (Ok lp, s') -> settings s' = settings s.
Proof. intros Hu. by apply update_position_frame, unindexed_settings in Hu. Qed.

Lemma close_settings id s u s' : close_position_by_id id s = (Ok u, s') -> settings s' = settings s.
Proof.
  intros Hr. apply fetch_ok in Hr as (lp & _ & Hr).
  apply bind_ok in Hr as (u1 & s1 & [_ ->]%ensure_ok & Hr).
  case_match; [by inv_comp|]. cbv zeta in Hr. inv_comp.
  match goal with Hx : update_position _ _ _ _ = _ |- _ => exact (update_settings _ _ _ _ _ _ Hx) end.
Qed.

Lemma withdraw_settings id n s b s' : withdraw_position id n s = (Ok b, s') -> settings s' = settings s.
Proof.
  intros Hr. apply fetch_ok in Hr as (lp & _ & Hr). inv_comp. cbv zeta in Hr. inv_comp.
  repeat match goal with
  | Hx : Vcb.dex_vcb_debit _ _ = _ |- _ => apply debit_frame in Hx as (? & ? & ->)
  | Hx : update_position _ _ _ _ = _ |- _ => apply update_settings in Hx
  end. done.
Qed.

Lemma open_settings lp s u s' : open_position lp s = (Ok u, s') -> settings s' = settings s.
Proof.
  unfold open_position. intros Hr. case_match; [by inv_comp|].
  apply bind_ok in Hr as (o & s0 & [-> ->]%gets_ok & Hr). case_match; [by inv_comp|].
  unfold DexRead.routing_params, DexRead.get_dex_params in Hr. inv_comp.
  repeat match goal with
  | Hx : Vcb.dex_vcb_credit _ _ = _ |- _ => apply credit_frame in Hx as (? & ? & ->)
  | Hx : DexWrite.add_recently_accessed_asset _ _ _ = _ |- _ => apply recent_frame in Hx as (? & ->)
  | Hx : DexWrite.mark_trading_pair_as_active _ _ = _ |- _ => apply active_frame in Hx as (? & ->)
  | Hx : update_position _ _ _ _ = _ |- _ => apply update_settings in Hx
  end. done.
Qed.

Lemma reward_settings id reward s u s' : reward_position id reward s = (Ok u, s') -> settings s' = settings s.
Proof.
  intros Hr. apply fetch_ok in Hr as (lp & _ & Hr). cbv zeta in Hr. destruct (reserves lp) as [x y].
  repeat case_match; inv_comp; try done; cbv zeta in *; inv_comp;
    repeat match goal with
    | Hx : Vcb.dex_vcb_credit _ _ = _ |- _ => apply credit_frame in Hx as (? & ? & ->)
    | Hx : update_position _ _ _ _ = _ |- _ => apply update_settings in Hx
    end; done.
Qed.

(** ** Totality *)

Lemma credit_fits v (s : DexState) :
  Vcb.balance (value_asset v) s + amount v < 2 ^ 128 ->
  exists s', Vcb.dex_vcb_credit v s = (Ok tt, s').
Proof. intros Hv. eexists. apply Vcb.credit_spec. done. Qed.

Lemma recent_total a fixed s :
  exists v, DexWrite.add_recently_accessed_asset a fixed s = (Ok tt, set_recently_accessed_assets v s).
Proof.
  unfold DexWrite.add_recently_accessed_asset. rewrite bind_gets.
  repeat case_match; [exists (recently_accessed_assets s)..|by eexists]; by destruct s.
Qed.

Lemma active_total tp s :
  exists v, DexWrite.mark_trading_pair_as_active tp s = (Ok tt, set_active_trading_pairs v s).
Proof.
  unfold DexWrite.mark_trading_pair_as_active. rewrite bind_gets.
  case_match; [exists (active_trading_pairs s); by destruct s|by eexists].
Qed.

(** The counter of a pair counts positions. *)
Lemma count_le_size s tp : consistent s -> default 0 (num_positions s !! tp) <= Z.of_nat (size (positions s)).
Proof.
  intros Hc. rewrite (consistent_counter _ Hc tp). generalize (positions s) as m. clear.
  induction m as [|i lp m Hi IH] using map_ind.
  - rewrite map_sum_empty. lia.
  - rewrite map_sum_insert_fresh, map_size_insert_None by done.
    assert (CounterFacts.opened_on tp lp <= 1); [|lia].
    unfold CounterFacts.opened_on. case_decide; [destruct (state lp)|]; cbn; lia.
Qed.

Lemma update_open_total id lp s :
  state lp = PositionState.Opened -> PositionOps.typed lp -> Typed.wf (phi lp) ->
  default 0 (num_positions s !! pair (phi lp)) + 1 < 2 ^ 32 ->
  exists s', update_position id None lp s = (Ok lp, s').
Proof.
  intros Ho Hty Hwf Hn. unfold update_position, guard_invalid_transitions. rewrite Ho.
  cbn [PositionState.is_opened guard_or]. rewrite bind_lift_ok.
  unfold InventoryIndex.update_position_by_inventory_index.
  destruct (inventory_index_total lp id s Hwf) as [s1 H1].
  destruct (InventoryFacts.inventory_index_spec lp id s tt s1 H1) as (m1 & -> & _). set (s1 := set_inventory_index m1 s) in *.
  erewrite bind_run_ok; [|erewrite bind_run_ok by reflexivity; rewrite Ho; exact H1].
  assert (exists s2, LiquidityIndex.update_asset_by_base_liquidity_index id None lp s1 = (Ok tt, s2)
    /\ num_positions s2 = num_positions s1) as (s2 & H2 & Hn2).
  { unfold LiquidityIndex.update_asset_by_base_liquidity_index.
    rewrite (LiquidityFacts.contributions_ok lp) by (done || by apply typed_sound).
    cbn [LiquidityIndex.contributions].
    rewrite !bind_lift_ok.
    case_match; [by eexists|].
    destruct (inner_total id (pair_ab lp) 0 (LiquidityFacts.contribution (pair_ab lp) lp) s1) as (sa & Ha & Hna).
    destruct (inner_total id (Pair.flip (pair_ab lp)) 0
      (LiquidityFacts.contribution (Pair.flip (pair_ab lp)) lp) sa) as (sb & Hb & Hnb).
    exists sb. erewrite bind_run_ok by exact Ha. split; [exact Hb|congruence]. }
  erewrite bind_run_ok by exact H2.
  assert (exists s3, Counter.update_trading_pair_position_counter None lp s2 = (Ok tt, s3)) as [s3 H3].
  { unfold Counter.update_trading_pair_position_counter, Counter.increment_position_counter. rewrite Ho.
    cbn [fmap option_fmap option_map]. eexists.
    erewrite bind_run_ok; [reflexivity|]. rewrite bind_gets. unfold DexRead.get_position_count. rewrite Hn2.
    change (num_positions s1) with (num_positions s).
    rewrite (proj2 (checked_add_some 32 _ 1 _) (conj eq_refl Hn)). reflexivity. }
  erewrite bind_run_ok by exact H3. unfold PriceIndex.update_position_by_price_index.
  destruct (price_index_total lp id s3 Hwf) as [s4 H4].
  erewrite bind_run_ok; [|erewrite bind_run_ok by reflexivity; rewrite Ho; exact H4].
  unfold VolumeTracker.update_volume_index.
  erewrite bind_run_ok; [|case_match; reflexivity]. by eexists.
Qed.

(** Opening a fresh, well-formed position. *)
Lemma open_total lp s params :
  consistent s -> Vcb.balances_typed s -> dex_params s = Some params ->
  state lp = PositionState.Opened -> PositionOps.typed lp -> Typed.wf (phi lp) ->
  positions s !! PositionOps.id lp = None ->
  (forall a, Vcb.balance a s + PositionOps.holds lp a < 2 ^ 128) ->
  Z.of_nat (size (positions s)) + 1 < 2 ^ 32 ->
  exists s', open_position lp s = (Ok tt, s').
Proof.
  intros Hc Ht Hp Ho Hty Hwf Hn Hroom Hsize. unfold open_position. rewrite Ho. cbn [PositionState.is_opened negb].
  rewrite bind_gets. unfold DexRead.position_by_id. rewrite Hn.
  pose proof (typed_reserves lp Hty) as [Hr1 Hr2].
  assert (Hne : asset_1 (pair (phi lp)) <> asset_2 (pair (phi lp))) by apply Hwf.
  pose proof (Hroom (asset_1 (pair (phi lp)))) as Hroom1. pose proof (Hroom (asset_2 (pair (phi lp)))) as Hroom2.
  unfold PositionOps.holds, ReservesOps.holds in Hroom1, Hroom2.
  rewrite decide_True, decide_False in Hroom1 by done. rewrite decide_False, decide_True in Hroom2 by done.
  destruct (credit_fits (PositionOps.reserves_1 lp) s) as [s1 H1]; [cbn [value_asset amount PositionOps.reserves_1]; lia|].
  erewrite bind_run_ok by exact H1.
  destruct (credit_fits (PositionOps.reserves_2 lp) s1) as [s2 H2].
  { rewrite (Vcb.credit_balance _ _ _ _ _ H1). unfold Typed.carries.
    cbn [value_asset amount PositionOps.reserves_1 PositionOps.reserves_2]. rewrite decide_False by done. lia. }
  erewrite bind_run_ok by exact H2.
  destruct (credits_spec _ _ _ _ _ _ _ H1 H2 Hr1 Hr2 Ht) as (Hi & _).
  apply credit_frame in H1 as (? & ? & ->), H2 as (? & ? & ->).
  unfold DexRead.routing_params, DexRead.get_dex_params.
  match goal with |- context [bind (bind (bind (gets dex_params) _) _) _ ?x] => set (s3 := x) end.
  erewrite (bind_run_ok _ _ s3);
    [|erewrite bind_run_ok by (rewrite bind_gets; change (dex_params s3) with (dex_params s); rewrite Hp; reflexivity); reflexivity].
  destruct (recent_total (asset_1 (pair (phi lp))) (routing_candidates (DexRead.routing_params_of params)) s3) as [v1 E1].
  erewrite bind_run_ok by exact E1.
  destruct (recent_total (asset_2 (pair (phi lp))) (routing_candidates (DexRead.routing_params_of params))
    (set_recently_accessed_assets v1 s3)) as [v2 E2].
  erewrite bind_run_ok by exact E2.
  match type of E2 with _ = (_, ?x) => destruct (active_total (pair (phi lp)) x) as [v3 E3] end.
  erewrite bind_run_ok by exact E3. rewrite bind_modify.
  match goal with |- context [bind (update_position ?i None lp) _ ?x] =>
    set (s4 := x); destruct (update_open_total i lp s4) as [s5 H5]; [done..| |] end.
  { change (num_positions s4) with (num_positions s). pose proof (count_le_size s (pair (phi lp)) Hc). lia. }
  erewrite bind_run_ok by exact H5. by eexists.
Qed.
End Opening.
