(* ===== verification/DexMachine.v ===== *)
(** * The invariant of the DEX's position ledger

    A block of the DEX has two phases: actions are delivered (open, queue for closing, withdraw,
    swap inflows, rewards), then [end_block] trades against the positions, evicts the excess and
    closes the queue (component/dex.rs).  [invariant] says what holds in each: the indexes agree
    with the positions, the ledger covers them, queued positions can be closed, and while actions
    are delivered the ledger also holds what the swaps have paid in.  The handlers ([delivers]), the
    eviction and the closing keep it; the trades of [end_block] follow in [BlockMachine]. *)

From S2P Require Import Prelude.
From S2P Require Import Num.
From S2P Require Import Asset.
From S2P Require Import TradingFunction.
From S2P Require Import Position.
From S2P Require Import Vcb.
From S2P Require Import DexState.
From S2P Require Import Indexes.
From S2P Require Import IndexFacts.
From S2P Require Import PositionManager.
From S2P Require Import PositionFacts.
From S2P Require Import OpeningFacts.

(** ** What the swappers of a block are owed *)

Lemma carries_amount x a b : Typed.carries (mkValue x a) b = if decide (a = b) then x else 0.
Proof. unfold Typed.carries. cbn. repeat case_decide; congruence. Qed.

(** What the two sides of a pair carry of an asset. *)
Definition batch_out (tp : TradingPair) (o1 o2 : Z) (c : asset_id) : Z :=
  Typed.carries (mkValue o1 (asset_1 tp)) c + Typed.carries (mkValue o2 (asset_2 tp)) c.


Definition owed_list (c : asset_id) (l : list (TradingPair * (Z * Z))) : Z :=
  list_sum ((fun e => batch_out e.1 e.2.1 e.2.2 c) <$> l).
Definition owed (c : asset_id) (flows : gmap TradingPair (Z * Z)) : Z := owed_list c (map_to_list flows).

Definition flow_nonneg (f : Z * Z) : Prop := 0 <= f.1 /\ 0 <= f.2.

Lemma batch_out_nonneg tp x y c : 0 <= x -> 0 <= y -> 0 <= batch_out tp x y c.
Proof. intros Hx Hy. unfold batch_out. rewrite !carries_amount. repeat case_decide; lia. Qed.

Lemma batch_out_add tp x y x' y' c : batch_out tp (x + x') (y + y') c = batch_out tp x y c + batch_out tp x' y' c.
Proof. unfold batch_out. rewrite !carries_amount. repeat case_decide; lia. Qed.

Lemma batch_out_sides tp x y : 0 <= x -> 0 <= y ->
  x <= batch_out tp x y (asset_1 tp) /\ y <= batch_out tp x y (asset_2 tp).
Proof. intros Hx Hy. unfold batch_out. rewrite !carries_amount. repeat case_decide; try congruence; lia. Qed.

Lemma owed_perm c l l' : l ≡ₚ l' -> owed_list c l = owed_list c l'.
Proof. unfold owed_list, list_sum. induction 1; rewrite ?fmap_cons; cbn in *; lia. Qed.

Lemma owed_insert_fresh c m tp f : m !! tp = None -> owed c (<[tp := f]> m) = batch_out tp f.1 f.2 c + owed c m.
Proof. intros Hm. unfold owed. by rewrite (owed_perm c _ _ (map_to_list_insert _ _ _ Hm)). Qed.

Lemma owed_insert c m tp f :
  owed c (<[tp := f]> m) = owed c m + batch_out tp f.1 f.2 c
    - from_option (fun f => batch_out tp f.1 f.2 c) 0 (m !! tp).
Proof.
  destruct (m !! tp) as [f0|] eqn:Hm; cbn [from_option]; [|rewrite owed_insert_fresh by done; lia].
  rewrite <- (insert_delete_id m tp f0 Hm) at 2. rewrite <- insert_delete_eq, !owed_insert_fresh by apply lookup_delete_eq.
  lia.
Qed.

Lemma owed_list_elem c l e :
  Forall (fun e => flow_nonneg e.2) l -> e ∈ l -> batch_out e.1 e.2.1 e.2.2 c <= owed_list c l.
Proof.
  intros Hl He. apply list_sum_elem_le; [|by apply (list_elem_of_fmap_2 (fun e => batch_out e.1 e.2.1 e.2.2 c))].
  apply Forall_fmap. eapply Forall_impl; [exact Hl|]. intros [tp f] [? ?]. by apply batch_out_nonneg.
Qed.

Lemma owed_list_nonneg c l : Forall (fun e => flow_nonneg e.2) l -> 0 <= owed_list c l.
Proof.
  intros Hl. apply list_sum_nonneg, Forall_fmap. eapply Forall_impl; [exact Hl|].
  intros [tp f] [? ?]. by apply batch_out_nonneg.
Qed.

Lemma owed_sides tp f flows :
  map_Forall (fun _ => flow_nonneg) flows -> flows !! tp = Some f ->
  f.1 <= owed (asset_1 tp) flows /\ f.2 <= owed (asset_2 tp) flows.
Proof.
  intros Hall Hl. pose proof (Hall _ _ Hl) as [P1 P2]. pose proof (batch_out_sides tp f.1 f.2 P1 P2).
  assert (Hf : Forall (fun e => flow_nonneg e.2) (map_to_list flows)).
  { apply Forall_forall. intros [tp' f'] Hin%elem_of_map_to_list. by apply (Hall tp'). }
  assert (Hin : (tp, f) ∈ map_to_list flows) by (by apply elem_of_map_to_list).
  pose proof (owed_list_elem (asset_1 tp) _ _ Hf Hin). pose proof (owed_list_elem (asset_2 tp) _ _ Hf Hin).
  unfold owed. cbn in *. lia.
Qed.

(** A flow added to what its pair already has. *)
Definition flow_add (o : option (Z * Z)) (f : Z * Z) : Z * Z :=
  match o with Some g => (g.1 + f.1, g.2 + f.2) | None => f end.

Lemma owed_add c m tp f :
  owed c (<[tp := flow_add (m !! tp) f]> m) = owed c m + batch_out tp f.1 f.2 c.
Proof.
  rewrite owed_insert. destruct (m !! tp) as [g|]; cbn [flow_add from_option]; [|lia].
  cbn [fst snd]. rewrite batch_out_add. lia.
Qed.

Lemma nonneg_add (m : gmap TradingPair (Z * Z)) tp f :
  map_Forall (fun _ => flow_nonneg) m -> flow_nonneg f ->
  map_Forall (fun _ => flow_nonneg) (<[tp := flow_add (m !! tp) f]> m).
Proof.
  intros Hm Hf. apply map_Forall_insert_2; [|done]. destruct (m !! tp) as [g|] eqn:Hg; [|done].
  destruct (Hm _ _ Hg), Hf. unfold flow_nonneg. cbn. lia.
Qed.

Module DexMachine.
Section Machine.
Context `{DexEnv}.
Import PositionManager.

(** What is left of [end_block], with the values it has computed so far: the batches to run, the
    arbitrage, the eviction and the queue of closures. *)
Inductive job :=
| Batching (height : Z) (params : DexParameters) (fees : list (asset_id * (Z * Z)))
    (todo : list (TradingPair * (Z * Z))) (bsods : gmap TradingPair BatchSwapOutputData)
| Arbitraging (height : Z) (params : DexParameters)
| Evicting
| Closing
| Done.

Inductive phase := Delivering | Ending (work : job).

Definition is_ending (ph : phase) : bool := match ph with Delivering => false | Ending _ => true end.

Definition config : Type := phase * DexState.

(** The handlers that change the DEX while actions are delivered. *)
Inductive delivers : DexState -> DexState -> Prop :=
| deliver_open lp s s' :
    PositionOps.typed lp -> position_open_check_stateless lp = Ok tt ->
    position_open_check_and_execute lp s = (Ok tt, s') -> delivers s s'
| deliver_queue id s s' :
    position_close_check_and_execute id s = (Ok tt, s') -> delivers s s'
| deliver_withdraw id n b s s' :
    withdraw_position id n s = (Ok b, s') -> delivers s s'
| deliver_reward id reward s s' :
    is_u128 reward -> reward_position id reward s = (Ok tt, s') -> delivers s s'
| deliver_inflow tp flow s s' :
    is_u128 flow.1 -> is_u128 flow.2 -> DexWrite.accumulate_swap_flow tp flow s = (Ok tt, s') ->
    delivers s s'.

(** The empty DEX. *)
Definition genesis (params : DexParameters) (epoch : Epoch) : DexState :=
  mkDexState (Some params) (Some epoch) 0 ∅ ∅ ∅ ∅ ∅ ∅ ∅ ∅ ∅ [] ∅ ∅ ∅ ∅ ∅ ∅ ∅ ∅ [].

(** ** The invariant *)

Definition pending_ok (ph : phase) (s : DexState) : Prop :=
  forall id, id ∈ pending_position_closures s ->
    exists lp, positions s !! id = Some lp
      /\ (state lp = PositionState.Opened \/ (is_ending ph = true /\ state lp = PositionState.Closed)).

(** The ledger holds what the swaps of the block have paid in, on top of the positions. *)
Definition flows_covered (s : DexState) : Prop :=
  map_Forall (fun _ => flow_nonneg) (swap_flows s) /\ forall c, owed c (swap_flows s) <= surplus c s.

Definition invariant (c : config) : Prop :=
  consistent c.2 /\ solvent c.2 /\ pending_ok c.1 c.2 /\ (is_ending c.1 = false -> flows_covered c.2).

Lemma invariant_intro ph s :
  consistent s -> Vcb.balances_typed s -> (forall a, 0 <= surplus a s) -> pending_ok ph s ->
  (is_ending ph = false -> flows_covered s) -> invariant (ph, s).
Proof. done. Qed.

Lemma invariant_ending j j' s : invariant (Ending j, s) -> invariant (Ending j', s).
Proof. done. Qed.

Lemma invariant_consistent ph s : invariant (ph, s) -> consistent s.
Proof. by intros (? & _). Qed.

Lemma invariant_solvent ph s : invariant (ph, s) -> solvent s.
Proof. by intros (_ & ? & _). Qed.

Lemma covered_frame s s' :
  flows_covered s -> swap_flows s' = swap_flows s -> (forall a, surplus a s' = surplus a s) -> flows_covered s'.
Proof. intros [Hn Ho] Hf Hs. split; [by rewrite Hf|]. intros c. by rewrite Hf, Hs. Qed.

Lemma covered_settings s s' :
  flows_covered s -> settings s' = settings s -> (forall a, surplus a s' = surplus a s) -> flows_covered s'.
Proof. intros Hc Hs. apply (covered_frame s s' Hc). unfold settings in Hs. congruence. Qed.

Lemma invariant_genesis params epoch : invariant (Delivering, genesis params epoch).
Proof.
  split; [|split; [|split]].
  - split; cbn.
    + apply map_Forall_empty.
    + apply PriceIndexFacts.price_exact_empty.
    + apply InventoryFacts.inventory_exact_empty.
    + apply CounterFacts.counter_exact_empty.
    + apply LiquidityFacts.liquidity_exact_empty.
    + apply VolumeFacts.volume_exact_empty.
  - split; intros a; by_computation.
  - intros id Hid. cbn in Hid. set_solver.
  - intros _. split; [apply map_Forall_empty|]. intros c. by_computation.
Qed.

(** The states of the positions after a write. *)
Lemma pending_after ph ph' s s' id new :
  pending_ok ph s -> positions s' = after (positions s) id new ->
  pending_position_closures s' = pending_position_closures s ->
  (is_ending ph = true -> is_ending ph' = true) ->
  (id ∈ pending_position_closures s ->
     state new = PositionState.Opened \/ (is_ending ph' = true /\ state new = PositionState.Closed)) ->
  pending_ok ph' s'.
Proof.
  intros Hp Hpos Hq Hph Hnew i Hi. rewrite Hq in Hi. rewrite Hpos.
  destruct (decide (id = i)) as [->|Hne].
  - exists new. rewrite lookup_insert_eq. auto.
  - rewrite lookup_insert_ne by done. destruct (Hp i Hi) as (lp & ? & [|[]]); eauto 6.
Qed.

Lemma pending_frame ph ph' s s' :
  pending_ok ph s -> positions s' = positions s ->
  pending_position_closures s' = pending_position_closures s ->
  (is_ending ph = true -> is_ending ph' = true) -> pending_ok ph' s'.
Proof.
  intros Hp Hpos Hq Hph i Hi. rewrite Hq in Hi. rewrite Hpos.
  destruct (Hp i Hi) as (lp & ? & [|[]]); eauto 6.
Qed.

Lemma solvent_surplus s s' :
  solvent s -> Vcb.balances_typed s' -> (forall a, surplus a s' = surplus a s) -> solvent s'.
Proof. intros [_ Hs] Ht Heq. split; [done|]. intros a. by rewrite Heq. Qed.

Lemma queue_ok id s u s' :
  queue_close_position id s = (Ok u, s') ->
  exists lp, positions s !! id = Some lp
    /\ ((state lp = PositionState.Opened
         /\ s' = record_event (EventQueuePositionClose id)
                   (set_pending_position_closures (pending_position_closures s ++ [id]) s))
        \/ (state lp <> PositionState.Opened /\ s' = s)).
Proof.
  intros Hr. apply fetch_ok in Hr as (lp & Hl & Hr). exists lp. split; [done|].
  destruct (state lp); cbn in Hr; inv_comp; naive_solver.
Qed.

(** What a run of closes does to a position. *)
Definition kept (lp lp' : Position) : Prop :=
  lp' = lp \/ (state lp = PositionState.Opened
              /\ lp' = PositionOps.with_state PositionState.Closed lp).

Lemma kept_trans x y z : kept x y -> kept y z -> kept x z.
Proof. unfold kept. intros [->|[H1 ->]] [->|[H2 ->]]; auto. Qed.

Lemma kept_closed x y : kept x y -> state x = PositionState.Closed -> state y = PositionState.Closed.
Proof. unfold kept. intros [->|[H1 ->]]; congruence. Qed.

(** Closing, as one step of the invariant of the ending phase. *)
Lemma close_invariant j id s u s' :
  invariant (Ending j, s) -> close_position_by_id id s = (Ok u, s') ->
  invariant (Ending j, s') /\ pending_position_closures s' = pending_position_closures s
  /\ dom (positions s') = dom (positions s)
  /\ (exists lp, positions s' !! id = Some lp /\ state lp = PositionState.Closed)
  /\ (forall i lp, positions s !! i = Some lp -> exists lp', positions s' !! i = Some lp'
        /\ kept lp lp').
Proof.
  intros (Hc & Hs & Hp & _) Hr. cbn in Hc, Hs, Hp.
  apply close_spec in Hr as (lp & Hl & [[Hst ->]|(Hst & s1 & Hw & ->)]); [| |done..].
  - split; [done|]. split_and!; [done|done|eauto|]. unfold kept. eauto.
  - pose proof Hw as (Hc' & Hpos & Hu & _).
    assert (Hsur : forall a, surplus a (record_event (EventPositionClose id) s1) = surplus a s).
    { intros a. change (surplus a s1 = surplus a s).
      rewrite (written_surplus _ _ _ _ a Hw), Hl, holds_with_state. cbn [from_option]. lia. }
    split_and!.
    + apply invariant_intro.
      * by eapply consistent_frame; [|exact Hc'].
      * intros a. change (is_u128 (Vcb.balance a s1)). eapply written_balances; [exact Hw | apply Hs].
      * intros a. rewrite Hsur. apply Hs.
      * eapply (pending_after (Ending j) (Ending j) s); [done|exact Hpos| |done|by right].
        exact (unindexed_pending _ _ Hu).
      * done.
    + exact (unindexed_pending _ _ Hu).
    + cbn. rewrite Hpos, dom_insert_L. apply elem_of_dom_2 in Hl. set_solver.
    + eexists. split; [cbn; rewrite Hpos; apply lookup_insert_eq | done].
    + intros i lq Hq. cbn. rewrite Hpos, lookup_insert. unfold kept.
      case_decide; [subst i; simplify_eq|]; eauto.
Qed.

Definition closable (s : DexState) (id : position_id) : Prop :=
  exists lp, positions s !! id = Some lp
    /\ (state lp = PositionState.Opened \/ state lp = PositionState.Closed).

(** A loop of closes over closable ids runs to its end and closes them all. *)
Lemma close_all j ids s :
  invariant (Ending j, s) -> Forall (closable s) ids ->
  exists s', for_each ids close_position_by_id s = (Ok tt, s')
    /\ invariant (Ending j, s') /\ pending_position_closures s' = pending_position_closures s
    /\ dom (positions s') = dom (positions s)
    /\ (forall i lp, positions s !! i = Some lp -> exists lp', positions s' !! i = Some lp'
          /\ kept lp lp')
    /\ Forall (fun id => exists lp, positions s' !! id = Some lp /\ state lp = PositionState.Closed) ids.
Proof.
  revert s. induction ids as [|id ids IH]; intros s Hinv Hall; cbn [for_each].
  { exists s. unfold kept. split_and!; eauto. }
  apply Forall_cons in Hall as [(lp & Hl & Hst) Hall].
  destruct (close_total id lp s (proj1 Hinv) Hl Hst) as [s1 H1].
  destruct (close_invariant _ _ _ _ _ Hinv H1) as (Hinv1 & Hq1 & Hd1 & Hcl1 & Hk1).
  destruct (IH s1 Hinv1) as (s' & Hr & Hinv' & Hq' & Hd' & Hk' & Hcl').
  { eapply Forall_impl; [exact Hall|]. intros i (lq & Hq & Hsq).
    destruct (Hk1 i lq Hq) as (lq' & Hlq' & [->|[_ ->]]); eexists; eauto. }
  exists s'. split_and!; try done.
  - by rewrite (bind_run_ok _ _ _ _ _ H1).
  - congruence.
  - congruence.
  - intros i lq Hq. destruct (Hk1 i lq Hq) as (l1 & Hl1 & Hd). destruct (Hk' i l1 Hl1) as (l2 & Hl2 & He).
    exists l2. eauto using kept_trans.
  - apply Forall_cons. split; [|done]. destruct Hcl1 as (l1 & Hl1 & Hs1).
    destruct (Hk' id l1 Hl1) as (l2 & Hl2 & Hk2). eauto using kept_closed.
Qed.

(** ** Eviction *)

Lemma elem_of_positions_by_inventory d s id :
  consistent s -> id ∈ InventoryIndex.positions_by_inventory d s ->
  exists lp v, positions s !! id = Some lp /\ state lp = PositionState.Opened
    /\ InventoryFacts.stocked lp d v.
Proof.
  intros Hc. unfold InventoryIndex.positions_by_inventory. rewrite list_elem_of_fmap.
  intros ([v i] & -> & Hin). rewrite merge_sort_Permutation in Hin.
  apply list_elem_of_omap in Hin as ([[d' v'] i'] & Hin & Heq). case_decide; simplify_eq.
  apply elem_of_elements, (consistent_inventory _ Hc) in Hin as (lp & ? & ? & ?). eauto.
Qed.

Lemma eviction_overlap_closable tp n s :
  consistent s -> Forall (closable s) (eviction_overlap tp n s).
Proof.
  intros Hc. apply Forall_forall. intros id Hin. unfold eviction_overlap in Hin.
  rewrite merge_sort_Permutation, elem_of_elements, elem_of_intersection, !elem_of_list_to_set in Hin.
  destruct Hin as [Hin _]. apply elem_of_take in Hin as (i & Hi & _).
  apply list_elem_of_lookup_2, elem_of_positions_by_inventory in Hi as (lp & v & ? & ? & _); [|done].
  exists lp. auto.
Qed.

Lemma evict_total j s params :
  invariant (Ending j, s) -> dex_params s = Some params ->
  exists s', evict_positions s = (Ok tt, s') /\ invariant (Ending j, s')
    /\ (forall i lp, positions s !! i = Some lp -> exists lp', positions s' !! i = Some lp'
          /\ kept lp lp').
Proof.
  intros Hinv Hp. unfold evict_positions, DexRead.get_dex_params.
  erewrite bind_run_ok by reflexivity. unfold bind at 1 2, gets. rewrite Hp. cbn [ok_or].
  unfold lift. generalize (merge_sort pair_le (elements (active_trading_pairs s))) as l.
  intros l. clear Hp. revert s Hinv. induction l as [|tp l IH]; intros s Hinv; cbn [for_each].
  { exists s. unfold kept. split_and!; eauto. }
  match goal with |- context [bind (bind _ ?body) _ s] => set (b := body) end.
  assert (exists s1, b (DexRead.get_position_count tp s) s = (Ok tt, s1) /\ invariant (Ending j, s1)
    /\ (forall i lp, positions s !! i = Some lp -> exists lp', positions s1 !! i = Some lp'
          /\ kept lp lp')) as (s1 & H1 & Hinv1 & Hk1).
  { unfold b. case_match; [exists s; unfold kept; split_and!; eauto|].
    destruct (close_all j _ s Hinv (eviction_overlap_closable tp
      (Z.to_nat (saturating_sub (DexRead.get_position_count tp s)
        (max_positions_per_pair params))) s (proj1 Hinv)))
      as (s1 & H1 & Hinv1 & _ & _ & Hk & _).
    exists s1. split_and!; [|done|done]. by erewrite bind_run_ok by reflexivity. }
  destruct (IH s1 Hinv1) as (s' & Hr & Hinv' & Hk').
  exists s'. split_and!; [|done|].
  - erewrite bind_run_ok; [exact Hr|]. by erewrite bind_run_ok by reflexivity.
  - intros i lq Hq. destruct (Hk1 i lq Hq) as (l1 & Hl1 & Hd).
    destruct (Hk' i l1 Hl1) as (l2 & Hl2 & He). eauto using kept_trans.
Qed.

Lemma close_queued_total j s :
  invariant (Ending j, s) ->
  exists s', close_queued_positions s = (Ok tt, s') /\ invariant (Ending j, s')
    /\ pending_position_closures s' = []
    /\ (forall i lp, positions s !! i = Some lp -> exists lp', positions s' !! i = Some lp'
          /\ kept lp lp')
    /\ forall id, id ∈ pending_position_closures s ->
         exists lp, positions s' !! id = Some lp /\ state lp = PositionState.Closed.
Proof.
  intros Hinv. destruct (close_all j (pending_position_closures s) s Hinv)
    as (s1 & H1 & Hinv1 & _ & _ & Hk & Hcl).
  { apply Forall_forall. intros id Hid. destruct (proj1 (proj2 (proj2 Hinv)) id Hid) as (lp & ? & Hst).
    exists lp. split; [done|]. destruct Hst as [|[]]; auto. }
  exists (set_pending_position_closures [] s1). split_and!; [| |done|exact Hk|].
  - unfold close_queued_positions. erewrite bind_run_ok by reflexivity.
    by erewrite bind_run_ok by exact H1.
  - destruct Hinv1 as (Hc & Hs & _). apply invariant_intro.
    + by eapply consistent_frame; [|exact Hc].
    + apply Hs.
    + apply Hs.
    + intros id Hid. cbn in Hid. set_solver.
    + done.
  - rewrite Forall_forall in Hcl. exact Hcl.
Qed.

(** ** Preservation *)

Lemma inflow_ok tp flow s u s' :
  is_u128 flow.1 -> is_u128 flow.2 -> Vcb.balances_typed s ->
  DexWrite.accumulate_swap_flow tp flow s = (Ok u, s') ->
  indexes s' = indexes s /\ pending_position_closures s' = pending_position_closures s
  /\ swap_flows s' = <[tp := flow_add (swap_flows s !! tp) flow]> (swap_flows s)
  /\ Vcb.balances_typed s'
  /\ forall a, surplus a s' = surplus a s + batch_out tp flow.1 flow.2 a.
Proof.
  intros H1 H2 Ht Hr. unfold DexWrite.accumulate_swap_flow in Hr. inv_comp.
  pose proof Hr0 as Hf1. pose proof Hr1 as Hf2.
  eapply credits_spec in Hr1 as (Hi & Hq & Htb & Hb); [|exact Hr0|done|done|done].
  apply credit_frame in Hf1 as (? & ? & E1), Hf2 as (? & ? & E2).
  match goal with |- context [set_swap_flows _ ?x] => assert (Hold : swap_flows x = swap_flows s) by (by rewrite E2, E1) end.
  split_and!; try done.
  - cbn [swap_flows set_swap_flows]. rewrite Hold in *. f_equal.
    destruct (swap_flows s !! tp) as [g|]; inv_outcome; [|done].
    repeat match goal with H : plain_add _ _ _ = Ok _ |- _ => apply plain_add_ok in H as [-> _] end. done.
  - intros b. unfold surplus, batch_out. rewrite <- (indexes_positions _ _ Hi).
    match goal with |- Vcb.balance b (set_swap_flows _ ?x) - _ = _ =>
      change (Vcb.balance b x - held b (positions x)
        = Vcb.balance b s - held b (positions x) + (Typed.carries (mkValue flow.1 (asset_1 tp)) b
          + Typed.carries (mkValue flow.2 (asset_2 tp)) b)) end.
    rewrite Hb. lia.
Qed.

Lemma open_ok lp s u s' :
  PositionOps.typed lp -> position_open_check_stateless lp = Ok tt ->
  position_open_check_and_execute lp s = (Ok u, s') ->
  Typed.wf (phi lp) /\ open_position lp s = (Ok u, s').
Proof.
  intros Hty Hck Hr. unfold position_open_check_stateless in Hck. inv_outcome.
  unfold position_open_check_and_execute, DexRead.get_dex_params in Hr. inv_comp.
  destruct a. by apply PositionOps.check_stateless_wf in Hck0 as [Hwf _].
Qed.

Lemma delivers_invariant s s' :
  invariant (Delivering, s) -> delivers s s' -> invariant (Delivering, s').
Proof.
  intros (Hc & Hs & Hp & Hf) Hst. cbn [fst snd] in Hc, Hs, Hp, Hf. specialize (Hf eq_refl).
  destruct Hst as [lp s s' Hty Hck Hr|id s s' Hr|id n b s s' Hr|id rw s s' Hrw Hr|tp flow s s' H1 H2 Hr].
  - destruct (open_ok _ _ _ _ Hty Hck Hr) as [Hwf Ho]. pose proof (open_settings _ _ _ _ Ho) as Hset.
    apply open_spec in Ho as (Hn & Ho & Hc' & Hpos & Hq & Ht' & Hsur); [|done..].
    apply invariant_intro; [done|done|intros; rewrite Hsur; apply Hs| |intros _; by eapply covered_settings].
    eapply pending_after; [done|exact Hpos|done|done|]. auto.
  - apply queue_ok in Hr as (lp & Hl & [[Ho ->]|[_ ->]]); [|done].
    apply invariant_intro; [by eapply consistent_frame; [|exact Hc]|apply Hs|apply Hs| |done].
    intros i Hi. cbn in Hi. apply elem_of_app in Hi as [Hi|Hi]; [by apply Hp|].
    apply list_elem_of_singleton in Hi as ->. exists lp. auto.
  - pose proof (withdraw_settings _ _ _ _ _ Hr) as Hset.
    apply withdraw_spec in Hr as (lp & Hl & Hst & _ & Hc' & Hpos & Hq & Ht' & _ & Hsur); [|done..].
    apply invariant_intro; [done|done|intros; rewrite Hsur; apply Hs| |intros _; by eapply covered_settings].
    eapply pending_after; [done|exact Hpos|done|done|]. intros Hi.
    destruct (Hp id Hi) as (lq & Hq' & [Ho|[[=] _]]). rewrite Hl in Hq'. injection Hq' as <-.
    destruct Hst as [[? _]|(? & ? & _)]; congruence.
  - pose proof (reward_settings _ _ _ _ _ Hr) as Hset.
    apply reward_spec in Hr as (lp & Hl & Hst & Hc' & Hq & Ht' & Hsur); [|done..].
    apply invariant_intro; [done|done|intros; rewrite Hsur; apply Hs| |intros _; by eapply covered_settings].
    destruct Hst as [->|(lp' & Hpos & Hst & _)]; [done|].
    eapply pending_after; [done|exact Hpos|done|done|]. intros Hi.
    destruct (Hp id Hi) as (lq & Hq' & [Ho|[[=] _]]). left. congruence.
  - assert (Hnn : flow_nonneg flow) by (unfold flow_nonneg, in_width in *; lia).
    apply inflow_ok in Hr as (Hi & Hq & Hfl & Ht' & Hsur); [|done|done|apply Hs].
    apply invariant_intro; [by eapply consistent_frame|done| |by eapply pending_frame; [|by apply indexes_positions|..]|].
    + intros a. rewrite Hsur. pose proof (proj2 Hs a).
      pose proof (batch_out_nonneg tp flow.1 flow.2 a (proj1 Hnn) (proj2 Hnn)). lia.
    + intros _. destruct Hf as [Hn Ho]. split; [rewrite Hfl; by apply nonneg_add|].
      intros c. rewrite Hfl, owed_add, Hsur. specialize (Ho c). lia.
Qed.

(** ** The life of a position *)

(** Opened, closed, then withdrawn with growing sequence numbers. *)
Definition age (st : PositionState.t) : Z :=
  match st with
  | PositionState.Opened => -2
  | PositionState.Closed => -1
  | PositionState.Withdrawn n => n
  end.

Definition older (lp lp' : Position) : Prop :=
  phi lp' = phi lp /\ age (state lp) <= age (state lp').

#[global] Instance older_preorder : PreOrder older.
Proof.
  split; [intros x; split; [done | lia] | intros x y z [H1 H2] [H3 H4]; split; [congruence | lia]].
Qed.

(** Every position of [s] is still there in [s'], as old or older. *)
Definition ages (s s' : DexState) : Prop :=
  forall i lp, positions s !! i = Some lp -> exists lp', positions s' !! i = Some lp' /\ older lp lp'.

#[global] Instance ages_preorder : PreOrder ages.
Proof.
  split; [intros s i lp Hl; exists lp; split; [done|reflexivity]|].
  intros s1 s2 s3 H1 H2 i lp Hl. destruct (H1 i lp Hl) as (l2 & Hl2 & Ho).
  destruct (H2 i l2 Hl2) as (l3 & Hl3 & Ho'). exists l3. split; [done|by etransitivity].
Qed.

Lemma kept_older lp lp' : kept lp lp' -> older lp lp'.
Proof. intros [->|[Ho ->]]; [reflexivity|]. split; [done|]. rewrite Ho. done. Qed.

Lemma kept_ages s s' :
  (forall i lp, positions s !! i = Some lp -> exists lp', positions s' !! i = Some lp' /\ kept lp lp') -> ages s s'.
Proof. intros Hk i lp Hl. destruct (Hk i lp Hl) as (l2 & Hl2 & Hk2). eauto using kept_older. Qed.

Lemma ages_after s s' id lp new :
  positions s !! id = Some lp -> positions s' = after (positions s) id new -> older lp new -> ages s s'.
Proof.
  intros Hl Hpos Ho i lq Hq. rewrite Hpos, lookup_insert. case_decide; [|exists lq; split; [done | reflexivity]].
  subst i. simplify_eq. eauto.
Qed.

Lemma ages_same s s' : positions s' = positions s -> ages s s'.
Proof. intros He i lq Hq. rewrite He. exists lq. split; [done | reflexivity]. Qed.

Lemma delivers_ages s s' : invariant (Delivering, s) -> delivers s s' -> ages s s'.
Proof.
  intros (Hc & Hs & Hp & _) Hst. cbn [fst snd] in Hc, Hs, Hp.
  destruct Hst as [lp s s' Hty Hck Hr|id s s' Hr|id n b s s' Hr|id rw s s' Hrw Hr|tp flow s s' H1 H2 Hr].
  - destruct (open_ok _ _ _ _ Hty Hck Hr) as [Hwf Ho]. apply open_spec in Ho as (Hn & Ho & Hc' & Hpos & _); [|done..].
    intros i lq Hq. exists lq. split; [|reflexivity]. rewrite Hpos, lookup_insert_ne; congruence.
  - apply queue_ok in Hr as (lp & Hl & [[Ho ->]|[_ ->]]); by apply ages_same.
  - apply withdraw_spec in Hr as (lp & Hl & Hst & _ & _ & Hpos & _); [|done..].
    eapply ages_after; [done|exact Hpos|]. split; [done|]. cbn.
    destruct Hst as [[-> ->]|(m & -> & ->)]; cbn; lia.
  - apply reward_spec in Hr as (lp & Hl & Hst & _); [|done..].
    destruct Hst as [->|(lp' & Hpos & Hst & Hphi)]; [by apply ages_same|].
    eapply ages_after; [done|exact Hpos|]. split; [done|]. by rewrite Hst.
  - apply inflow_ok in Hr as (Hi & _); [|done|done|apply Hs]. by apply ages_same, indexes_positions.
Qed.

(** ** Withdrawals are not refused *)

(** The conditions under which a withdrawal is accepted. *)
Lemma withdraw_total id lp n s :
  invariant (Delivering, s) -> positions s !! id = Some lp ->
  (state lp = PositionState.Closed /\ n = 0)
  \/ (exists m, state lp = PositionState.Withdrawn m /\ n = m + 1 /\ 0 < n < 2 ^ 64) ->
  exists b s', withdraw_position id n s = (Ok b, s').
Proof.
  intros (Hc & [Ht Hs] & _) Hl Hst. cbn in Hc, Ht, Hs.
  destruct (consistent_positions _ Hc id lp Hl) as (Hid & Hty & Hwf).
  pose proof (proj2 Hwf) as Hne. pose proof (typed_reserves lp Hty) as [H1 H2].
  assert (Hcov : forall a, PositionOps.holds lp a <= Vcb.balance a s).
  { intros a. specialize (Hs a). unfold surplus in Hs.
    enough (PositionOps.holds lp a <= held a (positions s)) by lia.
    apply (map_sum_lookup_le (fun lp => PositionOps.holds lp a) _ id); [|done].
    intros k v Hk. apply holds_nonneg, (all_sound _ (consistent_positions _ Hc) k v Hk). }
  assert (Hh1 : r1 (reserves lp) <= Vcb.balance (asset_1 (pair (phi lp))) s).
  { etransitivity; [|apply Hcov]. unfold PositionOps.holds, ReservesOps.holds.
    rewrite decide_True by done. rewrite decide_False by done. lia. }
  assert (Hh2 : r2 (reserves lp) <= Vcb.balance (asset_2 (pair (phi lp))) s).
  { etransitivity; [|apply Hcov]. unfold PositionOps.holds, ReservesOps.holds.
    rewrite decide_False by done. rewrite decide_True by done. lia. }
  assert (exists b, @ReservesOps.balance string (reserves lp) (pair (phi lp)) = Ok b) as [b Hb].
  { unfold ReservesOps.balance, Balance.add_value.
    pose proof (@Balance.add_denote string _ _
      (Balance.from_value_wf (mkValue (r1 (reserves lp)) (asset_1 (pair (phi lp)))) H1)
      (Balance.from_value_wf (mkValue (r2 (reserves lp)) (asset_2 (pair (phi lp)))) H2)) as Hadd.
    destruct (Balance.add _ _) as [b| |]; [by exists b | done |].
    destruct Hadd as [a Ha]. rewrite !Balance.from_value_denote in Ha. cbn [value_asset amount] in Ha.
    unfold PositionOps.typed, in_width in *. repeat case_decide; congruence || lia. }
  assert (check_withdraw_sequence (state lp) n = Ok tt
    /\ (exists e, @event_sequence string (state lp) = Ok e)
    /\ guard_invalid_transitions (Some lp) (withdrawn n lp) id = Ok tt) as (Hseq & [e He] & Hg).
  { unfold check_withdraw_sequence, event_sequence, guard_invalid_transitions. cbn [state withdrawn
      PositionOps.with_reserves PositionOps.with_state].
    destruct Hst as [[-> ->]|(m & -> & -> & Hn)]; [split_and!; [done|by eexists|done]|].
    rewrite plain_add_run by lia. cbn [outcome_bind]. rewrite Z.eqb_refl.
    destruct (Z.eqb_spec (m + 1) 0); [lia|]. split_and!; [done|by eexists|done]. }
  unfold withdraw_position, DexRead.position_by_id.
  erewrite bind_run_ok by reflexivity. rewrite Hl. cbn [ok_or]. rewrite bind_lift_ok.
  rewrite Hseq, bind_lift_ok, He, bind_lift_ok. erewrite bind_run_ok by reflexivity.
  rewrite Hb, bind_lift_ok.
  match goal with |- context [bind (Vcb.dex_vcb_debit _) _ ?x] => set (s0 := x) end.
  assert (Hb0 : forall a, Vcb.balance a s0 = Vcb.balance a s) by done.
  destruct (debit_total (PositionOps.reserves_1 lp) s0) as [s1 Hd1]; [by rewrite Hb0|].
  erewrite bind_run_ok by exact Hd1.
  destruct (debit_total (PositionOps.reserves_2 lp) s1) as [s2 Hd2].
  { rewrite (Vcb.debit_balance _ _ _ _ _ Hd1), Hb0. unfold Typed.carries. cbn.
    rewrite decide_False by done. cbn in Hh2. lia. }
  erewrite bind_run_ok by exact Hd2.
  destruct (debits_spec _ _ _ _ _ _ _ Hd1 Hd2 H1 H2) as (Hi & _); [intros a; rewrite Hb0; apply Ht|].
  assert (Hc2 : consistent s2) by (eapply consistent_frame; [|exact Hc]; exact Hi).
  destruct (update_total id lp (withdrawn n lp) s2) as [s' Hu]; try done.
  - by rewrite (indexes_positions _ _ Hi).
  - by apply sound_withdrawn.
  - exists b, s'. cbv zeta. by erewrite bind_run_ok by exact Hu.
Qed.
End Machine.
End DexMachine.
