(* ===== verification/Batch.v ===== *)
(** * Batch swap outputs

    Models the pro-rata split of a batch swap's outputs (crates/core/component/dex/src/
    batch_swap_output_data.rs, [pro_rata_outputs]): the swap-claim proof computes the same numbers,
    so this is what decides how much value the claims of one batch can mint. *)

From S2P Require Import Prelude.
From S2P Require Import Num.
From S2P Require Import Asset.
From S2P Require Import TradingFunction.
From S2P Require Import Position.
From S2P Require Import Vcb.
From S2P Require Import DexState.

Module BatchOutputs.
Import U128x128.

(** [.unwrap_or_default()] of a fixed-point result. *)
Definition or_default (r : outcome error Z) : outcome error Z :=
  match r with Err _ => Ok default | _ => r end.

(** One side: the shares of [lambda] and [unfilled], rounded down. *)
Definition pro_rata_side {E} (share_filled lambda share_unfilled unfilled : Z) : outcome E Z :=
  let! x := expect_ok (or_default (checked_mul share_filled lambda)) in
  let! y := expect_ok (or_default (checked_mul share_unfilled unfilled)) in
  let! total := expect_ok (or_default (checked_add x y)) in
  expect_ok (try_into_u128 (round_down total)).

Definition pro_rata_outputs {E} (bsod : BatchSwapOutputData) (delta_i : Z * Z)
  : outcome E (Z * Z) :=
  let delta_1_i := from_uint delta_i.1 in
  let delta_2_i := from_uint delta_i.2 in
  let delta_1 := from_uint (delta_1 bsod) in
  let delta_2 := from_uint (delta_2 bsod) in
  let lambda_1 := from_uint (lambda_1 bsod) in
  let lambda_2 := from_uint (lambda_2 bsod) in
  let unfilled_1 := from_uint (unfilled_1 bsod) in
  let unfilled_2 := from_uint (unfilled_2 bsod) in
  let! pro_rata_input_1 := expect_ok (or_default (checked_div delta_1_i delta_1)) in
  let! pro_rata_input_2 := expect_ok (or_default (checked_div delta_2_i delta_2)) in
  let! lambda_2_i := pro_rata_side pro_rata_input_1 lambda_2 pro_rata_input_2 unfilled_2 in
  let! lambda_1_i := pro_rata_side pro_rata_input_1 unfilled_1 pro_rata_input_2 lambda_1 in
  Ok (lambda_1_i, lambda_2_i).

(** ** The arithmetic *)

Definition typed (b : BatchSwapOutputData) : Prop :=
  is_u128 (DexState.delta_1 b) /\ is_u128 (DexState.delta_2 b)
  /\ is_u128 (DexState.lambda_1 b) /\ is_u128 (DexState.lambda_2 b)
  /\ is_u128 (DexState.unfilled_1 b) /\ is_u128 (DexState.unfilled_2 b).

(** A user's share of an input, as a fixed-point fraction. *)
Definition share (d total : Z) : Z := if total =? 0 then 0 else d * B / total.

Lemma share_bounds d total : 0 <= d <= total -> 0 <= share d total <= B.
Proof.
  intros Hd. unfold share. pose proof B_pos. destruct (Z.eqb_spec total 0); [lia|]. split.
  - apply Z.div_pos; nia.
  - apply Z.div_le_upper_bound; nia.
Qed.

Lemma share_eq {E} d total :
  is_u128 total -> 0 <= d <= total ->
  @expect_ok E error Z (or_default (checked_div (from_uint d) (from_uint total))) = Ok (share d total).
Proof.
  intros Ht Hd. pose proof B_pos. unfold in_width in Ht. fold B in Ht.
  rewrite checked_div_eq; [|rewrite from_uint_eq; nia | by apply wf_from_uint].
  rewrite !from_uint_eq. unfold share.
  destruct (Z.eqb_spec total 0) as [->|Hne]; [done|].
  destruct (Z.eqb_spec (total * B) 0); [nia|].
  rewrite Z.div_mul_cancel_r by lia.
  assert (d * B / total <= B) by (apply Z.div_le_upper_bound; nia).
  destruct (Z.ltb_spec (d * B / total) U256); [done|].
  pose proof B_lt_U256. lia.
Qed.

(** Shares of amounts: nothing overflows, the result is the rounded-down sum. *)
Lemma side_eq {E} x l y u :
  0 <= x <= B -> 0 <= y <= B -> is_u128 l -> is_u128 u -> x * l + y * u < U256 ->
  @pro_rata_side E x (from_uint l) y (from_uint u) = Ok ((x * l + y * u) / B).
Proof.
  intros Hx Hy Hl Hu Hlt. pose proof B_pos. pose proof B_lt_U256.
  assert (Hmul : forall a b, 0 <= a <= B -> is_u128 b ->
    checked_mul a (from_uint b) = Ok (a * b)).
  { intros a b Ha Hb. unfold in_width in Hb. fold B in Hb. rewrite checked_mul_eq;
      [|unfold wf; lia|by apply wf_from_uint]. rewrite from_uint_eq, Z.mul_assoc, Z.div_mul by lia.
    destruct (Z.ltb_spec (a * b) U256) as [|Hge]; [done|]. exfalso. rewrite U256_B in Hge. nia. }
  unfold pro_rata_side. rewrite !Hmul by done. cbn [or_default expect_ok outcome_bind].
  unfold checked_add, Prelude.checked_add. fold U256.
  destruct (Z.ltb_spec (x * l + y * u) U256); [|lia].
  cbn [ok_or or_default expect_ok outcome_bind]. rewrite round_down_eq, try_into_u128_from_uint. done.
Qed.

(** The shares of users who together put in at most the total add up to at most one. *)
Lemma share_sum total l :
  Forall (fun d => 0 <= d) l -> list_sum l <= total ->
  total * list_sum ((fun d => share d total) <$> l) <= B * list_sum l.
Proof.
  intros Hl Ht. pose proof B_pos.
  assert (Htot : 0 <= total) by (pose proof (list_sum_nonneg l Hl); lia). clear Ht.
  induction Hl as [|d l Hd Hl IH]; cbn in *; [lia|].
  change (foldr Z.add 0 ?x) with (list_sum x) in *. unfold list_sum in *. unfold share at 1.
  destruct (Z.eqb_spec total 0); [nia|].
  pose proof (Z.mul_div_le (d * B) total ltac:(lia)). nia.
Qed.

Lemma share_sum_le total l :
  Forall (fun d => 0 <= d) l -> list_sum l <= total ->
  0 <= list_sum ((fun d => share d total) <$> l) <= B.
Proof.
  intros Hl Ht. pose proof B_pos. pose proof (list_sum_nonneg l Hl).
  pose proof (share_sum total l Hl Ht) as Hs.
  destruct (Z.eq_dec total 0) as [->|Hne].
  - assert (Hz : forall l', list_sum ((fun d => share d 0) <$> l') = 0)
      by (induction l'; cbn in *; done). rewrite Hz. lia.
  - split; [|nia]. apply list_sum_nonneg, Forall_fmap. eapply Forall_impl; [exact Hl|]. cbn.
    intros d Hd. unfold share. case_match; [lia|]. apply Z.div_pos; nia.
Qed.

(** What one user of the batch gets. *)
Definition outputs (b : BatchSwapOutputData) (d : Z * Z) : Z * Z :=
  let s1 := share d.1 (DexState.delta_1 b) in
  let s2 := share d.2 (DexState.delta_2 b) in
  ((s1 * DexState.unfilled_1 b + s2 * DexState.lambda_1 b) / B,
   (s1 * DexState.lambda_2 b + s2 * DexState.unfilled_2 b) / B).

Lemma sides_fit x y l u : 0 <= x <= B -> 0 <= y <= B -> 0 <= l -> 0 <= u -> l + u < 2 ^ 128 ->
  x * l + y * u < U256.
Proof. rewrite U256_B. fold B. intros. nia. Qed.

Lemma pro_rata_outputs_eq {E} b d :
  typed b -> 0 <= d.1 <= DexState.delta_1 b -> 0 <= d.2 <= DexState.delta_2 b ->
  DexState.lambda_1 b + DexState.unfilled_1 b < 2 ^ 128 ->
  DexState.lambda_2 b + DexState.unfilled_2 b < 2 ^ 128 ->
  @pro_rata_outputs E b d = Ok (outputs b d).
Proof.
  intros (Ht1 & Ht2 & Hl1 & Hl2 & Hu1 & Hu2) H1 H2 Hs1 Hs2. unfold pro_rata_outputs.
  rewrite !share_eq by done. cbn [outcome_bind].
  pose proof (share_bounds _ _ H1) as B1. pose proof (share_bounds _ _ H2) as B2.
  rewrite !side_eq; try done; apply sides_fit; unfold in_width in *; lia.
Qed.

(** Rounded-down weighted sums never exceed what the weights allow. *)
Lemma weighted_floor_sum {A} (f g : A -> Z) x y l :
  0 <= x -> 0 <= y -> list_sum (f <$> l) <= B -> list_sum (g <$> l) <= B ->
  list_sum ((fun a => (f a * x + g a * y) / B) <$> l) <= x + y.
Proof.
  intros Hx Hy Hf Hg. pose proof B_pos.
  assert (H0 : B * list_sum ((fun a => (f a * x + g a * y) / B) <$> l)
    <= list_sum (f <$> l) * x + list_sum (g <$> l) * y); [|nia].
  clear Hf Hg. unfold list_sum. induction l as [|a l IH]; cbn in *; [lia|].
  pose proof (Z.mul_div_le (f a * x + g a * y) B ltac:(lia)). nia.
Qed.
End BatchOutputs.

(** ** Properties *)

(** (C9) However many users share a batch and however its inputs are split between them, the claims
    of all of them are defined and together never take out more of either asset than the batch
    left for them: the proceeds of the trade plus the unfilled input. *)
Theorem claims_never_inflate_batch b users :
  BatchOutputs.typed b ->
  lambda_1 b + unfilled_1 b < 2 ^ 128 -> lambda_2 b + unfilled_2 b < 2 ^ 128 ->
  Forall (fun d => 0 <= d.1 /\ 0 <= d.2) users ->
  list_sum (users.*1) <= delta_1 b -> list_sum (users.*2) <= delta_2 b ->
  exists claims : list (Z * Z),
    Forall2 (fun d c => @BatchOutputs.pro_rata_outputs string b d = Ok c) users claims
    /\ list_sum (claims.*1) <= unfilled_1 b + lambda_1 b
    /\ list_sum (claims.*2) <= lambda_2 b + unfilled_2 b.
Proof.
  intros Ht Hs1 Hs2 Hpos H1 H2. exists (BatchOutputs.outputs b <$> users).
  assert (P1 : Forall (fun d => 0 <= d) users.*1)
    by (apply Forall_fmap; eapply Forall_impl; [exact Hpos|]; cbn; tauto).
  assert (P2 : Forall (fun d => 0 <= d) users.*2)
    by (apply Forall_fmap; eapply Forall_impl; [exact Hpos|]; cbn; tauto).
  pose proof Ht as (_ & _ & Hl1 & Hl2 & Hu1 & Hu2). unfold in_width in *.
  pose proof (BatchOutputs.share_sum_le _ _ P1 H1) as S1.
  pose proof (BatchOutputs.share_sum_le _ _ P2 H2) as S2.
  rewrite <- list_fmap_compose in S1, S2. unfold compose in S1, S2. split_and!.
  - apply Forall2_fmap_r, Forall_Forall2_diag, Forall_forall. intros d Hd. cbn.
    rewrite Forall_forall in Hpos. specialize (Hpos d Hd) as [D1 D2].
    pose proof (list_sum_elem_le _ _ P1 (list_elem_of_fmap_2 fst _ _ Hd)).
    pose proof (list_sum_elem_le _ _ P2 (list_elem_of_fmap_2 snd _ _ Hd)).
    apply BatchOutputs.pro_rata_outputs_eq; lia || done.
  - rewrite <- list_fmap_compose. unfold compose. cbn.
    apply (BatchOutputs.weighted_floor_sum (fun d => BatchOutputs.share d.1 (delta_1 b))
      (fun d => BatchOutputs.share d.2 (delta_2 b))); lia.
  - rewrite <- list_fmap_compose. unfold compose. cbn.
    apply (BatchOutputs.weighted_floor_sum (fun d => BatchOutputs.share d.1 (delta_1 b))
      (fun d => BatchOutputs.share d.2 (delta_2 b))); lia.
Qed.

(** *** Witness: a batch of three users, partly filled in one direction. *)

Definition sample_batch : BatchSwapOutputData :=
  mkBsod 1000 70 33 1900 100 0 5 (mkPair 1 2) (0, 5, 0).

Lemma claims_never_inflate_batch_witness :
  exists claims : list (Z * Z),
    Forall2 (fun d c => @BatchOutputs.pro_rata_outputs string sample_batch d = Ok c)
      [(333, 0); (600, 69); (67, 1)] claims
    /\ list_sum (claims.*1) <= 133 /\ list_sum (claims.*2) <= 1900.
Proof.
  apply (claims_never_inflate_batch sample_batch [(333, 0); (600, 69); (67, 1)]);
    [by_computation | by_computation | by_computation | | by_computation | by_computation].
  repeat constructor; discriminate.
Defined.

