(* ===== verification/Path.v ===== *)
(** * Path search

    Models component/router/path.rs, path_cache.rs and path_search.rs: the search for the cheapest
    route between two assets over the price index.  A round of the search runs one concurrent task
    per active path and candidate asset, and the tasks take turns on the shared cache;
    [relax_active_paths] runs them in the order they are spawned, the relation [relaxes] in any
    order, and [PathFacts] shows that the order does not matter. *)

From S2P Require Import Prelude.
From S2P Require Import Num.
From S2P Require Import Asset.
From S2P Require Import TradingFunction.
From S2P Require Import Position.
From S2P Require Import Vcb.
From S2P Require Import DexState.
From S2P Require Import Indexes.

(** ** Paths *)

Module Path.
Record t := mk {
  start : asset_id;
  nodes : list asset_id;
  price : Z;
  state : DexState;
}.

Definition end_of (self : t) : asset_id := default (start self) (last (nodes self)).

Definition begin (start : asset_id) (state : DexState) : t :=
  mk start [] (U128x128.from_uint 1) state.

(** Append a hop through the best position, which the path's fork of the state then forgets. *)
Definition extend_to (self : t) (new_end : asset_id) : anyhow (option t) :=
  let target_pair := mkDirected (end_of self) new_end in
  match PriceIndex.best_position target_pair (state self) with
  | None => Ok None
  | Some (best_price_lp_id, best_price_lp) =>
      let '(r, state') :=
        PriceIndex.deindex_position_by_price best_price_lp best_price_lp_id (state self) in
      let! _ := r in
      let! oriented := expect_some (Typed.orient_end (phi best_price_lp) new_end) in
      let! hop_price := Bare.effective_price oriented in
      match U128x128.checked_mul (price self) hop_price with
      | Ok path_price => Ok (Some (mk (start self) (nodes self ++ [new_end]) path_price state'))
      | Err _ => Ok None
      | Panic => Panic
      end
  end.

(** The order of paths: price, length, start, nodes. *)
Definition compare (x y : t) : comparison :=
  match price x ?= price y with
  | Eq =>
      match (length (nodes x) ?= length (nodes y))%nat with
      | Eq => match start x ?= start y with Eq => lex_compare (nodes x) (nodes y) | c => c end
      | c => c
      end
  | c => c
  end.

Definition ltb (x y : t) : bool := match compare x y with Lt => true | _ => false end.
End Path.

(** ** The cache of best known paths *)

Module PathCache.
Record entry := mk {
  path : Path.t;
  active : bool;
  spill : option Path.t;
}.

Definition of_path (path : Path.t) : entry := mk path true None.

Definition update_spill (e : entry) (new_path : Path.t) : entry :=
  match spill e with
  | Some spill =>
      if Path.price new_path <? Path.price spill then mk (path e) true (Some new_path) else e
  | None => mk (path e) true (Some new_path)
  end.

Definition update (e : entry) (new_path : Path.t) : entry :=
  if Path.ltb new_path (path e) then mk new_path true (Some (path e)) else update_spill e new_path.

Abbreviation t := (gmap asset_id entry).

Definition begin (start : asset_id) (state : DexState) : t :=
  {[ start := mk (Path.begin start state) true None ]}.

Definition consider (cache : t) (path : Path.t) : t :=
  let a := Path.end_of path in
  match cache !! a with
  | Some e => <[a := update e path]> cache
  | None => <[a := of_path path]> cache
  end.

(** The active paths, in key order, and the cache with every entry deactivated. *)
Definition extract_active (cache : t) : list Path.t * t :=
  (omap (fun '(_, e) => if active e then Some (path e) else None) (btree_items cache),
   (fun e => if active e then mk (path e) false (spill e) else e) <$> cache).
End PathCache.

(** ** The search *)

Module PathSearch.
Import PathCache.

(** A task that panics surfaces as an error of the join. *)
Definition join {A} (r : anyhow A) : anyhow A :=
  match r with Panic => Err "task panicked" | _ => r end.

(** The extensions of one path, one task per candidate. *)
Definition relax_path (path : Path.t) (fixed_candidates : list asset_id)
  : list (anyhow (option Path.t)) :=
  (fun new_end => join (Path.extend_to path new_end))
    <$> LiquidityIndex.candidate_set (Path.end_of path) fixed_candidates (Path.state path).

Fixpoint join_all {A} (tasks : list (anyhow (option A))) : anyhow (list A) :=
  match tasks with
  | [] => Ok []
  | r :: tasks' =>
      let! o := r in
      let! found := join_all tasks' in
      Ok (match o with Some a => a :: found | None => found end)
  end.

Definition tasks (paths : list Path.t) (fixed_candidates : list asset_id)
  : list (anyhow (option Path.t)) :=
  paths ≫= (fun path => relax_path path fixed_candidates).

Definition relax_active_paths (fixed_candidates : list asset_id) (cache : t) : anyhow t :=
  let '(active_paths, cache) := extract_active cache in
  let! found := join_all (tasks active_paths fixed_candidates) in
  Ok (foldl consider cache found).

Fixpoint relax_rounds (max_hops : nat) (fixed_candidates : list asset_id) (cache : t) : anyhow t :=
  match max_hops with
  | O => Ok cache
  | S n =>
      let! cache := relax_active_paths fixed_candidates cache in
      relax_rounds n fixed_candidates cache
  end.

(** What is reported of the cache's entry for the destination. *)
Definition report (dst : asset_id) (price_limit : option Z) (cache : t)
  : option (list asset_id) * option Z :=
  match cache !! dst with
  | None => (None, None)
  | Some e =>
      let found := (Some (Path.nodes (path e)), Path.price <$> spill e) in
      match price_limit with
      | Some price_limit => if price_limit <=? Path.price (path e) then (None, None) else found
      | None => found
      end
  end.

Definition path_search (src dst : asset_id) (params : RoutingParams) (s : DexState)
  : anyhow (option (list asset_id) * option Z) :=
  let! cache := relax_rounds (Z.to_nat (routing_max_hops params)) (routing_candidates params)
                  (begin src s) in
  Ok (report dst (price_limit params) cache).

(** *** Any schedule

    One round in which the tasks reach the cache in some other order. *)
Inductive relaxes (fixed_candidates : list asset_id) (cache : t) : t -> Prop :=
| relaxes_in_order found order :
    join_all (tasks (extract_active cache).1 fixed_candidates) = Ok found -> found ≡ₚ order ->
    relaxes fixed_candidates cache (foldl consider (extract_active cache).2 order).

Inductive searches (fixed_candidates : list asset_id) : nat -> t -> t -> Prop :=
| searches_done cache : searches fixed_candidates 0 cache cache
| searches_round n cache cache' cache'' :
    relaxes fixed_candidates cache cache' -> searches fixed_candidates n cache' cache'' ->
    searches fixed_candidates (S n) cache cache''.

(** A run of the search under some schedule, and what it reports. *)
Definition search_reports (src dst : asset_id) (params : RoutingParams) (s : DexState)
  (r : option (list asset_id) * option Z) : Prop :=
  exists cache, searches (routing_candidates params) (Z.to_nat (routing_max_hops params))
                  (begin src s) cache
    /\ r = report dst (price_limit params) cache.
End PathSearch.
