(* ===== verification/PathFacts.v ===== *)
(** * Facts about the path search

    The order of paths, the paths a search can reach, the equivalence of caches that differ only
    in the identity of spill paths of the same price, and the invariant of the cache. *)

From S2P Require Import Prelude.
From S2P Require Import Num.
From S2P Require Import Asset.
From S2P Require Import TradingFunction.
From S2P Require Import Position.
From S2P Require Import Vcb.
From S2P Require Import DexState.
From S2P Require Import Indexes.
From S2P Require Import Path.

Import PathCache PathSearch.

(** ** The order of paths *)

Section Order.
Implicit Types x y z : Path.t.

(** The order is lexicographic on this key. *)
Definition path_key x : list Z :=
  Path.price x :: Z.of_nat (length (Path.nodes x)) :: Path.start x :: Path.nodes x.

Lemma compare_key x y : Path.compare x y = lex_compare (path_key x) (path_key y).
Proof.
  unfold Path.compare, path_key. cbn.
  rewrite Nat2Z.inj_compare. by repeat case_match.
Qed.

Lemma ltb_key x y : Path.ltb x y = true <-> lex_compare (path_key x) (path_key y) = Lt.
Proof. unfold Path.ltb. rewrite compare_key. by destruct (lex_compare _ _). Qed.

Lemma ltb_trans x y z : Path.ltb x y = true -> Path.ltb y z = true -> Path.ltb x z = true.
Proof. rewrite !ltb_key. apply lex_compare_lt_trans. Qed.

Lemma ltb_asym x y : Path.ltb x y = true -> Path.ltb y x = false.
Proof.
  intros H%ltb_key. apply not_true_iff_false. rewrite ltb_key.
  rewrite lex_compare_antisym, H. done.
Qed.

Lemma ltb_total x y : Path.ltb x y = true \/ Path.ltb y x = true \/ path_key x = path_key y.
Proof.
  rewrite !ltb_key, (lex_compare_antisym (path_key y)).
  destruct (lex_compare (path_key x) (path_key y)) eqn:H; cbn; auto using lex_compare_eq.
Qed.

(** [x < z] follows from [x <= y < z] and from [x < y <= z]. *)
Lemma ltb_false_trans x y z : Path.ltb x z = true -> Path.ltb y z = false -> Path.ltb x y = true.
Proof.
  intros Hxz Hyz. destruct (ltb_total x y) as [H|[H|H]]; [done| |].
  - by rewrite (ltb_trans _ _ _ H Hxz) in Hyz.
  - unfold Path.ltb in *. rewrite !compare_key in *. rewrite <- H in Hyz. congruence.
Qed.

Lemma ltb_price x y : Path.ltb x y = true -> Path.price x <= Path.price y.
Proof.
  rewrite ltb_key. unfold path_key. cbn.
  destruct (Z.compare_spec (Path.price x) (Path.price y)); lia || done.
Qed.

Lemma ltb_false_price x y : Path.ltb x y = false -> Path.price y <= Path.price x.
Proof.
  intros H. destruct (ltb_total x y) as [H'|[H'|H']]; [congruence | by apply ltb_price |].
  unfold path_key in H'. injection H'. lia.
Qed.
End Order.

(** ** The paths a search can reach *)

Inductive reached (src : asset_id) (s : DexState) : Path.t -> Prop :=
| reached_begin : reached src s (Path.begin src s)
| reached_extend p new_end p' :
    reached src s p -> Path.extend_to p new_end = Ok (Some p') -> reached src s p'.

Section Reached.
Context (src : asset_id) (s : DexState).

Lemma extend_to_ok p new_end p' :
  Path.extend_to p new_end = Ok (Some p') ->
  Path.start p' = Path.start p /\ Path.nodes p' = Path.nodes p ++ [new_end].
Proof.
  unfold Path.extend_to. destruct (PriceIndex.best_position _ _) as [[id lp]|]; [|done].
  destruct (PriceIndex.deindex_position_by_price _ _ _) as [r st]. intros H.
  apply outcome_bind_ok in H as (u & _ & H). apply outcome_bind_ok in H as (f & _ & H).
  apply outcome_bind_ok in H as (x & _ & H). destruct (U128x128.checked_mul _ _); [|done..].
  by injection H as <-.
Qed.

Lemma extend_to_end p new_end p' :
  Path.extend_to p new_end = Ok (Some p') -> Path.end_of p' = new_end.
Proof. intros [_ H]%extend_to_ok. unfold Path.end_of. by rewrite H, last_snoc. Qed.

Lemma reached_start p : reached src s p -> Path.start p = src.
Proof. induction 1 as [|p a p' _ IH [H _]%extend_to_ok]; [done | congruence]. Qed.

(** A path is determined by its nodes: searching is a function of the state. *)
Lemma reached_unique p q : reached src s p -> reached src s q -> Path.nodes p = Path.nodes q -> p = q.
Proof.
  intros Hp. revert q. induction Hp as [|p a p' Hp IH Ha]; intros q Hq.
  - intros Hn. destruct Hq as [|q b q' _ Hb]; [done|].
    apply extend_to_ok in Hb as [_ Hb]. rewrite Hb in Hn. cbn in Hn. by destruct (Path.nodes q).
  - destruct Hq as [|q b q' Hq Hb]; intros Hn.
    + apply extend_to_ok in Ha as [_ Ha]. rewrite Ha in Hn. by destruct (Path.nodes p).
    + pose proof (extend_to_ok _ _ _ Ha) as [_ Ha']. pose proof (extend_to_ok _ _ _ Hb) as [_ Hb'].
      rewrite Ha', Hb' in Hn. apply app_inj_2 in Hn as [Hn [= ->]]; [|done].
      rewrite (IH q Hq Hn) in Ha. congruence.
Qed.

Lemma reached_key p q : reached src s p -> reached src s q -> path_key p = path_key q -> p = q.
Proof. intros Hp Hq H. apply reached_unique; [done..|]. unfold path_key in H. by injection H. Qed.
End Reached.

(** ** Equivalent caches: the spill paths may differ as long as their prices agree *)

Definition entry_equiv (e e' : entry) : Prop :=
  path e = path e' /\ active e = active e' /\ Path.price <$> spill e = Path.price <$> spill e'.

#[global] Instance entry_equiv_equivalence : Equivalence entry_equiv.
Proof.
  split; unfold entry_equiv.
  - done.
  - intros ? ? (? & ? & ?). done.
  - intros ? ? ? (? & ? & ?) (? & ? & ?). split_and!; etransitivity; eassumption.
Qed.

Definition cache_equiv (c c' : PathCache.t) : Prop :=
  forall a, option_Forall2 entry_equiv (c !! a) (c' !! a).

#[global] Instance cache_equiv_equivalence : Equivalence cache_equiv.
Proof.
  split; unfold cache_equiv.
  - intros c a. reflexivity.
  - intros c c' H a. symmetry. apply H.
  - intros c c' c'' H H' a. etransitivity; [apply H | apply H'].
Qed.

Lemma cache_equiv_insert c c' a e e' :
  cache_equiv c c' -> entry_equiv e e' -> cache_equiv (<[a := e]> c) (<[a := e']> c').
Proof.
  intros Hc He b. rewrite !lookup_insert. case_decide; [by constructor | apply Hc].
Qed.

(** Updating respects the equivalence. *)
#[global] Instance update_proper : Proper (entry_equiv ==> (=) ==> entry_equiv) update.
Proof.
  intros [b a sp] [b' a' sp'] (Hb & Ha & Hs) p ? <-. cbn in *. subst b' a'.
  unfold update. cbn. destruct (Path.ltb p b); [done|].
  unfold update_spill. cbn. destruct sp as [q|], sp' as [q'|]; try done.
  cbn in Hs. injection Hs as Hq. rewrite Hq.
  destruct (Path.price p <? Path.price q'); [done|]. by split_and!; cbn; rewrite ?Hq.
Qed.

#[global] Instance consider_proper : Proper (cache_equiv ==> (=) ==> cache_equiv) consider.
Proof.
  intros c c' Hc p ? <-. unfold consider. specialize (Hc (Path.end_of p)) as Ha.
  inversion Ha as [e e' He Hx Hy|Hx Hy]; apply cache_equiv_insert; try done.
  by apply update_proper.
Qed.

(** *** Two updates commute *)

Ltac path_prices :=
  repeat match goal with
  | H : Path.ltb ?x ?y = true |- _ =>
      lazymatch goal with
      | _ : Path.price x <= Path.price y |- _ => fail
      | _ => pose proof (ltb_price _ _ H)
      end
  | H : Path.ltb ?x ?y = false |- _ =>
      lazymatch goal with
      | _ : Path.price y <= Path.price x |- _ => fail
      | _ => pose proof (ltb_false_price _ _ H)
      end
  end.

Lemma update_spill_comm e p q :
  entry_equiv (update_spill (update_spill e p) q) (update_spill (update_spill e q) p).
Proof.
  destruct e as [b a [sp|]]; unfold entry_equiv, update_spill; cbn;
    repeat (case_match; cbn in *; simplify_eq/=; to_prop); split_and!;
    try done; f_equal; lia.
Qed.

(** The smaller path decides which way two updates go. *)
Lemma update_comm_lt e p q :
  Path.ltb p q = true -> entry_equiv (update (update e p) q) (update (update e q) p).
Proof.
  intros Hpq. pose proof (ltb_asym _ _ Hpq) as Hqp.
  unfold update at 2 4. destruct (Path.ltb p (path e)) eqn:Hp, (Path.ltb q (path e)) eqn:Hq.
  - unfold update, update_spill. cbn. rewrite Hqp, Hpq. cbn. unfold entry_equiv.
    path_prices. case_match; to_prop; cbn; split_and!; try done. f_equal. lia.
  - unfold update, update_spill. cbn. rewrite Hqp. cbn. path_prices.
    destruct (Z.ltb_spec (Path.price q) (Path.price (path e))); [lia|].
    destruct (spill e) as [sp|]; [destruct (Path.price q <? Path.price sp)|]; cbn; by rewrite Hp.
  - by rewrite (ltb_trans _ _ _ Hpq Hq) in Hp.
  - assert (Hkeep : forall r, path (update_spill e r) = path e).
    { intros r. unfold update_spill. by repeat case_match. }
    unfold update. rewrite !Hkeep, Hp, Hq. apply update_spill_comm.
Qed.

Lemma of_path_comm p q :
  Path.ltb p q = true -> entry_equiv (update (of_path p) q) (update (of_path q) p).
Proof. intros Hpq. unfold update, of_path. cbn. by rewrite (ltb_asym _ _ Hpq), Hpq. Qed.

Lemma consider_comm_lt c p q :
  Path.ltb p q = true ->
  cache_equiv (consider (consider c p) q) (consider (consider c q) p).
Proof.
  intros Hpq. unfold consider.
  destruct (decide (Path.end_of p = Path.end_of q)) as [He|Hne].
  - rewrite He. destruct (c !! Path.end_of q) as [e|] eqn:Hc; rewrite !lookup_insert_eq, !insert_insert_eq;
      apply cache_equiv_insert; try done; [by apply update_comm_lt | by apply of_path_comm].
  - destruct (c !! Path.end_of p) as [e|] eqn:Hp, (c !! Path.end_of q) as [e'|] eqn:Hq;
      rewrite !lookup_insert_ne, ?Hp, ?Hq by done; rewrite insert_insert_ne by done; done.
Qed.

Section Schedules.
Context (src : asset_id) (s : DexState).
Abbreviation reached := (reached src s).

Lemma consider_comm c p q :
  reached p -> reached q ->
  cache_equiv (consider (consider c p) q) (consider (consider c q) p).
Proof.
  intros Hp Hq. destruct (ltb_total p q) as [H|[H|H]].
  - by apply consider_comm_lt.
  - symmetry. by apply consider_comm_lt.
  - by rewrite (reached_key src s p q Hp Hq H).
Qed.

Lemma foldl_consider_proper c c' l :
  cache_equiv c c' -> cache_equiv (foldl consider c l) (foldl consider c' l).
Proof.
  revert c c'. induction l as [|p l IH]; intros c c' Hc; cbn; [done|]. apply IH. by rewrite Hc.
Qed.

(** A cache that has seen the same paths in another order is the same cache. *)
Lemma foldl_consider_perm c l l' :
  l ≡ₚ l' -> Forall reached l -> cache_equiv (foldl consider c l) (foldl consider c l').
Proof.
  intros Hperm. revert c. induction Hperm as [|p l l' _ IH|p q l|l l' l'' H1 IH1 H2 IH2]; intros c Hl; cbn.
  - done.
  - apply Forall_cons in Hl as [_ Hl]. by apply IH.
  - apply Forall_cons in Hl as [Hp Hl]. apply Forall_cons in Hl as [Hq _].
    apply foldl_consider_proper. by apply consider_comm.
  - etransitivity; [by apply IH1|]. apply IH2. by rewrite <- H1.
Qed.

(** ** What the cache holds *)

Definition entry_ok (a : asset_id) (e : entry) : Prop :=
  reached (path e) /\ Path.end_of (path e) = a
  /\ forall q, spill e = Some q ->
       reached q /\ Path.end_of q = a /\ Path.price (path e) <= Path.price q.

Definition cache_ok (c : PathCache.t) : Prop := map_Forall entry_ok c.

Lemma cache_ok_begin : cache_ok (begin src s).
Proof.
  unfold begin. apply map_Forall_singleton. split_and!; [constructor|done|]. by intros q [=].
Qed.

Lemma update_ok a e p : entry_ok a e -> reached p -> Path.end_of p = a -> entry_ok a (update e p).
Proof.
  intros (Hr & He & Hs) Hp Ha. unfold update. destruct (Path.ltb p (path e)) eqn:Hlt; path_prices.
  - split_and!; cbn; [done..|]. intros q [= <-]. auto.
  - unfold update_spill. destruct (spill e) as [q|] eqn:Hq; [case_match|];
      (split_and!; cbn; [done..|]); rewrite ?Hq; intros r [= <-]; auto.
Qed.

Lemma consider_ok c p : cache_ok c -> reached p -> cache_ok (consider c p).
Proof.
  intros Hc Hp. unfold consider. destruct (c !! Path.end_of p) as [e|] eqn:He.
  - apply map_Forall_insert_2; [|done]. apply update_ok; try done. by apply Hc.
  - apply map_Forall_insert_2; [|done]. unfold entry_ok, of_path. cbn. split_and!; [done..|].
    by intros q [=].
Qed.

Lemma foldl_consider_ok c l : cache_ok c -> Forall reached l -> cache_ok (foldl consider c l).
Proof.
  revert c. induction l as [|p l IH]; intros c Hc Hl; cbn; [done|].
  apply Forall_cons in Hl as [Hp Hl]. apply IH; [|done]. by apply consider_ok.
Qed.

Lemma extract_active_ok c : cache_ok c -> cache_ok (extract_active c).2.
Proof.
  intros Hc a e. cbn. rewrite lookup_fmap. intros (e0 & He & ->)%fmap_Some. apply Hc in He.
  by destruct (active e0).
Qed.

Lemma extract_active_elem c p :
  p ∈ (extract_active c).1 <-> exists a e, c !! a = Some e /\ active e = true /\ path e = p.
Proof.
  cbn. rewrite list_elem_of_omap. split.
  - intros ([a e] & Hin%elem_of_btree_items & H). destruct (active e) eqn:Ha; [|done].
    injection H as <-. eauto.
  - intros (a & e & Hc & Ha & <-). exists (a, e). rewrite elem_of_btree_items, Ha. done.
Qed.

Lemma join_all_elem {A} (ts : list (anyhow (option A))) found a :
  join_all ts = Ok found -> a ∈ found <-> Ok (Some a) ∈ ts.
Proof.
  revert found. induction ts as [|r ts IH]; intros found H; cbn in *.
  - injection H as <-. set_solver.
  - apply outcome_bind_ok in H as (o & -> & H). apply outcome_bind_ok in H as (f & Hf & H).
    specialize (IH f Hf). injection H as <-. destruct o; set_solver.
Qed.

Lemma join_ok {A} (r : anyhow A) a : join r = Ok a <-> r = Ok a.
Proof. destruct r; naive_solver. Qed.

(** The paths one round finds are extensions of the active ones. *)
Lemma found_extends paths fixed found p :
  join_all (tasks paths fixed) = Ok found ->
  (p ∈ found <-> exists q a, q ∈ paths
     /\ a ∈ LiquidityIndex.candidate_set (Path.end_of q) fixed (Path.state q)
     /\ Path.extend_to q a = Ok (Some p)).
Proof.
  intros H. rewrite (join_all_elem _ _ p H). unfold tasks, relax_path.
  rewrite list_elem_of_bind. split.
  - intros (q & (a & Heq & Ha)%list_elem_of_fmap & Hq). symmetry in Heq. apply (proj1 (join_ok _ _)) in Heq. by exists q, a.
  - intros (q & a & Hq & Ha & He). exists q. split; [|done]. apply list_elem_of_fmap.
    exists a. split; [symmetry; by apply (proj2 (join_ok _ _)) | done].
Qed.

Lemma found_reached c fixed found :
  cache_ok c -> join_all (tasks (extract_active c).1 fixed) = Ok found -> Forall reached found.
Proof.
  intros Hc H. apply Forall_forall. intros p Hp. apply (found_extends _ _ _ _ H) in Hp as (q & a & Hq & _ & He).
  apply extract_active_elem in Hq as (b & e & Hl & _ & <-). destruct (Hc b e Hl) as [Hr _]. by econstructor.
Qed.

Lemma relaxes_ok fixed c c' : cache_ok c -> relaxes fixed c c' -> cache_ok c'.
Proof.
  intros Hc [found order H Hperm]. apply foldl_consider_ok; [by apply extract_active_ok|].
  rewrite <- Hperm. by eapply found_reached.
Qed.

Lemma searches_ok fixed n c c' : cache_ok c -> searches fixed n c c' -> cache_ok c'.
Proof. intros Hc H. revert Hc. induction H; eauto using relaxes_ok. Qed.

(** *** Schedules *)

Lemma extract_active_equiv c c' :
  cache_equiv c c' ->
  (extract_active c).1 = (extract_active c').1 /\ cache_equiv (extract_active c).2 (extract_active c').2.
Proof.
  intros H. split.
  - cbn. assert (Hm : (fun e : entry => if active e then Some (path e) else None) <$> c
                      = (fun e : entry => if active e then Some (path e) else None) <$> c').
    { apply map_eq. intros a. rewrite !lookup_fmap. destruct (H a) as [e e' (Hp & Ha & _)|]; [|done].
      cbn. by rewrite Hp, Ha. }
    assert (Hc : forall m : PathCache.t, omap (fun '(_, e) => if active e then Some (path e) else None) (btree_items m)
      = omap snd (btree_items ((fun e : entry => if active e then Some (path e) else None) <$> m))).
    { intros m. rewrite btree_items_fmap. induction (btree_items m) as [|[a e] l IH]; [done|].
      cbn. by rewrite IH. }
    by rewrite !Hc, Hm.
  - intros a. cbn. rewrite !lookup_fmap. destruct (H a) as [e e' (Hp & Ha & Hs)|]; [|constructor].
    constructor. unfold entry_equiv in *. rewrite Ha. destruct (active e') eqn:Ha'; cbn; split_and!; congruence.
Qed.

Lemma relaxes_equiv fixed c1 c2 c1' c2' :
  cache_ok c1 -> cache_equiv c1 c2 -> relaxes fixed c1 c1' -> relaxes fixed c2 c2' ->
  cache_equiv c1' c2'.
Proof.
  intros Hok Heq [found1 order1 H1 P1] [found2 order2 H2 P2].
  apply extract_active_equiv in Heq as [Hx Hy]. rewrite Hx in H1.
  rewrite H1 in H2. injection H2 as <-.
  assert (Hr : Forall reached found1) by (eapply found_reached; [exact Hok | by rewrite Hx]).
  etransitivity; [apply foldl_consider_proper, Hy|].
  apply foldl_consider_perm; [by rewrite <- P1 | by rewrite <- P1].
Qed.

Lemma searches_equiv fixed n c1 c2 c1' c2' :
  cache_ok c1 -> cache_equiv c1 c2 -> searches fixed n c1 c1' -> searches fixed n c2 c2' ->
  cache_equiv c1' c2'.
Proof.
  revert c1 c2. induction n as [|n IH]; intros c1 c2 Hok Heq H1 H2;
    inversion H1; inversion H2; subst; [done|].
  eapply IH; [by eapply relaxes_ok | | done..]. by eapply relaxes_equiv.
Qed.

Lemma report_equiv dst limit c c' : cache_equiv c c' -> report dst limit c = report dst limit c'.
Proof.
  intros H. unfold report. destruct (H dst) as [e e' (-> & _ & ->)|]; done.
Qed.

(** The executable search is one of the schedules. *)
Lemma relax_active_paths_relaxes fixed c c' :
  relax_active_paths fixed c = Ok c' -> relaxes fixed c c'.
Proof.
  unfold relax_active_paths. rewrite (surjective_pairing (extract_active c)). intros H.
  apply outcome_bind_ok in H as (found & Hf & [= <-]). by econstructor.
Qed.

Lemma relax_rounds_searches fixed n c c' :
  relax_rounds n fixed c = Ok c' -> searches fixed n c c'.
Proof.
  revert c. induction n as [|n IH]; intros c H; cbn in H.
  - injection H as <-. constructor.
  - apply outcome_bind_ok in H as (c1 & H1 & H).
    econstructor; [by apply relax_active_paths_relaxes | by apply IH].
Qed.

(** *** Nothing is ever forgotten for something worse *)

Lemma update_improves e p :
  Path.price (path (update e p)) <= Path.price (path e)
  /\ Path.price (path (update e p)) <= Path.price p.
Proof.
  unfold update. destruct (Path.ltb p (path e)) eqn:H; path_prices; cbn; [lia|].
  unfold update_spill. repeat case_match; cbn; lia.
Qed.

(** The cache knows a path to [a] no more expensive than [x]. *)
Definition knows (a : asset_id) (x : Z) (c : PathCache.t) : Prop :=
  exists e, c !! a = Some e /\ Path.price (path e) <= x.

Lemma consider_knows c p a x : knows a x c -> knows a x (consider c p).
Proof.
  intros (e & He & Hx). unfold knows, consider. destruct (decide (Path.end_of p = a)) as [->|Hne].
  - rewrite He. exists (update e p). rewrite lookup_insert_eq. split; [done|].
    pose proof (update_improves e p). lia.
  - destruct (c !! Path.end_of p); rewrite lookup_insert_ne by done; eauto.
Qed.

Lemma consider_learns c p : knows (Path.end_of p) (Path.price p) (consider c p).
Proof.
  unfold knows, consider. destruct (c !! Path.end_of p) as [e|]; rewrite lookup_insert_eq;
    eexists; (split; [done|]); [apply update_improves | cbn; lia].
Qed.

Lemma foldl_consider_knows c l a x : knows a x c -> knows a x (foldl consider c l).
Proof. revert c. induction l; cbn; eauto using consider_knows. Qed.

Lemma foldl_consider_learns c l p :
  p ∈ l -> knows (Path.end_of p) (Path.price p) (foldl consider c l).
Proof.
  revert c. induction l as [|q l IH]; intros c Hp; [set_solver|]. cbn.
  apply elem_of_cons in Hp as [->|Hp]; [|by apply IH].
  apply foldl_consider_knows, consider_learns.
Qed.

Lemma extract_active_knows c a x : knows a x c -> knows a x (extract_active c).2.
Proof.
  intros (e & He & Hx). eexists. cbn. rewrite lookup_fmap, He. split; [done|]. by destruct (active e).
Qed.

Lemma relaxes_knows fixed c c' a x : relaxes fixed c c' -> knows a x c -> knows a x c'.
Proof. intros [found order _ _] H. by apply foldl_consider_knows, extract_active_knows. Qed.

Lemma searches_knows fixed n c c' a x : searches fixed n c c' -> knows a x c -> knows a x c'.
Proof. induction 1; eauto using relaxes_knows. Qed.

(** An active path is extended to every candidate it can be extended to. *)
Lemma relaxes_learns fixed c c' b e a p :
  relaxes fixed c c' -> c !! b = Some e -> active e = true ->
  a ∈ LiquidityIndex.candidate_set (Path.end_of (path e)) fixed (Path.state (path e)) ->
  Path.extend_to (path e) a = Ok (Some p) -> knows a (Path.price p) c'.
Proof.
  intros [found order H Hperm] Hb Ha Hcand Hext.
  rewrite <- (extend_to_end _ _ _ Hext). apply foldl_consider_learns. rewrite <- Hperm.
  apply (found_extends _ _ _ _ H). exists (path e), a. split_and!; [|done..].
  apply extract_active_elem. eauto.
Qed.

(** *** Length *)

Definition short (n : nat) (c : PathCache.t) : Prop :=
  forall a e, c !! a = Some e -> (length (Path.nodes (path e)) <= n)%nat.

Lemma consider_short n c p :
  short n c -> (length (Path.nodes p) <= n)%nat -> short n (consider c p).
Proof.
  intros Hc Hp a e. unfold consider.
  destruct (c !! Path.end_of p) as [e0|] eqn:He0; rewrite lookup_insert; case_decide; try apply Hc;
    intros [= <-]; [|done].
  specialize (Hc _ _ He0). unfold update, update_spill. by repeat case_match.
Qed.

Lemma relaxes_short fixed n c c' : short n c -> relaxes fixed c c' -> short (S n) c'.
Proof.
  intros Hc [found order H Hperm].
  assert (Ho : Forall (fun p => (length (Path.nodes p) <= S n)%nat) order).
  { rewrite <- Hperm. apply Forall_forall. intros p Hp.
    apply (found_extends _ _ _ _ H) in Hp as (q & a & Hq & _ & He).
    apply extract_active_elem in Hq as (b & e & Hl & _ & <-). apply extend_to_ok in He as [_ ->].
    rewrite length_app. cbn. specialize (Hc b e Hl). lia. }
  assert (Hx : short (S n) (extract_active c).2).
  { intros a e. cbn. rewrite lookup_fmap. intros (e0 & He & ->)%fmap_Some. apply Hc in He.
    destruct (active e0); cbn; lia. }
  clear H Hperm. revert Ho Hx. generalize (extract_active c).2. 
  induction order as [|p l IH]; intros c0 Ho Hx; cbn; [done|].
  apply Forall_cons in Ho as [Hp Ho]. apply IH; [done|]. by apply consider_short.
Qed.

Lemma searches_short fixed n k c c' : short k c -> searches fixed n c c' -> short (k + n) c'.
Proof.
  intros Hc H. revert k Hc. induction H as [|n c c1 c2 H1 _ IH]; intros k Hc.
  - by rewrite Nat.add_0_r.
  - rewrite Nat.add_succ_r, <- Nat.add_succ_l. apply IH. by eapply relaxes_short.
Qed.

Lemma short_begin : short 0 (begin src s).
Proof. intros a e. unfold begin. by intros [_ <-]%lookup_singleton_Some. Qed.
End Schedules.
