(* ===== verification/PathTheorems.v ===== *)
(** * Correctness of the path search

    The theorems about [PathSearch.path_search], and their witnesses on a concrete network. *)

From S2P Require Import Prelude.
From S2P Require Import Num.
From S2P Require Import Asset.
From S2P Require Import TradingFunction.
From S2P Require Import Position.
From S2P Require Import Vcb.
From S2P Require Import DexState.
From S2P Require Import Indexes.
From S2P Require Import IndexFacts.
From S2P Require Import PositionManager.
From S2P Require Import PositionFacts.
From S2P Require Import DexMachine.
From S2P Require Import Path.
From S2P Require Import PathFacts.

Import PathCache PathSearch.

(** ** The search is total on a consistent index *)

(** Every entry of the price index is a well-formed position on the entry's pair. *)
Definition indexed (s : DexState) : Prop :=
  forall d b i lp, price_index s !! (d, b, i) = Some lp ->
    Typed.wf (phi lp) /\ (d = pair_ab lp \/ d = pair_ba lp).

Section Total.
Context `{DexEnv}.

Lemma consistent_indexed s : consistent s -> indexed s.
Proof.
  intros Hc d b i lp Hl. apply (consistent_price _ Hc) in Hl as [Hl (f & (_ & Hf) & _)].
  split; [apply (consistent_positions _ Hc i lp Hl) | naive_solver].
Qed.

Lemma best_position_indexed d s id lp :
  PriceIndex.best_position d s = Some (id, lp) -> exists b, price_index s !! (d, b, id) = Some lp.
Proof.
  unfold PriceIndex.best_position, PriceIndex.positions_by_price.
  destruct (merge_sort PriceIndex.key_le (PriceIndex.entries d s)) as [|[[b i] l] rest] eqn:Hm; [done|].
  cbn. intros [= -> ->]. exists b. apply PriceIndexFacts.elem_of_entries.
  rewrite <- (merge_sort_Permutation PriceIndex.key_le), Hm. set_solver.
Qed.

Lemma deindex_indexed lp id s u s' :
  indexed s -> PriceIndex.deindex_position_by_price lp id s = (Ok u, s') -> indexed s'.
Proof.
  intros Hs (m & -> & Hm)%PriceIndexFacts.price_deindex_spec d b i lq Hl.
  apply Hm in Hl as [Hl _]. by apply (Hs d b i).
Qed.

Lemma orient_end_pair lp d :
  Typed.wf (phi lp) -> d = pair_ab lp \/ d = pair_ba lp ->
  exists f, Typed.orient_end (phi lp) (end_ d) = Some f /\ Bare.wf f.
Proof.
  intros [Hwf Hne] Hd. unfold Typed.orient_end.
  destruct Hd as [-> | ->]; cbn; rewrite ?Z.eqb_refl; [eauto|].
  destruct (Z.eqb_spec (asset_1 (pair (phi lp))) (asset_2 (pair (phi lp)))); [congruence|].
  eexists. split; [done|]. by apply Bare.wf_flip.
Qed.

Definition path_total (p : Path.t) : Prop := indexed (Path.state p) /\ U128x128.wf (Path.price p).

Lemma extend_to_total p a :
  path_total p -> exists o, Path.extend_to p a = Ok o /\ forall p', o = Some p' -> path_total p'.
Proof.
  intros [Hi Hw]. unfold Path.extend_to.
  destruct (PriceIndex.best_position _ _) as [[id lp]|] eqn:Hb; [|by exists None].
  apply best_position_indexed in Hb as [b Hb]. apply Hi in Hb as [Hlp Hd].
  destruct (price_deindex_total lp id (Path.state p) Hlp) as [s' Hs']. rewrite Hs'.
  destruct (orient_end_pair lp _ Hlp Hd) as (f & Hf & Hwf). cbn [end_] in Hf.
  rewrite Hf. cbn [outcome_bind expect_some]. rewrite Bare.effective_price_eq by done.
  cbn [outcome_bind]. pose proof (Bare.price_wf f Hwf) as Hpf.
  pose proof (U128x128.checked_mul_never_panics _ _ Hw Hpf) as Hnp.
  destruct (U128x128.checked_mul _ _) as [x|e|] eqn:Hx; [|by exists None|done].
  eexists. split; [done|]. intros p' [= <-]. split; cbn.
  - by eapply deindex_indexed.
  - by eapply U128x128.checked_mul_wf; [| |exact Hx].
Qed.

Lemma reached_total src s p : indexed s -> reached src s p -> path_total p.
Proof.
  intros Hs Hp. induction Hp as [|p a p' _ IH He].
  - split; [done|]. cbn. apply U128x128.wf_from_uint. by_computation.
  - destruct (extend_to_total p a IH) as (o & Ho & Hp'). rewrite He in Ho. injection Ho as <-. auto.
Qed.

Lemma join_all_total {A} (ts : list (anyhow (option A))) :
  Forall (fun t => exists o, t = Ok o) ts -> exists found, join_all ts = Ok found.
Proof.
  induction 1 as [|t ts [o ->] _ [found IH]]; cbn; [by exists []|]. rewrite IH. by eexists.
Qed.

Lemma relax_rounds_total src s n fixed c :
  indexed s -> cache_ok src s c -> exists c', relax_rounds n fixed c = Ok c'.
Proof.
  intros Hs. revert c. induction n as [|n IH]; intros c Hc; cbn [relax_rounds]; [by eexists|].
  assert (exists c1, relax_active_paths fixed c = Ok c1) as [c1 H1].
  { unfold relax_active_paths. rewrite (surjective_pairing (extract_active c)).
    destruct (join_all_total (tasks (extract_active c).1 fixed)) as [found Hf];
      [|rewrite Hf; by eexists].
    apply Forall_forall. intros t. unfold tasks, relax_path. rewrite list_elem_of_bind.
    intros (p & (a & -> & _)%list_elem_of_fmap & Hp).
    apply extract_active_elem in Hp as (b & e & Hl & _ & <-).
    destruct (Hc b e Hl) as [Hr _].
    destruct (extend_to_total (path e) a (reached_total _ _ _ Hs Hr)) as (o & -> & _). by exists o. }
  rewrite H1. cbn [outcome_bind]. apply IH. eapply relaxes_ok; [exact Hc|].
  by apply relax_active_paths_relaxes.
Qed.

(** Replaying a route hop by hop. *)
Definition replay (src : asset_id) (s : DexState) (nodes : list asset_id) : anyhow (option Path.t) :=
  foldl (fun r a => let! o := r in
                    match o with Some p => Path.extend_to p a | None => Ok None end)
    (Ok (Some (Path.begin src s))) nodes.

Lemma replay_reached src s nodes p : replay src s nodes = Ok (Some p) -> reached src s p.
Proof.
  unfold replay. revert p. induction nodes as [|a nodes IH] using rev_ind; intros p; cbn.
  - intros [= <-]. constructor.
  - rewrite foldl_app. cbn. intros H1. apply outcome_bind_ok in H1 as ([q|] & Hq & H1); [|done].
    econstructor; [by apply IH | exact H1].
Qed.
End Total.

(** ** Properties *)

(** (C10) The concurrent search is deterministic: in whatever order the relaxation tasks of each round
    reach the shared cache, the route and the spill price that are reported are those of the
    sequential run, although every task may overwrite what another has stored. *)
Theorem path_search_schedule_independent src dst params s r :
  path_search src dst params s = Ok r ->
  forall r', search_reports src dst params s r' <-> r' = r.
Proof.
  intros H. unfold path_search in H. apply outcome_bind_ok in H as (c & Hc & [= <-]).
  apply relax_rounds_searches in Hc. intros r'. split.
  - intros (c' & Hc' & ->). apply report_equiv.
    by eapply searches_equiv; [apply (cache_ok_begin src s) | reflexivity | exact Hc' | exact Hc].
  - intros ->. by exists c.
Qed.

(** (C11) A reported route leads from the source to the destination, each hop through the best position
    the earlier hops left in the index; it has at most [max_hops] hops; its estimated price is
    strictly below the limit, so a cycle searched with a limit of one has at least one hop; and
    the spill price is never better than the route's. *)
Theorem path_search_sound src dst params s nodes spill :
  0 <= routing_max_hops params ->
  path_search src dst params s = Ok (Some nodes, spill) ->
  exists p, reached src s p /\ Path.nodes p = nodes /\ Path.end_of p = dst
    /\ Z.of_nat (length nodes) <= routing_max_hops params
    /\ (forall limit, price_limit params = Some limit ->
          Path.price p < limit /\ (limit <= U128x128.from_uint 1 -> nodes <> []))
    /\ (forall x, spill = Some x -> Path.price p <= x).
Proof.
  intros Hm H. unfold path_search in H. apply outcome_bind_ok in H as (c & Hc & H).
  apply relax_rounds_searches in Hc.
  pose proof (searches_ok _ _ _ _ _ _ (cache_ok_begin src s) Hc) as Hok.
  pose proof (searches_short _ _ _ _ _ (short_begin src s) Hc) as Hlen.
  injection H as H. unfold report in H. destruct (c !! dst) as [e|] eqn:He; [|done].
  destruct (Hok dst e He) as (Hr & Hend & Hspill). specialize (Hlen dst e He).
  assert (Hfound : Path.nodes (path e) = nodes /\ Path.price <$> PathCache.spill e = spill
    /\ forall limit, price_limit params = Some limit -> Path.price (path e) < limit).
  { destruct (price_limit params) as [limit|]; [destruct (Z.leb_spec limit (Path.price (path e)))|];
      simplify_eq; split_and!; try done. intros ? [= <-]. lia. }
  destruct Hfound as (<- & <- & Hlimit). exists (path e). split_and!; try done; [lia| |].
  - intros limit Hl. specialize (Hlimit limit Hl). split; [done|]. intros Hone Hnil.
    assert (path e = Path.begin src s) as Hb by (apply (reached_unique src s); [done|constructor|done]).
    rewrite Hb in Hlimit. cbn in Hlimit. lia.
  - intros x (q & Hq & ->)%fmap_Some. by apply Hspill.
Qed.

(** The search is never worse than trading directly: if one hop to the destination is possible and
    the destination is among the fixed candidates, as in a batch swap, a route at least as cheap is
    found, and reported when that price is below the limit. *)
Theorem path_search_beats_direct src dst params s direct r :
  0 < routing_max_hops params -> dst ∈ routing_candidates params ->
  Path.extend_to (Path.begin src s) dst = Ok (Some direct) ->
  (forall limit, price_limit params = Some limit -> Path.price direct < limit) ->
  path_search src dst params s = Ok r ->
  exists p, reached src s p /\ r.1 = Some (Path.nodes p) /\ Path.price p <= Path.price direct.
Proof.
  intros Hm Hd Hext Hlimit H. unfold path_search in H. apply outcome_bind_ok in H as (c & Hc & [= <-]).
  apply relax_rounds_searches in Hc.
  destruct (Z.to_nat (routing_max_hops params)) as [|n] eqn:Hn; [lia|].
  pose proof (searches_ok _ _ _ _ _ _ (cache_ok_begin src s) Hc) as Hok.
  inversion Hc as [|? ? c1 ? Hc1 Hrest]; subst.
  assert (Hk : knows dst (Path.price direct) c).
  { eapply searches_knows; [exact Hrest|].
    eapply (relaxes_learns _ _ _ src); [exact Hc1| | |..]; [apply lookup_singleton_eq|done| |exact Hext].
    unfold LiquidityIndex.candidate_set. set_solver. }
  destruct Hk as (e & He & Hle). destruct (Hok dst e He) as (Hr & _). exists (path e).
  split_and!; [done| |done]. unfold report. rewrite He.
  destruct (price_limit params) as [limit|]; [|done]. specialize (Hlimit limit eq_refl).
  destruct (Z.leb_spec limit (Path.price (path e))); [lia | done].
Qed.

(** The search returns, whatever it is asked for: no task of it fails or panics, and the rounds are
    bounded. *)
Theorem path_search_total `{DexEnv} s src dst p :
  consistent s -> exists r, path_search src dst p s = Ok r.
Proof.
  intros Hc. unfold path_search.
  destruct (relax_rounds_total src s (Z.to_nat (routing_max_hops p)) (routing_candidates p)
    (begin src s)) as [c ->]; [by apply consistent_indexed | apply cache_ok_begin | by eexists].
Qed.

(** ** A concrete network

    Four positions without fees, each selling one asset: from 1 to 2 and 3 at price one, from 3 to 2
    at price two, and from 2 to 4 at price one. *)

#[local] Existing Instance sample_env.

(** The state after a successful call. *)
Definition ran {A} (m : dex A) (s : DexState) : DexState := (m s).2.

Lemma ran_ok {A} (m : dex A) s a : (m s).1 = Ok a -> m s = (Ok a, ran m s).
Proof. unfold ran. destruct (m s). cbn. congruence. Qed.

Definition sample_epoch : Epoch := mkEpoch 1 0.

Definition seller (n bought sold price : Z) : Position :=
  PositionOps.new_with_nonce [n] (mkDirected bought sold) 0 1 price (mkReserves 0 1000).
Definition sellers : list Position := [seller 1 1 2 1; seller 2 1 3 1; seller 3 3 2 2; seller 4 2 4 1].
Definition empty_dex : DexState :=
  DexMachine.genesis (mkDexParameters true [1; 2; 3; 4] 4 1 64) sample_epoch.
Definition network : DexState :=
  ran (for_each sellers PositionManager.position_open_check_and_execute) empty_dex.
Definition network_params : RoutingParams := mkRoutingParams None [1; 2; 3; 4] 4.

Lemma network_run : for_each sellers PositionManager.position_open_check_and_execute empty_dex = (Ok tt, network).
Proof. unfold network. apply ran_ok. vm_compute. reflexivity. Qed.

Lemma sellers_open :
  Forall (fun lp => PositionOps.typed lp /\ PositionManager.position_open_check_stateless lp = Ok tt) sellers.
Proof. repeat constructor; by_computation. Qed.

(** Opening positions keeps the invariant. *)
Lemma opens_invariant lps s s' :
  DexMachine.invariant (DexMachine.Delivering, s) ->
  Forall (fun lp => PositionOps.typed lp /\ PositionManager.position_open_check_stateless lp = Ok tt) lps ->
  for_each lps PositionManager.position_open_check_and_execute s = (Ok tt, s') ->
  DexMachine.invariant (DexMachine.Delivering, s').
Proof.
  revert s. induction lps as [|lp lps IH]; intros s Hs Hall Hr; cbn [for_each] in Hr.
  - by injection Hr as <-.
  - apply Forall_cons in Hall as [[Ht Hc] Hall]. apply bind_ok in Hr as ([] & s1 & H1 & Hr).
    eapply IH; [|exact Hall|exact Hr]. eapply DexMachine.delivers_invariant; [exact Hs|].
    by eapply DexMachine.deliver_open.
Qed.

Lemma network_sound : DexMachine.invariant (DexMachine.Delivering, network).
Proof.
  exact (opens_invariant sellers empty_dex network (DexMachine.invariant_genesis _ _) sellers_open network_run).
Qed.

Lemma network_consistent : consistent network.
Proof. exact (DexMachine.invariant_consistent _ _ network_sound). Qed.

Lemma network_solvent : solvent network.
Proof. exact (DexMachine.invariant_solvent _ _ network_sound). Qed.

(** The sequences of at most [n] of the four assets. *)
Fixpoint routes (n : nat) : list (list asset_id) :=
  match n with
  | O => [[]]
  | S n => [] :: (r ← routes n; a ← [1; 2; 3; 4]; [a :: r])
  end.

(** Is the route impossible, or does it end elsewhere or cost more than [x]? *)
Definition dearer (x : Z) (nodes : list asset_id) : bool :=
  match replay 1 network nodes with
  | Ok (Some p) => negb (Path.end_of p =? 4) || (x <? Path.price p)
  | _ => true
  end.

(** The spill price, documented as the price of the second best known path, can be the price of the
    best path itself: a cheaper spill path found for an intermediate asset re-activates the best
    path to it, which is then extended again, and the copy of the route that results is stored as
    the destination's spill path.  On [network] the route [1 => 2 => 4] is reported with its own
    price as the spill price, although every other route costs more. *)
Theorem spill_price_can_repeat_the_best_route :
  for_each sellers PositionManager.position_open_check_and_execute empty_dex = (Ok tt, network)
  /\ exists p x, path_search 1 4 network_params network = Ok (Some [2; 4], Some x)
       /\ replay 1 network [2; 4] = Ok (Some p) /\ Path.price p = x
       /\ forall nodes, nodes ∈ routes 4 -> nodes <> [2; 4] -> dearer x nodes = true.
Proof.
  split; [exact network_run|].
  set (r := replay 1 network [2; 4]).
  set (p := match r with Ok (Some p) => p | _ => Path.begin 1 network end).
  exists p, (U128x128.from_uint 1). split_and!.
  - vm_compute. reflexivity.
  - change (r = Ok (Some p)).
    assert (H : match r with Ok (Some _) => true | _ => false end = true) by (vm_compute; reflexivity).
    subst p. by destruct r as [[]| |].
  - vm_compute. reflexivity.
  - assert (H : forallb (fun nodes => bool_decide (nodes = [2; 4]) || dearer (U128x128.from_uint 1) nodes)
      (routes 4) = true) by (vm_compute; reflexivity).
    intros nodes Hn Hne. rewrite forallb_forall in H. apply list_elem_of_In, H in Hn.
    by rewrite bool_decide_eq_false_2 in Hn.
Qed.

(** *** Witnesses *)

Definition network_report : option (list asset_id) * option Z :=
  (Some [2; 4], Some (U128x128.from_uint 1)).

Lemma network_search : path_search 1 4 network_params network = Ok network_report.
Proof. vm_compute. reflexivity. Qed.

Lemma path_search_schedule_independent_witness :
  path_search 1 4 network_params network = Ok network_report
  /\ search_reports 1 4 network_params network network_report.
Proof.
  split; [exact network_search|].
  exact (proj2 (path_search_schedule_independent 1 4 network_params network network_report
    network_search network_report) eq_refl).
Defined.

Lemma path_search_sound_witness :
  exists p, reached 1 network p /\ Path.nodes p = [2; 4] /\ Path.end_of p = 4.
Proof.
  assert (Hm : 0 <= routing_max_hops network_params) by (vm_compute; discriminate).
  assert (Hs : path_search 1 4 network_params network = Ok (Some [2; 4], Some (U128x128.from_uint 1)))
    by exact network_search.
  pose proof (path_search_sound 1 4 network_params network [2; 4] (Some (U128x128.from_uint 1))
    Hm Hs) as (p & Hr & Hn & He & _).
  exists p. split; [exact Hr | split; [exact Hn | exact He]].
Defined.

Lemma path_search_beats_direct_witness :
  exists direct p, Path.extend_to (Path.begin 1 network) 2 = Ok (Some direct)
    /\ Path.nodes p = [2] /\ Path.price p <= Path.price direct.
Proof.
  set (r := Path.extend_to (Path.begin 1 network) 2).
  set (direct := match r with Ok (Some p) => p | _ => Path.begin 1 network end).
  assert (Hr : r = Ok (Some direct)).
  { assert (H : match r with Ok (Some _) => true | _ => false end = true) by (vm_compute; reflexivity).
    subst direct. by destruct r as [[]| |]. }
  set (found := (Some [2], Some (U128x128.from_uint 2))).
  assert (Hs : path_search 1 2 network_params network = Ok found) by (vm_compute; reflexivity).
  assert (Hm : 0 < routing_max_hops network_params) by (vm_compute; reflexivity).
  assert (Hd : 2 ∈ routing_candidates network_params)
    by (apply list_elem_of_further, list_elem_of_here).
  assert (Hl : forall limit, price_limit network_params = Some limit -> Path.price direct < limit)
    by (intros limit Hl; discriminate Hl).
  pose proof (path_search_beats_direct 1 2 network_params network direct found Hm Hd Hr Hl Hs)
    as (p & _ & Hp & Hle).
  exists direct, p. split; [exact Hr|]. split; [|exact Hle].
  injection Hp as Hp. exact (eq_sym Hp).
Defined.

Lemma path_search_total_witness : exists r, path_search 4 1 network_params network = Ok r.
Proof.
  exact (path_search_total network 4 1 network_params network_consistent).
Defined.
