(* ===== verification/Router.v ===== *)
(** * Filling routes

    Models component/router/fill_route.rs, component/router/route_and_fill.rs,
    component/circuit_breaker/execution.rs, [SwapExecution::max_price] of swap_execution.rs and
    component/arb.rs: the execution of a trade along the route that the path search has found.

    A frontier holds one position per hop, out of the state; each iteration senses which hop limits
    the trade, executes along the whole route, and replaces the positions it has exhausted.  The
    streams of positions are read when the frontier is loaded.  The storage library's streams also
    show writes made after they were opened; the only entries a fill writes belong to positions the
    frontier has already used, and those it skips by their ids either way. *)

From S2P Require Import Prelude.
From S2P Require Import Num.
From S2P Require Import Asset.
From S2P Require Import TradingFunction.
From S2P Require Import Position.
From S2P Require Import Vcb.
From S2P Require Import DexState.
From S2P Require Import Indexes.
From S2P Require Import PositionManager.
From S2P Require Import Path.

(** [v[i] = x] on a [Vec] of fixed length. *)
Definition set_at {E A} (i : nat) (x : A) (l : list A) : outcome E (list A) :=
  if (i <? length l)%nat then Ok (<[i := x]> l) else Panic.

(** [match m.await]: an error as a value; its writes are whatever [m] left. *)
Definition attempt {S E E' A} (m : comp S E A) : comp S E' (A + E) := fun s =>
  match m s with
  | (Ok a, s') => (Ok (inl a), s')
  | (Err e, s') => (Ok (inr e), s')
  | (Panic, s') => (Panic, s')
  end.

Inductive FillError :=
| AssetIdMismatch (id : asset_id) (pair : TradingPair)
| ExecutionOverflow (id : position_id)
| InvalidRoute (length : nat)
| MissingFrontierPosition (id : position_id)
| InsufficientLiquidity (pair : DirectedTradingPair).

Abbreviation filling := (outcome FillError).
Abbreviation dex_fill := (comp DexState FillError).

(** ** Transactions on a frontier *)

Module FrontierTx.
Record t := mk {
  new_reserves : list (option Reserves);
  trace : list (option Z);
}.

Definition set_new_reserves {E} (i : nat) (r : Reserves) (tx : t) : outcome E t :=
  let! l := set_at i (Some r) (new_reserves tx) in Ok (mk l (trace tx)).
Definition set_trace {E} (i : nat) (amount : Z) (tx : t) : outcome E t :=
  let! l := set_at i (Some amount) (trace tx) in Ok (mk (new_reserves tx) l).

Definition first_amount {E} (tx : t) : outcome E Z := expect_some (mjoin (head (trace tx))).
Definition last_amount {E} (tx : t) : outcome E Z := expect_some (mjoin (last (trace tx))).

(** The price the transaction trades at; an error stands for an infinite price. *)
Definition actual_price (tx : t) : outcome U128x128.error Z :=
  let! input := first_amount tx in
  let! output := last_amount tx in
  U128x128.checked_div (U128x128.from_uint input) (U128x128.from_uint output).
End FrontierTx.

(** ** The frontier *)

Module Frontier.
Section Frontier.
Context `{DexEnv}.

Record t := mk {
  pairs : list DirectedTradingPair;
  positions : list Position;
  position_ids : gset position_id;
  positions_by_price : gmap DirectedTradingPair (list (position_id * Position));
  trace : list (list Value);
}.

Definition set_positions (ps : list Position) (f : t) : t :=
  mk (pairs f) ps (position_ids f) (positions_by_price f) (trace f).

Definition new_tx (f : t) : FrontierTx.t :=
  FrontierTx.mk (replicate (length (positions f)) None) (replicate (length (pairs f) + 1) None).

(** The route as explicit pairs: [route.windows(2)]. *)
Fixpoint windows (route : list asset_id) : list DirectedTradingPair :=
  match route with
  | a :: (b :: _) as rest => mkDirected a b :: windows rest
  | _ => []
  end.

Definition breakdown_route (route : list asset_id) : filling (list DirectedTradingPair) :=
  if (length route <? 2)%nat then Err (InvalidRoute (length route)) else Ok (windows route).

(** Draw from a stream until a position outside [ids] comes. *)
Fixpoint next_fresh (ids : gset position_id) (stream : list (position_id * Position))
  : option (position_id * Position) * list (position_id * Position) :=
  match stream with
  | [] => (None, [])
  | (id, lp) :: rest => if decide (id ∈ ids) then next_fresh ids rest else (Some (id, lp), rest)
  end.

(** One stream per distinct pair of the route. *)
Definition open_streams (pairs : list DirectedTradingPair) (s : DexState)
  : gmap DirectedTradingPair (list (position_id * Position)) :=
  foldl (fun m pair => match m !! pair with
                       | Some _ => m
                       | None => <[pair := PriceIndex.positions_by_price pair s]> m
                       end) ∅ pairs.

(** Put the next fresh position of every hop on the frontier. *)
Fixpoint load_positions (todo : list DirectedTradingPair) (f : t) : filling t :=
  match todo with
  | [] => Ok f
  | pair :: todo' =>
      let! stream := expect_some (positions_by_price f !! pair) in
      let '(found, rest) := next_fresh (position_ids f) stream in
      let! '(id, lp) := ok_or found (InsufficientLiquidity pair) in
      load_positions todo'
        (mk (pairs f) (positions f ++ [lp]) ({[id]} ∪ position_ids f)
            (<[pair := rest]> (positions_by_price f)) (trace f))
  end.

Definition load (pairs : list DirectedTradingPair) : dex_fill t :=
  streams <- gets (open_streams pairs);;
  lift (load_positions pairs (mk pairs [] ∅ streams [])).

(** The pair the whole route trades. *)
Definition context {E} (f : t) : outcome E DirectedTradingPair :=
  let! first := expect_some (head (pairs f)) in
  let! last := expect_some (last (pairs f)) in
  Ok (mkDirected (start first) (end_ last)).

Definition save (f : t) : dex unit :=
  context <- lift (context f);;
  for_each (positions f) (fun position =>
    PositionManager.position_execution position context;;; ret tt).

(** Move the new reserves into the positions, collecting the trace. *)
Fixpoint apply_reserves (changes : list (option Reserves)) (i : nat) (amounts : list (option Z))
  (f : t) (trace : list Value) : filling (t * list Value) :=
  match changes with
  | [] => Ok (f, trace)
  | new_reserves :: changes' =>
      let! new_reserves := expect_some new_reserves in
      let! amount := expect_some (mjoin (amounts !! S i)) in
      let! position := expect_some (positions f !! i) in
      let! ps := set_at i (PositionOps.with_reserves new_reserves position) (positions f) in
      let! pair := expect_some (pairs f !! i) in
      apply_reserves changes' (S i) amounts (set_positions ps f)
        (trace ++ [mkValue amount (end_ pair)])
  end.

Definition apply (changes : FrontierTx.t) (f : t) : filling (t * (Z * Z)) :=
  let! first := expect_some (mjoin (FrontierTx.trace changes !! 0%nat)) in
  let! pair := expect_some (pairs f !! 0%nat) in
  let! '(f', new_trace) := apply_reserves (FrontierTx.new_reserves changes) 0
    (FrontierTx.trace changes) f [mkValue first (start pair)] in
  let! input := FrontierTx.first_amount changes in
  let! output := FrontierTx.last_amount changes in
  Ok (mk (pairs f') (positions f') (position_ids f') (positions_by_price f')
         (trace f' ++ [new_trace]), (input, output)).

(** Write an exhausted position back and draw its replacement: [false] when there is none. *)
Definition replace_position (index : nat) (f : t) : dex_fill (t * bool) :=
  replaced <- lift (expect_some (positions f !! index));;
  context <- lift (context f);;
  updated <- expecting (PositionManager.position_execution replaced context);;
  ps <- lift (set_at index updated (positions f));;
  pair <- lift (expect_some (pairs f !! index));;
  stream <- lift (expect_some (positions_by_price f !! pair));;
  let '(found, rest) := next_fresh (position_ids f) stream in
  let streams := <[pair := rest]> (positions_by_price f) in
  match found with
  | None => ret (mk (pairs f) ps (position_ids f) streams (trace f), false)
  | Some (id, lp) =>
      ps <- lift (set_at index lp ps);;
      ret (mk (pairs f) ps ({[id]} ∪ position_ids f) streams (trace f), true)
  end.

Definition is_exhausted (f : t) (i : nat) : filling bool :=
  let! lp := expect_some (positions f !! i) in
  let! d := expect_some (pairs f !! i) in
  let! desired_reserves :=
    ok_or (PositionOps.reserves_for lp (end_ d)) (AssetIdMismatch (end_ d) (pair (phi lp))) in
  Ok (desired_reserves =? 0).

(** [for i in 0..pairs.len()] with its early return. *)
Fixpoint replace_empty_loop (indices : list nat) (f : t) : dex_fill (t * bool) :=
  match indices with
  | [] => ret (f, true)
  | i :: rest =>
      exhausted <- lift (is_exhausted f i);;
      if exhausted then
        '(f', found) <- replace_position i f;;
        if found : bool then replace_empty_loop rest f' else ret (f', false)
      else replace_empty_loop rest f
  end.

Definition replace_empty_positions (f : t) : dex_fill (t * bool) :=
  replace_empty_loop (seq 0 (length (pairs f))) f.

(** *** Phase 1: which position constrains the trade *)

Fixpoint sense (ps : list Position) (i : nat) (current_input : Value) (constraining : option nat)
  : filling (option nat) :=
  match ps with
  | [] => Ok constraining
  | lp :: ps' =>
      if negb (Typed.matches_input (phi lp) (value_asset current_input)) then
        Err (AssetIdMismatch (value_asset current_input) (pair (phi lp)))
      else
        let! '(unfilled, _, output) :=
          map_err (fun _ => ExecutionOverflow (PositionOps.id lp))
            (Typed.fill (phi lp) current_input (reserves lp)) in
        sense ps' (S i) output (if 0 <? amount unfilled then Some i else constraining)
  end.

Definition sense_capacity_constraint (f : t) (input : Value) : filling (option nat) :=
  sense (positions f) 0 input None.

(** *** Phase 2: filling *)

Fixpoint forward (ps : list Position) (i : nat) (current_value : Value) (tx : FrontierTx.t)
  : filling FrontierTx.t :=
  match ps with
  | [] => Ok tx
  | lp :: ps' =>
      let! '(unfilled, new_reserves, output) :=
        expect_ok (Typed.fill (phi lp) current_value (reserves lp)) in
      if negb (amount unfilled =? 0) then Panic
      else
        let! tx := FrontierTx.set_new_reserves i new_reserves tx in
        let! tx := FrontierTx.set_trace (S i) (amount output) tx in
        forward ps' (S i) output tx
  end.

Definition fill_forward (f : t) (tx : FrontierTx.t) (start_index : nat) (input : Value)
  : filling FrontierTx.t :=
  forward (drop start_index (positions f)) start_index input tx.

(** From hop [i] back to hop 0. *)
Fixpoint backward (ps : list Position) (i : nat) (current_value : Value) (tx : FrontierTx.t)
  : filling FrontierTx.t :=
  let! tx := FrontierTx.set_trace (S i) (amount current_value) tx in
  let! lp := expect_some (ps !! i) in
  let! filled := expect_ok (Typed.fill_output (phi lp) (reserves lp) current_value) in
  let! '(new_reserves, prev_input) := expect_some filled in
  let! tx := FrontierTx.set_new_reserves i new_reserves tx in
  match i with
  | O => FrontierTx.set_trace 0 (amount prev_input) tx
  | S i' => backward ps i' prev_input tx
  end.

Definition fill_backward (f : t) (tx : FrontierTx.t) (start_index : nat) (output : Value)
  : filling FrontierTx.t := backward (positions f) start_index output tx.

Definition fill_unconstrained (f : t) (input : Value) : filling FrontierTx.t :=
  let! first := expect_some (head (pairs f)) in
  if negb (value_asset input =? start first) then Panic
  else
    let! tx := FrontierTx.set_trace 0 (amount input) (new_tx f) in
    fill_forward f tx 0 input.

Definition fill_constrained (f : t) (constraining_index : nat) : filling FrontierTx.t :=
  let! lp := expect_some (positions f !! constraining_index) in
  let! d := expect_some (pairs f !! constraining_index) in
  let! exact := expect_some (PositionOps.reserves_for lp (end_ d)) in
  let exactly_consumed_reserves := mkValue exact (end_ d) in
  let! tx := fill_backward f (new_tx f) constraining_index exactly_consumed_reserves in
  fill_forward f tx (S constraining_index) exactly_consumed_reserves.
End Frontier.
End Frontier.

(** ** Filling a route *)

Module FillRoute.
Section Fill.
Context `{DexEnv}.
Import Frontier.

(** Phases 1 and 2. *)
Definition next_tx (f : Frontier.t) (input : Value) : filling (option nat * FrontierTx.t) :=
  let! constraining_index := sense_capacity_constraint f input in
  let! tx :=
    match constraining_index with
    | Some i => fill_constrained f i
    | None => fill_unconstrained f input
    end in
  Ok (constraining_index, tx).

(** Phase 3: commit unless the spill price is exceeded and something has been filled already. *)
Definition should_apply (spill_price : option Z) (filled_once : bool) (tx : FrontierTx.t)
  : filling bool :=
  match spill_price with
  | None => Ok true
  | Some spill_price =>
      match FrontierTx.actual_price tx with
      | Ok p => Ok ((p <=? spill_price) || negb filled_once)
      | Err _ => Ok (negb filled_once)
      | Panic => Panic
      end
  end.

(** What the loop carries: the frontier, the remaining input, the output so far. *)
Record progress := mkProgress {
  frontier : Frontier.t;
  remaining : Value;
  produced : Z;
  filled_once : bool;
}.

(** One iteration: [true] to go on. *)
Definition iteration (spill_price : option Z) (st : progress) : dex_fill (progress * bool) :=
  '(constraining_index, tx) <- lift (next_tx (frontier st) (remaining st));;
  go <- lift (should_apply spill_price (filled_once st) tx);;
  if negb go then ret (st, false)
  else
    '(f, (current_input, current_output)) <- lift (apply tx (frontier st));;
    left <- lift (plain_sub (amount (remaining st)) current_input);;
    output <- lift (plain_add 128 (produced st) current_output);;
    '(f, found) <- replace_empty_positions f;;
    let st := mkProgress f (mkValue left (value_asset (remaining st))) output true in
    if negb found then ret (st, false)
    else
      match constraining_index with
      | None => if left =? 0 then ret (st, false) else panic
      | Some _ => ret (st, true)
      end.

Fixpoint fill_loop (fuel : nat) (spill_price : option Z) (st : progress) : dex_fill progress :=
  match fuel with
  | O => panic
  | S fuel =>
      '(st, go) <- iteration spill_price st;;
      if go : bool then fill_loop fuel spill_price st else ret st
  end.

(** Every iteration but the last draws a position from a stream. *)
Definition stream_size (f : Frontier.t) : nat :=
  Z.to_nat (map_sum (fun l => Z.of_nat (length l)) (positions_by_price f)).

Definition trace_ends {E} (t : list Value) : outcome E (Value * Value) :=
  let! first := expect_some (head t) in
  let! last := expect_some (last t) in
  Ok (first, last).

Fixpoint collect_ends {E} (traces : list (list Value)) : outcome E (list (Value * Value)) :=
  match traces with
  | [] => Ok []
  | t :: rest =>
      let! e := trace_ends t in
      let! es := collect_ends rest in
      Ok (e :: es)
  end.

Definition fill_route_body (input : Value) (hops : list asset_id) (spill_price : option Z)
  (ensure_progress : bool) : dex_fill SwapExecution :=
  pairs <- lift (breakdown_route (value_asset input :: hops));;
  f <- load pairs;;
  st <- fill_loop (S (stream_size f)) spill_price
          (mkProgress f input 0 (negb ensure_progress));;
  let f := frontier st in
  expecting (save f);;;
  ends <- lift (collect_ends (trace f));;
  in_amount <- lift (Amount.sum (amount ∘ fst <$> ends));;
  out_amount <- lift (Amount.sum (amount ∘ snd <$> ends));;
  d <- lift (context f);;
  ret (mkSwapExecution (trace f) (mkValue in_amount (start d)) (mkValue out_amount (end_ d))).

(** Transactional: an error leaves no trace. *)
Definition fill_route (input : Value) (hops : list asset_id) (spill_price : option Z)
  : dex_fill SwapExecution := transaction (fill_route_body input hops spill_price true).
End Fill.
End FillRoute.

(** ** Routing and filling a trade *)

Module ExecutionCircuitBreaker.
Record t := mk { counter : Z; max : Z }.

Definition new (max : Z) : t := mk 0 max.
Definition increment {E} (b : t) : outcome E t :=
  let! counter := plain_add 32 (counter b) 1 in Ok (mk counter (max b)).
Definition exceeded_limits (b : t) : bool := max b <=? counter b.
End ExecutionCircuitBreaker.

(** [SwapExecution::max_price]: the price of the latest trace. *)
Definition max_price {E} (e : SwapExecution) : outcome E (option Z) :=
  match last (traces e) with
  | None => Ok None
  | Some trace =>
      match head trace, last trace with
      | Some input, Some output =>
          match U128x128.ratio (U128x128.from_uint (amount input))
                  (U128x128.from_uint (amount output)) with
          | Ok price => Ok (Some price)
          | Err _ => Ok None
          | Panic => Panic
          end
      | _, _ => Ok None
      end
  end.

Module RouteAndFill.
Section Route.
Context `{DexEnv}.

Record progress := mkProgress {
  breaker : ExecutionCircuitBreaker.t;
  total_unfilled_1 : Z;
  total_output_2 : Z;
  traces : list (list Value);
}.

(** After a fill: what remains, and whether to search again. *)
Definition account (asset_1 asset_2 : asset_id) (params : RoutingParams) (st : progress)
  (e : SwapExecution) : anyhow (progress * bool) :=
  if negb (value_asset (output e) =? asset_2) then Panic
  else if negb (value_asset (input e) =? asset_1) then Panic
  else
    let! total_output_2 := plain_add 128 (total_output_2 st) (amount (output e)) in
    let! total_unfilled_1 := plain_sub (total_unfilled_1 st) (amount (input e)) in
    let st := mkProgress (breaker st) total_unfilled_1 total_output_2
                (traces st ++ DexState.traces e) in
    if total_unfilled_1 =? 0 then Ok (st, false)
    else
      let! accurate_max_price := max_price e in
      match accurate_max_price with
      | None => Ok (st, false)
      | Some accurate_max_price =>
          match price_limit params with
          | Some price_limit => Ok (st, accurate_max_price <? price_limit)
          | None => Ok (st, true)
          end
      end.

(** One round of the loop: [true] to go on. *)
Definition round (asset_1 asset_2 : asset_id) (params : RoutingParams) (st : progress)
  : dex (progress * bool) :=
  if ExecutionCircuitBreaker.exceeded_limits (breaker st) then ret (st, false)
  else
    breaker <- lift (ExecutionCircuitBreaker.increment (breaker st));;
    let st := mkProgress breaker (total_unfilled_1 st) (total_output_2 st) (traces st) in
    found <- gets (PathSearch.path_search asset_1 asset_2 params);;
    '(path, spill_price) <- lift (map_err (fun _ => "error finding best path") found);;
    match path with
    | None => ret (st, false)
    | Some [] => ret (st, false)
    | Some path =>
        execution_result <-
          attempt (FillRoute.fill_route (mkValue (total_unfilled_1 st) asset_1) path spill_price);;
        match execution_result with
        | inl execution => lift (account asset_1 asset_2 params st execution)
        | inr (ExecutionOverflow position_id) =>
            expecting (PositionManager.close_position_by_id position_id);;; ret (st, true)
        | inr _ => fail "error filling route"
        end
    end.

Fixpoint route_loop (fuel : nat) (asset_1 asset_2 : asset_id) (params : RoutingParams)
  (st : progress) : dex progress :=
  match fuel with
  | O => panic
  | S fuel =>
      '(st, go) <- round asset_1 asset_2 params st;;
      if go : bool then route_loop fuel asset_1 asset_2 params st else ret st
  end.

(** The circuit breaker admits [max - counter] rounds. *)
Definition round_budget (b : ExecutionCircuitBreaker.t) : nat :=
  S (Z.to_nat (ExecutionCircuitBreaker.max b - ExecutionCircuitBreaker.counter b)).

Definition route_and_fill (asset_1 asset_2 : asset_id) (input : Z) (params : RoutingParams)
  (breaker : ExecutionCircuitBreaker.t) : dex (option SwapExecution) :=
  if input =? 0 then ret None
  else
    st <- route_loop (round_budget breaker) asset_1 asset_2 params
            (mkProgress breaker input 0 []);;
    match traces st with
    | [] => ret None
    | _ =>
        consumed <- lift (plain_sub input (total_unfilled_1 st));;
        ret (Some (mkSwapExecution (traces st) (mkValue consumed asset_1)
                     (mkValue (total_output_2 st) asset_2)))
    end.

(** *** Batch swaps *)

(** What one direction of a batch produced and left unfilled. *)
Definition outcome_of (delta : Z) (e : option SwapExecution) : anyhow (Z * Z) :=
  match e with
  | Some e => let! unfilled := plain_sub delta (amount (input e)) in Ok (amount (output e), unfilled)
  | None => Ok (0, delta)
  end.

(** [u16::try_from(..).expect(..)] *)
Definition into_u16 {E} (x : Z) : outcome E Z := if x <? 2 ^ 16 then Ok x else Panic.

Definition handle_batch_swaps (tp : TradingPair) (batch_data : Z * Z) (block_height : Z)
  (params : RoutingParams) (execution_budget : Z) : dex BatchSwapOutputData :=
  let '(delta_1, delta_2) := batch_data in
  let breaker := ExecutionCircuitBreaker.new execution_budget in
  let clamped_delta_1 := Z.min delta_1 MAX_RESERVE_AMOUNT in
  let clamped_delta_2 := Z.min delta_2 MAX_RESERVE_AMOUNT in
  swap_execution_1_for_2 <-
    route_and_fill (asset_1 tp) (asset_2 tp) clamped_delta_1 params breaker;;
  swap_execution_2_for_1 <-
    route_and_fill (asset_2 tp) (asset_1 tp) clamped_delta_2 params breaker;;
  '(lambda_2, unfilled_1) <- lift (outcome_of delta_1 swap_execution_1_for_2);;
  '(lambda_1, unfilled_2) <- lift (outcome_of delta_2 swap_execution_2_for_1);;
  epoch <- DexRead.get_current_epoch;;
  epoch_prefix <- lift (into_u16 (index epoch));;
  elapsed <- lift (plain_sub block_height (start_height epoch));;
  block_prefix <- lift (into_u16 elapsed);;
  let output_data := mkBsod delta_1 delta_2 lambda_1 lambda_2 unfilled_1 unfilled_2 block_height tp
                       (epoch_prefix, block_prefix, 0) in
  match swap_execution_1_for_2 with
  | Some e => Chandelier.record_swap_execution e
  | None => ret tt
  end;;;
  match swap_execution_2_for_1 with
  | Some e => Chandelier.record_swap_execution e
  | None => ret tt
  end;;;
  DexWrite.set_output_data output_data swap_execution_1_for_2 swap_execution_2_for_1;;;
  ret output_data.

(** *** Arbitrage *)

(** The flash loan: [u64::MAX] of the arbitrage token. *)
Definition flash_loan : Z := max_int 64.

(** The profit of an execution that trades the token for itself; [None] discards it. *)
Definition arb_profit (e : SwapExecution) : anyhow (option Z) :=
  let! unfilled_input := expect_some (checked_sub flash_loan (amount (input e))) in
  let! total_output := plain_add 128 (amount (output e)) unfilled_input in
  match checked_sub total_output flash_loan with
  | None => Ok None
  | Some profit => Ok (if profit =? 0 then None else Some profit)
  end.

(** The trades run in a fork of the state, applied only when they are profitable. *)
Definition arbitrage (arb_token : asset_id) (params : RoutingParams) : dex (option Value) :=
  fun s =>
    let run : dex (option (SwapExecution * Z)) :=
      p <- DexRead.get_dex_params;;
      e <- route_and_fill arb_token arb_token flash_loan params
             (ExecutionCircuitBreaker.new (max_execution_budget p));;
      match e with
      | None => ret None
      | Some e => profit <- lift (arb_profit e);; ret ((fun x => (e, x)) <$> profit)
      end in
    match run s with
    | (Ok (Some (e, profit)), s') =>
        let commit : dex (option Value) :=
          h <- gets block_height;;
          out_amount <- lift (plain_add 128 (amount (input e)) profit);;
          let se := mkSwapExecution (DexState.traces e)
                      (mkValue (amount (input e)) arb_token) (mkValue out_amount arb_token) in
          DexWrite.set_arb_execution h se;;;
          Vcb.dex_vcb_debit (mkValue profit arb_token);;;
          modify (record_event (EventArbExecution h se));;;
          ret (Some (mkValue profit arb_token)) in
        commit s'
    | (Ok None, _) => (Ok None, s)
    | (Err e, _) => (Err e, s)
    | (Panic, _) => (Panic, s)
    end.
End Route.
End RouteAndFill.
