(* ===== verification/RouterFacts.v ===== *)
(** * Facts about filling along a frontier

    The pure part of a fill iteration: a hop is a position seen along one of its two directions;
    [trades] says what an execution along the whole route does to the positions; sensing, the
    forward and the backward fill are all shown to produce such a trade. *)

From S2P Require Import Prelude.
From S2P Require Import Num.
From S2P Require Import Asset.
From S2P Require Import TradingFunction.
From S2P Require Import Position.
From S2P Require Import Vcb.
From S2P Require Import DexState.
From S2P Require Import Indexes.
From S2P Require Import PositionManager.
From S2P Require Import Path.
From S2P Require Import Router.

Import Frontier FillRoute.

(** Amounts that can be added without leaving 128 bits. *)
Definition half (x : Z) : Prop := 0 <= x < 2 ^ 127.

Lemma half_u128 x : half x -> is_u128 x.
Proof. unfold half, in_width. lia. Qed.

Lemma half_le x y : half x -> 0 <= y <= x -> half y.
Proof. unfold half. lia. Qed.

(** ** A hop: a position, seen in the direction of a pair *)

Section Hops.
Implicit Types (lp : Position) (d : DirectedTradingPair).

Definition flipped lp d : bool := negb (start d =? asset_1 (pair (phi lp))).
Definition orient lp d (r : Reserves) : Reserves := if flipped lp d then ReservesOps.flip r else r.
Definition fn lp d : BareTradingFunction :=
  if flipped lp d then Bare.flip (component (phi lp)) else component (phi lp).
Definition buys lp d : Z := r1 (orient lp d (reserves lp)).
Definition sells lp d : Z := r2 (orient lp d (reserves lp)).

(** The position after taking [x] of the start asset for [y] of the end asset. *)
Definition hop_reserves lp d (x y : Z) : Reserves :=
  orient lp d (mkReserves (buys lp d + x) (sells lp d - y)).
Definition after_hop lp d (x y : Z) : Position := PositionOps.with_reserves (hop_reserves lp d x y) lp.

(** A sound position that serves the pair, with moderate reserves. *)
Record serves lp d : Prop := {
  serves_wf : Typed.wf (phi lp);
  serves_pair : d = pair_ab lp \/ d = pair_ba lp;
  serves_r1 : half (r1 (reserves lp));
  serves_r2 : half (r2 (reserves lp));
}.

Lemma serves_direction lp d :
  serves lp d ->
  (flipped lp d = false /\ start d = asset_1 (pair (phi lp)) /\ end_ d = asset_2 (pair (phi lp)))
  \/ (flipped lp d = true /\ start d = asset_2 (pair (phi lp)) /\ end_ d = asset_1 (pair (phi lp))).
Proof.
  intros [[_ Hne] [-> | ->] _ _]; unfold flipped; cbn; [left; by rewrite Z.eqb_refl|right].
  split_and!; [|done..]. apply negb_true_iff, Z.eqb_neq. congruence.
Qed.

Lemma fn_wf lp d : serves lp d -> Bare.wf (fn lp d).
Proof.
  intros Hs. unfold fn. destruct Hs as [[Hwf _] _ _ _]. destruct (flipped lp d); [by apply Bare.wf_flip|done].
Qed.

Lemma serves_half lp d : serves lp d -> half (buys lp d) /\ half (sells lp d).
Proof. intros [_ _ H1 H2]. unfold buys, sells, orient. by destruct (flipped lp d). Qed.

Lemma orient_orient lp d r : orient lp d (orient lp d r) = r.
Proof. unfold orient. destruct (flipped lp d); [apply ReservesOps.reserves_flip_flip|done]. Qed.

Lemma orient_reserves lp d : orient lp d (reserves lp) = mkReserves (buys lp d) (sells lp d).
Proof. unfold buys, sells. by destruct (orient lp d (reserves lp)). Qed.

Definition bare_fill lp d (x : Z) : anyhow (Z * Reserves * Z) :=
  Bare.fill (fn lp d) x (mkReserves (buys lp d) (sells lp d)).

Lemma fill_serves lp d x :
  serves lp d ->
  Typed.fill (phi lp) (mkValue x (start d)) (reserves lp)
    = let! '(u, r, y) := bare_fill lp d x in
      Ok (mkValue u (start d), orient lp d r, mkValue y (end_ d)).
Proof.
  intros Hs. unfold bare_fill. rewrite <- orient_reserves. unfold Typed.fill, fn, orient. cbn [value_asset amount].
  destruct (serves_direction lp d Hs) as [(-> & -> & ->)|(-> & -> & ->)].
  - by rewrite Z.eqb_refl.
  - destruct Hs as [[_ Hne] _ _ _].
    destruct (Z.eqb_spec (asset_2 (pair (phi lp))) (asset_1 (pair (phi lp)))); [congruence|].
    by rewrite Z.eqb_refl.
Qed.

Lemma fill_output_serves lp d y :
  serves lp d ->
  Typed.fill_output (phi lp) (reserves lp) (mkValue y (end_ d))
    = let! o := Bare.fill_output (fn lp d) (mkReserves (buys lp d) (sells lp d)) y in
      Ok (option_map (fun '(r, x) => (orient lp d r, mkValue x (start d))) o).
Proof.
  intros Hs. rewrite <- orient_reserves. unfold Typed.fill_output, fn, orient. cbn [value_asset amount].
  destruct (serves_direction lp d Hs) as [(-> & -> & ->)|(-> & -> & ->)].
  - by rewrite Z.eqb_refl.
  - destruct Hs as [[_ Hne] _ _ _].
    destruct (Z.eqb_spec (asset_1 (pair (phi lp))) (asset_2 (pair (phi lp)))); [congruence|].
    by rewrite Z.eqb_refl.
Qed.

Lemma reserves_for_serves lp d : serves lp d -> PositionOps.reserves_for lp (end_ d) = Some (sells lp d).
Proof.
  intros Hs. unfold PositionOps.reserves_for, sells, orient.
  destruct (serves_direction lp d Hs) as [(-> & _ & ->)|(-> & _ & ->)].
  - destruct Hs as [[_ Hne] _ _ _].
    destruct (Z.eqb_spec (asset_2 (pair (phi lp))) (asset_1 (pair (phi lp)))); [congruence|].
    by rewrite Z.eqb_refl.
  - by rewrite Z.eqb_refl.
Qed.

Lemma matches_input_serves lp d : serves lp d -> Typed.matches_input (phi lp) (start d) = true.
Proof.
  intros Hs. unfold Typed.matches_input.
  destruct (serves_direction lp d Hs) as [(_ & -> & _)|(_ & -> & _)]; rewrite Z.eqb_refl;
    [done | by rewrite orb_true_r].
Qed.

(** What a hop does to the position's holdings. *)
Lemma holds_after_hop lp d x y a :
  serves lp d ->
  PositionOps.holds (after_hop lp d x y) a
    = PositionOps.holds lp a + Typed.carries (mkValue x (start d)) a
      - Typed.carries (mkValue y (end_ d)) a.
Proof.
  intros Hs. pose proof (orient_reserves lp d) as Hr.
  unfold PositionOps.holds, ReservesOps.holds, Typed.carries, after_hop, hop_reserves. cbn.
  unfold buys, sells, orient in *.
  destruct (serves_direction lp d Hs) as [(Hf & -> & ->)|(Hf & -> & ->)]; rewrite Hf in *; cbn;
    repeat case_decide; lia.
Qed.

Lemma after_hop_sides lp d x y :
  buys (after_hop lp d x y) d = buys lp d + x /\ sells (after_hop lp d x y) d = sells lp d - y.
Proof.
  assert (H : orient (after_hop lp d x y) d (reserves (after_hop lp d x y))
    = mkReserves (buys lp d + x) (sells lp d - y)) by apply (orient_orient lp d).
  split; [exact (f_equal r1 H) | exact (f_equal r2 H)].
Qed.

Lemma serves_after_hop lp d x y :
  serves lp d -> half (buys lp d + x) -> half (sells lp d - y) -> serves (after_hop lp d x y) d.
Proof.
  intros [Hw Hp _ _] Hx Hy. split; [done|done|..]; unfold after_hop, hop_reserves, orient; cbn;
    by destruct (flipped lp d).
Qed.

(** ** One hop of an execution *)

(** [x] buys [y]: the amounts are covered, and the pool is not worse off at its own price, up to
    the rounding of one unit of the input. *)
Definition hop_trade lp d (x y : Z) : Prop :=
  0 <= x /\ 0 <= y <= sells lp d /\ half x /\ (x = 0 -> y = 0)
  /\ q (fn lp d) * y < p (fn lp d) * (x + 1).

(** Nothing is free. *)
Lemma max_fill_pos f y : Bare.wf f -> 0 <= y -> Bare.max_fill f y <= 0 -> y = 0.
Proof.
  intros Hf Hy Hm. pose proof (Bare.price_ge f Hf) as Hp. destruct Hf as (_ & Hpf & Hqf).
  pose proof U128x128.B_pos. pose proof (U128x128.ceil_spec (Bare.price_val f * y)) as [_ Hc].
  unfold Bare.max_fill in Hm.
  assert (1 <= q f * U128x128.B / p f).
  { apply Z.div_le_lower_bound; [lia|]. unfold MAX_RESERVE_AMOUNT in *.
    change (Z.shiftl 1 80 - 1) with (2 ^ 80 - 1) in *. change U128x128.B with (2 ^ 128) in *. nia. }
  nia.
Qed.

Lemma hop_fill_pre lp d x :
  serves lp d -> half x -> Bare.fill_pre (fn lp d) x (mkReserves (buys lp d) (sells lp d)).
Proof.
  intros Hs Hx. pose proof (fn_wf _ _ Hs). destruct (serves_half _ _ Hs) as [H1 H2].
  unfold Bare.fill_pre. cbn. unfold half, in_width in *. split; [done|]. split_and!; lia.
Qed.

Lemma hop_fill_total lp d x :
  serves lp d -> half x -> bare_fill lp d x = Err "overflow"%string \/ exists r, bare_fill lp d x = Ok r.
Proof.
  intros Hs Hx. destruct (hop_fill_pre lp d x Hs Hx) as (? & ? & ? & ? & ?). unfold bare_fill.
  rewrite Bare.fill_eq by done. repeat case_match; eauto.
Qed.

Lemma hop_fill_ok lp d x u r y :
  serves lp d -> half x -> bare_fill lp d x = Ok (u, r, y) ->
  hop_trade lp d (x - u) y /\ 0 <= x - u <= x /\ r = mkReserves (buys lp d + (x - u)) (sells lp d - y)
  /\ (u <> 0 -> y = sells lp d).
Proof.
  intros Hs Hx Hf. pose proof (hop_fill_pre lp d x Hs Hx) as Hpre.
  pose proof (Bare.fill_ok_cases _ _ _ _ _ _ Hpre Hf) as (Hc & -> & Hy & Hcases). cbn in *.
  pose proof (Bare.fill_ok_value _ _ _ _ _ _ Hpre Hf) as Hv.
  split_and!; try done; try lia. unfold hop_trade. split_and!; try done; try lia.
  - by eapply half_le; [exact Hx|].
  - intros H0. destruct Hcases as [[-> ->]|[-> Hm]].
    + replace x with 0 by lia. by rewrite Z.mul_0_r.
    + eapply max_fill_pos; [by apply fn_wf|apply (serves_half lp d Hs)|lia].
Qed.

(** Asking for no more than what [x] buys costs no more than [x]. *)
Lemma hop_output_ok lp d x u r y y' :
  serves lp d -> half x -> bare_fill lp d x = Ok (u, r, y) -> 0 <= y' <= y ->
  exists x', Bare.fill_output (fn lp d) (mkReserves (buys lp d) (sells lp d)) y'
      = Ok (Some (mkReserves (buys lp d + x') (sells lp d - y'), x'))
    /\ hop_trade lp d x' y' /\ x' <= x.
Proof.
  intros Hs Hx Hf Hy. destruct (hop_fill_pre lp d x Hs Hx) as (Hwf & Hxt & Hb & Hse & Hsum).
  cbn in Hb, Hse, Hsum. pose proof Hf as Hf'.
  unfold bare_fill in Hf'. rewrite Bare.fill_eq in Hf' by done. cbn in Hf'.
  pose proof (Bare.price_wf _ Hwf) as [Hp _]. pose proof U128x128.B_pos.
  pose proof (Bare.price_product _ Hwf). pose proof (Bare.price_inv_le _ Hwf).
  set (f := fn lp d) in *.
  assert (Hle : Bare.price_val f * y' <= U128x128.B * x).
  { destruct (Z.leb_spec U128x128.U256 (Bare.price_inv_val f * x)) as [|_]; [done|].
    destruct (Z.leb_spec (Bare.price_inv_val f * x) (sells lp d * U128x128.B)) as [Hl|Hl]; simplify_eq.
    - pose proof (Z.mul_div_le (Bare.price_inv_val f * x) U128x128.B ltac:(lia)) as Hd.
      set (z := Bare.price_inv_val f * x / U128x128.B) in *. unfold half in Hx.
      assert (Bare.price_val f * (U128x128.B * y') <= U128x128.B * U128x128.B * x).
      { transitivity (Bare.price_val f * (Bare.price_inv_val f * x)); [apply Z.mul_le_mono_nonneg_l; nia | nia]. }
      nia.
    - unfold in_width in Hse. pose proof (Bare.max_fill_le f x (sells lp d) Hwf Hxt ltac:(lia) Hl). nia. }
  assert (Hm : Bare.max_fill f y' <= x) by (by apply U128x128.ceil_le).
  assert (Hm0 : 0 <= Bare.max_fill f y') by (apply U128x128.ceil_nonneg; nia).
  apply hop_fill_ok in Hf as ((_ & Hys & _) & _); [|done..]. exists (Bare.max_fill f y').
  unfold in_width in *. fold U128x128.B in *. rewrite Bare.fill_output_eq; cbn [r1 r2]; try done; try lia.
  destruct (Z.ltb_spec (sells lp d) y'); [lia|]. split_and!; try done.
  unfold hop_trade. split_and!; try done; try lia; [by eapply half_le| |].
  { intros Hx0. apply (max_fill_pos f); [done|lia|]. fold f. lia. }
  apply Bare.max_fill_value; [done|]. unfold in_width. fold U128x128.B. lia.
Qed.
End Hops.

(** ** Executions along a route *)

(** The pairs form a route from [a]. *)
Fixpoint route_from (a : asset_id) (ds : list DirectedTradingPair) : Prop :=
  match ds with
  | [] => True
  | d :: ds' => start d = a /\ route_from (end_ d) ds'
  end.

Fixpoint route_end (a : asset_id) (ds : list DirectedTradingPair) : asset_id :=
  match ds with
  | [] => a
  | d :: ds' => route_end (end_ d) ds'
  end.

(** [trades ps ds xs ps']: trading the amounts [xs] along the hops turns [ps] into [ps']. *)
Inductive trades : list Position -> list DirectedTradingPair -> list Z -> list Position -> Prop :=
| trades_nil x : trades [] [] [x] []
| trades_cons lp d ps ds x y xs ps' :
    hop_trade lp d x y -> trades ps ds (y :: xs) ps' ->
    trades (lp :: ps) (d :: ds) (x :: y :: xs) (after_hop lp d x y :: ps').

(** [flows ps ds x x']: sensing with [x] reaches the end of the hops with [x']. *)
Inductive flows : list Position -> list DirectedTradingPair -> Z -> Z -> Prop :=
| flows_nil x : flows [] [] x x
| flows_cons lp d ps ds x u r y z :
    bare_fill lp d x = Ok (u, r, y) -> flows ps ds y z -> flows (lp :: ps) (d :: ds) x z.

(** Every hop fills its input completely. *)
Inductive clear : list Position -> list DirectedTradingPair -> Z -> Prop :=
| clear_nil x : clear [] [] x
| clear_cons lp d ps ds x r y :
    bare_fill lp d x = Ok (0, r, y) -> clear ps ds y -> clear (lp :: ps) (d :: ds) x.

Section Routes.
Lemma trades_length ps ds xs ps' :
  trades ps ds xs ps' ->
  length ds = length ps /\ length xs = S (length ps) /\ length ps' = length ps.
Proof. induction 1 as [|lp d ps ds x y xs ps' _ _ (? & ? & ?)]; cbn in *; lia. Qed.

Lemma trades_app ps ds xs y ps' ps2 ds2 ys ps2' :
  trades ps ds (xs ++ [y]) ps' -> trades ps2 ds2 (y :: ys) ps2' ->
  trades (ps ++ ps2) (ds ++ ds2) (xs ++ y :: ys) (ps' ++ ps2').
Proof.
  intros H H2. remember (xs ++ [y]) as zs eqn:Hz. revert xs Hz.
  induction H as [z|lp d ps ds x z zs ps' Hop _ IH]; intros xs Hz.
  - destruct xs as [|x [|]]; simplify_eq/=. done.
  - destruct xs as [|x' xs]; simplify_eq/=. destruct xs as [|x2 xs]; simplify_eq/=.
    + specialize (IH [] eq_refl). by constructor.
    + specialize (IH (x2 :: xs) eq_refl). by constructor.
Qed.

(** The value of the route's positions changes by what comes in at the first hop and goes out at
    the last: every intermediate asset balances. *)
Lemma trades_conserve ps ds x xs ps' a b :
  trades ps ds (x :: xs) ps' -> Forall2 serves ps ds -> route_from b ds ->
  list_sum ((fun lp => PositionOps.holds lp a) <$> ps')
    = list_sum ((fun lp => PositionOps.holds lp a) <$> ps)
      + Typed.carries (mkValue x b) a
      - Typed.carries (mkValue (List.last (x :: xs) 0) (route_end b ds)) a.
Proof.
  intros H. remember (x :: xs) as zs eqn:Hz. revert x xs b Hz.
  induction H as [z|lp d ps ds x z zs ps' Hop _ IH]; intros x' xs b Hz Hs Hr; simplify_eq.
  - cbn. lia.
  - apply Forall2_cons in Hs as [Hs1 Hs]. cbn in Hr. destruct Hr as [<- Hr].
    specialize (IH z zs (end_ d) eq_refl Hs Hr). rewrite !fmap_cons. cbn [list_sum foldr].
    fold (list_sum ((fun lp => PositionOps.holds lp a) <$> ps)).
    fold (list_sum ((fun lp => PositionOps.holds lp a) <$> ps')).
    rewrite holds_after_hop by done. cbn [route_end]. cbn [List.last] in *. lia.
Qed.

(** Positions with enough headroom still serve their hops afterwards. *)
Lemma trades_forall ps ds xs ps' (P : Position -> Position -> Prop) :
  trades ps ds xs ps' ->
  (forall lp d x y, P lp (after_hop lp d x y)) -> Forall2 P ps ps'.
Proof. intros H HP. induction H; by constructor. Qed.

Lemma flows_half ps ds x z : flows ps ds x z -> Forall2 serves ps ds -> half x -> half z.
Proof.
  induction 1 as [|lp d ps ds x u r y z Hf _ IH]; intros Hs Hx; [done|].
  apply Forall2_cons in Hs as [Hs1 Hs]. apply IH; [done|].
  apply hop_fill_ok in Hf as ((_ & Hy & _) & _); [|done..].
  eapply half_le; [apply (serves_half lp d Hs1)|done].
Qed.

Lemma flows_snoc ps ds x y lp d u r z :
  flows ps ds x y -> bare_fill lp d y = Ok (u, r, z) -> flows (ps ++ [lp]) (ds ++ [d]) x z.
Proof. induction 1; intros; cbn; econstructor; eauto. constructor. Qed.

Lemma flows_snoc_inv ps ds lp x z :
  flows (ps ++ [lp]) ds x z ->
  exists ds' d' y u r, ds = ds' ++ [d'] /\ flows ps ds' x y /\ bare_fill lp d' y = Ok (u, r, z).
Proof.
  revert ds x. induction ps as [|lp' ps IH]; intros ds x H; inversion H; subst.
  - match goal with H : flows [] _ _ _ |- _ => inversion H; subst end.
    eexists [], _, _, _, _. split_and!; [done|constructor|done].
  - match goal with H : flows (_ ++ _) _ _ _ |- _ => apply IH in H as (ds' & d' & y' & u' & r' & -> & ? & ?) end.
    eexists (_ :: ds'), d', y', u', r'. split_and!; [done| |done]. by econstructor.
Qed.

(** *** Sensing *)

(** The constraining hop found by sensing: everything flows up to it, it sells all it has, and
    nothing constrains after it. *)
Definition constrained (ps : list Position) (ds : list DirectedTradingPair) (x : Z) (k : nat) : Prop :=
  exists pre lp post dpre d dpost z u r,
    ps = pre ++ lp :: post /\ ds = dpre ++ d :: dpost /\ k = length pre /\ length dpre = length pre
    /\ flows pre dpre x z /\ bare_fill lp d z = Ok (u, r, sells lp d)
    /\ clear post dpost (sells lp d).

Lemma constrained_cons lp d ps ds x u r y k :
  bare_fill lp d x = Ok (u, r, y) -> constrained ps ds y k -> constrained (lp :: ps) (d :: ds) x (S k).
Proof.
  intros Hf (pre & lq & post & dpre & dq & dpost & z & v & s & -> & -> & -> & Hl & Hfl & Hq & Hc).
  exists (lp :: pre), lq, post, (d :: dpre), dq, dpost, z, v, s. split_and!; try done.
  - cbn. lia.
  - by econstructor.
Qed.

Lemma sense_spec `{DexEnv} ps ds a x i c :
  Forall2 serves ps ds -> route_from a ds -> half x ->
  (exists lp, sense ps i (mkValue x a) c = Err (ExecutionOverflow (PositionOps.id lp)) /\ lp ∈ ps)
  \/ (sense ps i (mkValue x a) c = Ok c /\ clear ps ds x)
  \/ (exists k, sense ps i (mkValue x a) c = Ok (Some (i + k)%nat) /\ constrained ps ds x k).
Proof.
  intros Hs. revert a x i c. induction Hs as [|lp d ps ds Hs1 Hs IH]; intros a x i c Hr Hx.
  { right. left. split; [done|constructor]. }
  cbn [route_from] in Hr. destruct Hr as [<- Hr]. cbn [sense value_asset].
  rewrite (matches_input_serves lp d Hs1). cbn [negb]. rewrite fill_serves by done.
  destruct (hop_fill_total lp d x Hs1 Hx) as [Hov|[[[u r] y] Hf]].
  { left. exists lp. rewrite Hov. split; [done|set_solver]. }
  rewrite Hf. cbn [outcome_bind map_err amount].
  pose proof (hop_fill_ok lp d x u r y Hs1 Hx Hf) as ((_ & Hy & _) & Hu & _ & Hall).
  assert (Hyh : half y) by (eapply half_le; [apply (serves_half lp d Hs1)|done]).
  destruct (Z.ltb_spec 0 u) as [Hlt|Hge].
  - assert (y = sells lp d) as -> by (apply Hall; lia).
    destruct (IH (end_ d) (sells lp d) (S i) (Some i) Hr Hyh) as [(lq & Hq & Hin)|[[Hq Hc]|(k & Hq & Hc)]].
    + left. exists lq. split; [done|set_solver].
    + right. right. exists 0%nat. rewrite Nat.add_0_r. split; [done|].
      exists [], lp, ps, [], d, ds, x, u, r. split_and!; try done. constructor.
    + right. right. exists (S k). split; [by rewrite Nat.add_succ_r|]. by eapply constrained_cons.
  - assert (u = 0) as -> by lia.
    destruct (IH (end_ d) y (S i) c Hr Hyh) as [(lq & Hq & Hin)|[[Hq Hc]|(k & Hq & Hc)]].
    + left. exists lq. split; [done|set_solver].
    + right. left. split; [done|]. by econstructor.
    + right. right. exists (S k). split; [by rewrite Nat.add_succ_r|]. by eapply constrained_cons.
Qed.

(** *** Writing into a transaction *)

Lemma set_at_middle {E A} (pre post : list A) x y :
  @set_at E A (length pre) x (pre ++ y :: post) = Ok (pre ++ x :: post).
Proof.
  unfold set_at. rewrite length_app. cbn [length].
  destruct (Nat.ltb_spec (length pre) (length pre + S (length post))); [|lia].
  by rewrite insert_app_r_alt, Nat.sub_diag by done.
Qed.

(** The transaction that has recorded positions [ps] and amounts [xs] from some hop on. *)
Definition recorded (ps : list Position) : list (option Reserves) := (fun lp => Some (reserves lp)) <$> ps.

Lemma forward_spec `{DexEnv} ps ds a x R T :
  Forall2 serves ps ds -> route_from a ds -> half x -> clear ps ds x -> length T = length R ->
  exists xs ps', trades ps ds (x :: xs) ps'
    /\ forward ps (length R) (mkValue x a)
         (FrontierTx.mk (R ++ replicate (length ps) None) ((T ++ [Some x]) ++ replicate (length ps) None))
       = Ok (FrontierTx.mk (R ++ recorded ps') (T ++ (Some <$> x :: xs))).
Proof.
  intros Hs Hr Hx Hc. revert a R T Hs Hr Hx. induction Hc as [x|lp d ps ds x r y Hf Hc IH];
    intros a R T Hs Hr Hx HT.
  { exists [], []. split; [constructor|]. cbn. by rewrite !app_nil_r. }
  apply Forall2_cons in Hs as [Hs1 Hs]. cbn [route_from] in Hr. destruct Hr as [<- Hr].
  pose proof (hop_fill_ok lp d x 0 r y Hs1 Hx Hf) as (Ht & _ & -> & _). rewrite Z.sub_0_r in *.
  assert (Hy : half y) by (eapply half_le; [apply (serves_half lp d Hs1) | apply Ht]).
  destruct (IH (end_ d) (R ++ [Some (hop_reserves lp d x y)]) (T ++ [Some x]) Hs Hr Hy) as (xs & ps' & Htr & Hfw).
  { rewrite !length_app. cbn. lia. }
  exists (y :: xs), (after_hop lp d x y :: ps'). split; [by constructor|].
  cbn [forward length replicate]. rewrite fill_serves, Hf by done. cbn [outcome_bind expect_ok amount].
  cbn [Z.eqb negb]. unfold FrontierTx.set_new_reserves, FrontierTx.set_trace. cbn [FrontierTx.new_reserves FrontierTx.trace].
  rewrite set_at_middle. cbn [outcome_bind FrontierTx.new_reserves FrontierTx.trace].
  replace (S (length R)) with (length (T ++ [Some x])) by (rewrite length_app; cbn; lia).
  rewrite set_at_middle. cbn [outcome_bind FrontierTx.new_reserves FrontierTx.trace].
  replace (length (T ++ [Some x])) with (length (R ++ [Some (hop_reserves lp d x y)]))
    by (rewrite !length_app; cbn; lia).
  rewrite <- !app_assoc in Hfw. cbn [app] in Hfw. rewrite <- !app_assoc. cbn [app].
  unfold hop_reserves in *. rewrite Hfw. done.
Qed.

Lemma backward_spec `{DexEnv} pre : forall dpre lp d post RR TT x z u r y y',
  Forall2 serves (pre ++ [lp]) (dpre ++ [d]) ->
  length dpre = length pre -> (exists a, route_from a (dpre ++ [d])) -> half x ->
  flows pre dpre x z -> bare_fill lp d z = Ok (u, r, y) -> 0 <= y' <= y ->
  exists x' xs ps', trades (pre ++ [lp]) (dpre ++ [d]) ((x' :: xs) ++ [y']) ps' /\ x' <= x
    /\ backward (pre ++ lp :: post) (length pre) (mkValue y' (end_ d))
         (FrontierTx.mk (replicate (S (length pre)) None ++ RR) (replicate (S (S (length pre))) None ++ TT))
       = Ok (FrontierTx.mk (recorded ps' ++ RR) ((Some <$> (x' :: xs) ++ [y']) ++ TT)).
Proof.
  induction pre as [|lq pre IH] using rev_ind; intros dpre lp d post RR TT x z u r y y' Hs Hlen Hroute Hx Hfl Hf Hy.
  - destruct dpre; [|done]. inversion Hfl; subst. cbn [app] in *.
    apply Forall2_cons in Hs as [Hs1 _].
    destruct (hop_output_ok lp d z u r y y' Hs1 Hx Hf Hy) as (x' & Ho & Ht & Hle).
    exists x', [], [after_hop lp d x' y']. split; [constructor; [done|constructor]|]. split; [done|].
    cbn [backward length replicate]. unfold FrontierTx.set_trace, FrontierTx.set_new_reserves.
    cbn [FrontierTx.new_reserves FrontierTx.trace amount].
    rewrite (set_at_middle (replicate 1 None) TT (Some y') None). cbn [outcome_bind app lookup list_lookup expect_some].
    rewrite fill_output_serves, Ho by done. cbn [outcome_bind expect_ok option_map expect_some FrontierTx.new_reserves].
    rewrite (set_at_middle [] RR _ None). cbn [outcome_bind FrontierTx.trace FrontierTx.new_reserves app replicate].
    cbn [amount]. rewrite (set_at_middle [] _ (Some x') None : set_at 0 _ (None :: _) = _). done.
  - destruct dpre as [|dq dpre _] using rev_ind; [rewrite length_app in Hlen; cbn in Hlen; lia|].
    rewrite !length_app in Hlen. cbn in Hlen.
    apply flows_snoc_inv in Hfl as (ds' & d' & z' & u' & r' & Heq & Hfl & Hfq).
    apply app_inj_tail in Heq as [<- <-].
    apply Forall2_app_inv in Hs as [Hs Hs1]; [|rewrite !length_app; cbn; lia].
    apply Forall2_cons in Hs1 as [Hs1 _].
    assert (Hz' : half z').
    { eapply flows_half; [exact Hfl| |exact Hx]. by apply Forall2_app_inv in Hs as [? _]; [|lia]. }
    assert (Hsq : serves lq dq).
    { apply Forall2_app_inv in Hs as [_ Hs]; [|lia]. by apply Forall2_cons in Hs as [? _]. }
    pose proof (hop_fill_ok lq dq z' u' r' z Hsq Hz' Hfq) as ((_ & Hzq & _) & _).
    assert (Hz : half z) by (eapply half_le; [apply (serves_half lq dq Hsq)|done]).
    destruct (hop_output_ok lp d z u r y y' Hs1 Hz Hf Hy) as (x1 & Ho & Ht & Hle).
    assert (Hnext : start d = end_ dq).
    { destruct Hroute as [a Ha]. clear -Ha. revert a Ha.
      induction dpre as [|d0 dpre IH]; cbn; intros a [_ Ha]; [by destruct Ha as [-> _]|]. by eapply IH. }
    destruct (IH dpre lq dq (lp :: post) (Some (hop_reserves lp d x1 y') :: RR) (Some y' :: TT) x z' u' r' z x1)
      as (x' & xs & ps' & Htr & Hx' & Hb); try done.
    { lia. }
    { destruct Hroute as [a Ha]. exists a. clear -Ha. revert a Ha.
      induction dpre as [|d0 dpre IH]; cbn; intros a [He Ha]; (split; [done|]); [done|by apply IH]. }
    { split; [apply Ht|done]. }
    exists x', (xs ++ [x1]), (ps' ++ [after_hop lp d x1 y']). split; [|split; [done|]].
    + replace ((x' :: xs ++ [x1]) ++ [y']) with ((x' :: xs) ++ x1 :: [y'])
        by (cbn; by rewrite <- app_assoc).
      apply (trades_app _ _ (x' :: xs) x1 _ [lp] [d] [y']); [done|].
      constructor; [done|constructor].
    + rewrite length_app. cbn [length]. rewrite Nat.add_1_r.
      rewrite <- (app_assoc pre). cbn [app]. cbn [backward].
      unfold FrontierTx.set_trace, FrontierTx.set_new_reserves. cbn [FrontierTx.new_reserves FrontierTx.trace amount].
      assert (Hrep : forall A n (l : list (option A)), replicate (S n) None ++ l = replicate n None ++ None :: l).
      { intros A n l. rewrite replicate_S_end, <- app_assoc. done. }
      rewrite (Hrep _ (S (S (length pre)))).
      rewrite <- (length_replicate (S (S (length pre))) (@None Z)) at 1.
      rewrite set_at_middle. cbn [outcome_bind FrontierTx.new_reserves FrontierTx.trace].
      replace ((pre ++ lq :: lp :: post) !! S (length pre)) with (Some lp).
      2: { change (pre ++ lq :: lp :: post) with (pre ++ [lq] ++ lp :: post). rewrite app_assoc.
           symmetry. apply list_lookup_middle. rewrite length_app. cbn. lia. }
      cbn [expect_some outcome_bind]. rewrite fill_output_serves, Ho by done.
      cbn [outcome_bind expect_ok option_map expect_some FrontierTx.new_reserves].
      rewrite (Hrep _ (S (length pre))). rewrite <- (length_replicate (S (length pre)) (@None Reserves)) at 1.
      rewrite set_at_middle. cbn [outcome_bind FrontierTx.new_reserves FrontierTx.trace].
      rewrite Hnext. unfold hop_reserves in Hb. rewrite Hb.
      unfold recorded. rewrite fmap_app, <- !app_assoc. cbn [app fmap list_fmap]. rewrite !fmap_app, <- !app_assoc.
      done.
Qed.
End Routes.

(** ** One iteration on an aligned frontier *)

(** The frontier's positions serve its pairs, which form a route from [a]. *)
Record aligned (a : asset_id) (f : Frontier.t) : Prop := {
  aligned_serves : Forall2 serves (positions f) (pairs f);
  aligned_route : route_from a (pairs f);
  aligned_nonempty : pairs f <> [];
}.

(** The values that pass the assets of the route. *)
Definition route_trace (a : asset_id) (ds : list DirectedTradingPair) (xs : list Z) : list Value :=
  match xs with
  | [] => []
  | x :: ys => mkValue x a :: zip_with (fun y d => mkValue y (end_ d)) ys ds
  end.

Section Iteration.
Context `{DexEnv}.

Lemma trades_constrained pre lp post dpre d dpost xs ps' y ys ps2 :
  length dpre = length pre ->
  trades (pre ++ [lp]) (dpre ++ [d]) (xs ++ [y]) ps' -> trades post dpost (y :: ys) ps2 ->
  y = sells lp d ->
  exists lq, (ps' ++ ps2) !! length pre = Some lq /\ sells lq d = 0.
Proof.
  intros Hl H1 _ ->. remember (pre ++ [lp]) as ps eqn:Hps. remember (dpre ++ [d]) as ds eqn:Hds.
  remember (xs ++ [sells lp d]) as zs eqn:Hzs. revert pre dpre xs Hl Hps Hds Hzs.
  induction H1 as [z|lq dq ps ds x z zs ps' Hop Htr IH]; intros pre dpre xs Hl Hps Hds Hzs.
  - by destruct pre.
  - destruct pre as [|lq' pre], dpre as [|dq' dpre]; simplify_eq/=.
    + inversion Htr; subst. destruct xs as [|x' [|x2 xs]]; simplify_eq/=.
      * eexists. split; [done|]. rewrite (proj2 (after_hop_sides lp d _ _)). lia.
      * destruct xs; simplify_eq/=.
    + destruct xs as [|x' xs]; simplify_eq/=.
      by apply (IH pre dpre xs).
Qed.

Lemma fill_constrained_spec f a x k :
  aligned a f -> half x -> constrained (positions f) (pairs f) x k ->
  exists x' xs ps', fill_constrained f k = Ok (FrontierTx.mk (recorded ps') (Some <$> x' :: xs))
    /\ trades (positions f) (pairs f) (x' :: xs) ps' /\ x' <= x
    /\ exists lq d, ps' !! k = Some lq /\ pairs f !! k = Some d /\ sells lq d = 0.
Proof.
  intros [Hs Hr _] Hx (pre & lp & post & dpre & d & dpost & z & u & r & Hps & Hds & -> & Hl & Hfl & Hf & Hc).
  rewrite Hps, Hds in *.
  change (pre ++ lp :: post) with (pre ++ [lp] ++ post) in Hs.
  change (dpre ++ d :: dpost) with (dpre ++ [d] ++ dpost) in Hs, Hr.
  rewrite (app_assoc pre), (app_assoc dpre) in Hs. rewrite (app_assoc dpre) in Hr.
  apply Forall2_app_inv in Hs as [Hs1 Hs2]; [|rewrite !length_app; cbn; lia].
  assert (Hserves : serves lp d).
  { apply Forall2_app_inv in Hs1 as [_ Hs1]; [|lia]. by apply Forall2_cons in Hs1 as [? _]. }
  assert (Hrs : route_from a (dpre ++ [d]) /\ route_from (end_ d) dpost).
  { clear -Hr. revert a Hr. induction dpre as [|d0 dpre IH]; cbn; intros a [He Hr]; [done|].
    apply IH in Hr as [? ?]. done. }
  destruct Hrs as [Hr1 Hr2]. destruct (serves_half lp d Hserves) as [_ Hsell].
  destruct (backward_spec pre dpre lp d post (replicate (length post) None) (replicate (length post) None)
    x z u r (sells lp d) (sells lp d)) as (x' & xs & ps1 & Ht1 & Hle & Hb); try done.
  { by exists a. } { unfold half in Hsell. lia. }
  destruct (forward_spec post dpost (end_ d) (sells lp d) (recorded ps1) (Some <$> (x' :: xs)) Hs2 Hr2 Hsell Hc)
    as (ys & ps2 & Ht2 & Hfw).
  { apply trades_length in Ht1 as (_ & Hx1 & Hp1). unfold recorded. rewrite !length_fmap.
    rewrite length_app in Hx1. cbn in *. lia. }
  exists x', (xs ++ sells lp d :: ys), (ps1 ++ ps2). split_and!; [| |done|].
  - unfold fill_constrained. rewrite Hps, Hds.
    rewrite list_lookup_middle by done. cbn [expect_some outcome_bind].
    rewrite list_lookup_middle by done. cbn [expect_some outcome_bind].
    rewrite reserves_for_serves by done. cbn [expect_some outcome_bind].
    unfold fill_backward, new_tx. rewrite Hps, Hds, !length_app. cbn [length].
    assert (Hlen : length dpost = length post) by (symmetry; by eapply Forall2_length).
    rewrite Hl, Hlen, !Nat.add_succ_r, Nat.add_0_r, <- !Nat.add_succ_l, !replicate_add, Hb.
    cbn [outcome_bind]. unfold fill_forward. rewrite Hps.
    change (pre ++ lp :: post) with (pre ++ [lp] ++ post). rewrite app_assoc.
    replace (S (length pre)) with (length (pre ++ [lp])) by (rewrite length_app; cbn; lia).
    rewrite drop_app_length.
    replace (length (pre ++ [lp])) with (length (recorded ps1))
      by (unfold recorded; rewrite length_fmap; apply trades_length in Ht1; lia).
    rewrite fmap_app. cbn [fmap list_fmap]. cbn [fmap list_fmap] in Hfw. rewrite Hfw.
    unfold recorded. rewrite !fmap_app. cbn [fmap list_fmap app]. done.
  - rewrite app_comm_cons. change (pre ++ lp :: post) with (pre ++ [lp] ++ post).
    change (dpre ++ d :: dpost) with (dpre ++ [d] ++ dpost).
    rewrite (app_assoc pre), (app_assoc dpre). by apply trades_app.
  - destruct (trades_constrained pre lp post dpre d dpost (x' :: xs) ps1 (sells lp d) ys ps2 Hl Ht1 Ht2 eq_refl)
      as (lq & Hlq & Hz). exists lq, d. split_and!; try done. by apply list_lookup_middle.
Qed.

Lemma fill_unconstrained_spec f a x :
  aligned a f -> half x -> clear (positions f) (pairs f) x ->
  exists xs ps', fill_unconstrained f (mkValue x a) = Ok (FrontierTx.mk (recorded ps') (Some <$> x :: xs))
    /\ trades (positions f) (pairs f) (x :: xs) ps'.
Proof.
  intros [Hs Hr Hne] Hx Hc.
  destruct (forward_spec _ _ a x [] [] Hs Hr Hx Hc eq_refl) as (xs & ps' & Ht & Hfw).
  exists xs, ps'. split; [|done]. unfold fill_unconstrained.
  pose proof (Forall2_length _ _ _ Hs) as Hlen.
  destruct (pairs f) as [|d ds] eqn:Hp; [done|]. cbn in Hr. destruct Hr as [<- Hr].
  cbn [head expect_some outcome_bind value_asset]. rewrite Z.eqb_refl. cbn [negb amount].
  unfold FrontierTx.set_trace, new_tx. cbn [FrontierTx.trace FrontierTx.new_reserves]. rewrite Hp.
  rewrite Nat.add_1_r, replicate_S, (set_at_middle [] _ (Some x) None : set_at 0 _ (None :: _) = _).
  cbn [outcome_bind]. unfold fill_forward. rewrite drop_0. cbn [app length] in *.
  rewrite Hlen in Hfw |- *. cbn [length] in *. exact Hfw.
Qed.

(** Phases 1 and 2 of an iteration: an overflow of one of the positions, or a transaction that trades
    along the whole route within the input, and exhausts the input or one of the positions. *)
Lemma next_tx_spec f a x :
  aligned a f -> half x ->
  (exists lp, next_tx f (mkValue x a) = Err (ExecutionOverflow (PositionOps.id lp)) /\ lp ∈ positions f)
  \/ exists c x' xs ps', next_tx f (mkValue x a) = Ok (c, FrontierTx.mk (recorded ps') (Some <$> x' :: xs))
       /\ trades (positions f) (pairs f) (x' :: xs) ps' /\ x' <= x
       /\ match c with
          | None => x' = x
          | Some k => exists lq d, ps' !! k = Some lq /\ pairs f !! k = Some d /\ sells lq d = 0
          end.
Proof.
  intros Ha Hx. pose proof Ha as [Hs Hr _]. unfold next_tx, sense_capacity_constraint.
  destruct (sense_spec (positions f) (pairs f) a x 0 None Hs Hr Hx) as [(lp & Hq & Hin)|[[Hq Hc]|(k & Hq & Hc)]];
    rewrite Hq; cbn [outcome_bind].
  - left. by exists lp.
  - right. destruct (fill_unconstrained_spec f a x Ha Hx Hc) as (xs & ps' & Hf & Ht).
    exists None, x, xs, ps'. rewrite Hf. done.
  - right. destruct (fill_constrained_spec f a x k Ha Hx Hc) as (x' & xs & ps' & Hf & Ht & Hle & Hz).
    exists (Some k), x', xs, ps'. rewrite Nat.add_0_l, Hf. done.
Qed.

(** *** Committing *)

Lemma apply_reserves_spec ps ds x xs ps' : trades ps ds (x :: xs) ps' ->
  forall pre dpre A f tr,
  positions f = pre ++ ps -> pairs f = dpre ++ ds -> length dpre = length pre -> length A = length pre ->
  apply_reserves (recorded ps') (length pre) (A ++ (Some <$> x :: xs)) f tr
    = Ok (set_positions (pre ++ ps') f, tr ++ zip_with (fun y d => mkValue y (end_ d)) xs ds).
Proof.
  intros Hall. remember (x :: xs) as zs eqn:Hzs. revert x xs Hzs.
  induction Hall as [z|lp d ps ds x y zs ps' Hop Htr IH]; intros x0 xs Hzs pre dpre A f tr Hp Hd Hl HA;
    simplify_eq.
  - cbn. rewrite app_nil_r in *. destruct f; cbn in *. subst. by rewrite app_nil_r.
  - cbn [recorded fmap list_fmap apply_reserves expect_some outcome_bind].
    replace ((A ++ Some x0 :: Some y :: map Some zs) !! S (length pre)) with (Some (Some y)).
    2: { rewrite lookup_app_r by lia. rewrite HA, Nat.sub_succ_l, Nat.sub_diag by lia. done. }
    cbn [mjoin option_join expect_some outcome_bind]. rewrite Hp, list_lookup_middle by done.
    cbn [expect_some outcome_bind]. rewrite set_at_middle. cbn [outcome_bind].
    rewrite Hd, list_lookup_middle by done. cbn [expect_some outcome_bind].
    specialize (IH y zs eq_refl (pre ++ [after_hop lp d x0 y]) (dpre ++ [d]) (A ++ [Some x0])
      (set_positions (pre ++ after_hop lp d x0 y :: ps) f) (tr ++ [mkValue y (end_ d)])).
    assert (Hlen : length (pre ++ [after_hop lp d x0 y]) = S (length pre)) by (rewrite length_app; cbn; lia).
    rewrite Hlen, !length_app, <- !app_assoc in IH. cbn [app length] in IH.
    specialize (IH eq_refl Hd ltac:(lia) ltac:(lia)). exact IH.
Qed.

Lemma last_amount_some {E} rs x xs :
  @FrontierTx.last_amount E (FrontierTx.mk rs (Some <$> x :: xs)) = Ok (List.last (x :: xs) 0).
Proof.
  unfold FrontierTx.last_amount. cbn [FrontierTx.trace].
  enough (mjoin (last (Some x :: (Some <$> xs))) = Some (List.last (x :: xs) 0)) as H0
    by (cbn [fmap list_fmap] in *; by rewrite H0).
  revert x. induction xs as [|y xs IH]; intros x; [done|]. cbn [fmap list_fmap].
  change (last (Some x :: Some y :: (Some <$> xs))) with (last (Some y :: (Some <$> xs))). by rewrite IH.
Qed.

Lemma apply_spec f a x xs ps' :
  aligned a f -> trades (positions f) (pairs f) (x :: xs) ps' ->
  apply (FrontierTx.mk (recorded ps') (Some <$> x :: xs)) f
    = Ok (mk (pairs f) ps' (position_ids f) (positions_by_price f)
             (trace f ++ [route_trace a (pairs f) (x :: xs)]), (x, List.last (x :: xs) 0)).
Proof.
  intros [Hs Hr Hne] Ht. unfold apply. cbn [FrontierTx.trace FrontierTx.new_reserves].
  cbn [fmap list_fmap lookup list_lookup mjoin option_join expect_some outcome_bind].
  pose proof (apply_reserves_spec _ _ _ _ _ Ht [] [] [] f) as Ha. cbn [app length fmap list_fmap] in Ha.
  destruct (pairs f) as [|d ds] eqn:Hp; [done|]. cbn [lookup list_lookup expect_some outcome_bind].
  cbn [route_from] in Hr. destruct Hr as [Hstart Hr].
  rewrite Ha by done. cbn [outcome_bind]. unfold FrontierTx.first_amount.
  cbn [FrontierTx.trace head mjoin option_join expect_some outcome_bind].
  rewrite (last_amount_some (recorded ps') x xs : FrontierTx.last_amount _ = _). cbn [outcome_bind]. rewrite Hstart.
  destruct f; cbn in *. by subst.
Qed.
End Iteration.
