(* ===== verification/ExecutionFacts.v ===== *)
(** * Executions against positions always succeed

    A position that has moved along one of its two directions, within its reserves, can always be
    written back: no index, counter, price record or volume tally of [position_execution] fails or
    panics. *)

From S2P Require Import Prelude.
From S2P Require Import Num.
From S2P Require Import Asset.
From S2P Require Import TradingFunction.
From S2P Require Import Position.
From S2P Require Import Vcb.
From S2P Require Import DexState.
From S2P Require Import Indexes.
From S2P Require Import IndexFacts.
From S2P Require Import PositionManager.
From S2P Require Import PositionFacts.
From S2P Require Import Path.
From S2P Require Import Router.
From S2P Require Import RouterFacts.

Section Execution.
Context `{DexEnv}.
Import PositionManager.

(** [new] is [prev] after buying [x] and selling [y] along the pair [d]; the fee on [x] fits. *)
Record moved (prev new : Position) (d : DirectedTradingPair) (x y : Z) : Prop := {
  moved_serves : serves prev d;
  moved_phi : phi new = phi prev;
  moved_reserves : reserves new = hop_reserves prev d x y;
  moved_in : 0 <= x;
  moved_out : 0 <= y <= sells prev d;
  moved_paid : x = 0 -> y = 0;
  moved_fee : x * fee (component (phi prev)) < 2 ^ 128;
}.

(** The reserves that moved, in terms of the pair. *)
Lemma moved_cases prev new d x y :
  moved prev new d x y ->
  (d = pair_ab prev /\ r1 (reserves new) = r1 (reserves prev) + x
     /\ r2 (reserves new) = r2 (reserves prev) - y)
  \/ (d = pair_ba prev /\ r1 (reserves new) = r1 (reserves prev) - y
     /\ r2 (reserves new) = r2 (reserves prev) + x).
Proof.
  intros [Hs _ Hr _ _ _ _]. pose proof (orient_reserves prev d) as Ho.
  rewrite Hr. unfold hop_reserves, buys, sells, orient in *.
  destruct (serves_direction prev d Hs) as [(Hf & Hst & Hen)|(Hf & Hst & Hen)]; rewrite Hf in *; cbn in *.
  - left. split_and!; [|lia..]. destruct d; unfold pair_ab; cbn in *. congruence.
  - right. split_and!; [|lia..]. destruct d; unfold pair_ba, pair_ab, Pair.flip; cbn in *. congruence.
Qed.

Lemma moved_flows prev new d x y :
  moved prev new d x y -> exists f, @PositionOps.flows string new prev = Ok f
    /\ Flows.fpair f = pair_ab new.
Proof.
  intros Hm. pose proof (moved_cases _ _ _ _ _ Hm) as Hc. destruct Hm as [Hs Hphi _ Hx Hy Hp Hfee].
  destruct (serves_wf _ _ Hs) as [(Hf & _) _].
  assert (Hz : @plain_mul string 128 0 (fee (component (phi prev))) = Ok 0) by (by rewrite plain_mul_run).
  unfold PositionOps.flows, Flows.from_phi_and_reserves. rewrite Hphi.
  destruct Hc as [(Hd & H1 & H2)|(Hd & H1 & H2)].
  - destruct (Z.ltb_spec (r1 (reserves prev)) (r1 (reserves new))).
    + rewrite !plain_sub_run by lia. cbn [outcome_bind].
      replace (r1 (reserves new) - r1 (reserves prev)) with x by lia.
      rewrite plain_mul_run by done. cbn [outcome_bind]. rewrite Hz. cbn [outcome_bind].
      eexists. split; [done|]. cbn. unfold pair_ab. by rewrite Hphi.
    + assert (x = 0) as -> by lia. specialize (Hp eq_refl). rewrite !plain_sub_run by lia.
      cbn [outcome_bind]. rewrite Hz. cbn [outcome_bind].
      replace (r2 (reserves new) - r2 (reserves prev)) with 0 by lia. rewrite Hz. cbn [outcome_bind].
      eexists. split; [done|]. cbn. unfold pair_ab. by rewrite Hphi.
  - destruct (Z.ltb_spec (r1 (reserves prev)) (r1 (reserves new))); [lia|].
    rewrite !plain_sub_run by lia. cbn [outcome_bind]. rewrite Hz. cbn [outcome_bind].
    replace (r2 (reserves new) - r2 (reserves prev)) with x by lia.
    rewrite plain_mul_run by done. cbn [outcome_bind].
    eexists. split; [done|]. cbn. unfold pair_ab. by rewrite Hphi.
Qed.

(** The price record never panics (its errors are ignored by the caller). *)
Lemma chandelier_total prev new d x y s :
  moved prev new d x y -> new <> prev ->
  exists s', ignore_error (Chandelier.record_position_execution prev new) s = (Ok tt, s')
    /\ exists v, s' = set_block_executions v s.
Proof.
  intros Hm Hne. pose proof (moved_cases _ _ _ _ _ Hm) as Hc. destruct Hm as [Hs Hphi _ Hx Hy Hp Hfee].
  pose proof (serves_wf _ _ Hs) as [Hwf Hdist].
  assert (Hfor : PositionOps.reserves_for prev (asset_1 (pair (phi prev))) = Some (r1 (reserves prev))
    /\ PositionOps.reserves_for new (asset_1 (pair (phi prev))) = Some (r1 (reserves new))
    /\ PositionOps.reserves_for prev (asset_2 (pair (phi prev))) = Some (r2 (reserves prev))
    /\ PositionOps.reserves_for new (asset_2 (pair (phi prev))) = Some (r2 (reserves new))).
  { rewrite <- Hphi at 2 4. rewrite !PositionOps.reserves_for_start, !PositionOps.reserves_for_end; rewrite ?Hphi; done. }
  destruct Hfor as (F1 & F2 & F3 & F4).
  assert (exists s', Chandelier.record_position_execution prev new s = (Ok tt, s')
    /\ exists v, s' = set_block_executions v s) as (s' & Hr & Hv).
  { unfold Chandelier.record_position_execution. rewrite decide_False by congruence.
    cbv zeta. rewrite F1, F2. unfold Chandelier.option_ltb.
    unfold bind, gets, lift, Chandelier.put_block_executions_by_pair, modify.
    destruct (Z.ltb_spec (r1 (reserves prev)) (r1 (reserves new))); cbn [start end_].
    - unfold Typed.orient_start. cbn [ok_or].
      destruct (Z.eqb_spec (asset_2 (pair (phi prev))) (asset_1 (pair (phi prev)))); [congruence|].
      rewrite Z.eqb_refl. cbn [ok_or]. rewrite Bare.effective_price_eq by (by apply Bare.wf_flip).
      rewrite F1, F2. cbn [ok_or]. rewrite plain_sub_run by lia. eauto.
    - unfold Typed.orient_start. rewrite Z.eqb_refl. cbn [ok_or].
      rewrite Bare.effective_price_eq by done. rewrite F3, F4. cbn [ok_or].
      rewrite plain_sub_run by (destruct Hc as [(_ & ? & ?)|(_ & ? & ?)]; [assert (x = 0) by lia; lia | lia]).
      eauto. }
  exists s'. split; [|done]. unfold ignore_error. by rewrite Hr.
Qed.

(** *** The sole writer, for a position that stays opened *)

Lemma liquidity_total lp new id s :
  LiquidityFacts.sound lp -> LiquidityFacts.sound new -> phi new = phi lp ->
  exists s', LiquidityIndex.update_asset_by_base_liquidity_index id (Some lp) new s = (Ok tt, s').
Proof.
  intros Hl Hn Hphi. unfold LiquidityIndex.update_asset_by_base_liquidity_index.
  rewrite (LiquidityFacts.contributions_ok lp), (LiquidityFacts.contributions_ok new)
    by (done || (by unfold pair_ab; rewrite Hphi)).
  rewrite !bind_lift_ok. case_match; [by eexists|].
  destruct (inner_total id (pair_ab new) (LiquidityFacts.contribution (pair_ab new) lp)
    (LiquidityFacts.contribution (pair_ab new) new) s) as (sa & Ha & _).
  erewrite bind_run_ok by exact Ha.
  destruct (inner_total id (Pair.flip (pair_ab new))
    (LiquidityFacts.contribution (Pair.flip (pair_ab new)) lp)
    (LiquidityFacts.contribution (Pair.flip (pair_ab new)) new) sa) as (sb & Hb & _).
  by exists sb.
Qed.

Lemma volume_total prev new d x y id s :
  moved prev new d x y -> is_Some (current_epoch s) ->
  exists s', VolumeTracker.update_volume_index id (Some prev) new s = (Ok tt, s').
Proof.
  intros Hm [ep He]. destruct (moved_flows _ _ _ _ _ Hm) as (f & Hf & Hpair).
  pose proof (moved_phi _ _ _ _ _ Hm) as Hphi.
  unfold VolumeTracker.update_volume_index. case_match eqn:Hin; [by eexists|].
  case_match; [by eexists|]. rewrite Hf, bind_lift_ok.
  assert (exists g, Flows.redirect f (mkDirected STAKING_TOKEN_ASSET_ID
    (VolumeTracker.other_asset (pair (phi new)))) = Some g) as [g Hg].
  { apply negb_false_iff in Hin. unfold Typed.matches_input in Hin. apply orb_true_iff in Hin.
    destruct (serves_wf _ _ (moved_serves _ _ _ _ _ Hm)) as [_ Hne]. rewrite <- Hphi in Hne.
    unfold Flows.redirect. rewrite Hpair. unfold VolumeTracker.other_asset, pair_ab, Pair.flip. cbn.
    destruct Hin as [Heq|Heq]; apply Z.eqb_eq in Heq; rewrite Heq.
    - rewrite Z.eqb_refl. cbn. rewrite decide_True by done. by eexists.
    - destruct (Z.eqb_spec (asset_1 (pair (phi new))) (asset_2 (pair (phi new)))); [congruence|]. cbn.
      rewrite decide_False by congruence. rewrite decide_True by done. by eexists. }
  rewrite Hg. cbn [expect_some]. rewrite bind_lift_ok.
  unfold DexRead.get_volume_for_position, DexRead.get_current_epoch.
  assert (Hep : forall s, current_epoch s = Some ep ->
    (o <- gets current_epoch;; lift (expect_some o)) s = (Ok ep, s) :> (anyhow Epoch * DexState)).
  { intros s0 Hs0. unfold bind, gets, lift. by rewrite Hs0. }
  erewrite bind_run_ok; [|unfold bind at 1; rewrite (Hep _ He); reflexivity].
  erewrite bind_run_ok; [|by apply Hep]. by eexists.
Qed.

Lemma update_trade_total prev new d x y s :
  consistent s -> positions s !! PositionOps.id new = Some prev -> moved prev new d x y ->
  PositionOps.typed new ->
  state prev = PositionState.Opened -> state new = PositionState.Opened ->
  is_Some (current_epoch s) ->
  exists s', update_position (PositionOps.id new) (Some prev) new s = (Ok new, s').
Proof.
  intros Hc Hl Hm Hty Hop Hon Hep. pose proof (moved_phi _ _ _ _ _ Hm) as Hphi.
  destruct (consistent_positions _ Hc _ _ Hl) as (_ & Htp & Hwf).
  assert (Hwfn : Typed.wf (phi new)) by (by rewrite Hphi).
  assert (His : PositionState.is_opened (state new) = true) by (by rewrite Hon).
  unfold update_position, guard_invalid_transitions. rewrite Hop, Hon, bind_lift_ok.
  set (id := PositionOps.id new) in *.
  destruct (deindex_total prev id s Hwf) as (s1 & Hs1 & _).
  destruct (inventory_index_total new id s1 Hwfn) as (s2 & Hs2).
  assert (Hinv : InventoryIndex.update_position_by_inventory_index id (Some prev) new s = (Ok tt, s2)).
  { unfold InventoryIndex.update_position_by_inventory_index. erewrite bind_run_ok by exact Hs1.
    by rewrite His. }
  erewrite bind_run_ok by exact Hinv.
  destruct (liquidity_total prev new id s2) as (s3 & Hs3); try done; [by apply typed_sound..|].
  erewrite bind_run_ok by exact Hs3.
  erewrite bind_run_ok; [|unfold Counter.update_trading_pair_position_counter;
    cbn [fmap option_fmap option_map]; rewrite Hop, Hon; reflexivity].
  destruct (price_deindex_total prev id s3 Hwf) as (s4 & Hs4).
  destruct (price_index_total new id s4 Hwfn) as (s5 & Hs5).
  assert (Hpr : PriceIndex.update_position_by_price_index id (Some prev) new s3 = (Ok tt, s5)).
  { unfold PriceIndex.update_position_by_price_index. erewrite bind_run_ok by exact Hs4. by rewrite His. }
  erewrite bind_run_ok by exact Hpr.
  assert (He5 : current_epoch s5 = current_epoch s).
  { apply inventory_frame in Hinv. apply liquidity_frame in Hs3. apply price_frame in Hpr.
    transitivity (current_epoch s3); [exact (f_equal current_epoch Hpr)|].
    transitivity (current_epoch s2); [exact (f_equal current_epoch Hs3)|exact (f_equal current_epoch Hinv)]. }
  destruct (volume_total prev new d x y id s5 Hm) as (s6 & Hs6); [by rewrite He5|].
  erewrite bind_run_ok by exact Hs6. by eexists.
Qed.

(** ** Executions *)

Lemma moved_executed prev new d x y : moved prev new d x y -> moved prev (executed new) d x y.
Proof.
  intros [? ? ? ? ? ? ?]. destruct (executed_same new) as (Er & Ep & _).
  split; rewrite ?Er, ?Ep; done.
Qed.

Lemma execution_total prev new d x y context s :
  consistent s -> positions s !! PositionOps.id new = Some prev -> moved prev new d x y ->
  PositionOps.typed new ->
  state prev = PositionState.Opened -> state new = PositionState.Opened ->
  is_Some (current_epoch s) ->
  exists lp' s', position_execution new context s = (Ok lp', s')
    /\ (lp' = executed new \/ (lp' = new /\ new = prev)).
Proof.
  intros Hc Hl Hm Hty Hop Hon Hep. unfold position_execution, DexRead.position_by_id.
  erewrite bind_run_ok by reflexivity. rewrite Hl. cbn [ok_or]. rewrite bind_lift_ok.
  case_decide as Heq.
  { rewrite Hop. cbn. exists new, s. split; [done|]. right. done. }
  rewrite Hop, Hon. cbn [PositionState.is_opened ensure].
  erewrite bind_run_ok by reflexivity. erewrite bind_run_ok by reflexivity.
  erewrite bind_run_ok by reflexivity. cbv zeta. fold (executed new).
  match goal with |- context [bind (when _ _) _ ?x] => set (s1 := x) end.
  assert (exists s2, @when _ string (close_on_fill new && ((r1 (reserves new) =? 0) || (r2 (reserves new) =? 0)))
    (modify (record_event (EventPositionClose (PositionOps.id new)))) s1 = (Ok tt, s2)
    /\ exists ev, s2 = set_events ev s) as (s2 & Hs2 & ev & ->).
  { unfold when. case_match; eexists; (split; [reflexivity|]); by eexists. }
  erewrite bind_run_ok by exact Hs2.
  pose proof (moved_executed _ _ _ _ _ Hm) as Hme.
  destruct (executed_same new) as (Er & Ep & Ei).
  assert (Hstate : executed new <> prev).
  { intros Hx. apply Heq. rewrite <- Hx. unfold executed in *. case_match; [|done].
    exfalso. rewrite <- Hx in Hop. cbn in Hop. done. }
  destruct (chandelier_total prev (executed new) d x y (set_events ev s) Hme Hstate) as (s3 & Hs3 & v & ->).
  erewrite bind_run_ok by exact Hs3.
  assert (Hc3 : consistent (set_block_executions v (set_events ev s)))
    by (by eapply consistent_frame; [|exact Hc]).
  assert (Htye : PositionOps.typed (executed new)) by (unfold PositionOps.typed; by rewrite Er, Ep).
  destruct (decide (state (executed new) = PositionState.Opened)) as [Hoe|Hne].
  - rewrite <- Ei in Hl.
    destruct (update_trade_total prev (executed new) d x y _ Hc3 Hl Hme Htye Hop Hoe Hep) as (s4 & Hs4).
    rewrite Ei in Hs4.
    exists (executed new), s4. split; [exact Hs4 | by left].
  - destruct (update_total (PositionOps.id new) prev (executed new) _ Hc3 Hl) as (s4 & Hs4); try done.
    + split; [done|]. split; [done|]. rewrite Ep, (moved_phi _ _ _ _ _ Hm).
      apply (serves_wf _ _ (moved_serves _ _ _ _ _ Hm)).
    + by rewrite Ep, (moved_phi _ _ _ _ _ Hm).
    + unfold guard_invalid_transitions. rewrite Hop. unfold executed in *. by case_match.
    + exists (executed new), s4. split; [exact Hs4 | by left].
Qed.
End Execution.
