(* ===== verification/FillFacts.v ===== *)
(** * Filling a route, as a transaction on the ledger

    The invariant of a fill: the frontier holds distinct positions of the state, out of step with it
    by exactly what has been traded; writing a position back, replacing it and saving the frontier
    keep the books balanced. *)

From S2P Require Import Prelude.
From S2P Require Import Num.
From S2P Require Import Asset.
From S2P Require Import TradingFunction.
From S2P Require Import Position.
From S2P Require Import Vcb.
From S2P Require Import DexState.
From S2P Require Import Indexes.
From S2P Require Import IndexFacts.
From S2P Require Import PositionManager.
From S2P Require Import PositionFacts.
From S2P Require Import Path.
From S2P Require Import Router.
From S2P Require Import RouterFacts.
From S2P Require Import ExecutionFacts.

(** The bound on what the ledger holds of one asset under which no arithmetic of a fill overflows:
    amounts times basis points stay in 128 bits. *)
Definition ledger_cap : Z := 2 ^ 112.

Section Books.
Context `{DexEnv}.
Import PositionManager.
Implicit Types (f : Frontier.t) (lp : Position) (d : DirectedTradingPair) (s : DexState).

(** What the state records a position to hold. *)
Definition stored (b : asset_id) s (i : position_id) : Z :=
  from_option (fun lp => PositionOps.holds lp b) 0 (positions s !! i).

(** What the positions of a list hold beyond what the state records of them. *)
Definition ahead (b : asset_id) (lps : list Position) s : Z :=
  list_sum ((fun lp => PositionOps.holds lp b - stored b s (PositionOps.id lp)) <$> lps).

(** What the positions hold once the frontier is written back. *)
Definition book_held (b : asset_id) (lps : list Position) s : Z :=
  held b (positions s) + ahead b lps s.

(** A frontier position that has not been written since it was loaded. *)
Definition fresh (s0 s : DexState) lp d : Prop :=
  exists prev x y, positions s !! PositionOps.id lp = Some prev
    /\ positions s0 !! PositionOps.id lp = Some prev
    /\ state prev = PositionState.Opened /\ state lp = PositionState.Opened
    /\ PositionOps.typed lp /\ moved prev lp d x y.

(** A frontier position that the state records as it is. *)
Definition settled s lp : Prop :=
  positions s !! PositionOps.id lp = Some lp
  /\ (state lp = PositionState.Opened \/ state lp = PositionState.Closed).

Definition hop_ok (s0 s : DexState) lp d : Prop := fresh s0 s lp d \/ settled s lp.

(** An entry of a stream that is not on the frontier yet. *)
Definition usable d (ids : gset position_id) s (e : position_id * Position) : Prop :=
  e.1 ∉ ids -> positions s !! e.1 = Some e.2 /\ PositionOps.id e.2 = e.1
    /\ state e.2 = PositionState.Opened /\ PositionOps.typed e.2 /\ serves e.2 d.

(** Positions only change their reserves, and close when they are exhausted. *)
Definition evolved (s0 s : DexState) : Prop :=
  forall i, match positions s0 !! i with
            | None => positions s !! i = None
            | Some lp => exists lp', positions s !! i = Some lp' /\ phi lp' = phi lp
                /\ (lp' = lp \/ (state lp = PositionState.Opened
                      /\ (state lp' = PositionState.Opened \/ state lp' = PositionState.Closed)))
            end.

Record book (Q : DexState -> Position -> DirectedTradingPair -> Prop) (s0 : DexState) f s : Prop := {
  book_consistent : consistent s;
  book_outside : outside s = outside s0;
  book_hops : Forall2 (Q s) (Frontier.positions f) (Frontier.pairs f);
  book_nodup : NoDup (PositionOps.id <$> Frontier.positions f);
  book_member : Forall (fun lp => PositionOps.id lp ∈ Frontier.position_ids f) (Frontier.positions f);
  book_streams : forall d, d ∈ Frontier.pairs f -> exists l, Frontier.positions_by_price f !! d = Some l
      /\ Forall (usable d (Frontier.position_ids f) s) l;
  book_evolved : evolved s0 s;
  book_others : forall i, i ∉ Frontier.position_ids f -> positions s !! i = positions s0 !! i;
}.

(** ** Sums *)

Lemma evolved_refl s : evolved s s.
Proof. intros i. destruct (positions s !! i); eauto. Qed.

Lemma stored_sum_le b s ids :
  (forall i lp, positions s !! i = Some lp -> 0 <= PositionOps.holds lp b) -> NoDup ids ->
  0 <= list_sum (stored b s <$> ids) <= held b (positions s).
Proof.
  intros Hpos. unfold held, stored. generalize (positions s) Hpos. clear Hpos.
  induction ids as [|i ids IH]; intros m Hpos Hnd.
  - cbn. split; [done|]. by apply (map_sum_nonneg (fun lp => PositionOps.holds lp b)).
  - apply NoDup_cons in Hnd as [Hni Hnd]. rewrite fmap_cons. cbn [list_sum foldr].
    fold (list_sum ((fun j => from_option (fun lp => PositionOps.holds lp b) 0 (m !! j)) <$> ids)).
    destruct (m !! i) as [lp|] eqn:Hi; cbn [from_option].
    + rewrite (map_sum_delete (fun lp => PositionOps.holds lp b) m i lp Hi). specialize (IH (delete i m)).
      replace ((fun j => from_option (fun lp => PositionOps.holds lp b) 0 (m !! j)) <$> ids)
        with ((fun j => from_option (fun lp => PositionOps.holds lp b) 0 (delete i m !! j)) <$> ids).
      * specialize (Hpos i lp Hi) as Hlp. enough (0 <= list_sum ((fun j => from_option (fun lp => PositionOps.holds lp b) 0 (delete i m !! j)) <$> ids) <= map_sum (fun lp => PositionOps.holds lp b) (delete i m)) by lia.
        apply IH; [|done]. intros j lq [_ Hj]%lookup_delete_Some. by apply (Hpos j).
      * apply list_fmap_ext. intros k j Hj. rewrite lookup_delete_ne; [done|].
        intros ->. apply Hni. by apply list_elem_of_lookup_2 in Hj.
    + specialize (IH m Hpos Hnd). lia.
Qed.

Lemma consistent_holds_nonneg s : consistent s ->
  forall b i lp, positions s !! i = Some lp -> 0 <= PositionOps.holds lp b.
Proof.
  intros Hc b i lp Hl. apply holds_nonneg. apply (all_sound _ (consistent_positions _ Hc) i lp Hl).
Qed.

Lemma held_nonneg s b : consistent s -> 0 <= held b (positions s).
Proof. intros Hc. apply map_sum_nonneg. intros i lp Hl. by eapply consistent_holds_nonneg. Qed.

Lemma ahead_app b l1 l2 s : ahead b (l1 ++ l2) s = ahead b l1 s + ahead b l2 s.
Proof. unfold ahead. by rewrite fmap_app, list_sum_app. Qed.

Lemma ahead_cons b lp l s :
  ahead b (lp :: l) s = PositionOps.holds lp b - stored b s (PositionOps.id lp) + ahead b l s.
Proof. done. Qed.

Lemma hop_ok_nonneg s0 s lp d b : consistent s -> hop_ok s0 s lp d -> 0 <= PositionOps.holds lp b.
Proof.
  intros Hc [(prev & x & y & _ & _ & _ & _ & Hty & Hm)|[Hl _]].
  - apply holds_nonneg, typed_sound; [done|]. rewrite (moved_phi _ _ _ _ _ Hm).
    apply (serves_wf _ _ (moved_serves _ _ _ _ _ Hm)).
  - by eapply consistent_holds_nonneg.
Qed.

Lemma ahead_sum b lps s :
  ahead b lps s = list_sum ((fun lp => PositionOps.holds lp b) <$> lps)
    - list_sum (stored b s <$> (PositionOps.id <$> lps)).
Proof.
  unfold ahead. induction lps as [|lp lps IH]; [done|]. rewrite !fmap_cons. cbn [list_sum foldr] in *.
  unfold list_sum in IH. lia.
Qed.

Section Bounds.
Context (s0 : DexState) (f : Frontier.t) (s : DexState).
Hypothesis Hbook : book (hop_ok s0) s0 f s.
Hypothesis Hc0 : consistent s0.

Lemma frontier_nonneg b : Forall (fun x => 0 <= x) ((fun lp => PositionOps.holds lp b) <$> Frontier.positions f).
Proof.
  apply Forall_fmap. apply Forall_forall. intros lp Hlp. cbn.
  destruct (Forall2_elem_of _ _ _ _ (book_hops _ _ _ _ Hbook) Hlp) as (d & _ & Hq).
  eapply hop_ok_nonneg; [apply Hbook | exact Hq].
Qed.

(** What a position on the frontier holds is part of the total. *)
Lemma frontier_holds_le b lp :
  lp ∈ Frontier.positions f -> 0 <= PositionOps.holds lp b <= book_held b (Frontier.positions f) s.
Proof.
  intros Hlp. pose proof (frontier_nonneg b) as Hn.
  pose proof (list_elem_of_fmap_2 (fun lp => PositionOps.holds lp b) _ _ Hlp) as Hin.
  pose proof (list_sum_elem_le _ _ Hn Hin) as Hle. rewrite Forall_forall in Hn. specialize (Hn _ Hin).
  pose proof (stored_sum_le b s _ (consistent_holds_nonneg s (book_consistent _ _ _ _ Hbook) b)
    (book_nodup _ _ _ _ Hbook)). unfold book_held. rewrite ahead_sum. lia.
Qed.

(** The state never records more than the books plus what there was at the start. *)
Lemma held_le_book b :
  held b (positions s) <= book_held b (Frontier.positions f) s + held b (positions s0).
Proof.
  pose proof (stored_sum_le b s0 _ (consistent_holds_nonneg s0 Hc0 b) (book_nodup _ _ _ _ Hbook)) as Hs.
  enough (0 <= ahead b (Frontier.positions f) s
    + list_sum (stored b s0 <$> (PositionOps.id <$> Frontier.positions f))) by (unfold book_held; lia).
  clear Hs. unfold ahead. pose proof (book_consistent _ _ _ _ Hbook) as Hc.
  pose proof (book_hops _ _ _ _ Hbook) as Hq.
  induction Hq as [|lp d lps ds Hhop _ IH]; [done|]. rewrite !fmap_cons. cbn [list_sum foldr] in *.
  unfold list_sum in IH.
  enough (0 <= PositionOps.holds lp b - stored b s (PositionOps.id lp) + stored b s0 (PositionOps.id lp)) by lia.
  pose proof (hop_ok_nonneg s0 s lp d b Hc Hhop) as Hnn. unfold stored.
  destruct Hhop as [(prev & x & y & -> & -> & _)|[-> _]]; cbn [from_option]; [lia|].
  destruct (positions s0 !! PositionOps.id lp) as [lq|] eqn:Hl; cbn [from_option]; [|lia].
  pose proof (consistent_holds_nonneg s0 Hc0 b _ _ Hl). lia.
Qed.
End Bounds.

(** ** Writing a frontier position back *)

Lemma fresh_frame s0 s s' lp d :
  positions s' !! PositionOps.id lp = positions s !! PositionOps.id lp ->
  fresh s0 s lp d -> fresh s0 s' lp d.
Proof. unfold fresh. intros ->. done. Qed.

Lemma hop_ok_frame s0 s s' lp d :
  positions s' !! PositionOps.id lp = positions s !! PositionOps.id lp ->
  hop_ok s0 s lp d -> hop_ok s0 s' lp d.
Proof. unfold hop_ok, fresh, settled. intros ->. done. Qed.

Lemma usable_frame d ids s s' l :
  (forall i, i ∉ ids -> positions s' !! i = positions s !! i) ->
  Forall (usable d ids s) l -> Forall (usable d ids s') l.
Proof.
  intros Hs Hl. eapply Forall_impl; [exact Hl|]. intros [i lp] Hu Hi. cbn in *.
  rewrite Hs by done. by apply Hu.
Qed.

Lemma evolved_step s0 s s' i prev new :
  evolved s0 s -> positions s !! i = Some prev -> positions s' = after (positions s) i new ->
  phi new = phi prev -> state prev = PositionState.Opened ->
  state new = PositionState.Opened \/ state new = PositionState.Closed -> evolved s0 s'.
Proof.
  intros He Hprev Hp Hphi Hop Hnew j. specialize (He j). rewrite Hp, lookup_insert.
  destruct (decide (i = j)) as [->|Hne]; [|done].
  destruct (positions s0 !! j) as [lp|]; [|congruence].
  destruct He as (lp' & Hl & Hph & Hst). simplify_eq. exists new. split_and!; [done|congruence|].
  right. destruct Hst as [->|[? _]]; auto.
Qed.

(** What writing a position back does: the position is settled, everything else is as before. *)
Record write_back (s s' : DexState) lp lp' : Prop := {
  write_consistent : consistent s';
  write_outside : outside s' = outside s;
  write_settled : settled s' lp';
  write_same : PositionOps.id lp' = PositionOps.id lp /\ phi lp' = phi lp /\ reserves lp' = reserves lp;
  write_frame : forall i, i <> PositionOps.id lp -> positions s' !! i = positions s !! i;
  write_evolved : forall s0, evolved s0 s -> evolved s0 s';
}.

Lemma holds_same lp lp' b : phi lp' = phi lp -> reserves lp' = reserves lp ->
  PositionOps.holds lp' b = PositionOps.holds lp b.
Proof. intros Hp Hr. unfold PositionOps.holds. by rewrite Hp, Hr. Qed.

Lemma settled_execution s lp context :
  settled s lp -> PositionManager.position_execution lp context s = (Ok lp, s).
Proof.
  intros [Hl Hst]. unfold position_execution, DexRead.position_by_id.
  erewrite bind_run_ok by reflexivity. rewrite Hl. cbn [ok_or]. rewrite bind_lift_ok.
  rewrite decide_True by done. destruct Hst as [-> | ->]; done.
Qed.

Lemma execution_writes s0 s lp d context :
  consistent s -> is_Some (current_epoch s) -> hop_ok s0 s lp d ->
  (forall b, held b (positions s) + PositionOps.holds lp b < 2 ^ 128) ->
  exists lp' s', position_execution lp context s = (Ok lp', s') /\ write_back s s' lp lp'.
Proof.
  intros Hc Hep Hhop Hcap. destruct Hhop as [Hf|Hset].
  - destruct Hf as (prev & x & y & Hl & _ & Hop & Hon & Hty & Hm).
    destruct (execution_total prev lp d x y context s Hc Hl Hm Hty Hop Hon Hep) as (lp' & s' & Hr & _).
    exists lp', s'. split; [done|].
    apply execution_wide in Hr as (prev' & Hl' & Hr); [|done| |].
    + simplify_eq. destruct Hr as [(-> & -> & ->)|(_ & _ & -> & Hc' & Hp' & Ho')].
      * split; try done. split; [done|by left].
      * destruct (executed_same lp) as (Er & Ep & Ei).
        assert (Hst : state (executed lp) = PositionState.Opened \/ state (executed lp) = PositionState.Closed)
          by (unfold executed; case_match; auto).
        split; try done.
        -- split; [|done]. by rewrite Hp', Ei, lookup_insert_eq.
        -- intros i Hi. by rewrite Hp', lookup_insert_ne.
        -- intros s1 He. eapply evolved_step; [exact He|exact Hl|exact Hp'| |done|done].
           by rewrite Ep, (moved_phi _ _ _ _ _ Hm).
    + intros prev' Hl'. simplify_eq. split; [by apply (moved_phi _ _ _ _ _ Hm)|done].
    + intros b. rewrite held_after, Hl. cbn [from_option]. specialize (Hcap b).
      pose proof (consistent_holds_nonneg s Hc b _ _ Hl). lia.
  - exists lp, s. split; [by apply settled_execution|]. by split.
Qed.

(** Writing keeps the books, and every hop as it was but for the one written. *)
Lemma write_book s0 f s s' pre lp post lp' :
  book (hop_ok s0) s0 f s -> Frontier.positions f = pre ++ lp :: post ->
  write_back s s' lp lp' ->
  book (hop_ok s0) s0 (Frontier.set_positions (pre ++ lp' :: post) f) s'
  /\ (forall b, book_held b (pre ++ lp' :: post) s' = book_held b (Frontier.positions f) s).
Proof.
  intros [Hc Ho Hh Hn Hm Hst Hev Hoth] Hp [Wc Wo Ws (Wi & Wp & Wr) Wf We].
  assert (Hids : PositionOps.id <$> pre ++ lp' :: post = PositionOps.id <$> Frontier.positions f).
  { rewrite Hp, !fmap_app, !fmap_cons. by rewrite Wi. }
  rewrite Hp in Hn, Hm, Hh. rewrite fmap_app, fmap_cons in Hn.
  assert (Hout : forall lq, lq ∈ pre ++ post -> PositionOps.id lq <> PositionOps.id lp).
  { intros lq Hq Heq. apply NoDup_app in Hn as (_ & Hn1 & Hn2). apply NoDup_cons in Hn2 as [Hn2 _].
    apply elem_of_app in Hq as [Hq|Hq]; apply (list_elem_of_fmap_2 PositionOps.id) in Hq; rewrite Heq in Hq.
    - apply (Hn1 _ Hq). set_solver.
    - done. }
  assert (Hsame : forall lq, lq ∈ pre ++ post ->
    positions s' !! PositionOps.id lq = positions s !! PositionOps.id lq) by (intros lq Hq; by apply Wf, Hout).
  split.
  - split; cbn.
    + done.
    + by rewrite Wo.
    + apply Forall2_app_inv_l in Hh as (dpre & dpost' & Hh1 & Hh2 & Heq).
      apply Forall2_cons_inv_l in Hh2 as (d & dpost & _ & Hh2 & ->). rewrite Heq.
      apply Forall2_app; [|constructor].
      * eapply Forall2_impl; [|intros lq dq Hq; exact Hq]. apply Forall2_same_length_lookup in Hh1 as [Hlen Hl].
        apply Forall2_same_length_lookup. split; [done|]. intros i lq dq Hi Hj.
        eapply hop_ok_frame; [apply Hsame|by eapply Hl]. apply list_elem_of_lookup_2 in Hi. set_solver.
      * by right.
      * apply Forall2_same_length_lookup in Hh2 as [Hlen Hl].
        apply Forall2_same_length_lookup. split; [done|]. intros i lq dq Hi Hj.
        eapply hop_ok_frame; [apply Hsame|by eapply Hl]. apply list_elem_of_lookup_2 in Hi. set_solver.
    + rewrite Hids, Hp, fmap_app, fmap_cons. done.
    + rewrite Forall_app, Forall_cons in Hm |- *. rewrite Wi. done.
    + intros d Hd. destruct (Hst d Hd) as (l & Hl & Hu). exists l. split; [done|].
      eapply usable_frame; [|exact Hu]. intros i Hi. apply Wf. intros ->. apply Hi.
      rewrite Forall_forall in Hm. apply Hm. set_solver.
    + by apply We.
    + intros i Hi. rewrite Wf; [by apply Hoth|]. intros ->. apply Hi.
      rewrite Forall_forall in Hm. apply Hm. set_solver.
  - intros b. unfold book_held. rewrite Hp, !ahead_app, !ahead_cons.
    assert (Hrest : forall l, (forall lq, lq ∈ l -> lq ∈ pre ++ post) -> ahead b l s' = ahead b l s).
    { intros l Hl. unfold ahead. f_equal. apply list_fmap_ext. intros k lq Hq. unfold stored.
      rewrite Hsame; [done|]. apply Hl. by eapply list_elem_of_lookup_2. }
    rewrite !Hrest by (intros; set_solver). unfold stored at 1. rewrite (proj1 Ws). cbn [from_option].
    assert (Hheld : held b (positions s') = held b (positions s) + PositionOps.holds lp b
      - stored b s (PositionOps.id lp)).
    { assert (Hins : positions s' = after (positions s) (PositionOps.id lp) lp').
      { apply map_eq. intros i. rewrite lookup_insert. case_decide as Hi.
        - subst i. rewrite <- Wi. apply Ws.
        - apply Wf. congruence. }
      rewrite Hins, held_after. unfold stored. by rewrite (holds_same lp lp' b). }
    rewrite Hheld. rewrite (holds_same lp lp' b) by done. lia.
Qed.

(** ** Saving the frontier *)

(** No asset comes near the limits of the arithmetic. *)
Definition capped s0 (lps : list Position) s : Prop :=
  forall b, book_held b lps s <= ledger_cap /\ held b (positions s0) <= ledger_cap.

Lemma book_weaken s0 f s : book (fresh s0) s0 f s -> book (hop_ok s0) s0 f s.
Proof.
  intros [Hc Ho Hh Hn Hm Hst Hev Hoth]. split; try done.
  eapply Forall2_impl; [exact Hh|]. intros lp d Hf. by left.
Qed.

Lemma book_epoch Q s0 f s : book Q s0 f s -> is_Some (current_epoch s0) -> is_Some (current_epoch s).
Proof. intros Hb. by rewrite (f_equal current_epoch (book_outside _ _ _ _ Hb) : current_epoch s = _). Qed.

Lemma capped_room s0 f s b lp :
  consistent s0 -> book (hop_ok s0) s0 f s -> capped s0 (Frontier.positions f) s ->
  lp ∈ Frontier.positions f -> held b (positions s) + PositionOps.holds lp b < 2 ^ 128.
Proof.
  intros Hc0 Hb Hcap Hlp. destruct (Hcap b) as [H1 H2].
  pose proof (held_le_book s0 f s Hb Hc0 b). pose proof (frontier_holds_le s0 f s Hb b lp Hlp).
  unfold ledger_cap in *. lia.
Qed.

(** Writing one frontier position back, inside the books. *)
Lemma book_write s0 f s pre lp post context :
  consistent s0 -> is_Some (current_epoch s0) ->
  book (hop_ok s0) s0 f s -> capped s0 (Frontier.positions f) s ->
  Frontier.positions f = pre ++ lp :: post ->
  exists lp' s', position_execution lp context s = (Ok lp', s') /\ write_back s s' lp lp'
    /\ book (hop_ok s0) s0 (Frontier.set_positions (pre ++ lp' :: post) f) s'
    /\ (forall b, book_held b (pre ++ lp' :: post) s' = book_held b (Frontier.positions f) s).
Proof.
  intros Hc0 Hep Hb Hcap Hp.
  assert (Hin : lp ∈ Frontier.positions f) by (rewrite Hp; set_solver).
  destruct (Forall2_elem_of _ _ _ _ (book_hops _ _ _ _ Hb) Hin) as (d & _ & Hq).
  destruct (execution_writes s0 s lp d context) as (lp' & s' & Hr & Hw).
  - apply Hb.
  - by eapply book_epoch.
  - done.
  - intros b. by eapply capped_room.
  - exists lp', s'. split_and!; [done|done|..]; by eapply write_book.
Qed.

Lemma settled_write s s' lp lp' lq :
  write_back s s' lp lp' -> settled s lq -> PositionOps.id lq <> PositionOps.id lp -> settled s' lq.
Proof. intros Hw [Hl Hst] Hne. split; [|done]. by rewrite (write_frame _ _ _ _ Hw). Qed.

Lemma save_loop s0 context todo : forall pre f s,
  consistent s0 -> is_Some (current_epoch s0) ->
  book (hop_ok s0) s0 f s -> capped s0 (Frontier.positions f) s ->
  Frontier.positions f = pre ++ todo -> Forall (settled s) pre ->
  exists f' s', for_each todo (fun position => position_execution position context;;; ret tt) s = (Ok tt, s')
    /\ book (hop_ok s0) s0 f' s' /\ Forall (settled s') (Frontier.positions f')
    /\ (forall b, book_held b (Frontier.positions f') s' = book_held b (Frontier.positions f) s).
Proof.
  induction todo as [|lp todo IH]; intros pre f s Hc0 Hep Hb Hcap Hp Hpre; cbn [for_each].
  - exists f, s. rewrite app_nil_r in Hp. rewrite Hp. split_and!; done.
  - destruct (book_write s0 f s pre lp todo context Hc0 Hep Hb Hcap Hp) as (lp' & s1 & Hr & Hw & Hb1 & Hh1).
    assert (Hset : Forall (settled s1) (pre ++ [lp'])).
    { apply Forall_app. split; [|constructor; [apply Hw|constructor]]. apply Forall_forall. intros lq Hq.
      rewrite Forall_forall in Hpre. eapply settled_write; [exact Hw|by apply Hpre|].
      pose proof (book_nodup _ _ _ _ Hb) as Hn. rewrite Hp, fmap_app, fmap_cons in Hn.
      apply NoDup_app in Hn as (_ & Hn & _). intros Heq.
      apply (list_elem_of_fmap_2 PositionOps.id) in Hq. rewrite Heq in Hq. apply (Hn _ Hq). set_solver. }
    destruct (IH (pre ++ [lp']) (Frontier.set_positions (pre ++ lp' :: todo) f) s1) as (f' & s' & Hf & Hb' & Hs' & Hh');
      try done.
    + intros b. cbn. rewrite Hh1. apply Hcap.
    + cbn. by rewrite <- app_assoc.
    + exists f', s'. split_and!; try done.
      * erewrite bind_run_ok; [exact Hf|]. by erewrite bind_run_ok by exact Hr.
      * intros b. rewrite Hh'. cbn. apply Hh1.
Qed.

Lemma ahead_settled b lps s : Forall (settled s) lps -> ahead b lps s = 0.
Proof.
  induction 1 as [|lp lps [Hl _] _ IH]; [done|]. rewrite ahead_cons, IH. unfold stored. rewrite Hl. cbn. lia.
Qed.

Lemma context_total {E} f : Frontier.pairs f <> [] -> exists c, @Frontier.context E f = Ok c
  /\ (forall a, route_from a (Frontier.pairs f) -> c = mkDirected a (route_end a (Frontier.pairs f))).
Proof.
  intros Hne. unfold Frontier.context. destruct (Frontier.pairs f) as [|d ds]; [done|].
  cbn [head expect_some outcome_bind]. destruct (last (d :: ds)) as [e|] eqn:Hl.
  - cbn [expect_some outcome_bind]. eexists. split; [done|]. cbn [route_from route_end].
    intros a [-> Hr]. f_equal. clear Hne. revert d Hr Hl. induction ds as [|d' ds IH]; intros d Hr Hl.
    + cbn in Hl. by simplify_eq.
    + cbn [route_end]. cbn in Hr. destruct Hr as [_ Hr]. by apply IH.
  - by apply last_None in Hl.
Qed.

Lemma save_spec s0 f s :
  consistent s0 -> is_Some (current_epoch s0) ->
  book (hop_ok s0) s0 f s -> capped s0 (Frontier.positions f) s -> Frontier.pairs f <> [] ->
  exists s', Frontier.save f s = (Ok tt, s') /\ consistent s' /\ outside s' = outside s0
    /\ evolved s0 s' /\ forall b, held b (positions s') = book_held b (Frontier.positions f) s.
Proof.
  intros Hc0 Hep Hb Hcap Hne. destruct (@context_total string f Hne) as (c & Hctx & _).
  destruct (save_loop s0 c (Frontier.positions f) [] f s Hc0 Hep Hb Hcap eq_refl) as (f' & s' & Hr & Hb' & Hset & Hh);
    [constructor|].
  exists s'. split_and!; try apply Hb'.
  - unfold Frontier.save. rewrite Hctx, bind_lift_ok. exact Hr.
  - intros b. rewrite <- Hh. unfold book_held. rewrite ahead_settled by done. lia.
Qed.

(** ** Replacing exhausted positions *)

Lemma next_fresh_spec ids l found rest :
  Frontier.next_fresh ids l = (found, rest) ->
  (forall P : position_id * Position -> Prop, Forall P l -> Forall P rest)
  /\ match found with
     | Some (i, lp) => i ∉ ids /\ (i, lp) ∈ l /\ (length rest < length l)%nat
     | None => True
     end.
Proof.
  revert found rest. induction l as [|[i lp] l IH]; intros found rest Hn; cbn in Hn.
  - simplify_eq. split; [done|done].
  - case_decide as Hi.
    + destruct (IH _ _ Hn) as [HP Hf]. split.
      * intros P [_ Hl]%Forall_cons. by apply HP.
      * destruct found as [[j lq]|]; [|done]. destruct Hf as (? & ? & ?). split_and!; [done|set_solver|cbn; lia].
    + simplify_eq. split; [by intros P [_ ?]%Forall_cons|]. split_and!; [done|set_solver|cbn; lia].
Qed.

Lemma moved_refl lp d : serves lp d -> moved lp lp d 0 0.
Proof.
  intros Hs. destruct (serves_half lp d Hs) as [Hb Hse]. unfold half in *.
  split; try done; try lia. unfold hop_reserves. rewrite Z.add_0_r, Z.sub_0_r.
  rewrite <- orient_reserves. by rewrite orient_orient.
Qed.

Lemma reserves_le_holds lp : LiquidityFacts.sound lp ->
  exists a b, r1 (reserves lp) = PositionOps.holds lp a /\ r2 (reserves lp) = PositionOps.holds lp b.
Proof.
  intros (_ & _ & Hne). exists (asset_1 (pair (phi lp))), (asset_2 (pair (phi lp))).
  unfold PositionOps.holds, ReservesOps.holds. split; repeat case_decide; congruence || lia.
Qed.

(** A fresh hop inside the books can be traded against. *)
Lemma fresh_serves s0 f s lp d :
  book (hop_ok s0) s0 f s -> capped s0 (Frontier.positions f) s -> lp ∈ Frontier.positions f ->
  fresh s0 s lp d -> serves lp d.
Proof.
  intros Hb Hcap Hlp (prev & x & y & _ & _ & _ & _ & Hty & Hm).
  pose proof (moved_serves _ _ _ _ _ Hm) as [Hw Hpair _ _]. pose proof (moved_phi _ _ _ _ _ Hm) as Hphi.
  assert (Hso : LiquidityFacts.sound lp) by (apply typed_sound; [done|by rewrite Hphi]).
  destruct (reserves_le_holds lp Hso) as (a & b & Ha & Hbb).
  assert (Hhalf : forall c, half (PositionOps.holds lp c)).
  { intros c. pose proof (frontier_holds_le s0 f s Hb c lp Hlp). destruct (Hcap c) as [Hc _].
    unfold half, ledger_cap in *. lia. }
  split; [by rewrite Hphi| |by rewrite Ha|by rewrite Hbb].
  unfold pair_ba, pair_ab in *. by rewrite Hphi.
Qed.
End Books.
