(* ===== verification/FillLoop.v ===== *)
(** * The fill loop

    Loading a frontier, replacing its exhausted positions, and the iterations of the fill: each one
    keeps the books balanced, and every iteration but the last draws from a stream, so the fuel of
    [fill_loop] suffices. *)

From S2P Require Import Prelude.
From S2P Require Import Num.
From S2P Require Import Asset.
From S2P Require Import TradingFunction.
From S2P Require Import Position.
From S2P Require Import Vcb.
From S2P Require Import DexState.
From S2P Require Import Indexes.
From S2P Require Import IndexFacts.
From S2P Require Import PositionManager.
From S2P Require Import PositionFacts.
From S2P Require Import Path.
From S2P Require Import Router.
From S2P Require Import RouterFacts.
From S2P Require Import ExecutionFacts.
From S2P Require Import FillFacts.

Section Loop.
Context `{DexEnv}.
Context (s0 : DexState).
Hypothesis Hc0 : consistent s0.
Hypothesis Hep : is_Some (current_epoch s0).
Implicit Types (f : Frontier.t) (lp : Position) (d : DirectedTradingPair) (s : DexState).
Import FillRoute.

Abbreviation live := (book (fresh s0) s0).
Abbreviation closing := (book (hop_ok s0) s0).
Abbreviation total f s b := (book_held b (Frontier.positions f) s).

(** The parts of the frontier that only loading sets. *)
Definition same_route f f' : Prop := Frontier.pairs f' = Frontier.pairs f /\ Frontier.trace f' = Frontier.trace f.

Lemma same_route_trans f1 f2 f3 : same_route f1 f2 -> same_route f2 f3 -> same_route f1 f3.
Proof. unfold same_route. intros [] []. split; congruence. Qed.

Lemma stream_size_draw f d l rest ps ids tr :
  Frontier.positions_by_price f !! d = Some l -> (length rest < length l)%nat ->
  (stream_size (Frontier.mk (Frontier.pairs f) ps ids (<[d := rest]> (Frontier.positions_by_price f)) tr)
     < stream_size f)%nat.
Proof.
  intros Hl Hlt. unfold stream_size. cbn [Frontier.positions_by_price].
  rewrite (map_sum_update _ _ _ _ _ Hl).
  assert (Z.of_nat (length l) <= map_sum (fun l => Z.of_nat (length l)) (Frontier.positions_by_price f)).
  { apply (map_sum_lookup_le (fun l => Z.of_nat (length l)) _ d); [|done]. intros; lia. }
  lia.
Qed.

Lemma usable_mono d ids ids' s l :
  ids ⊆ ids' -> Forall (usable d ids s) l -> Forall (usable d ids' s) l.
Proof. intros Hs Hl. eapply Forall_impl; [exact Hl|]. intros [i lp] Hu Hi. apply Hu. set_solver. Qed.

(** A position drawn from a stream joins the frontier. *)
Lemma drawn_fresh f s d l i lp :
  closing f s -> Forall (usable d (Frontier.position_ids f) s) l -> (i, lp) ∈ l ->
  i ∉ Frontier.position_ids f -> PositionOps.id lp = i /\ positions s !! i = Some lp /\ fresh s0 s lp d.
Proof.
  intros Hb Hu Hin Hi. rewrite Forall_forall in Hu. destruct (Hu _ Hin Hi) as (Hl & Hid & Hst & Hty & Hs).
  cbn in *. split_and!; [done..|]. exists lp, 0, 0. rewrite Hid. split_and!; try done.
  - by rewrite <- (book_others _ _ _ _ Hb).
  - by apply moved_refl.
Qed.

Lemma streams_after_draw f s d rest ids' :
  closing f s -> Frontier.position_ids f ⊆ ids' ->
  Forall (usable d (Frontier.position_ids f) s) rest ->
  forall d', d' ∈ Frontier.pairs f ->
    exists l, <[d := rest]> (Frontier.positions_by_price f) !! d' = Some l /\ Forall (usable d' ids' s) l.
Proof.
  intros Hb Hids Hrest d' Hd'. rewrite lookup_insert. case_decide as He; [subst d'|].
  - exists rest. split; [done|]. by eapply usable_mono.
  - destruct (book_streams _ _ _ _ Hb d' Hd') as (l & Hl & Hu). exists l. split; [done|]. by eapply usable_mono.
Qed.

(** The frontier with position [lq], drawn from the stream of [d], in the place of [lp]. *)
Definition joined f pre post i lq d rest : Frontier.t :=
  Frontier.mk (Frontier.pairs f) (pre ++ lq :: post) ({[i]} ∪ Frontier.position_ids f)
    (<[d := rest]> (Frontier.positions_by_price f)) (Frontier.trace f).

Lemma fresh_frame_list s s' ps ds :
  (forall lp, lp ∈ ps -> positions s' !! PositionOps.id lp = positions s !! PositionOps.id lp) ->
  Forall2 (fresh s0 s) ps ds -> Forall2 (fresh s0 s') ps ds.
Proof.
  intros Hs Hf. induction Hf as [|lp d ps ds Hlp _ IH]; constructor.
  - eapply fresh_frame; [apply Hs; set_solver | done].
  - apply IH. intros lq Hq. apply Hs. set_solver.
Qed.

(** No other frontier position has the id of the one in the middle. *)
Lemma others_distinct pre lp post :
  NoDup (PositionOps.id <$> pre ++ lp :: post) ->
  forall lq, lq ∈ pre ++ post -> PositionOps.id lq <> PositionOps.id lp.
Proof.
  rewrite fmap_app, fmap_cons. intros (_ & N1 & [N2 _]%NoDup_cons)%NoDup_app lq Hq Heq.
  apply elem_of_app in Hq as [Hq|Hq]; apply (list_elem_of_fmap_2 PositionOps.id) in Hq; rewrite Heq in Hq;
    [by apply (N1 _ Hq), list_elem_of_here | done].
Qed.

Lemma joined_nodup ids pre lp post i lq :
  NoDup (PositionOps.id <$> pre ++ lp :: post) ->
  Forall (fun lp => PositionOps.id lp ∈ ids) (pre ++ lp :: post) -> i ∉ (ids : gset position_id) ->
  PositionOps.id lq = i -> NoDup (PositionOps.id <$> pre ++ lq :: post).
Proof.
  rewrite !fmap_app, !fmap_cons, Forall_app, Forall_cons. intros (N1 & N2 & [N3 N4]%NoDup_cons)%NoDup_app.
  intros (M1 & _ & M2) Hi ->.
  assert (Hfr : forall ls, Forall (fun lp => PositionOps.id lp ∈ ids) ls -> i ∉ PositionOps.id <$> ls).
  { intros ls Hls (lr & -> & Hlr)%list_elem_of_fmap. rewrite Forall_forall in Hls. by apply Hi, Hls. }
  apply NoDup_app. split_and!; [done| |].
  - intros j Hj [->|Hj2]%elem_of_cons; [by apply (Hfr pre)|]. apply (N2 j Hj). set_solver.
  - apply NoDup_cons. split; [by apply Hfr|done].
Qed.

Lemma joined_live f s s1 pre lp lp' post d i lq rest :
  live f s -> Frontier.positions f = pre ++ lp :: post -> Frontier.pairs f !! length pre = Some d ->
  write_back s s1 lp lp' -> closing (Frontier.set_positions (pre ++ lp' :: post) f) s1 ->
  i ∉ Frontier.position_ids f -> PositionOps.id lq = i -> fresh s0 s1 lq d ->
  Forall (usable d (Frontier.position_ids f) s1) rest ->
  live (joined f pre post i lq d rest) s1.
Proof.
  intros Hlive Hp Hd Hw Hb1 Hi Hid Hfresh Hrest.
  pose proof (book_nodup _ _ _ _ Hlive) as Hn. pose proof (book_member _ _ _ _ Hlive) as Hm.
  pose proof (book_hops _ _ _ _ Hlive) as Hh. rewrite Hp in Hn, Hm, Hh.
  pose proof (others_distinct _ _ _ Hn) as Hother.
  assert (Hsame : forall lr, lr ∈ pre ++ post -> positions s1 !! PositionOps.id lr = positions s !! PositionOps.id lr)
    by (intros lr Hr; by apply (write_frame _ _ _ _ Hw), Hother).
  pose proof Hb1 as [B1 B2 _ _ _ _ B7 B8].
  split; cbn [joined Frontier.positions Frontier.pairs Frontier.position_ids Frontier.positions_by_price].
  - done.
  - done.
  - apply Forall2_app_inv_l in Hh as (dpre & dpost' & H1 & H2 & Heq).
    apply Forall2_cons_inv_l in H2 as (d' & dpost & _ & H2 & ->). rewrite Heq in Hd |- *.
    rewrite list_lookup_middle in Hd by (by eapply Forall2_length). injection Hd as ->.
    apply Forall2_app; [|constructor; [done|]]; (eapply fresh_frame_list; [|done]);
      intros lr Hr; apply Hsame; set_solver.
  - by eapply joined_nodup.
  - rewrite Forall_app, Forall_cons in Hm |- *. destruct Hm as (Hm1 & _ & Hm2). split_and!.
    + eapply Forall_impl; [exact Hm1|]. set_solver.
    + set_solver.
    + eapply Forall_impl; [exact Hm2|]. set_solver.
  - apply (streams_after_draw _ _ _ _ _ Hb1); [set_solver|done].
  - done.
  - intros j Hj. apply B8. cbn. set_solver.
Qed.

(** The code of [replace_position], once the write and the draw are known. *)
Lemma replace_position_run f s k c lp lp' s1 d l :
  Frontier.positions f !! k = Some lp -> @Frontier.context FillError f = Ok c ->
  PositionManager.position_execution lp c s = (Ok lp', s1) ->
  Frontier.pairs f !! k = Some d -> Frontier.positions_by_price f !! d = Some l ->
  let pre := take k (Frontier.positions f) in
  let post := drop (S k) (Frontier.positions f) in
  let '(found, rest) := Frontier.next_fresh (Frontier.position_ids f) l in
  Frontier.replace_position k f s
    = match found with
      | None => (Ok (Frontier.mk (Frontier.pairs f) (pre ++ lp' :: post) (Frontier.position_ids f)
                   (<[d := rest]> (Frontier.positions_by_price f)) (Frontier.trace f), false), s1)
      | Some (i, lq) => (Ok (joined f pre post i lq d rest, true), s1)
      end.
Proof.
  intros Hlp Hctx Hr Hd Hl pre post. pose proof (take_drop_middle _ _ _ Hlp) as Hsplit.
  fold pre post in Hsplit.
  assert (Hpre : length pre = k) by (unfold pre; rewrite length_take; apply lookup_lt_Some in Hlp; lia).
  destruct (Frontier.next_fresh (Frontier.position_ids f) l) as [found rest] eqn:Hnf.
  unfold Frontier.replace_position. rewrite Hlp. cbn [expect_some]. rewrite bind_lift_ok, Hctx, bind_lift_ok.
  erewrite bind_run_ok by (unfold expecting; rewrite Hr; reflexivity).
  rewrite <- Hsplit. rewrite <- Hpre at 1. rewrite set_at_middle, bind_lift_ok, Hd. cbn [expect_some].
  rewrite bind_lift_ok, Hl. cbn [expect_some]. rewrite bind_lift_ok, Hnf.
  destruct found as [[i lq]|]; [|done]. rewrite <- Hpre. by rewrite set_at_middle, bind_lift_ok.
Qed.

Lemma replace_position_spec f s k :
  live f s -> capped s0 (Frontier.positions f) s -> (k < length (Frontier.pairs f))%nat ->
  exists f' found s', Frontier.replace_position k f s = (Ok (f', found), s')
    /\ same_route f f' /\ (forall b, total f' s' b = total f s b) /\ closing f' s'
    /\ (found = true -> live f' s' /\ (stream_size f' < stream_size f)%nat).
Proof.
  intros Hlive Hcap Hk. pose proof (book_weaken _ _ _ Hlive) as Hb.
  pose proof (Forall2_length _ _ _ (book_hops _ _ _ _ Hlive)) as Hlen.
  destruct (lookup_lt_is_Some_2 (Frontier.positions f) k ltac:(lia)) as [lp Hlp].
  destruct (lookup_lt_is_Some_2 (Frontier.pairs f) k Hk) as [d Hd].
  destruct (@context_total FillError f) as (c & Hctx & _); [intros Hx; rewrite Hx in Hk; cbn in Hk; lia|].
  pose proof (take_drop_middle _ _ _ Hlp) as Hsplit. symmetry in Hsplit.
  destruct (book_write s0 f s _ lp _ c Hc0 Hep Hb Hcap Hsplit) as (lp' & s1 & Hr & Hw & Hb1 & Hh1).
  destruct (book_streams _ _ _ _ Hb1 d) as (l & Hl & Hu); [by eapply list_elem_of_lookup_2|].
  pose proof (replace_position_run f s k c lp lp' s1 d l Hlp Hctx Hr Hd Hl) as Hrun. cbv zeta in Hrun.
  destruct (Frontier.next_fresh _ l) as [found rest] eqn:Hnf.
  pose proof (next_fresh_spec _ _ _ _ Hnf) as [Hrest Hfound].
  destruct found as [[i lq]|].
  - destruct Hfound as (Hi & Hin & Hlt).
    destruct (drawn_fresh _ s1 d l i lq Hb1 Hu Hin Hi) as (Hid & Hls & Hfresh).
    assert (Hlive1 : live (joined f (take k (Frontier.positions f)) (drop (S k) (Frontier.positions f)) i lq d rest) s1).
    { eapply joined_live; try done; [|by apply Hrest]. rewrite length_take, Nat.min_l; [done|].
      apply lookup_lt_Some in Hlp. lia. }
    eexists _, true, s1. split; [exact Hrun|]. split_and!; [done| |by apply book_weaken|].
    + intros b. cbn [joined Frontier.positions]. rewrite <- Hh1. unfold book_held.
      rewrite !ahead_app, !ahead_cons. unfold stored at 1 2.
      rewrite Hid, Hls, (proj1 (write_settled _ _ _ _ Hw)). cbn [from_option]. lia.
    + intros _. split; [done|]. eapply stream_size_draw; [exact Hl|done].
  - eexists _, false, s1. split; [exact Hrun|]. split_and!; [done|exact Hh1| |done].
    destruct Hb1 as [B1 B2 B3 B4 B5 B6 B7 B8]. split; try done. cbn.
    eapply (streams_after_draw (Frontier.set_positions _ f) s1); [by split|done|by apply Hrest].
Qed.

(** *** The pass over the frontier *)

Definition exhausted f (k : nat) : Prop :=
  exists lp d, Frontier.positions f !! k = Some lp /\ Frontier.pairs f !! k = Some d /\ sells lp d = 0.

Lemma live_aligned f s a :
  live f s -> capped s0 (Frontier.positions f) s -> route_from a (Frontier.pairs f) ->
  Frontier.pairs f <> [] -> aligned a f.
Proof.
  intros Hlive Hcap Hr Hne. split; [|done|done]. pose proof (book_weaken _ _ _ Hlive) as Hb.
  pose proof (book_hops _ _ _ _ Hlive) as Hh. apply Forall2_same_length_lookup in Hh as [Hln Hlk].
  apply Forall2_same_length_lookup. split; [done|]. intros j lp d Hj Hd.
  eapply fresh_serves; [exact Hb|exact Hcap|by eapply list_elem_of_lookup_2|by eapply Hlk].
Qed.

Lemma is_exhausted_eq f a k :
  aligned a f -> (k < length (Frontier.pairs f))%nat ->
  exists b, Frontier.is_exhausted f k = Ok b /\ (exhausted f k -> b = true).
Proof.
  intros [Hs _ _] Hk. pose proof (Forall2_length _ _ _ Hs) as Hlen.
  destruct (lookup_lt_is_Some_2 (Frontier.positions f) k ltac:(lia)) as [lp Hlp].
  destruct (lookup_lt_is_Some_2 (Frontier.pairs f) k Hk) as [d Hd].
  pose proof (Forall2_lookup_lr _ _ _ _ _ _ Hs Hlp Hd) as Hserves.
  unfold Frontier.is_exhausted. rewrite Hlp, Hd. cbn [expect_some outcome_bind].
  rewrite reserves_for_serves by done. cbn [ok_or outcome_bind]. eexists. split; [done|].
  intros (lq & dq & Hq & Hdq & Hz). simplify_eq. by apply Z.eqb_eq.
Qed.

Lemma replace_empty_spec a indices : forall f s,
  live f s -> capped s0 (Frontier.positions f) s -> route_from a (Frontier.pairs f) ->
  Forall (fun k => (k < length (Frontier.pairs f))%nat) indices ->
  exists f' found s', Frontier.replace_empty_loop indices f s = (Ok (f', found), s')
    /\ same_route f f' /\ (forall b, total f' s' b = total f s b) /\ closing f' s'
    /\ (found = true -> live f' s' /\ (stream_size f' <= stream_size f)%nat
         /\ (forall k, k ∈ indices -> exhausted f k -> (stream_size f' < stream_size f)%nat)).
Proof.
  induction indices as [|i indices IH]; intros f s Hlive Hcap Hr Hall; cbn [Frontier.replace_empty_loop].
  - exists f, true, s. split_and!; [done|done|done|by apply book_weaken|].
    intros _. split_and!; [done|done|set_solver].
  - apply Forall_cons in Hall as [Hi Hall].
    assert (Hne : Frontier.pairs f <> []) by (intros Hx; rewrite Hx in Hi; cbn in Hi; lia).
    destruct (is_exhausted_eq f a i (live_aligned f s a Hlive Hcap Hr Hne) Hi) as (b & Hb & Hex).
    rewrite Hb, bind_lift_ok. destruct b.
    + destruct (replace_position_spec f s i Hlive Hcap Hi) as (f1 & found & s1 & H1 & [Hp1 Ht1] & Hh1 & Hcl1 & Hf1).
      erewrite bind_run_ok by exact H1. destruct found.
      * destruct (Hf1 eq_refl) as [Hlive1 Hlt].
        destruct (IH f1 s1 Hlive1) as (f' & found & s' & Hrun & Hsr & Hh' & Hcl & Hf');
          [intros c; rewrite Hh1; apply Hcap|by rewrite Hp1|by rewrite Hp1|].
        exists f', found, s'. split_and!; [done|by eapply same_route_trans|congruence|done|].
        intros Hfound. destruct (Hf' Hfound) as (? & ? & _). split_and!; [done|lia|]. intros; lia.
      * exists f1, false, s1. split_and!; done.
    + destruct (IH f s Hlive Hcap Hr Hall) as (f' & found & s' & Hrun & Hsr & Hh' & Hcl & Hf').
      exists f', found, s'. split_and!; try done. intros Hfound. destruct (Hf' Hfound) as (? & ? & Hk).
      split_and!; [done|done|]. intros k Hki Hke. apply elem_of_cons in Hki as [->|Hki]; [|by eapply Hk].
      by apply Hex in Hke.
Qed.
End Loop.
