(* ===== verification/FillRouteFacts.v ===== *)
(** * Filling a route: the loop and the transaction

    The invariant of the fill loop, that its fuel suffices, and what [fill_route] returns. *)

From S2P Require Import Prelude.
From S2P Require Import Num.
From S2P Require Import Asset.
From S2P Require Import TradingFunction.
From S2P Require Import Position.
From S2P Require Import Vcb.
From S2P Require Import DexState.
From S2P Require Import Indexes.
From S2P Require Import IndexFacts.
From S2P Require Import PositionManager.
From S2P Require Import PositionFacts.
From S2P Require Import Path.
From S2P Require Import Router.
From S2P Require Import RouterFacts.
From S2P Require Import ExecutionFacts.
From S2P Require Import FillFacts.
From S2P Require Import FillLoop.

Section Fill.
Context `{DexEnv}.
Context (s0 : DexState).
Hypothesis Hc0 : consistent s0.
Hypothesis Hep : is_Some (current_epoch s0).
Implicit Types (f : Frontier.t) (lp : Position) (d : DirectedTradingPair) (s : DexState).
Import FillRoute.

(** ** Trades keep hops fresh *)

(** The two sides of a hop are the two reserves of its position. *)
Lemma sides_reserves (P : Z -> Prop) lp d :
  P (buys lp d) -> P (sells lp d) -> P (r1 (reserves lp)) /\ P (r2 (reserves lp)).
Proof. unfold buys, sells, orient. destruct (flipped lp d); cbn; tauto. Qed.

Lemma reserves_sides (P : Z -> Prop) lp d :
  P (r1 (reserves lp)) -> P (r2 (reserves lp)) -> P (buys lp d) /\ P (sells lp d).
Proof. unfold buys, sells, orient. destruct (flipped lp d); cbn; tauto. Qed.

Lemma after_hop_reserves_nonneg lp d x y :
  serves lp d -> hop_trade lp d x y ->
  0 <= r1 (reserves (after_hop lp d x y)) /\ 0 <= r2 (reserves (after_hop lp d x y)).
Proof.
  intros Hs (Hx & Hy & _). destruct (serves_half lp d Hs) as [Hb _]. unfold half in Hb.
  apply (sides_reserves (fun z => 0 <= z) _ d); [rewrite (proj1 (after_hop_sides lp d x y))
    | rewrite (proj2 (after_hop_sides lp d x y))]; lia.
Qed.

Lemma after_hop_nonneg lp d x y b :
  serves lp d -> hop_trade lp d x y -> 0 <= PositionOps.holds (after_hop lp d x y) b.
Proof.
  intros Hs Ht. destruct (after_hop_reserves_nonneg lp d x y Hs Ht).
  unfold PositionOps.holds, ReservesOps.holds. repeat case_decide; lia.
Qed.

Lemma moved_sides prev lp d x y :
  moved prev lp d x y -> buys lp d = buys prev d + x /\ sells lp d = sells prev d - y.
Proof.
  intros Hm. assert (Hor : forall r, orient lp d r = orient prev d r)
    by (unfold orient, flipped; by rewrite (moved_phi _ _ _ _ _ Hm)).
  unfold buys at 1, sells at 1. rewrite Hor, (moved_reserves _ _ _ _ _ Hm).
  unfold hop_reserves. by rewrite orient_orient.
Qed.

Lemma moved_again prev lp d x y x' y' :
  moved prev lp d x y -> serves lp d -> hop_trade lp d x' y' ->
  (x + x') * fee (component (phi prev)) < 2 ^ 128 ->
  moved prev (after_hop lp d x' y') d (x + x') (y + y').
Proof.
  intros Hm Hs' (Hx' & Hy' & _ & Hp' & _) Hfee. destruct (moved_sides _ _ _ _ _ Hm) as [Hb Hse].
  destruct Hm as [Hs Hphi Hr Hx Hy Hp _].
  assert (Hor : forall r, orient lp d r = orient prev d r) by (unfold orient, flipped; by rewrite Hphi).
  split; try done; try lia.
  cbn. unfold hop_reserves. rewrite Hor, Hb, Hse. f_equal. f_equal; lia.
Qed.

Lemma fresh_trade s lp d x y :
  fresh s0 s lp d -> serves lp d -> hop_trade lp d x y ->
  (forall b, PositionOps.holds (after_hop lp d x y) b <= ledger_cap) ->
  fresh s0 s (after_hop lp d x y) d.
Proof.
  intros (prev & x0 & y0 & H1 & H2 & H3 & H4 & Hty & Hm) Hs Ht Hcap.
  exists prev, (x0 + x), (y0 + y).
  assert (Hsound : LiquidityFacts.sound (after_hop lp d x y)).
  { destruct (after_hop_reserves_nonneg lp d x y Hs Ht). destruct (serves_wf lp d Hs) as [_ Hne]. done. }
  destruct (reserves_le_holds _ Hsound) as (a & b & Ha & Hb). pose proof (Hcap a) as Ca. pose proof (Hcap b) as Cb.
  destruct Hsound as (N1 & N2 & _). unfold ledger_cap in *.
  split_and!; try done.
  - unfold PositionOps.typed in *. destruct Hty as (_ & _ & T). unfold in_width in *. split_and!; try lia; apply T.
  - apply moved_again; try done.
    assert (Hf : 0 <= fee (component (phi prev)) <= MAX_FEE_BPS)
      by (destruct (serves_wf _ _ (moved_serves _ _ _ _ _ Hm)) as [(Hf & _) _]; done).
    assert (Hx : x0 + x <= 2 ^ 112).
    { pose proof (after_hop_sides lp d x y) as [A1 _]. rewrite (proj1 (moved_sides _ _ _ _ _ Hm)) in A1.
      destruct (serves_half prev d (moved_serves _ _ _ _ _ Hm)) as [Hbp _]. unfold half in Hbp.
      destruct (reserves_sides (fun z => z <= 2 ^ 112) (after_hop lp d x y) d) as [Hle _];
        [rewrite Ha; exact Ca|rewrite Hb; exact Cb|]. lia. }
    pose proof (moved_in _ _ _ _ _ Hm). destruct Ht as (Hx0 & _). unfold MAX_FEE_BPS in Hf. nia.
Qed.

Lemma trades_fresh s ps ds xs ps' :
  trades ps ds xs ps' -> Forall2 (fresh s0 s) ps ds -> Forall2 serves ps ds ->
  (forall lp, lp ∈ ps' -> forall b, PositionOps.holds lp b <= ledger_cap) ->
  Forall2 (fresh s0 s) ps' ds.
Proof.
  induction 1 as [z|lp d ps ds x y xs ps' Hop Ht IH]; intros Hf Hs Hcap; [done|].
  apply Forall2_cons in Hf as [Hf1 Hf]. apply Forall2_cons in Hs as [Hs1 Hs]. constructor.
  - apply fresh_trade; try done. intros b. apply Hcap. set_solver.
  - apply IH; try done. intros lq Hq. apply Hcap. set_solver.
Qed.

Lemma trades_nonneg ps ds xs ps' b :
  trades ps ds xs ps' -> Forall2 serves ps ds ->
  Forall (fun x => 0 <= x) ((fun lp => PositionOps.holds lp b) <$> ps')
  /\ Forall (fun x => 0 <= x) xs \/ exists z, xs = [z] /\ ps' = [].
Proof.
  induction 1 as [z|lp d ps ds x y xs ps' Hop Ht IH]; intros Hs; [right; by exists z|left].
  apply Forall2_cons in Hs as [Hs1 Hs]. destruct Hop as (Hx & Hy & Hop).
  assert (Hlp : 0 <= PositionOps.holds (after_hop lp d x y) b) by (by apply after_hop_nonneg).
  destruct (IH Hs) as [[H1 H2]|(z & Hz & ->)].
  - split; [by constructor|by constructor].
  - simplify_eq. split; [by repeat constructor|]. repeat constructor; lia.
Qed.

Lemma trades_ids ps ds xs ps' : trades ps ds xs ps' -> PositionOps.id <$> ps' = PositionOps.id <$> ps.
Proof. induction 1 as [|lp d ps ds x y xs ps' _ _ IH]; [done|]. rewrite !fmap_cons. by rewrite IH. Qed.

(** ** The invariant of the loop *)

(** The values a fill has passed along the route, one list of amounts per iteration. *)
Record traced (a : asset_id) f (consumed produced : Z) : Prop := {
  traced_amounts : exists xss : list (Z * list Z),
    Frontier.trace f = (fun t => route_trace a (Frontier.pairs f) (t.1 :: t.2)) <$> xss
    /\ Forall (fun t => 0 <= t.1 /\ 0 <= List.last (t.1 :: t.2) 0
                 /\ length t.2 = length (Frontier.pairs f)) xss
    /\ list_sum (fst <$> xss) = consumed
    /\ list_sum ((fun t => List.last (t.1 :: t.2) 0) <$> xss) = produced;
}.

Record filling_inv (Q : DexState -> Position -> DirectedTradingPair -> Prop) (a : asset_id) (x0 : Z)
  (st : progress) s : Prop := {
  inv_book : book Q s0 (frontier st) s;
  inv_route : route_from a (Frontier.pairs (frontier st));
  inv_nonempty : Frontier.pairs (frontier st) <> [];
  inv_asset : value_asset (remaining st) = a;
  inv_remaining : 0 <= amount (remaining st) <= x0;
  inv_produced : 0 <= produced st;
  inv_total : forall b, book_held b (Frontier.positions (frontier st)) s
    = held b (positions s0) + Typed.carries (mkValue (x0 - amount (remaining st)) a) b
      - Typed.carries (mkValue (produced st) (route_end a (Frontier.pairs (frontier st)))) b;
  inv_traced : traced a (frontier st) (x0 - amount (remaining st)) (produced st);
}.

Abbreviation live_inv := (filling_inv (fresh s0)).
Abbreviation closing_inv := (filling_inv (hop_ok s0)).

(** What comes in fits under the cap. *)
Definition affordable (a : asset_id) (x0 : Z) : Prop :=
  forall b, held b (positions s0) + Typed.carries (mkValue x0 a) b <= ledger_cap.

Lemma inv_weaken a x0 st s : live_inv a x0 st s -> closing_inv a x0 st s.
Proof. intros [B R N A Re Pr T Tr]. split; try done. by apply book_weaken. Qed.

Lemma carries_le x y a b : 0 <= x <= y -> 0 <= Typed.carries (mkValue x a) b <= Typed.carries (mkValue y a) b.
Proof. intros Hxy. unfold Typed.carries. cbn. case_decide; lia. Qed.

Lemma inv_capped Q a x0 st s :
  affordable a x0 -> filling_inv Q a x0 st s -> capped s0 (Frontier.positions (frontier st)) s.
Proof.
  intros Haff [_ _ _ _ Hre Hpr Ht _] b. specialize (Haff b). rewrite Ht.
  pose proof (carries_le (x0 - amount (remaining st)) x0 a b ltac:(lia)).
  pose proof (carries_le 0 (produced st) (route_end a (Frontier.pairs (frontier st))) b ltac:(lia)).
  split; [|lia]. unfold Typed.carries in *. cbn in *. repeat case_decide; lia.
Qed.

Lemma inv_aligned a x0 st s :
  affordable a x0 -> live_inv a x0 st s -> aligned a (frontier st).
Proof.
  intros Haff Hinv. eapply live_aligned; [apply Hinv|by eapply inv_capped|apply Hinv..].
Qed.

Lemma traced_step a f f' x xs c p :
  traced a f c p -> Frontier.pairs f' = Frontier.pairs f ->
  Frontier.trace f' = Frontier.trace f ++ [route_trace a (Frontier.pairs f) (x :: xs)] ->
  0 <= x -> 0 <= List.last (x :: xs) 0 -> length xs = length (Frontier.pairs f) ->
  traced a f' (c + x) (p + List.last (x :: xs) 0).
Proof.
  intros [(xss & Ht & Hall & Hc & Hp)] Hpairs Htr Hx Hl Hlen. split. exists (xss ++ [(x, xs)]).
  rewrite Htr, Ht, Hpairs, !fmap_app, !list_sum_app, Hc, Hp. split_and!; [done| |cbn; lia|cbn; lia].
  apply Forall_app. split; [done|]. constructor; [done|constructor].
Qed.

Lemma traced_same a f f' c p : same_route f f' -> traced a f c p -> traced a f' c p.
Proof. intros [Hp Ht] [Hx]. split. by rewrite Ht, Hp. Qed.

(** Applying a trade moves the books by what it takes in and gives out. *)
Lemma apply_trade a x0 st s x xs ps' f1 :
  affordable a x0 -> live_inv a x0 st s ->
  trades (Frontier.positions (frontier st)) (Frontier.pairs (frontier st)) (x :: xs) ps' ->
  x <= amount (remaining st) ->
  f1 = Frontier.mk (Frontier.pairs (frontier st)) ps' (Frontier.position_ids (frontier st))
         (Frontier.positions_by_price (frontier st))
         (Frontier.trace (frontier st) ++ [route_trace a (Frontier.pairs (frontier st)) (x :: xs)]) ->
  0 <= x /\ 0 <= List.last (x :: xs) 0 /\ produced st + List.last (x :: xs) 0 < 2 ^ 128
  /\ live_inv a x0 (mkProgress f1 (mkValue (amount (remaining st) - x) a)
       (produced st + List.last (x :: xs) 0) true) s.
Proof.
  intros Haff Hinv Htr Hx ->. pose proof (inv_aligned _ _ _ _ Haff Hinv) as [Hs Hr Hne].
  pose proof Hinv as [Hb _ _ _ Hre Hpr Ht Htd].
  pose proof (trades_length _ _ _ _ Htr) as (Hl1 & Hl2 & Hl3).
  assert (Hpos : 0 <= x /\ 0 <= List.last (x :: xs) 0 /\ forall b,
    Forall (fun x => 0 <= x) ((fun lp => PositionOps.holds lp b) <$> ps')).
  { assert (Hnn : forall b, Forall (fun x => 0 <= x) ((fun lp => PositionOps.holds lp b) <$> ps')
      /\ Forall (fun x => 0 <= x) (x :: xs)).
    { intros b. destruct (trades_nonneg _ _ _ _ b Htr Hs) as [?|(z & Hz & ->)]; [done|].
      injection Hz as -> ->. cbn in Hl1, Hl2. destruct (Frontier.pairs (frontier st)); [done|]. cbn in *. lia. }
    split_and!; [|..|intros b; apply Hnn].
    - destruct (Hnn a) as [_ Hf]. by apply Forall_cons in Hf as [? _].
    - destruct (Hnn a) as [_ Hf]. clear -Hf. revert x Hf. induction xs as [|y xs IH]; intros x Hf.
      + by apply Forall_cons in Hf as [? _].
      + apply Forall_cons in Hf as [_ Hf]. by apply IH. }
  destruct Hpos as (Hx0 & Hlast & Hnn). set (out := List.last (x :: xs) 0) in *.
  assert (Htot : forall b, book_held b ps' s = held b (positions s0)
    + Typed.carries (mkValue (x0 - (amount (remaining st) - x)) a) b
    - Typed.carries (mkValue (produced st + out) (route_end a (Frontier.pairs (frontier st)))) b).
  { intros b. specialize (Ht b). unfold book_held in *. rewrite ahead_sum in *. rewrite (trades_ids _ _ _ _ Htr).
    rewrite (trades_conserve _ _ _ _ _ b a Htr Hs Hr). fold out.
    unfold Typed.carries in *. cbn in *. repeat case_decide; lia. }
  assert (Hbase : forall b, 0 <= held b (positions s)
    - list_sum (stored b s <$> (PositionOps.id <$> ps'))).
  { intros b. rewrite (trades_ids _ _ _ _ Htr).
    pose proof (stored_sum_le b s _ (consistent_holds_nonneg s (book_consistent _ _ _ _ Hb) b)
      (book_nodup _ _ _ _ Hb)). lia. }
  assert (Hcap : forall b, book_held b ps' s <= ledger_cap).
  { intros b. rewrite Htot. specialize (Haff b).
    pose proof (carries_le (x0 - (amount (remaining st) - x)) x0 a b ltac:(lia)).
    pose proof (carries_le 0 (produced st + out) (route_end a (Frontier.pairs (frontier st))) b ltac:(lia)) as [Hq _].
    unfold Typed.carries in *. cbn in *. repeat case_decide; lia. }
  assert (Hbnn : forall b, 0 <= book_held b ps' s).
  { intros b. unfold book_held. rewrite ahead_sum. specialize (Hbase b).
    pose proof (list_sum_nonneg _ (Hnn b)). lia. }
  assert (Hle : forall lp, lp ∈ ps' -> forall b, PositionOps.holds lp b <= ledger_cap).
  { intros lp Hlp b. etransitivity; [|apply (Hcap b)]. unfold book_held. rewrite ahead_sum.
    pose proof (list_sum_elem_le _ _ (Hnn b) (list_elem_of_fmap_2 (fun lp => PositionOps.holds lp b) _ _ Hlp)).
    specialize (Hbase b). lia. }
  split_and!; [done|done| |].
  - specialize (Hbnn (route_end a (Frontier.pairs (frontier st)))). rewrite Htot in Hbnn.
    specialize (Haff (route_end a (Frontier.pairs (frontier st)))). unfold ledger_cap, Typed.carries in *.
    cbn in *. repeat case_decide; try congruence; lia.
  - split; cbn [frontier remaining produced Frontier.pairs Frontier.positions amount value_asset];
      try done; try lia.
    + destruct Hb as [B1 B2 B3 B4 B5 B6 B7 B8]. split; try done; cbn.
      * by eapply trades_fresh.
      * by rewrite (trades_ids _ _ _ _ Htr).
      * assert (Hids : Forall (.∈ Frontier.position_ids (frontier st)) (PositionOps.id <$> ps'))
          by (rewrite (trades_ids _ _ _ _ Htr); by apply Forall_fmap).
        by apply Forall_fmap in Hids.
    + replace (x0 - (amount (remaining st) - x)) with (x0 - amount (remaining st) + x) by lia.
      eapply traced_step; try done. cbn [length] in Hl2. lia.
Qed.

(** ** One iteration *)

Lemma should_apply_total spill once tx x x' :
  @FrontierTx.first_amount U128x128.error tx = Ok x -> @FrontierTx.last_amount U128x128.error tx = Ok x' ->
  0 <= x -> is_u128 x' -> exists b, should_apply spill once tx = Ok b.
Proof.
  intros Hx Hx' H0 H0'. unfold should_apply. destruct spill as [p|]; [|by eexists].
  unfold FrontierTx.actual_price. rewrite Hx, Hx'. cbn [outcome_bind].
  destruct (U128x128.checked_div _ _) eqn:Hd; [by eexists|by eexists|]. exfalso.
  apply U128x128.checked_div_never_panics in Hd; [done|..]; [|by apply U128x128.wf_from_uint].
  rewrite U128x128.from_uint_eq. pose proof U128x128.B_pos. lia.
Qed.

Lemma inv_replaced Q a x0 st s f' s' once :
  live_inv a x0 st s -> same_route (frontier st) f' ->
  (forall b, book_held b (Frontier.positions f') s' = book_held b (Frontier.positions (frontier st)) s) ->
  book Q s0 f' s' -> filling_inv Q a x0 (mkProgress f' (remaining st) (produced st) once) s'.
Proof.
  intros [_ R N A Re Pr T Tr] Hsame Hh Hb. pose proof Hsame as [Hp Ht].
  split; cbn [frontier remaining produced]; try done; try (by rewrite Hp).
  - intros b. by rewrite Hh, Hp.
  - by eapply traced_same.
Qed.

Lemma affordable_le a x0 : affordable a x0 -> x0 <= ledger_cap.
Proof.
  intros Ha. specialize (Ha a). pose proof (held_nonneg s0 a Hc0). unfold Typed.carries in Ha. cbn in Ha.
  rewrite decide_True in Ha by done. lia.
Qed.

(** A position of the initial state that the fill reports as overflowing. *)
Definition blames (id : position_id) : Prop :=
  exists lp, positions s0 !! id = Some lp /\ state lp = PositionState.Opened.

Lemma live_blames a x0 st s lp :
  live_inv a x0 st s -> lp ∈ Frontier.positions (frontier st) -> blames (PositionOps.id lp).
Proof.
  intros [Hb _ _ _ _ _ _ _] Hin. destruct (Forall2_elem_of _ _ _ _ (book_hops _ _ _ _ Hb) Hin) as (d & _ & Hf).
  destruct Hf as (prev & x & y & _ & Hl & Hop & _). by exists prev.
Qed.

(** What an iteration returns, by whether the loop goes on. *)
Definition after_iteration a x0 (st st' : progress) (go : bool) s' : Prop :=
  Frontier.pairs (frontier st') = Frontier.pairs (frontier st)
  /\ if go then live_inv a x0 st' s' /\ (stream_size (frontier st') < stream_size (frontier st))%nat
     else closing_inv a x0 st' s'.

(** Phase 4 and the decision to go on. *)
Lemma finish_iteration a x0 st s f1 left output c :
  affordable a x0 -> 
  live_inv a x0 (mkProgress f1 (mkValue left a) output true) s ->
  stream_size f1 = stream_size (frontier st) -> Frontier.pairs f1 = Frontier.pairs (frontier st) ->
  match c with
  | None => left = 0
  | Some k => exhausted f1 k
  end ->
  exists st' go s',
    ('(f, found) <- Frontier.replace_empty_positions f1;;
     let st := mkProgress f (mkValue left a) output true in
     if negb found then ret (st, false)
     else
       match c with
       | None => if left =? 0 then ret (st, false) else panic
       | Some _ => ret (st, true)
       end) s = (Ok (st', go), s') /\ after_iteration a x0 st st' go s'.
Proof.
  intros Haff Hinv Hsize Hpairs Hc. pose proof (inv_capped _ _ _ _ _ Haff (inv_weaken _ _ _ _ Hinv)) as Hcap.
  destruct (replace_empty_spec s0 Hc0 Hep a (seq 0 (length (Frontier.pairs f1))) f1 s) as
    (f' & found & s' & Hrun & Hsame & Hh & Hcl & Hf); [apply Hinv|exact Hcap|apply Hinv| |].
  { apply Forall_seq. lia. }
  pose proof (fun Q once => inv_replaced Q a x0 _ s f' s' once Hinv Hsame Hh) as Hnew. cbn [remaining produced] in Hnew.
  assert (Hp' : Frontier.pairs f' = Frontier.pairs (frontier st)) by (rewrite <- Hpairs; apply Hsame).
  erewrite bind_run_ok by exact Hrun. cbv zeta. destruct found; cbn [negb].
  - destruct (Hf eq_refl) as (Hlive & Hle & Hlt). destruct c as [k|].
    + eexists _, true, s'. split; [done|]. split; [exact Hp'|]. split; [by apply Hnew|]. cbn [frontier]. rewrite <- Hsize.
      apply (Hlt k); [|done]. destruct Hc as (lp & d & _ & Hd & _). apply elem_of_seq.
      apply lookup_lt_Some in Hd. lia.
    + rewrite Hc, Z.eqb_refl. eexists _, false, s'. split; [done|]. split; [exact Hp'|].
      rewrite <- Hc. by apply Hnew.
  - eexists _, false, s'. split; [done|]. split; [exact Hp'|]. by apply Hnew.
Qed.

Lemma iteration_spec a x0 spill st s :
  affordable a x0 -> live_inv a x0 st s ->
  (exists id, iteration spill st s = (Err (ExecutionOverflow id), s) /\ blames id)
  \/ exists st' go s', iteration spill st s = (Ok (st', go), s') /\ after_iteration a x0 st st' go s'.
Proof.
  intros Haff Hinv. pose proof (inv_aligned _ _ _ _ Haff Hinv) as Hal.
  pose proof (inv_asset _ _ _ _ _ Hinv) as Hasset. pose proof (inv_remaining _ _ _ _ _ Hinv) as Hre.
  pose proof (affordable_le _ _ Haff) as Hx0.
  assert (Hhalf : half (amount (remaining st))) by (unfold half, ledger_cap in *; lia).
  unfold iteration. assert (Heta : remaining st = mkValue (amount (remaining st)) a)
    by (destruct (remaining st); cbn in *; by subst).
  destruct (next_tx_spec (frontier st) a _ Hal Hhalf) as [(lp & Hn & Hin)|(c & x' & xs & ps' & Hn & Htr & Hle & Hc)];
    rewrite Heta, Hn.
  - left. exists (PositionOps.id lp). split; [done|by eapply live_blames].
  - right. rewrite bind_lift_ok.
    destruct (apply_trade a x0 st s x' xs ps' _ Haff Hinv Htr Hle eq_refl) as (Hx' & Hlast & Hout & Hlive).
    pose proof (inv_produced _ _ _ _ _ Hinv) as Hpr.
    pose proof (apply_spec _ _ _ _ _ Hal Htr) as Happ.
    destruct (should_apply_total spill (filled_once st) (FrontierTx.mk (recorded ps') (Some <$> x' :: xs))
      x' (List.last (x' :: xs) 0)) as [go Hgo]; [done|by apply last_amount_some|lia|unfold in_width; lia|].
    rewrite Hgo, bind_lift_ok. destruct go; cbn [negb].
    + rewrite Happ, bind_lift_ok. cbn [amount].
      rewrite plain_sub_run, bind_lift_ok by lia. rewrite plain_add_run, bind_lift_ok by (unfold in_width; lia).
      cbn [value_asset]. apply finish_iteration; try done.
      destruct c as [k|]; [|lia]. destruct Hc as (lq & d & ? & ? & ?). by exists lq, d.
    + exists st, false, s. split; [done|]. split; [done|]. by apply inv_weaken.
Qed.

(** ** The loop *)

(** Every iteration but the last shrinks a stream, so one more than their size is enough fuel. *)
Lemma fill_loop_spec a x0 spill : affordable a x0 -> forall fuel st s,
  live_inv a x0 st s -> (stream_size (frontier st) < fuel)%nat ->
  (exists id s', fill_loop fuel spill st s = (Err (ExecutionOverflow id), s') /\ blames id)
  \/ exists st' s', fill_loop fuel spill st s = (Ok st', s') /\ closing_inv a x0 st' s'
       /\ Frontier.pairs (frontier st') = Frontier.pairs (frontier st).
Proof.
  intros Haff. induction fuel as [|fuel IH]; intros st s Hinv Hfuel; [lia|]. cbn [fill_loop].
  destruct (iteration_spec a x0 spill st s Haff Hinv) as [(id & Hr & Hb)|(st' & go & s' & Hr & Hafter)].
  - left. exists id, s. split; [|done]. by erewrite bind_run_err by exact Hr.
  - erewrite bind_run_ok by exact Hr. destruct Hafter as [Hp Hafter]. destruct go.
    + destruct Hafter as [Hlive Hlt]. rewrite <- Hp. apply IH; [done|lia].
    + right. by exists st', s'.
Qed.

(** ** Loading *)

Lemma moderate lp id a x0 :
  affordable a x0 -> 0 <= x0 -> positions s0 !! id = Some lp -> half (r1 (reserves lp)) /\ half (r2 (reserves lp)).
Proof.
  intros Haff Hx Hl.
  assert (Hh : forall b, half (PositionOps.holds lp b)).
  { intros b. pose proof (consistent_holds_nonneg s0 Hc0 b) as Hn. specialize (Haff b).
    pose proof (map_sum_lookup_le (fun lp => PositionOps.holds lp b) _ id lp Hn Hl).
    specialize (Hn id lp Hl). pose proof (carries_le 0 x0 a b ltac:(lia)). unfold held in Haff.
    unfold half, ledger_cap in *. lia. }
  destruct (reserves_le_holds lp (all_sound _ (consistent_positions _ Hc0) id lp Hl)) as (b1 & b2 & -> & ->). done.
Qed.

Lemma stream_usable d a x0 :
  affordable a x0 -> 0 <= x0 -> Forall (usable d ∅ s0) (PriceIndex.positions_by_price d s0).
Proof.
  intros Haff Hx. apply Forall_forall. intros [i lp] Hin _. cbn.
  apply PriceIndexFacts.elem_of_positions_by_price in Hin as [Hl [b Hlist]]; [|apply Hc0].
  destruct (consistent_positions _ Hc0 i lp Hl) as (Hid & Hty & Hwf).
  destruct (moderate lp i a x0 Haff Hx Hl). split_and!; try done.
  - by eapply PriceIndexFacts.listed_opened.
  - split; try done. destruct Hlist as (f & [_ [(Hd & _)|(Hd & _)]] & _); auto.
Qed.

Lemma open_streams_spec ds s : forall m : gmap DirectedTradingPair (list (position_id * Position)),
  (forall d l, m !! d = Some l -> l = PriceIndex.positions_by_price d s) ->
  let m' := foldl (fun m pair => match m !! pair with
                       | Some _ => m
                       | None => <[pair := PriceIndex.positions_by_price pair s]> m
                       end) m ds in
  (forall d, d ∈ ds \/ is_Some (m !! d) -> m' !! d = Some (PriceIndex.positions_by_price d s)).
Proof.
  induction ds as [|d ds IH]; intros m Hm; cbn [foldl]; cbv zeta.
  - intros d [Hd|[l Hl]]; [by apply not_elem_of_nil in Hd|]. by rewrite Hl, (Hm d l Hl).
  - intros d' Hd'. apply IH.
    + destruct (m !! d) as [l|] eqn:Hl; [done|]. intros e l. rewrite lookup_insert. case_decide; [naive_solver|apply Hm].
    + destruct (m !! d) as [l|] eqn:Hl.
      * destruct Hd' as [[->|?]%elem_of_cons|?]; [right; by exists l|by left|by right].
      * destruct (decide (d' = d)) as [->|Hne]; [right; by rewrite lookup_insert_eq|].
        rewrite lookup_insert_ne by done. destruct Hd' as [[?|?]%elem_of_cons|?]; [done|by left|by right].
Qed.

(** A frontier with its first hops on it. *)
Record loading (pre : list DirectedTradingPair) f : Prop := {
  loading_fresh : Forall2 (fresh s0 s0) (Frontier.positions f) pre;
  loading_nodup : NoDup (PositionOps.id <$> Frontier.positions f);
  loading_member : Forall (fun lp => PositionOps.id lp ∈ Frontier.position_ids f) (Frontier.positions f);
  loading_streams : forall d, d ∈ Frontier.pairs f -> exists l, Frontier.positions_by_price f !! d = Some l
      /\ Forall (usable d (Frontier.position_ids f) s0) l;
  loading_ahead : forall b, ahead b (Frontier.positions f) s0 = 0;
  loading_trace : Frontier.trace f = [];
}.

Lemma loading_book f : loading (Frontier.pairs f) f -> book (fresh s0) s0 f s0.
Proof. intros [F N M S _ _]. split; try done. apply evolved_refl. Qed.

Lemma loading_step pre d i lp rest f l :
  loading pre f -> d ∈ Frontier.pairs f -> Frontier.positions_by_price f !! d = Some l ->
  Frontier.next_fresh (Frontier.position_ids f) l = (Some (i, lp), rest) ->
  loading (pre ++ [d]) (Frontier.mk (Frontier.pairs f) (Frontier.positions f ++ [lp])
    ({[i]} ∪ Frontier.position_ids f) (<[d := rest]> (Frontier.positions_by_price f)) (Frontier.trace f)).
Proof.
  intros [F N M S A T] Hd Hl Hnf. destruct (S d Hd) as (l' & Hl' & Hu). simplify_eq.
  apply next_fresh_spec in Hnf as [Hrest (Hi & Hin & _)].
  assert (Hlp : usable d (Frontier.position_ids f) s0 (i, lp)) by (rewrite Forall_forall in Hu; by apply Hu).
  destruct (Hlp Hi) as (Hp & Hid & Hst & Hty & Hs). cbn in Hp, Hid, Hst, Hty, Hs.
  split; cbn [Frontier.positions Frontier.pairs Frontier.position_ids Frontier.positions_by_price Frontier.trace].
  - apply Forall2_app; [done|]. constructor; [|constructor]. exists lp, 0, 0. rewrite Hid.
    split_and!; try done. by apply moved_refl.
  - rewrite fmap_app. apply NoDup_app. split_and!; [done| |apply NoDup_singleton].
    intros j (lq & -> & Hq)%list_elem_of_fmap Hj%list_elem_of_singleton. rewrite Forall_forall in M.
    apply Hi. rewrite <- Hid, <- Hj. by apply M.
  - apply Forall_app. split; [|constructor; [set_solver|constructor]].
    eapply Forall_impl; [exact M|]. set_solver.
  - intros d' Hd'. rewrite lookup_insert. case_decide as He; [subst d'|].
    + exists rest. split; [done|]. eapply usable_mono; [done..| |by apply Hrest]. set_solver.
    + destruct (S d' Hd') as (l' & Hl' & Hu'). exists l'. split; [done|]. eapply usable_mono; [done..| |done]. set_solver.
  - intros b. rewrite ahead_app, A, ahead_cons. unfold stored. rewrite Hid, Hp. cbn. lia.
  - done.
Qed.

Lemma load_positions_spec todo : forall pre f,
  Frontier.pairs f = pre ++ todo -> loading pre f ->
  (exists d, Frontier.load_positions todo f = Err (InsufficientLiquidity d) /\ d ∈ todo)
  \/ exists f', Frontier.load_positions todo f = Ok f' /\ Frontier.pairs f' = Frontier.pairs f
       /\ loading (Frontier.pairs f') f'.
Proof.
  induction todo as [|d todo IH]; intros pre f Hp Hl; cbn [Frontier.load_positions].
  - right. exists f. rewrite app_nil_r in Hp. rewrite Hp. done.
  - assert (Hd : d ∈ Frontier.pairs f) by (rewrite Hp; set_solver).
    destruct (loading_streams _ _ Hl d Hd) as (l & Hs & _). rewrite Hs. cbn [expect_some outcome_bind].
    destruct (Frontier.next_fresh _ l) as [[[i lp]|] rest] eqn:Hnf; cbn [ok_or outcome_bind].
    + pose proof (loading_step pre d i lp rest f l Hl Hd Hs Hnf) as Hl'.
      apply IH in Hl' as [(e & He & Hin)|Hok]; [left|right; exact Hok|cbn; by rewrite <- app_assoc]. exists e. split; [done|set_solver].
    + left. exists d. split; [done|set_solver].
Qed.

Lemma load_spec pairs a x0 :
  affordable a x0 -> 0 <= x0 ->
  (exists d, Frontier.load pairs s0 = (Err (InsufficientLiquidity d), s0) /\ d ∈ pairs)
  \/ exists f, Frontier.load pairs s0 = (Ok f, s0) /\ Frontier.pairs f = pairs /\ Frontier.trace f = []
       /\ book (fresh s0) s0 f s0 /\ forall b, book_held b (Frontier.positions f) s0 = held b (positions s0).
Proof.
  intros Haff Hx. unfold Frontier.load. rewrite bind_gets.
  set (f := Frontier.mk pairs [] ∅ (Frontier.open_streams pairs s0) []).
  destruct (load_positions_spec pairs [] f eq_refl) as [(d & Hd & Hin)|(f' & Hf & Hp & Hl)].
  - split; cbn; try done; [apply NoDup_nil_2|]. intros d Hd. eexists. split.
    + apply (open_streams_spec pairs s0 ∅); [intros ? ?; by rewrite lookup_empty|by left].
    + by eapply stream_usable.
  - left. exists d. rewrite Hd. done.
  - right. exists f'. rewrite Hf. split_and!; [done|done|apply Hl|by apply loading_book|].
    intros b. unfold book_held. rewrite (loading_ahead _ _ Hl). lia.
Qed.
End Fill.
