(* ===== verification/RouteSpec.v ===== *)
(** * What filling a route and routing a trade return

    The contract of [fill_route]: a typed error that leaves no trace, or an execution whose ledger
    is consistent and balanced.  The contract of [route_and_fill] is built on it. *)

From S2P Require Import Prelude.
From S2P Require Import Num.
From S2P Require Import Asset.
From S2P Require Import TradingFunction.
From S2P Require Import Position.
From S2P Require Import Vcb.
From S2P Require Import DexState.
From S2P Require Import Indexes.
From S2P Require Import IndexFacts.
From S2P Require Import PositionManager.
From S2P Require Import PositionFacts.
From S2P Require Import DexMachine.
From S2P Require Import Path.
From S2P Require Import PathFacts.
From S2P Require Import PathTheorems.
From S2P Require Import Router.
From S2P Require Import RouterFacts.
From S2P Require Import ExecutionFacts.
From S2P Require Import FillFacts.
From S2P Require Import FillLoop.
From S2P Require Import FillRouteFacts.

(** ** Routes and traces *)

Lemma last_default {A} (l : list A) : forall x d d', List.last (x :: l) d = List.last (x :: l) d'.
Proof. induction l as [|y l IH]; intros x d d'; [done|]. apply (IH y). Qed.

Lemma windows_route hops : forall a h,
  route_from a (Frontier.windows (a :: h :: hops))
  /\ route_end a (Frontier.windows (a :: h :: hops)) = List.last (h :: hops) a
  /\ Frontier.windows (a :: h :: hops) <> [].
Proof.
  induction hops as [|h' hops IH]; intros a h; [done|].
  destruct (IH h h') as (H1 & H2 & _). split_and!; [done| |done].
  change (route_end h (Frontier.windows (h :: h' :: hops)) = List.last (h' :: hops) a).
  rewrite H2. apply last_default.
Qed.

Lemma route_trace_ends {E} ds : forall a x xs, length xs = length ds ->
  @FillRoute.trace_ends E (route_trace a ds (x :: xs))
    = Ok (mkValue x a, mkValue (List.last (x :: xs) 0) (route_end a ds)).
Proof.
  intros a x xs Hl. unfold FillRoute.trace_ends. cbn [route_trace head expect_some outcome_bind].
  enough (last (mkValue x a :: zip_with (fun y d => mkValue y (end_ d)) xs ds)
    = Some (mkValue (List.last (x :: xs) 0) (route_end a ds))) as -> by done.
  revert a x xs Hl. induction ds as [|d ds IH]; intros a x [|y xs] Hl; try done.
  cbn [zip_with route_end]. cbn in Hl. injection Hl as Hl. exact (IH (end_ d) y xs Hl).
Qed.

Lemma collect_ends_spec {E} a ds (xss : list (Z * list Z)) :
  Forall (fun t => length t.2 = length ds) xss ->
  @FillRoute.collect_ends E ((fun t => route_trace a ds (t.1 :: t.2)) <$> xss)
    = Ok ((fun t => (mkValue t.1 a, mkValue (List.last (t.1 :: t.2) 0) (route_end a ds))) <$> xss).
Proof.
  induction 1 as [|[x xs] xss Hl _ IH]; [done|]. rewrite !fmap_cons. cbn [FillRoute.collect_ends fst snd].
  cbn in Hl. rewrite route_trace_ends by done. cbn [outcome_bind]. rewrite IH. done.
Qed.

(** The ends of the traces add up to what the fill consumed and produced. *)
Lemma traced_sums {E} a f c p :
  traced a f c p -> c < 2 ^ 128 -> p < 2 ^ 128 ->
  exists ends, @FillRoute.collect_ends E (Frontier.trace f) = Ok ends
    /\ @Amount.sum E (amount ∘ fst <$> ends) = Ok c /\ @Amount.sum E (amount ∘ snd <$> ends) = Ok p.
Proof.
  intros [(xss & Ht & Hall & Hc & Hp)] Hcl Hpl. rewrite Ht. eexists. split_and!.
  - apply collect_ends_spec. eapply Forall_impl; [exact Hall|]. naive_solver.
  - rewrite <- list_fmap_compose. rewrite <- Hc. apply Amount.sum_exact; [|lia].
    apply Forall_fmap. eapply Forall_impl; [exact Hall|]. naive_solver.
  - rewrite <- list_fmap_compose. rewrite <- Hp. apply Amount.sum_exact; [|lia].
    apply Forall_fmap. eapply Forall_impl; [exact Hall|]. naive_solver.
Qed.

(** Every trace has its ends, with amounts in range; without traces nothing moved. *)
Lemma traced_ends a f c p :
  traced a f c p -> c < 2 ^ 128 -> p < 2 ^ 128 ->
  Forall (fun t => exists v w, head t = Some v /\ last t = Some w
            /\ is_u128 (amount v) /\ is_u128 (amount w)) (Frontier.trace f)
  /\ (Frontier.trace f = [] -> c = 0 /\ p = 0).
Proof.
  intros [(xss & Ht & Hall & Hc & Hp)] Hcl Hpl. split.
  - rewrite Ht. apply Forall_fmap, Forall_forall. intros t Hin. cbn.
    assert (Hbound : forall g : Z * list Z -> Z, Forall (fun t => 0 <= g t) xss ->
      list_sum (g <$> xss) < 2 ^ 128 -> is_u128 (g t)).
    { intros g Hg Hs. pose proof (list_sum_elem_le (g <$> xss) (g t)) as Hle.
      unfold in_width. rewrite Forall_forall in Hg. specialize (Hg t Hin) as Hgt.
      enough (g t <= list_sum (g <$> xss)) by lia. apply Hle; [|by apply list_elem_of_fmap_2].
      apply Forall_fmap, Forall_forall. exact Hg. }
    rewrite Forall_forall in Hall. pose proof (Hall t Hin) as (_ & _ & Hlen).
    pose proof (@route_trace_ends FillError _ a t.1 t.2 Hlen) as He.
    unfold FillRoute.trace_ends in He. cbn [route_trace head expect_some outcome_bind] in He.
    destruct (last (mkValue t.1 a :: zip_with _ t.2 _)) as [w|]; [|done]. injection He as ->.
    eexists _, _. split_and!; [done|done|..]; cbn [amount].
    + apply (Hbound fst); [|lia]. apply Forall_forall. naive_solver.
    + apply (Hbound (fun t => List.last (t.1 :: t.2) 0)); [|lia]. apply Forall_forall. naive_solver.
  - intros H0. rewrite Ht in H0. apply fmap_nil_inv in H0 as ->. cbn in *. done.
Qed.

Section FillRouteSpec.
Context `{DexEnv}.
Import FillRoute.

(** A fill error that the inputs explain. *)
Definition fill_error (s : DexState) (a : asset_id) (hops : list asset_id) (e : FillError) : Prop :=
  match e with
  | ExecutionOverflow id => blames s id
  | InvalidRoute _ => hops = []
  | InsufficientLiquidity d => Frontier.load (Frontier.windows (a :: hops)) s = (Err e, s)
  | _ => False
  end.

(** The change of the ledger by an execution that took [x] of [a] and gave [y] of [b]. *)
Record traded (s s' : DexState) (v w : Value) : Prop := {
  traded_consistent : consistent s';
  traded_outside : outside s' = outside s;
  traded_evolved : evolved s s';
  traded_held : forall b, held b (positions s')
    = held b (positions s) + Typed.carries v b - Typed.carries w b;
}.

Record filled (s s' : DexState) (a : asset_id) (x0 : Z) (hops : list asset_id) (e : SwapExecution) : Prop := {
  filled_input : exists x, DexState.input e = mkValue x a /\ 0 <= x <= x0;
  filled_output : exists y, DexState.output e = mkValue y (List.last hops a) /\ 0 <= y < 2 ^ 128;
  filled_trade : traded s s' (DexState.input e) (DexState.output e);
  filled_ends : Forall (fun t => exists v w, head t = Some v /\ last t = Some w
                   /\ is_u128 (amount v) /\ is_u128 (amount w)) (DexState.traces e);
  filled_idle : DexState.traces e = [] -> amount (DexState.input e) = 0 /\ amount (DexState.output e) = 0;
}.

Lemma closing_filled s0 a x0 st s :
  consistent s0 -> is_Some (current_epoch s0) -> affordable s0 a x0 -> 0 <= x0 ->
  filling_inv s0 (hop_ok s0) a x0 st s ->
  exists s', Frontier.save (frontier st) s = (Ok tt, s')
    /\ traded s0 s' (mkValue (x0 - amount (remaining st)) a)
         (mkValue (produced st) (route_end a (Frontier.pairs (frontier st)))).
Proof.
  intros Hc Hep Haff Hx Hinv.
  destruct (save_spec s0 (frontier st) s Hc Hep) as (s' & Hs & Hc' & Ho & He & Hh);
    [apply Hinv|by eapply inv_capped|apply Hinv|].
  exists s'. split; [done|]. split; try done. intros b. rewrite Hh. apply Hinv.
Qed.

Lemma inv_produced_u128 s0 a x0 st s :
  consistent s0 -> affordable s0 a x0 -> filling_inv s0 (hop_ok s0) a x0 st s ->
  0 <= x0 -> produced st < 2 ^ 128.
Proof.
  intros Hc Haff Hinv Hx. pose proof Hinv as [Hb _ _ _ Hre Hp Ht _].
  set (b := route_end a (Frontier.pairs (frontier st))) in *. specialize (Ht b).
  assert (0 <= book_held b (Frontier.positions (frontier st)) s).
  { pose proof (list_sum_nonneg _ (frontier_nonneg s0 _ s Hb b)) as Hl. unfold book_held. rewrite ahead_sum.
    pose proof (stored_sum_le b s _ (consistent_holds_nonneg s (book_consistent _ _ _ _ Hb) b)
      (book_nodup _ _ _ _ Hb)). lia. }
  pose proof (carries_le (x0 - amount (remaining st)) x0 a b ltac:(lia)). specialize (Haff b).
  unfold Typed.carries at 2 in Ht. cbn [amount value_asset] in Ht. rewrite decide_True in Ht by done.
  unfold ledger_cap in Haff. lia.
Qed.

(** Saving the frontier and summing the traces. *)
Definition finish_fill (st : progress) : comp DexState FillError SwapExecution :=
  let f := frontier st in
  expecting (Frontier.save f);;;
  ends <- lift (collect_ends (Frontier.trace f));;
  in_amount <- lift (Amount.sum (amount ∘ fst <$> ends));;
  out_amount <- lift (Amount.sum (amount ∘ snd <$> ends));;
  d <- lift (Frontier.context f);;
  ret (mkSwapExecution (Frontier.trace f) (mkValue in_amount (start d)) (mkValue out_amount (end_ d))).

Lemma finish_fill_spec s0 a x0 st s :
  consistent s0 -> is_Some (current_epoch s0) -> affordable s0 a x0 -> 0 <= x0 ->
  filling_inv s0 (hop_ok s0) a x0 st s ->
  exists s', finish_fill st s
      = (Ok (mkSwapExecution (Frontier.trace (frontier st)) (mkValue (x0 - amount (remaining st)) a)
               (mkValue (produced st) (route_end a (Frontier.pairs (frontier st))))), s')
    /\ traded s0 s' (mkValue (x0 - amount (remaining st)) a)
         (mkValue (produced st) (route_end a (Frontier.pairs (frontier st)))).
Proof.
  intros Hc Hep Haff Hx Hinv.
  destruct (closing_filled s0 a x0 st s Hc Hep Haff Hx Hinv) as (s' & Hs & Ht).
  pose proof (affordable_le s0 Hc a x0 Haff) as Hcap.
  pose proof (inv_remaining _ _ _ _ _ _ Hinv) as Hre.
  destruct (@traced_sums FillError _ _ _ _ (inv_traced _ _ _ _ _ _ Hinv)) as (ends & He & H1 & H2);
    [unfold ledger_cap in *; lia|by eapply inv_produced_u128|].
  destruct (@context_total FillError _ (inv_nonempty _ _ _ _ _ _ Hinv)) as (c & Hctx & Heq).
  exists s'. split; [|done]. unfold finish_fill. cbv zeta.
  erewrite bind_run_ok by (unfold expecting; rewrite Hs; reflexivity).
  rewrite He, bind_lift_ok, H1, bind_lift_ok, H2, bind_lift_ok, Hctx, bind_lift_ok.
  rewrite (Heq a) by apply Hinv. done.
Qed.

(** The contract of [fill_route]. *)
Lemma fill_route_spec s0 a x0 hops spill :
  consistent s0 -> is_Some (current_epoch s0) -> affordable s0 a x0 -> 0 <= x0 ->
  (exists e, fill_route (mkValue x0 a) hops spill s0 = (Err e, s0) /\ fill_error s0 a hops e)
  \/ exists e s', fill_route (mkValue x0 a) hops spill s0 = (Ok e, s') /\ filled s0 s' a x0 hops e.
Proof.
  intros Hc Hep Haff Hx.
  assert (Herr : forall e s', fill_route_body (mkValue x0 a) hops spill true s0 = (Err e, s') ->
    fill_route (mkValue x0 a) hops spill s0 = (Err e, s0)).
  { intros e s' Hr. unfold fill_route, transaction. by rewrite Hr. }
  destruct hops as [|h hops].
  { left. exists (InvalidRoute 1). split; [|done]. by eapply Herr. }
  destruct (windows_route hops a h) as (Hr1 & Hr2 & Hne).
  set (ds := Frontier.windows (a :: h :: hops)) in *.
  assert (Hbody : fill_route_body (mkValue x0 a) (h :: hops) spill true s0
    = (f <- Frontier.load ds;;
       st <- fill_loop (S (stream_size f)) spill (mkProgress f (mkValue x0 a) 0 false);;
       finish_fill st) s0) by done.
  destruct (load_spec s0 Hc Hep ds a x0 Haff Hx) as [(d & Hl & Hd)|(f & Hl & Hp & Htr & Hb & Hh)].
  { left. exists (InsufficientLiquidity d). split; [|done]. eapply Herr. rewrite Hbody.
    by apply bind_run_err. }
  assert (Hinv : filling_inv s0 (fresh s0) a x0 (mkProgress f (mkValue x0 a) 0 false) s0).
  { split; cbn [frontier remaining produced amount value_asset]; try rewrite Hp; try done; try lia.
    - intros b. rewrite Hh, Z.sub_diag. unfold Typed.carries. cbn. repeat case_decide; lia.
    - split. exists []. rewrite Htr. split_and!; try done. cbn. lia. }
  destruct (fill_loop_spec s0 Hc Hep a x0 spill Haff (S (stream_size f)) _ s0 Hinv ltac:(cbn; lia))
    as [(id & s' & Hr & Hbl)|(st & s' & Hr & Hcl & Hpairs)].
  { left. exists (ExecutionOverflow id). split; [|done]. eapply Herr. rewrite Hbody.
    erewrite bind_run_ok by exact Hl. by apply bind_run_err. }
  destruct (finish_fill_spec s0 a x0 st s' Hc Hep Haff Hx Hcl) as (s'' & Hf & He).
  cbn [frontier] in Hpairs. rewrite Hpairs, Hp, Hr2 in Hf, He.
  right. eexists _, s''. split.
  - unfold fill_route, transaction. rewrite Hbody. erewrite bind_run_ok by exact Hl.
    erewrite bind_run_ok by exact Hr. by rewrite Hf.
  - pose proof (inv_remaining _ _ _ _ _ _ Hcl). pose proof (inv_produced _ _ _ _ _ _ Hcl).
    pose proof (inv_produced_u128 s0 a x0 st s' Hc Haff Hcl Hx).
    pose proof (affordable_le s0 Hc a x0 Haff). unfold ledger_cap in *.
    destruct (traced_ends _ _ _ _ (inv_traced _ _ _ _ _ _ Hcl)) as [Hends Hidle]; [lia|lia|].
    split; cbn [DexState.input DexState.output DexState.traces amount];
      [eexists; split; [done|lia]|eexists; split; [done|lia]|done..].
Qed.

(** ** Sequences of trades *)

Lemma evolved_trans s1 s2 s3 : evolved s1 s2 -> evolved s2 s3 -> evolved s1 s3.
Proof.
  intros H1 H2 i. specialize (H1 i). specialize (H2 i). destruct (positions s1 !! i) as [lp|].
  - destruct H1 as (lp2 & Hl2 & Hp2 & Hs2). rewrite Hl2 in H2. destruct H2 as (lp3 & Hl3 & Hp3 & Hs3).
    exists lp3. split_and!; [done|congruence|].
    destruct Hs2 as [->|(Ho & Hs2)]; [done|]. destruct Hs3 as [->|(Ho3 & Hs3)]; auto.
  - by rewrite H1 in H2.
Qed.

Lemma carries_add x y a b :
  Typed.carries (mkValue (x + y) a) b = Typed.carries (mkValue x a) b + Typed.carries (mkValue y a) b.
Proof. rewrite !carries_amount. case_decide; lia. Qed.

Lemma traded_refl s a b : consistent s -> traded s s (mkValue 0 a) (mkValue 0 b).
Proof.
  intros Hc. split; [done|done|apply evolved_refl|]. intros c. rewrite !carries_amount.
  repeat case_decide; lia.
Qed.

Lemma traded_trans s1 s2 s3 x y x' y' a b :
  traded s1 s2 (mkValue x a) (mkValue y b) -> traded s2 s3 (mkValue x' a) (mkValue y' b) ->
  traded s1 s3 (mkValue (x + x') a) (mkValue (y + y') b).
Proof.
  intros [_ O1 E1 H1] [C2 O2 E2 H2]. split; [done|congruence|by eapply evolved_trans|].
  intros c. rewrite H2, H1, !carries_add. lia.
Qed.

(** Closing an opened position moves nothing. *)
Lemma close_traded s id lp a b :
  consistent s -> (forall c, held c (positions s) < 2 ^ 128) ->
  positions s !! id = Some lp -> state lp = PositionState.Opened ->
  exists s', PositionManager.close_position_by_id id s = (Ok tt, s')
    /\ traded s s' (mkValue 0 a) (mkValue 0 b).
Proof.
  intros Hc Hcap Hl Ho.
  destruct (close_total id lp s Hc Hl (or_introl Ho)) as [s' Hr]. exists s'. split; [done|].
  unfold PositionManager.close_position_by_id, DexRead.position_by_id in Hr.
  erewrite bind_run_ok in Hr by reflexivity. rewrite Hl in Hr. cbn [ok_or] in Hr.
  rewrite bind_lift_ok, Ho in Hr. cbn [PositionState.is_opened PositionState.is_closed orb] in Hr.
  erewrite bind_run_ok in Hr by reflexivity.
  set (new := PositionOps.with_state PositionState.Closed lp) in *.
  assert (Hsame : forall c, held c (after (positions s) id new) = held c (positions s)).
  { intros c. rewrite held_after, Hl. unfold new. rewrite holds_with_state. cbn. lia. }
  assert (Hnew : sound_position id new) by (by apply sound_with_state, (consistent_positions _ Hc)).
  assert (Hall : map_Forall sound_position (after (positions s) id new))
    by (apply map_Forall_insert_2; [done|apply Hc]).
  destruct (update_close_total id lp s Hc Hl Ho) as [s1 Hu]. fold new in Hu.
  erewrite bind_run_ok in Hr by exact Hu.
  apply (update_position_spec id (Some lp)) in Hu as (_ & Hc1 & Hp1 & Hu1 & _); try done.
  - apply modify_ok in Hr as [_ ->]. split.
    + by eapply consistent_frame; [|exact Hc1].
    + change (outside s1 = outside s). unfold outside. by rewrite Hu1.
    + eapply (evolved_step s s); [apply evolved_refl|exact Hl|exact Hp1|done|done|by right].
    + intros c. change (positions (record_event (EventPositionClose id) s1)) with (positions s1).
      rewrite Hp1, Hsame, !carries_amount. repeat case_decide; lia.
  - by intros ? [= <-].
  - intros d. eapply supply_bound; [|rewrite Hsame; reflexivity|apply Hcap].
    intros k q Hk. destruct (Hall k q Hk) as (_ & ? & ?). by apply typed_sound.
Qed.
End FillRouteSpec.
