(* ===== verification/RouteLoad.v ===== *)
(** * Loading a route the search has found

    The search forgets the positions its path has used, the frontier skips them: both draw the same
    positions, so a frontier can always be loaded for a route that the search reports. *)

From S2P Require Import Prelude.
From S2P Require Import Num.
From S2P Require Import Asset.
From S2P Require Import TradingFunction.
From S2P Require Import Position.
From S2P Require Import Vcb.
From S2P Require Import DexState.
From S2P Require Import Indexes.
From S2P Require Import IndexFacts.
From S2P Require Import PositionManager.
From S2P Require Import PositionFacts.
From S2P Require Import Path.
From S2P Require Import PathFacts.
From S2P Require Import Router.
From S2P Require Import RouterFacts.
From S2P Require Import FillFacts.
From S2P Require Import FillRouteFacts.
From S2P Require Import RouteSpec.

Section Load.
Context `{DexEnv}.
Implicit Types (ids : gset position_id) (s : DexState) (d : DirectedTradingPair).

(** The price index of [s'] is that of [s] without the positions [ids]. *)
Definition hidden ids s s' : Prop :=
  forall d b i lp, price_index s' !! (d, b, i) = Some lp <-> price_index s !! (d, b, i) = Some lp /\ i ∉ ids.

Definition unused ids (l : list (position_id * Position)) : list (position_id * Position) :=
  filter (fun e => e.1 ∉ ids) l.

Lemma entries_nodup d s : NoDup (PriceIndex.entries d s).
Proof.
  unfold PriceIndex.entries. pose proof (NoDup_map_to_list (price_index s)) as Hn.
  induction (map_to_list (price_index s)) as [|[[[d' b] i] lp] l IH]; cbn; [apply NoDup_nil_2|].
  apply NoDup_cons in Hn as [Hni Hn]. case_decide as Hd; [|by apply IH].
  apply NoDup_cons. split; [|by apply IH]. intros ([[[d2 b2] i2] lp2] & Hin & Heq)%list_elem_of_omap.
  case_decide; simplify_eq. done.
Qed.

Lemma entries_key d s x y :
  x ∈ PriceIndex.entries d s -> y ∈ PriceIndex.entries d s ->
  PriceIndex.key_le x y -> PriceIndex.key_le y x -> x = y.
Proof.
  destruct x as [[b i] lp], y as [[b' i'] lp']. rewrite !PriceIndexFacts.elem_of_entries.
  unfold PriceIndex.key_le. cbn. rewrite (lex_compare_antisym b b').
  destruct (lex_compare b' b) eqn:He; cbn; try done.
  apply lex_compare_eq in He as ->. intros H1 H2 Hle Hge. assert (i = i') as -> by lia. congruence.
Qed.

Lemma unused_fmap ids (l : list (list Z * position_id * Position)) :
  unused ids ((fun '(_, id, lp) => (id, lp)) <$> l)
    = (fun '(_, id, lp) => (id, lp)) <$> filter (fun e => e.1.2 ∉ ids) l.
Proof.
  unfold unused. induction l as [|[[b i] lp] l IH]; [done|]. rewrite fmap_cons, !filter_cons, IH. cbn [fst snd].
  by case_decide.
Qed.

Lemma sorted_filter {A} (R : relation A) (P : A -> Prop) `{!forall x, Decision (P x)} (l : list A) :
  StronglySorted R l -> StronglySorted R (filter P l).
Proof.
  induction 1 as [|x l Hl IH Hx]; [constructor|]. rewrite filter_cons. case_decide; [|done].
  constructor; [done|]. apply Forall_forall. intros y [_ Hy]%list_elem_of_filter.
  rewrite Forall_forall in Hx. by apply Hx.
Qed.

Lemma hidden_stream ids s s' d :
  hidden ids s s' -> PriceIndex.positions_by_price d s' = unused ids (PriceIndex.positions_by_price d s).
Proof.
  intros Hh. unfold PriceIndex.positions_by_price. rewrite unused_fmap. f_equal.
  set (P := fun e : list Z * position_id * Position => e.1.2 ∉ ids).
  apply (StronglySorted_unique_strong PriceIndex.key_le).
  - intros x y Hx Hy. rewrite merge_sort_Permutation in Hx. apply list_elem_of_filter in Hy as [_ Hy].
    rewrite merge_sort_Permutation in Hy. apply (entries_key d s); [|done].
    destruct x as [[b i] lp]. apply PriceIndexFacts.elem_of_entries in Hx. apply PriceIndexFacts.elem_of_entries.
    by apply Hh in Hx as [? _].
  - apply (StronglySorted_merge_sort PriceIndex.key_le).
  - apply sorted_filter, (StronglySorted_merge_sort PriceIndex.key_le).
  - rewrite !merge_sort_Permutation. apply NoDup_Permutation.
    + apply entries_nodup.
    + apply NoDup_filter, entries_nodup.
    + intros [[b i] lp]. rewrite list_elem_of_filter, !PriceIndexFacts.elem_of_entries. rewrite (Hh d b i lp). naive_solver.
Qed.

Lemma next_fresh_unused ids l :
  Frontier.next_fresh ids l
    = match unused ids l with
      | [] => (None, [])
      | e :: _ => (Some e, (Frontier.next_fresh ids l).2)
      end.
Proof.
  induction l as [|[i lp] l IH]; [done|]. cbn [Frontier.next_fresh]. unfold unused. rewrite filter_cons.
  cbn [fst]. case_decide as Hi.
  - rewrite decide_False by tauto. exact IH.
  - by rewrite decide_True by done.
Qed.

(** What is drawn does not come back, and nothing else is lost. *)
Lemma next_fresh_rest ids l i lp rest :
  Frontier.next_fresh ids l = (Some (i, lp), rest) -> unused ({[i]} ∪ ids) rest = unused ({[i]} ∪ ids) l.
Proof.
  induction l as [|[j lq] l IH]; cbn [Frontier.next_fresh]; [done|]. case_decide as Hj.
  - intros Hn. rewrite (IH Hn). unfold unused. rewrite filter_cons, decide_False; [done|]. cbn. set_solver.
  - intros [= <- <- <-]. unfold unused. rewrite filter_cons, decide_False; [done|]. cbn. set_solver.
Qed.

Lemma unused_mono ids ids' l l' :
  ids ⊆ ids' -> unused ids l = unused ids l' -> unused ids' l = unused ids' l'.
Proof.
  intros Hs Heq.
  assert (Hf : forall l, unused ids' l = unused ids' (unused ids l)).
  { intros k. unfold unused. induction k as [|e k IH]; [done|]. rewrite !filter_cons.
    destruct (decide (e.1 ∉ ids)).
    - rewrite filter_cons. case_decide; [by rewrite IH|done].
    - rewrite decide_False by set_solver. done. }
  by rewrite Hf, Heq, <- Hf.
Qed.

(** ** The search and the frontier draw the same positions *)

Section Route.
Context (src : asset_id) (s : DexState).
Hypothesis Hc : consistent s.

Lemma hidden_best ids s' d :
  hidden ids s s' -> PriceIndex.best_position d s' = head (unused ids (PriceIndex.positions_by_price d s)).
Proof. intros Hh. unfold PriceIndex.best_position. by rewrite (hidden_stream ids s s'). Qed.

Lemma unused_indexed ids d i lp :
  (i, lp) ∈ unused ids (PriceIndex.positions_by_price d s) -> i ∉ ids /\ positions s !! i = Some lp.
Proof.
  intros [Hi Hin]%list_elem_of_filter. split; [done|].
  by apply PriceIndexFacts.elem_of_positions_by_price in Hin as [? _]; [|apply Hc].
Qed.

Lemma hidden_extend ids s' d i lp u s'' :
  hidden ids s s' -> PriceIndex.best_position d s' = Some (i, lp) ->
  PriceIndex.deindex_position_by_price lp i s' = (Ok u, s'') -> hidden ({[i]} ∪ ids) s s''.
Proof.
  intros Hh Hb (m & -> & Hm)%PriceIndexFacts.price_deindex_spec.
  rewrite (hidden_best ids) in Hb by done. apply head_Some_elem_of, unused_indexed in Hb as [_ Hl].
  intros d' b j lq. cbn. rewrite Hm, (Hh d' b j lq).
  enough (Hkey : forall d' b, price_index s !! (d', b, i) = Some lq ->
    (d' = pair_ab lp /\ PriceIndexFacts.price_bytes (component (phi lp)) = Ok b)
    \/ (d' = pair_ba lp /\ PriceIndexFacts.price_bytes (Bare.flip (component (phi lp))) = Ok b)).
  { split; [|set_solver].
    intros ((Hp & Hj) & Hn). split; [done|]. intros [->%elem_of_singleton|?]%elem_of_union; [|done].
    apply Hn. split; [done|]. by apply Hkey. }
  intros d0 b0 Hp. apply (consistent_price _ Hc) in Hp as [Hl' (f & (_ & Ho) & Hf)]. simplify_eq.
  destruct Ho as [(-> & -> & _)|(-> & -> & _)]; auto.
Qed.

Lemma load_positions_app l1 l2 : forall f,
  Frontier.load_positions (l1 ++ l2) f = (let! f1 := Frontier.load_positions l1 f in Frontier.load_positions l2 f1).
Proof.
  induction l1 as [|d l1 IH]; intros f; [done|]. cbn [app Frontier.load_positions].
  destruct (expect_some _) as [l|e|]; cbn [outcome_bind]; [|done..].
  destruct (Frontier.next_fresh _ l) as [[[i lp]|] rest]; cbn [ok_or outcome_bind]; [apply IH|done].
Qed.

Lemma windows_snoc l : forall a b,
  Frontier.windows ((a :: l) ++ [b]) = Frontier.windows (a :: l) ++ [mkDirected (List.last (a :: l) a) b].
Proof.
  induction l as [|x l IH]; intros a b; [done|].
  change (mkDirected a x :: Frontier.windows ((x :: l) ++ [b])
    = mkDirected a x :: Frontier.windows (x :: l) ++ [mkDirected (List.last (x :: l) a) b]).
  by rewrite IH, (last_default l x x a).
Qed.

(** A frontier and a path in step. *)
Record in_step (ds : list DirectedTradingPair) (f : Frontier.t) (p : Path.t) : Prop := {
  step_pairs : Frontier.pairs f = ds;
  step_hidden : hidden (Frontier.position_ids f) s (Path.state p);
  step_streams : forall d, d ∈ ds -> exists l, Frontier.positions_by_price f !! d = Some l
    /\ unused (Frontier.position_ids f) l
       = unused (Frontier.position_ids f) (PriceIndex.positions_by_price d s);
}.

Lemma end_of_last p : reached src s p -> Path.end_of p = List.last (src :: Path.nodes p) src.
Proof.
  intros Hp. unfold Path.end_of. rewrite (reached_start _ _ _ Hp).
  destruct (Path.nodes p) as [|x l] using rev_ind; [done|].
  by rewrite last_snoc, app_comm_cons, List.last_last.
Qed.

Lemma in_step_extend ds f p a p' :
  in_step ds f p -> mkDirected (Path.end_of p) a ∈ ds -> Path.extend_to p a = Ok (Some p') ->
  exists f', Frontier.load_positions [mkDirected (Path.end_of p) a] f = Ok f' /\ in_step ds f' p'.
Proof.
  intros [Hp Hh Hst] Hd Hext. set (d := mkDirected (Path.end_of p) a) in *.
  unfold Path.extend_to in Hext. fold d in Hext.
  destruct (PriceIndex.best_position d (Path.state p)) as [[i lp]|] eqn:Hb; [|done].
  destruct (PriceIndex.deindex_position_by_price lp i (Path.state p)) as [[u|e|] s''] eqn:Hde; [|done..].
  cbn [outcome_bind] in Hext. apply outcome_bind_ok in Hext as (fn & _ & Hext).
  apply outcome_bind_ok in Hext as (x & _ & Hext).
  destruct (U128x128.checked_mul (Path.price p) x); [|done..]. injection Hext as <-.
  destruct (Hst d Hd) as (l & Hl & Hu).
  assert (Hhead : head (unused (Frontier.position_ids f) l) = Some (i, lp)).
  { rewrite Hu. by rewrite <- (hidden_best _ (Path.state p)). }
  destruct (unused (Frontier.position_ids f) l) as [|e us] eqn:Hus; [done|]. injection Hhead as ->.
  cbn [Frontier.load_positions]. rewrite Hl. cbn [expect_some outcome_bind].
  destruct (Frontier.next_fresh (Frontier.position_ids f) l) as [found rest] eqn:Hnf.
  pose proof (next_fresh_unused (Frontier.position_ids f) l) as Hnu. rewrite Hus, Hnf in Hnu.
  injection Hnu as ->. cbn [ok_or outcome_bind]. eexists. split; [done|].
  split; cbn [Frontier.pairs Frontier.position_ids Frontier.positions_by_price Path.state].
  - done.
  - by eapply hidden_extend.
  - intros d' Hd'. rewrite lookup_insert. case_decide as He.
    + subst d'. exists rest. split; [done|]. rewrite (next_fresh_rest _ _ _ _ _ Hnf).
      apply (unused_mono (Frontier.position_ids f)); [set_solver|by rewrite Hus].
    + destruct (Hst d' Hd') as (l' & Hl' & Hu'). exists l'. split; [done|].
      apply (unused_mono (Frontier.position_ids f)); [set_solver|done].
Qed.

Lemma reached_loads ds p :
  reached src s p -> (forall d, d ∈ Frontier.windows (src :: Path.nodes p) -> d ∈ ds) ->
  exists f, Frontier.load_positions (Frontier.windows (src :: Path.nodes p))
      (Frontier.mk ds [] ∅ (Frontier.open_streams ds s) []) = Ok f
    /\ in_step ds f p.
Proof.
  induction 1 as [|p a p' Hp IH Hext]; intros Hds.
  - eexists. split; [done|]. split; cbn.
    + done.
    + intros d b i lp. set_solver.
    + intros d Hd. eexists. split; [|done]. apply (open_streams_spec ds s ∅); [|by left].
      intros ? ?. by rewrite lookup_empty.
  - destruct (extend_to_ok _ _ _ Hext) as [_ Hn]. rewrite Hn, app_comm_cons, windows_snoc in Hds |- *.
    rewrite <- (end_of_last p Hp) in Hds |- *.
    destruct IH as (f & Hf & Hs); [intros d Hd; apply Hds; set_solver|].
    destruct (in_step_extend ds f p a p' Hs) as (f' & Hf' & Hs'); [apply Hds; set_solver|done|].
    exists f'. split; [|done]. rewrite load_positions_app, Hf. exact Hf'.
Qed.

(** A frontier can be loaded for every route the search reaches. *)
Lemma route_loads p : reached src s p ->
  exists f, Frontier.load (Frontier.windows (src :: Path.nodes p)) s = (Ok f, s).
Proof.
  intros Hp. destruct (reached_loads _ p Hp (fun d Hd => Hd)) as (f & Hf & _). exists f.
  unfold Frontier.load. rewrite bind_gets, Hf. done.
Qed.
End Route.
End Load.
