(* ===== verification/RoutingFacts.v ===== *)
(** * Routing a trade

    The rounds of [route_and_fill]: each one keeps the ledger balanced, the circuit breaker bounds
    their number, and the result accounts for exactly what has been consumed and produced. *)

From S2P Require Import Prelude.
From S2P Require Import Num.
From S2P Require Import Asset.
From S2P Require Import TradingFunction.
From S2P Require Import Position.
From S2P Require Import Vcb.
From S2P Require Import DexState.
From S2P Require Import Indexes.
From S2P Require Import IndexFacts.
From S2P Require Import PositionManager.
From S2P Require Import PositionFacts.
From S2P Require Import DexMachine.
From S2P Require Import Path.
From S2P Require Import PathFacts.
From S2P Require Import PathTheorems.
From S2P Require Import Router.
From S2P Require Import RouterFacts.
From S2P Require Import ExecutionFacts.
From S2P Require Import FillFacts.
From S2P Require Import FillRouteFacts.
From S2P Require Import RouteSpec.
From S2P Require Import RouteLoad.

Section Routing.
Context `{DexEnv}.
Import RouteAndFill.

(** The search returns, and what it reports leads to the destination. *)
Lemma search_total src dst params s :
  consistent s -> exists r, PathSearch.path_search src dst params s = Ok r
    /\ forall nodes spill, r = (Some nodes, spill) ->
         List.last nodes src = dst /\ exists p, reached src s p /\ Path.nodes p = nodes.
Proof.
  intros Hc. unfold PathSearch.path_search.
  destruct (relax_rounds_total src s (Z.to_nat (routing_max_hops params)) (routing_candidates params)
    (PathCache.begin src s)) as [c Hr]; [by apply consistent_indexed | apply cache_ok_begin |].
  rewrite Hr. eexists. split; [done|]. intros nodes spill Hn.
  apply relax_rounds_searches in Hr. pose proof (searches_ok _ _ _ _ _ _ (cache_ok_begin src s) Hr) as Hok.
  unfold PathSearch.report in Hn. destruct (c !! dst) as [e|] eqn:He; [|done].
  destruct (Hok dst e He) as (Hreach & Hend & _).
  assert (nodes = Path.nodes (PathCache.path e)) as -> by (repeat case_match; congruence).
  split; [|by eexists]. rewrite <- Hend. unfold Path.end_of.
  assert (Hstart : Path.start (PathCache.path e) = src) by (by eapply reached_start).
  rewrite Hstart. generalize (Path.nodes (PathCache.path e)). intros l. clear.
  destruct l as [|x l] using rev_ind; [done|]. by rewrite last_snoc, List.last_last.
Qed.

Lemma attempt_err {S E E' A} (m : comp S E A) s e s' :
  m s = (Err e, s') -> @attempt S E E' A m s = (Ok (inr e), s').
Proof. unfold attempt. by intros ->. Qed.

Lemma attempt_ok {S E E' A} (m : comp S E A) s x s' :
  m s = (Ok x, s') -> @attempt S E E' A m s = (Ok (inl x), s').
Proof. unfold attempt. by intros ->. Qed.

(** ** What the rounds maintain *)

Record routing (s0 : DexState) (a b : asset_id) (x0 : Z) (st : progress) (s : DexState) : Prop := {
  routing_unfilled : 0 <= total_unfilled_1 st <= x0;
  routing_output : 0 <= total_output_2 st;
  routing_trade : traded s0 s (mkValue (x0 - total_unfilled_1 st) a) (mkValue (total_output_2 st) b);
  routing_idle : traces st = [] -> total_unfilled_1 st = x0 /\ total_output_2 st = 0;
}.

Definition breaker_ok (b : ExecutionCircuitBreaker.t) : Prop :=
  0 <= ExecutionCircuitBreaker.counter b /\ is_u32 (ExecutionCircuitBreaker.max b).

Section Rounds.
Context (s0 : DexState) (a b : asset_id) (x0 : Z) (params : RoutingParams).
Hypothesis Hc0 : consistent s0.
Hypothesis Hep : is_Some (current_epoch s0).
Hypothesis Hx0 : 0 <= x0.
Hypothesis Haff : affordable s0 a x0.

Lemma routing_start k : routing s0 a b x0 (mkProgress k x0 0 []) s0.
Proof. split; cbn; try done; try lia. rewrite Z.sub_diag. by apply traded_refl. Qed.

Lemma routing_held st s c :
  routing s0 a b x0 st s ->
  0 <= held c (positions s) /\ held c (positions s) + Typed.carries (mkValue (total_unfilled_1 st) a) c
    + Typed.carries (mkValue (total_output_2 st) b) c <= ledger_cap.
Proof.
  intros [Hu Ho [Hc _ _ Hh] _]. split; [by apply held_nonneg|]. specialize (Haff c). specialize (Hh c).
  replace x0 with (x0 - total_unfilled_1 st + total_unfilled_1 st) in Haff by lia.
  rewrite carries_add in Haff. lia.
Qed.

Lemma routing_affordable st s : routing s0 a b x0 st s -> affordable s a (total_unfilled_1 st).
Proof.
  intros Hr c. pose proof (routing_held st s c Hr) as [_ Hh].
  pose proof (carries_le 0 (total_output_2 st) b c ltac:(split; [done|apply Hr])). lia.
Qed.

Lemma max_price_total {E} a' x (hops : list asset_id) s s' e :
  filled s s' a' x hops e -> exists p, @max_price E e = Ok p.
Proof.
  intros [_ _ _ Hends _]. unfold max_price. destruct (last (DexState.traces e)) as [t|] eqn:Hl; [|by eexists].
  apply last_Some in Hl as [l Hl]. rewrite Hl in Hends. apply Forall_app in Hends as [_ Hends].
  apply Forall_cons in Hends as [(v & w & -> & -> & Hv & Hw) _].
  unfold U128x128.ratio. destruct (U128x128.checked_div _ _) eqn:Hd; [by eexists|by eexists|].
  exfalso. apply U128x128.checked_div_never_panics in Hd; [done| |by apply U128x128.wf_from_uint].
  apply (U128x128.wf_from_uint _ Hv).
Qed.

(** A fill is accounted for exactly. *)
Lemma account_spec st s s' path e :
  routing s0 a b x0 st s -> filled s s' a (total_unfilled_1 st) path e -> List.last path a = b ->
  exists st' go, account a b params st e = Ok (st', go) /\ routing s0 a b x0 st' s'
    /\ breaker st' = breaker st.
Proof.
  intros Hr Hf Hend. pose proof Hf as [(x & Hx & Hxr) (y & Hy & Hyr) Ht _ Hidle].
  rewrite Hx, Hy, Hend in Ht. rewrite Hx, Hy in Hidle. cbn [amount] in Hidle.
  pose proof (routing_held st s b Hr) as [Hh0 Hh]. pose proof Hr as [Hu Ho Htr Hi].
  pose proof (traded_held _ _ _ _ Ht b) as Hb. pose proof (held_nonneg s' b (traded_consistent _ _ _ _ Ht)) as Hn.
  assert (Hout : total_output_2 st + y < 2 ^ 128).
  { unfold ledger_cap in Hh. rewrite !carries_amount in *. repeat case_decide; try congruence; lia. }
  unfold account. rewrite Hx, Hy, Hend. cbn [value_asset amount]. rewrite !Z.eqb_refl. cbn [negb].
  rewrite plain_add_run by done. cbn [outcome_bind]. rewrite plain_sub_run by lia. cbn [outcome_bind].
  assert (Hnew : routing s0 a b x0 (mkProgress (breaker st) (total_unfilled_1 st - x) (total_output_2 st + y)
    (traces st ++ DexState.traces e)) s').
  { split; cbn [total_unfilled_1 total_output_2 traces]; try lia.
    - replace (x0 - (total_unfilled_1 st - x)) with (x0 - total_unfilled_1 st + x) by lia.
      by eapply traded_trans.
    - intros [H1 H2]%app_nil. specialize (Hi H1). specialize (Hidle H2). lia. }
  destruct (total_unfilled_1 st - x =? 0); [by eexists _, _|].
  destruct (@max_price_total string _ _ _ _ _ _ Hf) as [p ->]. cbn [outcome_bind].
  destruct p as [p|]; [destruct (price_limit params)|]; by eexists _, _.
Qed.

Lemma increment_spec {E} k :
  breaker_ok k -> ExecutionCircuitBreaker.exceeded_limits k = false ->
  exists k', @ExecutionCircuitBreaker.increment E k = Ok k' /\ breaker_ok k'
    /\ (round_budget k' < round_budget k)%nat.
Proof.
  intros [Hk1 Hk2] Hex%Z.leb_gt. unfold ExecutionCircuitBreaker.increment, in_width in *.
  rewrite plain_add_run by lia. cbn [outcome_bind]. eexists. split; [done|].
  unfold breaker_ok, in_width, round_budget. cbn. split; [lia|]. lia.
Qed.

(** One round never fails: the frontier can be loaded for the route that the search reports, and a
    position that overflows is closed. *)
Lemma round_spec st s :
  routing s0 a b x0 st s -> breaker_ok (breaker st) ->
  exists st' go s', round a b params st s = (Ok (st', go), s') /\ routing s0 a b x0 st' s'
       /\ breaker_ok (breaker st')
       /\ (go = true -> (round_budget (breaker st') < round_budget (breaker st))%nat).
Proof.
  intros Hr Hk. unfold round. destruct (ExecutionCircuitBreaker.exceeded_limits (breaker st)) eqn:Hex.
  { by exists st, false, s. }
  destruct (@increment_spec string _ Hk Hex) as (k' & Hk' & Hok & Hlt). rewrite Hk', bind_lift_ok. cbv zeta.
  set (st1 := mkProgress k' (total_unfilled_1 st) (total_output_2 st) (traces st)).
  assert (Hr1 : routing s0 a b x0 st1 s) by (destruct Hr; by split).
  destruct (search_total a b params s (traded_consistent _ _ _ _ (routing_trade _ _ _ _ _ _ Hr)))
    as ([path spill] & Hs & Hdst).
  rewrite bind_gets, Hs. cbn [map_err]. rewrite bind_lift_ok.
  destruct path as [[|h path]|]; [by exists st1, false, s| |by exists st1, false, s].
  specialize (Hdst _ _ eq_refl) as (Hdst & p & Hreach & Hnodes).
  destruct (fill_route_spec s a (total_unfilled_1 st1) (h :: path) spill) as
    [(e & Hfill & He)|(e & s' & Hfill & He)].
  - apply Hr.
  - pose proof (traded_outside _ _ _ _ (routing_trade _ _ _ _ _ _ Hr)) as Ho.
    by rewrite (f_equal current_epoch Ho : current_epoch s = _).
  - by apply routing_affordable.
  - apply Hr.
  - apply (attempt_err (E' := string)) in Hfill. rewrite (bind_run_ok _ _ _ _ _ Hfill).
    destruct e as [| id | | |d]; try (exfalso; exact He); [|discriminate He|]; cycle 1.
    { exfalso. cbn [fill_error] in He. rewrite <- Hnodes in He.
      destruct (route_loads a s (traded_consistent _ _ _ _ (routing_trade _ _ _ _ _ _ Hr)) p Hreach) as (f & Hf). by rewrite Hf in He. }
    destruct He as (lp & Hl & Hopen).
    destruct (close_traded s id lp a b (traded_consistent _ _ _ _ (routing_trade _ _ _ _ _ _ Hr))) as (s' & Hcl & Ht);
      [|done|done|].
    { intros c. pose proof (routing_held st s c Hr) as [_ Hh]. pose proof Hr as [Hu Ho _ _].
      pose proof (carries_le 0 (total_unfilled_1 st) a c ltac:(lia)).
      pose proof (carries_le 0 (total_output_2 st) b c ltac:(lia)). unfold ledger_cap in *. lia. }
    exists st1, true, s'. split_and!; [|destruct Hr as [Hu Ho Htr Hi]; split; try done|done|done].
    + erewrite bind_run_ok by (unfold expecting; rewrite Hcl; reflexivity). done.
    + cbn [total_unfilled_1 total_output_2 st1].
      replace (x0 - total_unfilled_1 st) with (x0 - total_unfilled_1 st + 0) by lia.
      replace (total_output_2 st) with (total_output_2 st + 0) by lia. by eapply traded_trans.
  - apply (attempt_ok (E' := string)) in Hfill. rewrite (bind_run_ok _ _ _ _ _ Hfill).
    destruct (account_spec st1 s s' _ e Hr1 He Hdst) as (st' & go & Hacc & Hr' & Hb).
    exists st', go, s'. rewrite Hacc, Hb. split_and!; try done.
Qed.

Lemma route_loop_spec fuel : forall st s,
  routing s0 a b x0 st s -> breaker_ok (breaker st) -> (round_budget (breaker st) <= fuel)%nat ->
  exists st' s', routing s0 a b x0 st' s' /\ route_loop fuel a b params st s = (Ok st', s').
Proof.
  induction fuel as [|fuel IH]; intros st s Hr Hk Hfuel; [unfold round_budget in Hfuel; lia|].
  cbn [route_loop]. destruct (round_spec st s Hr Hk) as (st' & go & s' & He & Hr' & Hk' & Hlt).
  erewrite bind_run_ok by exact He. destruct go; [|by exists st', s'].
  apply IH; [done|done|]. specialize (Hlt eq_refl). lia.
Qed.

(** The contract of [route_and_fill]: it succeeds, and what it consumed and produced is what the
    ledger gained and lost. *)
Lemma route_and_fill_spec k :
  breaker_ok k ->
  exists x y s', 0 <= x <= x0 /\ 0 <= y /\ traded s0 s' (mkValue x a) (mkValue y b)
    /\ ((route_and_fill a b x0 params k s0 = (Ok None, s') /\ x = 0 /\ y = 0)
        \/ exists ts, ts <> [] /\ route_and_fill a b x0 params k s0
             = (Ok (Some (mkSwapExecution ts (mkValue x a) (mkValue y b))), s')).
Proof.
  intros Hk. unfold route_and_fill. destruct (Z.eqb_spec x0 0) as [->|Hne].
  { exists 0, 0, s0. split_and!; try done; [by apply traded_refl|]. by left. }
  destruct (route_loop_spec (round_budget k) _ s0 (routing_start k) Hk ltac:(cbn; lia))
    as (st & s' & [Hu Ho Ht Hi] & Hrun).
  exists (x0 - total_unfilled_1 st), (total_output_2 st), s'. split_and!; try lia; [done|].
  erewrite bind_run_ok by exact Hrun. destruct (traces st) as [|t ts] eqn:Hts.
  - left. specialize (Hi eq_refl). split; [done|lia].
  - right. exists (t :: ts). split; [done|]. rewrite plain_sub_run by lia. by rewrite bind_lift_ok.
Qed.
End Rounds.
End Routing.
