(* ===== verification/SettlementFacts.v ===== *)
(** * Settling batches and arbitrage

    What [handle_batch_swaps] and [arbitrage] leave behind: the circuit breaker pays out exactly
    what the positions have given up. *)

From S2P Require Import Prelude.
From S2P Require Import Num.
From S2P Require Import Asset.
From S2P Require Import TradingFunction.
From S2P Require Import Position.
From S2P Require Import Vcb.
From S2P Require Import DexState.
From S2P Require Import Indexes.
From S2P Require Import IndexFacts.
From S2P Require Import PositionManager.
From S2P Require Import PositionFacts.
From S2P Require Import DexMachine.
From S2P Require Import Router.
From S2P Require Import RouterFacts.
From S2P Require Import FillFacts.
From S2P Require Import FillRouteFacts.
From S2P Require Import RouteSpec.
From S2P Require Import RoutingFacts.

Section Settlement.
Context `{DexEnv}.

(** What the execution of a batch reads of the state besides the positions and the ledger. *)
Definition ambient (s : DexState) :=
  (dex_params s, current_epoch s, block_height s, pending_position_closures s, swap_flows s,
   active_trading_pairs s, recently_accessed_assets s).

Lemma outside_ambient s s' : outside s' = outside s -> ambient s' = ambient s.
Proof. intros Ho. exact (f_equal ambient Ho). Qed.

(** [out] leaves the circuit breaker; the positions stay as they are. *)
Record settled_by (s s' : DexState) (out : asset_id -> Z) : Prop := {
  settles_ambient : ambient s' = ambient s;
  settles_indexes : indexes s' = indexes s;
  settles_positions : positions s' = positions s;
  settles_balance : forall c, Vcb.balance c s' = Vcb.balance c s - out c;
}.

Lemma settles_trans s1 s2 s3 o1 o2 :
  settled_by s1 s2 o1 -> settled_by s2 s3 o2 -> settled_by s1 s3 (fun c => o1 c + o2 c).
Proof.
  intros [M1 A1 B1 C1] [M2 A2 B2 C2]. split; [congruence..|]. intros c. rewrite C2, C1. lia.
Qed.

Lemma settles_nothing s s' :
  ambient s' = ambient s -> indexes s' = indexes s -> positions s' = positions s -> value_balances s' = value_balances s ->
  settled_by s s' (fun _ => 0).
Proof.
  intros Ha Hi Hp Hv. split; [done..|]. intros c. unfold Vcb.balance. cbn. rewrite Hv. lia.
Qed.

Lemma debit_settles v s :
  amount v <= Vcb.balance (value_asset v) s ->
  exists s', Vcb.dex_vcb_debit v s = (Ok tt, s') /\ settled_by s s' (Typed.carries v)
    /\ arb_execution_at s' = arb_execution_at s.
Proof.
  intros Hle. eexists. split; [by apply Vcb.debit_spec; split_and!|].
  match goal with |- settled_by _ ?s' _ /\ _ => set (s1 := s') end.
  assert (Hr : Vcb.dex_vcb_debit v s = (Ok tt, s1)) by (by apply Vcb.debit_spec; split_and!).
  pose proof (debit_frame _ _ _ _ Hr) as (vb & ev & Heq). split; [|by rewrite Heq].
  split; [by rewrite Heq..|]. intros c. by eapply Vcb.debit_balance.
Qed.

(** A computation that only writes its own records. *)
Definition records (m : dex unit) : Prop := forall s,
  exists s', m s = (Ok tt, s') /\ settled_by s s' (fun _ => 0)
    /\ output_data_at s' = output_data_at s.

Lemma records_ret : records (ret tt).
Proof. intros s. exists s. split_and!; [done|by apply settles_nothing|done]. Qed.

Lemma records_modify f :
  (forall s, ambient (f s) = ambient s /\ indexes (f s) = indexes s /\ positions (f s) = positions s
     /\ value_balances (f s) = value_balances s /\ output_data_at (f s) = output_data_at s) ->
  records (modify f).
Proof.
  intros Hf s. destruct (Hf s) as (? & ? & ? & ? & ?). exists (f s).
  split_and!; [done|by apply settles_nothing|done].
Qed.

Lemma records_bind m1 m2 : records m1 -> records m2 -> records (m1;;; m2).
Proof.
  intros H1 H2 s. destruct (H1 s) as (s1 & R1 & S1 & O1). destruct (H2 s1) as (s2 & R2 & S2 & O2).
  exists s2. split_and!; [by erewrite bind_run_ok by exact R1| |congruence].
  exact (settles_trans _ _ _ _ _ S1 S2).
Qed.

Lemma records_execution h d (e : option SwapExecution) :
  records (match e with Some e => DexWrite.put_swap_execution_at_height h d e | None => ret tt end).
Proof. destruct e; [by apply records_modify|apply records_ret]. Qed.

(** A swap's candlestick data never overflow: the price of an execution is a ratio of amounts. *)
Lemma records_swap_execution e :
  is_u128 (amount (input e)) -> is_u128 (amount (output e)) -> records (Chandelier.record_swap_execution e).
Proof.
  intros Hi Ho. unfold Chandelier.record_swap_execution. intros s.
  destruct (Z.eqb_spec (amount (output e)) 0) as [|Hno]; cbn [orb]; [by apply records_ret|].
  destruct (Z.eqb_spec (amount (input e)) 0) as [|Hni]; cbn [orb]; [by apply records_ret|].
  rewrite bind_gets. unfold U128x128.ratio. rewrite U128x128.checked_div_eq.
  - rewrite !U128x128.from_uint_eq. pose proof U128x128.B_pos as HB.
    destruct (Z.eqb_spec (amount (input e) * U128x128.B) 0); [unfold in_width in *; nia|].
    destruct (Z.ltb_spec (amount (output e) * U128x128.B * U128x128.B / (amount (input e) * U128x128.B))
      U128x128.U256) as [_|Hbig].
    + cbn [expect_ok]. rewrite bind_lift_ok. by apply records_modify.
    + exfalso. rewrite U128x128.U256_B in Hbig. fold U128x128.B in Ho.
      rewrite Z.div_mul_cancel_r in Hbig by lia. unfold in_width in *.
      assert (amount (output e) * U128x128.B / amount (input e) <= amount (output e) * U128x128.B)
        by (apply Z.div_le_upper_bound; nia).
      change (2 ^ 128) with U128x128.B in *. nia.
  - rewrite U128x128.from_uint_eq. pose proof U128x128.B_pos. unfold in_width in *. nia.
  - by apply U128x128.wf_from_uint.
Qed.

(** ** The outputs of a batch *)

Lemma set_output_data_spec bsod e1 e2 s :
  let out_1 := unfilled_1 bsod + lambda_1 bsod in
  let out_2 := unfilled_2 bsod + lambda_2 bsod in
  let a1 := asset_1 (trading_pair bsod) in
  let a2 := asset_2 (trading_pair bsod) in
  out_1 < 2 ^ 128 -> out_2 < 2 ^ 128 ->
  (forall c, Typed.carries (mkValue out_1 a1) c + Typed.carries (mkValue out_2 a2) c <= Vcb.balance c s) ->
  0 <= out_1 -> 0 <= out_2 ->
  exists s', DexWrite.set_output_data bsod e1 e2 s = (Ok tt, s')
    /\ settled_by s s' (fun c => Typed.carries (mkValue out_1 a1) c + Typed.carries (mkValue out_2 a2) c)
    /\ output_data_at s' !! (height bsod, trading_pair bsod) = Some bsod.
Proof.
  intros out_1 out_2 a1 a2 H1 H2 Hcov P1 P2.
  assert (Hpos : forall a c, 0 <= Typed.carries (mkValue out_1 a) c /\ 0 <= Typed.carries (mkValue out_2 a) c).
  { intros a c. split; [apply (carries_le out_1 out_1)|apply (carries_le out_2 out_2)]; lia. }
  unfold DexWrite.set_output_data. fold out_1 out_2. cbv zeta. fold a1 a2.
  unfold out_1 at 1. rewrite plain_add_run by done. rewrite bind_lift_ok. fold out_1.
  destruct (debit_settles (mkValue out_1 a1) s) as (s1 & R1 & S1 & _).
  { cbn [amount value_asset]. pose proof (Hcov a1) as Hc. specialize (Hpos a2 a1) as [_ Hp].
    rewrite carries_amount, decide_True in Hc by done. lia. }
  erewrite bind_run_ok by exact R1. rewrite plain_add_run by done. rewrite bind_lift_ok. fold out_2.
  destruct (debit_settles (mkValue out_2 a2) s1) as (s2 & R2 & S2 & _).
  { cbn [amount value_asset]. rewrite (settles_balance _ _ _ S1). pose proof (Hcov a2) as Hc.
    rewrite (carries_amount out_2), decide_True in Hc by done. lia. }
  erewrite bind_run_ok by exact R2. erewrite bind_run_ok by reflexivity.
  set (s3 := set_output_data_at _ s2).
  pose proof (records_bind _ _ (records_execution (height bsod) (mkDirected a1 a2) e1)
    (records_bind _ _ (records_execution (height bsod) (mkDirected a2 a1) e2)
      (records_bind _ _ (records_modify (fun s => set_pending_outputs (<[trading_pair bsod := bsod]> (pending_outputs s)) s) ltac:(done))
        (records_modify (record_event (EventBatchSwap bsod e1 e2)) ltac:(done)))) s3) as (s' & R' & S' & O').
  exists s'. split; [exact R'|]. split.
  - split.
    + rewrite (settles_ambient _ _ _ S'). change (ambient s3) with (ambient s2).
      by rewrite (settles_ambient _ _ _ S2), (settles_ambient _ _ _ S1).
    + rewrite (settles_indexes _ _ _ S'). change (indexes s3) with (indexes s2).
      by rewrite (settles_indexes _ _ _ S2), (settles_indexes _ _ _ S1).
    + rewrite (settles_positions _ _ _ S'). change (positions s3) with (positions s2).
      by rewrite (settles_positions _ _ _ S2), (settles_positions _ _ _ S1).
    + intros c. rewrite (settles_balance _ _ _ S'). change (Vcb.balance c s3) with (Vcb.balance c s2).
      rewrite (settles_balance _ _ _ S2), (settles_balance _ _ _ S1). lia.
  - rewrite O'. cbn. by rewrite lookup_insert_eq.
Qed.

(** ** Batches *)

(** What the swappers of a batch have paid in is held on top of the positions. *)
Definition funded (s : DexState) (tp : TradingPair) (d1 d2 : Z) : Prop :=
  forall c, Typed.carries (mkValue d1 (asset_1 tp)) c + Typed.carries (mkValue d2 (asset_2 tp)) c
    <= surplus c s.

Definition moderate_ledger (s : DexState) (tp : TradingPair) : Prop :=
  forall c, held c (positions s) + Typed.carries (mkValue MAX_RESERVE_AMOUNT (asset_1 tp)) c
    + Typed.carries (mkValue MAX_RESERVE_AMOUNT (asset_2 tp)) c <= ledger_cap.

(** The prefix of a state commitment fits: 16 bits of epoch, 16 of block. *)
Definition epoch_fits (s : DexState) (h : Z) : Prop :=
  exists e, current_epoch s = Some e /\ index e < 2 ^ 16
    /\ start_height e <= h < start_height e + 2 ^ 16.

Lemma outcome_of_spec delta x a y b ts :
  0 <= x <= delta ->
  RouteAndFill.outcome_of delta (Some (mkSwapExecution ts (mkValue x a) (mkValue y b))) = Ok (y, delta - x).
Proof. intros Hx. unfold RouteAndFill.outcome_of. cbn. by rewrite plain_sub_run by lia. Qed.

(** A direction of a batch, as the settlement sees it. *)
Definition direction (e : option SwapExecution) (a b : asset_id) (x y : Z) : Prop :=
  (e = None /\ x = 0 /\ y = 0) \/ exists ts, e = Some (mkSwapExecution ts (mkValue x a) (mkValue y b)).

Lemma direction_outcome e a b x y delta :
  direction e a b x y -> 0 <= x <= delta -> RouteAndFill.outcome_of delta e = Ok (y, delta - x).
Proof.
  intros [(-> & -> & ->)|[ts ->]] Hx; [by rewrite Z.sub_0_r|by apply outcome_of_spec].
Qed.

Lemma direction_records e a b x y :
  direction e a b x y -> is_u128 x -> is_u128 y ->
  records (match e with Some e => Chandelier.record_swap_execution e | None => ret tt end).
Proof. intros [(-> & _)|[ts ->]] Hx Hy; [apply records_ret|by apply records_swap_execution]. Qed.

(** The two directions of a batch, one after the other. *)
Record exchanged (s s2 : DexState) (tp : TradingPair) (d1 d2 x1 y1 x2 y2 : Z) : Prop := {
  exchanged_in : 0 <= x1 <= d1 /\ 0 <= x2 <= d2;
  exchanged_out : 0 <= y1 <= ledger_cap /\ 0 <= y2 <= ledger_cap;
  exchanged_consistent : consistent s2;
  exchanged_outside : outside s2 = outside s;
  exchanged_evolved : evolved s s2;
  exchanged_held : forall c, held c (positions s2) = held c (positions s)
    + Typed.carries (mkValue x1 (asset_1 tp)) c - Typed.carries (mkValue y1 (asset_2 tp)) c
    + Typed.carries (mkValue x2 (asset_2 tp)) c - Typed.carries (mkValue y2 (asset_1 tp)) c;
}.

(** What leaves is covered, and what is left over is what the swappers have not paid in. *)
Lemma exchanged_covered s s2 tp d1 d2 x1 y1 x2 y2 c :
  exchanged s s2 tp d1 d2 x1 y1 x2 y2 -> funded s tp d1 d2 ->
  Vcb.balance c s2 - held c (positions s2) - batch_out tp (d1 - x1 + y2) (d2 - x2 + y1) c
    = surplus c s - batch_out tp d1 d2 c
  /\ batch_out tp (d1 - x1 + y2) (d2 - x2 + y1) c <= Vcb.balance c s2.
Proof.
  intros [_ _ Hc Ho _ Hh] Hf. specialize (Hh c). specialize (Hf c). pose proof (held_nonneg s2 c Hc).
  rewrite (balance_outside c s s2 Ho). unfold surplus, batch_out in *. rewrite !carries_amount in *.
  repeat case_decide; lia.
Qed.

Lemma traded_out_bound s0 s' x a y b m :
  affordable s0 a m -> x <= m -> 0 <= x ->
  traded s0 s' (mkValue x a) (mkValue y b) -> y <= ledger_cap.
Proof.
  intros Haff Hx H0 Ht. pose proof (traded_held _ _ _ _ Ht b) as Hb.
  pose proof (held_nonneg s' b (traded_consistent _ _ _ _ Ht)). specialize (Haff b).
  pose proof (carries_le x m a b ltac:(lia)). rewrite (carries_amount y), decide_True in Hb by done. lia.
Qed.

Lemma exchange_spec s tp d1 d2 params k :
  consistent s -> is_Some (current_epoch s) -> moderate_ledger s tp -> 0 <= d1 -> 0 <= d2 -> breaker_ok k ->
  let run : dex (option SwapExecution * option SwapExecution) :=
    e1 <- RouteAndFill.route_and_fill (asset_1 tp) (asset_2 tp) (Z.min d1 MAX_RESERVE_AMOUNT) params k;;
    e2 <- RouteAndFill.route_and_fill (asset_2 tp) (asset_1 tp) (Z.min d2 MAX_RESERVE_AMOUNT) params k;;
    ret (e1, e2) in
  exists e1 e2 s2 x1 y1 x2 y2, run s = (Ok (e1, e2), s2)
       /\ direction e1 (asset_1 tp) (asset_2 tp) x1 y1 /\ direction e2 (asset_2 tp) (asset_1 tp) x2 y2
       /\ exchanged s s2 tp d1 d2 x1 y1 x2 y2.
Proof.
  intros Hc Hep Hm P1 P2 Hk run. set (m1 := Z.min d1 MAX_RESERVE_AMOUNT). set (m2 := Z.min d2 MAX_RESERVE_AMOUNT).
  assert (HM : 0 <= MAX_RESERVE_AMOUNT) by by_computation.
  assert (Haff1 : affordable s (asset_1 tp) m1).
  { intros c. specialize (Hm c). pose proof (carries_le m1 MAX_RESERVE_AMOUNT (asset_1 tp) c ltac:(lia)).
    pose proof (carries_le 0 MAX_RESERVE_AMOUNT (asset_2 tp) c ltac:(lia)). lia. }
  destruct (route_and_fill_spec s (asset_1 tp) (asset_2 tp) m1 params Hc Hep ltac:(lia) Haff1 k Hk)
    as (x1 & y1 & s1 & Hx1 & Hy1 & Ht1 & Hr1).
  pose proof (traded_out_bound _ _ _ _ _ _ _ Haff1 (proj2 Hx1) (proj1 Hx1) Ht1) as Hcap1.
  assert (exists e1, direction e1 (asset_1 tp) (asset_2 tp) x1 y1
      /\ RouteAndFill.route_and_fill (asset_1 tp) (asset_2 tp) m1 params k s = (Ok e1, s1)) as (e1 & D1 & R1).
  { destruct Hr1 as [(Hr1 & -> & ->)|(ts & _ & Hr1)].
    - exists None. split; [by left|done].
    - eexists. split; [by right; exists ts|done]. }
  pose proof Ht1 as [C1 O1 E1 H1].
  assert (Haff2 : affordable s1 (asset_2 tp) m2).
  { intros c. rewrite H1. specialize (Hm c). pose proof (carries_le x1 MAX_RESERVE_AMOUNT (asset_1 tp) c ltac:(lia)).
    pose proof (carries_le m2 MAX_RESERVE_AMOUNT (asset_2 tp) c ltac:(lia)).
    pose proof (carries_le 0 y1 (asset_2 tp) c ltac:(lia)). lia. }
  assert (Hep1 : is_Some (current_epoch s1)) by (by rewrite (f_equal current_epoch O1 : current_epoch s1 = _)).
  destruct (route_and_fill_spec s1 (asset_2 tp) (asset_1 tp) m2 params C1 Hep1 ltac:(lia) Haff2 k Hk)
    as (x2 & y2 & s2 & Hx2 & Hy2 & Ht2 & Hr2).
  pose proof (traded_out_bound _ _ _ _ _ _ _ Haff2 (proj2 Hx2) (proj1 Hx2) Ht2) as Hcap2.
  pose proof Ht2 as [C2 O2 E2 H2].
  assert (Hex : exchanged s s2 tp d1 d2 x1 y1 x2 y2).
  { split; [lia|lia|done|congruence|by eapply evolved_trans|]. intros c. rewrite H2, H1. lia. }
  unfold run. rewrite (bind_run_ok _ _ _ _ _ R1).
  destruct Hr2 as [(Hr2 & -> & ->)|(ts & _ & Hr2)].
  - exists e1, None, s2, x1, y1, 0, 0. split_and!; [by rewrite (bind_run_ok _ _ _ _ _ Hr2)|done|by left|done].
  - eexists e1, _, s2, x1, y1, x2, y2.
    split_and!; [by rewrite (bind_run_ok _ _ _ _ _ Hr2)|done|by right; exists ts|done].
Qed.

Lemma exchange_total s tp d1 d2 params k : forall B (f : option SwapExecution -> option SwapExecution -> dex B),
  (e1 <- RouteAndFill.route_and_fill (asset_1 tp) (asset_2 tp) (Z.min d1 MAX_RESERVE_AMOUNT) params k;;
   e2 <- RouteAndFill.route_and_fill (asset_2 tp) (asset_1 tp) (Z.min d2 MAX_RESERVE_AMOUNT) params k;;
   f e1 e2) s
  = ('(e1, e2) <-
       (e1 <- RouteAndFill.route_and_fill (asset_1 tp) (asset_2 tp) (Z.min d1 MAX_RESERVE_AMOUNT) params k;;
        e2 <- RouteAndFill.route_and_fill (asset_2 tp) (asset_1 tp) (Z.min d2 MAX_RESERVE_AMOUNT) params k;;
        ret (e1, e2));; f e1 e2) s.
Proof.
  intros B f. unfold bind at 1 3 4. destruct (RouteAndFill.route_and_fill (asset_1 tp) _ _ _ _ s) as [[] ?]; try done.
  unfold bind. by destruct (RouteAndFill.route_and_fill (asset_2 tp) _ _ _ _ _) as [[] ?].
Qed.

(** What a batch leaves behind. *)
Record settled_batch (s s' : DexState) (tp : TradingPair) (d1 d2 h : Z) (bsod : BatchSwapOutputData) : Prop := {
  batch_consistent : consistent s';
  batch_balances : Vcb.balances_typed s';
  batch_surplus : forall c, surplus c s' = surplus c s - batch_out tp d1 d2 c;
  batch_key : delta_1 bsod = d1 /\ delta_2 bsod = d2 /\ height bsod = h /\ trading_pair bsod = tp;
  batch_unfilled : 0 <= unfilled_1 bsod <= d1 /\ 0 <= unfilled_2 bsod <= d2;
  batch_lambda : 0 <= lambda_1 bsod <= ledger_cap /\ 0 <= lambda_2 bsod <= ledger_cap;
  batch_ambient : ambient s' = ambient s;
  batch_evolved : evolved s s';
  batch_paid : forall c, Vcb.balance c s'
    = Vcb.balance c s - batch_out tp (unfilled_1 bsod + lambda_1 bsod) (unfilled_2 bsod + lambda_2 bsod) c;
  batch_held : forall c, held c (positions s')
    = held c (positions s) + batch_out tp (d1 - unfilled_1 bsod) (d2 - unfilled_2 bsod) c
      - batch_out tp (lambda_1 bsod) (lambda_2 bsod) c;
  batch_published : output_data_at s' !! (h, tp) = Some bsod;
}.

Lemma settle_batch s s2 tp d1 d2 x1 y1 x2 y2 h e1 e2 bsod :
  Vcb.balances_typed s -> is_u128 d1 -> is_u128 d2 -> funded s tp d1 d2 ->
  exchanged s s2 tp d1 d2 x1 y1 x2 y2 ->
  direction e1 (asset_1 tp) (asset_2 tp) x1 y1 -> direction e2 (asset_2 tp) (asset_1 tp) x2 y2 ->
  delta_1 bsod = d1 -> delta_2 bsod = d2 -> lambda_1 bsod = y2 -> lambda_2 bsod = y1 ->
  unfilled_1 bsod = d1 - x1 -> unfilled_2 bsod = d2 - x2 -> height bsod = h -> trading_pair bsod = tp ->
  exists s',
    (match e1 with Some e => Chandelier.record_swap_execution e | None => ret tt end;;;
     match e2 with Some e => Chandelier.record_swap_execution e | None => ret tt end;;;
     DexWrite.set_output_data bsod e1 e2) s2 = (Ok tt, s')
    /\ settled_batch s s' tp d1 d2 h bsod.
Proof.
  intros Hty T1 T2 Hf Hex D1 D2 E1 E2 L1 L2 U1 U2 Hh Ht. pose proof Hex as [[Hx1 Hx2] [Hy1 Hy2] C2 O2 V2 H2].
  pose proof (fun c => exchanged_covered _ _ _ _ _ _ _ _ _ c Hex Hf) as Hcov.
  assert (Hcap : ledger_cap < 2 ^ 128) by by_computation. unfold in_width in T1, T2.
  destruct (records_bind _ _ (direction_records _ _ _ _ _ D1 ltac:(unfold in_width; lia) ltac:(unfold in_width; lia))
    (direction_records _ _ _ _ _ D2 ltac:(unfold in_width; lia) ltac:(unfold in_width; lia)) s2) as (s4 & R4 & S4 & _).
  apply bind_ok in R4 as ([] & s3 & R3 & R4).
  assert (Hbal : forall c, Vcb.balance c s4 = Vcb.balance c s2) by (intros c; rewrite (settles_balance _ _ _ S4); lia).
  assert (Hwidth : forall c, Vcb.balance c s2 < 2 ^ 128) by (intros c; rewrite (balance_outside c s s2 O2); apply Hty).
  assert (Ho : d1 - x1 + y2 < 2 ^ 128 /\ d2 - x2 + y1 < 2 ^ 128).
  { pose proof (Hcov (asset_1 tp)) as [_ B1]. pose proof (Hcov (asset_2 tp)) as [_ B2].
    pose proof (Hwidth (asset_1 tp)). pose proof (Hwidth (asset_2 tp)). unfold batch_out in B1, B2.
    rewrite !carries_amount in B1, B2. rewrite (decide_True (P := asset_1 tp = asset_1 tp)) in B1 by done.
    rewrite (decide_True (P := asset_2 tp = asset_2 tp)) in B2 by done.
    repeat case_decide; lia. }
  destruct (set_output_data_spec bsod e1 e2 s4) as (s' & R' & S' & P'); rewrite ?Ht, ?L1, ?L2, ?U1, ?U2; try lia.
  - intros c. rewrite Hbal. apply Hcov.
  - exists s'. rewrite Ht, Hh in P'. split; [by rewrite (bind_run_ok _ _ _ _ _ R3), (bind_run_ok _ _ _ _ _ R4)|].
    assert (Hbal' : forall c, Vcb.balance c s' = Vcb.balance c s2 - batch_out tp (d1 - x1 + y2) (d2 - x2 + y1) c).
    { intros c. rewrite (settles_balance _ _ _ S'), Hbal, Ht, L1, L2, U1, U2. done. }
    assert (Hpos : positions s' = positions s2) by (by rewrite (settles_positions _ _ _ S'), (settles_positions _ _ _ S4)).
    split; rewrite ?E1, ?E2, ?L1, ?L2, ?U1, ?U2; try done; try lia.
    + eapply consistent_frame; [|exact C2]. by rewrite (settles_indexes _ _ _ S'), (settles_indexes _ _ _ S4).
    + intros c. specialize (Hcov c) as [_ Hle]. specialize (Hwidth c). rewrite Hbal'. unfold in_width.
      enough (0 <= batch_out tp (d1 - x1 + y2) (d2 - x2 + y1) c) by lia.
      unfold batch_out. rewrite !carries_amount. repeat case_decide; lia.
    + intros c. specialize (Hcov c) as [He _]. unfold surplus at 1. rewrite Hbal', Hpos. lia.
    + rewrite (settles_ambient _ _ _ S'), (settles_ambient _ _ _ S4). by apply outside_ambient.
    + intros i. specialize (V2 i). by rewrite Hpos.
    + intros c. by rewrite Hbal', (balance_outside c s s2 O2).
    + intros c. rewrite Hpos, H2. unfold batch_out. rewrite !carries_amount. repeat case_decide; lia.
Qed.

Lemma batch_total s s' tp d1 d2 h bsod c :
  settled_batch s s' tp d1 d2 h bsod -> Vcb.balance c s' <= Vcb.balance c s.
Proof.
  intros Hb. rewrite (batch_paid _ _ _ _ _ _ _ Hb). pose proof (batch_unfilled _ _ _ _ _ _ _ Hb).
  pose proof (batch_lambda _ _ _ _ _ _ _ Hb).
  pose proof (batch_out_nonneg tp (unfilled_1 bsod + lambda_1 bsod) (unfilled_2 bsod + lambda_2 bsod) c). lia.
Qed.

Lemma handle_batch_swaps_spec s tp d1 d2 h params budget :
  consistent s -> Vcb.balances_typed s -> is_u128 d1 -> is_u128 d2 -> funded s tp d1 d2 ->
  moderate_ledger s tp -> epoch_fits s h -> is_u32 budget ->
  exists bsod s', RouteAndFill.handle_batch_swaps tp (d1, d2) h params budget s = (Ok bsod, s')
       /\ settled_batch s s' tp d1 d2 h bsod.
Proof.
  intros Hc Hty P1 P2 Hf Hm (ep & Hep & Hi & Hst) Hb.
  assert (Hk : breaker_ok (ExecutionCircuitBreaker.new budget)) by (split; cbn; [lia|done]).
  unfold RouteAndFill.handle_batch_swaps. cbv zeta. rewrite exchange_total.
  destruct (exchange_spec s tp d1 d2 params _ Hc (mk_is_Some _ _ Hep) Hm (proj1 P1) (proj1 P2) Hk)
    as (e1 & e2 & s2 & x1 & y1 & x2 & y2 & Hr & D1 & D2 & Hex).
  rewrite (bind_run_ok _ _ _ _ _ Hr). pose proof Hex as [[Hx1 Hx2] [Hy1 Hy2] C2 O2 V2 H2].
  pose proof (fun c => exchanged_covered _ _ _ _ _ _ _ _ _ c Hex Hf) as Hcov.
  rewrite (direction_outcome _ _ _ _ _ _ D1 Hx1), bind_lift_ok.
  rewrite (direction_outcome _ _ _ _ _ _ D2 Hx2), bind_lift_ok.
  assert (Hge : DexRead.get_current_epoch s2 = (Ok ep, s2)).
  { unfold DexRead.get_current_epoch. rewrite bind_gets.
    by rewrite (f_equal current_epoch O2 : current_epoch s2 = current_epoch s), Hep. }
  rewrite (bind_run_ok _ _ _ _ _ Hge).
  unfold RouteAndFill.into_u16 at 1. destruct (Z.ltb_spec (index ep) (2 ^ 16)); [|lia]. rewrite bind_lift_ok.
  rewrite plain_sub_run, bind_lift_ok by lia.
  unfold RouteAndFill.into_u16. destruct (Z.ltb_spec (h - start_height ep) (2 ^ 16)); [|lia].
  rewrite bind_lift_ok. set (bsod := mkBsod _ _ _ _ _ _ _ _ _).
  destruct (settle_batch s s2 tp d1 d2 x1 y1 x2 y2 h e1 e2 bsod Hty P1 P2 Hf Hex D1 D2) as (s' & Hrun & Hs');
    [done..|]. exists bsod, s'. split; [|done].
  apply bind_ok. exists tt.
  apply bind_ok in Hrun as ([] & s3 & R3 & Hrun). exists s3. split; [exact R3|].
  apply bind_ok. apply bind_ok in Hrun as ([] & s4 & R4 & Hrun). exists tt, s4. split; [exact R4|].
  by erewrite bind_run_ok by exact Hrun.
Qed.

(** ** Arbitrage *)

Lemma arb_profit_spec a x y ts :
  0 <= x <= RouteAndFill.flash_loan -> 0 <= y <= ledger_cap ->
  RouteAndFill.arb_profit (mkSwapExecution ts (mkValue x a) (mkValue y a))
    = Ok (if decide (x < y) then Some (y - x) else None).
Proof.
  intros Hx Hy. unfold RouteAndFill.arb_profit. cbn [input output amount].
  assert (HL : 0 <= RouteAndFill.flash_loan < 2 ^ 64) by (split; by_computation).
  assert (HC : ledger_cap + 2 ^ 64 < 2 ^ 128) by by_computation.
  unfold checked_sub at 1. destruct (Z.leb_spec x RouteAndFill.flash_loan); [|lia].
  cbn [expect_some outcome_bind]. rewrite plain_add_run by lia. cbn [outcome_bind].
  unfold checked_sub. destruct (Z.leb_spec RouteAndFill.flash_loan (y + (RouteAndFill.flash_loan - x)));
    [|rewrite decide_False by lia; done].
  replace (y + (RouteAndFill.flash_loan - x) - RouteAndFill.flash_loan) with (y - x) by lia.
  destruct (Z.eqb_spec (y - x) 0); [rewrite decide_False by lia|rewrite decide_True by lia]; done.
Qed.

(** What an arbitrage that is kept leaves behind. *)
Record arbitraged (s s' : DexState) (a : asset_id) (profit : Z) : Prop := {
  arbitraged_profit : 0 < profit;
  arbitraged_consistent : consistent s';
  arbitraged_balances : Vcb.balances_typed s';
  arbitraged_held : forall c, held c (positions s') = held c (positions s) - Typed.carries (mkValue profit a) c;
  arbitraged_surplus : forall c, surplus c s' = surplus c s;
  arbitraged_ambient : ambient s' = ambient s;
  arbitraged_evolved : evolved s s';
  arbitraged_recorded : exists e, arb_execution_at s' !! block_height s = Some e
    /\ amount (output e) = amount (input e) + profit;
}.

Lemma arbitrage_spec a params p s :
  consistent s -> solvent s -> is_Some (current_epoch s) -> affordable s a RouteAndFill.flash_loan ->
  dex_params s = Some p -> is_u32 (max_execution_budget p) ->
  RouteAndFill.arbitrage a params s = (Ok None, s)
  \/ exists profit s', RouteAndFill.arbitrage a params s = (Ok (Some (mkValue profit a)), s')
       /\ arbitraged s s' a profit.
Proof.
  intros Hc [Hty Hsol] Hep Haff Hp Hb.
  assert (Hk : breaker_ok (ExecutionCircuitBreaker.new (max_execution_budget p))) by (split; cbn; [lia|done]).
  destruct (route_and_fill_spec s a a RouteAndFill.flash_loan params Hc Hep ltac:(by_computation) Haff _ Hk)
    as (x & y & s1 & Hx & Hy & Ht & Hr).
  pose proof (traded_out_bound _ _ _ _ _ _ _ Haff (proj2 Hx) (proj1 Hx) Ht) as Hcap.
  unfold RouteAndFill.arbitrage. cbv zeta.
  assert (Hparams : DexRead.get_dex_params s = (Ok p, s)) by (unfold DexRead.get_dex_params; by rewrite bind_gets, Hp).
  rewrite (bind_run_ok _ _ _ _ _ Hparams).
  destruct Hr as [(Hr & _ & _)|(ts & _ & Hr)].
  - left. by rewrite (bind_run_ok _ _ _ _ _ Hr).
  - rewrite (bind_run_ok _ _ _ _ _ Hr), arb_profit_spec, bind_lift_ok by (split; lia || apply Hx).
    case_decide as Hlt; [right|by left]. cbn [fmap option_fmap option_map ret input amount DexState.traces].
    pose proof Ht as [C1 O1 V1 H1]. pose proof (held_nonneg s1 a C1) as Hn.
    assert (Hbal : forall c, Vcb.balance c s1 = Vcb.balance c s) by (intros c; by apply balance_outside).
    assert (Hcov : y - x <= Vcb.balance a s).
    { specialize (Hsol a). unfold surplus in Hsol. rewrite H1, !carries_amount, !decide_True in Hn by done. lia. }
    assert (HC : ledger_cap < 2 ^ 128) by by_computation.
    rewrite bind_gets. rewrite plain_add_run, bind_lift_ok by lia. erewrite bind_run_ok by reflexivity.
    set (s2 := set_arb_execution_at _ s1).
    destruct (debit_settles (mkValue (y - x) a) s2) as (s3 & R3 & S3 & A3).
    { cbn [amount value_asset]. change (Vcb.balance a s2) with (Vcb.balance a s1). by rewrite Hbal. }
    rewrite (bind_run_ok _ _ _ _ _ R3). erewrite bind_run_ok by reflexivity.
    eexists _, _. split; [done|].
    assert (Hb3 : forall c, Vcb.balance c s3 = Vcb.balance c s - Typed.carries (mkValue (y - x) a) c).
    { intros c. rewrite (settles_balance _ _ _ S3). change (Vcb.balance c s2) with (Vcb.balance c s1). by rewrite Hbal. }
    assert (Hh3 : forall c, held c (positions s3) = held c (positions s) - Typed.carries (mkValue (y - x) a) c).
    { intros c. rewrite (settles_positions _ _ _ S3). change (positions s2) with (positions s1). rewrite H1, !carries_amount.
      repeat case_decide; lia. }
    match goal with |- arbitraged _ ?s' _ _ => set (s4 := s') end.
    split.
    + lia.
    + apply (consistent_frame s1); [exact (settles_indexes _ _ _ S3)|done].
    + intros c. change (Vcb.balance c s4) with (Vcb.balance c s3). rewrite Hb3, carries_amount.
      specialize (Hty c). unfold in_width in *. case_decide; subst; lia.
    + exact Hh3.
    + intros c. unfold surplus. change (Vcb.balance c s4) with (Vcb.balance c s3).
      change (positions s4) with (positions s3). rewrite Hb3, Hh3. lia.
    + transitivity (ambient s1); [exact (settles_ambient _ _ _ S3)|by apply outside_ambient].
    + intros i. specialize (V1 i). change (positions s4) with (positions s3). by rewrite (settles_positions _ _ _ S3).
    + eexists. change (arb_execution_at s4) with (arb_execution_at s3). rewrite A3. unfold s2. cbn [arb_execution_at set_arb_execution_at].
      rewrite (f_equal block_height O1 : block_height s1 = block_height s), lookup_insert_eq.
      split; [done|]. cbn. lia.
Qed.
End Settlement.
