(* ===== verification/Fee.v ===== *)
(** * Fees

    Models crates/core/component/fee: gas prices and tiers (gas.rs, fee.rs, params.rs), the
    accumulator of the block's fees (component/view.rs), [pay_fee] (component/fee_pay.rs) and the
    end of the block (component.rs).  The identifier of the staking token is a constant computed by
    hashing its denomination; it is the parameter [STAKING_TOKEN_ASSET_ID]. *)

From S2P Require Import Prelude.
From S2P Require Import Num.
From S2P Require Import Asset.
From S2P Require Import TradingFunction.

Class StakingToken := { STAKING_TOKEN_ASSET_ID : asset_id }.

(** ** Gas *)

Record Gas := mkGas {
  block_space : Z;
  compact_block_space : Z;
  verification : Z;
  execution : Z;
}.

Module GasOps.
Definition zero : Gas := mkGas 0 0 0 0.

Definition add {E} (self rhs : Gas) : outcome E Gas :=
  let! a := plain_add 64 (block_space self) (block_space rhs) in
  let! b := plain_add 64 (compact_block_space self) (compact_block_space rhs) in
  let! c := plain_add 64 (verification self) (verification rhs) in
  let! d := plain_add 64 (execution self) (execution rhs) in
  Ok (mkGas a b c d).

Definition sum {E} (l : list Gas) : outcome E Gas :=
  fold_left (fun acc x => let! a := acc in add a x) l (Ok zero).
End GasOps.

Record GasPrices := mkGasPrices {
  gas_asset_id : asset_id;
  block_space_price : Z;
  compact_block_space_price : Z;
  verification_price : Z;
  execution_price : Z;
}.

Record FeeParameters := mkFeeParameters {
  fixed_gas_prices : GasPrices;
  fixed_alt_gas_prices : list GasPrices;
}.

(** ** Fees *)

(** [pub struct Fee(pub Value)]. *)
Definition Fee : Type := Value.

Inductive FeeTier := Low | Medium | High.

Module FeeOps.
Definition FEE_TIER_LOW_MULTIPLIER : Z := 105.
Definition FEE_TIER_MEDIUM_MULTIPLIER : Z := 130.
Definition FEE_TIER_HIGH_MULTIPLIER : Z := 200.

Definition multiplier (t : FeeTier) : Z :=
  match t with
  | Low => FEE_TIER_LOW_MULTIPLIER
  | Medium => FEE_TIER_MEDIUM_MULTIPLIER
  | High => FEE_TIER_HIGH_MULTIPLIER
  end.

Definition apply_tier {E} (self : Fee) (t : FeeTier) : outcome E Fee :=
  let! scaled := plain_mul 128 (amount self) (multiplier t) in
  Ok (mkValue (scaled / 100) (value_asset self)).

Definition from_staking_token_amount `{StakingToken} (amount : Z) : Fee :=
  mkValue amount STAKING_TOKEN_ASSET_ID.

Definition asset_matches (self other : Fee) : bool := value_asset self =? value_asset other.

(** A fee is value the transaction must provide. *)
Definition balance (self : Fee) : Balance.t := Balance.neg (Balance.from_value self).
End FeeOps.

(** One resource: [(price * gas) / 1_000] in u64. *)
Definition priced {E} (price gas : Z) : outcome E Z :=
  let! x := plain_mul 64 price gas in Ok (x / 1000).

(** [GasPrices::fee] *)
Definition gas_fee {E} (self : GasPrices) (gas : Gas) : outcome E Fee :=
  let! a := priced (block_space_price self) (block_space gas) in
  let! b := priced (compact_block_space_price self) (compact_block_space gas) in
  let! ab := plain_add 64 a b in
  let! c := priced (verification_price self) (verification gas) in
  let! abc := plain_add 64 ab c in
  let! d := priced (execution_price self) (execution gas) in
  let! amount := plain_add 64 abc d in
  Ok (mkValue amount (gas_asset_id self)).

(** ** The component *)

Inductive FeeEvent :=
| EventPaidFee (fee base_fee : Fee) (gas_used : Gas) (tip : Fee)
| EventBlockFees (swapped_fee_total swapped_base_fee_total swapped_tip_total : Fee).

Record FeeState := mkFeeState {
  fee_params : option FeeParameters;
  gas_prices_changed : bool;
  fee_accumulator : gmap asset_id (Z * Z);
  fee_events : list FeeEvent;
}.

Abbreviation fees := (comp FeeState string).

Module FeeComponent.
Section Component.
Context `{StakingToken}.

Definition set_fee_accumulator (v : gmap asset_id (Z * Z)) (s : FeeState) : FeeState :=
  mkFeeState (fee_params s) (gas_prices_changed s) v (fee_events s).

Definition record_fee_event (e : FeeEvent) (s : FeeState) : FeeState :=
  mkFeeState (fee_params s) (gas_prices_changed s) (fee_accumulator s) (fee_events s ++ [e]).

Definition put_fee_params (params : FeeParameters) : fees unit :=
  modify (fun s => mkFeeState (Some params) true (fee_accumulator s) (fee_events s)).

Definition get_fee_params : fees FeeParameters :=
  o <- gets fee_params;; lift (ok_or o "Missing FeeParameters").
Definition get_gas_prices : fees GasPrices := p <- get_fee_params;; ret (fixed_gas_prices p).
Definition get_alt_gas_prices : fees (list GasPrices) :=
  p <- get_fee_params;; ret (fixed_alt_gas_prices p).

Definition take_accumulated_base_fees_and_tips : fees (gmap asset_id (Z * Z)) :=
  old <- gets fee_accumulator;;
  modify (set_fee_accumulator ∅);;;
  ret old.

Definition raw_accumulate_base_fee (base_fee : Fee) : fees unit :=
  old <- gets fee_accumulator;;
  amounts <- lift (match old !! value_asset base_fee with
                   | Some (base, tip) =>
                       let! base := plain_add 128 base (amount base_fee) in Ok (base, tip)
                   | None => Ok (amount base_fee, 0)
                   end);;
  modify (set_fee_accumulator (<[value_asset base_fee := amounts]> old)).

Definition raw_accumulate_tip (tip_fee : Fee) : fees unit :=
  old <- gets fee_accumulator;;
  amounts <- lift (match old !! value_asset tip_fee with
                   | Some (base, tip) =>
                       let! tip := plain_add 128 tip (amount tip_fee) in Ok (base, tip)
                   | None => Ok (0, amount tip_fee)
                   end);;
  modify (set_fee_accumulator (<[value_asset tip_fee := amounts]> old)).

(** The prices a fee is measured by. *)
Definition current_gas_prices (fee : Fee) : fees GasPrices :=
  if value_asset fee =? STAKING_TOKEN_ASSET_ID then expecting get_gas_prices
  else
    alt_gas_prices <- expecting get_alt_gas_prices;;
    lift (ok_or (List.find (fun prices => gas_asset_id prices =? value_asset fee) alt_gas_prices)
      "fee token not recognized by the chain").

Definition pay_fee (gas_used : Gas) (fee : Fee) : fees unit :=
  prices <- current_gas_prices fee;;
  ensure (gas_asset_id prices =? value_asset fee)
    "unexpected mismatch between fee and queried gas prices";;;
  base_fee <- lift (gas_fee prices gas_used);;
  ensure (amount base_fee <=? amount fee)
    "fee must be greater than or equal to the transaction base price";;;
  tip <- lift (plain_sub (amount fee) (amount base_fee));;
  let tip := mkValue tip (value_asset fee) in
  modify (record_fee_event (EventPaidFee fee base_fee gas_used tip));;;
  raw_accumulate_base_fee base_fee;;;
  raw_accumulate_tip tip.

Definition end_block : fees unit :=
  acc <- gets fee_accumulator;;
  let '(swapped_base, swapped_tip) := default (0, 0) (acc !! STAKING_TOKEN_ASSET_ID) in
  swapped_total <- lift (plain_add 128 swapped_base swapped_tip);;
  modify (record_fee_event
    (EventBlockFees (FeeOps.from_staking_token_amount swapped_total)
       (FeeOps.from_staking_token_amount swapped_base)
       (FeeOps.from_staking_token_amount swapped_tip))).
End Component.
End FeeComponent.

(** ** Facts *)

Section Facts.
Context `{StakingToken}.
Import FeeComponent.

(** What the accumulator holds of an asset. *)
Definition accumulated (a : asset_id) (s : FeeState) : Z :=
  from_option (fun '(base, tip) => base + tip) 0 (fee_accumulator s !! a).

Definition accumulated_base (a : asset_id) (s : FeeState) : Z :=
  from_option fst 0 (fee_accumulator s !! a).

(** The base price of the gas, as exact arithmetic. *)
Definition base_price (self : GasPrices) (gas : Gas) : Z :=
  block_space_price self * block_space gas / 1000
  + compact_block_space_price self * compact_block_space gas / 1000
  + verification_price self * verification gas / 1000
  + execution_price self * execution gas / 1000.

Lemma priced_ok {E} x y a : @priced E x y = Ok a -> a = x * y / 1000.
Proof. unfold priced. intros (z & Hz & [= <-])%outcome_bind_ok. by apply plain_mul_ok in Hz as [-> _]. Qed.

Lemma gas_fee_ok {E} p gas fee : @gas_fee E p gas = Ok fee -> fee = mkValue (base_price p gas) (gas_asset_id p).
Proof.
  unfold gas_fee, base_price. intros Hf. inv_outcome.
  repeat match goal with
  | H : priced _ _ = Ok _ |- _ => apply priced_ok in H as ->
  | H : plain_add _ _ _ = Ok _ |- _ => apply plain_add_ok in H as [-> _]
  end. done.
Qed.

Lemma gas_fee_run {E} p gas :
  0 <= block_space_price p * block_space gas -> 0 <= compact_block_space_price p * compact_block_space gas ->
  0 <= verification_price p * verification gas -> 0 <= execution_price p * execution gas ->
  block_space_price p * block_space gas + compact_block_space_price p * compact_block_space gas
  + verification_price p * verification gas + execution_price p * execution gas < 2 ^ 64 ->
  @gas_fee E p gas = Ok (mkValue (base_price p gas) (gas_asset_id p)).
Proof.
  intros Ha Hb Hc Hd Hs.
  assert (Hdiv : forall x, 0 <= x -> 0 <= x / 1000 <= x).
  { intros x Hx. split; [by apply Z.div_pos|apply Z.div_le_upper_bound; lia]. }
  pose proof (Hdiv _ Ha). pose proof (Hdiv _ Hb). pose proof (Hdiv _ Hc). pose proof (Hdiv _ Hd).
  unfold gas_fee, priced.
  repeat first [rewrite plain_mul_run by lia | rewrite plain_add_run by lia | progress cbn [outcome_bind]].
  done.
Qed.

Lemma accumulate_base_ok fee s u s' :
  raw_accumulate_base_fee fee s = (Ok u, s') ->
  fee_params s' = fee_params s
  /\ (forall a, accumulated a s' = accumulated a s + Typed.carries fee a)
  /\ (forall a, accumulated_base a s' = accumulated_base a s + Typed.carries fee a).
Proof.
  unfold raw_accumulate_base_fee. intros Hr. inv_comp. split; [done|].
  unfold accumulated, accumulated_base, Typed.carries. cbn [fee_accumulator set_fee_accumulator].
  split; intros b; rewrite lookup_insert; repeat case_decide; subst; try congruence; try lia;
    (destruct (fee_accumulator s !! value_asset fee) as [[base tip]|]; inv_outcome;
      [match goal with H : plain_add _ _ _ = Ok _ |- _ => apply plain_add_ok in H as [-> _] end|]; cbn; lia).
Qed.

Lemma accumulate_tip_ok fee s u s' :
  raw_accumulate_tip fee s = (Ok u, s') ->
  fee_params s' = fee_params s
  /\ (forall a, accumulated a s' = accumulated a s + Typed.carries fee a)
  /\ (forall a, accumulated_base a s' = accumulated_base a s).
Proof.
  unfold raw_accumulate_tip. intros Hr. inv_comp. split; [done|].
  unfold accumulated, accumulated_base, Typed.carries. cbn [fee_accumulator set_fee_accumulator].
  split; intros b; rewrite lookup_insert; repeat case_decide; subst; try congruence; try lia;
    (destruct (fee_accumulator s !! value_asset fee) as [[base tip]|]; inv_outcome;
      [match goal with H : plain_add _ _ _ = Ok _ |- _ => apply plain_add_ok in H as [-> _] end|]; cbn; lia).
Qed.

(** The prices [pay_fee] measures a fee by, if the chain recognises its token. *)
Definition prices_for (p : FeeParameters) (fee : Fee) : option GasPrices :=
  if value_asset fee =? STAKING_TOKEN_ASSET_ID then Some (fixed_gas_prices p)
  else List.find (fun prices => gas_asset_id prices =? value_asset fee) (fixed_alt_gas_prices p).

(** The products and the sum of [GasPrices::fee] stay in u64. *)
Definition gas_fits (p : GasPrices) (gas : Gas) : Prop :=
  0 <= block_space_price p * block_space gas /\ 0 <= compact_block_space_price p * compact_block_space gas
  /\ 0 <= verification_price p * verification gas /\ 0 <= execution_price p * execution gas
  /\ block_space_price p * block_space gas + compact_block_space_price p * compact_block_space gas
     + verification_price p * verification gas + execution_price p * execution gas < 2 ^ 64.

(** Both columns of an asset have room for another [x]. *)
Definition room (a : asset_id) (x : Z) (s : FeeState) : Prop :=
  let '(base, tip) := default (0, 0) (fee_accumulator s !! a) in
  base + x < 2 ^ 128 /\ tip + x < 2 ^ 128.

Lemma base_price_nonneg p gas : gas_fits p gas -> 0 <= base_price p gas.
Proof.
  intros (Ha & Hb & Hc & Hd & _). unfold base_price.
  pose proof (Z.div_pos _ 1000 Ha ltac:(lia)). pose proof (Z.div_pos _ 1000 Hb ltac:(lia)).
  pose proof (Z.div_pos _ 1000 Hc ltac:(lia)). pose proof (Z.div_pos _ 1000 Hd ltac:(lia)). lia.
Qed.

Lemma current_gas_prices_run p fee s :
  fee_params s = Some p ->
  current_gas_prices fee s
  = (match prices_for p fee with Some g => Ok g | None => Err "fee token not recognized by the chain" end, s).
Proof.
  intros Hp. unfold current_gas_prices, prices_for, get_gas_prices, get_alt_gas_prices, get_fee_params, expecting, bind, gets, lift.
  destruct (value_asset fee =? STAKING_TOKEN_ASSET_ID); rewrite Hp; cbn; [done|].
  by destruct (List.find _ _).
Qed.

Lemma accumulate_base_run fee s :
  room (value_asset fee) (amount fee) s ->
  exists s', raw_accumulate_base_fee fee s = (Ok tt, s') /\ fee_events s' = fee_events s
    /\ fee_params s' = fee_params s
    /\ default (0, 0) (fee_accumulator s' !! value_asset fee)
       = (let '(b, t) := default (0, 0) (fee_accumulator s !! value_asset fee) in (b + amount fee, t)).
Proof.
  unfold room, raw_accumulate_base_fee, bind, gets, lift, modify.
  destruct (fee_accumulator s !! value_asset fee) as [[base tip]|] eqn:Hl; cbn [from_option default].
  - intros [Hb _]. rewrite plain_add_run by done. cbn. eexists. split_and!; try done.
    cbn. by rewrite lookup_insert_eq.
  - intros _. eexists. split_and!; try done. cbn. by rewrite lookup_insert_eq.
Qed.

Lemma accumulate_tip_run fee s :
  room (value_asset fee) (amount fee) s ->
  exists s', raw_accumulate_tip fee s = (Ok tt, s') /\ fee_events s' = fee_events s.
Proof.
  unfold room, raw_accumulate_tip, bind, gets, lift, modify.
  destruct (fee_accumulator s !! value_asset fee) as [[base tip]|] eqn:Hl; cbn [from_option default].
  - intros [_ Ht]. rewrite plain_add_run by done. cbn. by eexists.
  - intros _. by eexists.
Qed.

(** A fee raised by any tier still covers the base price. *)
Lemma apply_tier_covers {E} (fee : Fee) t fee' :
  0 <= amount fee -> @FeeOps.apply_tier E fee t = Ok fee' ->
  value_asset fee' = value_asset fee /\ amount fee <= amount fee'.
Proof.
  unfold FeeOps.apply_tier. intros H0 Ht. inv_outcome.
  match goal with H : plain_mul _ _ _ = Ok _ |- _ => apply plain_mul_ok in H as [-> _] end.
  split; [done|]. cbn [amount]. apply Z.div_le_lower_bound; [lia|].
  destruct t; cbn [FeeOps.multiplier]; unfold FeeOps.FEE_TIER_LOW_MULTIPLIER, FeeOps.FEE_TIER_MEDIUM_MULTIPLIER, FeeOps.FEE_TIER_HIGH_MULTIPLIER; lia.
Qed.

(** Accumulating a base fee and a tip of the same token. *)
Lemma accumulate_both a base tip s :
  0 <= base -> 0 <= tip -> room a (base + tip) s ->
  exists s', (raw_accumulate_base_fee (mkValue base a);;; raw_accumulate_tip (mkValue tip a)) s = (Ok tt, s')
    /\ fee_events s' = fee_events s /\ fee_params s' = fee_params s
    /\ (forall c, accumulated c s' = accumulated c s + Typed.carries (mkValue (base + tip) a) c)
    /\ (forall c, accumulated_base c s' = accumulated_base c s + Typed.carries (mkValue base a) c).
Proof.
  intros Hb Ht Hroom.
  destruct (accumulate_base_run (mkValue base a) s) as (s1 & H1 & He1 & Hp1 & Hm1); cbn [value_asset amount] in *.
  { revert Hroom. unfold room. cbn [value_asset amount]. destruct (default _ _). lia. }
  destruct (accumulate_tip_run (mkValue tip a) s1) as (s2 & H2 & He2); cbn [value_asset amount] in *.
  { revert Hroom. unfold room. rewrite Hm1. cbn [value_asset amount]. clear Hm1. destruct (default _ _). lia. }
  exists s2. rewrite (bind_run_ok _ _ _ _ _ H1).
  destruct (accumulate_base_ok _ _ _ _ H1) as (_ & Ha1 & Hb1).
  destruct (accumulate_tip_ok _ _ _ _ H2) as (Hp2 & Ha2 & Hb2).
  split_and!; [done|congruence|congruence|..]; intros c.
  - rewrite Ha2, Ha1. unfold Typed.carries. cbn [value_asset amount]. case_decide; lia.
  - by rewrite Hb2, Hb1.
Qed.

(** (C22) [pay_fee] charges exactly.  With the fee parameters in place and u64 gas arithmetic that
    fits, it never panics: a token the chain does not recognise, prices quoted in another token, or
    a fee below the base price of the gas are refused and change nothing; any other payment adds
    exactly the fee to what the accumulator holds of its token, the base price of it to the base
    column, and emits the matching event.  A fee obtained from the base price by any tier is
    accepted. *)
Theorem fees_are_charged_exactly p gas fee s :
  fee_params s = Some p ->
  (forall g, prices_for p fee = Some g -> gas_fits g gas) ->
  room (value_asset fee) (amount fee) s ->
  match prices_for p fee with
  | None => pay_fee gas fee s = (Err "fee token not recognized by the chain", s)
  | Some g =>
      if negb (gas_asset_id g =? value_asset fee) then
        pay_fee gas fee s = (Err "unexpected mismatch between fee and queried gas prices", s)
      else if amount fee <? base_price g gas then
        pay_fee gas fee s
        = (Err "fee must be greater than or equal to the transaction base price", s)
      else exists s', pay_fee gas fee s = (Ok tt, s')
        /\ (forall c, accumulated c s' = accumulated c s + Typed.carries fee c)
        /\ (forall c, accumulated_base c s'
              = accumulated_base c s + Typed.carries (mkValue (base_price g gas) (value_asset fee)) c)
        /\ fee_params s' = fee_params s
        /\ fee_events s' = fee_events s ++
             [EventPaidFee fee (mkValue (base_price g gas) (value_asset fee)) gas
                (mkValue (amount fee - base_price g gas) (value_asset fee))]
  end
  /\ forall g t fee' , @gas_fee string g gas = Ok fee -> gas_fits g gas ->
       @FeeOps.apply_tier string fee t = Ok fee' -> base_price g gas <= amount fee'.
Proof.
  intros Hp Hfits Hroom. split.
  2: { intros g t fee' Hg Hf Ht. apply gas_fee_ok in Hg. subst fee.
       by apply apply_tier_covers in Ht as [_ ?]; [|apply base_price_nonneg]. }
  pose proof (current_gas_prices_run p fee s Hp) as Hc. unfold pay_fee.
  destruct (prices_for p fee) as [g|] eqn:Hg; [|by rewrite (bind_run_err _ _ _ _ _ Hc)].
  rewrite (bind_run_ok _ _ _ _ _ Hc). destruct (Hfits g eq_refl) as (Ha & Hb & Hv & Hx & Hsum).
  pose proof (base_price_nonneg _ _ (Hfits g eq_refl)).
  destruct (Z.eqb_spec (gas_asset_id g) (value_asset fee)) as [Hasset|]; cbn [negb]; [|done].
  rewrite bind_ensure_true.
  rewrite (gas_fee_run g gas) by done. rewrite bind_lift_ok. cbn [amount].
  destruct (Z.ltb_spec (amount fee) (base_price g gas)).
  - rewrite (proj2 (Z.leb_gt _ _)) by done. done.
  - rewrite (proj2 (Z.leb_le _ _)) by done.
    rewrite bind_ensure_true.
    rewrite plain_sub_run by done. rewrite bind_lift_ok, Hasset.
    set (s1 := record_fee_event (EventPaidFee fee (mkValue (base_price g gas) (value_asset fee)) gas
                 (mkValue (amount fee - base_price g gas) (value_asset fee))) s).
    rewrite bind_modify. fold s1.
    destruct (accumulate_both (value_asset fee) (base_price g gas) (amount fee - base_price g gas) s1)
      as (s' & Hr & He & Hp' & Hacc & Hbase); [done|lia| |].
    { by replace (base_price g gas + (amount fee - base_price g gas)) with (amount fee) by lia. }
    exists s'. split_and!; [exact Hr| |exact Hbase|exact Hp'|exact He].
    intros c. rewrite Hacc. unfold Typed.carries. cbn [value_asset amount].
    change (accumulated c s1) with (accumulated c s). case_decide; lia.
Qed.
End Facts.

(** *** Witness: a payment in the staking token 1. *)

#[local] Instance fee_token : StakingToken := {| STAKING_TOKEN_ASSET_ID := 1 |}.

Definition sample_fee_state : FeeState :=
  mkFeeState (Some (mkFeeParameters (mkGasPrices 1 8000 1000 0 0) [mkGasPrices 3 80000 10000 0 0])) false ∅ [].
Definition sample_gas : Gas := mkGas 10 2 5 0.

Lemma fees_are_charged_exactly_witness :
  exists s', FeeComponent.pay_fee sample_gas (mkValue 900 3) sample_fee_state = (Ok tt, s')
    /\ (forall c, accumulated c s' = 0 + Typed.carries (mkValue 900 3) c)
    /\ forall c, accumulated_base c s' = 0 + Typed.carries (mkValue 820 3) c.
Proof.
  destruct (fees_are_charged_exactly (mkFeeParameters (mkGasPrices 1 8000 1000 0 0) [mkGasPrices 3 80000 10000 0 0])
    sample_gas (mkValue 900 3) sample_fee_state) as [(s' & Hr & Ha & Hb & _) _].
  - reflexivity.
  - intros g [= <-]. by_computation.
  - by_computation.
  - exists s'. split; [exact Hr|]. split; intros c; [rewrite Ha|rewrite Hb];
      unfold accumulated, accumulated_base; cbn [fee_accumulator sample_fee_state]; by rewrite lookup_empty.
Defined.
