(* ===== verification/EndBlock.v ===== *)
(** * The end of a DEX block

    Models the [Component] of component/dex.rs: [end_block] takes the block's fees, swaps the ones
    paid in other tokens as if their payers had submitted swaps, runs every batch, claims the fees'
    outputs, runs the arbitrage, evicts excess positions and closes the queued ones.  It spans two
    components' states, the DEX's and the fee component's.  The candlesticks that are computed last
    are floating-point summaries for clients and are left out. *)

From S2P Require Import Prelude.
From S2P Require Import Num.
From S2P Require Import Asset.
From S2P Require Import TradingFunction.
From S2P Require Import Position.
From S2P Require Import Vcb.
From S2P Require Import DexState.
From S2P Require Import Indexes.
From S2P Require Import PositionManager.
From S2P Require Import Batch.
From S2P Require Import Path.
From S2P Require Import Router.
From S2P Require Import Fee.

(** ** Two components side by side *)

Record Block := mkBlock { dex_state : DexState; fee_state : FeeState }.

Abbreviation blockwise := (comp Block string).

Definition in_dex {A} (m : dex A) : blockwise A := fun b =>
  let '(r, s) := m (dex_state b) in (r, mkBlock s (fee_state b)).
Definition in_fees {A} (m : fees A) : blockwise A := fun b =>
  let '(r, s) := m (fee_state b) in (r, mkBlock (dex_state b) s).

Module Dex.
Section Dex.
Context `{DexEnv} `{StakingToken}.

(** The pair a fee token is swapped along. *)
Definition fee_pair (fee_asset : asset_id) : TradingPair := Pair.new fee_asset STAKING_TOKEN_ASSET_ID.

(** An amount of the fee token on its side of the pair. *)
Definition fee_side (fee_asset : asset_id) (amount : Z) : Z * Z :=
  if asset_1 (fee_pair fee_asset) =? fee_asset then (amount, 0) else (0, amount).

(** F.0: one chain-submitted swap per fee token. *)
Definition submit_fee_swap (entry : asset_id * (Z * Z)) : dex unit :=
  let '(fee_asset, (base_fee, tip)) := entry in
  if fee_asset =? STAKING_TOKEN_ASSET_ID then ret tt
  else
    total <- lift (plain_add 128 base_fee tip);;
    expecting (DexWrite.accumulate_swap_flow (fee_pair fee_asset) (fee_side fee_asset total)).

Definition flow_le (x y : TradingPair * (Z * Z)) : Prop := PositionManager.pair_le x.1 y.1.
#[global] Instance flow_le_dec x y : Decision (flow_le x y).
Proof. unfold flow_le. apply _. Defined.

(** The flows in the order of their pairs. *)
Definition ordered_flows (flows : gmap TradingPair (Z * Z)) : list (TradingPair * (Z * Z)) :=
  merge_sort flow_le (map_to_list flows).

(** 2: the batches, and the outputs by pair. *)
Fixpoint run_batches (height : Z) (routing_params : RoutingParams) (execution_budget : Z)
  (flows : list (TradingPair * (Z * Z))) (bsods : gmap TradingPair BatchSwapOutputData)
  : dex (gmap TradingPair BatchSwapOutputData) :=
  match flows with
  | [] => ret bsods
  | (tp, swap_flows) :: rest =>
      bsod <- expecting (RouteAndFill.handle_batch_swaps tp swap_flows height
        (DexRead.with_extra_candidates [asset_1 tp; asset_2 tp] routing_params) execution_budget);;
      run_batches height routing_params execution_budget rest (<[tp := bsod]> bsods)
  end.

(** The native side of a claim. *)
Definition native_output (fee_asset : asset_id) (output : Z * Z) : Z :=
  if asset_1 (fee_pair fee_asset) =? fee_asset then output.2 else output.1.

(** F.1: claim the outputs of one fee token's swap. *)
Definition claim_fee_swap (bsods : gmap TradingPair BatchSwapOutputData)
  (entry : asset_id * (Z * Z)) : fees unit :=
  let '(fee_asset, (base_fee, tip)) := entry in
  if fee_asset =? STAKING_TOKEN_ASSET_ID then
    FeeComponent.raw_accumulate_base_fee (FeeOps.from_staking_token_amount base_fee);;;
    FeeComponent.raw_accumulate_tip (FeeOps.from_staking_token_amount tip)
  else
    bsod <- lift (expect_some (bsods !! fee_pair fee_asset));;
    base_output <- lift (BatchOutputs.pro_rata_outputs bsod (fee_side fee_asset base_fee));;
    tip_output <- lift (BatchOutputs.pro_rata_outputs bsod (fee_side fee_asset tip));;
    FeeComponent.raw_accumulate_base_fee
      (FeeOps.from_staking_token_amount (native_output fee_asset base_output));;;
    FeeComponent.raw_accumulate_tip
      (FeeOps.from_staking_token_amount (native_output fee_asset tip_output)).

(** 3: two more hops, the recently accessed assets, and a price of less than one. *)
Definition arb_routing_params (p : RoutingParams) (s : DexState) : RoutingParams :=
  mkRoutingParams (Some (U128x128.from_uint 1))
    (routing_candidates p ++ merge_sort Z.le (elements (recently_accessed_assets s)))
    (routing_max_hops p + 2).

Definition end_block (height : Z) : blockwise unit :=
  base_fees_and_tips <- in_fees FeeComponent.take_accumulated_base_fees_and_tips;;
  for_each (btree_items base_fees_and_tips) (fun e => in_dex (submit_fee_swap e));;;
  routing_params <- in_dex (expecting DexRead.routing_params);;
  params <- in_dex (expecting DexRead.get_dex_params);;
  flows <- in_dex (gets swap_flows);;
  bsods <- in_dex (run_batches height routing_params (max_execution_budget params)
                     (ordered_flows flows) ∅);;
  for_each (btree_items base_fees_and_tips) (fun e => in_fees (claim_fee_swap bsods e));;;
  arb_params <- in_dex (gets (arb_routing_params routing_params));;
  in_dex (ignore_error (RouteAndFill.arbitrage STAKING_TOKEN_ASSET_ID arb_params));;;
  in_dex (ignore_error PositionManager.evict_positions);;;
  in_dex (expecting PositionManager.close_queued_positions).
End Dex.
End Dex.
