(* ===== verification/EndBlockFacts.v ===== *)
(** * Facts about the end of a block

    The phases of [Dex.end_block], one after the other: submitting the fees, running the batches,
    claiming the fees' outputs, arbitrage, eviction and closing. *)

From S2P Require Import Prelude.
From S2P Require Import Num.
From S2P Require Import Asset.
From S2P Require Import TradingFunction.
From S2P Require Import Position.
From S2P Require Import Vcb.
From S2P Require Import DexState.
From S2P Require Import Indexes.
From S2P Require Import IndexFacts.
From S2P Require Import PositionManager.
From S2P Require Import PositionFacts.
From S2P Require Import DexMachine.
From S2P Require Import Batch.
From S2P Require Import Path.
From S2P Require Import Router.
From S2P Require Import RouterFacts.
From S2P Require Import FillFacts.
From S2P Require Import FillRouteFacts.
From S2P Require Import RouteSpec.
From S2P Require Import RoutingFacts.
From S2P Require Import SettlementFacts.
From S2P Require Import Fee.
From S2P Require Import EndBlock.

Lemma ordered_flows_perm flows : Dex.ordered_flows flows ≡ₚ map_to_list flows.
Proof. apply merge_sort_Permutation. Qed.

Section Phases.
Context `{DexEnv} `{StakingToken}.
Context (h : Z) (p : DexParameters).

(** The conditions every phase keeps. *)
Record running (s : DexState) : Prop := {
  running_consistent : consistent s;
  running_balances : Vcb.balances_typed s;
  running_pending : DexMachine.pending_ok (DexMachine.Ending DexMachine.Done) s;
  running_params : dex_params s = Some p;
  running_epoch : epoch_fits s h;
  running_cap : forall c, Vcb.balance c s + 2 * MAX_RESERVE_AMOUNT <= ledger_cap;
}.

Lemma pending_evolved s s' :
  DexMachine.pending_ok (DexMachine.Ending DexMachine.Done) s -> evolved s s' ->
  pending_position_closures s' = pending_position_closures s ->
  DexMachine.pending_ok (DexMachine.Ending DexMachine.Done) s'.
Proof.
  intros Hp He Hq i Hi. rewrite Hq in Hi. destruct (Hp i Hi) as (lp & Hl & Hst). specialize (He i).
  rewrite Hl in He. destruct He as (lp' & Hl' & _ & Hs). exists lp'. split; [done|].
  destruct Hs as [->|(_ & [?|?])]; naive_solver.
Qed.

Lemma running_next s s' :
  running s -> consistent s' -> Vcb.balances_typed s' -> ambient s' = ambient s -> evolved s s' ->
  (forall c, Vcb.balance c s' <= Vcb.balance c s) -> running s'.
Proof.
  intros [_ _ Hp Hpar (e & He & Hf) Hcap] Hc Hb Ha Hev Hle.
  pose proof (f_equal (fun a => a.1.1.1) Ha) as Hq. cbn in Hq. injection Ha as A1 A2 A3 A4 A5 A6 A7.
  split; try done.
  - by eapply pending_evolved.
  - congruence.
  - exists e. split; [congruence|done].
  - intros c. specialize (Hcap c). specialize (Hle c). lia.
Qed.

(** ** The batches *)

(** What a batch of the flow [f] reports. *)
Record reports (tp : TradingPair) (f : Z * Z) (b : BatchSwapOutputData) : Prop := {
  reports_delta : delta_1 b = f.1 /\ delta_2 b = f.2;
  reports_unfilled : 0 <= unfilled_1 b <= f.1 /\ 0 <= unfilled_2 b <= f.2;
  reports_lambda : 0 <= lambda_1 b <= ledger_cap /\ 0 <= lambda_2 b <= ledger_cap;
}.


Lemma solvent_moderate s tp :
  running s -> (forall c, 0 <= surplus c s) -> moderate_ledger s tp.
Proof.
  intros Hr Hs c. pose proof (running_cap s Hr c) as Hcap. specialize (Hs c). unfold surplus in Hs.
  assert (HM : 0 <= MAX_RESERVE_AMOUNT) by by_computation.
  rewrite !carries_amount. repeat case_decide; lia.
Qed.

(** One batch of a flow that the ledger covers. *)
Lemma batch_step params budget tp f s :
  running s -> is_u32 budget -> flow_nonneg f -> (forall c, batch_out tp f.1 f.2 c <= surplus c s) ->
  exists bsod s', RouteAndFill.handle_batch_swaps tp f h
      (DexRead.with_extra_candidates [asset_1 tp; asset_2 tp] params) budget s = (Ok bsod, s')
    /\ settled_batch s s' tp f.1 f.2 h bsod /\ running s' /\ reports tp f bsod.
Proof.
  intros Hr Hbud [P1 P2] Hfund. destruct f as [d1 d2]. cbn [fst snd] in *.
  assert (Hsur : forall c, 0 <= surplus c s).
  { intros c. specialize (Hfund c). pose proof (batch_out_nonneg tp d1 d2 c P1 P2). lia. }
  assert (Hwidth : is_u128 d1 /\ is_u128 d2).
  { pose proof (batch_out_sides tp d1 d2 P1 P2) as [B1 B2].
    pose proof (Hfund (asset_1 tp)) as F1. pose proof (Hfund (asset_2 tp)) as F2.
    pose proof (held_nonneg s (asset_1 tp) (running_consistent s Hr)).
    pose proof (held_nonneg s (asset_2 tp) (running_consistent s Hr)).
    pose proof (running_balances s Hr (asset_1 tp)). pose proof (running_balances s Hr (asset_2 tp)).
    unfold surplus, in_width, batch_out in *. lia. }
  destruct (handle_batch_swaps_spec s tp d1 d2 h
    (DexRead.with_extra_candidates [asset_1 tp; asset_2 tp] params) budget) as (b & s1 & Hrun & Hset);
    [apply Hr|apply Hr|apply Hwidth|apply Hwidth|exact Hfund|by apply solvent_moderate|apply Hr|done|].
  exists b, s1. pose proof Hset as [S1 S2 S3 (K1 & K2 & _ & _) S4 S5 S6 S7 _ _ _].
  split_and!; [done|done| |by split; cbn; rewrite ?K1, ?K2].
  eapply running_next; try done. intros c. by eapply batch_total.
Qed.

Lemma run_batches_spec params budget : is_u32 budget -> forall flows bsods s,
  running s -> Forall (fun e => flow_nonneg e.2) flows ->
  (forall c, owed_list c flows <= surplus c s) ->
  exists bsods' s', Dex.run_batches h params budget flows bsods s = (Ok bsods', s')
    /\ running s' /\ ambient s' = ambient s
    /\ (forall c, surplus c s' = surplus c s - owed_list c flows)
    /\ (forall tp, is_Some (bsods' !! tp) <-> is_Some (bsods !! tp) \/ tp ∈ flows.*1)
    /\ (forall tp b, bsods' !! tp = Some b ->
          bsods !! tp = Some b \/ exists f, (tp, f) ∈ flows /\ reports tp f b).
Proof.
  intros Hbud. induction flows as [|[tp f] flows IH]; intros bsods s Hr Hall Hf; cbn [Dex.run_batches].
  - exists bsods, s. split_and!; [done|done|done| | |by left].
    + intros c. cbn. lia.
    + intros tp. set_solver.
  - apply Forall_cons in Hall as [P Hall]. cbn [fst snd] in P.
    assert (Hcons : forall c, owed_list c ((tp, f) :: flows) = batch_out tp f.1 f.2 c + owed_list c flows) by done.
    destruct (batch_step params budget tp f s Hr Hbud P) as (b & s1 & Hrun & Hset & Hr1 & Hrep1).
    { intros c. specialize (Hf c). rewrite Hcons in Hf. pose proof (owed_list_nonneg c flows Hall). lia. }
    erewrite bind_run_ok by (unfold expecting; rewrite Hrun; reflexivity).
    pose proof (batch_surplus _ _ _ _ _ _ _ Hset) as S3.
    destruct (IH (<[tp := b]> bsods) s1 Hr1 Hall) as (bsods' & s' & R' & Hr' & Ha' & Hs' & Hd' & Hb').
    + intros c. rewrite S3. specialize (Hf c). rewrite Hcons in Hf. lia.
    + exists bsods', s'. split_and!; [done|done| | | |].
      * rewrite Ha'. apply (batch_ambient _ _ _ _ _ _ _ Hset).
      * intros c. rewrite Hs', S3, Hcons. lia.
      * intros tp'. rewrite Hd', lookup_insert_is_Some'. rewrite fmap_cons, elem_of_cons. naive_solver.
      * intros tp' b' Hl. destruct (Hb' tp' b' Hl) as [Hi|(g & Hin & Hrep)].
        -- rewrite lookup_insert in Hi. case_decide as He; [subst tp'; injection Hi as <-|by left].
           right. exists f. split; [set_solver|done].
        -- right. exists g. split; [set_solver|done].
Qed.

(** ** Submitting the fees *)

Lemma credit_total v s :
  0 <= amount v -> Vcb.balance (value_asset v) s + amount v < 2 ^ 128 ->
  exists s', Vcb.dex_vcb_credit v s = (Ok tt, s').
Proof. intros Hv Hb. eexists. apply Vcb.credit_spec. split_and!; [done|by intros _|done]. Qed.

Lemma accumulate_total tp f s :
  Vcb.balances_typed s -> flow_nonneg f ->
  (forall c, Vcb.balance c s + batch_out tp f.1 f.2 c < 2 ^ 128) ->
  (forall g, swap_flows s !! tp = Some g -> g.1 + f.1 < 2 ^ 128 /\ g.2 + f.2 < 2 ^ 128) ->
  exists s', DexWrite.accumulate_swap_flow tp f s = (Ok tt, s')
    /\ swap_flows s' = <[tp := flow_add (swap_flows s !! tp) f]> (swap_flows s)
    /\ dex_params s' = dex_params s /\ current_epoch s' = current_epoch s
    /\ pending_position_closures s' = pending_position_closures s
    /\ indexes s' = indexes s /\ positions s' = positions s /\ Vcb.balances_typed s'
    /\ forall c, Vcb.balance c s' = Vcb.balance c s + batch_out tp f.1 f.2 c.
Proof.
  intros Ht [F1 F2] Hb Hg. unfold DexWrite.accumulate_swap_flow.
  assert (Hsides : forall c, 0 <= Typed.carries (mkValue f.1 (asset_1 tp)) c /\ 0 <= Typed.carries (mkValue f.2 (asset_2 tp)) c).
  { intros c. rewrite !carries_amount. repeat case_decide; lia. }
  assert (Hself : forall x a, Typed.carries (mkValue x a) a = x) by (intros; by rewrite carries_amount, decide_True).
  pose proof (Hb (asset_1 tp)) as B1. pose proof (Hb (asset_2 tp)) as B2. unfold batch_out in B1, B2.
  rewrite Hself in B1, B2. pose proof (Hsides (asset_1 tp)) as [_ N1]. pose proof (Hsides (asset_2 tp)) as [N2 _].
  pose proof (Ht (asset_1 tp)) as [W1 _]. pose proof (Ht (asset_2 tp)) as [W2 _].
  destruct (credit_total (mkValue f.1 (asset_1 tp)) s) as [s1 R1]; [done|cbn [amount value_asset]; lia|].
  rewrite (bind_run_ok _ _ _ _ _ R1).
  destruct (credit_total (mkValue f.2 (asset_2 tp)) s1) as [s2 R2]; [done| |].
  { cbn [amount value_asset]. rewrite (Vcb.credit_balance _ _ _ _ _ R1). lia. }
  rewrite (bind_run_ok _ _ _ _ _ R2), bind_gets.
  pose proof (credits_spec _ _ _ _ _ _ _ R1 R2) as (Hi & Hq & Htb & Hbal); [unfold in_width; cbn [amount]; lia..|done|].
  pose proof (credit_frame _ _ _ _ R1) as (v1 & e1 & E1). pose proof (credit_frame _ _ _ _ R2) as (v2 & e2 & E2).
  assert (Hsf : swap_flows s2 = swap_flows s) by (by rewrite E2, E1).
  rewrite Hsf. exists (set_swap_flows (<[tp := flow_add (swap_flows s !! tp) f]> (swap_flows s)) s2).
  split_and!; try done.
  - destruct (swap_flows s !! tp) as [g|] eqn:Hl; [|by destruct f].
    destruct (Hg g eq_refl). rewrite !plain_add_run by done. cbn [outcome_bind]. rewrite bind_lift_ok. done.
  - by rewrite E2, E1.
  - by rewrite E2, E1.
  - by rewrite E2, E1.
  - intros c. change (Vcb.balance c s2 = Vcb.balance c s + batch_out tp f.1 f.2 c). rewrite Hbal.
    unfold batch_out. lia.
Qed.

Definition fee_list (c : asset_id) (l : list (asset_id * (Z * Z))) : Z :=
  list_sum ((fun e => if decide (e.1 = c) then e.2.1 + e.2.2 else 0) <$> l).

Definition fees_nonneg (l : list (asset_id * (Z * Z))) : Prop := Forall (fun e => flow_nonneg e.2) l.

Lemma fee_list_cons c e l :
  fee_list c (e :: l) = (if decide (e.1 = c) then e.2.1 + e.2.2 else 0) + fee_list c l.
Proof. done. Qed.

Lemma fee_list_nonneg c l : fees_nonneg l -> 0 <= fee_list c l.
Proof.
  intros Hl. apply list_sum_nonneg, Forall_fmap. eapply Forall_impl; [exact Hl|]. intros [a f] [? ?].
  cbn in *. case_decide; lia.
Qed.

Lemma fee_side_out a t c :
  a <> STAKING_TOKEN_ASSET_ID ->
  batch_out (Dex.fee_pair a) (Dex.fee_side a t).1 (Dex.fee_side a t).2 c = if decide (a = c) then t else 0.
Proof.
  intros Ha. unfold batch_out, Dex.fee_side, Dex.fee_pair, Pair.new. rewrite !carries_amount.
  destruct (Z.ltb_spec a STAKING_TOKEN_ASSET_ID); cbn [asset_1 asset_2].
  - rewrite Z.eqb_refl. cbn. repeat case_decide; lia.
  - destruct (Z.eqb_spec STAKING_TOKEN_ASSET_ID a); [congruence|]. cbn. repeat case_decide; lia.
Qed.

Lemma fee_side_nonneg a t : 0 <= t -> flow_nonneg (Dex.fee_side a t).
Proof. unfold Dex.fee_side, flow_nonneg. case_match; cbn; lia. Qed.

(** The flow of a fee's pair includes the fee. *)
Definition includes (flows : gmap TradingPair (Z * Z)) (e : asset_id * (Z * Z)) : Prop :=
  e.1 = STAKING_TOKEN_ASSET_ID \/ exists f, flows !! Dex.fee_pair e.1 = Some f
    /\ (Dex.fee_side e.1 (e.2.1 + e.2.2)).1 <= f.1 /\ (Dex.fee_side e.1 (e.2.1 + e.2.2)).2 <= f.2.

(** The state while the fees are submitted. *)
Record submitting (s0 s : DexState) (todo : list (asset_id * (Z * Z))) : Prop := {
  submitting_consistent : consistent s;
  submitting_balances : Vcb.balances_typed s;
  submitting_same : dex_params s = dex_params s0 /\ current_epoch s = current_epoch s0
    /\ pending_position_closures s = pending_position_closures s0 /\ positions s = positions s0;
  submitting_flows : map_Forall (fun _ => flow_nonneg) (swap_flows s);
  submitting_owed : forall c, owed c (swap_flows s) <= surplus c s;
  submitting_even : forall c, surplus c s - owed c (swap_flows s) = surplus c s0 - owed c (swap_flows s0);
  submitting_cap : forall c, Vcb.balance c s + fee_list c todo + 2 * MAX_RESERVE_AMOUNT <= ledger_cap;
}.

Lemma includes_mono flows flows' e :
  (forall tp f, flows !! tp = Some f -> exists f', flows' !! tp = Some f' /\ f.1 <= f'.1 /\ f.2 <= f'.2) ->
  includes flows e -> includes flows' e.
Proof.
  intros Hm [Hs|(f & Hl & H1 & H2)]; [by left|right]. destruct (Hm _ _ Hl) as (f' & Hl' & ? & ?).
  exists f'. split_and!; [done|lia|lia].
Qed.

Lemma flows_grow (flows : gmap TradingPair (Z * Z)) tp f :
  flow_nonneg f -> forall tp' g, flows !! tp' = Some g ->
  exists g', <[tp := flow_add (flows !! tp) f]> flows !! tp' = Some g' /\ g.1 <= g'.1 /\ g.2 <= g'.2.
Proof.
  intros [F1 F2] tp' g Hg. rewrite lookup_insert. case_decide as He; [subst tp'|exists g; split_and!; [done|lia..]].
  eexists. split; [done|]. rewrite Hg. cbn. lia.
Qed.

Lemma submit_step s0 s a base tip todo :
  submitting s0 s ((a, (base, tip)) :: todo) -> 0 <= base -> 0 <= tip -> fees_nonneg todo ->
  exists s', Dex.submit_fee_swap (a, (base, tip)) s = (Ok tt, s') /\ submitting s0 s' todo
    /\ includes (swap_flows s') (a, (base, tip))
    /\ forall e, includes (swap_flows s) e -> includes (swap_flows s') e.
Proof.
  intros [C B (Sp & Se & Sq & Spos) F O Ev Cap] Hb Ht Hnn. unfold Dex.submit_fee_swap.
  assert (Hcap : forall c, Vcb.balance c s + fee_list c todo + (if decide (a = c) then base + tip else 0)
    + 2 * MAX_RESERVE_AMOUNT <= ledger_cap).
  { intros c. specialize (Cap c). rewrite fee_list_cons in Cap. cbn [fst snd] in Cap. lia. }
  assert (HM : 0 <= MAX_RESERVE_AMOUNT /\ ledger_cap < 2 ^ 127) by (split; by_computation).
  destruct (Z.eqb_spec a STAKING_TOKEN_ASSET_ID) as [Hs|Hs].
  { exists s. split_and!; [done| |by left|done]. split; try done. intros c. specialize (Hcap c).
    case_decide; lia. }
  set (f := Dex.fee_side a (base + tip)).
  assert (Hf : flow_nonneg f) by (apply fee_side_nonneg; lia).
  assert (Hout : forall c, batch_out (Dex.fee_pair a) f.1 f.2 c = if decide (a = c) then base + tip else 0)
    by (intros c; by apply fee_side_out).
  assert (Hbt : forall c, Vcb.balance c s + batch_out (Dex.fee_pair a) f.1 f.2 c <= ledger_cap).
  { intros c. specialize (Hcap c). rewrite Hout. pose proof (fee_list_nonneg c todo Hnn). lia. }
  assert (Hsum : base + tip < 2 ^ 128).
  { specialize (Hbt a). rewrite Hout, decide_True in Hbt by done. pose proof (B a) as [? _]. lia. }
  rewrite plain_add_run, bind_lift_ok by done. fold f.
  destruct (accumulate_total (Dex.fee_pair a) f s B Hf) as (s' & Hr & Hsf & Hp & He & Hq & Hi & Hpos & Hty & Hbal).
  { intros c. specialize (Hbt c). lia. }
  { intros g Hg. pose proof (owed_sides _ _ _ F Hg) as [G1 G2]. pose proof (O (asset_1 (Dex.fee_pair a))) as O1.
    pose proof (O (asset_2 (Dex.fee_pair a))) as O2. unfold surplus in O1, O2.
    pose proof (held_nonneg s (asset_1 (Dex.fee_pair a)) C). pose proof (held_nonneg s (asset_2 (Dex.fee_pair a)) C).
    destruct Hf as [F1 F2]. pose proof (batch_out_sides (Dex.fee_pair a) f.1 f.2 F1 F2) as [S1 S2].
    pose proof (Hbt (asset_1 (Dex.fee_pair a))). pose proof (Hbt (asset_2 (Dex.fee_pair a))). lia. }
  exists s'. split; [by unfold expecting; rewrite Hr|].
  assert (Howed : forall c, owed c (swap_flows s') = owed c (swap_flows s) + batch_out (Dex.fee_pair a) f.1 f.2 c)
    by (intros c; by rewrite Hsf, owed_add).
  assert (Hsur : forall c, surplus c s' = surplus c s + batch_out (Dex.fee_pair a) f.1 f.2 c)
    by (intros c; unfold surplus; rewrite Hbal, Hpos; lia).
  split_and!.
  - split.
    + by eapply consistent_frame.
    + done.
    + split_and!; congruence.
    + rewrite Hsf. by apply nonneg_add.
    + intros c. rewrite Howed, Hsur. specialize (O c). lia.
    + intros c. rewrite Howed, Hsur. specialize (Ev c). lia.
    + intros c. rewrite Hbal, Hout. specialize (Hcap c). lia.
  - right. cbn [fst snd]. fold f. exists (flow_add (swap_flows s !! Dex.fee_pair a) f).
    rewrite Hsf, lookup_insert_eq. split; [done|].
    destruct (swap_flows s !! Dex.fee_pair a) as [g|] eqn:Hg; cbn; [|lia]. destruct (F _ _ Hg). lia.
  - intros e. rewrite Hsf. apply includes_mono. by apply flows_grow.
Qed.

Lemma submit_all s0 todo : forall s,
  submitting s0 s todo -> fees_nonneg todo ->
  exists s', for_each todo Dex.submit_fee_swap s = (Ok tt, s') /\ submitting s0 s' []
    /\ Forall (includes (swap_flows s')) todo
    /\ forall e, includes (swap_flows s) e -> includes (swap_flows s') e.
Proof.
  induction todo as [|[a [base tip]] todo IH]; intros s Hs Hn; cbn [for_each].
  - exists s. split_and!; [done|done|constructor|done].
  - apply Forall_cons in Hn as [[N1 N2] Hn].
    destruct (submit_step s0 s a base tip todo Hs N1 N2 Hn) as (s1 & R1 & H1 & I1 & M1).
    destruct (IH s1 H1 Hn) as (s' & R' & H' & I' & M'). exists s'. split_and!; [|done| |auto].
    + by rewrite (bind_run_ok _ _ _ _ _ R1).
    + constructor; [by apply M'|done].
Qed.

(** ** Claiming the fees *)

(** The accumulator holds native tokens only, at most [n] outputs' worth. *)
Definition native_only (n : Z) (s : FeeState) : Prop :=
  forall a base tip, fee_accumulator s !! a = Some (base, tip) ->
    a = STAKING_TOKEN_ASSET_ID /\ 0 <= base <= n * ledger_cap /\ 0 <= tip <= n * ledger_cap.

Lemma accumulate_native base tip n s :
  native_only n s -> 0 <= n -> 0 <= base <= ledger_cap -> 0 <= tip <= ledger_cap -> (n + 1) * ledger_cap < 2 ^ 128 ->
  exists s', (FeeComponent.raw_accumulate_base_fee (FeeOps.from_staking_token_amount base);;;
      FeeComponent.raw_accumulate_tip (FeeOps.from_staking_token_amount tip)) s = (Ok tt, s')
    /\ native_only (n + 1) s'
    /\ accumulated STAKING_TOKEN_ASSET_ID s' = accumulated STAKING_TOKEN_ASSET_ID s + base + tip.
Proof.
  intros Hn P Hb Ht Hw. unfold FeeComponent.raw_accumulate_base_fee, FeeComponent.raw_accumulate_tip, accumulated.
  cbn [value_asset amount FeeOps.from_staking_token_amount].
  set (k := STAKING_TOKEN_ASSET_ID).
  assert (Hmul : (n + 1) * ledger_cap = n * ledger_cap + ledger_cap /\ 0 <= n * ledger_cap /\ 0 <= ledger_cap)
    by (split_and!; [lia|apply Z.mul_nonneg_nonneg; [done|by_computation]|by_computation]).
  destruct (fee_accumulator s !! k) as [[b0 t0]|] eqn:Hl.
  - destruct (Hn _ _ _ Hl) as (_ & B0 & T0).
    eexists. split.
    { erewrite bind_run_ok; cycle 1.
      { rewrite bind_gets, Hl. rewrite plain_add_run by lia. cbn [outcome_bind]. rewrite bind_lift_ok. reflexivity. }
      rewrite bind_gets. cbn [fee_accumulator FeeComponent.set_fee_accumulator]. rewrite lookup_insert_eq.
      rewrite plain_add_run by lia. cbn [outcome_bind]. rewrite bind_lift_ok. reflexivity. }
    cbn [fee_accumulator FeeComponent.set_fee_accumulator]. rewrite insert_insert_eq. split.
    + intros a b t. cbn [fee_accumulator FeeComponent.set_fee_accumulator]. rewrite lookup_insert.
      case_decide as He; [intros [= <- <-]; split; [done|lia]|]. intros Ha. destruct (Hn _ _ _ Ha) as (? & ? & ?). split; [done|lia].
    + rewrite lookup_insert_eq. cbn. lia.
  - eexists. split.
    { erewrite bind_run_ok; cycle 1.
      { rewrite bind_gets, Hl. rewrite bind_lift_ok. reflexivity. }
      rewrite bind_gets. cbn [fee_accumulator FeeComponent.set_fee_accumulator]. rewrite lookup_insert_eq.
      rewrite plain_add_run by lia. cbn [outcome_bind]. rewrite bind_lift_ok. reflexivity. }
    cbn [fee_accumulator FeeComponent.set_fee_accumulator]. rewrite insert_insert_eq. split.
    + intros a b t. cbn [fee_accumulator FeeComponent.set_fee_accumulator]. rewrite lookup_insert.
      case_decide as He; [intros [= <- <-]; split; [done|lia]|]. intros Ha. destruct (Hn _ _ _ Ha) as (? & ? & ?). split; [done|lia].
    + rewrite lookup_insert_eq. cbn. lia.
Qed.

Lemma share_zero t : BatchOutputs.share 0 t = 0.
Proof. unfold BatchOutputs.share. by case_match. Qed.

(** A weighted output stays below what is shared out. *)
Lemma weighted_le w x : 0 <= w <= U128x128.B -> 0 <= x -> 0 <= w * x / U128x128.B <= x.
Proof.
  intros Hw Hx. pose proof U128x128.B_pos. split; [apply Z.div_pos; nia|].
  apply Z.div_le_upper_bound; nia.
Qed.

Lemma native_output_bounds tp f b a x :
  reports tp f b -> 0 <= x -> (Dex.fee_side a x).1 <= f.1 -> (Dex.fee_side a x).2 <= f.2 ->
  f.1 <= ledger_cap -> f.2 <= ledger_cap ->
  exists o, @BatchOutputs.pro_rata_outputs string b (Dex.fee_side a x) = Ok o
    /\ 0 <= Dex.native_output a o <= ledger_cap.
Proof.
  intros [[D1 D2] [U1 U2] [L1 L2]] Hx H1 H2 F1 F2.
  assert (HC : ledger_cap < 2 ^ 127) by by_computation.
  destruct (fee_side_nonneg a x Hx) as [N1 N2].
  exists (BatchOutputs.outputs b (Dex.fee_side a x)). split.
  - apply BatchOutputs.pro_rata_outputs_eq; try lia. unfold BatchOutputs.typed, in_width. lia.
  - unfold Dex.native_output, BatchOutputs.outputs. cbn [fst snd]. unfold Dex.fee_side in *.
    destruct (asset_1 (Dex.fee_pair a) =? a); cbn [fst snd] in *.
    + rewrite share_zero, Z.mul_0_l, Z.add_0_r.
      pose proof (weighted_le (BatchOutputs.share x (delta_1 b)) (lambda_2 b)
        (BatchOutputs.share_bounds x (delta_1 b) ltac:(lia)) ltac:(lia)). lia.
    + rewrite share_zero, Z.mul_0_l, Z.add_0_l.
      pose proof (weighted_le (BatchOutputs.share x (delta_2 b)) (lambda_1 b)
        (BatchOutputs.share_bounds x (delta_2 b) ltac:(lia)) ltac:(lia)). lia.
Qed.

(** The batches' reports cover every flow. *)
Definition covers (flows : gmap TradingPair (Z * Z)) (bsods : gmap TradingPair BatchSwapOutputData) : Prop :=
  forall tp f, flows !! tp = Some f ->
    f.1 <= ledger_cap /\ f.2 <= ledger_cap /\ exists b, bsods !! tp = Some b /\ reports tp f b.

Lemma claim_step flows bsods a base tip n s :
  covers flows bsods -> includes flows (a, (base, tip)) -> 0 <= base -> 0 <= tip -> base + tip <= ledger_cap ->
  native_only n s -> 0 <= n -> (n + 1) * ledger_cap < 2 ^ 128 ->
  exists s', Dex.claim_fee_swap bsods (a, (base, tip)) s = (Ok tt, s') /\ native_only (n + 1) s'.
Proof.
  intros Hcov Hinc Hb Ht Hsum Hn Hn0 Hw. unfold Dex.claim_fee_swap.
  destruct (Z.eqb_spec a STAKING_TOKEN_ASSET_ID) as [Ha|Ha].
  { destruct (accumulate_native base tip n s Hn Hn0) as (s' & Hr & Hn' & _); [lia..|]. by exists s'. }
  destruct Hinc as [?|(f & Hl & H1 & H2)]; [done|]. cbn [fst snd] in Hl, H1, H2.
  destruct (Hcov _ _ Hl) as (F1 & F2 & b & Hbs & Hrep). rewrite Hbs. cbn [expect_some]. rewrite bind_lift_ok.
  assert (Hside : forall x, x <= base + tip -> (Dex.fee_side a x).1 <= f.1 /\ (Dex.fee_side a x).2 <= f.2).
  { intros x Hx. unfold Dex.fee_side in *. destruct (asset_1 (Dex.fee_pair a) =? a); cbn [fst snd] in *; lia. }
  destruct (native_output_bounds _ f b a base Hrep Hb) as (o1 & O1 & B1); [apply Hside; lia..|done|done|].
  destruct (native_output_bounds _ f b a tip Hrep Ht) as (o2 & O2 & B2); [apply Hside; lia..|done|done|].
  rewrite O1, bind_lift_ok, O2, bind_lift_ok.
  destruct (accumulate_native _ _ n s Hn Hn0 B1 B2 Hw) as (s' & Hr & Hn' & _). by exists s'.
Qed.

Lemma claim_all flows bsods l : forall n s,
  covers flows bsods -> Forall (includes flows) l -> fees_nonneg l ->
  Forall (fun e => e.2.1 + e.2.2 <= ledger_cap) l ->
  native_only n s -> 0 <= n -> (n + Z.of_nat (length l)) * ledger_cap < 2 ^ 128 ->
  exists s', for_each l (Dex.claim_fee_swap bsods) s = (Ok tt, s') /\ native_only (n + Z.of_nat (length l)) s'.
Proof.
  assert (HC : 0 < ledger_cap) by by_computation.
  induction l as [|[a [base tip]] l IH]; intros n s Hcov Hinc Hnn Hle Hn P Hw; cbn [for_each].
  - exists s. split; [done|]. by rewrite Z.add_0_r.
  - apply Forall_cons in Hinc as [I1 Hinc]. apply Forall_cons in Hnn as [[N1 N2] Hnn].
    apply Forall_cons in Hle as [L1 Hle]. cbn [length fst snd] in *.
    destruct (claim_step flows bsods a base tip n s Hcov I1 N1 N2 L1 Hn P) as (s1 & R1 & H1); [nia|].
    destruct (IH (n + 1) s1 Hcov Hinc Hnn Hle H1) as (s' & R' & H'); [lia|by replace (n + 1 + Z.of_nat (length l)) with (n + Z.of_nat (S (length l))) by lia|].
    exists s'. split; [by rewrite (bind_run_ok _ _ _ _ _ R1)|].
    by replace (n + Z.of_nat (S (length l))) with (n + 1 + Z.of_nat (length l)) by lia.
Qed.

(** ** All of it *)

Lemma in_dex_run {A} (m : dex A) b a s' : m (dex_state b) = (Ok a, s') -> in_dex m b = (Ok a, mkBlock s' (fee_state b)).
Proof. unfold in_dex. by intros ->. Qed.

Lemma in_fees_run {A} (m : fees A) b a s' : m (fee_state b) = (Ok a, s') -> in_fees m b = (Ok a, mkBlock (dex_state b) s').
Proof. unfold in_fees. by intros ->. Qed.

Lemma in_dex_each {A} (l : list A) (m : A -> dex unit) : forall b s',
  for_each l m (dex_state b) = (Ok tt, s') -> for_each l (fun e => in_dex (m e)) b = (Ok tt, mkBlock s' (fee_state b)).
Proof.
  induction l as [|e l IH]; intros b s' Hr; cbn [for_each] in *.
  - injection Hr as <-. by destruct b.
  - apply bind_ok in Hr as ([] & s1 & R1 & Hr). erewrite bind_run_ok by (apply in_dex_run; exact R1).
    by rewrite (IH (mkBlock s1 (fee_state b)) s').
Qed.

Lemma in_fees_each {A} (l : list A) (m : A -> fees unit) : forall b s',
  for_each l m (fee_state b) = (Ok tt, s') -> for_each l (fun e => in_fees (m e)) b = (Ok tt, mkBlock (dex_state b) s').
Proof.
  induction l as [|e l IH]; intros b s' Hr; cbn [for_each] in *.
  - injection Hr as <-. by destruct b.
  - apply bind_ok in Hr as ([] & s1 & R1 & Hr). erewrite bind_run_ok by (apply in_fees_run; exact R1).
    by rewrite (IH (mkBlock (dex_state b) s1) s').
Qed.

(** A block that is ready to end: the ledger is sound, holds what the swaps have paid in, and is far
    from the limits of the arithmetic. *)
Record ready (b : Block) : Prop := {
  ready_invariant : DexMachine.invariant (DexMachine.Delivering, dex_state b);
  ready_params : dex_params (dex_state b) = Some p;
  ready_budget : is_u32 (max_execution_budget p);
  ready_epoch : epoch_fits (dex_state b) h;
  ready_fees : fees_nonneg (btree_items (fee_accumulator (fee_state b)));
  ready_cap : forall c, Vcb.balance c (dex_state b) + fee_list c (btree_items (fee_accumulator (fee_state b)))
    + 2 * MAX_RESERVE_AMOUNT <= ledger_cap;
  ready_many : Z.of_nat (size (fee_accumulator (fee_state b))) < 2 ^ 16;
}.

Lemma submitting_running s0 s :
  DexMachine.invariant (DexMachine.Delivering, s0) -> dex_params s0 = Some p -> epoch_fits s0 h ->
  submitting s0 s [] -> running s.
Proof.
  intros (_ & _ & Hp & _) Hpar (e & He & Hf) [C B (Sp & Se & Sq & Spos) F O Ev Cap].
  split; try done.
  - intros i Hi. cbn in Hp. rewrite Sq in Hi. rewrite Spos. destruct (Hp i Hi) as (lp & ? & [?|[[=] _]]). eauto.
  - congruence.
  - exists e. split; [congruence|done].
  - intros c. specialize (Cap c). change (fee_list c []) with 0 in Cap. lia.
Qed.

(** The flows seen as a list, and what the reports cover. *)
Lemma covers_reports flows bsods :
  map_Forall (fun _ => flow_nonneg) flows ->
  (forall c, owed c flows <= ledger_cap) ->
  (forall tp, is_Some (bsods !! tp) <-> is_Some ((∅ : gmap TradingPair BatchSwapOutputData) !! tp)
     \/ tp ∈ (Dex.ordered_flows flows).*1) ->
  (forall tp b, bsods !! tp = Some b -> (∅ : gmap TradingPair BatchSwapOutputData) !! tp = Some b
     \/ exists f, (tp, f) ∈ Dex.ordered_flows flows /\ reports tp f b) ->
  covers flows bsods.
Proof.
  intros Hall Hcap Hdom Hrep tp f Hl. pose proof (owed_sides tp f flows Hall Hl) as [S1 S2].
  pose proof (Hcap (asset_1 tp)). pose proof (Hcap (asset_2 tp)). split_and!; [lia|lia|].
  assert (is_Some (bsods !! tp)) as [b Hb].
  { apply Hdom. right. apply list_elem_of_fmap. exists (tp, f). split; [done|].
    rewrite ordered_flows_perm. by apply elem_of_map_to_list. }
  exists b. split; [done|]. destruct (Hrep tp b Hb) as [Hx|(g & Hin & Hg)]; [by rewrite lookup_empty in Hx|].
  rewrite ordered_flows_perm in Hin. apply elem_of_map_to_list in Hin. by simplify_eq.
Qed.

(** Phase 3: the arbitrage is kept or leaves no trace. *)
Lemma arbitrage_step s arb_params :
  running s -> (forall c, 0 <= surplus c s) -> is_u32 (max_execution_budget p) ->
  exists s1, ignore_error (RouteAndFill.arbitrage STAKING_TOKEN_ASSET_ID arb_params) s = (Ok tt : anyhow unit, s1)
    /\ running s1 /\ (forall c, 0 <= surplus c s1) /\ evolved s s1.
Proof.
  intros Hr Hs Hbud.
  assert (Haff : affordable s STAKING_TOKEN_ASSET_ID RouteAndFill.flash_loan).
  { intros c. pose proof (running_cap s Hr c). specialize (Hs c). unfold surplus in Hs.
    pose proof (carries_le RouteAndFill.flash_loan MAX_RESERVE_AMOUNT STAKING_TOKEN_ASSET_ID c
      ltac:(split; by_computation)).
    pose proof (carries_le MAX_RESERVE_AMOUNT MAX_RESERVE_AMOUNT STAKING_TOKEN_ASSET_ID c
      ltac:(split; by_computation)).
    rewrite !carries_amount in *. assert (0 <= MAX_RESERVE_AMOUNT) by by_computation. case_decide; lia. }
  pose proof (running_epoch s Hr) as (e & He & _).
  destruct (arbitrage_spec STAKING_TOKEN_ASSET_ID arb_params p s (running_consistent s Hr)
    (conj (running_balances s Hr) Hs) (mk_is_Some _ _ He) Haff (running_params s Hr) Hbud) as [Ha|(x & s1 & Ha & A)].
  - exists s. unfold ignore_error. rewrite Ha. split_and!; [done|done|done|apply evolved_refl].
  - exists s1. unfold ignore_error. rewrite Ha. pose proof A as [A1 A2 A3 A4 A5 A6 A7 _].
    split_and!; [done| |intros c; rewrite A5; apply Hs|done].
    eapply running_next; try done. intros c. specialize (A5 c). unfold surplus in A5. rewrite A4 in A5.
    assert (0 <= Typed.carries (mkValue x STAKING_TOKEN_ASSET_ID) c); [|lia].
    rewrite carries_amount. case_decide; lia.
Qed.

Lemma running_invariant j s :
  running s -> (forall c, 0 <= surplus c s) -> DexMachine.invariant (DexMachine.Ending j, s).
Proof. intros Hr Hs. apply DexMachine.invariant_intro; [apply Hr|apply Hr|done|apply Hr|done]. Qed.

(** Phases 3 to 5: whatever the arbitrage does, the block can be closed. *)
Lemma finish_block s arb_params :
  running s -> (forall c, 0 <= surplus c s) -> is_u32 (max_execution_budget p) ->
  exists s', (ignore_error (RouteAndFill.arbitrage STAKING_TOKEN_ASSET_ID arb_params);;;
     ignore_error PositionManager.evict_positions;;;
     expecting (E' := string) PositionManager.close_queued_positions) s = (Ok tt : anyhow unit, s')
    /\ DexMachine.invariant (DexMachine.Ending DexMachine.Done, s') /\ pending_position_closures s' = [].
Proof.
  intros Hr Hs Hbud. destruct (arbitrage_step s arb_params Hr Hs Hbud) as (s1 & R1 & Hr1 & Hs1 & _).
  pose proof (running_invariant DexMachine.Done s1 Hr1 Hs1) as Hinv1.
  destruct (DexMachine.evict_total _ s1 p Hinv1 (running_params s1 Hr1)) as (s2 & R2 & Hinv2 & _).
  destruct (DexMachine.close_queued_total _ s2 Hinv2) as (s3 & R3 & Hinv3 & Hq & _).
  exists s3. split; [|done]. rewrite (bind_run_ok _ _ _ _ _ R1).
  erewrite bind_run_ok by (unfold ignore_error; rewrite R2; reflexivity).
  unfold expecting. by rewrite R3.
Qed.

Lemma end_block_spec b :
  ready b -> exists b', Dex.end_block h b = (Ok tt, b')
    /\ DexMachine.invariant (DexMachine.Ending DexMachine.Done, dex_state b')
    /\ pending_position_closures (dex_state b') = []
    /\ exists n, native_only n (fee_state b').
Proof.
  intros [Hinv Hp Hbud Hep Hfees Hcap Hmany]. unfold Dex.end_block.
  set (l := btree_items (fee_accumulator (fee_state b))) in *.
  erewrite bind_run_ok by (apply in_fees_run; reflexivity). fold l.
  set (fs := FeeComponent.set_fee_accumulator ∅ (fee_state b)).
  assert (Hsub : submitting (dex_state b) (dex_state b) l).
  { destruct Hinv as (? & [? ?] & ? & Hfl). destruct (Hfl eq_refl). by split. }
  destruct (submit_all _ l _ Hsub Hfees) as (s1 & R1 & H1 & Hinc & _).
  erewrite bind_run_ok by (apply in_dex_each; exact R1).
  pose proof (submitting_running _ _ Hinv Hp Hep H1) as Hrun1.
  erewrite bind_run_ok by (apply in_dex_run; unfold expecting, DexRead.routing_params, DexRead.get_dex_params;
    erewrite bind_run_ok by (rewrite bind_gets; cbn [dex_state]; rewrite (running_params _ Hrun1); reflexivity); reflexivity).
  erewrite bind_run_ok by (apply in_dex_run; unfold expecting, DexRead.get_dex_params; rewrite bind_gets;
    cbn [dex_state]; rewrite (running_params _ Hrun1); reflexivity).
  erewrite bind_run_ok by (apply in_dex_run; reflexivity). cbn [dex_state fee_state].
  assert (Hlist : Forall (fun e => flow_nonneg e.2) (Dex.ordered_flows (swap_flows s1))).
  { apply Forall_forall. intros [tp f] Hin. rewrite ordered_flows_perm in Hin. apply elem_of_map_to_list in Hin.
    by apply (submitting_flows _ _ _ H1 tp). }
  assert (Howed : forall c, owed_list c (Dex.ordered_flows (swap_flows s1)) = owed c (swap_flows s1))
    by (intros c; apply owed_perm, ordered_flows_perm).
  destruct (run_batches_spec (DexRead.routing_params_of p) _ Hbud _ ∅ s1 Hrun1 Hlist) as
    (bsods & s2 & R2 & Hrun2 & _ & Hs2 & Hdom & Hrep).
  { intros c. rewrite Howed. apply H1. }
  erewrite bind_run_ok by (apply in_dex_run; exact R2). cbn [dex_state fee_state].
  assert (Hcov : covers (swap_flows s1) bsods).
  { apply covers_reports; [apply H1| |exact Hdom|exact Hrep]. intros c.
    pose proof (submitting_owed _ _ _ H1 c) as Hle. pose proof (running_cap _ Hrun1 c).
    pose proof (held_nonneg s1 c (running_consistent _ Hrun1)). unfold surplus in Hle.
    assert (0 <= MAX_RESERVE_AMOUNT) by by_computation. lia. }
  assert (Hle : Forall (fun e => e.2.1 + e.2.2 <= ledger_cap) l).
  { apply Forall_forall. intros [a [base tip]] Hin. cbn [fst snd].
    assert (base + tip <= fee_list a l).
    { clear -Hfees Hin. induction l as [|e l' IH]; [by apply not_elem_of_nil in Hin|].
      apply Forall_cons in Hfees as [[N1 N2] Hfees]. rewrite fee_list_cons.
      pose proof (fee_list_nonneg a l' Hfees). apply elem_of_cons in Hin as [<-|Hin].
      - cbn [fst snd] in *. rewrite decide_True by done. lia.
      - specialize (IH Hfees Hin). case_decide; lia. }
    specialize (Hcap a). destruct Hinv as (_ & [Hty _] & _). cbn in Hty. pose proof (Hty a) as [? _].
    assert (0 <= MAX_RESERVE_AMOUNT) by by_computation. lia. }
  destruct (claim_all (swap_flows s1) bsods l 0 fs Hcov Hinc Hfees Hle) as (fs' & R3 & H3).
  { intros a x y Hx. cbn in Hx. by rewrite lookup_empty in Hx. }
  { done. }
  { unfold l. rewrite btree_items_length. unfold ledger_cap. lia. }
  erewrite bind_run_ok by (apply in_fees_each; exact R3). cbn [dex_state fee_state].
  erewrite bind_run_ok by (apply in_dex_run; reflexivity). cbn [dex_state fee_state].
  destruct (finish_block s2 (Dex.arb_routing_params (DexRead.routing_params_of p) s2) Hrun2) as (s3 & R4 & Hinv3 & Hq).
  { intros c. rewrite Hs2, Howed. pose proof (submitting_owed _ _ _ H1 c). lia. }
  { done. }
  exists (mkBlock s3 fs'). split_and!; [|done|done|by eexists].
  apply bind_ok in R4 as ([] & s4 & R4 & R5). apply bind_ok in R5 as ([] & s5 & R5 & R6).
  erewrite bind_run_ok by (apply in_dex_run; exact R4). erewrite bind_run_ok by (apply in_dex_run; exact R5).
  by apply in_dex_run.
Qed.
End Phases.
