(* ===== verification/BlockMachine.v ===== *)
(** * The DEX and its fees over whole blocks

    [step] is the transition relation of the DEX over the blocks of the chain.  While actions are
    delivered the handlers of [DexMachine.delivers] run, fees are paid and the other components
    change the parameters, the epoch and the height; then [Dex.end_block] runs, one phase after the
    other, with its real trades: nothing is assumed of what a batch or the arbitrage gains.
    [end_block_runs] shows that the phases are those of [Dex.end_block].  The invariant holds in
    every reachable state, also between two phases. *)

From S2P Require Import Prelude.
From S2P Require Import Num.
From S2P Require Import Asset.
From S2P Require Import TradingFunction.
From S2P Require Import Position.
From S2P Require Import Vcb.
From S2P Require Import DexState.
From S2P Require Import Indexes.
From S2P Require Import IndexFacts.
From S2P Require Import PositionManager.
From S2P Require Import PositionFacts.
From S2P Require Import OpeningFacts.
From S2P Require Import DexMachine.
From S2P Require Import Router.
From S2P Require Import RouterFacts.
From S2P Require Import FillFacts.
From S2P Require Import SettlementFacts.
From S2P Require Import Fee.
From S2P Require Import EndBlock.
From S2P Require Import EndBlockFacts.

Module BlockMachine.
Section Machine.
Context `{DexEnv} `{StakingToken}.
Import DexMachine.

(** ** Steps *)

(** What a transaction can pay with, and what governance can set, has the types of the code. *)
Definition gas_typed (g : Gas) : Prop :=
  0 <= block_space g /\ 0 <= compact_block_space g /\ 0 <= verification g /\ 0 <= execution g.
Definition prices_typed (p : GasPrices) : Prop :=
  0 <= block_space_price p /\ 0 <= compact_block_space_price p /\ 0 <= verification_price p
  /\ 0 <= execution_price p.
Definition params_typed (p : FeeParameters) : Prop :=
  prices_typed (fixed_gas_prices p) /\ Forall prices_typed (fixed_alt_gas_prices p).

(** What the other components write for the next actions: the parameters of the application, and the
    epoch and the height of the block. *)
Definition with_settings (p : DexParameters) (e : Epoch) (h : Z) (s : DexState) : DexState :=
  set_block_height h (set_current_epoch (Some e) (set_dex_params (Some p) s)).

(** The commitment of a block keeps the stored values and drops the objects of the block. *)
Definition commit_dex (s : DexState) : DexState :=
  set_pending_position_closures [] (set_recently_accessed_assets ∅ (set_active_trading_pairs ∅
    (set_block_executions ∅ (set_swap_flows ∅ (set_pending_outputs ∅ s))))).
Definition commit_fees (f : FeeState) : FeeState :=
  mkFeeState (fee_params f) false ∅ (fee_events f).

(** Room for the arithmetic of the end of a block at height [h]: the ledger and the fees are far from
    the width of an amount, and the epoch's index and the block's place in it are 16-bit numbers, as
    the prefix of a state commitment wants them. *)
Record room (h : Z) (p : DexParameters) (s : DexState) (f : FeeState) : Prop := {
  room_params : dex_params s = Some p;
  room_budget : is_u32 (max_execution_budget p);
  room_epoch : epoch_fits s h;
  room_cap c : Vcb.balance c s + fee_list c (btree_items (fee_accumulator f)) + 2 * MAX_RESERVE_AMOUNT <= ledger_cap;
  room_many : Z.of_nat (size (fee_accumulator f)) < 2 ^ 16;
}.

Definition config : Type := phase * Block.

Inductive step : config -> config -> Prop :=
| step_deliver s s' f :
    delivers s s' -> step (Delivering, mkBlock s f) (Delivering, mkBlock s' f)
| step_settings p e h s f :
    step (Delivering, mkBlock s f) (Delivering, mkBlock (with_settings p e h s) f)
| step_fee_params p s f f' :
    params_typed p -> FeeComponent.put_fee_params p f = (Ok tt, f') ->
    step (Delivering, mkBlock s f) (Delivering, mkBlock s f')
| step_pay_fee gas fee s f f' :
    gas_typed gas -> 0 <= amount fee -> FeeComponent.pay_fee gas fee f = (Ok tt, f') ->
    step (Delivering, mkBlock s f) (Delivering, mkBlock s f')
(** F.0 and 1: the fees are taken and submitted, and the flows read. *)
| step_end_block h p s s' f :
    room h p s f ->
    for_each (btree_items (fee_accumulator f)) Dex.submit_fee_swap s = (Ok tt, s') ->
    step (Delivering, mkBlock s f)
      (Ending (Batching h p (btree_items (fee_accumulator f)) (Dex.ordered_flows (swap_flows s')) ∅),
       mkBlock s' (FeeComponent.set_fee_accumulator ∅ f))
(** 2: one batch. *)
| step_batch h p fees tp flow todo bsods bsod s s' f :
    RouteAndFill.handle_batch_swaps tp flow h
      (DexRead.with_extra_candidates [asset_1 tp; asset_2 tp] (DexRead.routing_params_of p))
      (max_execution_budget p) s = (Ok bsod, s') ->
    step (Ending (Batching h p fees ((tp, flow) :: todo) bsods), mkBlock s f)
         (Ending (Batching h p fees todo (<[tp := bsod]> bsods)), mkBlock s' f)
(** F.1: the outputs of the fees are claimed. *)
| step_claim h p fees bsods s f f' :
    for_each fees (Dex.claim_fee_swap bsods) f = (Ok tt, f') ->
    step (Ending (Batching h p fees [] bsods), mkBlock s f) (Ending (Arbitraging h p), mkBlock s f')
(** 3: the arbitrage. *)
| step_arbitrage h p s s' f :
    ignore_error (RouteAndFill.arbitrage STAKING_TOKEN_ASSET_ID
      (Dex.arb_routing_params (DexRead.routing_params_of p) s)) s = (Ok tt : anyhow unit, s') ->
    step (Ending (Arbitraging h p), mkBlock s f) (Ending Evicting, mkBlock s' f)
(** 4 and 5: eviction, and the queue of closures. *)
| step_evict s s' f :
    ignore_error PositionManager.evict_positions s = (Ok tt : anyhow unit, s') ->
    step (Ending Evicting, mkBlock s f) (Ending Closing, mkBlock s' f)
| step_close s s' f :
    PositionManager.close_queued_positions s = (Ok tt, s') ->
    step (Ending Closing, mkBlock s f) (Ending Done, mkBlock s' f)
| step_commit s f :
    step (Ending Done, mkBlock s f) (Delivering, mkBlock (commit_dex s) (commit_fees f)).

Definition genesis (params : DexParameters) (epoch : Epoch) : Block :=
  mkBlock (DexMachine.genesis params epoch) (mkFeeState None false ∅ []).

Definition reachable (params : DexParameters) (epoch : Epoch) : config -> Prop :=
  rtc step (Delivering, genesis params epoch).

(** ** The invariant *)

Definition fees_typed (f : FeeState) : Prop :=
  map_Forall (fun _ => flow_nonneg) (fee_accumulator f)
  /\ forall p, fee_params f = Some p -> params_typed p.

(** What holds between two phases of [end_block], besides the invariant of the DEX. *)
Definition midway (ph : phase) (s : DexState) : Prop :=
  match ph with
  | Ending (Batching h p _ todo _) =>
      running h p s /\ is_u32 (max_execution_budget p) /\ Forall (fun e => flow_nonneg e.2) todo
      /\ forall c, owed_list c todo <= surplus c s
  | Ending (Arbitraging h p) => running h p s /\ is_u32 (max_execution_budget p)
  | Ending Evicting => is_Some (dex_params s)
  | _ => True
  end.

Definition invariant (c : config) : Prop :=
  DexMachine.invariant (c.1, dex_state c.2) /\ midway c.1 (dex_state c.2)
  /\ (is_ending c.1 = false -> fees_typed (fee_state c.2)) /\ forall p, fee_params (fee_state c.2) = Some p -> params_typed p.

Lemma invariant_delivering s f :
  DexMachine.invariant (Delivering, s) -> fees_typed f -> invariant (Delivering, mkBlock s f).
Proof. intros Hs Hf. split_and!; [done|done|done|apply Hf]. Qed.

Lemma genesis_invariant params epoch : invariant (Delivering, genesis params epoch).
Proof.
  apply invariant_delivering; [apply DexMachine.invariant_genesis|]. split; [apply map_Forall_empty|done].
Qed.

Lemma fees_items f : fees_typed f -> fees_nonneg (btree_items (fee_accumulator f)).
Proof.
  intros [Hf _]. apply Forall_forall. intros [a x] Hin%elem_of_btree_items. exact (Hf a x Hin).
Qed.

Lemma settings_invariant p e h s :
  DexMachine.invariant (Delivering, s) -> DexMachine.invariant (Delivering, with_settings p e h s).
Proof.
  intros (Hc & Hs & Hp & Hf). apply invariant_intro; [by eapply consistent_frame; [|exact Hc]|apply Hs|apply Hs|done|done].
Qed.

Lemma commit_invariant j s :
  DexMachine.invariant (Ending j, s) -> DexMachine.invariant (Delivering, commit_dex s).
Proof.
  intros (Hc & Hs & Hp & _). apply invariant_intro; [by eapply consistent_frame; [|exact Hc]|apply Hs|apply Hs| |].
  - intros i Hi. cbn in Hi. by apply not_elem_of_nil in Hi.
  - intros _. split; [apply map_Forall_empty|]. intros c. change (0 <= surplus c s). apply Hs.
Qed.

(** *** Fees *)

Lemma accumulate_nonneg (m : gmap asset_id (Z * Z)) a f :
  map_Forall (fun _ => flow_nonneg) m -> flow_nonneg f -> map_Forall (fun _ => flow_nonneg) (<[a := f]> m).
Proof. intros Hm Hf. by apply map_Forall_insert_2. Qed.

Lemma base_fee_typed fee f u f' :
  fees_typed f -> 0 <= amount fee -> FeeComponent.raw_accumulate_base_fee fee f = (Ok u, f') -> fees_typed f'.
Proof.
  intros [Hf Hp] Ha. unfold FeeComponent.raw_accumulate_base_fee. intros Hr. inv_comp. split; [|done].
  cbn [fee_accumulator FeeComponent.set_fee_accumulator]. apply accumulate_nonneg; [done|].
  destruct (fee_accumulator f !! value_asset fee) as [[x y]|] eqn:Hl; inv_outcome; [|split; cbn; lia].
  destruct (Hf _ _ Hl).
  match goal with H : plain_add _ _ _ = Ok _ |- _ => apply plain_add_ok in H as [-> _] end.
  split; cbn in *; lia.
Qed.

Lemma tip_typed fee f u f' :
  fees_typed f -> 0 <= amount fee -> FeeComponent.raw_accumulate_tip fee f = (Ok u, f') -> fees_typed f'.
Proof.
  intros [Hf Hp] Ha. unfold FeeComponent.raw_accumulate_tip. intros Hr. inv_comp. split; [|done].
  cbn [fee_accumulator FeeComponent.set_fee_accumulator]. apply accumulate_nonneg; [done|].
  destruct (fee_accumulator f !! value_asset fee) as [[x y]|] eqn:Hl; inv_outcome; [|split; cbn; lia].
  destruct (Hf _ _ Hl).
  match goal with H : plain_add _ _ _ = Ok _ |- _ => apply plain_add_ok in H as [-> _] end.
  split; cbn in *; lia.
Qed.

Lemma priced_nonneg x y a : 0 <= x -> 0 <= y -> @priced string x y = Ok a -> 0 <= a.
Proof. intros Hx Hy ->%priced_ok. apply Z.div_pos; nia. Qed.

Lemma gas_fee_nonneg g gas fee : prices_typed g -> gas_typed gas -> @gas_fee string g gas = Ok fee -> 0 <= amount fee.
Proof.
  intros (?&?&?&?) (?&?&?&?) ->%gas_fee_ok. cbn [amount]. unfold base_price.
  assert (Hd : forall x y, 0 <= x -> 0 <= y -> 0 <= x * y / 1000) by (intros; apply Z.div_pos; nia).
  repeat (apply Z.add_nonneg_nonneg; [|by apply Hd]). by apply Hd.
Qed.

Lemma current_prices_typed fee f g f' :
  fees_typed f -> FeeComponent.current_gas_prices fee f = (Ok g, f') -> f' = f /\ prices_typed g.
Proof.
  intros [_ Hp] Hr. destruct (fee_params f) as [p|] eqn:He.
  - destruct (Hp p eq_refl) as [Hf Ha]. rewrite (current_gas_prices_run p fee f He) in Hr. unfold prices_for in Hr.
    destruct (value_asset fee =? STAKING_TOKEN_ASSET_ID); [injection Hr as <- <-; done|]. destruct (List.find _ _) as [x|] eqn:Hfind; [|done]. simplify_eq. split; [done|].
    apply List.find_some in Hfind as [Hin _]. rewrite Forall_forall in Ha. by apply Ha, list_elem_of_In.
  - unfold FeeComponent.current_gas_prices, FeeComponent.get_gas_prices, FeeComponent.get_alt_gas_prices,
      FeeComponent.get_fee_params, expecting, bind, gets, lift in Hr. cbn beta iota in Hr.
    destruct (value_asset fee =? STAKING_TOKEN_ASSET_ID); by rewrite He in Hr.
Qed.

Lemma pay_fee_typed gas fee f u f' :
  fees_typed f -> gas_typed gas -> 0 <= amount fee -> FeeComponent.pay_fee gas fee f = (Ok u, f') -> fees_typed f'.
Proof.
  intros Hf Hg Ha. unfold FeeComponent.pay_fee. intros Hr.
  apply bind_ok in Hr as (g & f1 & Hg1 & Hr). destruct (current_prices_typed _ _ _ _ Hf Hg1) as [-> Hpr].
  apply bind_ok in Hr as (u1 & f1 & [_ ->]%ensure_ok & Hr).
  apply bind_ok in Hr as (base & f1 & [Hb ->]%lift_ok & Hr). pose proof (gas_fee_nonneg _ _ _ Hpr Hg Hb) as Hb0.
  apply bind_ok in Hr as (u2 & f1 & [Hle ->]%ensure_ok & Hr). to_prop.
  apply bind_ok in Hr as (tip & f1 & [Ht ->]%lift_ok & Hr). apply plain_sub_ok in Ht as [-> Hge].
  apply bind_ok in Hr as (u3 & f1 & [_ ->]%modify_ok & Hr). apply bind_ok in Hr as (u4 & f2 & Hb2 & Hr).
  refine (tip_typed _ _ _ _ (base_fee_typed _ _ _ _ _ Hb0 Hb2) _ Hr); [exact Hf|cbn; lia].
Qed.

(** *** Phases *)

Lemma room_ready h p s f :
  invariant (Delivering, mkBlock s f) -> room h p s f -> ready h p (mkBlock s f).
Proof.
  intros (Hi & _ & Hf & _) [? ? ? ? ?]. split; try done. cbn [fee_state]. apply fees_items. by apply Hf.
Qed.

Lemma submit_phase h p s s' f :
  invariant (Delivering, mkBlock s f) -> room h p s f ->
  for_each (btree_items (fee_accumulator f)) Dex.submit_fee_swap s = (Ok tt, s') ->
  submitting s s' [] /\ running h p s' /\ midway (Ending (Batching h p (btree_items (fee_accumulator f))
    (Dex.ordered_flows (swap_flows s')) ∅)) s'.
Proof.
  intros Hi Hroom Hr. destruct (room_ready h p s f Hi Hroom) as [Hinv Hp Hbud Hep Hfees Hcap Hmany].
  cbn [dex_state fee_state] in *.
  assert (Hsub : submitting s s (btree_items (fee_accumulator f))).
  { destruct Hinv as (? & [? ?] & ? & Hfl). destruct (Hfl eq_refl). by split. }
  destruct (submit_all _ _ _ Hsub Hfees) as (s1 & R1 & H1 & _). rewrite Hr in R1. injection R1 as <-.
  pose proof (submitting_running h p _ _ Hinv Hp Hep H1) as Hrun. split_and!; [done|done|]. split_and!; [done|done| |].
  - apply Forall_forall. intros [tp g] Hin. rewrite ordered_flows_perm in Hin. apply elem_of_map_to_list in Hin.
    by apply (submitting_flows _ _ _ H1 tp).
  - intros c. rewrite (owed_perm c _ _ (ordered_flows_perm _)). apply H1.
Qed.

Lemma evolved_ages s s' : evolved s s' -> ages s s'.
Proof.
  intros He i lp Hl. specialize (He i). rewrite Hl in He. destruct He as (lp' & Hl' & Hphi & Hs).
  exists lp'. split; [done|]. split; [done|]. destruct Hs as [->|(-> & [->| ->])]; cbn; lia.
Qed.

Lemma batch_phase h p fees tp flow todo bsods bsod s s' :
  midway (Ending (Batching h p fees ((tp, flow) :: todo) bsods)) s ->
  RouteAndFill.handle_batch_swaps tp flow h
    (DexRead.with_extra_candidates [asset_1 tp; asset_2 tp] (DexRead.routing_params_of p))
    (max_execution_budget p) s = (Ok bsod, s') ->
  midway (Ending (Batching h p fees todo (<[tp := bsod]> bsods))) s' /\ settled_batch s s' tp flow.1 flow.2 h bsod.
Proof.
  intros (Hrun & Hbud & Hall & Ho) Hr. apply Forall_cons in Hall as [Hf Hall]. cbn [snd] in Hf.
  assert (Hcons : forall c, owed_list c ((tp, flow) :: todo) = batch_out tp flow.1 flow.2 c + owed_list c todo) by done.
  destruct (batch_step h p (DexRead.routing_params_of p) _ tp flow s Hrun Hbud Hf) as (b & s1 & R1 & Hset & Hrun1 & _).
  { intros c. specialize (Ho c). rewrite Hcons in Ho. pose proof (owed_list_nonneg c todo Hall). lia. }
  rewrite Hr in R1. injection R1 as <- <-. split; [|done]. split_and!; [done|done|done|].
  intros c. rewrite (batch_surplus _ _ _ _ _ _ _ Hset). specialize (Ho c). rewrite Hcons in Ho. lia.
Qed.

Lemma claims_params bsods fees : forall f u f',
  for_each fees (Dex.claim_fee_swap bsods) f = (Ok u, f') -> fee_params f' = fee_params f.
Proof.
  assert (Hacc : forall x y f u f', (FeeComponent.raw_accumulate_base_fee x;;; FeeComponent.raw_accumulate_tip y) f
    = (Ok u, f') -> fee_params f' = fee_params f).
  { intros x y f u f' (u1 & f1 & H1 & H2)%bind_ok.
    destruct (accumulate_base_ok _ _ _ _ H1) as (P1 & _). destruct (accumulate_tip_ok _ _ _ _ H2) as (P2 & _). congruence. }
  induction fees as [|[a [base tip]] fees IH]; intros f u f' Hr; cbn [for_each] in Hr; [by injection Hr as _ <-|].
  apply bind_ok in Hr as (u1 & f1 & H1 & Hr). rewrite (IH _ _ _ Hr). unfold Dex.claim_fee_swap in H1.
  destruct (_ =? _); [by eapply Hacc|].
  apply bind_ok in H1 as (b & f2 & [_ ->]%lift_ok & H1). apply bind_ok in H1 as (o & f2 & [_ ->]%lift_ok & H1).
  apply bind_ok in H1 as (o' & f2 & [_ ->]%lift_ok & H1). by eapply Hacc.
Qed.

Lemma midway_invariant h p fees todo bsods j s :
  midway (Ending (Batching h p fees todo bsods)) s -> DexMachine.invariant (Ending j, s).
Proof.
  intros (Hrun & _ & Hall & Ho). apply (running_invariant h p); [done|]. intros c.
  specialize (Ho c). pose proof (owed_list_nonneg c todo Hall). lia.
Qed.

Lemma arbitrage_phase h p params s s' :
  DexMachine.invariant (Ending (Arbitraging h p), s) -> midway (Ending (Arbitraging h p)) s ->
  ignore_error (RouteAndFill.arbitrage STAKING_TOKEN_ASSET_ID params) s = (Ok tt : anyhow unit, s') ->
  DexMachine.invariant (Ending Evicting, s') /\ midway (Ending Evicting) s' /\ evolved s s'.
Proof.
  intros (_ & [_ Hs] & _) [Hrun Hbud] Hr. destruct (arbitrage_step h p s params Hrun Hs Hbud) as (s1 & R1 & Hrun1 & Hs1 & He).
  rewrite Hr in R1. injection R1 as <-. split_and!; [by apply (running_invariant h p)| |done].
  exists p. apply Hrun1.
Qed.

(** ** Preservation *)

Lemma step_keeps c c' : invariant c -> step c c' -> invariant c' /\ ages (dex_state c.2) (dex_state c'.2).
Proof.
  intros Hinv Hst. pose proof Hinv as (Hd & Hm & Hf & Hpar). destruct Hst as
    [s s' f Hdel|p e h s f|p s f f' Hp Hr|gas fee s f f' Hg Ha Hr|h p s s' f Hroom Hr|h p fees tp flow todo bsods bsod s s' f Hr
    |h p fees bsods s f f' Hr|h p s s' f Hr|s s' f Hr|s s' f Hr|s f]; cbn [fst snd dex_state fee_state is_ending] in *.
  - split; [|by eapply delivers_ages]. apply invariant_delivering; [by eapply delivers_invariant|by apply Hf].
  - split; [|by apply ages_same]. apply invariant_delivering; [by apply settings_invariant|by apply Hf].
  - split; [|reflexivity]. apply invariant_delivering; [done|]. apply modify_ok in Hr as [_ ->].
    split; [by apply Hf|]. by intros ? [= <-].
  - split; [|reflexivity]. apply invariant_delivering; [done|]. eapply pay_fee_typed; [by apply Hf|done|done|exact Hr].
  - destruct (submit_phase h p s s' f Hinv Hroom Hr) as (Hsub & Hrun & Hmid).
    split; [|apply ages_same, Hsub]. split_and!; [by eapply midway_invariant|done|done|done].
  - destruct (batch_phase _ _ _ _ _ _ _ _ _ _ Hm Hr) as [Hmid Hset].
    split; [|apply evolved_ages, Hset]. split_and!; [by eapply midway_invariant|done|done|done].
  - split; [|reflexivity]. split_and!; [done|by destruct Hm as (? & ? & _)|done|]. intros q. cbn [snd fee_state].
    rewrite (claims_params _ _ _ _ _ Hr). apply Hpar.
  - destruct (arbitrage_phase h p _ s s' Hd Hm Hr) as (Hd' & Hm' & He). split; [|by apply evolved_ages]. done.
  - destruct Hm as [p Hp]. destruct (evict_total _ s p Hd Hp) as (s1 & R1 & Hd1 & Hk).
    unfold ignore_error in Hr. rewrite R1 in Hr. injection Hr as <-. split; [done|by apply kept_ages].
  - destruct (close_queued_total _ s Hd) as (s1 & R1 & Hd1 & _ & Hk & _). rewrite Hr in R1. injection R1 as <-.
    split; [done|by apply kept_ages].
  - split; [|by apply ages_same]. apply invariant_delivering; [by eapply commit_invariant|]. split; [apply map_Forall_empty|done].
Qed.

Lemma step_invariant c c' : invariant c -> step c c' -> invariant c'.
Proof. intros Hi Hs. by apply (step_keeps c c'). Qed.

Lemma step_ages c c' : invariant c -> step c c' -> ages (dex_state c.2) (dex_state c'.2).
Proof. intros Hi Hs. by apply (step_keeps c c'). Qed.

Lemma steps_invariant c c' : rtc step c c' -> invariant c -> invariant c'.
Proof. induction 1; eauto using step_invariant. Qed.

Lemma steps_ages c c' : rtc step c c' -> invariant c -> ages (dex_state c.2) (dex_state c'.2).
Proof.
  induction 1 as [|c c1 c2 H1 _ IH]; intros Hi; [reflexivity|].
  etransitivity; [by apply (step_ages c c1)|]. apply IH. by eapply step_invariant.
Qed.

Lemma block_reachable_invariant params epoch c : reachable params epoch c -> invariant c.
Proof. intros Hr. exact (steps_invariant _ _ Hr (genesis_invariant _ _)). Qed.

Lemma reachable_dex params epoch ph b : reachable params epoch (ph, b) -> DexMachine.invariant (ph, dex_state b).
Proof. intros Hr%block_reachable_invariant. apply Hr. Qed.

(** ** The phases are those of [Dex.end_block] *)

Lemma batches_run h p fees f : forall todo bsods s bsods' s',
  Dex.run_batches h (DexRead.routing_params_of p) (max_execution_budget p) todo bsods s = (Ok bsods', s') ->
  rtc step (Ending (Batching h p fees todo bsods), mkBlock s f) (Ending (Batching h p fees [] bsods'), mkBlock s' f).
Proof.
  induction todo as [|[tp flow] todo IH]; intros bsods s bsods' s' Hr; cbn [Dex.run_batches] in Hr.
  - apply ret_ok in Hr as [-> ->]. reflexivity.
  - apply bind_ok in Hr as (b & s1 & R1 & Hr). eapply rtc_l; [|by apply IH]. apply step_batch.
    unfold expecting in R1. by destruct (RouteAndFill.handle_batch_swaps _ _ _ _ _ s) as [[] ?]; simplify_eq.
Qed.

Lemma in_dex_ok {A} (m : dex A) b a b' :
  in_dex m b = (Ok a, b') -> exists s', m (dex_state b) = (Ok a, s') /\ b' = mkBlock s' (fee_state b).
Proof. unfold in_dex. destruct (m (dex_state b)) as [r s]. intros [= -> <-]. eauto. Qed.

Lemma in_fees_ok {A} (m : fees A) b a b' :
  in_fees m b = (Ok a, b') -> exists f', m (fee_state b) = (Ok a, f') /\ b' = mkBlock (dex_state b) f'.
Proof. unfold in_fees. destruct (m (fee_state b)) as [r s]. intros [= -> <-]. eauto. Qed.

Lemma in_dex_each_ok {A} (l : list A) (m : A -> dex unit) : forall b u b',
  for_each l (fun e => in_dex (m e)) b = (Ok u, b') ->
  exists s', for_each l m (dex_state b) = (Ok tt, s') /\ b' = mkBlock s' (fee_state b).
Proof.
  induction l as [|e l IH]; intros b u b' Hr; cbn [for_each] in *.
  - injection Hr as _ <-. exists (dex_state b). by destruct b.
  - apply bind_ok in Hr as ([] & b1 & (s1 & R1 & ->)%in_dex_ok & Hr). apply IH in Hr as (s' & R' & ->).
    exists s'. by rewrite (bind_run_ok _ _ _ _ _ R1).
Qed.

Lemma in_fees_each_ok {A} (l : list A) (m : A -> fees unit) : forall b u b',
  for_each l (fun e => in_fees (m e)) b = (Ok u, b') ->
  exists f', for_each l m (fee_state b) = (Ok tt, f') /\ b' = mkBlock (dex_state b) f'.
Proof.
  induction l as [|e l IH]; intros b u b' Hr; cbn [for_each] in *.
  - injection Hr as _ <-. exists (fee_state b). by destruct b.
  - apply bind_ok in Hr as ([] & b1 & (s1 & R1 & ->)%in_fees_ok & Hr). apply IH in Hr as (s' & R' & ->).
    exists s'. by rewrite (bind_run_ok _ _ _ _ _ R1).
Qed.

Lemma end_block_steps h p b b' :
  invariant (Delivering, b) -> room h p (dex_state b) (fee_state b) -> Dex.end_block h b = (Ok tt, b') ->
  rtc step (Delivering, b) (Ending Done, b').
Proof.
  destruct b as [s f]. cbn [dex_state fee_state]. intros Hinv Hroom Hr. unfold Dex.end_block in Hr.
  apply bind_ok in Hr as (acc & b & (f1 & R1 & ->)%in_fees_ok & Hr).
  injection R1 as <- <-. cbn [dex_state fee_state] in *.
  apply bind_ok in Hr as ([] & b & (s1 & R2 & ->)%in_dex_each_ok & Hr). cbn [dex_state fee_state] in *.
  destruct (submit_phase h p s s1 f Hinv Hroom R2) as (_ & Hrun & _). pose proof (running_params _ _ _ Hrun) as Hp.
  apply bind_ok in Hr as (rp & b & (s2 & R3 & ->)%in_dex_ok & Hr).
  assert (rp = DexRead.routing_params_of p /\ s2 = s1) as [-> ->].
  { unfold expecting, DexRead.routing_params, DexRead.get_dex_params, bind, gets, lift in R3. cbn [dex_state] in R3.
    rewrite Hp in R3. cbn in R3. by injection R3 as <- <-. }
  apply bind_ok in Hr as (params & b & (s2 & R4 & ->)%in_dex_ok & Hr).
  assert (params = p /\ s2 = s1) as [-> ->].
  { unfold expecting, DexRead.get_dex_params, bind, gets, lift in R4. cbn [dex_state] in R4.
    rewrite Hp in R4. cbn in R4. by injection R4 as <- <-. }
  apply bind_ok in Hr as (flows & b & (s2 & [-> ->]%gets_ok & ->)%in_dex_ok & Hr). cbn [dex_state fee_state] in *.
  apply bind_ok in Hr as (bsods & b & (s2 & R5 & ->)%in_dex_ok & Hr). cbn [dex_state fee_state] in *.
  apply bind_ok in Hr as ([] & b & (f2 & R6 & ->)%in_fees_each_ok & Hr). cbn [dex_state fee_state] in *.
  apply bind_ok in Hr as (ap & b & (s3 & [-> ->]%gets_ok & ->)%in_dex_ok & Hr). cbn [dex_state fee_state] in *.
  apply bind_ok in Hr as ([] & b & (s3 & R7 & ->)%in_dex_ok & Hr). cbn [dex_state fee_state] in *.
  apply bind_ok in Hr as ([] & b & (s4 & R8 & ->)%in_dex_ok & Hr). cbn [dex_state fee_state] in *.
  apply in_dex_ok in Hr as (s5 & R9 & ->). cbn [dex_state fee_state] in *.
  eapply rtc_l; [by eapply step_end_block|]. etransitivity; [by eapply batches_run|].
  eapply rtc_l; [by eapply step_claim|]. eapply rtc_l; [by eapply step_arbitrage|].
  eapply rtc_l; [by eapply step_evict|]. apply rtc_once, step_close.
  unfold expecting in R9. by destruct (PositionManager.close_queued_positions s4) as [[] ?]; simplify_eq.
Qed.

(** A block with room ends, by the steps of the machine. *)
Theorem end_block_runs h p b :
  invariant (Delivering, b) -> room h p (dex_state b) (fee_state b) ->
  exists b', Dex.end_block h b = (Ok tt, b') /\ rtc step (Delivering, b) (Ending Done, b').
Proof.
  intros Hinv Hroom. assert (Hready : ready h p b) by (destruct b; by apply room_ready).
  destruct (end_block_spec h p b Hready) as (b' & Hr & _). exists b'. split; [done|]. by eapply end_block_steps.
Qed.
End Machine.
End BlockMachine.
