(* ===== verification/DexTheorems.v ===== *)
(** * Correctness of the position ledger

    The theorems about the DEX's positions in every reachable state of [BlockMachine], and their
    witnesses on concrete blocks. *)

From S2P Require Import Prelude.
From S2P Require Import Num.
From S2P Require Import Asset.
From S2P Require Import TradingFunction.
From S2P Require Import Position.
From S2P Require Import Vcb.
From S2P Require Import DexState.
From S2P Require Import Indexes.
From S2P Require Import IndexFacts.
From S2P Require Import PositionManager.
From S2P Require Import PositionFacts.
From S2P Require Import DexMachine.
From S2P Require Import PathTheorems.
From S2P Require Import Router.
From S2P Require Import RouterFacts.
From S2P Require Import FillFacts.
From S2P Require Import SettlementFacts.
From S2P Require Import Fee.
From S2P Require Import EndBlock.
From S2P Require Import EndBlockFacts.
From S2P Require Import BlockMachine.

Import PositionManager DexMachine.
Import BlockMachine.

Section Order.
Context `{DexEnv}.

(** The head of the price order. *)
Lemma best_position_least s d id lp :
  consistent s -> PriceIndex.best_position d s = Some (id, lp) ->
  exists b, PriceIndexFacts.listed lp d b /\ positions s !! id = Some lp
    /\ forall id' lp' b', positions s !! id' = Some lp' -> PriceIndexFacts.listed lp' d b' ->
         lex_compare b b' <> Gt.
Proof.
  intros Hc. unfold PriceIndex.best_position, PriceIndex.positions_by_price.
  destruct (merge_sort PriceIndex.key_le (PriceIndex.entries d s)) as [|[[b i] l] rest] eqn:Hm; [done|].
  cbn. intros [= -> ->]. exists b.
  assert (Hin : (b, id, lp) ∈ PriceIndex.entries d s).
  { rewrite <- (merge_sort_Permutation PriceIndex.key_le), Hm. set_solver. }
  apply PriceIndexFacts.elem_of_entries, (consistent_price _ Hc) in Hin as [Hl Hb].
  split_and!; [done|done|]. intros id' lp' b' Hl' Hb' Hgt.
  assert (Hin' : (b', id', lp') ∈ (b, id, lp) :: rest).
  { rewrite <- Hm, merge_sort_Permutation. apply PriceIndexFacts.elem_of_entries.
    by apply (consistent_price _ Hc). }
  assert (Hsorted : StronglySorted PriceIndex.key_le ((b, id, lp) :: rest)).
  { rewrite <- Hm. apply StronglySorted_merge_sort; apply _. }
  assert (Hle : PriceIndex.key_le (b, id, lp) (b', id', lp')).
  { eapply sorted_head_least; [|exact Hsorted|exact Hin'].
    intros [[b0 i0] l0]. unfold PriceIndex.key_le. cbn. rewrite lex_compare_refl. lia. }
  unfold PriceIndex.key_le in Hle. cbn in Hle. by rewrite Hgt in Hle.
Qed.

Lemma listed_price lp d b f :
  Bare.wf f -> PriceIndexFacts.offers lp d f -> asset_1 (pair (phi lp)) <> asset_2 (pair (phi lp)) ->
  PriceIndexFacts.listed lp d b -> b = U128x128.to_bytes (Bare.price_val f).
Proof.
  intros Hf (_ & Ho) Hne (g & (_ & Hg) & Hb).
  assert (g = f) as ->.
  { unfold pair_ab, pair_ba, Pair.flip in *. cbn in *. naive_solver. }
  unfold Bare.effective_price_key_bytes in Hb. rewrite Bare.effective_price_eq in Hb by done.
  by injection Hb.
Qed.

Lemma offers_listed lp d f :
  Bare.wf f -> PriceIndexFacts.offers lp d f ->
  PriceIndexFacts.listed lp d (U128x128.to_bytes (Bare.price_val f)).
Proof.
  intros Hf Ho. exists f. split; [done|]. unfold Bare.effective_price_key_bytes.
  by rewrite Bare.effective_price_eq.
Qed.

Lemma offers_wf lp d f : Typed.wf (phi lp) -> PriceIndexFacts.offers lp d f -> Bare.wf f.
Proof.
  intros [Hw _] (_ & [(_ & -> & _)|(_ & -> & _)]); [done | by apply Bare.wf_flip].
Qed.
End Order.

(** ** Properties *)

(** (C5) In every reachable state, also between two phases of the end of a block, the circuit breaker's
    ledger covers, asset by asset, everything the positions hold, and while actions are delivered it
    covers on top of that what the swaps of the block have paid in.  So no sequence of openings,
    withdrawals, rewards, swaps, batches, arbitrages, evictions and closings lets the positions claim
    value the DEX does not have. *)
Theorem ledger_always_covers_positions `{DexEnv} `{StakingToken} params epoch ph b a :
  reachable params epoch (ph, b) ->
  0 <= held a (positions (dex_state b)) <= Vcb.balance a (dex_state b) /\ Vcb.balance a (dex_state b) < 2 ^ 128
  /\ (ph = Delivering ->
        held a (positions (dex_state b)) + owed a (swap_flows (dex_state b)) <= Vcb.balance a (dex_state b)).
Proof.
  intros (Hc & [Ht Hs] & _ & Hf)%reachable_dex. cbn [fst snd] in Hc, Ht, Hs, Hf.
  pose proof (held_nonneg _ a Hc). specialize (Hs a). specialize (Ht a). unfold surplus, in_width in *.
  split_and!; [lia|lia|lia|]. intros ->. destruct (Hf eq_refl) as [_ Ho]. specialize (Ho a). unfold surplus in Ho. lia.
Qed.

(** (C6) The best position of the price index, in every reachable state, is an opened position that
    sells the end asset, and no opened position sells it at a lower effective price; the index has
    no best position exactly when nobody sells. *)
Theorem best_position_is_cheapest `{DexEnv} `{StakingToken} params epoch ph blk d :
  reachable params epoch (ph, blk) ->
  let s := dex_state blk in
  match PriceIndex.best_position d s with
  | Some (id, lp) =>
      positions s !! id = Some lp
      /\ exists f x, PriceIndexFacts.offers lp d f /\ @Bare.effective_price string f = Ok x
           /\ forall id' lp' f', positions s !! id' = Some lp' -> PriceIndexFacts.offers lp' d f' ->
                exists x', @Bare.effective_price string f' = Ok x' /\ x <= x'
  | None => forall id lp f, positions s !! id = Some lp -> ~ PriceIndexFacts.offers lp d f
  end.
Proof.
  intros (Hc & _)%reachable_dex s. cbn in Hc. fold s in Hc.
  assert (Hwf : forall id lp, positions s !! id = Some lp -> Typed.wf (phi lp))
    by (intros id lp Hl; apply (consistent_positions _ Hc id lp Hl)).
  destruct (PriceIndex.best_position d s) as [[id lp]|] eqn:Hb.
  - apply best_position_least in Hb as (b & (f & Hof & Hfb) & Hl & Hmin); [|done].
    split; [done|]. pose proof (offers_wf _ _ _ (Hwf _ _ Hl) Hof) as Hf.
    exists f, (Bare.price_val f). split_and!; [done|by apply Bare.effective_price_eq|].
    intros id' lp' f' Hl' Hof'. pose proof (offers_wf _ _ _ (Hwf _ _ Hl') Hof') as Hf'.
    exists (Bare.price_val f'). split; [by apply Bare.effective_price_eq|].
    specialize (Hmin id' lp' _ Hl' (offers_listed _ _ _ Hf' Hof')).
    rewrite (listed_price lp d b f Hf Hof (proj2 (Hwf _ _ Hl))) in Hmin by (by exists f).
    rewrite U128x128.to_bytes_lex in Hmin by (by apply Bare.price_wf). exact Hmin.
  - intros id lp f Hl Hof. pose proof (offers_wf _ _ _ (Hwf _ _ Hl) Hof) as Hf.
    unfold PriceIndex.best_position in Hb.
    assert (Hin : (id, lp) ∈ PriceIndex.positions_by_price d s).
    { apply PriceIndexFacts.elem_of_positions_by_price; [apply Hc|].
      split; [done|]. eexists. by apply offers_listed. }
    destruct (PriceIndex.positions_by_price d s); [set_solver | done].
Qed.

(** (C7) The counters, liquidity tallies and eviction order of a reachable state are exact functions of
    its positions: the counter of a pair is its number of opened positions, a tally is the sum of
    their inventories (no saturation ever occurs), and the eviction order lists precisely the
    opened positions with their current inventories. *)
Theorem position_indexes_are_exact `{DexEnv} `{StakingToken} params epoch ph b :
  reachable params epoch (ph, b) ->
  let s := dex_state b in
  (forall tp, DexRead.get_position_count tp s
     = map_sum (fun lp => if decide (state lp = PositionState.Opened /\ pair (phi lp) = tp)
                          then 1 else 0) (positions s))
  /\ (forall d, default 0 (base_liquidity s !! d)
     = map_sum (LiquidityFacts.contribution d) (positions s))
  /\ forall d v id, (d, v, id) ∈ inventory_index s <->
       exists lp, positions s !! id = Some lp /\ state lp = PositionState.Opened
         /\ (d = pair_ab lp \/ d = pair_ba lp) /\ PositionOps.reserves_for lp (start d) = Some v.
Proof.
  intros (Hc & _)%reachable_dex s. cbn in Hc. fold s in Hc. split_and!.
  - intros tp. apply (consistent_counter _ Hc).
  - intros d. apply (consistent_liquidity _ Hc).
  - intros d v id. apply (consistent_inventory _ Hc).
Qed.

(** [end_block] expects [close_queued_positions] not to fail: in no reachable state does it; it
    empties the queue and leaves every queued position closed. *)
Theorem closing_the_queue_never_fails `{DexEnv} `{StakingToken} params epoch b :
  reachable params epoch (Ending Closing, b) ->
  exists s', close_queued_positions (dex_state b) = (Ok tt, s')
    /\ pending_position_closures s' = []
    /\ forall id, id ∈ pending_position_closures (dex_state b) ->
         exists lp, positions s' !! id = Some lp /\ state lp = PositionState.Closed.
Proof.
  intros Hinv%reachable_dex.
  destruct (close_queued_total _ _ Hinv) as (s' & ? & _ & ? & _ & ?). eauto.
Qed.

(** Eviction never fails either, whatever the excess, and only closes opened positions. *)
Theorem eviction_never_fails `{DexEnv} `{StakingToken} params epoch b :
  reachable params epoch (Ending Evicting, b) ->
  exists s', evict_positions (dex_state b) = (Ok tt, s')
    /\ forall id lp, positions (dex_state b) !! id = Some lp ->
         exists lp', positions s' !! id = Some lp'
           /\ (lp' = lp \/ (state lp = PositionState.Opened
                          /\ lp' = PositionOps.with_state PositionState.Closed lp)).
Proof.
  intros (Hinv & [p Hp] & _)%block_reachable_invariant. cbn [fst snd] in Hinv, Hp.
  destruct (evict_total _ _ p Hinv Hp) as (s' & ? & _ & ?). eauto.
Qed.

(** A position is never forgotten, never changes its trading function, and only ever moves forward
    through Opened, Closed, Withdrawn 0, Withdrawn 1, ...; so a closed or withdrawn position is
    never traded against again. *)
Theorem positions_only_move_forward `{DexEnv} `{StakingToken} params epoch c c' id lp :
  reachable params epoch c -> rtc step c c' -> positions (dex_state c.2) !! id = Some lp ->
  exists lp', positions (dex_state c'.2) !! id = Some lp' /\ phi lp' = phi lp
    /\ age (state lp) <= age (state lp').
Proof.
  intros Hinv%block_reachable_invariant Hsteps Hl. destruct (steps_ages _ _ Hsteps Hinv id lp Hl) as (lp' & Hl' & ? & ?).
  by exists lp'.
Qed.

(** A withdrawal pays out exactly what the position holds, takes exactly that from the ledger,
    leaves the position empty at the given sequence number, and is accepted only when that number
    continues the position's. *)
Theorem withdrawal_pays_exactly_the_reserves `{DexEnv} `{StakingToken} params epoch ph blk id n b s' :
  let s := dex_state blk in
  reachable params epoch (ph, blk) -> withdraw_position id n s = (Ok b, s') ->
  exists lp, positions s !! id = Some lp
    /\ ((state lp = PositionState.Closed /\ n = 0)
        \/ exists m, state lp = PositionState.Withdrawn m /\ n = m + 1)
    /\ (forall a, Balance.denote b a = PositionOps.holds lp a
                /\ Vcb.balance a s' = Vcb.balance a s - PositionOps.holds lp a)
    /\ exists lp', positions s' !! id = Some lp' /\ state lp' = PositionState.Withdrawn n
                   /\ reserves lp' = ReservesOps.zero.
Proof.
  intros s (Hc & Hs & _)%reachable_dex Hw. cbn in Hc, Hs. fold s in Hc, Hs.
  apply withdraw_spec in Hw as (lp & Hl & Hst & Hb & _ & Hpos & _ & _ & Hbal & _); [|done..].
  exists lp. destruct (consistent_positions _ Hc id lp Hl) as (_ & Hty & _).
  apply ReservesOps.balance_denote in Hb as [_ Hd]; [|apply Hty..].
  split_and!; [done|done|intros a; by rewrite Hd|].
  eexists. split; [rewrite Hpos; apply lookup_insert_eq | done].
Qed.

(** (C8) And it is never refused: whoever closed a position can withdraw it, in any reachable state in
    which actions are delivered. *)
Theorem closed_positions_can_be_withdrawn `{DexEnv} `{StakingToken} params epoch b id lp :
  reachable params epoch (Delivering, b) -> positions (dex_state b) !! id = Some lp ->
  state lp = PositionState.Closed ->
  exists payout s', withdraw_position id 0 (dex_state b) = (Ok payout, s').
Proof.
  intros Hinv%reachable_dex Hl Hst. apply (withdraw_total id lp); [done|done|by left].
Qed.

(** The ranking of routable assets is keyed by the start asset and the liquidity alone: when the
    liquidity of a second pair from the same asset reaches a tally already in the ranking, the
    first end asset disappears from it, although its own tally is unchanged. *)
Theorem liquidity_ranking_collides s s' id a b c t :
  b <> c -> 0 < t < 2 ^ 128 ->
  base_liquidity s !! mkDirected a b = Some t -> base_liquidity s !! mkDirected a c = None ->
  (forall k, routable_assets s !! (a, k) = Some b -> k = StateKey.complement t) ->
  LiquidityIndex.update_asset_by_base_liquidity_index_inner id (mkDirected a c) 0 t s = (Ok tt, s') ->
  b ∉ LiquidityIndex.ordered_routable_assets a s'
  /\ base_liquidity s' !! mkDirected a b = Some t.
Proof.
  intros Hne Ht Hb Hc Hk Hr.
  unfold LiquidityIndex.update_asset_by_base_liquidity_index_inner, bind, gets, modify in Hr.
  rewrite Hc in Hr. cbn [default] in Hr. rewrite saturating_sub_exact in Hr by lia.
  rewrite saturating_add_exact in Hr by lia.
  destruct (Z.eqb_spec 0 (0 - 0 + t)); [lia|]. injection Hr as <-.
  replace (0 - 0 + t) with t by lia. split.
  - unfold LiquidityIndex.ordered_routable_assets. rewrite list_elem_of_fmap.
    intros ([k b'] & -> & Hin). rewrite merge_sort_Permutation in Hin.
    apply list_elem_of_omap in Hin as ([[a' k'] b''] & Hin & Heq). case_decide; simplify_eq.
    apply elem_of_map_to_list in Hin. cbn in Hin. unfold StateKey.routable_assets_key in Hin.
    apply lookup_insert_Some in Hin as [[_ ?]|[Hne' Hin]]; [done|].
    apply lookup_delete_Some in Hin as [_ Hin]. by rewrite (Hk _ Hin) in Hne'.
  - cbn. rewrite lookup_insert_ne; [done|]. congruence.
Qed.

(** ** Witnesses: a block on a concrete chain *)

#[local] Existing Instance sample_env.
#[local] Instance sample_token : StakingToken := {| STAKING_TOKEN_ASSET_ID := 100 |}.

Definition sample_params : DexParameters := mkDexParameters true [100] 4 1 64.

(** Two positions on the pair (1, 2), a swap of both assets, and one position queued for closing. *)
Definition cheap_position : Position :=
  PositionOps.new_with_nonce [4] (mkDirected 1 2) 30 3 2 (mkReserves 400 900).
Definition sample_id : position_id := PositionOps.id sample_position.

Definition in_block {A} (m : dex A) (b : Block) : Block := mkBlock (ran m (dex_state b)) (fee_state b).

Definition block_0 : Block := genesis sample_params sample_epoch.
Definition block_1 : Block := in_block (position_open_check_and_execute sample_position) block_0.
Definition block_2 : Block := in_block (position_open_check_and_execute cheap_position) block_1.
Definition block_3 : Block := in_block (DexWrite.accumulate_swap_flow (mkPair 1 2) (10, 5)) block_2.
Definition block_4 : Block := in_block (position_close_check_and_execute sample_id) block_3.
Definition block_5 : Block := (Dex.end_block 0 block_4).2.
Definition block_6 : Block := mkBlock (commit_dex (dex_state block_5)) (commit_fees (fee_state block_5)).

Lemma delivered_block {A} params epoch (m : dex A) b a :
  (forall s s', m s = (Ok a, s') -> delivers s s') -> (m (dex_state b)).1 = Ok a ->
  reachable params epoch (Delivering, b) -> reachable params epoch (Delivering, in_block m b).
Proof.
  intros Hd Hok Hr. eapply rtc_r; [exact Hr|]. destruct b as [s f]. apply step_deliver, Hd. by apply ran_ok.
Qed.

Lemma reach_2 : reachable sample_params sample_epoch (Delivering, block_2).
Proof.
  unfold block_2. apply (delivered_block _ _ _ _ tt); [intros s s' Hr; by apply (deliver_open cheap_position)|vm_compute; reflexivity|].
  unfold block_1. apply (delivered_block _ _ _ _ tt); [intros s s' Hr; by apply (deliver_open sample_position)|vm_compute; reflexivity|].
  apply rtc_refl.
Qed.

Lemma reach_4 : reachable sample_params sample_epoch (Delivering, block_4).
Proof.
  unfold block_4. apply (delivered_block _ _ _ _ tt); [intros s s'; apply deliver_queue|vm_compute; reflexivity|].
  unfold block_3. apply (delivered_block _ _ _ _ tt); [intros s s'; by apply deliver_inflow|vm_compute; reflexivity|].
  exact reach_2.
Qed.

Lemma balances_bound s n :
  bool_decide (map_Forall (fun _ v => 0 <= v <= n) (value_balances s)) = true -> 0 <= n ->
  forall c, 0 <= Vcb.balance c s <= n.
Proof.
  intros Hall Hn c. apply bool_decide_eq_true in Hall. unfold Vcb.balance.
  change (get_vcb_for_asset c s) with (value_balances s !! c).
  destruct (value_balances s !! c) as [v|] eqn:Hv; cbn [default from_option id]; [exact (Hall c v Hv)|lia].
Qed.

Lemma room_4 : room 0 sample_params (dex_state block_4) (fee_state block_4).
Proof.
  split.
  - vm_compute. reflexivity.
  - by_computation.
  - exists sample_epoch. split; [vm_compute; reflexivity|by_computation].
  - assert (He : btree_items (fee_accumulator (fee_state block_4)) = []) by (vm_compute; reflexivity).
    rewrite He. intros c. assert (H : 0 <= Vcb.balance c (dex_state block_4) <= 5000).
    { apply balances_bound; [vm_compute; reflexivity|lia]. }
    assert (2 * MAX_RESERVE_AMOUNT + 6000 <= ledger_cap) by by_computation. change (fee_list c []) with 0. lia.
  - by_computation.
Qed.

Lemma ran_block {A} (m : blockwise A) b a : (m b).1 = Ok a -> m b = (Ok a, (m b).2).
Proof. destruct (m b). cbn. congruence. Qed.

Lemma ended_4 : Dex.end_block 0 block_4 = (Ok tt, block_5).
Proof. unfold block_5. apply ran_block. vm_compute. reflexivity. Qed.

Lemma steps_4_5 : rtc step (Delivering, block_4) (Ending Done, block_5).
Proof.
  exact (end_block_steps 0 sample_params block_4 block_5 (block_reachable_invariant _ _ _ reach_4) room_4 ended_4).
Qed.

Lemma reach_5 : reachable sample_params sample_epoch (Ending Done, block_5).
Proof. exact (transitivity reach_4 steps_4_5). Qed.

Lemma committed params epoch b :
  reachable params epoch (Ending Done, b) ->
  reachable params epoch (Delivering, mkBlock (commit_dex (dex_state b)) (commit_fees (fee_state b))).
Proof. intros Hr. eapply rtc_r; [exact Hr|]. destruct b. apply step_commit. Qed.

Lemma reach_6 : reachable sample_params sample_epoch (Delivering, block_6).
Proof. exact (committed _ _ _ reach_5). Qed.

(** After a block with a batch, an arbitrage and a closing. *)
Lemma ledger_always_covers_positions_witness :
  swap_flows (dex_state block_4) !! mkPair 1 2 = Some (10, 5)
  /\ held 1 (positions (dex_state block_5)) = 907
  /\ 0 <= held 1 (positions (dex_state block_5)) <= Vcb.balance 1 (dex_state block_5)
  /\ held 1 (positions (dex_state block_4)) + owed 1 (swap_flows (dex_state block_4)) <= Vcb.balance 1 (dex_state block_4).
Proof.
  split; [vm_compute; reflexivity|]. split; [vm_compute; reflexivity|]. split.
  - exact (proj1 (ledger_always_covers_positions sample_params sample_epoch (Ending Done) block_5 1 reach_5)).
  - exact (proj2 (proj2 (ledger_always_covers_positions sample_params sample_epoch Delivering block_4 1 reach_4)) eq_refl).
Defined.

Lemma best_position_is_cheapest_witness :
  PriceIndex.best_position (mkDirected 1 2) (dex_state block_2)
    = Some (PositionOps.id cheap_position, cheap_position)
  /\ positions (dex_state block_2) !! PositionOps.id cheap_position = Some cheap_position.
Proof.
  assert (Hb : PriceIndex.best_position (mkDirected 1 2) (dex_state block_2)
    = Some (PositionOps.id cheap_position, cheap_position)) by (vm_compute; reflexivity).
  split; [exact Hb|].
  pose proof (best_position_is_cheapest sample_params sample_epoch Delivering block_2 (mkDirected 1 2) reach_2)
    as Hp.
  cbv zeta in Hp. rewrite Hb in Hp. exact (proj1 Hp).
Defined.

Lemma position_indexes_are_exact_witness :
  DexRead.get_position_count (mkPair 1 2) (dex_state block_5) = 1
  /\ default 0 (base_liquidity (dex_state block_5) !! mkDirected 2 1)
     = map_sum (LiquidityFacts.contribution (mkDirected 2 1)) (positions (dex_state block_5)).
Proof.
  split; [vm_compute; reflexivity|].
  exact (proj1 (proj2 (position_indexes_are_exact sample_params sample_epoch (Ending Done) block_5 reach_5))
    (mkDirected 2 1)).
Defined.

Lemma positions_only_move_forward_witness :
  exists lp', positions (dex_state (Ending Done, block_5).2) !! sample_id = Some lp'
    /\ phi lp' = phi sample_position /\ age (state sample_position) <= age (state lp').
Proof.
  assert (Hl4 : exists lp, positions (dex_state (Delivering, block_4).2) !! sample_id = Some lp
    /\ phi lp = phi sample_position /\ state lp = PositionState.Opened).
  { exists sample_position. split; [vm_compute; reflexivity|]. by split. }
  destruct Hl4 as (lp & Hlp & Hphi & Hst).
  destruct (positions_only_move_forward sample_params sample_epoch (Delivering, block_4) (Ending Done, block_5)
    sample_id lp reach_4 steps_4_5 Hlp) as (lp' & Hl' & Hp' & Ha).
  exists lp'. rewrite Hst in Ha. split; [exact Hl'|]. split; [by rewrite Hp'|exact Ha].
Defined.

Definition closed_sample : option Position := positions (dex_state block_6) !! sample_id.

Lemma closed_stored : exists lp, positions (dex_state block_6) !! sample_id = Some lp /\ state lp = PositionState.Closed.
Proof.
  assert (H : match closed_sample with Some lp => bool_decide (state lp = PositionState.Closed) | None => false end = true)
    by (vm_compute; reflexivity).
  unfold closed_sample in H. destruct (positions (dex_state block_6) !! sample_id) as [lp|]; [|done].
  exists lp. split; [done|]. by apply bool_decide_eq_true in H.
Qed.

Lemma withdrawal_pays_exactly_the_reserves_witness :
  exists b s', withdraw_position sample_id 0 (dex_state block_6) = (Ok b, s')
    /\ exists lp, positions (dex_state block_6) !! sample_id = Some lp
         /\ forall a, Balance.denote b a = PositionOps.holds lp a.
Proof.
  set (r := (withdraw_position sample_id 0 (dex_state block_6)).1).
  set (b := match r with Ok b => b | _ => Balance.zero end).
  assert (Hb : r = Ok b) by (vm_compute; reflexivity).
  exists b, (ran (withdraw_position sample_id 0) (dex_state block_6)).
  assert (Hw : withdraw_position sample_id 0 (dex_state block_6)
    = (Ok b, ran (withdraw_position sample_id 0) (dex_state block_6))) by (apply ran_ok; exact Hb).
  split; [exact Hw|].
  destruct (withdrawal_pays_exactly_the_reserves sample_params sample_epoch Delivering block_6 sample_id 0 b _
    reach_6 Hw) as (lp & Hl & _ & Hd & _).
  exists lp. split; [exact Hl | exact (fun a => proj1 (Hd a))].
Defined.

Lemma closed_positions_can_be_withdrawn_witness :
  exists payout s', withdraw_position sample_id 0 (dex_state block_6) = (Ok payout, s').
Proof.
  destruct closed_stored as (lp & Hl & Hst).
  exact (closed_positions_can_be_withdrawn sample_params sample_epoch block_6 sample_id lp reach_6 Hl Hst).
Defined.

(** Assets 2 and 3 end up with the same liquidity against asset 1. *)
Definition ranked : DexState :=
  ran (LiquidityIndex.update_asset_by_base_liquidity_index_inner 7 (mkDirected 1 2) 0 50) (dex_state block_0).
Definition collided : DexState :=
  ran (LiquidityIndex.update_asset_by_base_liquidity_index_inner 8 (mkDirected 1 3) 0 50) ranked.

Lemma liquidity_ranking_collides_witness :
  LiquidityIndex.ordered_routable_assets 1 ranked = [2]
  /\ LiquidityIndex.ordered_routable_assets 1 collided = [3]
  /\ 2 ∉ LiquidityIndex.ordered_routable_assets 1 collided
  /\ base_liquidity collided !! mkDirected 1 2 = Some 50.
Proof.
  split; [vm_compute; reflexivity|]. split; [vm_compute; reflexivity|].
  apply (liquidity_ranking_collides ranked collided 8 1 2 3 50).
  - discriminate.
  - by_computation.
  - vm_compute. reflexivity.
  - vm_compute. reflexivity.
  - intros k Hk. change (routable_assets ranked) with ({[ (1, StateKey.complement 50) := 2 ]} :
      gmap (Z * Z) Z) in Hk.
    apply lookup_singleton_Some in Hk as [[= <-] _]. reflexivity.
  - apply ran_ok. vm_compute. reflexivity.
Defined.
