(* ===== verification/RouterTheorems.v ===== *)
(** * Correctness of trading

    The theorems about filling routes, batch swaps, arbitrage and the end of a block, and their
    witnesses on the network of [PathTheorems]. *)

From S2P Require Import Prelude.
From S2P Require Import Num.
From S2P Require Import Asset.
From S2P Require Import TradingFunction.
From S2P Require Import Position.
From S2P Require Import Vcb.
From S2P Require Import DexState.
From S2P Require Import Indexes.
From S2P Require Import PositionManager.
From S2P Require Import PositionFacts.
From S2P Require Import DexMachine.
From S2P Require Import DexTheorems.
From S2P Require Import Path.
From S2P Require Import PathTheorems.
From S2P Require Import Router.
From S2P Require Import RouterFacts.
From S2P Require Import FillFacts.
From S2P Require Import FillLoop.
From S2P Require Import FillRouteFacts.
From S2P Require Import RouteSpec.
From S2P Require Import RoutingFacts.
From S2P Require Import SettlementFacts.
From S2P Require Import Fee.
From S2P Require Import EndBlock.
From S2P Require Import EndBlockFacts.
From S2P Require Import BlockMachine.

(** ** Properties *)

(** One iteration of a fill never panics, neither while it computes the trade nor while it applies
    it.  It fails only because a position on the frontier overflows, which it names.  Otherwise it
    trades along the whole route, takes at most the input, moves value between the positions without
    creating or losing any, in every asset, and uses up the input or one of the positions. *)
Theorem fill_iteration_sound `{DexEnv} f a x :
  aligned a f -> half x ->
  (exists lp, FillRoute.next_tx f (mkValue x a) = Err (ExecutionOverflow (PositionOps.id lp))
     /\ lp ∈ Frontier.positions f)
  \/ exists c tx f' x' y', FillRoute.next_tx f (mkValue x a) = Ok (c, tx)
       /\ Frontier.apply tx f = Ok (f', (x', y')) /\ x' <= x
       /\ (forall b, list_sum ((fun lp => PositionOps.holds lp b) <$> Frontier.positions f')
             = list_sum ((fun lp => PositionOps.holds lp b) <$> Frontier.positions f)
               + Typed.carries (mkValue x' a) b
               - Typed.carries (mkValue y' (route_end a (Frontier.pairs f))) b)
       /\ match c with
          | None => x' = x
          | Some k => exhausted f' k
          end.
Proof.
  intros Ha Hx. destruct (next_tx_spec f a x Ha Hx) as [Herr|(c & x' & xs & ps' & Hn & Ht & Hle & Hc)]; [by left|right].
  exists c, (FrontierTx.mk (recorded ps') (Some <$> x' :: xs)). eexists _, x', (List.last (x' :: xs) 0).
  split_and!; [exact Hn|by apply apply_spec|done| |].
  - intros b. apply (trades_conserve _ _ _ _ _ b a Ht); apply Ha.
  - destruct c as [k|]; [|done]. destruct Hc as (lp & d & ? & ? & ?). by exists lp, d.
Qed.

(** (C12) [fill_route] always returns: the fuel that bounds its loop suffices.  On a ledger far from the
    limits of the arithmetic it either fails, for a reason that the caller can act on, and leaves no
    trace, or it takes at most the input and the positions' total changes by exactly what the
    execution reports, while nothing but the positions, their indexes and the events changes. *)
Theorem fill_route_contract `{DexEnv} s a x hops spill :
  consistent s -> is_Some (current_epoch s) -> affordable s a x -> 0 <= x ->
  (exists e, FillRoute.fill_route (mkValue x a) hops spill s = (Err e, s) /\ fill_error s a hops e)
  \/ exists e s' x' y', FillRoute.fill_route (mkValue x a) hops spill s = (Ok e, s')
       /\ input e = mkValue x' a /\ 0 <= x' <= x
       /\ output e = mkValue y' (List.last hops a) /\ 0 <= y'
       /\ consistent s' /\ outside s' = outside s /\ evolved s s'
       /\ forall b, held b (positions s')
            = held b (positions s) + Typed.carries (input e) b - Typed.carries (output e) b.
Proof.
  intros Hc Hep Haff Hx. destruct (fill_route_spec s a x hops spill Hc Hep Haff Hx)
    as [Herr|(e & s' & Hr & [(x' & Hin & Hx') (y' & Hout & Hy') [T1 T2 T3 T4] _ _])]; [by left|right].
  exists e, s', x', y'. split_and!; try done; lia.
Qed.

(** (C13) "Handling batch swaps is infallible", says the [expect] of [end_block]: it is.  The search only
    reports routes for which the frontier can be loaded, positions that overflow are closed and
    skipped, the number of rounds is bounded, and the circuit breaker covers the payout.  The batch
    that is published is exactly what happened: asset by asset the positions take in the inputs less
    what it records as unfilled and give up what it records as outputs, and the ledger pays out the
    recorded outputs and unfilled inputs.  So the ledger's surplus falls by the batch's input and by
    nothing else. *)
Theorem batches_settle_exactly `{DexEnv} s tp d1 d2 h params budget :
  consistent s -> Vcb.balances_typed s -> is_u128 d1 -> is_u128 d2 -> funded s tp d1 d2 ->
  moderate_ledger s tp -> epoch_fits s h -> is_u32 budget ->
  exists bsod s', RouteAndFill.handle_batch_swaps tp (d1, d2) h params budget s = (Ok bsod, s')
    /\ consistent s' /\ Vcb.balances_typed s'
    /\ output_data_at s' !! (h, tp) = Some bsod
    /\ trading_pair bsod = tp /\ height bsod = h /\ delta_1 bsod = d1 /\ delta_2 bsod = d2
    /\ 0 <= unfilled_1 bsod <= d1 /\ 0 <= unfilled_2 bsod <= d2 /\ 0 <= lambda_1 bsod /\ 0 <= lambda_2 bsod
    /\ (forall c, held c (positions s') = held c (positions s)
          + Typed.carries (mkValue (d1 - unfilled_1 bsod) (asset_1 tp)) c
          + Typed.carries (mkValue (d2 - unfilled_2 bsod) (asset_2 tp)) c
          - Typed.carries (mkValue (lambda_1 bsod) (asset_1 tp)) c
          - Typed.carries (mkValue (lambda_2 bsod) (asset_2 tp)) c)
    /\ (forall c, Vcb.balance c s' = Vcb.balance c s
          - Typed.carries (mkValue (unfilled_1 bsod + lambda_1 bsod) (asset_1 tp)) c
          - Typed.carries (mkValue (unfilled_2 bsod + lambda_2 bsod) (asset_2 tp)) c)
    /\ (forall c, surplus c s' = surplus c s - Typed.carries (mkValue d1 (asset_1 tp)) c
                                   - Typed.carries (mkValue d2 (asset_2 tp)) c).
Proof.
  intros Hc Hty H1 H2 Hf Hm He Hb.
  destruct (handle_batch_swaps_spec s tp d1 d2 h params budget Hc Hty H1 H2 Hf Hm He Hb) as (b & s' & Hr & S).
  exists b, s'. pose proof S as [S1 S2 S3 (K1 & K2 & K3 & K4) [S4 S5] [L1 L2] _ _ P Q S6].
  split_and!; try done; try lia; intros c; [rewrite Q|rewrite P|rewrite S3]; unfold batch_out; lia.
Qed.

(** (C14) An arbitrage is kept only when it makes a profit, and then the profit comes out of the positions
    and leaves through the circuit breaker, so the surplus that covers everyone else is untouched;
    otherwise the state is as before.  It never fails. *)
Theorem arbitrage_keeps_the_books `{DexEnv} a params p s :
  consistent s -> solvent s -> is_Some (current_epoch s) -> affordable s a RouteAndFill.flash_loan ->
  dex_params s = Some p -> is_u32 (max_execution_budget p) ->
  RouteAndFill.arbitrage a params s = (Ok None, s)
  \/ exists profit s', RouteAndFill.arbitrage a params s = (Ok (Some (mkValue profit a)), s')
       /\ 0 < profit /\ consistent s' /\ solvent s'
       /\ (forall c, surplus c s' = surplus c s)
       /\ (forall c, held c (positions s') = held c (positions s) - Typed.carries (mkValue profit a) c).
Proof.
  intros Hc Hs Hep Haff Hp Hb.
  destruct (arbitrage_spec a params p s Hc Hs Hep Haff Hp Hb) as [Hr|(x & s' & Hr & [A1 A2 A3 A4 A5 _ _ _])];
    [by left|right].
  exists x, s'. split_and!; try done. split; [done|]. intros c. rewrite A5. apply Hs.
Qed.

(** (C15) The end of a block never fails: every [expect] of it holds.  It leaves a sound ledger that covers
    its positions and an empty queue of closures, and whatever tokens the fees were paid in, the fee
    component ends up with native tokens only. *)
Theorem end_block_never_fails `{DexEnv} `{StakingToken} h p b :
  ready h p b ->
  exists b', Dex.end_block h b = (Ok tt, b')
    /\ consistent (dex_state b') /\ solvent (dex_state b')
    /\ pending_position_closures (dex_state b') = []
    /\ forall a fee, fee_accumulator (fee_state b') !! a = Some fee -> a = STAKING_TOKEN_ASSET_ID.
Proof.
  intros Hr. destruct (end_block_spec h p b Hr) as (b' & He & (Hc & Hs & _) & Hq & n & Hn).
  exists b'. split_and!; try done. intros a [x y] Ha. by destruct (Hn a x y Ha).
Qed.

(** ** Witnesses *)

#[local] Existing Instance sample_env.

(** A bound on what any asset's positions hold, by adding up both reserves of every position. *)
Lemma held_le_total s b :
  consistent s -> held b (positions s) <= map_sum (fun lp => r1 (reserves lp) + r2 (reserves lp)) (positions s).
Proof.
  intros Hc. apply map_sum_le. intros i lp Hl.
  destruct (all_sound _ (consistent_positions _ Hc) i lp Hl) as (H1 & H2 & _).
  unfold PositionOps.holds, ReservesOps.holds. repeat case_decide; lia.
Qed.

Lemma network_held b : held b (positions network) <= 4000.
Proof.
  etransitivity; [exact (held_le_total network b network_consistent)|].
  assert (H : (map_sum (fun lp => r1 (reserves lp) + r2 (reserves lp)) (positions network) <=? 4000) = true)
    by (vm_compute; reflexivity).
  by apply Z.leb_le.
Qed.

Lemma network_affordable a x : x <= 2 ^ 100 -> 0 <= x -> affordable network a x.
Proof.
  intros Hx H0 c. pose proof (network_held c). rewrite carries_amount. unfold ledger_cap. case_decide; lia.
Qed.

Lemma network_epoch : is_Some (current_epoch network).
Proof.
  assert (H : current_epoch network = Some sample_epoch) by (vm_compute; reflexivity). exact (mk_is_Some _ _ H).
Qed.

Definition sample_frontier : Frontier.t :=
  Frontier.mk [mkDirected 1 2; mkDirected 2 4] [seller 1 1 2 1; seller 4 2 4 1] ∅ ∅ [].

Lemma serves_1_2 : serves (seller 1 1 2 1) (mkDirected 1 2).
Proof. split; [by_computation | left; vm_compute; reflexivity | by_computation | by_computation]. Qed.

Lemma serves_2_4 : serves (seller 4 2 4 1) (mkDirected 2 4).
Proof. split; [by_computation | left; vm_compute; reflexivity | by_computation | by_computation]. Qed.

Lemma sample_aligned : aligned 1 sample_frontier.
Proof.
  split; [|done|done]. apply Forall2_cons. split; [exact serves_1_2|].
  apply Forall2_cons. split; [exact serves_2_4|]. by apply Forall2_nil.
Qed.

Lemma fill_iteration_sound_witness :
  half 10 /\ (forall b, exists c tx f' x' y', FillRoute.next_tx sample_frontier (mkValue 10 1) = Ok (c, tx)
    /\ Frontier.apply tx sample_frontier = Ok (f', (x', y')) /\ x' <= 10
    /\ list_sum ((fun lp => PositionOps.holds lp b) <$> Frontier.positions f')
       = list_sum ((fun lp => PositionOps.holds lp b) <$> Frontier.positions sample_frontier)
         + Typed.carries (mkValue x' 1) b - Typed.carries (mkValue y' 4) b).
Proof.
  assert (Hh : half 10) by (unfold half; lia). split; [exact Hh|]. intros b.
  destruct (fill_iteration_sound sample_frontier 1 10 sample_aligned Hh)
    as [(lp & Hn & _)|(c & tx & f' & x' & y' & Hn & Ha & Hx & Hb & _)].
  - exfalso. assert (Hok : match FillRoute.next_tx sample_frontier (mkValue 10 1) with Ok _ => true | _ => false end = true)
      by (vm_compute; reflexivity). rewrite Hn in Hok. discriminate Hok.
  - exists c, tx, f', x', y'. exact (conj Hn (conj Ha (conj Hx (Hb b)))).
Defined.

Lemma fill_route_contract_witness :
  exists e s', FillRoute.fill_route (mkValue 10 1) [2; 4] None network = (Ok e, s')
    /\ output e = mkValue 10 4
    /\ forall b, held b (positions s')
         = held b (positions network) + Typed.carries (input e) b - Typed.carries (output e) b.
Proof.
  set (r := FillRoute.fill_route (mkValue 10 1) [2; 4] None network).
  assert (Ho : match r.1 with Ok e => bool_decide (output e = mkValue 10 4) | _ => false end = true)
    by (vm_compute; reflexivity).
  assert (Hx : 0 <= 10) by lia.
  assert (Haff : affordable network 1 10) by (apply network_affordable; lia).
  destruct (fill_route_contract network 1 10 [2; 4] None network_consistent network_epoch Haff Hx)
    as [(e & Hr & _)|(e & s' & x' & y' & Hr & _ & _ & _ & _ & _ & _ & _ & Hh)]; fold r in Hr; rewrite Hr in Ho.
  - discriminate Ho.
  - exists e, s'. cbn [fst] in Ho. apply bool_decide_eq_true in Ho. exact (conj Hr (conj Ho Hh)).
Defined.

(** *** A block: the network, a swap flow, and fees in the native token 1 and in token 3. *)

#[local] Instance sample_token : StakingToken := {| STAKING_TOKEN_ASSET_ID := 1 |}.

Definition network_dex_params : DexParameters := mkDexParameters true [1; 2; 3; 4] 4 1 64.
Definition sample_pair : TradingPair := mkPair 1 2.
Definition funded_network : DexState := ran (DexWrite.accumulate_swap_flow sample_pair (10, 5)) network.
Definition sample_fees : FeeState := mkFeeState None false {[ 1 := (3, 1); 3 := (7, 2) ]} [].
Definition sample_block : Block := mkBlock funded_network sample_fees.

Lemma funded_run : DexWrite.accumulate_swap_flow sample_pair (10, 5) network = (Ok tt, funded_network).
Proof. unfold funded_network. apply ran_ok. vm_compute. reflexivity. Qed.

Lemma funded_sound : DexMachine.invariant (DexMachine.Delivering, funded_network).
Proof.
  apply (DexMachine.delivers_invariant network); [exact network_sound|].
  apply (DexMachine.deliver_inflow sample_pair (10, 5)); [by_computation|by_computation|exact funded_run].
Qed.

Lemma funded_surplus c : surplus c funded_network = surplus c network + batch_out sample_pair 10 5 c.
Proof.
  destruct (DexMachine.inflow_ok sample_pair (10, 5) network tt funded_network) as (_ & _ & _ & _ & H);
    [by_computation|by_computation|exact (proj1 network_solvent)|exact funded_run|].
  exact (H c).
Qed.

Lemma funded_balance c : 0 <= Vcb.balance c funded_network <= 5000.
Proof. apply balances_bound; [vm_compute; reflexivity|lia]. Qed.

Lemma funded_consistent : consistent funded_network.
Proof. exact (DexMachine.invariant_consistent _ _ funded_sound). Qed.

Lemma funded_solvent : solvent funded_network.
Proof. exact (DexMachine.invariant_solvent _ _ funded_sound). Qed.

Lemma funded_covers : funded funded_network sample_pair 10 5.
Proof.
  intros c. rewrite funded_surplus. pose proof (proj2 network_solvent c). unfold batch_out. lia.
Qed.

Lemma funded_held c : 0 <= held c (positions funded_network) <= 5000.
Proof.
  split; [exact (held_nonneg _ c funded_consistent)|]. pose proof (proj2 funded_solvent c) as Hs.
  pose proof (funded_balance c). unfold surplus in Hs. lia.
Qed.

Lemma funded_epoch : epoch_fits funded_network 0.
Proof.
  exists sample_epoch. split; [vm_compute; reflexivity|]. by_computation.
Qed.

Lemma funded_moderate : moderate_ledger funded_network sample_pair.
Proof.
  intros c. pose proof (funded_held c). rewrite !carries_amount.
  assert (0 <= MAX_RESERVE_AMOUNT /\ 2 * MAX_RESERVE_AMOUNT + 5000 <= ledger_cap) by (split; by_computation).
  repeat case_decide; lia.
Qed.

Lemma batches_settle_exactly_witness :
  exists bsod s', RouteAndFill.handle_batch_swaps sample_pair (10, 5) 0 network_params 64 funded_network = (Ok bsod, s')
    /\ lambda_2 bsod = 10 /\ unfilled_1 bsod = 0 /\ lambda_1 bsod = 5 /\ unfilled_2 bsod = 0
    /\ held 2 (positions s') = held 2 (positions funded_network) - 5
    /\ Vcb.balance 2 s' = Vcb.balance 2 funded_network - 10
    /\ output_data_at s' !! (0, sample_pair) = Some bsod.
Proof.
  assert (H10 : is_u128 10) by by_computation. assert (H5 : is_u128 5) by by_computation.
  assert (H64 : is_u32 64) by by_computation.
  set (r := RouteAndFill.handle_batch_swaps sample_pair (10, 5) 0 network_params 64 funded_network).
  assert (Ho : match r.1 with
    | Ok b => bool_decide (lambda_2 b = 10 /\ unfilled_1 b = 0 /\ lambda_1 b = 5 /\ unfilled_2 b = 0)
    | _ => false end = true) by (vm_compute; reflexivity).
  destruct (batches_settle_exactly funded_network sample_pair 10 5 0 network_params 64 funded_consistent
    (proj1 funded_solvent) H10 H5 funded_covers funded_moderate funded_epoch H64)
    as (b & s' & Hr & _ & _ & Hout & _ & _ & _ & _ & _ & _ & _ & _ & Hheld & Hbal & _).
  fold r in Hr. rewrite Hr in Ho. cbn [fst] in Ho. apply bool_decide_eq_true in Ho. destruct Ho as (L2 & U1 & L1 & U2).
  exists b, s'. split; [exact Hr|]. split; [exact L2|]. split; [exact U1|]. split; [exact L1|]. split; [exact U2|].
  specialize (Hheld 2). specialize (Hbal 2). rewrite L1, L2, U1, U2 in Hheld, Hbal.
  change (asset_1 sample_pair) with 1 in Hheld, Hbal. change (asset_2 sample_pair) with 2 in Hheld, Hbal.
  rewrite !carries_amount in Hheld. rewrite !carries_amount in Hbal.
  destruct (decide (1 = 2)) as [?|_]; [lia|]. destruct (decide (2 = 2)) as [_|?]; [|lia].
  split; [lia|]. split; [lia|exact Hout].
Defined.

Lemma arbitrage_keeps_the_books_witness :
  exists r s', RouteAndFill.arbitrage 1 network_params network = (Ok r, s')
    /\ forall c, surplus c s' = surplus c network.
Proof.
  assert (Ha : affordable network 1 RouteAndFill.flash_loan) by (apply network_affordable; by_computation).
  assert (Hp : dex_params network = Some network_dex_params) by (vm_compute; reflexivity).
  assert (Hb : is_u32 (max_execution_budget network_dex_params)) by by_computation.
  destruct (arbitrage_keeps_the_books 1 network_params network_dex_params network network_consistent
    network_solvent network_epoch Ha Hp Hb) as [Hr|(x & s' & Hr & _ & _ & _ & Hs & _)].
  - exists None, network. exact (conj Hr (fun c => eq_refl)).
  - exists (Some (mkValue x 1)), s'. exact (conj Hr Hs).
Defined.

Lemma sample_flows : swap_flows funded_network = {[ sample_pair := (10, 5) ]}.
Proof. vm_compute. reflexivity. Qed.

Lemma sample_fee_items : btree_items (fee_accumulator sample_fees) = [(1, (3, 1)); (3, (7, 2))].
Proof. vm_compute. reflexivity. Qed.

Lemma sample_ready : ready 0 network_dex_params sample_block.
Proof.
  split; cbn [dex_state fee_state sample_block].
  - exact funded_sound.
  - vm_compute. reflexivity.
  - by_computation.
  - exact funded_epoch.
  - rewrite sample_fee_items. repeat (apply Forall_cons; split; [by_computation|]). apply Forall_nil_2.
  - intros c. rewrite sample_fee_items. pose proof (funded_balance c).
    rewrite !fee_list_cons. change (fee_list c []) with 0. cbn [fst snd].
    assert (2 * MAX_RESERVE_AMOUNT + 6000 <= ledger_cap) by by_computation.
    repeat case_decide; lia.
  - vm_compute. reflexivity.
Qed.

Lemma end_block_never_fails_witness :
  exists b', Dex.end_block 0 sample_block = (Ok tt, b')
    /\ solvent (dex_state b')
    /\ forall a fee, fee_accumulator (fee_state b') !! a = Some fee -> a = 1.
Proof.
  destruct (end_block_never_fails 0 network_dex_params sample_block sample_ready)
    as (b' & Hr & _ & Hs & _ & Hf).
  exists b'. exact (conj Hr (conj Hs Hf)).
Defined.
