(* ===== verification/Auction.v ===== *)
(** * Dutch auctions

    Models crates/core/component/auction: the description and the state of a Dutch auction
    (auction/dutch.rs and its actions/), the trigger arithmetic (component/trigger_data.rs), the
    component's own ledger (component/auction.rs), the manager that schedules, executes, ends and
    withdraws auctions (component/dutch_auction.rs), and the action handlers.  An auction sells its
    input by deploying, at every step, a position on the DEX that is cheaper than the last one, so
    the operations run on the states of both components. *)

From S2P Require Import Prelude.
From S2P Require Import Num.
From S2P Require Import Asset.
From S2P Require Import TradingFunction.
From S2P Require Import Position.
From S2P Require Import Vcb.
From S2P Require Import DexState.
From S2P Require Import Indexes.
From S2P Require Import PositionManager.

(** An [AuctionId] is 32 bytes, read as a big-endian integer. *)
Abbreviation auction_id := Z.

(** Code outside the repository: the two personalised blake2b hashes, truncated to 32 bytes; the
    bech32m text of an id, which is how ids are ordered under a trigger's prefix; and the asset id
    of the denomination "auctionnft_{seq}_{id}". *)
Class AuctionEnv := {
  auction_hash : list Z -> auction_id;
  position_nonce_hash : list Z -> list Z;
  auction_id_text : auction_id -> list Z;
  auction_nft_asset_id : auction_id -> Z -> asset_id;
}.

(** Collisions of the two hashes that derive position identifiers are not expected. *)
Class CollisionFree `{DexEnv} `{AuctionEnv} : Prop := {
  lp_hash_injective x y : lp_hash x = lp_hash y -> x = y;
  position_nonce_injective x y : position_nonce_hash x = position_nonce_hash y -> x = y;
}.

(** ** Data *)

Record DutchAuctionDescription := mkDescription {
  auction_input : Value;
  output_id : asset_id;
  max_output : Z;
  min_output : Z;
  auction_start_height : Z;
  auction_end_height : Z;
  step_count : Z;
  auction_nonce : list Z;
}.

Record DutchAuctionState := mkDutchState {
  sequence : Z;
  current_position : option position_id;
  next_trigger : option Z;
  input_reserves : Z;
  output_reserves : Z;
}.

Record DutchAuction := mkAuction {
  description : DutchAuctionDescription;
  auction_state : DutchAuctionState;
}.

Inductive EndReason := ClosedByOwner | Expired | Filled.

Inductive AuctionEvent :=
| EventDutchAuctionScheduled (id : auction_id) (d : DutchAuctionDescription)
| EventDutchAuctionUpdated (id : auction_id) (st : DutchAuctionState)
| EventDutchAuctionEnded (id : auction_id) (st : DutchAuctionState) (reason : EndReason)
| EventDutchAuctionWithdrawn (id : auction_id) (st : DutchAuctionState)
| EventAuctionVcb (e : VcbEvent).

Record AuctionState := mkAuctionState {
  auction_store : gmap auction_id DutchAuction;
  triggers : gset (Z * auction_id);
  auction_balances : gmap asset_id Z;
  auction_events : list AuctionEvent;
}.

Definition set_auction_store v (s : AuctionState) : AuctionState :=
  mkAuctionState v (triggers s) (auction_balances s) (auction_events s).
Definition set_triggers v (s : AuctionState) : AuctionState :=
  mkAuctionState (auction_store s) v (auction_balances s) (auction_events s).
Definition set_auction_balances v (s : AuctionState) : AuctionState :=
  mkAuctionState (auction_store s) (triggers s) v (auction_events s).
Definition record_auction_event (e : AuctionEvent) (s : AuctionState) : AuctionState :=
  mkAuctionState (auction_store s) (triggers s) (auction_balances s) (auction_events s ++ [e]).

(** The states of the two components. *)
Record Chain := mkChain { dex_of : DexState; auction_of : AuctionState }.

Abbreviation auctions := (comp Chain string).

Definition on_dex {A} (m : dex A) : auctions A := fun c =>
  let '(r, s) := m (dex_of c) in (r, mkChain s (auction_of c)).
Definition on_auction {A} (m : comp AuctionState string A) : auctions A := fun c =>
  let '(r, s) := m (auction_of c) in (r, mkChain (dex_of c) s).

(** ** Identifiers and descriptions *)

Module Description.
Section Description.
Context `{DexEnv} `{AuctionEnv}.

(** [DutchAuctionDescription::id]: the output asset and the least output are not hashed. *)
Definition id (d : DutchAuctionDescription) : auction_id :=
  auction_hash (auction_nonce d
    ++ asset_bytes (value_asset (auction_input d))
    ++ le_bytes 16 (amount (auction_input d))
    ++ le_bytes 16 (max_output d)
    ++ le_bytes 8 (auction_start_height d)
    ++ le_bytes 8 (auction_end_height d)
    ++ le_bytes 8 (step_count d)).

Definition MAX_AUCTION_AMOUNT_RESERVES : Z := 2 ^ 52 - 1.

(** [ActionDutchAuctionSchedule::check_stateless] *)
Definition check_stateless (d : DutchAuctionDescription) : anyhow unit :=
  let! _ := guard_or (0 <? amount (auction_input d)) "input amount MUST be positive (got zero)" in
  let! _ := guard_or (0 <? step_count d) "step count MUST be positive (got zero)" in
  let! _ := guard_or (amount (auction_input d) <=? MAX_AUCTION_AMOUNT_RESERVES)
              "input amount MUST be less than 52 bits wide" in
  let! _ := guard_or (negb (value_asset (auction_input d) =? output_id d))
              "input id MUST be different from output id" in
  let! _ := guard_or (min_output d <? max_output d) "max_output MUST be greater than min_output" in
  let! _ := guard_or (0 <? max_output d) "max output MUST be positive" in
  let! _ := guard_or (max_output d <=? MAX_AUCTION_AMOUNT_RESERVES)
              "max output amount MUST be less than 52 bits wide" in
  let! _ := guard_or (0 <? min_output d) "min output MUST be positive" in
  let! _ := guard_or (min_output d <=? MAX_AUCTION_AMOUNT_RESERVES)
              "min output amount MUST be less than 52 bits wide" in
  let! _ := guard_or (auction_start_height d <? auction_end_height d)
              "the start height MUST be strictly less than the end height" in
  let! _ := guard_or (2 <=? step_count d) "step count MUST be at least two" in
  let! _ := guard_or (step_count d <=? 255) "the dutch auction step count MUST be less than 255" in
  let! block_window := ok_or (checked_sub (auction_end_height d) (auction_start_height d))
              "underflow - the validation rules are incoherent!" in
  guard_or (block_window mod step_count d =? 0)
    "the block window MUST be a multiple of the step count".

(** [ActionDutchAuctionSchedule::balance]: burn the input, mint the opened NFT. *)
Definition schedule_balance {E} (d : DutchAuctionDescription) : outcome E Balance.t :=
  Balance.sub (Balance.from_value (mkValue 1 (auction_nft_asset_id (id d) 0)))
              (Balance.from_value (auction_input d)).

(** [ActionDutchAuctionEnd::balance] *)
Definition end_balance {E} (a : auction_id) : outcome E Balance.t :=
  Balance.sub (Balance.from_value (mkValue 1 (auction_nft_asset_id a 1)))
              (Balance.from_value (mkValue 1 (auction_nft_asset_id a 0))).
End Description.
End Description.

(** ** Triggers *)

Record TriggerData := mkTrigger {
  trigger_start : Z;
  trigger_end : Z;
  trigger_steps : Z;
}.

Definition trigger_of (d : DutchAuctionDescription) : TriggerData :=
  mkTrigger (auction_start_height d) (auction_end_height d) (step_count d).

Module Trigger.
(** [checked_div], and the plain [/], which panics on zero. *)
Definition checked_div (x y : Z) : option Z := if y =? 0 then None else Some (x / y).
Definition plain_div {E} (x y : Z) : outcome E Z := expect_some (checked_div x y).

Definition compute_step_index (self : TriggerData) (current_height : Z) : anyhow Z :=
  let! block_interval := ok_or (checked_sub (trigger_end self) (trigger_start self))
    "block interval calculation has underflowed" in
  let! step_size := ok_or (checked_div block_interval (trigger_steps self)) "step count is zero" in
  let distance_from_start := saturating_sub current_height (trigger_start self) in
  ok_or (checked_div distance_from_start step_size) "step size is zero".

Definition compute_next_trigger_height {E} (self : TriggerData) (current_height : Z) : outcome E Z :=
  let! block_interval := plain_sub (trigger_end self) (trigger_start self) in
  let! step_size := plain_div block_interval (trigger_steps self) in
  let distance_from_start := saturating_sub current_height (trigger_start self) in
  let! prev_step_index := plain_div distance_from_start step_size in
  let! next_step_index := plain_add 64 prev_step_index 1 in
  let! next_step_size_from_start := plain_mul 64 step_size next_step_index in
  plain_add 64 (trigger_start self) next_step_size_from_start.

Definition try_next_trigger_height {E} (self : TriggerData) (current_height : Z)
  : outcome E (option Z) :=
  let! next := compute_next_trigger_height self current_height in
  Ok (if trigger_end self <? next then None else Some next).
End Trigger.

(** [NonZeroU64::new] *)
Definition non_zero (x : Z) : option Z := if x =? 0 then None else Some x.

(** [compute_pq_at_step]: the coefficients of the position of a step. *)
Definition compute_pq_at_step {E} (d : DutchAuctionDescription) (step_index : Z)
  : outcome E (Z * Z) :=
  let! a := plain_sub (step_count d) step_index in
  let! a := plain_sub a 1 in
  let! a := plain_mul 128 a (max_output d) in
  let! b := plain_mul 128 step_index (min_output d) in
  let! target_output_scaled := plain_add 128 a b in
  let! c := plain_sub (step_count d) 1 in
  let! input_scaled := plain_mul 128 c (amount (auction_input d)) in
  Ok (target_output_scaled, input_scaled).

(** ** The component's ledger *)

#[global] Instance auction_vcb_store : VcbStore AuctionState := {|
  get_vcb_for_asset a s := auction_balances s !! a;
  put_value_balance a v s := set_auction_balances (<[a := v]> (auction_balances s)) s;
  record_vcb_event e s := record_auction_event (EventAuctionVcb e) s;
|}.

#[global] Instance auction_vcb_laws : VcbStoreLaws AuctionState.
Proof.
  split; intros; cbn; [apply lookup_insert_eq | by apply lookup_insert_ne | done].
Qed.

Module AuctionCircuitBreaker.
Definition get_auction_value_balance_for (a : asset_id) (s : AuctionState) : Z :=
  default 0 (auction_balances s !! a).

Definition auction_vcb_credit (value : Value) : comp AuctionState string unit :=
  if amount value =? 0 then ret tt
  else
    prev_balance <- gets (get_auction_value_balance_for (value_asset value));;
    new_balance <- lift (ok_or (checked_add 128 prev_balance (amount value))
      "overflowed balance while crediting auction circuit breaker");;
    modify (put_value_balance (value_asset value) new_balance);;;
    modify (record_auction_event (EventAuctionVcb
      (EventValueCircuitBreakerCredit (value_asset value) prev_balance new_balance))).

Definition auction_vcb_debit (value : Value) : comp AuctionState string unit :=
  if amount value =? 0 then ret tt
  else
    prev_balance <- gets (get_auction_value_balance_for (value_asset value));;
    new_balance <- lift (ok_or (checked_sub prev_balance (amount value))
      "underflowed balance while debiting auction circuit breaker");;
    modify (put_value_balance (value_asset value) new_balance);;;
    modify (record_auction_event (EventAuctionVcb
      (EventValueCircuitBreakerDebit (value_asset value) prev_balance new_balance))).
End AuctionCircuitBreaker.

(** ** The manager

    Every entry of the auction store is a [DutchAuction], so [get_dutch_auction_by_id] only fails to
    find one. *)

Module DutchAuctionManager.
Section Manager.
Context `{DexEnv} `{AuctionEnv}.
Import AuctionCircuitBreaker.

Definition get_dutch_auction_by_id (id : auction_id) (s : AuctionState) : option DutchAuction :=
  auction_store s !! id.
Definition auction_id_exists (id : auction_id) (s : AuctionState) : bool :=
  match auction_store s !! id with Some _ => true | None => false end.

Definition write_dutch_auction_state (a : DutchAuction) : auctions unit :=
  on_auction (modify (fun s =>
    set_auction_store (<[Description.id (description a) := a]> (auction_store s)) s)).
Definition set_trigger_for_dutch_id (id : auction_id) (trigger_height : Z) : auctions unit :=
  on_auction (modify (fun s => set_triggers ({[ (trigger_height, id) ]} ∪ triggers s) s)).
Definition unset_trigger_for_dutch_id (id : auction_id) (trigger_height : Z) : auctions unit :=
  on_auction (modify (fun s => set_triggers (triggers s ∖ {[ (trigger_height, id) ]}) s)).
Definition emit (e : AuctionEvent) : auctions unit :=
  on_auction (modify (record_auction_event e)).

Definition schedule_auction (d : DutchAuctionDescription) : auctions unit :=
  let id := Description.id d in
  current_height <- on_dex (gets block_height);;
  next <- lift (Trigger.try_next_trigger_height (trigger_of d) current_height);;
  next_trigger <- lift (expect_some next);;
  let st := mkDutchState 0 None (non_zero next_trigger) (amount (auction_input d)) 0 in
  on_auction (auction_vcb_credit (auction_input d));;;
  set_trigger_for_dutch_id id next_trigger;;;
  write_dutch_auction_state (mkAuction d st);;;
  emit (EventDutchAuctionScheduled id d).

(** What a withdrawn position provides of an asset. *)
Definition inflow {E} (lp_reserves : Balance.t) (a : asset_id) : outcome E Value :=
  let! amount := Amount.sum (amount <$> filter (fun v => value_asset v = a) (Balance.provided lp_reserves)) in
  Ok (mkValue amount a).

(** The position of one attempt at a fresh identifier. *)
Definition attempt_position (pair : DirectedTradingPair) (input_reserves step_index : Z)
  (p q : Z) (auction_nonce : list Z) (attempt_counter : Z) : Position :=
  let tough_nonce := position_nonce_hash
    (auction_nonce ++ le_bytes 8 step_index ++ le_bytes 8 attempt_counter) in
  let lp := PositionOps.new_with_nonce tough_nonce pair 0 p q (mkReserves input_reserves 0) in
  mkPosition (state lp) (reserves lp) (phi lp) (nonce lp) true.

(** Pay the position's reserves out of the component and open it. *)
Definition deploy (lp : Position) : auctions position_id :=
  expecting (on_auction (auction_vcb_debit (PositionOps.reserves_1 lp)));;;
  expecting (on_auction (auction_vcb_debit (PositionOps.reserves_2 lp)));;;
  expecting (on_dex (PositionManager.open_position lp));;;
  ret (PositionOps.id lp).

(** The loop of [allocate_position].  It retries until the identifier is unused; [fuel] bounds the
    attempts, and running out of it stands for a loop that does not end. *)
Fixpoint allocate_loop (fuel : nat) (pair : DirectedTradingPair) (input_reserves step_index : Z)
  (p q : Z) (auction_nonce : list Z) (attempt_counter : Z) : auctions position_id :=
  match fuel with
  | O => panic
  | S fuel =>
      let lp := attempt_position pair input_reserves step_index p q auction_nonce attempt_counter in
      existing <- on_dex (gets (DexRead.position_by_id (PositionOps.id lp)));;
      match existing with
      | Some _ =>
          attempt_counter <- lift (plain_add 64 attempt_counter 1);;
          allocate_loop fuel pair input_reserves step_index p q auction_nonce attempt_counter
      | None => deploy lp
      end
  end.

(** One more attempt than there are positions. *)
Definition attempts (c : Chain) : nat := S (size (positions (dex_of c))).

Definition allocate_position (pair : DirectedTradingPair) (input_reserves step_index : Z)
  (pq : Z * Z) (auction_nonce : list Z) : auctions (option position_id) :=
  params <- expecting (on_dex DexRead.get_dex_params);;
  if negb (is_enabled params) then ret None
  else
    fuel <- gets attempts;;
    id <- allocate_loop fuel pair input_reserves step_index pq.1 pq.2 auction_nonce 0;;
    ret (Some id).

(** Close and withdraw the position of an auction. *)
Definition recover_position (id : position_id) : auctions Balance.t :=
  on_dex (PositionManager.close_position_by_id id);;;
  on_dex (PositionManager.withdraw_position id 0).

Definition recover (current_position : option position_id) : auctions Balance.t :=
  match current_position with Some id => recover_position id | None => ret Balance.zero end.

(** Credit what a position returned to the component's ledger. *)
Definition absorb (lp_reserves : Balance.t) (input_id output_id : asset_id) : auctions (Z * Z) :=
  lp_inflow_input_asset <- lift (inflow lp_reserves input_id);;
  lp_inflow_output_asset <- lift (inflow lp_reserves output_id);;
  on_auction (auction_vcb_credit lp_inflow_input_asset);;;
  on_auction (auction_vcb_credit lp_inflow_output_asset);;;
  ret (amount lp_inflow_input_asset, amount lp_inflow_output_asset).

(** The next round of an auction whose reserves are back: the auction is closed when its last step
    has passed or its input is gone, and otherwise put up again at the price of the step. *)
Definition next_round (id : auction_id) (d : DutchAuctionDescription) (st : DutchAuctionState)
  (trigger_height step_index input_reserves output_reserves : Z) : auctions DutchAuctionState :=
  if (step_count d <=? step_index) || (input_reserves =? 0) then
    ret (mkDutchState 1 None None input_reserves output_reserves)
  else
    next_trigger <- lift (Trigger.compute_next_trigger_height (trigger_of d) trigger_height);;
    price <- lift (compute_pq_at_step d step_index);;
    let pair := mkDirected (value_asset (auction_input d)) (output_id d) in
    maybe_id <- allocate_position pair input_reserves step_index price (auction_nonce d);;
    set_trigger_for_dutch_id id next_trigger;;;
    ret (mkDutchState (sequence st) maybe_id (non_zero next_trigger) 0 output_reserves).

Definition execute_dutch_auction (id : auction_id) (trigger_height : Z) : auctions unit :=
  o <- on_auction (gets (get_dutch_auction_by_id id));;
  old <- lift (expect_some o);;
  let d := description old in
  let st := auction_state old in
  lp_reserves <- expecting (recover (current_position st));;
  unset_trigger_for_dutch_id id trigger_height;;;
  inflows <- absorb lp_reserves (value_asset (auction_input d)) (output_id d);;
  input_reserves <- lift (plain_add 128 (input_reserves st) inflows.1);;
  output_reserves <- lift (plain_add 128 (output_reserves st) inflows.2);;
  step_index <- lift (expect_ok (Trigger.compute_step_index (trigger_of d) trigger_height));;
  new_state <- next_round id d st trigger_height step_index input_reserves output_reserves;;
  write_dutch_auction_state (mkAuction d new_state);;;
  emit (if step_count d <=? step_index then EventDutchAuctionEnded id new_state Expired
        else if input_reserves =? 0 then EventDutchAuctionEnded id new_state Filled
        else EventDutchAuctionUpdated id new_state).

Definition end_auction (auction_to_close : DutchAuction) : auctions unit :=
  let d := description auction_to_close in
  let st := auction_state auction_to_close in
  if 1 <=? sequence st then ret tt
  else
    let id := Description.id d in
    lp_reserves <- recover (current_position st);;
    inflows <- absorb lp_reserves (value_asset (auction_input d)) (output_id d);;
    total_input_reserves <- lift (plain_add 128 (input_reserves st) inflows.1);;
    total_output_reserves <- lift (plain_add 128 (output_reserves st) inflows.2);;
    match next_trigger st with
    | Some height => unset_trigger_for_dutch_id id height
    | None => ret tt
    end;;;
    write_dutch_auction_state
      (mkAuction d (mkDutchState 1 None None total_input_reserves total_output_reserves)).

Definition end_auction_by_id (id : auction_id) : auctions unit :=
  o <- on_auction (gets (get_dutch_auction_by_id id));;
  auction <- lift (ok_or o "auction not found");;
  end_auction auction.

Definition withdraw_auction (auction : DutchAuction) : auctions Balance.t :=
  let d := description auction in
  let st := auction_state auction in
  let previous_input_reserves := mkValue (input_reserves st) (value_asset (auction_input d)) in
  let previous_output_reserves := mkValue (output_reserves st) (output_id d) in
  on_auction (auction_vcb_debit previous_input_reserves);;;
  on_auction (auction_vcb_debit previous_output_reserves);;;
  withdraw_balance <- lift (Balance.add (Balance.from_value previous_input_reserves)
                              (Balance.from_value previous_output_reserves));;
  let new_state := mkDutchState (saturating_add 64 (sequence st) 1) None None 0 0 in
  emit (EventDutchAuctionWithdrawn (Description.id d) new_state);;;
  write_dutch_auction_state (mkAuction d new_state);;;
  ret withdraw_balance.

Definition withdraw_auction_by_id (id : auction_id) : auctions unit :=
  o <- on_auction (gets (get_dutch_auction_by_id id));;
  auction <- lift (ok_or o "auction not found");;
  withdraw_auction auction;;; ret tt.

(** The ids are stored under the height's prefix in the order of their text. *)
Definition text_le (x y : auction_id) : Prop := lex_compare (auction_id_text x) (auction_id_text y) <> Gt.
#[global] Instance text_le_dec x y : Decision (text_le x y).
Proof. unfold text_le. destruct (lex_compare _ _); (by left) || (by right; auto) || (right; naive_solver). Defined.

Definition stream_dutch_ids_by_trigger (trigger_height : Z) (s : AuctionState) : list auction_id :=
  merge_sort text_le (omap (fun '(h, id) => if decide (h = trigger_height) then Some id else None)
    (elements (triggers s))).

Definition process_triggers (trigger_height : Z) : auctions unit :=
  auction_ids <- on_auction (gets (stream_dutch_ids_by_trigger trigger_height));;
  for_each auction_ids (fun id => execute_dutch_auction id trigger_height).

(** [Auction::end_block] *)
Definition end_block (height : Z) : auctions unit := ignore_error (process_triggers height).

(** ** Action handlers *)

Definition schedule_check_and_execute (d : DutchAuctionDescription) : auctions unit :=
  current_height <- on_dex (gets block_height);;
  ensure (current_height <? auction_start_height d) "dutch auction MUST start in the future";;;
  known <- on_auction (gets (auction_id_exists (Description.id d)));;
  ensure (negb known) "the supplied auction id is already known to the chain";;;
  schedule_auction d.

Definition end_check_and_execute (id : auction_id) : auctions unit :=
  o <- on_auction (gets (get_dutch_auction_by_id id));;
  auction <- lift (ok_or o "no auction found for id");;
  ensure ((sequence (auction_state auction) =? 0) || (sequence (auction_state auction) =? 1))
    "auction MUST have a sequence number set to opened (0) or closed (1)";;;
  end_auction auction;;;
  emit (EventDutchAuctionEnded id (auction_state auction) ClosedByOwner).

Definition withdraw_check_stateless (seq : Z) : anyhow unit :=
  let! _ := guard_or (1 <=? seq) "the sequence number MUST be greater or equal to 1" in
  guard_or (seq <? max_int 64) "the sequence number maximum is `u64::MAX`".

Definition withdraw_check_and_execute `{CommitmentGroup G, EqDecision G}
  (id : auction_id) (seq : Z) (reserves_commitment : G) : auctions unit :=
  o <- on_auction (gets (get_dutch_auction_by_id id));;
  auction <- lift (ok_or o "no auction found for id");;
  ensure (seq =? saturating_add 64 (sequence (auction_state auction)) 1)
    "the action sequence number MUST be incremented by one";;;
  withdrawn_balance <- withdraw_auction auction;;
  if decide (reserves_commitment = Commitment.commit withdrawn_balance 0) then ret tt
  else fail "the reported reserve commitment is incorrect".
End Manager.
End DutchAuctionManager.
