(* ===== verification/AuctionFacts.v ===== *)
(** * Facts about Dutch auctions

    The trigger arithmetic and the prices of the steps, the transfers between the ledgers of the
    DEX and of the auctions, and the effect of each operation on the invariant of both. *)

From S2P Require Import Prelude.
From S2P Require Import Num.
From S2P Require Import Asset.
From S2P Require Import TradingFunction.
From S2P Require Import Position.
From S2P Require Import Vcb.
From S2P Require Import DexState.
From S2P Require Import Indexes.
From S2P Require Import IndexFacts.
From S2P Require Import PositionManager.
From S2P Require Import PositionFacts.
From S2P Require Import DexMachine.
From S2P Require Import OpeningFacts.
From S2P Require Import Auction.

(** ** Valid descriptions *)

Record valid (d : DutchAuctionDescription) : Prop := {
  valid_input : 0 < amount (auction_input d) <= Description.MAX_AUCTION_AMOUNT_RESERVES;
  valid_assets : value_asset (auction_input d) <> output_id d;
  valid_output : 0 < min_output d < max_output d /\ max_output d <= Description.MAX_AUCTION_AMOUNT_RESERVES;
  valid_heights : 0 <= auction_start_height d < auction_end_height d /\ auction_end_height d < 2 ^ 64;
  valid_steps : 2 <= step_count d <= 255;
  valid_window : (auction_end_height d - auction_start_height d) mod step_count d = 0;
}.

Lemma check_stateless_valid d u :
  is_u64 (auction_start_height d) -> is_u64 (auction_end_height d) ->
  Description.check_stateless d = Ok u -> valid d.
Proof.
  unfold in_width, Description.check_stateless. intros Hs He Hc. inv_outcome. to_prop.
  match goal with Hx : checked_sub _ _ = Some _ |- _ => apply checked_sub_some in Hx as [-> _] end.
  split; lia.
Qed.

(** ** Triggers *)

Section Triggers.
Context (d : DutchAuctionDescription) (Hd : valid d).

Definition step_size : Z := (auction_end_height d - auction_start_height d) / step_count d.

Lemma step_size_exact : step_size * step_count d = auction_end_height d - auction_start_height d.
Proof.
  pose proof (valid_steps d Hd). pose proof (valid_window d Hd) as Hw. unfold step_size.
  pose proof (Z.div_mod (auction_end_height d - auction_start_height d) (step_count d) ltac:(lia)). lia.
Qed.

Lemma step_size_pos : 0 < step_size.
Proof.
  pose proof step_size_exact. pose proof (valid_steps d Hd). pose proof (valid_heights d Hd). nia.
Qed.

(** The step a height belongs to. *)
Definition step_at (h : Z) : Z := saturating_sub h (auction_start_height d) / step_size.

Lemma step_at_nonneg h : 0 <= step_at h.
Proof. unfold step_at, saturating_sub. pose proof step_size_pos. apply Z.div_pos; lia. Qed.

Lemma step_index_run h : Trigger.compute_step_index (trigger_of d) h = Ok (step_at h).
Proof.
  pose proof step_size_pos. pose proof (valid_heights d Hd). pose proof (valid_steps d Hd).
  unfold Trigger.compute_step_index, Trigger.checked_div, checked_sub. cbn [trigger_of trigger_start trigger_end trigger_steps].
  rewrite (proj2 (Z.leb_le _ _)) by lia. cbn [ok_or outcome_bind].
  rewrite (proj2 (Z.eqb_neq _ 0)) by lia. cbn [ok_or outcome_bind]. fold step_size.
  rewrite (proj2 (Z.eqb_neq _ 0)) by lia. done.
Qed.

(** The first height of the next step. *)
Definition next_height (h : Z) : Z := auction_start_height d + step_size * (step_at h + 1).

Lemma next_height_later h : h < next_height h.
Proof.
  pose proof step_size_pos. unfold next_height, step_at, saturating_sub.
  pose proof (Z.mul_succ_div_gt (Z.max (h - auction_start_height d) 0) step_size ltac:(lia)). lia.
Qed.

Lemma next_height_bounds h :
  step_at h < step_count d -> auction_start_height d < next_height h <= auction_end_height d.
Proof.
  pose proof step_size_pos. pose proof step_size_exact. pose proof (step_at_nonneg h).
  unfold next_height. intros. nia.
Qed.

Lemma next_trigger_run {E} h :
  step_at h < step_count d -> @Trigger.compute_next_trigger_height E (trigger_of d) h = Ok (next_height h).
Proof.
  intros Hh. pose proof (next_height_bounds h Hh) as Hb. unfold next_height in *.
  pose proof step_size_pos. pose proof (step_at_nonneg h). pose proof (valid_heights d Hd). pose proof (valid_steps d Hd).
  unfold Trigger.compute_next_trigger_height, Trigger.plain_div, Trigger.checked_div.
  cbn [trigger_of trigger_start trigger_end trigger_steps].
  rewrite plain_sub_run by lia. cbn [outcome_bind].
  rewrite (proj2 (Z.eqb_neq _ 0)) by lia. cbn [expect_some outcome_bind]. fold step_size.
  rewrite (proj2 (Z.eqb_neq _ 0)) by lia. cbn [expect_some outcome_bind]. fold (step_at h).
  rewrite plain_add_run by nia. cbn [outcome_bind].
  rewrite plain_mul_run by nia. cbn [outcome_bind]. by rewrite plain_add_run by lia.
Qed.

(** Before the auction starts, the first trigger is the beginning of step 1. *)
Lemma step_at_before h : h <= auction_start_height d -> step_at h = 0.
Proof. intros. unfold step_at, saturating_sub. rewrite Z.max_r by lia. apply Z.div_0_l. pose proof step_size_pos. lia. Qed.

Lemma first_trigger_run {E} h :
  h <= auction_start_height d ->
  @Trigger.try_next_trigger_height E (trigger_of d) h = Ok (Some (auction_start_height d + step_size)).
Proof.
  intros Hh. pose proof (step_at_before h Hh) as H0. pose proof (valid_steps d Hd).
  unfold Trigger.try_next_trigger_height. rewrite next_trigger_run by lia. cbn [outcome_bind].
  pose proof (next_height_bounds h ltac:(lia)). unfold next_height in *. rewrite H0 in *.
  cbn [trigger_of trigger_end]. rewrite (proj2 (Z.ltb_ge _ _)) by lia. do 2 f_equal. lia.
Qed.

Lemma step_at_boundary k : 0 <= k -> step_at (auction_start_height d + step_size * k) = k.
Proof.
  intros. pose proof step_size_pos. unfold step_at, saturating_sub. rewrite Z.max_l by nia.
  replace (auction_start_height d + step_size * k - auction_start_height d) with (k * step_size) by lia.
  apply Z.div_mul. lia.
Qed.

(** ** Prices *)

Definition target_output (i : Z) : Z := (step_count d - i - 1) * max_output d + i * min_output d.
Definition scaled_input : Z := (step_count d - 1) * amount (auction_input d).

Lemma pq_bounds i :
  0 <= i < step_count d ->
  0 < target_output i <= MAX_RESERVE_AMOUNT /\ 0 < scaled_input <= MAX_RESERVE_AMOUNT.
Proof.
  pose proof (valid_steps d Hd). pose proof (valid_output d Hd). pose proof (valid_input d Hd).
  unfold target_output, scaled_input, Description.MAX_AUCTION_AMOUNT_RESERVES in *.
  change MAX_RESERVE_AMOUNT with (2 ^ 80 - 1). intros.
  assert ((step_count d - i - 1) * max_output d <= 255 * 2 ^ 52) by nia.
  assert (i * min_output d <= 255 * 2 ^ 52) by nia.
  assert (0 <= (step_count d - i - 1) * max_output d) by nia.
  assert (0 <= i * min_output d) by nia.
  assert ((step_count d - 1) * amount (auction_input d) <= 255 * 2 ^ 52) by nia. nia.
Qed.

Lemma pq_run {E} i :
  0 <= i < step_count d -> @compute_pq_at_step E d i = Ok (target_output i, scaled_input).
Proof.
  intros Hi. pose proof (pq_bounds i Hi) as [Hp Hq]. pose proof (valid_steps d Hd). pose proof (valid_output d Hd).
  unfold target_output, scaled_input in *. change MAX_RESERVE_AMOUNT with (2 ^ 80 - 1) in *.
  assert (0 <= (step_count d - i - 1) * max_output d) by nia.
  assert (0 <= i * min_output d) by nia.
  unfold compute_pq_at_step.
  repeat first [rewrite plain_sub_run by lia | rewrite plain_mul_run by lia | rewrite plain_add_run by lia | progress cbn [outcome_bind]].
  done.
Qed.

(** Each step asks for strictly less output than the one before. *)
Lemma target_decreases i : target_output (i + 1) < target_output i.
Proof. pose proof (valid_output d Hd). unfold target_output. nia. Qed.
End Triggers.

(** ** The ledger of the component *)

Section Ledger.
Import AuctionCircuitBreaker.

(** The component's ledger runs the operations of the DEX's, up to the error message. *)
Lemma auction_credit_as_vcb v s u s' :
  auction_vcb_credit v s = (Ok u, s') <-> Vcb.dex_vcb_credit v s = (Ok u, s').
Proof.
  unfold auction_vcb_credit, Vcb.dex_vcb_credit, get_auction_value_balance_for, Vcb.balance, bind, gets, lift, modify.
  cbn [get_vcb_for_asset auction_vcb_store]. destruct (amount v =? 0); [done|].
  by destruct (checked_add _ _ _).
Qed.

Lemma auction_debit_as_vcb v s u s' :
  auction_vcb_debit v s = (Ok u, s') <-> Vcb.dex_vcb_debit v s = (Ok u, s').
Proof.
  unfold auction_vcb_debit, Vcb.dex_vcb_debit, get_auction_value_balance_for, Vcb.balance, bind, gets, lift, modify.
  cbn [get_vcb_for_asset auction_vcb_store]. destruct (amount v =? 0); [done|].
  by destruct (checked_sub _ _).
Qed.

(** Only the ledger and the log move. *)
Definition ledgered (s s' : AuctionState) (delta : asset_id -> Z) : Prop :=
  auction_store s' = auction_store s /\ triggers s' = triggers s /\ Vcb.balances_typed s'
  /\ forall c, Vcb.balance c s' = Vcb.balance c s + delta c.

Lemma touched_frame v b ev (s : AuctionState) :
  auction_store (Vcb.touched v b ev s) = auction_store s /\ triggers (Vcb.touched v b ev s) = triggers s.
Proof. unfold Vcb.touched. by case_match. Qed.

Lemma auction_credit_ledgered v s u s' :
  0 <= amount v -> Vcb.balances_typed s -> auction_vcb_credit v s = (Ok u, s') ->
  ledgered s s' (Typed.carries v).
Proof.
  intros Hv Ht Hr%auction_credit_as_vcb. pose proof (fun c => Vcb.credit_balance _ _ _ _ c Hr) as Hb.
  apply Vcb.credit_spec in Hr as (_ & Hfit & ->). pose proof (touched_frame v) as Hf.
  split_and!; [apply Hf|apply Hf| |exact Hb].
  intros c. rewrite Hb. specialize (Ht c). pose proof (Ht : in_width 128 _) as Ht'.
  unfold in_width, Typed.carries in *. case_decide; [subst|lia].
  destruct (Z.eq_dec (amount v) 0); [lia|]. specialize (Hfit n). lia.
Qed.

Lemma auction_debit_ledgered v s u s' :
  0 <= amount v -> Vcb.balances_typed s -> auction_vcb_debit v s = (Ok u, s') ->
  ledgered s s' (fun c => - Typed.carries v c).
Proof.
  intros Hv Ht Hr%auction_debit_as_vcb. pose proof (fun c => Vcb.debit_balance _ _ _ _ c Hr) as Hb.
  apply Vcb.debit_spec in Hr as (_ & Hfit & ->). pose proof (touched_frame v) as Hf.
  split_and!; [apply Hf|apply Hf| |intros c; rewrite Hb; lia].
  intros c. rewrite Hb. specialize (Ht c). unfold in_width, Typed.carries in *. case_decide; [subst|lia].
  destruct (Z.eq_dec (amount v) 0); [lia|]. specialize (Hfit n). lia.
Qed.

Lemma auction_credit_run v s :
  0 <= amount v -> Vcb.balances_typed s -> Vcb.balance (value_asset v) s + amount v < 2 ^ 128 ->
  exists s', auction_vcb_credit v s = (Ok tt, s') /\ ledgered s s' (Typed.carries v).
Proof.
  intros Hv Ht Hfit. eexists. assert (Hr : Vcb.dex_vcb_credit v s = (Ok tt, _)) by (apply Vcb.credit_spec; done).
  apply auction_credit_as_vcb in Hr. split; [exact Hr|]. by eapply auction_credit_ledgered.
Qed.

Lemma auction_debit_run v s :
  0 <= amount v -> Vcb.balances_typed s -> amount v <= Vcb.balance (value_asset v) s ->
  exists s', auction_vcb_debit v s = (Ok tt, s') /\ ledgered s s' (fun c => - Typed.carries v c).
Proof.
  intros Hv Ht Hfit. eexists. assert (Hr : Vcb.dex_vcb_debit v s = (Ok tt, _)) by (apply Vcb.debit_spec; done).
  apply auction_debit_as_vcb in Hr. split; [exact Hr|]. by eapply auction_debit_ledgered.
Qed.

Lemma ledgered_trans s1 s2 s3 f g :
  ledgered s1 s2 f -> ledgered s2 s3 g -> ledgered s1 s3 (fun c => f c + g c).
Proof.
  intros (E1 & F1 & _ & B1) (E2 & F2 & T2 & B2). split_and!; [congruence|congruence|done|].
  intros c. rewrite B2, B1. lia.
Qed.
End Ledger.

(** ** What a withdrawn position provides *)

Lemma provided_sum (l : list (Imbalance.t Value)) a :
  Forall (fun i => forall v, i = Imbalance.Required v -> value_asset v <> a) l ->
  list_sum (amount <$> filter (fun v => value_asset v = a) (omap Imbalance.provided l))
  = Balance.denote_items l a.
Proof.
  induction 1 as [|i l Hi _ IH]; [done|].
  change (Balance.denote_items (i :: l) a) with (Balance.denote_item i a + Balance.denote_items l a).
  rewrite <- IH. unfold Balance.denote_item. destruct i as [v|v].
  - cbn [Imbalance.into_inner]. rewrite decide_False by (by apply Hi). done.
  - change (omap Imbalance.provided (Imbalance.Provided v :: l)) with (v :: omap Imbalance.provided l).
    cbn [Imbalance.into_inner Imbalance.of_sign Imbalance.denote]. rewrite filter_cons. by case_decide.
Qed.

Section Inflow.
Context `{DexEnv} `{AuctionEnv}.
Import DutchAuctionManager.

Lemma inflow_run {E} b a :
  Balance.wf b -> 0 <= Balance.denote b a < 2 ^ 128 -> @inflow E b a = Ok (mkValue (Balance.denote b a) a).
Proof.
  intros Hb Ha. unfold inflow, Balance.provided.
  assert (Hall : Forall (fun i => forall v, i = Imbalance.Required v -> value_asset v <> a) (Balance.iter b)).
  { apply Forall_forall. intros i Hi v -> Hv.
    pose proof (Balance.denote_items_elem _ _ (Balance.iter_distinct b) Hi) as Hd.
    pose proof (proj1 (Forall_forall _ _) (Balance.iter_wf b Hb) _ Hi) as Hw.
    rewrite Balance.denote_iter in Hd. unfold Balance.denote_item in Hd. cbn in Hd, Hw.
    unfold Balance.wf_item, Imbalance.wf, Imbalance.magnitude in Hw. cbn -[Z.pow] in Hw.
    rewrite decide_True, Hv in Hd by done. lia. }
  pose proof (provided_sum _ a Hall) as Hs. rewrite Balance.denote_iter in Hs.
  rewrite Amount.sum_exact, Hs; [done| |lia].
  apply Forall_fmap, Forall_forall. intros v [_ Hv]%list_elem_of_filter. apply list_elem_of_omap in Hv as (i & Hi & Hp).
  pose proof (proj1 (Forall_forall _ _) (Balance.iter_wf b Hb) _ Hi) as Hw.
  destruct i; [done|]. injection Hp as ->. unfold Balance.wf_item, Imbalance.wf, Imbalance.magnitude in Hw.
  cbn -[Z.pow] in Hw |- *. lia.
Qed.
End Inflow.

(** ** Recovering a position *)

Section Recover.
Context `{DexEnv} `{AuctionEnv}.
Import DutchAuctionManager DexMachine.

Lemma on_dex_run {A} (m : dex A) c a s' : m (dex_of c) = (Ok a, s') -> on_dex m c = (Ok a, mkChain s' (auction_of c)).
Proof. unfold on_dex. by intros ->. Qed.

Lemma on_auction_run {A} (m : comp AuctionState string A) c a s' :
  m (auction_of c) = (Ok a, s') -> on_auction m c = (Ok a, mkChain (dex_of c) s').
Proof. unfold on_auction. by intros ->. Qed.

(** An auction's position: on the pair of its assets, not withdrawn, not queued. *)
Definition tracks (s : DexState) (d : DutchAuctionDescription) (pid : position_id) : Prop :=
  exists lp, positions s !! pid = Some lp
    /\ (state lp = PositionState.Opened \/ state lp = PositionState.Closed)
    /\ pair (phi lp) = Pair.new (value_asset (auction_input d)) (output_id d)
    /\ pid ∉ pending_position_closures s.

(** Both assets of an auction, at the amounts [x] and [y]. *)
Definition both (d : DutchAuctionDescription) (x y : Z) (c : asset_id) : Z :=
  Typed.carries (mkValue x (value_asset (auction_input d))) c + Typed.carries (mkValue y (output_id d)) c.

Lemma holds_both d lp c :
  valid d -> pair (phi lp) = Pair.new (value_asset (auction_input d)) (output_id d) ->
  PositionOps.holds lp c
  = both d (PositionOps.holds lp (value_asset (auction_input d))) (PositionOps.holds lp (output_id d)) c.
Proof.
  intros Hd Hp. pose proof (valid_assets d Hd). unfold both, Typed.carries, PositionOps.holds, ReservesOps.holds.
  rewrite Hp. unfold Pair.new. cbn [value_asset amount]. destruct (_ <? _); cbn [asset_1 asset_2];
    repeat case_decide; congruence || lia.
Qed.

(** Closing a position outside the queue keeps the invariant and moves no value. *)
Lemma close_unqueued pid lp s :
  DexMachine.invariant (Delivering, s) -> positions s !! pid = Some lp ->
  state lp = PositionState.Opened \/ state lp = PositionState.Closed ->
  pid ∉ pending_position_closures s ->
  exists s1 lp1, PositionManager.close_position_by_id pid s = (Ok tt, s1)
    /\ DexMachine.invariant (Delivering, s1) /\ settings s1 = settings s
    /\ pending_position_closures s1 = pending_position_closures s
    /\ positions s1 = after (positions s) pid lp1 /\ state lp1 = PositionState.Closed
    /\ phi lp1 = phi lp /\ reserves lp1 = reserves lp
    /\ forall a, Vcb.balance a s1 = Vcb.balance a s.
Proof.
  intros Hinv Hl Hst Hq. pose proof Hinv as (Hc & Hs & Hp & Hf). cbn [fst snd] in Hc, Hs, Hp, Hf.
  destruct (close_total pid lp s Hc Hl Hst) as [s1 H1]. pose proof (close_settings _ _ _ _ H1) as Hset.
  destruct (close_spec _ _ _ _ Hc Hs H1) as (lq & Hlq & [[Hcl ->]|(Ho & s2 & Hw & ->)]); rewrite Hl in Hlq; injection Hlq as <-.
  - exists s, lp. split_and!; try done. by rewrite insert_id.
  - pose proof Hw as (Hc2 & Hpos2 & Hu & _).
    exists (record_event (EventPositionClose pid) s2), (PositionOps.with_state PositionState.Closed lp).
    assert (Hsur : forall a, surplus a (record_event (EventPositionClose pid) s2) = surplus a s).
    { intros a. change (surplus a s2 = surplus a s).
      rewrite (written_surplus _ _ _ _ a Hw), Hl, holds_with_state. cbn [from_option]. lia. }
    split_and!; [done| |done|exact (unindexed_pending _ _ Hu)|exact Hpos2|done|done|done|intros a; exact (balance_unindexed a _ _ Hu)].
    apply invariant_intro.
    + by eapply consistent_frame; [|exact Hc2].
    + intros a. change (is_u128 (Vcb.balance a s2)). eapply written_balances; [exact Hw|apply Hs].
    + intros a. rewrite Hsur. apply Hs.
    + eapply (pending_after Delivering Delivering s); [done|exact Hpos2|exact (unindexed_pending _ _ Hu)|done|done].
    + intros _. exact (covered_settings _ _ (Hf eq_refl) Hset Hsur).
Qed.

(** What the holdings of a stored position are worth as inflows. *)
Lemma withdrawn_inflow id lp b a :
  sound_position id lp -> @ReservesOps.balance string (reserves lp) (pair (phi lp)) = Ok b ->
  0 <= PositionOps.holds lp a /\ @inflow string b a = Ok (mkValue (PositionOps.holds lp a) a).
Proof.
  intros (_ & Hty & Hwf) Hb. pose proof (holds_nonneg lp a (typed_sound lp Hty Hwf)) as Hnn.
  destruct Hty as (H1 & H2 & _). destruct (ReservesOps.balance_denote _ _ _ H1 H2 Hb) as [Hwfb Hden].
  change (forall a, Balance.denote b a = PositionOps.holds lp a) in Hden.
  split; [done|]. rewrite <- Hden. apply inflow_run; [done|]. rewrite Hden. split; [done|].
  unfold PositionOps.holds, ReservesOps.holds, in_width in *. destruct Hwf as [_ Hne].
  repeat case_decide; congruence || lia.
Qed.

(** Closing and withdrawing keep the invariant of the DEX and pay out what the position held. *)
Lemma recover_position_spec d pid c :
  valid d -> DexMachine.invariant (Delivering, dex_of c) -> tracks (dex_of c) d pid ->
  exists b ds' x y, recover_position pid c = (Ok b, mkChain ds' (auction_of c))
    /\ DexMachine.invariant (Delivering, ds') /\ settings ds' = settings (dex_of c)
    /\ pending_position_closures ds' = pending_position_closures (dex_of c)
    /\ (exists lp', positions ds' = after (positions (dex_of c)) pid lp')
    /\ 0 <= x /\ 0 <= y
    /\ @inflow string b (value_asset (auction_input d)) = Ok (mkValue x (value_asset (auction_input d)))
    /\ @inflow string b (output_id d) = Ok (mkValue y (output_id d))
    /\ forall a, Vcb.balance a ds' = Vcb.balance a (dex_of c) - both d x y a.
Proof.
  intros Hd Hinv (lp & Hl & Hst & Hpair & Hq). set (s := dex_of c) in *.
  destruct (close_unqueued pid lp s Hinv Hl Hst Hq)
    as (s1 & lp1 & H1 & Hinv1 & Hset1 & Hq1 & Hpos1 & Hst1 & Hphi1 & Hr1 & Hb1).
  assert (Hl1 : positions s1 !! pid = Some lp1) by (rewrite Hpos1; apply lookup_insert_eq).
  destruct (withdraw_total pid lp1 0 s1 Hinv1 Hl1) as (b & s2 & H2); [by left|].
  pose proof (withdraw_settings _ _ _ _ _ H2) as Hset2.
  pose proof Hinv1 as (Hc1 & Hs1 & Hp1 & Hf1). cbn [fst snd] in Hc1, Hs1, Hp1, Hf1.
  destruct (withdraw_spec _ _ _ _ _ Hc1 Hs1 H2) as (lq & Hlq & _ & Hbal & Hc2 & Hpos2 & Hq2 & Ht2 & Hb2 & Hsur2).
  rewrite Hl1 in Hlq. injection Hlq as <-.
  pose proof (fun a => withdrawn_inflow pid lp1 b a (consistent_positions _ Hc1 pid lp1 Hl1) Hbal) as Hin.
  exists b, s2, (PositionOps.holds lp1 (value_asset (auction_input d))), (PositionOps.holds lp1 (output_id d)).
  split_and!; [| |congruence|congruence| |apply Hin|apply Hin|apply Hin|apply Hin|].
  - unfold recover_position. erewrite bind_run_ok by (apply on_dex_run; exact H1).
    exact (on_dex_run _ (mkChain s1 (auction_of c)) _ _ H2).
  - apply invariant_intro; [done|done|intros a; rewrite Hsur2; apply Hs1| |intros _; exact (covered_settings _ _ (Hf1 eq_refl) Hset2 Hsur2)].
    eapply (pending_after Delivering Delivering s1); [done|exact Hpos2|done|done|]. by rewrite Hq1.
  - eexists. rewrite Hpos2, Hpos1. by rewrite insert_insert_eq.
  - intros a. rewrite Hb2, Hb1. rewrite <- (holds_both d lp1 a Hd) by congruence. done.
Qed.
End Recover.

(** ** Deploying a position *)

Section Allocate.
Context `{DexEnv} `{AuctionEnv}.
Import DutchAuctionManager DexMachine.

Lemma attempt_facts d r i x y n k lp :
  start d <> end_ d -> is_u128 r -> 0 < x <= MAX_RESERVE_AMOUNT -> 0 < y <= MAX_RESERVE_AMOUNT ->
  lp = attempt_position d r i x y n k ->
  state lp = PositionState.Opened /\ PositionOps.typed lp /\ Typed.wf (phi lp)
  /\ pair (phi lp) = Pair.new (start d) (end_ d)
  /\ forall c, PositionOps.holds lp c = Typed.carries (mkValue r (start d)) c.
Proof.
  change MAX_RESERVE_AMOUNT with (2 ^ 80 - 1).
  intros Hne Hr Hx Hy ->. unfold in_width in Hr.
  unfold attempt_position, PositionOps.new_with_nonce, Pair.to_canonical, Pair.new.
  destruct (Z.ltb_spec (start d) (end_ d)); cbn [asset_1 asset_2];
    [rewrite Z.eqb_refl | rewrite (proj2 (Z.eqb_neq _ _)) by done]; cbn [negb];
    unfold PositionOps.typed, Typed.wf, Bare.wf, PositionOps.holds, ReservesOps.holds, Typed.carries, in_width, MAX_FEE_BPS;
    change MAX_RESERVE_AMOUNT with (2 ^ 80 - 1);
    cbn [state reserves phi pair component Typed.new fee p q r1 r2 asset_1 asset_2 value_asset amount];
    split_and!; try lia; try done; intros c; repeat case_decide; congruence || lia.
Qed.

Section Freshness.
Context {CF : CollisionFree}.
Context (d : DirectedTradingPair) (r i x y : Z) (n : list Z).

Lemma le_bytes_injective k a b :
  0 <= a < 256 ^ Z.of_nat k -> 0 <= b < 256 ^ Z.of_nat k -> le_bytes k a = le_bytes k b -> a = b.
Proof. intros Ha Hb He. rewrite <- (of_le_bytes_le_bytes k a Ha), <- (of_le_bytes_le_bytes k b Hb). by rewrite He. Qed.

Lemma attempt_ids k k' :
  is_u64 k -> is_u64 k' ->
  PositionOps.id (attempt_position d r i x y n k) = PositionOps.id (attempt_position d r i x y n k') -> k = k'.
Proof.
  intros Hk Hk'. unfold PositionOps.id. intros He%lp_hash_injective.
  assert (Hphi : phi (attempt_position d r i x y n k) = phi (attempt_position d r i x y n k')).
  { unfold attempt_position, PositionOps.new_with_nonce. by destruct (negb _). }
  rewrite Hphi in He. apply app_inv_tail in He.
  assert (Hn : forall j, nonce (attempt_position d r i x y n j)
    = position_nonce_hash (n ++ le_bytes 8 i ++ le_bytes 8 j)).
  { intros j. unfold attempt_position, PositionOps.new_with_nonce. by destruct (negb _). }
  rewrite !Hn in He. apply position_nonce_injective in He.
  apply app_inv_head, app_inv_head in He. by eapply (le_bytes_injective 8).
Qed.

(** Among one more attempt than there are positions, one is fresh. *)
Lemma fresh_attempt (ps : position_map) :
  Z.of_nat (size ps) < 2 ^ 32 ->
  exists j : nat, (j < S (size ps))%nat /\ ps !! PositionOps.id (attempt_position d r i x y n (Z.of_nat j)) = None.
Proof.
  intros Hs. set (ids := (fun j : nat => PositionOps.id (attempt_position d r i x y n (Z.of_nat j))) <$> seq 0 (S (size ps))).
  destruct (decide (Forall (fun id => is_Some (ps !! id)) ids)) as [Hall|Hex].
  - exfalso. assert (Hnd : NoDup ids).
    { apply NoDup_fmap_2_strong; [|apply NoDup_seq]. intros a b Ha%elem_of_seq Hb%elem_of_seq Heq.
      apply attempt_ids in Heq; unfold in_width; lia. }
    assert (Hsub : (list_to_set ids : gset position_id) ⊆ dom ps).
    { intros id Hid%elem_of_list_to_set. apply elem_of_dom. by eapply Forall_forall in Hall. }
    apply subseteq_size in Hsub. rewrite size_list_to_set, size_dom in Hsub by done.
    unfold ids in Hsub. rewrite length_fmap, length_seq in Hsub. lia.
  - apply not_Forall_Exists in Hex; [|apply _]. apply Exists_exists in Hex as (id & Hid & Hn).
    apply list_elem_of_fmap in Hid as (j & -> & Hj%elem_of_seq). exists j. split; [lia|].
    by apply eq_None_not_Some.
Qed.

Lemma allocate_loop_run c : forall fuel k,
  0 <= k -> k + Z.of_nat fuel < 2 ^ 64 ->
  (exists j : nat, (j < fuel)%nat
     /\ positions (dex_of c) !! PositionOps.id (attempt_position d r i x y n (k + Z.of_nat j)) = None) ->
  exists m, positions (dex_of c) !! PositionOps.id (attempt_position d r i x y n m) = None
    /\ allocate_loop fuel d r i x y n k c = deploy (attempt_position d r i x y n m) c.
Proof.
  induction fuel as [|fuel IH]; intros k Hk Hlt (j & Hj & Hfresh); [lia|]. cbn [allocate_loop].
  set (lp := attempt_position d r i x y n k).
  rewrite (bind_run_ok _ _ _ _ _ (on_dex_run (gets (DexRead.position_by_id (PositionOps.id lp))) c _ _ eq_refl)).
  unfold DexRead.position_by_id. destruct c as [ds s]. cbn [dex_of auction_of] in *.
  destruct (positions ds !! PositionOps.id lp) as [old|] eqn:Hold.
  - rewrite plain_add_run by lia. rewrite bind_lift_ok. apply IH; [lia|lia|].
    destruct j as [|j]; [exfalso; rewrite Z.add_0_r in Hfresh; unfold lp in Hold; congruence|].
    exists j. split; [lia|]. by replace (k + 1 + Z.of_nat j) with (k + Z.of_nat (S j)) by lia.
  - exists k. split; [exact Hold|done].
Qed.
End Freshness.

Lemma expecting_run {S E E' A} (m : comp S E' A) s a s' : m s = (Ok a, s') -> @expecting S E E' A m s = (Ok a, s').
Proof. unfold expecting. by intros ->. Qed.

(** Room for a position that holds [v]: in the ledger of the DEX and among its positions. *)
Definition roomy (s : DexState) (v : Value) : Prop :=
  Vcb.balance (value_asset v) s + amount v < 2 ^ 128 /\ Z.of_nat (size (positions s)) + 1 < 2 ^ 32.

(** Deploying a fresh position moves its reserves from the one ledger to the other. *)
Lemma deploy_spec lp v c params :
  state lp = PositionState.Opened -> PositionOps.typed lp -> Typed.wf (phi lp) ->
  (forall a, PositionOps.holds lp a = Typed.carries v a) -> 0 <= amount v ->
  positions (dex_of c) !! PositionOps.id lp = None ->
  DexMachine.invariant (Delivering, dex_of c) -> dex_params (dex_of c) = Some params ->
  Vcb.balances_typed (auction_of c) -> amount v <= Vcb.balance (value_asset v) (auction_of c) ->
  roomy (dex_of c) v ->
  exists ds' s', deploy lp c = (Ok (PositionOps.id lp), mkChain ds' s')
    /\ DexMachine.invariant (Delivering, ds') /\ settings ds' = settings (dex_of c)
    /\ pending_position_closures ds' = pending_position_closures (dex_of c)
    /\ positions ds' = after (positions (dex_of c)) (PositionOps.id lp) lp
    /\ (forall a, Vcb.balance a ds' = Vcb.balance a (dex_of c) + Typed.carries v a)
    /\ ledgered (auction_of c) s' (fun a => - Typed.carries v a).
Proof.
  intros Ho Hty Hwf Hholds Hv Hfresh (Hc & Hs & Hp & Hf) Hparams Ht Hle [Hroom Hsize]. cbn [fst snd] in Hc, Hs, Hp, Hf.
  destruct c as [ds s]. cbn [dex_of auction_of] in *. unfold deploy. pose proof Hwf as [_ Hne].
  assert (Hcar : forall a, Typed.carries (PositionOps.reserves_1 lp) a + Typed.carries (PositionOps.reserves_2 lp) a
    = Typed.carries v a) by (intros a; rewrite carries_reserves; apply Hholds).
  assert (Hcov : forall a, Typed.carries v a <= Vcb.balance a s).
  { intros a. specialize (Ht a). unfold Typed.carries, in_width in *. case_decide; [by subst|lia]. }
  pose proof (typed_reserves lp Hty) as [[H1 _] [H2 _]].
  destruct (auction_debit_run (PositionOps.reserves_1 lp) s) as (s1 & R1 & L1); [done|done| |].
  { etransitivity; [|apply Hcov]. rewrite <- Hcar. unfold Typed.carries. cbn [value_asset amount PositionOps.reserves_1 PositionOps.reserves_2].
    rewrite decide_True by done. case_decide; lia. }
  erewrite bind_run_ok by (apply expecting_run, on_auction_run; exact R1). cbn [dex_of].
  destruct (auction_debit_run (PositionOps.reserves_2 lp) s1) as (s2 & R2 & L2); [done|apply L1| |].
  { destruct L1 as (_ & _ & _ & L1). rewrite L1.
    pose proof (Hcov (value_asset (PositionOps.reserves_2 lp))) as Hb. rewrite <- Hcar in Hb.
    unfold Typed.carries in *. cbn [value_asset amount PositionOps.reserves_1 PositionOps.reserves_2] in *.
    rewrite decide_False, decide_True in Hb by done. rewrite decide_False by done. lia. }
  erewrite bind_run_ok; [|apply expecting_run; refine (on_auction_run _ (mkChain ds s1) _ _ R2)]. cbn [dex_of].
  destruct (open_total lp ds params) as [ds' R3]; try done; [apply Hs| |].
  { intros a. rewrite Hholds. pose proof (proj1 Hs a) as Hta. unfold Typed.carries, in_width in *. case_decide; [by subst|lia]. }
  erewrite bind_run_ok; [|apply expecting_run; refine (on_dex_run _ (mkChain ds s2) _ _ R3)]. cbn [auction_of].
  destruct (open_spec _ _ _ _ Hc Hs Hty Hwf R3) as (_ & _ & Hc' & Hpos & Hq & Ht' & Hsur).
  exists ds', s2. split_and!; [done| |by eapply open_settings|done|done| |].
  - apply invariant_intro; [done|done|intros a; rewrite Hsur; apply Hs|
      |intros _; exact (covered_settings _ _ (Hf eq_refl) (open_settings _ _ _ _ R3) Hsur)].
    eapply (pending_after Delivering Delivering ds); [done|exact Hpos|done|done|by left].
  - intros a. specialize (Hsur a). unfold surplus in Hsur.
    rewrite Hpos, held_after, Hfresh, Hholds in Hsur. cbn [from_option] in Hsur. lia.
  - pose proof (ledgered_trans _ _ _ _ _ L1 L2) as (? & ? & ? & Hb). split_and!; [done|done|done|].
    intros a. rewrite Hb, <- Hcar. lia.
Qed.
End Allocate.

(** ** The invariant of the auctions *)

Section Books.
Context `{DexEnv} `{AuctionEnv} {CF : CollisionFree}.
Import DutchAuctionManager AuctionCircuitBreaker DexMachine.

(** What an auction holds, and what all of them hold together. *)
Definition reserves_of (a : DutchAuction) (c : asset_id) : Z :=
  both (description a) (input_reserves (auction_state a)) (output_reserves (auction_state a)) c.
Definition custody (c : asset_id) (store : gmap auction_id DutchAuction) : Z :=
  map_sum (fun a => reserves_of a c) store.

(** What the component's ledger has beyond its auctions' reserves. *)
Definition slack (c : asset_id) (s : AuctionState) : Z := Vcb.balance c s - custody c (auction_store s).

Record sound_auction (ds : DexState) (ts : gset (Z * auction_id)) (id : auction_id) (a : DutchAuction) : Prop := {
  sound_id : Description.id (description a) = id;
  sound_description : valid (description a);
  sound_reserves : 0 <= input_reserves (auction_state a) /\ 0 <= output_reserves (auction_state a);
  sound_sequence : 0 <= sequence (auction_state a);
  sound_opened : sequence (auction_state a) = 0 ->
    exists h, next_trigger (auction_state a) = Some h /\ (h, id) ∈ ts;
  sound_ended : sequence (auction_state a) <> 0 ->
    current_position (auction_state a) = None /\ next_trigger (auction_state a) = None;
  sound_position_tracked : forall pid, current_position (auction_state a) = Some pid -> tracks ds (description a) pid;
}.

(** A trigger is an opened auction's next one, or was left by an auction that was emptied. *)
Definition sound_trigger (h : Z) (a : DutchAuction) : Prop :=
  next_trigger (auction_state a) = Some h
  \/ (sequence (auction_state a) <> 0 /\ input_reserves (auction_state a) = 0
      /\ output_reserves (auction_state a) = 0).

Record books (ds : DexState) (s : AuctionState) : Prop := {
  books_auctions : map_Forall (sound_auction ds (triggers s)) (auction_store s);
  books_triggers : forall h id, (h, id) ∈ triggers s -> exists a, auction_store s !! id = Some a /\ sound_trigger h a;
  books_one h h' id : (h, id) ∈ triggers s -> (h', id) ∈ triggers s -> h = h';
  books_distinct : forall i j a b pid, auction_store s !! i = Some a -> auction_store s !! j = Some b ->
    current_position (auction_state a) = Some pid -> current_position (auction_state b) = Some pid -> i = j;
  books_typed : Vcb.balances_typed s;
  books_covered : forall c, 0 <= slack c s;
}.

Definition total (a : asset_id) (c : Chain) : Z := Vcb.balance a (dex_of c) + Vcb.balance a (auction_of c).

(** ** Recovering and absorbing *)

Lemma both_nonneg d x y a : 0 <= x -> 0 <= y -> 0 <= both d x y a.
Proof. intros. unfold both, Typed.carries. repeat case_decide; cbn [amount]; lia. Qed.

Lemma both_add d x y x' y' a : both d (x + x') (y + y') a = both d x y a + both d x' y' a.
Proof. unfold both, Typed.carries. cbn [amount value_asset]. repeat case_decide; lia. Qed.

Lemma both_zero d a : both d 0 0 a = 0.
Proof. unfold both, Typed.carries. cbn [amount]. by repeat case_decide. Qed.

Lemma zero_inflow {E} a : @inflow E Balance.zero a = Ok (mkValue 0 a).
Proof. done. Qed.

Lemma recover_spec d cur c :
  valid d -> DexMachine.invariant (Delivering, dex_of c) ->
  (forall pid, cur = Some pid -> tracks (dex_of c) d pid) ->
  exists b ds' x y, recover cur c = (Ok b, mkChain ds' (auction_of c))
    /\ DexMachine.invariant (Delivering, ds') /\ settings ds' = settings (dex_of c)
    /\ pending_position_closures ds' = pending_position_closures (dex_of c)
    /\ dom (positions ds') = dom (positions (dex_of c))
    /\ (forall i, cur <> Some i -> positions ds' !! i = positions (dex_of c) !! i)
    /\ (cur = None -> x = 0 /\ y = 0) /\ 0 <= x /\ 0 <= y
    /\ @inflow string b (value_asset (auction_input d)) = Ok (mkValue x (value_asset (auction_input d)))
    /\ @inflow string b (output_id d) = Ok (mkValue y (output_id d))
    /\ forall a, Vcb.balance a ds' = Vcb.balance a (dex_of c) - both d x y a.
Proof.
  intros Hd Hinv Htr. destruct cur as [pid|]; cbn [recover].
  - pose proof (Htr pid eq_refl) as Ht. destruct (recover_position_spec d pid c Hd Hinv Ht)
      as (b & ds' & x & y & Hr & Hinv' & Hset & Hq & (lp' & Hpos) & Hx & Hy & Hi & Ho & Hb).
    exists b, ds', x, y. split_and!; try done.
    + rewrite Hpos, dom_insert_L. destruct Ht as (lp & Hl & _). apply elem_of_dom_2 in Hl. set_solver.
    + intros i Hi'. rewrite Hpos, lookup_insert_ne; [done|congruence].
  - exists Balance.zero, (dex_of c), 0, 0. split_and!; try done; [by destruct c|].
    intros a. rewrite both_zero. lia.
Qed.

Lemma absorb_spec d b x y c :
  @inflow string b (value_asset (auction_input d)) = Ok (mkValue x (value_asset (auction_input d))) ->
  @inflow string b (output_id d) = Ok (mkValue y (output_id d)) ->
  valid d -> 0 <= x -> 0 <= y -> Vcb.balances_typed (auction_of c) ->
  (forall a, Vcb.balance a (auction_of c) + both d x y a < 2 ^ 128) ->
  exists s', absorb b (value_asset (auction_input d)) (output_id d) c = (Ok (x, y), mkChain (dex_of c) s')
    /\ ledgered (auction_of c) s' (both d x y).
Proof.
  intros Hx Hy Hd Hx0 Hy0 Ht Hfit. destruct c as [ds s]. cbn [dex_of auction_of] in *. pose proof (valid_assets d Hd).
  unfold absorb. rewrite Hx, bind_lift_ok, Hy, bind_lift_ok.
  destruct (auction_credit_run (mkValue x (value_asset (auction_input d))) s) as (s1 & R1 & L1); [done|done| |].
  { specialize (Hfit (value_asset (auction_input d))). unfold both, Typed.carries in Hfit. cbn [value_asset amount] in *.
    rewrite decide_True in Hfit by done. case_decide; lia. }
  erewrite bind_run_ok by (apply on_auction_run; exact R1).
  destruct (auction_credit_run (mkValue y (output_id d)) s1) as (s2 & R2 & L2); [done|apply L1| |].
  { destruct L1 as (_ & _ & _ & L1). rewrite L1. specialize (Hfit (output_id d)).
    unfold both, Typed.carries in *. cbn [value_asset amount] in *. rewrite (decide_True (P := output_id d = _)) in Hfit by done. lia. }
  erewrite bind_run_ok; [|refine (on_auction_run _ (mkChain ds s1) _ _ R2)].
  exists s2. split; [done|]. exact (ledgered_trans _ _ _ _ _ L1 L2).
Qed.
End Books.
