(* ===== verification/AuctionSteps.v ===== *)
(** * Executing auctions

    What one execution of a triggered auction does to the states of the auctions and of the DEX
    ([execute_spec]), and that it keeps the invariant of both ([execute_books]). *)

From S2P Require Import Prelude.
From S2P Require Import Num.
From S2P Require Import Asset.
From S2P Require Import TradingFunction.
From S2P Require Import Position.
From S2P Require Import Vcb.
From S2P Require Import DexState.
From S2P Require Import Indexes.
From S2P Require Import IndexFacts.
From S2P Require Import PositionManager.
From S2P Require Import PositionFacts.
From S2P Require Import DexMachine.
From S2P Require Import OpeningFacts.
From S2P Require Import Auction.
From S2P Require Import AuctionFacts.

Section Steps.
Context `{DexEnv} `{AuctionEnv} {CF : CollisionFree}.
Import DutchAuctionManager DexMachine.

(** ** Allocating the position of a step *)

Lemma pending_exists s i : pending_ok Delivering s -> i ∈ pending_position_closures s -> is_Some (positions s !! i).
Proof. intros Hp Hi. destruct (Hp i Hi) as (lp & Hl & _). by eexists. Qed.

Lemma allocate_spec d r i c params :
  valid d -> 0 <= i < step_count d -> is_u128 r ->
  r <= Vcb.balance (value_asset (auction_input d)) (auction_of c) ->
  DexMachine.invariant (Delivering, dex_of c) -> dex_params (dex_of c) = Some params ->
  Vcb.balances_typed (auction_of c) -> roomy (dex_of c) (mkValue r (value_asset (auction_input d))) ->
  exists o ds' s', allocate_position (mkDirected (value_asset (auction_input d)) (output_id d)) r i
      (target_output d i, scaled_input d) (auction_nonce d) c = (Ok o, mkChain ds' s')
    /\ DexMachine.invariant (Delivering, ds') /\ settings ds' = settings (dex_of c)
    /\ pending_position_closures ds' = pending_position_closures (dex_of c)
    /\ match o with
       | None => is_enabled params = false /\ ds' = dex_of c /\ s' = auction_of c
       | Some pid => is_enabled params = true /\ positions (dex_of c) !! pid = None
           /\ (exists lp, positions ds' = after (positions (dex_of c)) pid lp /\ state lp = PositionState.Opened
                /\ pair (phi lp) = Pair.new (value_asset (auction_input d)) (output_id d))
           /\ (forall a, Vcb.balance a ds' = Vcb.balance a (dex_of c) + both d r 0 a)
           /\ ledgered (auction_of c) s' (fun a => - both d r 0 a)
       end.
Proof.
  intros Hd Hi Hr Hle Hinv Hp Ht Hroom. pose proof (pq_bounds d Hd i Hi) as [Hx Hy].
  unfold allocate_position, DexRead.get_dex_params.
  assert (Hget : expecting (on_dex (o <- gets dex_params;; lift (ok_or o "Missing DexParameters"))) c
    = (Ok params, c) :> outcome string DexParameters * Chain).
  { unfold expecting, on_dex, bind, gets, lift. rewrite Hp. by destruct c. }
  rewrite (bind_run_ok _ _ _ _ _ Hget). destruct (is_enabled params) eqn:He; cbn [negb].
  2: { exists None, (dex_of c), (auction_of c). split_and!; try done. by destruct c. }
  rewrite bind_gets. cbn [fst snd].
  set (dir := mkDirected (value_asset (auction_input d)) (output_id d)).
  destruct (allocate_loop_run dir r i (target_output d i) (scaled_input d) (auction_nonce d) c (attempts c) 0)
    as (m & Hfresh & Hrun); [lia| | |].
  { unfold attempts. destruct Hroom as [_ Hs]. lia. }
  { apply fresh_attempt. destruct Hroom as [_ Hs]. lia. }
  set (lp := attempt_position dir r i (target_output d i) (scaled_input d) (auction_nonce d) m) in *.
  destruct (attempt_facts dir r i (target_output d i) (scaled_input d) (auction_nonce d) m lp)
    as (Ho & Hty & Hwf & Hpair & Hholds); [exact (valid_assets d Hd)|done|done|done|done|].
  destruct (deploy_spec lp (mkValue r (value_asset (auction_input d))) c params)
    as (ds' & s' & Hdep & Hinv' & Hset & Hq & Hpos & Hb & L); try done; [apply Hr|].
  assert (Hv : forall a, Typed.carries (mkValue r (value_asset (auction_input d))) a = both d r 0 a).
  { intros a. unfold both, Typed.carries. cbn [amount value_asset]. repeat case_decide; lia. }
  exists (Some (PositionOps.id lp)), ds', s'.
  split_and!; [|done|done|done|done|done|by exists lp|intros a; rewrite Hb, Hv; done|].
  - rewrite <- Hrun in Hdep. by rewrite (bind_run_ok _ _ _ _ _ Hdep).
  - destruct L as (? & ? & ? & L). split_and!; [done|done|done|]. intros a. by rewrite L, Hv.
Qed.

(** ** One execution *)

(** What an execution at height [h] makes of the auction [a], stored under [id]. *)
Record executed (id : auction_id) (h : Z) (a : DutchAuction) (c c' : Chain) (a' : DutchAuction) : Prop := {
  executed_dex : DexMachine.invariant (Delivering, dex_of c');
  executed_settings : settings (dex_of c') = settings (dex_of c);
  executed_pending : pending_position_closures (dex_of c') = pending_position_closures (dex_of c);
  executed_others i : current_position (auction_state a) <> Some i -> is_Some (positions (dex_of c) !! i) ->
    positions (dex_of c') !! i = positions (dex_of c) !! i;
  executed_size : Z.of_nat (size (positions (dex_of c'))) <= Z.of_nat (size (positions (dex_of c))) + 1;
  executed_store : auction_store (auction_of c') = <[id := a']> (auction_store (auction_of c));
  executed_description : description a' = description a;
  executed_reserves : 0 <= input_reserves (auction_state a') /\ 0 <= output_reserves (auction_state a');
  executed_typed : Vcb.balances_typed (auction_of c');
  executed_total b : total b c' = total b c;
  executed_slack b :
    Vcb.balance b (auction_of c) - reserves_of a b <= Vcb.balance b (auction_of c') - reserves_of a' b;
  executed_exact params b : dex_params (dex_of c) = Some params -> is_enabled params = true ->
    Vcb.balance b (auction_of c) - reserves_of a b = Vcb.balance b (auction_of c') - reserves_of a' b;
  executed_next :
    (sequence (auction_state a') = 1 /\ current_position (auction_state a') = None
       /\ next_trigger (auction_state a') = None
       /\ triggers (auction_of c') = triggers (auction_of c) ∖ {[ (h, id) ]})
    \/ (sequence (auction_state a') = 0 /\ step_at (description a) h < step_count (description a)
       /\ next_trigger (auction_state a') = Some (next_height (description a) h)
       /\ triggers (auction_of c') = {[ (next_height (description a) h, id) ]} ∪ triggers (auction_of c) ∖ {[ (h, id) ]}
       /\ input_reserves (auction_state a') = 0
       /\ forall pid, current_position (auction_state a') = Some pid ->
            positions (dex_of c) !! pid = None /\ tracks (dex_of c') (description a) pid);
}.

(** The round is over: nothing but the record of the auction changes. *)
Lemma next_round_closes id d st h i x y c :
  (step_count d <=? i) || (x =? 0) = true ->
  next_round id d st h i x y c = (Ok (mkDutchState 1 None None x y), c).
Proof. intros Hb. unfold next_round. by rewrite Hb. Qed.

(** Another round: the input is put up on the DEX and the next trigger set. *)
Lemma next_round_continues id d st h x y c params :
  valid d -> step_at d h < step_count d -> 0 < x < 2 ^ 128 ->
  x <= Vcb.balance (value_asset (auction_input d)) (auction_of c) ->
  DexMachine.invariant (Delivering, dex_of c) -> dex_params (dex_of c) = Some params ->
  Vcb.balances_typed (auction_of c) -> roomy (dex_of c) (mkValue x (value_asset (auction_input d))) ->
  exists o ds' s', next_round id d st h (step_at d h) x y c
      = (Ok (mkDutchState (sequence st) o (Some (next_height d h)) 0 y), mkChain ds' s')
    /\ DexMachine.invariant (Delivering, ds') /\ settings ds' = settings (dex_of c)
    /\ pending_position_closures ds' = pending_position_closures (dex_of c)
    /\ (forall i, is_Some (positions (dex_of c) !! i) -> positions ds' !! i = positions (dex_of c) !! i)
    /\ Z.of_nat (size (positions ds')) <= Z.of_nat (size (positions (dex_of c))) + 1
    /\ auction_store s' = auction_store (auction_of c) /\ Vcb.balances_typed s'
    /\ triggers s' = {[ (next_height d h, id) ]} ∪ triggers (auction_of c)
    /\ (forall pid, o = Some pid -> positions (dex_of c) !! pid = None /\ tracks ds' d pid)
    /\ exists spent, (spent = x \/ spent = 0) /\ (is_enabled params = true -> spent = x)
       /\ (is_enabled params = false -> o = None /\ ds' = dex_of c /\ spent = 0)
       /\ (forall a, Vcb.balance a ds' = Vcb.balance a (dex_of c) + both d spent 0 a)
       /\ (forall a, Vcb.balance a s' = Vcb.balance a (auction_of c) - both d spent 0 a).
Proof.
  intros Hd Hi Hx Hle Hinv Hp Ht Hroom. pose proof (step_at_nonneg d Hd h) as Hi0.
  destruct (allocate_spec d x (step_at d h) c params) as (o & ds' & s' & Ha & Hinv' & Hset & Hq & Ho);
    try done; [unfold in_width; lia|].
  unfold next_round. rewrite (proj2 (Z.leb_gt _ _)) by done. rewrite (proj2 (Z.eqb_neq x 0)) by lia. cbn [orb].
  rewrite (next_trigger_run d Hd h Hi), bind_lift_ok, (pq_run d Hd) by lia. rewrite bind_lift_ok.
  rewrite (bind_run_ok _ _ _ _ _ Ha).
  pose proof (next_height_bounds d Hd h Hi). pose proof (valid_heights d Hd).
  unfold non_zero. rewrite (proj2 (Z.eqb_neq (next_height d h) 0)) by lia.
  set (s2 := set_triggers ({[ (next_height d h, id) ]} ∪ triggers s') s').
  exists o, ds', s2. split_and!; [by erewrite bind_run_ok by reflexivity|done|done|done|..].
  all: destruct o as [pid|]; [destruct Ho as (He & Hfresh & (lp & Hpos & Hst & Hpair) & Hb & Hs1 & Hs2 & Hs3 & Hs4)|destruct Ho as (He & -> & ->)].
  all: try (cbn [s2 auction_store triggers set_triggers]; done).
  - intros i [l Hl]. rewrite Hpos, lookup_insert_ne; [done|congruence].
  - rewrite Hpos, map_size_insert_None by done. lia.
  - lia.
  - cbn [s2 triggers set_triggers]. by rewrite Hs2.
  - intros ? [= <-]. split; [done|]. exists lp. rewrite Hpos, lookup_insert_eq. split_and!; [done|by left|done|].
    rewrite Hq. intros Hin. apply (pending_exists _ _ (proj1 (proj2 (proj2 Hinv)))) in Hin as [? Hin]. cbn [snd] in Hin. congruence.
  - exists x. split_and!; [by left|done|congruence|done|]. intros a. change (Vcb.balance a s2) with (Vcb.balance a s'). rewrite Hs4. lia.
  - exists 0. split_and!; [by right|congruence|done|..]; intros a; rewrite both_zero; [lia|].
    change (Vcb.balance a s2) with (Vcb.balance a (auction_of c)). lia.
Qed.

(** There is room for what the two ledgers hold together, for one more position, and parameters. *)
Record capacity (c : Chain) (params : DexParameters) : Prop := {
  capacity_params : dex_params (dex_of c) = Some params;
  capacity_total b : total b c < 2 ^ 128;
  capacity_size : Z.of_nat (size (positions (dex_of c))) + 1 < 2 ^ 32;
}.

Lemma balance_nonneg_dex c b : DexMachine.invariant (Delivering, dex_of c) -> 0 <= Vcb.balance b (dex_of c).
Proof. intros (_ & [Ht _] & _). apply (Ht b). Qed.

Lemma reserves_le_custody ds s id a b :
  books ds s -> auction_store s !! id = Some a -> reserves_of a b <= Vcb.balance b s.
Proof.
  intros Hb Ha. pose proof (books_covered _ _ Hb b) as Hc. unfold slack, custody in Hc.
  enough (reserves_of a b <= map_sum (fun a => reserves_of a b) (auction_store s)) by lia.
  apply (map_sum_lookup_le (fun a => reserves_of a b) _ id); [|done]. intros k v Hk.
  destruct (sound_reserves _ _ _ _ (books_auctions _ _ Hb k v Hk)). by apply both_nonneg.
Qed.

(** The chain when the position's value is back in the auction's reserves: [x] of its input and [y]
    of its output have moved from the one ledger to the other. *)
Record recovered (id : auction_id) (h : Z) (a : DutchAuction) (c : Chain) (x y : Z) (c1 : Chain) : Prop := {
  recovered_dex : DexMachine.invariant (Delivering, dex_of c1);
  recovered_settings : settings (dex_of c1) = settings (dex_of c);
  recovered_pending : pending_position_closures (dex_of c1) = pending_position_closures (dex_of c);
  recovered_dom : dom (positions (dex_of c1)) = dom (positions (dex_of c));
  recovered_others i : current_position (auction_state a) <> Some i ->
    positions (dex_of c1) !! i = positions (dex_of c) !! i;
  recovered_nothing : current_position (auction_state a) = None -> x = 0 /\ y = 0;
  recovered_bounds : 0 <= x /\ 0 <= y;
  recovered_fit : input_reserves (auction_state a) + x < 2 ^ 128 /\ output_reserves (auction_state a) + y < 2 ^ 128;
  recovered_store : auction_store (auction_of c1) = auction_store (auction_of c);
  recovered_triggers : triggers (auction_of c1) = triggers (auction_of c) ∖ {[ (h, id) ]};
  recovered_typed : Vcb.balances_typed (auction_of c1);
  recovered_out b : Vcb.balance b (dex_of c1) = Vcb.balance b (dex_of c) - both (description a) x y b;
  recovered_in b : Vcb.balance b (auction_of c1) = Vcb.balance b (auction_of c) + both (description a) x y b;
}.

(** The rest of an execution. *)
Definition rest_of_execution (id : auction_id) (h : Z) (a : DutchAuction) (input output : Z) : auctions unit :=
  let d := description a in
  new_state <- next_round id d (auction_state a) h (step_at d h) input output;;
  write_dutch_auction_state (mkAuction d new_state);;;
  emit (if step_count d <=? step_at d h then EventDutchAuctionEnded id new_state Expired
        else if input =? 0 then EventDutchAuctionEnded id new_state Filled
        else EventDutchAuctionUpdated id new_state).

(** Reserves that grow by [x] and [y] within both ledgers' total still fit. *)
Lemma reserves_fit ds s id a x y :
  books ds s -> auction_store s !! id = Some a -> valid (description a) -> 0 <= x -> 0 <= y ->
  (forall e, Vcb.balance e s + both (description a) x y e < 2 ^ 128) ->
  input_reserves (auction_state a) + x < 2 ^ 128 /\ output_reserves (auction_state a) + y < 2 ^ 128.
Proof.
  intros Hbooks Ha Hd Hx Hy Hfit. pose proof (fun e => reserves_le_custody _ _ id a e Hbooks Ha) as Hle.
  pose proof (Hle (value_asset (auction_input (description a)))) as H1. pose proof (Hle (output_id (description a))) as H2.
  pose proof (Hfit (value_asset (auction_input (description a)))) as H3. pose proof (Hfit (output_id (description a))) as H4.
  pose proof (valid_assets _ Hd). pose proof (sound_reserves _ _ _ _ (books_auctions _ _ Hbooks id a Ha)).
  unfold reserves_of, both, Typed.carries in *. cbn [value_asset amount] in *.
  repeat case_decide; congruence || lia.
Qed.

Lemma execute_prefix id h a c params :
  books (dex_of c) (auction_of c) -> DexMachine.invariant (Delivering, dex_of c) -> capacity c params ->
  auction_store (auction_of c) !! id = Some a ->
  exists c1 x y, recovered id h a c x y c1
    /\ execute_dutch_auction id h c
       = rest_of_execution id h a (input_reserves (auction_state a) + x) (output_reserves (auction_state a) + y) c1.
Proof.
  intros Hbooks Hinv Hcap Ha. pose proof (books_auctions _ _ Hbooks id a Ha) as Hs.
  pose proof (sound_description _ _ _ _ Hs) as Hd.
  destruct (recover_spec (description a) (current_position (auction_state a)) c Hd Hinv (sound_position_tracked _ _ _ _ Hs))
    as (b & ds' & x & y & Hr & Hinv' & Hset & Hq & Hdom & Hoth & Hxy & Hx & Hy & Hix & Hiy & Hb).
  set (s1 := set_triggers (triggers (auction_of c) ∖ {[ (h, id) ]}) (auction_of c)).
  assert (Hfit : forall e, Vcb.balance e (auction_of c) + both (description a) x y e < 2 ^ 128).
  { intros e. pose proof (capacity_total _ _ Hcap e) as Ht. pose proof (balance_nonneg_dex (mkChain ds' s1) e Hinv').
    cbn [dex_of] in *. rewrite Hb in *. unfold total in Ht. lia. }
  destruct (absorb_spec (description a) b x y (mkChain ds' s1) Hix Hiy Hd Hx Hy (books_typed _ _ Hbooks) Hfit)
    as (s2 & Hab & Hst2 & Htr2 & Hty2 & Hb2). cbn [auction_of dex_of] in Hab, Hst2, Htr2, Hb2.
  pose proof (reserves_fit _ _ id a x y Hbooks Ha Hd Hx Hy Hfit) as Hin.
  exists (mkChain ds' s2), x, y. split; [by split|].
  unfold execute_dutch_auction. rewrite (bind_run_ok _ _ _ _ _ (on_auction_run (gets (get_dutch_auction_by_id id)) c _ _ eq_refl)).
  unfold get_dutch_auction_by_id. rewrite Ha. cbn [expect_some]. rewrite bind_lift_ok.
  assert (Hc : mkChain (dex_of c) (auction_of c) = c) by (by destruct c). rewrite Hc.
  rewrite (bind_run_ok _ _ _ _ _ (expecting_run _ _ _ _ Hr)).
  erewrite bind_run_ok; [|refine (on_auction_run _ (mkChain ds' (auction_of c)) _ _ _); reflexivity]. cbn [dex_of auction_of].
  fold s1. rewrite (bind_run_ok _ _ _ _ _ Hab). cbn [fst snd].
  rewrite !plain_add_run by apply Hin. rewrite !bind_lift_ok.
  rewrite (step_index_run _ Hd). cbn [expect_ok]. by rewrite bind_lift_ok.
Qed.

(** Writing the new state of the auction and its event. *)
Lemma write_and_emit id d st e c :
  Description.id d = id ->
  exists s', (write_dutch_auction_state (mkAuction d st);;; emit e) c = (Ok tt, mkChain (dex_of c) s')
    /\ auction_store s' = <[id := mkAuction d st]> (auction_store (auction_of c))
    /\ triggers s' = triggers (auction_of c)
    /\ (Vcb.balances_typed (auction_of c) -> Vcb.balances_typed s')
    /\ forall b, Vcb.balance b s' = Vcb.balance b (auction_of c).
Proof. intros <-. eexists. split; [reflexivity|]. by split_and!. Qed.

Lemma size_of_dom (m m' : position_map) : dom m' = dom m -> size m' = size m.
Proof. intros Hd. by rewrite <- !size_dom, Hd. Qed.

(** The auction is over. *)
Lemma rest_closes id h a c x y c1 :
  Description.id (description a) = id -> recovered id h a c x y c1 ->
  0 <= input_reserves (auction_state a) -> 0 <= output_reserves (auction_state a) ->
  (step_count (description a) <=? step_at (description a) h) || (input_reserves (auction_state a) + x =? 0) = true ->
  exists c' a', rest_of_execution id h a (input_reserves (auction_state a) + x) (output_reserves (auction_state a) + y) c1 = (Ok tt, c')
    /\ executed id h a c c' a'.
Proof.
  intros Hid [] H1 H2 Hend. unfold rest_of_execution. cbv zeta.
  rewrite (bind_run_ok _ _ _ _ _ (next_round_closes id (description a) (auction_state a) h _ _ _ c1 Hend)).
  set (st' := mkDutchState 1 None None (input_reserves (auction_state a) + x) (output_reserves (auction_state a) + y)).
  match goal with |- context [emit ?e] =>
    destruct (write_and_emit id (description a) st' e c1 Hid) as (s' & Hw & Hst' & Htr' & Hty' & Hb') end.
  exists (mkChain (dex_of c1) s'), (mkAuction (description a) st'). split; [exact Hw|].
  assert (Hres : forall b, reserves_of (mkAuction (description a) st') b = reserves_of a b + both (description a) x y b)
    by (intros b; apply both_add).
  split; cbn [dex_of auction_of]; try done; try (by auto).
  - rewrite (size_of_dom _ _ recovered_dom0). lia.
  - by rewrite Hst', recovered_store0.
  - cbn. lia.
  - intros b. unfold total. cbn [dex_of auction_of]. rewrite Hb', recovered_in0, recovered_out0. lia.
  - intros b. rewrite Hres, Hb', recovered_in0. lia.
  - intros p b _ _. rewrite Hres, Hb', recovered_in0. lia.
  - left. split_and!; try done. congruence.
Qed.

(** The auction goes on. *)
Lemma rest_continues id h a c x y c1 params :
  Description.id (description a) = id -> valid (description a) -> recovered id h a c x y c1 ->
  sequence (auction_state a) = 0 -> 0 <= output_reserves (auction_state a) ->
  step_at (description a) h < step_count (description a) -> 0 < input_reserves (auction_state a) + x ->
  input_reserves (auction_state a) + x <= Vcb.balance (value_asset (auction_input (description a))) (auction_of c1) ->
  capacity c params ->
  exists c' a', rest_of_execution id h a (input_reserves (auction_state a) + x) (output_reserves (auction_state a) + y) c1 = (Ok tt, c')
    /\ executed id h a c c' a'.
Proof.
  intros Hid Hd [] Hseq Ho Hstep Hin Hle Hcap. unfold rest_of_execution. cbv zeta.
  assert (Hp : dex_params (dex_of c1) = Some params).
  { pose proof (capacity_params _ _ Hcap). unfold settings in recovered_settings0. congruence. }
  assert (Hroom : roomy (dex_of c1) (mkValue (input_reserves (auction_state a) + x) (value_asset (auction_input (description a))))).
  { split; [|rewrite (size_of_dom _ _ recovered_dom0); apply Hcap]. cbn [value_asset amount].
    pose proof (capacity_total _ _ Hcap (value_asset (auction_input (description a)))) as Ht. unfold total in Ht.
    rewrite recovered_in0 in Hle. rewrite recovered_out0. lia. }
  destruct (next_round_continues id (description a) (auction_state a) h (input_reserves (auction_state a) + x)
    (output_reserves (auction_state a) + y) c1 params)
    as (o & ds' & s2 & Hn & Hinv2 & Hset2 & Hq2 & Hoth2 & Hsize2 & Hst2 & Hty2 & Htr2 & Htrk & spent & Hsp & Hen & _ & Hbd2 & Hba2);
    try done; [split; [done|apply recovered_fit0]|].
  rewrite (bind_run_ok _ _ _ _ _ Hn).
  set (st' := mkDutchState (sequence (auction_state a)) o (Some (next_height (description a) h)) 0 (output_reserves (auction_state a) + y)).
  match goal with |- context [emit ?e] =>
    destruct (write_and_emit id (description a) st' e (mkChain ds' s2) Hid) as (s' & Hw & Hst' & Htr' & Hty' & Hb') end.
  cbn [dex_of auction_of] in *. exists (mkChain ds' s'), (mkAuction (description a) st'). split; [exact Hw|].
  assert (Hres : forall b, reserves_of (mkAuction (description a) st') b
    = reserves_of a b + both (description a) x y b - both (description a) (input_reserves (auction_state a) + x) 0 b).
  { intros b. unfold reserves_of, both, Typed.carries. cbn [description auction_state st' input_reserves output_reserves value_asset amount].
    repeat case_decide; lia. }
  assert (Hspent : forall b, both (description a) spent 0 b <= both (description a) (input_reserves (auction_state a) + x) 0 b).
  { intros b. destruct Hsp as [->| ->]; [done|]. rewrite both_zero. apply both_nonneg; lia. }
  split; cbn [dex_of auction_of]; try done; try (by auto); try congruence.
  - intros i Hi Hex. rewrite Hoth2 by (rewrite recovered_others0; done). by apply recovered_others0.
  - rewrite <- (size_of_dom _ _ recovered_dom0). done.
  - cbn. lia.
  - intros b. unfold total. cbn [dex_of auction_of]. rewrite Hb', Hba2, Hbd2, recovered_in0, recovered_out0. lia.
  - intros b. rewrite Hres, Hb', Hba2, recovered_in0. specialize (Hspent b). lia.
  - intros p b Hp' He. rewrite (capacity_params _ _ Hcap) in Hp'. injection Hp' as <-.
    rewrite Hres, Hb', Hba2, recovered_in0, (Hen He). lia.
  - right. cbn [st' auction_state sequence next_trigger input_reserves current_position]. split_and!; try done; [congruence|].
    intros pid Hpid. destruct (Htrk pid Hpid) as [Hf Ht]. split; [|done].
    apply not_elem_of_dom in Hf. rewrite recovered_dom0 in Hf. by apply not_elem_of_dom.
Qed.

Lemma execute_spec id h a c params :
  books (dex_of c) (auction_of c) -> DexMachine.invariant (Delivering, dex_of c) -> capacity c params ->
  auction_store (auction_of c) !! id = Some a -> sound_trigger h a ->
  exists c' a', execute_dutch_auction id h c = (Ok tt, c') /\ executed id h a c c' a'.
Proof.
  intros Hbooks Hinv Hcap Ha Htr. pose proof (books_auctions _ _ Hbooks id a Ha) as Hs.
  destruct (execute_prefix id h a c params Hbooks Hinv Hcap Ha) as (c1 & x & y & Hrec & Hrun). rewrite Hrun.
  pose proof (sound_reserves _ _ _ _ Hs) as [Hr1 Hr2]. pose proof (recovered_bounds _ _ _ _ _ _ _ Hrec) as [Hx Hy].
  destruct ((step_count (description a) <=? step_at (description a) h) || (input_reserves (auction_state a) + x =? 0)) eqn:Hend.
  - apply rest_closes; try done. apply (sound_id _ _ _ _ Hs).
  - apply orb_false_iff in Hend as [Hstep%Z.leb_gt Hin%Z.eqb_neq].
    assert (Hseq : sequence (auction_state a) = 0).
    { destruct (Z.eq_dec (sequence (auction_state a)) 0) as [|Hne]; [done|]. exfalso.
      destruct (sound_ended _ _ _ _ Hs Hne) as [Hcur Hnext]. destruct (recovered_nothing _ _ _ _ _ _ _ Hrec Hcur).
      destruct Htr as [Htr|(_ & Htr & _)]; [congruence|lia]. }
    apply (rest_continues id h a c x y c1 params); try done; [apply (sound_id _ _ _ _ Hs)|apply (sound_description _ _ _ _ Hs)|lia|].
    pose proof (reserves_le_custody _ _ id a (value_asset (auction_input (description a))) Hbooks Ha) as Hle.
    rewrite (recovered_in _ _ _ _ _ _ _ Hrec). unfold reserves_of, both, Typed.carries in *. cbn [value_asset amount] in *.
    rewrite decide_True in Hle by done. rewrite decide_True by done. repeat case_decide; lia.
Qed.

(** ** The invariant after an execution *)

Lemma tracks_kept ds ds' d pid :
  (is_Some (positions ds !! pid) -> positions ds' !! pid = positions ds !! pid) ->
  pending_position_closures ds' = pending_position_closures ds -> tracks ds d pid -> tracks ds' d pid.
Proof.
  intros Hpos Hq (lp & Hl & Hst & Hpair & Hin). exists lp. rewrite Hq. split_and!; try done.
  rewrite Hpos; [done|by eexists].
Qed.

(** An auction other than the executed one. *)
Lemma bystander ds ds' ts ts' j b :
  sound_auction ds ts j b -> (forall h, (h, j) ∈ ts -> (h, j) ∈ ts') ->
  (forall pid, current_position (auction_state b) = Some pid -> tracks ds (description b) pid -> tracks ds' (description b) pid) ->
  sound_auction ds' ts' j b.
Proof. intros [? ? ? ? Ho ? Htr] Hts Hk. split; try done; [|by auto]. intros Hs. destruct (Ho Hs) as (h & ? & ?). eauto. Qed.

Lemma slack_insert b s s' id a a' :
  auction_store s !! id = Some a -> auction_store s' = <[id := a']> (auction_store s) ->
  slack b s' = slack b s + (Vcb.balance b s' - reserves_of a' b) - (Vcb.balance b s - reserves_of a b).
Proof.
  intros Ha Hs. unfold slack, custody. rewrite Hs, (map_sum_update _ _ id a a' Ha). lia.
Qed.

Lemma execute_books id h a c c' a' :
  books (dex_of c) (auction_of c) -> auction_store (auction_of c) !! id = Some a -> (h, id) ∈ triggers (auction_of c) ->
  executed id h a c c' a' -> books (dex_of c') (auction_of c').
Proof.
  intros Hb Ha Hin He. pose proof (books_auctions _ _ Hb id a Ha) as Hs.
  pose proof He as [_ _ Hq Hoth _ Hstore Hdesc Hres Hty _ Hslack _ Hnext].
  assert (Hkeep : forall h' j, j <> id -> (h', j) ∈ triggers (auction_of c) <-> (h', j) ∈ triggers (auction_of c')).
  { intros h' j Hj. destruct Hnext as [(_ & _ & _ & ->)|(_ & _ & _ & -> & _)]; set_solver. }
  assert (Hmine : forall h', (h', id) ∈ triggers (auction_of c') -> next_trigger (auction_state a') = Some h').
  { intros h' Hh. destruct Hnext as [(_ & _ & _ & Ht)|(_ & _ & Hn & Ht & _)]; rewrite Ht in Hh.
    - apply elem_of_difference in Hh as [Hh Hne]. rewrite (books_one _ _ Hb _ _ _ Hh Hin) in Hne. set_solver.
    - apply elem_of_union in Hh as [Hh%elem_of_singleton|[Hh Hne]%elem_of_difference]; [congruence|].
      rewrite (books_one _ _ Hb _ _ _ Hh Hin) in Hne. set_solver. }
  assert (Hself : sound_auction (dex_of c') (triggers (auction_of c')) id a').
  { split; rewrite ?Hdesc; try apply Hs; try done.
    - destruct Hnext as [(-> & _)|(-> & _)]; lia.
    - destruct Hnext as [(-> & _)|(_ & _ & -> & -> & _)]; [done|]. intros _. eexists. split; [done|set_solver].
    - destruct Hnext as [(_ & -> & -> & _)|(-> & _)]; done.
    - destruct Hnext as [(_ & -> & _)|(_ & _ & _ & _ & _ & Ht)]; [done|]. intros pid Hp. by apply Ht. }
  assert (Hnew : forall pid, current_position (auction_state a') = Some pid -> positions (dex_of c) !! pid = None).
  { destruct Hnext as [(_ & -> & _)|(_ & _ & _ & _ & _ & Ht)]; [done|]. intros pid Hp. by apply Ht. }
  assert (Hold : forall j b pid, auction_store (auction_of c) !! j = Some b ->
    current_position (auction_state b) = Some pid -> is_Some (positions (dex_of c) !! pid)).
  { intros j b pid Hj Hp. destruct (sound_position_tracked _ _ _ _ (books_auctions _ _ Hb j b Hj) pid Hp) as (lp & Hl & _). by eexists. }
  split.
  - intros j b. rewrite Hstore. intros [[<- <-]|[Hne Hj]]%lookup_insert_Some; [done|].
    eapply bystander; [exact (books_auctions _ _ Hb j b Hj)|intros h'; by apply Hkeep|].
    intros pid Hp. apply tracks_kept; [|done]. intros Hex. apply Hoth; [|done]. intros Hcur.
    by apply Hne, (books_distinct _ _ Hb id j a b pid).
  - intros h' j Hh. rewrite Hstore. destruct (decide (j = id)) as [->|Hne].
    + exists a'. rewrite lookup_insert_eq. split; [done|]. left. by apply Hmine.
    + rewrite lookup_insert_ne by done. apply (books_triggers _ _ Hb). by apply Hkeep.
  - intros h1 h2 j Hh1 Hh2. destruct (decide (j = id)) as [->|Hne].
    + pose proof (Hmine _ Hh1). pose proof (Hmine _ Hh2). congruence.
    + by apply (books_one _ _ Hb h1 h2 j); apply Hkeep.
  - intros i j b b' pid. rewrite Hstore. rewrite !lookup_insert_Some.
    intros [[<- <-]|[Hi Hbi]] [[<- <-]|[Hj Hbj]] Hp Hp'; [done| | |by eapply (books_distinct _ _ Hb)].
    + apply Hnew in Hp. destruct (Hold _ _ _ Hbj Hp'). congruence.
    + apply Hnew in Hp'. destruct (Hold _ _ _ Hbi Hp). congruence.
  - done.
  - intros e. rewrite (slack_insert e _ _ id a a' Ha Hstore). specialize (Hslack e).
    pose proof (books_covered _ _ Hb e). lia.
Qed.

(** ** All the auctions triggered at a height *)

Lemma stream_elem h s id : id ∈ stream_dutch_ids_by_trigger h s <-> (h, id) ∈ triggers s.
Proof.
  unfold stream_dutch_ids_by_trigger. rewrite merge_sort_Permutation, list_elem_of_omap. split.
  - intros ([h' id'] & Hin & Hd). case_decide; [|done]. injection Hd as ->. subst. by apply elem_of_elements.
  - intros Hin. exists (h, id). split; [by apply elem_of_elements|]. by rewrite decide_True.
Qed.

Lemma stream_nodup h s : NoDup (stream_dutch_ids_by_trigger h s).
Proof.
  unfold stream_dutch_ids_by_trigger. rewrite merge_sort_Permutation.
  apply NoDup_omap; [|apply NoDup_elements].
  intros [h1 i1] [h2 i2] b H1 H2. repeat case_decide; congruence.
Qed.

(** The state of an auction that was due at [h] once [h] has passed: closed, or waiting for a later
    trigger while its position is on the DEX. *)
Definition advanced (h : Z) (a : DutchAuction) : Prop :=
  (sequence (auction_state a) = 1 /\ current_position (auction_state a) = None)
  \/ (sequence (auction_state a) = 0 /\ h < auction_end_height (description a)
      /\ exists h', next_trigger (auction_state a) = Some h' /\ h < h' <= auction_end_height (description a)).

(** Value that the auctions and the DEX hold is neither created nor lost; while the DEX is enabled,
    none of it escapes the auctions' own records either. *)
Record settled (params : DexParameters) (c c' : Chain) : Prop := {
  settled_settings : settings (dex_of c') = settings (dex_of c);
  settled_pending : pending_position_closures (dex_of c') = pending_position_closures (dex_of c);
  settled_total b : total b c' = total b c;
  settled_slack b : slack b (auction_of c) <= slack b (auction_of c');
  settled_exact b : is_enabled params = true -> slack b (auction_of c') = slack b (auction_of c);
}.

Lemma settled_refl params c : settled params c c.
Proof. by split. Qed.

Lemma settled_trans params c1 c2 c3 : settled params c1 c2 -> settled params c2 c3 -> settled params c1 c3.
Proof.
  intros [A1 A2 A3 A4 A5] [B1 B2 B3 B4 B5]. split; [congruence|congruence| | |].
  - intros b. by rewrite B3, A3.
  - intros b. etransitivity; [apply A4|apply B4].
  - intros b He. by rewrite B5, A5.
Qed.

Lemma executed_settled id h a c c' a' params :
  auction_store (auction_of c) !! id = Some a -> dex_params (dex_of c) = Some params ->
  executed id h a c c' a' -> settled params c c'.
Proof.
  intros Ha Hp []. pose proof (fun b => slack_insert b _ _ id a a' Ha executed_store0) as Hi. split; try done.
  - intros b. rewrite Hi. specialize (executed_slack0 b). lia.
  - intros b He. rewrite Hi. specialize (executed_exact0 params b Hp He). lia.
Qed.

Lemma executed_advanced id h a c c' a' :
  valid (description a) -> executed id h a c c' a' -> advanced h a'.
Proof.
  intros Hd []. destruct executed_next0 as [(Hs & Hc & _)|(Hs & Hstep & Hn & _)]; [by left|right].
  rewrite executed_description0. pose proof (next_height_bounds _ Hd h Hstep). pose proof (next_height_later _ Hd h).
  split_and!; [done|lia|]. eexists. split; [done|lia].
Qed.

(** A position of the DEX that no auction tracks: the auctions only track positions they open. *)
Definition untracked (pid : position_id) (c : Chain) : Prop :=
  is_Some (positions (dex_of c) !! pid)
  /\ forall id a, auction_store (auction_of c) !! id = Some a -> current_position (auction_state a) <> Some pid.

Lemma executed_untracked id h a c c' a' pid :
  auction_store (auction_of c) !! id = Some a -> executed id h a c c' a' -> untracked pid c -> untracked pid c'.
Proof.
  intros Ha He [[lp Hl] Hno]. split.
  - rewrite (executed_others _ _ _ _ _ _ He); [by eexists|by apply (Hno id a)|by eexists].
  - intros j b. rewrite (executed_store _ _ _ _ _ _ He). intros [[<- <-]|[_ Hj]]%lookup_insert_Some; [|by apply (Hno j)].
    destruct (executed_next _ _ _ _ _ _ He) as [(_ & -> & _)|(_ & _ & _ & _ & _ & Hnew)]; [done|].
    intros Hp. destruct (Hnew pid Hp). congruence.
Qed.

(** Every auction of a list that is due is executed, in order. *)
Lemma execute_all h params : forall ids c,
  NoDup ids -> (forall id, id ∈ ids -> (h, id) ∈ triggers (auction_of c)) ->
  books (dex_of c) (auction_of c) -> DexMachine.invariant (Delivering, dex_of c) ->
  dex_params (dex_of c) = Some params -> (forall b, total b c < 2 ^ 128) ->
  Z.of_nat (size (positions (dex_of c))) + Z.of_nat (length ids) < 2 ^ 32 ->
  exists c', for_each ids (fun id => execute_dutch_auction id h) c = (Ok tt, c')
    /\ books (dex_of c') (auction_of c') /\ DexMachine.invariant (Delivering, dex_of c') /\ settled params c c'
    /\ (forall id a, id ∈ ids -> auction_store (auction_of c) !! id = Some a ->
          exists a', auction_store (auction_of c') !! id = Some a' /\ description a' = description a /\ advanced h a')
    /\ (forall id, id ∉ ids -> auction_store (auction_of c') !! id = auction_store (auction_of c) !! id)
    /\ (forall id, (h, id) ∈ triggers (auction_of c') -> (h, id) ∈ triggers (auction_of c) /\ id ∉ ids)
    /\ forall pid, untracked pid c -> untracked pid c'.
Proof.
  induction ids as [|id ids IH]; intros c Hnd Hin Hb Hinv Hp Ht Hsize; cbn [for_each].
  { exists c. split_and!; try done; [set_solver|]. intros id Hid. split; [done|set_solver]. }
  apply NoDup_cons in Hnd as [Hid Hnd]. assert (Htr : (h, id) ∈ triggers (auction_of c)) by (apply Hin; set_solver).
  destruct (books_triggers _ _ Hb h id Htr) as (a & Ha & Hst).
  destruct (execute_spec id h a c params Hb Hinv) as (c1 & a1 & Hr & He); [split; [done|done|cbn [length] in Hsize; lia]|done|done|].
  pose proof (execute_books id h a c c1 a1 Hb Ha Htr He) as Hb1. pose proof (executed_settled id h a c c1 a1 params Ha Hp He) as Hset.
  pose proof (sound_description _ _ _ _ (books_auctions _ _ Hb id a Ha)) as Hd.
  pose proof (executed_advanced id h a c c1 a1 Hd He) as Hadv.
  pose proof (executed_store _ _ _ _ _ _ He) as Hstore.
  assert (Hother : forall j, j <> id -> (h, j) ∈ triggers (auction_of c1) <-> (h, j) ∈ triggers (auction_of c)).
  { intros j Hj. destruct (executed_next _ _ _ _ _ _ He) as [(_ & _ & _ & ->)|(_ & _ & _ & -> & _)]; set_solver. }
  assert (Hgone : (h, id) ∉ triggers (auction_of c1)).
  { destruct (executed_next _ _ _ _ _ _ He) as [(_ & _ & _ & ->)|(_ & _ & _ & -> & _)]; [set_solver|].
    pose proof (next_height_later _ Hd h). intros [Hx%elem_of_singleton|[_ Hx]%elem_of_difference]%elem_of_union; [|set_solver].
    injection Hx as Hx. lia. }
  destruct (IH c1 Hnd) as (c' & Hr' & Hb' & Hinv' & Hset' & Hdone & Hrest & Htrig & Hun).
  - intros j Hj. apply Hother; [set_solver|]. apply Hin. set_solver.
  - done.
  - apply He.
  - pose proof (executed_settings _ _ _ _ _ _ He) as Hs. unfold settings in Hs. congruence.
  - intros b. rewrite (executed_total _ _ _ _ _ _ He). apply Ht.
  - pose proof (executed_size _ _ _ _ _ _ He). cbn [length] in Hsize. lia.
  - exists c'. split_and!; [by rewrite (bind_run_ok _ _ _ _ _ Hr)|done|done|by eapply settled_trans| | | |].
    + intros j b [->|Hj]%elem_of_cons Hjb.
      * exists a1. rewrite (Hrest id Hid), Hstore, lookup_insert_eq. rewrite Ha in Hjb. injection Hjb as <-.
        split_and!; [done|apply He|done].
      * destruct (Hdone j b Hj) as (b' & ? & ? & ?); [|by exists b'].
        rewrite Hstore, lookup_insert_ne; [done|]. intros ->. done.
    + intros j Hj. rewrite Hrest by set_solver. rewrite Hstore, lookup_insert_ne; [done|set_solver].
    + intros j Hj. destruct (Htrig j Hj) as [Hj1 Hj2]. destruct (decide (j = id)) as [->|Hne]; [done|].
      split; [by apply Hother|set_solver].
    + intros pid Hpid. by eapply Hun, executed_untracked.
Qed.
End Steps.
