(* ===== verification/AuctionMachine.v ===== *)
(** * The auctions and the DEX as one state machine

    The handlers of the auction component preserve the invariant of its books, and so do the steps
    of the DEX; [step] interleaves them, and the theorems about auctions are proved over its
    reachable states. *)

From S2P Require Import Prelude.
From S2P Require Import Num.
From S2P Require Import Asset.
From S2P Require Import TradingFunction.
From S2P Require Import Position.
From S2P Require Import Vcb.
From S2P Require Import DexState.
From S2P Require Import Indexes.
From S2P Require Import IndexFacts.
From S2P Require Import PositionManager.
From S2P Require Import PositionFacts.
From S2P Require Import DexMachine.
From S2P Require Import OpeningFacts.
From S2P Require Import Fee.
From S2P Require Import EndBlock.
From S2P Require Import BlockMachine.
From S2P Require Import Auction.
From S2P Require Import AuctionFacts.
From S2P Require Import AuctionSteps.

Module AuctionMachine.
Section Handlers.
Context `{DexEnv} `{StakingToken} `{AuctionEnv} {CF : CollisionFree}.
Import DutchAuctionManager AuctionCircuitBreaker DexMachine.

(** ** Handlers keep the books *)

Lemma on_dex_ok {A} (m : dex A) c a c' :
  on_dex m c = (Ok a, c') -> exists s', m (dex_of c) = (Ok a, s') /\ c' = mkChain s' (auction_of c).
Proof. unfold on_dex. destruct (m (dex_of c)) as [r s]. intros [= -> <-]. eauto. Qed.

Lemma on_auction_ok {A} (m : comp AuctionState string A) c a c' :
  on_auction m c = (Ok a, c') -> exists s', m (auction_of c) = (Ok a, s') /\ c' = mkChain (dex_of c) s'.
Proof. unfold on_auction. destruct (m (auction_of c)) as [r s]. intros [= -> <-]. eauto. Qed.

(** A fresh entry of the store, with its trigger. *)
Lemma books_insert ds s s' id a h :
  books ds s -> auction_store s !! id = None -> Description.id (description a) = id -> valid (description a) ->
  auction_state a = mkDutchState 0 None (Some h) (amount (auction_input (description a))) 0 ->
  auction_store s' = <[id := a]> (auction_store s) -> triggers s' = {[ (h, id) ]} ∪ triggers s ->
  Vcb.balances_typed s' ->
  (forall b, Vcb.balance b s' = Vcb.balance b s + Typed.carries (auction_input (description a)) b) ->
  books ds s' /\ forall b, slack b s' = slack b s.
Proof.
  intros Hb Hnone Hid Hd Hst Hstore Htr Hty Hbal. pose proof (valid_input _ Hd) as Hin.
  assert (Hfresh : forall h', (h', id) ∉ triggers s).
  { intros h' Hh. destruct (books_triggers _ _ Hb _ _ Hh) as (b & Hb' & _). congruence. }
  assert (Hslack : forall b, slack b s' = slack b s).
  { intros b. unfold slack, custody. rewrite Hstore, map_sum_insert_fresh, Hbal by done.
    unfold reserves_of. rewrite Hst. cbn [input_reserves output_reserves]. unfold both, Typed.carries.
    destruct (auction_input (description a)) as [n e]. cbn [amount value_asset]. repeat case_decide; lia. }
  split; [|done]. split.
  - intros j b. rewrite Hstore. intros [[<- <-]|[Hne Hj]]%lookup_insert_Some.
    + split; rewrite ?Hst; try done; [cbn; lia|]. intros _. exists h. split; [done|]. rewrite Htr. set_solver.
    + eapply bystander; [exact (books_auctions _ _ Hb j b Hj)| |done]. intros h' Hh. rewrite Htr. set_solver.
  - intros h' j. rewrite Htr, Hstore. intros [Hx%elem_of_singleton|Hj]%elem_of_union.
    + injection Hx as -> ->. exists a. rewrite lookup_insert_eq. split; [done|]. left. by rewrite Hst.
    + destruct (books_triggers _ _ Hb _ _ Hj) as (b & Hjb & Hs). exists b.
      rewrite lookup_insert_ne; [done|congruence].
  - intros h1 h2 j. rewrite Htr. intros [Hx%elem_of_singleton|Hj]%elem_of_union [Hy%elem_of_singleton|Hk]%elem_of_union;
      [congruence| | |by eapply (books_one _ _ Hb)].
    + injection Hx as -> ->. by apply Hfresh in Hk.
    + injection Hy as -> ->. by apply Hfresh in Hj.
  - intros i j b b' pid. rewrite Hstore, !lookup_insert_Some.
    intros [[<- <-]|[Hi Hbi]] [[<- <-]|[Hj Hbj]]; rewrite ?Hst; try done. by apply (books_distinct _ _ Hb).
  - done.
  - intros b. rewrite Hslack. apply (books_covered _ _ Hb).
Qed.

Lemma schedule_books d c u c' :
  valid d -> books (dex_of c) (auction_of c) -> schedule_check_and_execute d c = (Ok u, c') ->
  dex_of c' = dex_of c /\ books (dex_of c') (auction_of c')
  /\ (forall b, slack b (auction_of c') = slack b (auction_of c))
  /\ auction_store (auction_of c')
     = <[Description.id d := mkAuction d (mkDutchState 0 None (Some (auction_start_height d + step_size d))
          (amount (auction_input d)) 0)]> (auction_store (auction_of c)).
Proof.
  intros Hd Hb Hr. destruct c as [ds s]. unfold schedule_check_and_execute, schedule_auction in Hr.
  apply bind_ok in Hr as (hgt & c1 & (s1 & [-> ->]%gets_ok & ->)%on_dex_ok & Hr). cbn [dex_of auction_of] in *.
  apply bind_ok in Hr as (u1 & c1 & [Hh ->]%ensure_ok & Hr). to_prop.
  apply bind_ok in Hr as (known & c1 & (s1 & [-> ->]%gets_ok & ->)%on_auction_ok & Hr). cbn [dex_of auction_of] in *.
  apply bind_ok in Hr as (u2 & c1 & [Hk ->]%ensure_ok & Hr).
  apply bind_ok in Hr as (hgt & c1 & (s1 & [-> ->]%gets_ok & ->)%on_dex_ok & Hr). cbn [dex_of auction_of] in *.
  rewrite (first_trigger_run d Hd) in Hr by lia. rewrite bind_lift_ok in Hr. cbn [expect_some] in Hr. rewrite bind_lift_ok in Hr.
  pose proof (step_size_pos d Hd). pose proof (valid_heights d Hd).
  unfold non_zero in Hr. rewrite (proj2 (Z.eqb_neq _ 0)) in Hr by lia.
  apply bind_ok in Hr as (u3 & c1 & (s1 & Hcr & ->)%on_auction_ok & Hr). cbn [dex_of auction_of] in *.
  apply bind_ok in Hr as (u4 & c1 & (s2 & [_ ->]%modify_ok & ->)%on_auction_ok & Hr). cbn [dex_of auction_of] in *.
  apply bind_ok in Hr as (u5 & c1 & (s3 & [_ ->]%modify_ok & ->)%on_auction_ok & Hr). cbn [dex_of auction_of] in *.
  apply on_auction_ok in Hr as (s4 & [_ ->]%modify_ok & ->). cbn [dex_of auction_of] in *.
  pose proof (valid_input _ Hd). apply auction_credit_ledgered in Hcr as (Hst & Htr & Hty & Hbal); [|lia|apply (books_typed _ _ Hb)].
  assert (Hnone : auction_store s !! Description.id d = None).
  { unfold auction_id_exists in Hk. by destruct (auction_store s !! Description.id d). }
  set (a := mkAuction d (mkDutchState 0 None (Some (auction_start_height d + step_size d)) (amount (auction_input d)) 0)).
  match goal with |- context [record_auction_event ?e ?x] => set (s' := record_auction_event e x) end.
  destruct (books_insert ds s s' (Description.id d) a (auction_start_height d + step_size d)) as [Hb' Hslack]; try done.
  - cbn. by rewrite Hst.
  - cbn. by rewrite Htr.
  - split_and!; [done|done|done|]. cbn. by rewrite Hst.
Qed.

Lemma absorb_ok d b x y c r c' :
  @inflow string b (value_asset (auction_input d)) = Ok (mkValue x (value_asset (auction_input d))) ->
  @inflow string b (output_id d) = Ok (mkValue y (output_id d)) ->
  0 <= x -> 0 <= y -> Vcb.balances_typed (auction_of c) ->
  absorb b (value_asset (auction_input d)) (output_id d) c = (Ok r, c') ->
  r = (x, y) /\ dex_of c' = dex_of c /\ ledgered (auction_of c) (auction_of c') (both d x y).
Proof.
  intros Hx Hy Hx0 Hy0 Ht Hr. unfold absorb in Hr. rewrite Hx, bind_lift_ok, Hy, bind_lift_ok in Hr.
  apply bind_ok in Hr as (u1 & c1 & (s1 & R1 & ->)%on_auction_ok & Hr).
  apply bind_ok in Hr as (u2 & c2 & (s2 & R2 & ->)%on_auction_ok & Hr). apply ret_ok in Hr as [-> ->].
  cbn [dex_of auction_of] in *. apply auction_credit_ledgered in R1 as L1; [|done|done].
  apply auction_credit_ledgered in R2 as L2; [|done|apply L1].
  split_and!; [done|done|]. exact (ledgered_trans _ _ _ _ _ L1 L2).
Qed.

(** Ending an opened auction has the effect of a last execution. *)
Lemma end_spec id a c u c' :
  books (dex_of c) (auction_of c) -> DexMachine.invariant (Delivering, dex_of c) ->
  auction_store (auction_of c) !! id = Some a -> end_auction a c = (Ok u, c') ->
  c' = c \/ exists h a', (h, id) ∈ triggers (auction_of c) /\ executed id h a c c' a'
    /\ sequence (auction_state a') = 1.
Proof.
  intros Hb Hinv Ha Hr. pose proof (books_auctions _ _ Hb id a Ha) as Hs.
  pose proof (sound_description _ _ _ _ Hs) as Hd. pose proof (sound_sequence _ _ _ _ Hs). unfold end_auction in Hr.
  destruct (Z.leb_spec 1 (sequence (auction_state a))) as [|Hlt]; [left; by apply ret_ok in Hr as [_ ->]|right].
  destruct (sound_opened _ _ _ _ Hs ltac:(lia)) as (h & Hn & Hin). exists h.
  destruct (recover_spec (description a) (current_position (auction_state a)) c Hd Hinv (sound_position_tracked _ _ _ _ Hs))
    as (b & ds' & x & y & Hrec & Hinv' & Hset & Hq & Hdom & Hoth & _ & Hx & Hy & Hix & Hiy & Hbd).
  rewrite (bind_run_ok _ _ _ _ _ Hrec) in Hr. apply bind_ok in Hr as (r & c1 & Hab & Hr).
  destruct (absorb_ok (description a) b x y (mkChain ds' (auction_of c)) _ _ Hix Hiy Hx Hy (books_typed _ _ Hb) Hab) as (-> & Hd1 & Hst & Htr & Hty & Hba).
  cbn [fst snd dex_of auction_of] in *. rewrite Hn in Hr.
  apply bind_ok in Hr as (tin & c2 & [Hin1 ->]%lift_ok & Hr). apply plain_add_ok in Hin1 as [-> _].
  apply bind_ok in Hr as (tout & c2 & [Hin2 ->]%lift_ok & Hr). apply plain_add_ok in Hin2 as [-> _].
  apply bind_ok in Hr as (u2 & c2 & (sa & [_ ->]%modify_ok & ->)%on_auction_ok & Hr).
  apply on_auction_ok in Hr as (sb & [_ ->]%modify_ok & ->).
  cbn [dex_of auction_of description] in *. rewrite (sound_id _ _ _ _ Hs) in *. rewrite Hd1 in *. clear Hrec Hab.
  match goal with |- context [mkChain ds' ?x] => set (s' := x) end.
  set (a' := mkAuction (description a) (mkDutchState 1 None None (input_reserves (auction_state a) + x) (output_reserves (auction_state a) + y))).
  pose proof (sound_reserves _ _ _ _ Hs) as [Hr1 Hr2].
  assert (Hres : forall e, reserves_of a' e = reserves_of a e + both (description a) x y e) by (intros e; apply both_add).
  assert (Hbal : forall e, Vcb.balance e s' = Vcb.balance e (auction_of c) + both (description a) x y e) by (intros e; apply Hba).
  exists a'. split_and!; [done| |done]. split; cbn [dex_of auction_of]; try done; try (by auto).
  - rewrite (size_of_dom _ _ Hdom). lia.
  - cbn. by rewrite Hst.
  - cbn. lia.
  - intros e. unfold total. cbn [dex_of auction_of]. rewrite Hbal, Hbd. lia.
  - intros e. rewrite Hres, Hbal. lia.
  - intros p e _ _. rewrite Hres, Hbal. lia.
  - left. split_and!; try done. cbn. by rewrite Htr.
Qed.

Lemma adding_two_assets x y a b :
  is_u128 x -> is_u128 y -> a <> b ->
  exists bal, @Balance.add string (Balance.from_value (mkValue x a)) (Balance.from_value (mkValue y b)) = Ok bal
    /\ Balance.wf bal /\ forall e, Balance.denote bal e = Typed.carries (mkValue x a) e + Typed.carries (mkValue y b) e.
Proof.
  intros Hx Hy Hne.
  pose proof (@Balance.add_denote string _ _ (Balance.from_value_wf (mkValue x a) Hx) (Balance.from_value_wf (mkValue y b) Hy)) as Hadd.
  destruct (Balance.add _ _) as [bal| |].
  - exists bal. destruct Hadd as [Hw Hd]. split_and!; [done|done|]. intros e. by rewrite Hd, !Balance.from_value_denote.
  - done.
  - exfalso. destruct Hadd as [e He]. rewrite !Balance.from_value_denote in He. cbn [value_asset amount] in He.
    unfold in_width in *. repeat case_decide; congruence || lia.
Qed.

(** What a withdrawal leaves of an auction. *)
Definition emptied (a : DutchAuction) : DutchAuction :=
  mkAuction (description a) (mkDutchState (saturating_add 64 (sequence (auction_state a)) 1) None None 0 0).

Lemma emptied_sound ds ts id a : sound_auction ds ts id a -> sound_auction ds ts id (emptied a).
Proof.
  intros [? ? ? Hseq ? ? ?]. assert (1 <= saturating_add 64 (sequence (auction_state a)) 1).
  { unfold saturating_add, max_int. lia. }
  split; cbn [emptied description auction_state sequence current_position next_trigger input_reserves output_reserves]; try done; lia.
Qed.

Lemma books_emptied ds s s' id a :
  books ds s -> auction_store s !! id = Some a -> auction_store s' = <[id := emptied a]> (auction_store s) ->
  triggers s' = triggers s -> Vcb.balances_typed s' ->
  (forall e, Vcb.balance e s' = Vcb.balance e s - reserves_of a e) ->
  books ds s' /\ forall e, slack e s' = slack e s.
Proof.
  intros Hb Ha Hst Htr Hty Hbal.
  assert (Hslack : forall e, slack e s' = slack e s).
  { intros e. rewrite (slack_insert e s s' id a (emptied a) Ha Hst), Hbal.
    pose proof (both_zero (description a) e : reserves_of (emptied a) e = 0). lia. }
  pose proof (emptied_sound ds (triggers s) id a (books_auctions _ _ Hb id a Ha)) as Hs.
  split; [|done]. split.
  - rewrite Hst, Htr. apply map_Forall_insert_2; [done|]. exact (books_auctions _ _ Hb).
  - intros h j. rewrite Htr, Hst. intros Hin. destruct (books_triggers _ _ Hb h j Hin) as (b & Hj & Hs').
    destruct (decide (j = id)) as [->|Hne]; [|exists b; by rewrite lookup_insert_ne].
    exists (emptied a). rewrite lookup_insert_eq. split; [done|right]. split_and!; [|done|done].
    pose proof (sound_sequence _ _ _ _ (books_auctions _ _ Hb id a Ha)). cbn. unfold saturating_add, max_int. lia.
  - rewrite Htr. apply (books_one _ _ Hb).
  - intros i j b b' pid. rewrite Hst, !lookup_insert_Some.
    intros [[<- <-]|[Hi Hbi]] [[<- <-]|[Hj Hbj]]; try done. by apply (books_distinct _ _ Hb).
  - done.
  - intros e. rewrite Hslack. apply (books_covered _ _ Hb).
Qed.

Lemma withdrawal_spec id a c :
  books (dex_of c) (auction_of c) -> auction_store (auction_of c) !! id = Some a ->
  exists b c', withdraw_auction a c = (Ok b, c') /\ dex_of c' = dex_of c
    /\ Balance.wf b /\ (forall e, Balance.denote b e = reserves_of a e)
    /\ auction_store (auction_of c') = <[id := emptied a]> (auction_store (auction_of c))
    /\ (forall e, Vcb.balance e (auction_of c') = Vcb.balance e (auction_of c) - reserves_of a e)
    /\ books (dex_of c') (auction_of c') /\ forall e, slack e (auction_of c') = slack e (auction_of c).
Proof.
  intros Hb Ha. pose proof (books_auctions _ _ Hb id a Ha) as Hs. pose proof (sound_reserves _ _ _ _ Hs) as [Hr1 Hr2].
  pose proof (valid_assets _ (sound_description _ _ _ _ Hs)) as Hne.
  pose proof (fun e => reserves_le_custody _ _ id a e Hb Ha) as Hle. destruct c as [ds s]. cbn [dex_of auction_of] in *.
  pose proof (Hle (value_asset (auction_input (description a)))) as Hle1. pose proof (Hle (output_id (description a))) as Hle2.
  pose proof (books_typed _ _ Hb (value_asset (auction_input (description a)))) as Ht1.
  pose proof (books_typed _ _ Hb (output_id (description a))) as Ht2.
  unfold reserves_of, both, Typed.carries, in_width in Hle1, Hle2, Ht1, Ht2. cbn [value_asset amount] in Hle1, Hle2.
  rewrite decide_True, decide_False in Hle1 by done. rewrite decide_False, decide_True in Hle2 by done.
  set (v1 := mkValue (input_reserves (auction_state a)) (value_asset (auction_input (description a)))).
  set (v2 := mkValue (output_reserves (auction_state a)) (output_id (description a))).
  destruct (auction_debit_run v1 s) as (s1 & R1 & L1); [done|apply (books_typed _ _ Hb)|cbn [v1 value_asset amount]; lia|].
  destruct (auction_debit_run v2 s1) as (s2 & R2 & L2); [done|apply L1| |].
  { destruct L1 as (_ & _ & _ & L1). rewrite L1. unfold Typed.carries. cbn [v1 v2 value_asset amount].
    rewrite decide_False by done. lia. }
  destruct (adding_two_assets (input_reserves (auction_state a)) (output_reserves (auction_state a))
    (value_asset (auction_input (description a))) (output_id (description a))) as (bal & Hbal & Hwf & Hden);
    [unfold in_width; lia|unfold in_width; lia|done|].
  destruct (ledgered_trans _ _ _ _ _ L1 L2) as (Hst & Htr & Hty & Hb2).
  unfold withdraw_auction. cbv zeta. fold v1 v2.
  rewrite (bind_run_ok _ _ (mkChain ds s) _ _ (on_auction_run _ (mkChain ds s) _ _ R1)). cbn [dex_of auction_of].
  rewrite (bind_run_ok _ _ (mkChain ds s1) _ _ (on_auction_run _ (mkChain ds s1) _ _ R2)). cbn [dex_of auction_of].
  unfold v1 at 1, v2 at 1. rewrite Hbal, bind_lift_ok.
  eexists _, (mkChain ds _). split; [reflexivity|]. cbn [dex_of auction_of].
  match goal with |- context [books ds ?x] => set (s' := x) end.
  assert (Hstore : auction_store s' = <[id := emptied a]> (auction_store s)).
  { cbn. rewrite Hst. by rewrite <- (sound_id _ _ _ _ Hs). }
  assert (Hbal' : forall e, Vcb.balance e s' = Vcb.balance e s - reserves_of a e).
  { intros e. change (Vcb.balance e s') with (Vcb.balance e s2). rewrite Hb2. unfold reserves_of, both. fold v1 v2. lia. }
  by destruct (books_emptied ds s s' id a) as [Hb' Hsl].
Qed.

(** ** The machine

    A block delivers the actions of both components, then the auctions due at its height are
    executed, and then the DEX ends its block (App::end_block calls the components in this order). *)

(** The phase of the block, the state of the fee component, and the states of the two components. *)
Definition config : Type := phase * FeeState * Chain.

(** The NFTs that control the positions of auctions are never minted, so that no action queues or
    withdraws such a position. *)
Definition respects (s : AuctionState) (ds ds' : DexState) : Prop :=
  forall id a pid, auction_store s !! id = Some a -> current_position (auction_state a) = Some pid ->
    (pid ∈ pending_position_closures ds' -> pid ∈ pending_position_closures ds)
    /\ forall lp n, positions ds' !! pid = Some lp -> state lp = PositionState.Withdrawn n ->
         exists lp0, positions ds !! pid = Some lp0 /\ state lp0 = PositionState.Withdrawn n.

Inductive step : config -> config -> Prop :=
| step_dex ph ph' f f' ds ds' s :
    BlockMachine.step (ph, mkBlock ds f) (ph', mkBlock ds' f') -> respects s ds ds' ->
    step (ph, f, mkChain ds s) (ph', f', mkChain ds' s)
| step_schedule d f c c' :
    is_u64 (auction_start_height d) -> is_u64 (auction_end_height d) -> Description.check_stateless d = Ok tt ->
    schedule_check_and_execute d c = (Ok tt, c') -> step (Delivering, f, c) (Delivering, f, c')
| step_end id f c c' :
    end_check_and_execute id c = (Ok tt, c') -> step (Delivering, f, c) (Delivering, f, c')
| step_withdraw `{CommitmentGroup G, EqDecision G} id seq (commitment : G) f c c' :
    withdraw_check_stateless seq = Ok tt ->
    withdraw_check_and_execute id seq commitment c = (Ok tt, c') -> step (Delivering, f, c) (Delivering, f, c')
(** The ledgers together stay below 2^128 and the positions below 2^32. *)
| step_execute h params f c c' :
    dex_params (dex_of c) = Some params -> (forall b, total b c < 2 ^ 128) ->
    Z.of_nat (size (positions (dex_of c)))
      + Z.of_nat (length (stream_dutch_ids_by_trigger h (auction_of c))) < 2 ^ 32 ->
    end_block h c = (Ok tt, c') -> step (Delivering, f, c) (Delivering, f, c').

Definition auction_genesis : AuctionState := mkAuctionState ∅ ∅ ∅ [].
Definition genesis (params : DexParameters) (epoch : Epoch) : config :=
  let b := BlockMachine.genesis params epoch in
  (Delivering, fee_state b, mkChain (dex_state b) auction_genesis).

Definition reachable (params : DexParameters) (epoch : Epoch) : config -> Prop :=
  rtc step (genesis params epoch).

Definition invariant (x : config) : Prop :=
  BlockMachine.invariant (x.1.1, mkBlock (dex_of x.2) x.1.2) /\ books (dex_of x.2) (auction_of x.2).

Lemma genesis_sound params epoch : invariant (genesis params epoch).
Proof.
  split; [apply BlockMachine.genesis_invariant|]. split; cbn.
  - apply map_Forall_empty.
  - set_solver.
  - set_solver.
  - intros i j a b pid Hi. by rewrite lookup_empty in Hi.
  - intros a. by_computation.
  - intros a. by_computation.
Qed.

(** A handler that keeps the invariant of the DEX and leaves the fees alone. *)
Lemma delivered f ds ds' :
  BlockMachine.invariant (Delivering, mkBlock ds f) -> DexMachine.invariant (Delivering, ds') ->
  BlockMachine.invariant (Delivering, mkBlock ds' f).
Proof. intros (_ & _ & Hf & _) Hd. apply BlockMachine.invariant_delivering; [done|by apply Hf]. Qed.

Lemma step_withdraw_ok `{CommitmentGroup G, EqDecision G} id seq (commitment : G) c c' u :
  withdraw_check_and_execute id seq commitment c = (Ok u, c') ->
  exists a b, auction_store (auction_of c) !! id = Some a /\ withdraw_auction a c = (Ok b, c')
    /\ seq = saturating_add 64 (sequence (auction_state a)) 1 /\ commitment = Commitment.commit b 0.
Proof.
  intros Hr. unfold withdraw_check_and_execute, get_dutch_auction_by_id in Hr.
  apply bind_ok in Hr as (o & c1 & (s1 & [-> ->]%gets_ok & ->)%on_auction_ok & Hr).
  replace (mkChain (dex_of c) (auction_of c)) with c in Hr by (by destruct c).
  apply bind_ok in Hr as (a & c1 & [Ha ->]%lift_ok & Hr).
  apply bind_ok in Hr as (u1 & c1 & [Hs ->]%ensure_ok & Hr). to_prop.
  apply bind_ok in Hr as (b & c1 & Hw & Hr). case_decide; [|done].
  apply ret_ok in Hr as [_ ->]. exists a, b. split_and!; try done.
  by destruct (auction_store (auction_of c) !! id); cbn in Ha; simplify_eq.
Qed.

Lemma step_end_ok id c c' u :
  end_check_and_execute id c = (Ok u, c') ->
  exists a c1, auction_store (auction_of c) !! id = Some a /\ sequence (auction_state a) <= 1
    /\ end_auction a c = (Ok tt, c1)
    /\ c' = mkChain (dex_of c1) (record_auction_event (EventDutchAuctionEnded id (auction_state a) ClosedByOwner) (auction_of c1)).
Proof.
  intros Hr. unfold end_check_and_execute, get_dutch_auction_by_id in Hr.
  apply bind_ok in Hr as (o & c1 & (s1 & [-> ->]%gets_ok & ->)%on_auction_ok & Hr).
  replace (mkChain (dex_of c) (auction_of c)) with c in Hr by (by destruct c).
  apply bind_ok in Hr as (a & c1 & [Ha ->]%lift_ok & Hr).
  apply bind_ok in Hr as (u1 & c1 & [Hs ->]%ensure_ok & Hr).
  apply bind_ok in Hr as ([] & c1 & He & Hr). apply on_auction_ok in Hr as (s1 & [_ ->]%modify_ok & ->).
  exists a, c1. split_and!; try done.
  - by destruct (auction_store (auction_of c) !! id); cbn in Ha; simplify_eq.
  - to_prop. lia.
Qed.

(** Recording an event changes no book. *)
Lemma books_event ds s e : books ds s -> books ds (record_auction_event e s).
Proof. by intros [? ? ? ? ? ?]. Qed.

Lemma tracks_step d s x y id a pid :
  let ds := dex_state x.2 in let ds' := dex_state y.2 in
  BlockMachine.invariant x -> BlockMachine.step x y -> respects s ds ds' ->
  auction_store s !! id = Some a -> current_position (auction_state a) = Some pid ->
  tracks ds d pid -> tracks ds' d pid.
Proof.
  intros ds ds' Hinv Hst Hres Ha Hp (lp & Hl & Hstate & Hpair & Hq).
  destruct (BlockMachine.step_ages _ _ Hinv Hst pid lp Hl) as (lp' & Hl' & Hphi & Hage). destruct (Hres id a pid Ha Hp) as [Hq' Hw].
  exists lp'. rewrite Hphi. split_and!; [done| |done|by intros ?%Hq'].
  destruct (state lp') as [| |n] eqn:Hs; [by left|by right|]. exfalso.
  destruct (Hw lp' n Hl' Hs) as (lp0 & Hl0 & Hs0). rewrite Hl in Hl0. injection Hl0 as <-.
  destruct Hstate; congruence.
Qed.

Lemma process_spec h params c :
  books (dex_of c) (auction_of c) -> DexMachine.invariant (Delivering, dex_of c) ->
  dex_params (dex_of c) = Some params -> (forall b, total b c < 2 ^ 128) ->
  Z.of_nat (size (positions (dex_of c)))
    + Z.of_nat (length (stream_dutch_ids_by_trigger h (auction_of c))) < 2 ^ 32 ->
  exists c', process_triggers h c = (Ok tt, c')
    /\ books (dex_of c') (auction_of c') /\ DexMachine.invariant (Delivering, dex_of c') /\ settled params c c'
    /\ (forall id a, (h, id) ∈ triggers (auction_of c) -> auction_store (auction_of c) !! id = Some a ->
          exists a', auction_store (auction_of c') !! id = Some a' /\ description a' = description a /\ advanced h a')
    /\ (forall id, (h, id) ∉ triggers (auction_of c) -> auction_store (auction_of c') !! id = auction_store (auction_of c) !! id)
    /\ (forall id, (h, id) ∉ triggers (auction_of c'))
    /\ forall pid, untracked pid c -> untracked pid c'.
Proof.
  intros Hb Hinv Hp Ht Hsize.
  destruct (execute_all h params (stream_dutch_ids_by_trigger h (auction_of c)) c) as (c' & Hr & Hb' & Hinv' & Hset & Hdone & Hrest & Htr & Hun);
    try done; [apply stream_nodup|intros id; apply stream_elem|].
  exists c'. split_and!; try exact Hun; try done.
  - unfold process_triggers. erewrite bind_run_ok by (apply on_auction_run; reflexivity). by destruct c.
  - intros id a Hid. by apply Hdone, stream_elem.
  - intros id Hid. apply Hrest. by rewrite stream_elem.
  - intros id [Hin Hno]%Htr. by rewrite stream_elem in Hno.
Qed.

Lemma step_keeps_invariant x y : invariant x -> step x y -> invariant y.
Proof.
  intros [Hinv Hb] Hst. destruct Hst as [ph ph' f f' ds ds' s Hst Hres|d f c c' Hs1 Hs2 Hck Hr|id f c c' Hr
    |G ? ? id seq cm f c c' Hck Hr|h params f c c' Hp Ht Hsize Hr]; cbn [fst snd dex_of auction_of] in *; unfold invariant; cbn [fst snd].
  - split; [by eapply BlockMachine.step_invariant|]. destruct Hb as [Hall ? ? ? ? ?]. split; try done.
    intros id a Ha. eapply bystander; [exact (Hall id a Ha)|done|]. intros pid Hpid Htr.
    exact (tracks_step _ s _ _ id a pid Hinv Hst Hres Ha Hpid Htr).
  - pose proof (check_stateless_valid d tt Hs1 Hs2 Hck) as Hd.
    destruct (schedule_books d c tt c' Hd Hb Hr) as (-> & Hb' & _). done.
  - apply step_end_ok in Hr as (a & c1 & Ha & _ & He & ->). cbn [dex_of auction_of].
    assert (DexMachine.invariant (Delivering, dex_of c1) /\ books (dex_of c1) (auction_of c1)) as [? ?].
    { destruct (end_spec id a c tt c1 Hb (proj1 Hinv) Ha He) as [->|(h & a' & Hin & Hex & _)]; [split; [apply Hinv|done]|].
      split; [apply Hex|by eapply execute_books]. }
    split; [by eapply delivered|by apply books_event].
  - apply step_withdraw_ok in Hr as (a & b & Ha & Hw & _).
    destruct (withdrawal_spec id a c Hb Ha) as (b' & c1 & Hw' & Hd & _ & _ & _ & _ & Hb' & _).
    rewrite Hw in Hw'. injection Hw' as <- <-. by rewrite Hd in *.
  - destruct (process_spec h params c Hb (proj1 Hinv) Hp Ht Hsize) as (c1 & Hr1 & Hb1 & Hi1 & _).
    unfold end_block, ignore_error in Hr. rewrite Hr1 in Hr. injection Hr as <-. split; [by eapply delivered|done].
Qed.

Lemma reachable_invariant params epoch x : reachable params epoch x -> invariant x.
Proof.
  unfold reachable. intros Hr. revert Hr.
  enough (forall x0, rtc step x0 x -> invariant x0 -> invariant x) as G.
  { intros Hr. eapply G; [exact Hr|apply genesis_sound]. }
  induction 1; eauto using step_keeps_invariant.
Qed.

(** The invariants of the two components. *)
Lemma reachable_parts params epoch ph f c :
  reachable params epoch (ph, f, c) -> DexMachine.invariant (ph, dex_of c) /\ books (dex_of c) (auction_of c).
Proof. intros [[Hd _] Hb]%reachable_invariant. done. Qed.

(** A position that the auctions have lost is never theirs again. *)
Lemma step_untracked pid x y : invariant x -> step x y -> untracked pid x.2 -> untracked pid y.2.
Proof.
  intros [Hinv Hb] Hst [Hex Hno]. destruct Hst as [ph ph' f f' ds ds' s Hst Hres|d f c c' Hs1 Hs2 Hck Hr|id f c c' Hr
    |G ? ? id seq cm f c c' Hck Hr|h params f c c' Hp Ht Hsize Hr]; cbn [fst snd dex_of auction_of] in *.
  - split; [|done]. destruct Hex as [lp Hl].
    destruct (BlockMachine.step_ages _ _ Hinv Hst pid lp Hl) as (lp' & Hl' & _). by eexists.
  - pose proof (check_stateless_valid d tt Hs1 Hs2 Hck) as Hd.
    destruct (schedule_books d c tt c' Hd Hb Hr) as (Hdex & _ & _ & Hstore). split; [by rewrite Hdex|].
    rewrite Hstore. intros id a [[_ <-]|[_ Ha]]%lookup_insert_Some; [done|by apply (Hno id)].
  - apply step_end_ok in Hr as (a & c1 & Ha & _ & He & ->).
    destruct (end_spec id a c tt c1 Hb (proj1 Hinv) Ha He) as [->|(h & a' & _ & Hexec & _)]; [done|].
    exact (executed_untracked id h a c c1 a' pid Ha Hexec (conj Hex Hno)).
  - apply step_withdraw_ok in Hr as (a & b & Ha & Hw & _).
    destruct (withdrawal_spec id a c Hb Ha) as (b' & c1 & Hw' & Hd & _ & _ & Hstore & _).
    rewrite Hw in Hw'. injection Hw' as <- <-. split; [by rewrite Hd|].
    rewrite Hstore. intros j a' [[_ <-]|[_ Ha']]%lookup_insert_Some; [done|by apply (Hno j)].
  - destruct (process_spec h params c Hb (proj1 Hinv) Hp Ht Hsize) as (c1 & Hr1 & _ & _ & _ & _ & _ & _ & Hun).
    unfold end_block, ignore_error in Hr. rewrite Hr1 in Hr. injection Hr as <-. by apply Hun.
Qed.

Lemma steps_untracked pid x y : rtc step x y -> invariant x -> untracked pid x.2 -> untracked pid y.2.
Proof. induction 1; eauto using step_keeps_invariant, step_untracked. Qed.
End Handlers.
End AuctionMachine.
