(* ===== verification/AuctionTheorems.v ===== *)
(** * Correctness of Dutch auctions

    The theorems about auctions in every reachable state of [AuctionMachine], the price schedule,
    and their witnesses on a concrete chain. *)

From S2P Require Import Prelude.
From S2P Require Import Num.
From S2P Require Import Asset.
From S2P Require Import TradingFunction.
From S2P Require Import Fee.
From S2P Require Import Position.
From S2P Require Import Vcb.
From S2P Require Import DexState.
From S2P Require Import Indexes.
From S2P Require Import IndexFacts.
From S2P Require Import PositionManager.
From S2P Require Import PositionFacts.
From S2P Require Import DexMachine.
From S2P Require Import OpeningFacts.
From S2P Require Import PathTheorems.
From S2P Require Import EndBlock.
From S2P Require Import BlockMachine.
From S2P Require Import Auction.
From S2P Require Import AuctionFacts.
From S2P Require Import AuctionSteps.
From S2P Require Import AuctionMachine.

Import DutchAuctionManager DexMachine.

Section Theorems.
Context `{DexEnv} `{StakingToken} `{AuctionEnv} {CF : CollisionFree}.
Import AuctionMachine.

(** (C23) In every reachable state the component's ledger covers what its auctions record; an auction
    that is open has exactly one trigger, the one it records; an ended one has no position; and the
    position an auction tracks is on the DEX, on the pair of the auction, in no other auction's
    hands, and neither withdrawn nor queued for closing. *)
Theorem auctions_keep_their_books params epoch ph f c id a :
  AuctionMachine.reachable params epoch (ph, f, c) -> auction_store (auction_of c) !! id = Some a ->
  (forall b, 0 <= reserves_of a b <= custody b (auction_store (auction_of c))
     /\ custody b (auction_store (auction_of c)) <= Vcb.balance b (auction_of c))
  /\ Description.id (description a) = id
  /\ (sequence (auction_state a) = 0 -> exists h, next_trigger (auction_state a) = Some h
        /\ forall h', (h', id) ∈ triggers (auction_of c) <-> h' = h)
  /\ (sequence (auction_state a) <> 0 -> current_position (auction_state a) = None)
  /\ forall pid, current_position (auction_state a) = Some pid ->
       (exists lp, positions (dex_of c) !! pid = Some lp
          /\ (state lp = PositionState.Opened \/ state lp = PositionState.Closed)
          /\ pair (phi lp) = Pair.new (value_asset (auction_input (description a))) (output_id (description a)))
       /\ pid ∉ pending_position_closures (dex_of c)
       /\ forall j b, auction_store (auction_of c) !! j = Some b -> current_position (auction_state b) = Some pid -> j = id.
Proof.
  intros Hr Ha. destruct (reachable_parts _ _ _ _ _ Hr) as [_ Hb].
  pose proof (books_auctions _ _ Hb id a Ha) as Hs. split_and!.
  - intros b. pose proof (books_covered _ _ Hb b) as Hc. unfold slack in Hc.
    assert (Hnn : forall k v, auction_store (auction_of c) !! k = Some v -> 0 <= reserves_of v b).
    { intros k v Hk. destruct (sound_reserves _ _ _ _ (books_auctions _ _ Hb k v Hk)). by apply both_nonneg. }
    split_and!; [by apply (Hnn id)| |lia]. by apply (map_sum_lookup_le (fun a => reserves_of a b) _ id).
  - apply (sound_id _ _ _ _ Hs).
  - intros H0'. destruct (sound_opened _ _ _ _ Hs H0') as (h & Hn & Hin). exists h. split; [done|]. intros h'. split; [|by intros ->].
    intros Hin'. by apply (books_one _ _ Hb h' h id).
  - intros Hne. by apply (sound_ended _ _ _ _ Hs).
  - intros pid Hp. destruct (sound_position_tracked _ _ _ _ Hs pid Hp) as (lp & Hl & Hst & Hpair & Hq).
    split_and!; [by exists lp|done|]. intros j b Hj Hjp. by apply (books_distinct _ _ Hb j id b a pid).
Qed.

(** (C24) The end of a block never fails: while the ledgers and the position table have room, every
    auction that is due is executed and either closes or waits for a later trigger, no later than
    its end; the others are untouched; nothing stays due at the height; and no value is created or
    lost between the DEX and the auctions. *)
Theorem due_auctions_always_execute params epoch f c h p :
  AuctionMachine.reachable params epoch (Delivering, f, c) -> dex_params (dex_of c) = Some p ->
  (forall b, total b c < 2 ^ 128) ->
  Z.of_nat (size (positions (dex_of c)))
    + Z.of_nat (length (stream_dutch_ids_by_trigger h (auction_of c))) < 2 ^ 32 ->
  exists c', process_triggers h c = (Ok tt, c') /\ end_block h c = (Ok tt, c')
    /\ (forall id a, (h, id) ∈ triggers (auction_of c) -> auction_store (auction_of c) !! id = Some a ->
          exists a', auction_store (auction_of c') !! id = Some a' /\ description a' = description a /\ advanced h a')
    /\ (forall id, (h, id) ∉ triggers (auction_of c) ->
          auction_store (auction_of c') !! id = auction_store (auction_of c) !! id)
    /\ (forall id, (h, id) ∉ triggers (auction_of c'))
    /\ (forall b, total b c' = total b c)
    /\ forall b, is_enabled p = true -> slack b (auction_of c') = slack b (auction_of c).
Proof.
  intros Hr Hp Ht Hs. destruct (reachable_parts _ _ _ _ _ Hr) as [Hinv Hb].
  destruct (process_spec h p c Hb Hinv Hp Ht Hs) as (c' & Hrun & _ & _ & Hset & Hdone & Hrest & Hnone & _).
  exists c'. split_and!; try done; [|apply Hset|apply Hset].
  unfold end_block, ignore_error. by rewrite Hrun.
Qed.

(** (C25) The offers of an auction: the [k]-th trigger falls on the [k]-th step, none lies past the end;
    the price of a step interpolates linearly from [max_output] down to [min_output], its
    coefficients fit the reserves of a position, and nothing overflows.  The first trigger is that
    of step 1, so [max_output], the price of step 0, is never offered. *)
Theorem offers_descend_on_schedule d u :
  is_u64 (auction_start_height d) -> is_u64 (auction_end_height d) -> Description.check_stateless d = Ok u ->
  (forall h, h <= auction_start_height d ->
     @Trigger.try_next_trigger_height string (trigger_of d) h = Ok (Some (auction_start_height d + step_size d)))
  /\ (forall k, 0 <= k ->
        Trigger.compute_step_index (trigger_of d) (auction_start_height d + step_size d * k) = Ok k)
  /\ (forall k, 0 <= k < step_count d ->
        @Trigger.compute_next_trigger_height string (trigger_of d) (auction_start_height d + step_size d * k)
          = Ok (auction_start_height d + step_size d * (k + 1))
        /\ auction_start_height d + step_size d * (k + 1) <= auction_end_height d)
  /\ exists price, (forall k, 0 <= k < step_count d ->
        @compute_pq_at_step string d k = Ok (price k, (step_count d - 1) * amount (auction_input d))
        /\ 0 < price k <= MAX_RESERVE_AMOUNT /\ (step_count d - 1) * amount (auction_input d) <= MAX_RESERVE_AMOUNT)
     /\ price 0 = (step_count d - 1) * max_output d /\ price (step_count d - 1) = (step_count d - 1) * min_output d
     /\ forall k, price (k + 1) = price k - (max_output d - min_output d).
Proof.
  intros Hs He Hc. pose proof (check_stateless_valid d u Hs He Hc) as Hd. split_and!.
  - intros h. apply (first_trigger_run d Hd).
  - intros k Hk. by rewrite (step_index_run d Hd), (step_at_boundary d Hd k Hk).
  - intros k Hk. assert (Hstep : step_at d (auction_start_height d + step_size d * k) = k) by (apply step_at_boundary; [done|lia]).
    rewrite (next_trigger_run d Hd) by lia.
    pose proof (next_height_bounds d Hd (auction_start_height d + step_size d * k) ltac:(lia)) as Hb.
    unfold next_height in *. rewrite Hstep in *. split; [done|lia].
  - exists (target_output d). split_and!.
    + intros k Hk. rewrite (pq_run d Hd) by done. pose proof (pq_bounds d Hd k Hk). unfold scaled_input in *. split_and!; [done|lia..].
    + unfold target_output. lia.
    + unfold target_output. lia.
    + intros k. unfold target_output. lia.
Qed.

(** The handler of a withdrawal pays exactly the reserves the auction records, in the auction's two
    assets, and empties the record, so that the next withdrawal pays nothing; it is accepted for
    the next sequence number and the commitment to these reserves. *)
Theorem withdrawals_pay_the_recorded_reserves `{CommitmentGroup G, EqDecision G} params epoch f c id a :
  AuctionMachine.reachable params epoch (Delivering, f, c) -> auction_store (auction_of c) !! id = Some a ->
  exists b c', Balance.wf b /\ (forall e, Balance.denote b e = reserves_of a e)
    /\ withdraw_check_and_execute id (saturating_add 64 (sequence (auction_state a)) 1)
         (Commitment.commit b 0 : G) c = (Ok tt, c')
    /\ dex_of c' = dex_of c
    /\ (forall e, Vcb.balance e (auction_of c') = Vcb.balance e (auction_of c) - reserves_of a e)
    /\ exists a', auction_store (auction_of c') = <[id := a']> (auction_store (auction_of c))
         /\ description a' = description a /\ sequence (auction_state a') = saturating_add 64 (sequence (auction_state a)) 1
         /\ forall e, reserves_of a' e = 0.
Proof.
  intros Hr Ha. destruct (reachable_parts _ _ _ _ _ Hr) as [_ Hb].
  destruct (withdrawal_spec id a c Hb Ha) as (b & c' & Hw & Hd & Hwf & Hden & Hst & Hbal & _).
  exists b, c'. split_and!; [done|done| |done|done|].
  - unfold withdraw_check_and_execute.
    erewrite bind_run_ok by (apply on_auction_run; reflexivity). unfold get_dutch_auction_by_id.
    rewrite Ha. cbn [ok_or]. rewrite bind_lift_ok, Z.eqb_refl, bind_ensure_true.
    replace (mkChain (dex_of c) (auction_of c)) with c by (by destruct c).
    rewrite (bind_run_ok _ _ _ _ _ Hw). by rewrite decide_True.
  - exists (emptied a). split_and!; [done|done|done|]. intros e. exact (both_zero (description a) e).
Qed.

(** (C26) The handler of a withdrawal accepts sequence number 1 on an auction that is still open.  The
    auction's position then stays on the DEX with all its reserves, while the auction records
    neither it nor any reserves, and no run of the chain makes an auction track it again: the
    component never recovers it. *)
Theorem withdrawing_an_open_auction_orphans_its_position `{CommitmentGroup G, EqDecision G} params epoch f c id a pid :
  AuctionMachine.reachable params epoch (Delivering, f, c) -> auction_store (auction_of c) !! id = Some a ->
  sequence (auction_state a) = 0 -> current_position (auction_state a) = Some pid ->
  withdraw_check_stateless 1 = Ok tt
  /\ exists b c', withdraw_check_and_execute id 1 (Commitment.commit b 0 : G) c = (Ok tt, c')
    /\ positions (dex_of c') = positions (dex_of c) /\ is_Some (positions (dex_of c) !! pid)
    /\ (forall e, Balance.denote b e = reserves_of a e)
    /\ forall x, rtc AuctionMachine.step (Delivering, f, c') x ->
         is_Some (positions (dex_of x.2) !! pid)
         /\ forall j b, auction_store (auction_of x.2) !! j = Some b -> current_position (auction_state b) <> Some pid.
Proof.
  intros Hr Ha Hseq Hp. split; [done|]. destruct (reachable_parts _ _ _ _ _ Hr) as [Hinv Hb].
  pose proof (books_auctions _ _ Hb id a Ha) as Hs. destruct (sound_position_tracked _ _ _ _ Hs pid Hp) as (lp & Hl & _).
  destruct (withdrawal_spec id a c Hb Ha) as (b & c' & Hw & Hd & _ & Hden & Hst & _ & Hb' & _).
  exists b, c'. split_and!; [|by rewrite Hd|by eexists|done|].
  - unfold withdraw_check_and_execute.
    erewrite bind_run_ok by (apply on_auction_run; reflexivity). unfold get_dutch_auction_by_id.
    rewrite Ha. cbn [ok_or]. rewrite bind_lift_ok, Hseq. change (1 =? saturating_add 64 0 1) with true. rewrite bind_ensure_true.
    replace (mkChain (dex_of c) (auction_of c)) with c by (by destruct c).
    rewrite (bind_run_ok _ _ _ _ _ Hw). by rewrite decide_True.
  - intros x Hx. apply (steps_untracked pid _ _ Hx); [split; cbn [fst snd]; [rewrite Hd; apply (reachable_invariant _ _ _ Hr)|by rewrite Hd in *]|].
    cbn [snd]. split; [rewrite Hd; by eexists|]. rewrite Hst. intros j a' [[_ <-]|[Hne Ha']]%lookup_insert_Some; [done|].
    intros Hp'. by apply Hne, (books_distinct _ _ Hb id j a a' pid).
Qed.

(** While the DEX is disabled no position is allocated, yet the record's input is zeroed: it stays in
    the component's ledger, in no auction's reserves, and the next execution closes the auction as
    if its input had been sold. *)
Theorem a_disabled_dex_strands_the_input params epoch f c h id a p :
  AuctionMachine.reachable params epoch (Delivering, f, c) -> dex_params (dex_of c) = Some p -> is_enabled p = false ->
  auction_store (auction_of c) !! id = Some a ->
  current_position (auction_state a) = None -> 0 < input_reserves (auction_state a) ->
  step_at (description a) h < step_count (description a) ->
  (forall b, total b c < 2 ^ 128) -> Z.of_nat (size (positions (dex_of c))) + 1 < 2 ^ 32 ->
  exists c' a', execute_dutch_auction id h c = (Ok tt, c')
    /\ auction_store (auction_of c') !! id = Some a' /\ input_reserves (auction_state a') = 0
    /\ current_position (auction_state a') = None /\ positions (dex_of c') = positions (dex_of c)
    /\ slack (value_asset (auction_input (description a))) (auction_of c')
       = slack (value_asset (auction_input (description a))) (auction_of c) + input_reserves (auction_state a).
Proof.
  intros Hr Hp Hen Ha Hcur Hin Hstep Ht Hsize. destruct (reachable_parts _ _ _ _ _ Hr) as [Hinv Hb].
  pose proof (books_auctions _ _ Hb id a Ha) as Hs. pose proof (sound_description _ _ _ _ Hs) as Hd.
  assert (Hcap : capacity c p) by (by split). destruct (execute_prefix id h a c p Hb Hinv Hcap Ha) as (c1 & x & y & Hrec & Hrun).
  destruct (recovered_nothing _ _ _ _ _ _ _ Hrec Hcur) as [-> ->]. rewrite !Z.add_0_r in Hrun. rewrite Hrun.
  destruct Hrec as [Hinv1 Hset1 _ Hdom1 Hoth1 _ _ [Hfit _] Hst1 _ Hty1 Hout1 Hin1]. rewrite Z.add_0_r in Hfit.
  assert (Hbal : forall b, Vcb.balance b (dex_of c1) = Vcb.balance b (dex_of c)
    /\ Vcb.balance b (auction_of c1) = Vcb.balance b (auction_of c)).
  { intros b. rewrite Hout1, Hin1, both_zero. lia. }
  pose proof (reserves_le_custody _ _ id a (value_asset (auction_input (description a))) Hb Ha) as Hle.
  unfold reserves_of, both, Typed.carries in Hle. cbn [value_asset amount] in Hle. rewrite decide_True in Hle by done.
  pose proof (sound_reserves _ _ _ _ Hs) as [_ Hout].
  destruct (next_round_continues id (description a) (auction_state a) h (input_reserves (auction_state a))
    (output_reserves (auction_state a)) c1 p) as (o & ds' & s' & Hn & _ & _ & _ & _ & _ & Hst2 & _ & _ & _ & spent & _ & _ & Hoff & _ & Hba);
    try done; [|unfold settings in Hset1; congruence| |].
  { rewrite (proj2 (Hbal _)). case_decide; lia. }
  { split; [|by rewrite (size_of_dom _ _ Hdom1)]. cbn [value_asset amount]. rewrite (proj1 (Hbal _)).
    specialize (Ht (value_asset (auction_input (description a)))). unfold total in Ht. case_decide; lia. }
  destruct (Hoff Hen) as (-> & -> & ->). unfold rest_of_execution. rewrite (bind_run_ok _ _ _ _ _ Hn).
  match goal with |- context [mkAuction (description a) ?st] =>
    match goal with |- context [emit ?e] =>
      destruct (write_and_emit id (description a) st e (mkChain (dex_of c1) s') (sound_id _ _ _ _ Hs)) as (s2 & Hw & Hst3 & _ & _ & Hb3);
      exists (mkChain (dex_of c1) s2), (mkAuction (description a) st) end end.
  cbn [dex_of auction_of] in *. rewrite Hst2, Hst1 in Hst3. split_and!; [exact Hw| |done|done| |].
  - rewrite Hst3. apply lookup_insert_eq.
  - apply map_eq. intros i. apply Hoth1. by rewrite Hcur.
  - rewrite (slack_insert _ _ _ id _ _ Ha Hst3), Hb3, Hba, both_zero, (proj2 (Hbal _)).
    pose proof (valid_assets _ Hd). unfold reserves_of, both, Typed.carries.
    cbn [value_asset amount description auction_state input_reserves output_reserves]. repeat case_decide; congruence || lia.
Qed.
End Theorems.

(** ** Witnesses: an auction on a concrete chain

    The hashes are encodings of their inputs, so they have no collisions. *)

Definition chain_env : DexEnv := {|
  lp_hash := fun bs => Z.pos (encode bs);
  asset_bytes := le_bytes 32;
  STAKING_TOKEN_ASSET_ID := 100;
|}.
Definition auction_env : AuctionEnv := {|
  auction_hash := fun bs => foldl (fun h b => (h * 257 + b + 1) mod 2 ^ 256) 7 bs;
  position_nonce_hash := fun bs => bs;
  auction_id_text := fun id => [id];
  auction_nft_asset_id := fun id seq => 2 ^ 255 + id * 3 + seq;
|}.
#[local] Existing Instance chain_env.
#[local] Existing Instance auction_env.
#[local] Instance chain_token : StakingToken := {| Fee.STAKING_TOKEN_ASSET_ID := 100 |}.
#[local] Existing Instance integer_group.

#[local] Instance chain_collision_free : CollisionFree.
Proof. split; [|done]. intros x y [= He]. exact (encode_inj _ _ He). Qed.

(** Sell 1000 of asset 1, at first for 400 and at last for 100 of asset 2, over three steps. *)
Definition sample_auction : DutchAuctionDescription := mkDescription (mkValue 1000 1) 2 400 100 10 40 3 [5; 6].
Definition sample_auction_id : auction_id := Description.id sample_auction.

Definition sample_params : DexParameters := mkDexParameters true [100] 4 1 64.
Definition fees_0 : FeeState := (AuctionMachine.genesis sample_params sample_epoch).1.2.
Definition chain_0 : Chain := (AuctionMachine.genesis sample_params sample_epoch).2.
Definition chain_1 : Chain := (schedule_check_and_execute sample_auction chain_0).2.
Definition chain_2 : Chain := (end_block 20 chain_1).2.

Definition auction_1 : DutchAuction := mkAuction sample_auction (mkDutchState 0 None (Some 20) 1000 0).
Definition auction_2 : DutchAuction := mkAuction sample_auction (mkDutchState 0
  (Some (PositionOps.id (attempt_position (mkDirected 1 2) 1000 1 500 2000 [5; 6] 0))) (Some 30) 0 0).

Lemma ran_chain {A} (m : auctions A) c a : (m c).1 = Ok a -> m c = (Ok a, (m c).2).
Proof. destruct (m c). cbn. congruence. Qed.

Lemma chain_1_total b : total b chain_1 < 2 ^ 128.
Proof.
  assert (Hd : value_balances (dex_of chain_1) = ∅) by (vm_compute; reflexivity).
  assert (Ha : auction_balances (auction_of chain_1) = {[ 1 := 1000 ]}) by (vm_compute; reflexivity).
  unfold total, Vcb.balance. cbn [get_vcb_for_asset auction_vcb_store dex_vcb_store]. rewrite Hd, Ha, lookup_empty.
  destruct (decide (b = 1)) as [->|Hne]; [by rewrite lookup_singleton_eq|by rewrite lookup_singleton_ne].
Qed.

Lemma ran_chain_1 : schedule_check_and_execute sample_auction chain_0 = (Ok tt, chain_1).
Proof. unfold chain_1. apply ran_chain. vm_compute. reflexivity. Qed.

Lemma ended_2 : (end_block 20 chain_1).1 = Ok tt.
Proof. vm_compute. reflexivity. Qed.

Lemma ran_chain_2 : end_block 20 chain_1 = (Ok tt, chain_2).
Proof. unfold chain_2. exact (ran_chain (end_block 20) chain_1 tt ended_2). Qed.

Lemma reach_chain_1 : AuctionMachine.reachable sample_params sample_epoch (Delivering, fees_0, chain_1).
Proof.
  apply rtc_once, (AuctionMachine.step_schedule sample_auction); [by_computation|by_computation|reflexivity|].
  exact ran_chain_1.
Qed.

Lemma reach_chain_2 : AuctionMachine.reachable sample_params sample_epoch (Delivering, fees_0, chain_2).
Proof.
  apply (rtc_r _ (Delivering, fees_0, chain_1)); [exact reach_chain_1|].
  apply (AuctionMachine.step_execute 20 sample_params); [reflexivity|exact chain_1_total|by_computation|].
  exact ran_chain_2.
Qed.

Lemma stored_1 : auction_store (auction_of chain_1) !! sample_auction_id = Some auction_1.
Proof. vm_compute. reflexivity. Qed.

Lemma stored_2 : auction_store (auction_of chain_2) !! sample_auction_id = Some auction_2.
Proof. vm_compute. reflexivity. Qed.

Lemma params_1 : dex_params (dex_of chain_1) = Some sample_params.
Proof. vm_compute. reflexivity. Qed.

Lemma due_1 : (20, sample_auction_id) ∈ triggers (auction_of chain_1).
Proof. apply (bool_decide_unpack _). vm_compute. exact I. Qed.

Lemma room_1 : Z.of_nat (size (positions (dex_of chain_1)))
  + Z.of_nat (length (stream_dutch_ids_by_trigger 20 (auction_of chain_1))) < 2 ^ 32.
Proof. by_computation. Qed.

Definition sample_lp_id : position_id :=
  PositionOps.id (attempt_position (mkDirected 1 2) 1000 1 500 2000 [5; 6] 0).

Lemma auctions_keep_their_books_witness :
  (exists lp, positions (dex_of chain_2) !! sample_lp_id = Some lp)
  /\ exists h, next_trigger (auction_state auction_2) = Some h
       /\ forall h', (h', sample_auction_id) ∈ triggers (auction_of chain_2) <-> h' = h.
Proof.
  destruct (auctions_keep_their_books sample_params sample_epoch Delivering fees_0 chain_2 sample_auction_id auction_2
    reach_chain_2 stored_2) as (_ & _ & Hopen & _ & Hpos).
  split; [|exact (Hopen eq_refl)]. destruct (Hpos sample_lp_id eq_refl) as ((lp & Hl & _) & _). exact (ex_intro _ lp Hl).
Defined.

Lemma due_auctions_always_execute_witness :
  exists c', end_block 20 chain_1 = (Ok tt, c')
    /\ exists a', auction_store (auction_of c') !! sample_auction_id = Some a' /\ advanced 20 a'.
Proof.
  destruct (due_auctions_always_execute sample_params sample_epoch fees_0 chain_1 20 sample_params reach_chain_1 params_1
    chain_1_total room_1) as (c' & _ & He & Hdue & _).
  exists c'. split; [exact He|].
  destruct (Hdue sample_auction_id auction_1 due_1 stored_1) as (a' & Ha & _ & Hadv).
  exact (ex_intro _ a' (conj Ha Hadv)).
Defined.

Lemma offers_descend_on_schedule_witness :
  Description.check_stateless sample_auction = Ok tt
  /\ exists price, price 0 = 800 /\ price 2 = 200 /\ @compute_pq_at_step string sample_auction 1 = Ok (price 1, 2000).
Proof.
  assert (Hc : Description.check_stateless sample_auction = Ok tt) by reflexivity. split; [exact Hc|].
  destruct (offers_descend_on_schedule sample_auction tt ltac:(by_computation) ltac:(by_computation) Hc)
    as (_ & _ & _ & price & Hrun & Hfirst & Hlast & _).
  exists price. split_and!; [exact Hfirst|exact Hlast|]. exact (proj1 (Hrun 1 ltac:(by_computation))).
Defined.

Lemma withdrawals_pay_the_recorded_reserves_witness :
  exists b c', Balance.denote b 1 = 1000
    /\ withdraw_check_and_execute sample_auction_id 1 (Commitment.commit b 0 : Z) chain_1 = (Ok tt, c').
Proof.
  destruct (@withdrawals_pay_the_recorded_reserves _ _ _ chain_collision_free Z integer_group _ sample_params sample_epoch fees_0 chain_1
    sample_auction_id auction_1 reach_chain_1 stored_1) as (b & c' & _ & Hden & Hw & _).
  exists b, c'. split; [rewrite Hden; reflexivity|exact Hw].
Defined.

Lemma withdrawing_an_open_auction_orphans_its_position_witness :
  exists b c', withdraw_check_and_execute sample_auction_id 1 (Commitment.commit b 0 : Z) chain_2 = (Ok tt, c')
    /\ is_Some (positions (dex_of c') !! sample_lp_id) /\ Balance.denote b 1 = 0.
Proof.
  destruct (@withdrawing_an_open_auction_orphans_its_position _ _ _ chain_collision_free Z integer_group _ sample_params
    sample_epoch fees_0 chain_2 sample_auction_id auction_2 sample_lp_id reach_chain_2 stored_2 eq_refl eq_refl)
    as (_ & b & c' & Hw & Hd & Hin & Hden & _).
  exists b, c'. split_and!; [exact Hw|rewrite Hd; exact Hin|rewrite Hden; reflexivity].
Defined.
