(* ===== verification/Validator.v ===== *)
(** * Validators

    Models the data of crates/core/component/stake: the state of a validator and of its delegation
    pool (validator/state.rs, validator/bonding.rs), its definition (validator.rs), its funding
    streams (funding_stream.rs), and the ring buffer that records which blocks it has signed
    (uptime.rs). *)

From S2P Require Import Prelude.

(** Keys are opaque: an identity key is compared as a big-endian integer, and so is the ed25519 key
    a validator signs blocks with.  An address is that of a shielded account. *)
Abbreviation identity_key := Z.
Abbreviation consensus_key := Z.
Abbreviation address := Z.

(** ** States *)

Module ValidatorState.
Inductive t := Defined | Inactive | Active | Jailed | Tombstoned | Disabled.

#[global] Instance eq_dec : EqDecision t.
Proof. solve_decision. Defined.
End ValidatorState.

Module BondingState.
Inductive t := Bonded | Unbonded | Unbonding (unbonds_at_height : Z).

#[global] Instance eq_dec : EqDecision t.
Proof. solve_decision. Defined.
End BondingState.

(** ** Funding streams *)

Inductive Recipient := ToAddress (a : address) | ToCommunityPool.

Record FundingStream := mkStream { recipient : Recipient; rate_bps : Z }.

#[global] Instance recipient_eq_dec : EqDecision Recipient.
Proof. solve_decision. Defined.
#[global] Instance stream_eq_dec : EqDecision FundingStream.
Proof. solve_decision. Defined.

Module FundingStreams.
(** [.sum::<u16>()]: the plain additions of the iterator, which panic on overflow. *)
Definition sum_u16 {E} (l : list FundingStream) : outcome E Z :=
  foldl (fun acc fs => let! total := acc in plain_add 16 total (rate_bps fs)) (Ok 0) l.

Definition try_from (l : list FundingStream) : anyhow (list FundingStream) :=
  if (8 <? Z.of_nat (length l)) then Err "validators can declare at most 8 funding streams"
  else
    let! total := sum_u16 l in
    if 10000 <? total then Err "sum of funding rates exceeds 100% (10,000bps)" else Ok l.

(** [fold(0u64, ...)] over the rates. *)
Definition commission {E} (l : list FundingStream) : outcome E Z :=
  foldl (fun acc fs => let! total := acc in plain_add 64 total (rate_bps fs)) (Ok 0) l.

Definition typed (l : list FundingStream) : Prop := Forall (fun fs => is_u16 (rate_bps fs)) l.

(** The commission is the sum of the rates, as long as there are few of them. *)
Lemma fold_sum {E} w l acc :
  0 <= acc -> Forall (fun fs => 0 <= rate_bps fs) l -> acc + list_sum (rate_bps <$> l) < 2 ^ w ->
  foldl (fun acc fs => let! total := acc in plain_add w total (rate_bps fs)) (Ok acc) l
    = (Ok (acc + list_sum (rate_bps <$> l)) : outcome E Z).
Proof.
  revert acc. induction l as [|fs l IH]; intros acc Ha Hl Hs; cbn [foldl fmap list_fmap list_sum foldr] in *.
  - by rewrite Z.add_0_r.
  - apply Forall_cons in Hl as [H1 Hl]. fold (list_sum (rate_bps <$> l)) in *.
    assert (0 <= list_sum (rate_bps <$> l)) by (apply list_sum_nonneg, Forall_fmap; exact Hl).
    cbn [outcome_bind]. rewrite plain_add_run by lia. rewrite IH by (done || lia). f_equal. lia.
Qed.

Lemma commission_run {E} l :
  Forall (fun fs => 0 <= rate_bps fs) l -> list_sum (rate_bps <$> l) < 2 ^ 64 ->
  @commission E l = Ok (list_sum (rate_bps <$> l)).
Proof. intros Hl Hs. unfold commission. rewrite (fold_sum 64) by (done || lia). done. Qed.
End FundingStreams.

(** ** Definitions *)

Record Validator := mkValidator {
  validator_identity : identity_key;
  governance_key : Z;
  validator_consensus_key : consensus_key;
  validator_name : string;
  validator_website : string;
  validator_description : string;
  enabled : bool;
  funding_streams : list FundingStream;
  sequence_number : Z;
}.

(** ** Uptime *)

Module Uptime.
Record t := mk { as_of_block_height : Z; signatures : list bool }.

(** A new tracker has signed everything. *)
Definition new (initial_block_height : Z) (signed_blocks_window_len : nat) : t :=
  mk initial_block_height (replicate signed_blocks_window_len true).

(** The position of a height in the ring buffer; the remainder by an empty window panics. *)
Definition slot (u : t) (height : Z) : nat := Z.to_nat (height mod Z.of_nat (length (signatures u))).

Definition mark_height_as_signed (height : Z) (signed : bool) (u : t) : anyhow t :=
  let! next := plain_add 64 (as_of_block_height u) 1 in
  if negb (height =? next) then Err "Last block height does not precede the next block height"
  else if Z.of_nat (length (signatures u)) =? 0 then Panic
  else Ok (mk height (<[slot u height := signed]> (signatures u))).

Definition num_missed_blocks (u : t) : Z := Z.of_nat (length (filter (fun b => b = false) (signatures u))).

(** The heights from [start], [n] of them. *)
Definition heights (start : Z) (n : nat) : list Z := (fun i : nat => start + Z.of_nat i) <$> seq 0 n.

Definition missed_blocks {E} (u : t) : outcome E (list Z) :=
  let current_height := as_of_block_height u in
  let window_len := Z.of_nat (length (signatures u)) in
  let! before := plain_sub window_len 1 in
  let earliest_height := saturating_sub current_height before in
  let all_heights := heights earliest_height (Z.to_nat (current_height - earliest_height + 1)) in
  Ok (filter (fun h => signatures u !! slot u h = Some false) all_heights).

Definition as_of_height (u : t) : Z := as_of_block_height u.
Definition missed_blocks_window (u : t) : Z := Z.of_nat (length (signatures u)).
End Uptime.

(** *** Lists *)

Lemma filter_ext_elem {A} (P Q : A -> Prop) `{forall x, Decision (P x), forall x, Decision (Q x)} (l : list A) :
  (forall x, x ∈ l -> P x <-> Q x) -> filter P l = filter Q l.
Proof.
  induction l as [|x l IH]; intros Hl; [done|]. rewrite !filter_cons. rewrite IH by (intros y Hy; apply Hl; set_solver).
  specialize (Hl x ltac:(set_solver)). repeat case_decide; tauto.
Qed.

Lemma filter_none {A} (P : A -> Prop) `{forall x, Decision (P x)} (l : list A) :
  (forall x, x ∈ l -> ~ P x) -> filter P l = [].
Proof.
  induction l as [|x l IH]; intros Hl; [done|]. rewrite filter_cons, decide_False by (apply Hl; set_solver).
  apply IH. intros y Hy. apply Hl. set_solver.
Qed.

Lemma StronglySorted_filter {A} (R : relation A) (P : A -> Prop) `{forall x, Decision (P x)} (l : list A) :
  StronglySorted R l -> StronglySorted R (filter P l).
Proof.
  induction 1 as [|x l Hl IH Hx]; [constructor|]. rewrite filter_cons. case_decide; [|done]. constructor; [done|].
  apply Forall_forall. intros y [_ Hy]%list_elem_of_filter. by eapply Forall_forall in Hx.
Qed.

Lemma length_filter_fmap {A B} (f : A -> B) (P : B -> Prop) `{forall x, Decision (P x)} (l : list A) :
  length (filter P (f <$> l)) = length (filter (fun x => P (f x)) l).
Proof. induction l as [|x l IH]; [done|]. rewrite fmap_cons, !filter_cons. case_decide; cbn; by rewrite IH. Qed.

Lemma StronglySorted_seq s n : StronglySorted lt (seq s n).
Proof.
  revert s. induction n as [|n IH]; intros s; cbn; constructor; [done|]. apply Forall_forall.
  intros x Hx%elem_of_seq. lia.
Qed.

(** *** The window

    What the tracker stands for: one bit for each of the last [n] heights. *)

Section Window.
Import Uptime.
Context (signed : Z -> bool).

(** Marking the [k] heights that follow. *)
Definition mark_all (hs : list Z) (u : t) : anyhow t :=
  foldl (fun acc h => let! v := acc in mark_height_as_signed h (signed h) v) (Ok u) hs.

(** The last heights are in their slots. *)
Definition tracks_window (u : t) (n : nat) : Prop :=
  length (signatures u) = n
  /\ forall h, as_of_block_height u - Z.of_nat n < h <= as_of_block_height u ->
       signatures u !! Z.to_nat (h mod Z.of_nat n) = Some (signed h).

Lemma slots_differ (n : nat) h h' :
  (0 < n)%nat -> h - Z.of_nat n < h' < h -> Z.to_nat (h' mod Z.of_nat n) <> Z.to_nat (h mod Z.of_nat n).
Proof.
  intros Hn Hh He. pose proof (Z.mod_pos_bound h (Z.of_nat n) ltac:(lia)). pose proof (Z.mod_pos_bound h' (Z.of_nat n) ltac:(lia)).
  assert (Hm : h' mod Z.of_nat n = h mod Z.of_nat n) by lia.
  pose proof (Z.div_mod h (Z.of_nat n) ltac:(lia)). pose proof (Z.div_mod h' (Z.of_nat n) ltac:(lia)).
  assert (h - h' = Z.of_nat n * (h / Z.of_nat n - h' / Z.of_nat n)) as Hd by lia.
  destruct (Z.le_gt_cases (h / Z.of_nat n - h' / Z.of_nat n) 0); nia.
Qed.

Lemma new_window h0 n :
  (forall h, h <= h0 -> signed h = true) -> (0 < n)%nat -> tracks_window (new h0 n) n.
Proof.
  intros Hs Hn. unfold tracks_window, new. cbn [signatures as_of_block_height]. rewrite length_replicate. split; [done|].
  intros h Hh. rewrite Hs by lia. apply lookup_replicate_2. pose proof (Z.mod_pos_bound h (Z.of_nat n) ltac:(lia)). lia.
Qed.

Lemma mark_window u n :
  tracks_window u n -> (0 < n)%nat -> as_of_block_height u + 1 < 2 ^ 64 ->
  exists v, mark_height_as_signed (as_of_block_height u + 1) (signed (as_of_block_height u + 1)) u = Ok v
    /\ as_of_block_height v = as_of_block_height u + 1 /\ tracks_window v n.
Proof.
  intros [Hlen Hw] Hn Hb. unfold mark_height_as_signed. rewrite plain_add_run by lia. cbn [outcome_bind].
  rewrite Z.eqb_refl. cbn [negb]. rewrite (proj2 (Z.eqb_neq _ 0)) by lia.
  eexists. split; [done|]. split; [done|]. unfold tracks_window. cbn [signatures as_of_block_height].
  rewrite length_insert. split; [done|]. intros h Hh. unfold slot. rewrite Hlen.
  destruct (decide (h = as_of_block_height u + 1)) as [->|Hne].
  - rewrite list_lookup_insert_eq; [done|]. rewrite Hlen.
    pose proof (Z.mod_pos_bound (as_of_block_height u + 1) (Z.of_nat n) ltac:(lia)). lia.
  - rewrite list_lookup_insert_ne; [apply Hw; lia|]. apply not_eq_sym, slots_differ; lia.
Qed.

Lemma heights_S start k : heights start (S k) = start :: heights (start + 1) k.
Proof.
  unfold heights. cbn [seq fmap list_fmap]. f_equal; [lia|]. rewrite <- fmap_S_seq, <- list_fmap_compose.
  apply list_fmap_ext. intros i x _. cbn. lia.
Qed.

Lemma mark_all_window n : forall k u,
  tracks_window u n -> (0 < n)%nat -> as_of_block_height u + Z.of_nat k < 2 ^ 64 ->
  exists v, mark_all (heights (as_of_block_height u + 1) k) u = Ok v
    /\ as_of_block_height v = as_of_block_height u + Z.of_nat k /\ tracks_window v n.
Proof.
  induction k as [|k IH]; intros u Hw Hn Hb.
  { exists u. split_and!; [done|lia|done]. }
  destruct (mark_window u n Hw Hn ltac:(lia)) as (v & Hm & Ha & Hv).
  destruct (IH v Hv Hn ltac:(lia)) as (v' & Hm' & Ha' & Hv'). exists v'. split_and!; [|lia|done].
  rewrite heights_S. unfold mark_all in *. cbn [foldl outcome_bind]. rewrite Hm. by rewrite Ha in Hm'.
Qed.

Lemma elem_of_heights h start k : h ∈ heights start k <-> start <= h < start + Z.of_nat k.
Proof.
  unfold heights. rewrite list_elem_of_fmap. split.
  - intros (i & -> & Hi%elem_of_seq). lia.
  - intros Hh. exists (Z.to_nat (h - start)). rewrite elem_of_seq. lia.
Qed.

Lemma heights_NoDup start k : NoDup (heights start k).
Proof. apply NoDup_fmap_2; [intros i j; lia|apply NoDup_seq]. Qed.

Lemma heights_app start a b : heights start (a + b) = heights start a ++ heights (start + Z.of_nat a) b.
Proof.
  unfold heights. rewrite seq_app, fmap_app. f_equal. cbn [Nat.add]. rewrite <- (Nat.add_0_r a) at 1.
  rewrite <- fmap_add_seq, <- list_fmap_compose. apply list_fmap_ext. intros i x _. cbn. lia.
Qed.

Lemma length_heights start k : length (heights start k) = k.
Proof. unfold heights. by rewrite length_fmap, length_seq. Qed.

(** The signatures are those of the last [n] heights, in the order of their slots. *)
Lemma window_perm u n :
  tracks_window u n -> (0 < n)%nat ->
  signatures u ≡ₚ signed <$> heights (as_of_block_height u - Z.of_nat n + 1) n.
Proof.
  intros [Hlen Hw] Hn. set (hs := heights _ n). set (at_slot := fun h => Z.to_nat (h mod Z.of_nat n)).
  assert (Hp : at_slot <$> hs ≡ₚ seq 0 n).
  { apply submseteq_length_Permutation; [|unfold hs; by rewrite length_fmap, length_heights, length_seq].
    apply NoDup_submseteq.
    - apply NoDup_fmap_2_strong; [|apply heights_NoDup]. intros h h' Hh%elem_of_heights Hh'%elem_of_heights He.
      destruct (Z.lt_trichotomy h h') as [Hlt|[|Hlt]]; [|done|]; exfalso; revert He; [|intros He; symmetry in He; revert He];
        apply slots_differ; lia.
    - intros i (h & -> & Hh)%list_elem_of_fmap. apply elem_of_seq. unfold at_slot.
      pose proof (Z.mod_pos_bound h (Z.of_nat n) ltac:(lia)). lia. }
  assert (Hall : signatures u = (fun i => signatures u !!! i) <$> seq 0 n).
  { apply list_eq. intros i. rewrite list_lookup_fmap. destruct (decide (i < n)%nat).
    - rewrite lookup_seq_lt by done. cbn. apply list_lookup_lookup_total_lt. lia.
    - rewrite lookup_ge_None_2 by lia. by rewrite lookup_seq_ge by lia. }
  rewrite Hall, <- Hp, <- list_fmap_compose.
  erewrite (list_fmap_ext _ signed hs); [done|]. intros i h Hh%list_elem_of_lookup_2%elem_of_heights. cbn.
  apply list_lookup_total_correct. apply Hw. lia.
Qed.
End Window.

(** (C29) Whatever has been signed since a tracker was created, it has seen every height, its count is the
    number of heights of the window that were missed, and it lists exactly these, in order; heights
    before it was created count as signed. *)
Theorem uptime_counts_the_missed_window signed h0 n k :
  (forall h, h <= h0 -> signed h = true) -> 0 <= h0 -> (0 < n)%nat -> h0 + Z.of_nat k < 2 ^ 64 ->
  exists u missed, mark_all signed (Uptime.heights (h0 + 1) k) (Uptime.new h0 n) = Ok u
    /\ Uptime.as_of_height u = h0 + Z.of_nat k
    /\ @Uptime.missed_blocks string u = Ok missed
    /\ Uptime.num_missed_blocks u = Z.of_nat (length missed)
    /\ StronglySorted Z.lt missed
    /\ forall h, h ∈ missed <-> h0 + Z.of_nat k - Z.of_nat n < h <= h0 + Z.of_nat k /\ signed h = false.
Proof.
  intros Hs H0 Hn Hk. destruct (mark_all_window signed n k (Uptime.new h0 n) (new_window signed h0 n Hs Hn) Hn Hk)
    as (u & Hm & Ha & Hw). cbn [Uptime.as_of_block_height Uptime.new] in *.
  pose proof (window_perm signed u n Hw Hn) as Hperm. destruct Hw as [Hlen Hw].
  set (lo := saturating_sub (Uptime.as_of_block_height u) (Z.of_nat n - 1)).
  set (m := Z.to_nat (Uptime.as_of_block_height u - lo + 1)).
  assert (Hlo : Z.max 0 (h0 + Z.of_nat k - Z.of_nat n + 1) = lo) by (unfold lo, saturating_sub; lia).
  assert (Hm' : Z.of_nat m = h0 + Z.of_nat k - lo + 1) by lia.
  exists u, (filter (fun h => signed h = false) (Uptime.heights lo m)). split_and!; [done|done| | | |].
  - unfold Uptime.missed_blocks. rewrite Hlen, plain_sub_run by lia. cbn [outcome_bind]. fold lo. fold m. f_equal.
    apply filter_ext_elem. intros h Hh%elem_of_heights. unfold Uptime.slot. rewrite Hlen, Hw by lia. split; congruence.
  - unfold Uptime.num_missed_blocks. rewrite Hperm, length_filter_fmap, Ha. f_equal.
    destruct (Z.le_gt_cases 0 (h0 + Z.of_nat k - Z.of_nat n + 1)).
    { replace lo with (h0 + Z.of_nat k - Z.of_nat n + 1) by lia. by replace m with n by lia. }
    replace n with ((n - m) + m)%nat at 2 by lia. rewrite heights_app, filter_app, length_app.
    rewrite filter_none.
    { cbn [length Nat.add]. by replace (h0 + Z.of_nat k - Z.of_nat n + 1 + Z.of_nat (n - m)) with lo by lia. }
    intros h Hh%elem_of_heights. rewrite Hs by lia. done.
  - apply StronglySorted_filter. eapply StronglySorted_fmap; [|apply StronglySorted_seq]. intros i j. lia.
  - intros h. rewrite list_elem_of_filter, elem_of_heights. split; [intros [Hf Hh]; split; [lia|done]|]. intros [Hh Hf]. split; [done|].
    assert (h0 < h); [|lia]. destruct (Z.le_gt_cases h h0) as [Hle|]; [|done]. rewrite Hs in Hf by done. done.
Qed.

(** Heights 11 to 13, of which 12 is missed. *)
Lemma uptime_counts_the_missed_window_witness :
  exists u, mark_all (fun h => negb (h =? 12)) (Uptime.heights 11 3) (Uptime.new 10 5) = Ok u
    /\ Uptime.num_missed_blocks u = 1 /\ @Uptime.missed_blocks string u = Ok [12].
Proof.
  destruct (uptime_counts_the_missed_window (fun h => negb (h =? 12)) 10 5 3) as (u & missed & Hu & _ & Hm & Hn & _).
  - intros h Hh. apply negb_true_iff, Z.eqb_neq. lia.
  - lia.
  - lia.
  - reflexivity.
  - exists u. split; [exact Hu|].
    assert (Hv : @Ok string _ u = Ok (Uptime.mk 13 [true; true; false; true; true])) by (rewrite <- Hu; vm_compute; reflexivity).
    injection Hv as ->. split; vm_compute; reflexivity.
Defined.
