(* ===== verification/Rate.v ===== *)
(** * Penalties and exchange rates

    Models crates/core/component/stake: penalty.rs, rate.rs, delegate.rs, undelegate.rs, and the
    rewards of funding_stream.rs.  Rates carry an implicit factor of 10^8, which the code removes by
    a fixed-point division, so every conversion rounds; the lemmas compute what it rounds to. *)

From S2P Require Import Prelude.
From S2P Require Import Num.
From S2P Require Import Asset.
From S2P Require Import DexState.
From S2P Require Import Validator.

(** The tokens of the staking component, named by their denominations: code outside this model. *)
Class StakeTokens := {
  staking_token : asset_id;
  delegation_token : identity_key -> asset_id;
  unbonding_token : identity_key -> Z -> asset_id;
}.

Definition BPS_SQUARED_SCALING_FACTOR : Z := U128x128.from_uint 100000000.

(** [(x / *BPS_SQUARED_SCALING_FACTOR).expect(...)] *)
Definition descale {E} (x : Z) : outcome E Z :=
  expect_ok (U128x128.checked_div (U128x128.from_uint x) BPS_SQUARED_SCALING_FACTOR).
(** [.round_down().try_into().expect(...)] *)
Definition to_amount {E} (x : Z) : outcome E Z :=
  expect_ok (U128x128.try_into_u128 (U128x128.round_down x)).
Definition saturating_mul (w x y : Z) : Z := Z.min (x * y) (max_int w).

(** ** Penalties

    A penalty is the fraction that is kept. *)

Module Penalty.
Definition one_minus_this {E} (p : Z) : outcome E Z :=
  expect_ok (U128x128.checked_sub (U128x128.from_uint 1) p).
Definition from_bps_squared {E} (bps_squared : Z) : outcome E Z :=
  if bps_squared <=? 100000000 then
    let! r := expect_ok (U128x128.ratio (U128x128.from_uint bps_squared) (U128x128.from_uint 100000000)) in
    one_minus_this r
  else Panic.
Definition from_bps {E} (bps : Z) : outcome E Z := from_bps_squared (saturating_mul 64 bps 10000).
Definition from_percent {E} (percent : Z) : outcome E Z := from_bps (saturating_mul 64 percent 100).

Definition compound {E} (p q : Z) : outcome E Z := expect_ok (U128x128.checked_mul p q).
Definition apply_to_amount {E} (p amount : Z) : outcome E Z :=
  expect_ok (U128x128.apply_to_amount p amount).
Definition apply_to {E} (p x : Z) : outcome E Z := expect_ok (U128x128.checked_mul x p).

Definition balance_for_claim {E} (p : Z) (unbonding_id staking_id : asset_id) (unbonding_amount : Z)
  : outcome E Balance.t :=
  let! kept := apply_to_amount p unbonding_amount in
  let! b := Balance.sub_value Balance.zero (mkValue unbonding_amount unbonding_id) in
  Balance.add_value b (mkValue kept staking_id).

Definition wf (p : Z) : Prop := 0 <= p <= U128x128.B.
End Penalty.

(** ** Rates *)

Record RateData := mkRate {
  rate_identity : identity_key;
  validator_reward_rate : Z;
  validator_exchange_rate : Z;
}.

Record BaseRateData := mkBaseRate {
  epoch_index : Z;
  base_reward_rate : Z;
  base_exchange_rate : Z;
}.

#[global] Instance rate_eq_dec : EqDecision RateData.
Proof. solve_decision. Defined.

Record Delegate := mkDelegate {
  delegate_validator : identity_key;
  delegate_epoch_index : Z;
  delegate_unbonded_amount : Z;
  delegate_delegation_amount : Z;
}.

Record Undelegate := mkUndelegate {
  undelegate_validator : identity_key;
  undelegate_from_epoch : Epoch;
  undelegate_unbonded_amount : Z;
  undelegate_delegation_amount : Z;
}.

Module Rate.
Definition delegation_amount {E} (self : RateData) (unbonded_amount : Z) : outcome E Z :=
  let! rate := descale (validator_exchange_rate self) in
  if rate =? U128x128.from_uint 0 then Ok 0
  else
    let! amount := expect_ok (U128x128.checked_div (U128x128.from_uint unbonded_amount) rate) in
    to_amount amount.

Definition unbonded_amount {E} (self : RateData) (delegation_amount : Z) : outcome E Z :=
  let! rate := descale (validator_exchange_rate self) in
  let! amount := expect_ok (U128x128.checked_mul (U128x128.from_uint delegation_amount) rate) in
  to_amount amount.

(** The same computation, on the size of the pool. *)
Definition voting_power {E} (self : RateData) (delegation_pool_size : Z) : outcome E Z :=
  unbonded_amount self delegation_pool_size.

Definition slash {E} (self : RateData) (penalty : Z) : outcome E RateData :=
  let! x := Penalty.apply_to penalty (U128x128.from_uint (validator_exchange_rate self)) in
  let! penalized := to_amount x in
  Ok (mkRate (rate_identity self) (validator_reward_rate self) penalized).

(** The rates of an active validator; the others keep theirs. *)
Definition next_rates {E} (self : RateData) (next_base_rate : BaseRateData) (commission_bps : Z)
  : outcome E (Z * Z) :=
  if 10000 <? commission_bps then Panic
  else
    let one := U128x128.from_uint 1 in
    let max_bps := U128x128.from_uint 10000 in
    let! commission := expect_ok (U128x128.checked_div (U128x128.from_uint commission_bps) max_bps) in
    let! next_base_reward_rate := descale (base_reward_rate next_base_rate) in
    let! previous_exchange_rate := descale (validator_exchange_rate self) in
    let! commission_factor := expect_ok (U128x128.checked_sub one commission) in
    let! next_reward_rate := expect_ok (U128x128.checked_mul next_base_reward_rate commission_factor) in
    let! growth_factor := expect_ok (U128x128.checked_add one next_reward_rate) in
    let! next_exchange_rate := expect_ok (U128x128.checked_mul previous_exchange_rate growth_factor) in
    let! reward := expect_ok (U128x128.checked_mul next_reward_rate BPS_SQUARED_SCALING_FACTOR) in
    let! reward := to_amount reward in
    let! exchange := expect_ok (U128x128.checked_mul next_exchange_rate BPS_SQUARED_SCALING_FACTOR) in
    let! exchange := to_amount exchange in
    Ok (reward, exchange).

Definition next_epoch {E} (self : RateData) (next_base_rate : BaseRateData)
  (streams : list FundingStream) (state : ValidatorState.t) : outcome E RateData :=
  if decide (state = ValidatorState.Active) then
    let! commission_bps := FundingStreams.commission streams in
    let! rates := next_rates self next_base_rate commission_bps in
    Ok (mkRate (rate_identity self) rates.1 rates.2)
  else Ok self.

Definition build_delegate {E} (self : RateData) (epoch : Epoch) (unbonded : Z) : outcome E Delegate :=
  let! amount := delegation_amount self unbonded in
  Ok (mkDelegate (rate_identity self) (index epoch) unbonded amount).

Definition build_undelegate {E} (self : RateData) (start_epoch : Epoch) (delegation : Z)
  : outcome E Undelegate :=
  let! amount := unbonded_amount self delegation in
  Ok (mkUndelegate (rate_identity self) start_epoch amount delegation).
End Rate.

Module BaseRate.
Definition next_epoch {E} (self : BaseRateData) (next_base_reward_rate : Z) : outcome E BaseRateData :=
  let! prev := descale (base_exchange_rate self) in
  let! reward := descale next_base_reward_rate in
  let! growth := expect_ok (U128x128.checked_add (U128x128.from_uint 1) reward) in
  let! next := expect_ok (U128x128.checked_mul prev growth) in
  let! scaled := expect_ok (U128x128.checked_mul next BPS_SQUARED_SCALING_FACTOR) in
  let! scaled := to_amount scaled in
  let! index := plain_add 64 (epoch_index self) 1 in
  Ok (mkBaseRate index next_base_reward_rate scaled).
End BaseRate.

(** [FundingStream::reward_amount] *)
Definition reward_amount {E} (stream : FundingStream)
  (reward_rate exchange_rate total_delegation_tokens : Z) : outcome E Z :=
  let! commission_rate := expect_ok (U128x128.checked_div (U128x128.from_uint (rate_bps stream)) (U128x128.from_uint 10000)) in
  let! prev_exchange_rate := descale exchange_rate in
  let! prev_reward_rate := descale reward_rate in
  let! staking_tokens := expect_ok (U128x128.checked_mul (U128x128.from_uint total_delegation_tokens) prev_exchange_rate) in
  let! total_reward := expect_ok (U128x128.checked_mul staking_tokens prev_reward_rate) in
  let! stream_reward := expect_ok (U128x128.checked_mul total_reward commission_rate) in
  to_amount stream_reward.

(** ** Balances of the actions *)

Module Actions.
Section Actions.
Context `{StakeTokens}.

Definition delegation_value (d : Delegate) : Value :=
  mkValue (delegate_delegation_amount d) (delegation_token (delegate_validator d)).
Definition unbonded_value (d : Delegate) : Value := mkValue (delegate_unbonded_amount d) staking_token.
Definition delegate_balance {E} (d : Delegate) : outcome E Balance.t :=
  Balance.sub (Balance.from_value (delegation_value d)) (Balance.from_value (unbonded_value d)).

Definition undelegate_unbonding_token (u : Undelegate) : asset_id :=
  unbonding_token (undelegate_validator u) (start_height (undelegate_from_epoch u)).
Definition undelegate_unbonded_value (u : Undelegate) : Value :=
  mkValue (undelegate_unbonded_amount u) (undelegate_unbonding_token u).
Definition undelegate_delegation_value (u : Undelegate) : Value :=
  mkValue (undelegate_delegation_amount u) (delegation_token (undelegate_validator u)).
Definition undelegate_balance {E} (u : Undelegate) : outcome E Balance.t :=
  Balance.sub (Balance.from_value (undelegate_unbonded_value u))
              (Balance.from_value (undelegate_delegation_value u)).
End Actions.
End Actions.
