(* ===== verification/RateFacts.v ===== *)
(** * Facts about penalties and exchange rates

    Each computation is shown to be a floor of exact arithmetic, and not to panic; the theorems
    about delegation round trips and about the growth of rates follow. *)

From S2P Require Import Prelude.
From S2P Require Import Num.
From S2P Require Import Asset.
From S2P Require Import DexState.
From S2P Require Import Validator.
From S2P Require Import Rate.
Import U128x128.

(** ** Scaling *)

(** The scaling factor. *)
Definition S8 : Z := 100000000.

Lemma one_lt_B : 1 < B.
Proof. done. Qed.

Lemma factor_eq : BPS_SQUARED_SCALING_FACTOR = S8 * B.
Proof. apply from_uint_eq. Qed.

Lemma factor_wf : wf BPS_SQUARED_SCALING_FACTOR.
Proof. by_computation. Qed.

(** Division by a small integer. *)
Lemma div_uint_run {E} x n :
  is_u128 x -> 0 < n < B -> @expect_ok E error Z (checked_div (from_uint x) (from_uint n)) = Ok (x * B / n).
Proof.
  unfold in_width. intros Hx Hn. rewrite checked_div_eq; [|rewrite from_uint_eq; pose proof B_pos; nia|apply wf_from_uint; unfold in_width; fold B; lia].
  rewrite !from_uint_eq. pose proof B_pos. rewrite (proj2 (Z.eqb_neq _ 0)) by nia.
  replace (x * B * B) with (x * B * B) by lia. rewrite Z.div_mul_cancel_r by lia.
  rewrite (proj2 (Z.ltb_lt _ _)); [done|]. rewrite U256_B. fold B in Hx. apply Z.div_lt_upper_bound; nia.
Qed.

Lemma descale_run {E} x : is_u128 x -> @descale E x = Ok (x * B / S8).
Proof. intros Hx. unfold descale, BPS_SQUARED_SCALING_FACTOR. by rewrite (div_uint_run x S8). Qed.

Lemma to_amount_run {E} x : @to_amount E x = Ok (x / B).
Proof. unfold to_amount. by rewrite round_down_eq, try_into_u128_from_uint. Qed.

Lemma mul_run {E} x y :
  wf x -> wf y -> x * y / B < U256 -> @expect_ok E error Z (checked_mul x y) = Ok (x * y / B).
Proof. intros Hx Hy Hb. rewrite checked_mul_eq by done. by rewrite (proj2 (Z.ltb_lt _ _)). Qed.

(** Multiplying an integer is exact. *)
Lemma mul_uint_run {E} n x :
  is_u128 n -> wf x -> n * x < U256 -> @expect_ok E error Z (checked_mul (from_uint n) x) = Ok (n * x).
Proof.
  intros Hn Hx Hb. assert (He : from_uint n * x / B = n * x).
  { rewrite from_uint_eq. replace (n * B * x) with (n * x * B) by lia. apply Z.div_mul. pose proof B_pos. lia. }
  rewrite mul_run; rewrite ?He; [done|by apply wf_from_uint|done|done].
Qed.

Lemma mul_factor_run {E} x :
  wf x -> x * S8 < U256 -> @expect_ok E error Z (checked_mul x BPS_SQUARED_SCALING_FACTOR) = Ok (x * S8).
Proof.
  intros Hx Hb. assert (He : x * BPS_SQUARED_SCALING_FACTOR / B = x * S8).
  { rewrite factor_eq. replace (x * (S8 * B)) with (x * S8 * B) by lia. apply Z.div_mul. pose proof B_pos. lia. }
  rewrite mul_run; rewrite ?He; [done|done|apply factor_wf|done].
Qed.

Lemma scaled_bounds x : 0 <= x -> x * B / S8 * S8 <= x * B < (x * B / S8 + 1) * S8 /\ 0 <= x * B / S8.
Proof.
  intros Hx. pose proof B_pos. unfold S8. pose proof (Z.div_mod (x * B) 100000000 ltac:(lia)).
  pose proof (Z.mod_pos_bound (x * B) 100000000 ltac:(lia)). assert (0 <= x * B / 100000000) by (apply Z.div_pos; nia). lia.
Qed.

Lemma scaled_wf x : is_u128 x -> wf (x * B / S8).
Proof.
  unfold in_width. intros Hx. pose proof (scaled_bounds x ltac:(lia)) as [Hb H0]. split; [done|].
  apply Z.div_lt_upper_bound; [done|]. rewrite U256_B. fold B in Hx. pose proof B_pos. unfold S8. nia.
Qed.

(** ** Penalties *)

Section Penalties.
Import Penalty.

Lemma from_bps_squared_run {E} b :
  0 <= b <= S8 -> @from_bps_squared E b = Ok (B - b * B / S8) /\ Penalty.wf (B - b * B / S8).
Proof.
  intros Hb. unfold from_bps_squared. fold S8. rewrite (proj2 (Z.leb_le _ _)) by (unfold S8 in *; lia).
  unfold ratio. rewrite (div_uint_run b S8); [|unfold in_width, S8 in *; lia|by_computation]. cbn [outcome_bind].
  pose proof (scaled_bounds b ltac:(lia)) as [Hs H0]. assert (b * B / S8 <= B) by (apply Z.div_le_upper_bound; [done|]; pose proof B_pos; nia).
  unfold one_minus_this. unfold U128x128.checked_sub, Prelude.checked_sub.
  change (from_uint 1) with B. rewrite (proj2 (Z.leb_le _ _)) by done. split; [done|]. unfold wf. lia.
Qed.

Lemma penalty_fixed_wf p : Penalty.wf p -> U128x128.wf p.
Proof. unfold Penalty.wf, U128x128.wf. rewrite U256_B. pose proof one_lt_B. nia. Qed.

Lemma compound_run {E} p q :
  Penalty.wf p -> Penalty.wf q ->
  @compound E p q = Ok (p * q / B) /\ Penalty.wf (p * q / B) /\ p * q / B <= p /\ p * q / B <= q.
Proof.
  intros Hp Hq. unfold Penalty.wf in *. pose proof one_lt_B.
  assert (0 <= p * q / B <= p /\ p * q / B <= q) as [? ?].
  { split; [split; [apply Z.div_pos; nia|]|]; apply Z.div_le_upper_bound; nia. }
  unfold compound. rewrite mul_run; [|by apply penalty_fixed_wf|by apply penalty_fixed_wf|rewrite U256_B; nia].
  split_and!; done || lia.
Qed.

Lemma apply_to_amount_run {E} p a :
  Penalty.wf p -> is_u128 a -> @apply_to_amount E p a = Ok (a * p / B) /\ 0 <= a * p / B <= a.
Proof.
  intros Hp Ha. unfold Penalty.wf, in_width in *. pose proof one_lt_B.
  assert (0 <= a * p / B <= a) by (split; [apply Z.div_pos; nia|apply Z.div_le_upper_bound; nia]).
  split; [|done]. unfold apply_to_amount, U128x128.apply_to_amount.
  assert (He : from_uint a * p / B = a * p).
  { rewrite from_uint_eq. replace (a * B * p) with (a * p * B) by lia. apply Z.div_mul. lia. }
  rewrite checked_mul_eq by (by apply wf_from_uint || by apply penalty_fixed_wf). rewrite He.
  rewrite (proj2 (Z.ltb_lt _ _)) by (rewrite U256_B; fold B in Ha; nia). cbn [outcome_bind].
  rewrite round_down_eq, try_into_u128_from_uint. done.
Qed.
End Penalties.

(** ** Conversions *)

Section Conversions.
Context (r : RateData) (Hr : is_u128 (validator_exchange_rate r)).

(** The exchange rate as a fixed-point number. *)
Definition fixed_rate : Z := validator_exchange_rate r * B / S8.

Lemma fixed_rate_bounds : fixed_rate * S8 <= validator_exchange_rate r * B < (fixed_rate + 1) * S8 /\ 0 <= fixed_rate.
Proof. apply scaled_bounds, Hr. Qed.

Lemma delegation_amount_run {E} x :
  is_u128 x -> 0 < validator_exchange_rate r -> x < validator_exchange_rate r * (B / S8) ->
  @Rate.delegation_amount E r x = Ok (x * B / fixed_rate) /\ x < fixed_rate.
Proof.
  unfold in_width. intros Hx Hpos Hlt. pose proof fixed_rate_bounds as [Hb H0]. pose proof B_pos.
  assert (Hfr : x < fixed_rate).
  { assert (Hq : B / S8 * S8 <= B) by (unfold S8; pose proof (Z.div_mod B 100000000 ltac:(lia));
      pose proof (Z.mod_pos_bound B 100000000 ltac:(lia)); lia).
    assert (x + 1 <= validator_exchange_rate r * (B / S8)) by lia.
    apply Z.lt_le_trans with (x + 1); [lia|]. unfold fixed_rate. apply Z.div_le_lower_bound; [done|].
    unfold S8 in *. nia. }
  split; [|done]. unfold Rate.delegation_amount. rewrite descale_run by exact Hr. cbn [outcome_bind]. fold fixed_rate.
  change (from_uint 0) with 0. rewrite (proj2 (Z.eqb_neq _ 0)) by lia.
  rewrite checked_div_eq; [|rewrite from_uint_eq; nia|by apply scaled_wf].
  rewrite (proj2 (Z.eqb_neq _ 0)) by lia. rewrite from_uint_eq.
  rewrite (proj2 (Z.ltb_lt _ _)).
  2: { apply Z.div_lt_upper_bound; [lia|]. rewrite U256_B. nia. }
  cbn [expect_ok outcome_bind]. rewrite to_amount_run. f_equal.
  rewrite Z.div_div by lia. rewrite Z.div_mul_cancel_r by lia. done.
Qed.

Lemma unbonded_amount_run {E} d :
  0 <= d -> d * fixed_rate < U256 -> d < 2 ^ 128 -> @Rate.unbonded_amount E r d = Ok (d * fixed_rate / B).
Proof.
  intros Hd Hb Hw. unfold Rate.unbonded_amount. rewrite descale_run by exact Hr. cbn [outcome_bind]. fold fixed_rate.
  rewrite mul_uint_run; [|done|by apply scaled_wf|done]. cbn [outcome_bind]. apply to_amount_run.
Qed.
End Conversions.

Lemma div_le_mul a b : 0 < b -> a / b * b <= a < (a / b + 1) * b.
Proof. intros Hb. pose proof (Z.div_mod a b ltac:(lia)). pose proof (Z.mod_pos_bound a b Hb). lia. Qed.

Lemma slash_run {E} r p :
  is_u128 (validator_exchange_rate r) -> Penalty.wf p ->
  exists x, @Rate.slash E r p = Ok (mkRate (rate_identity r) (validator_reward_rate r) x)
    /\ x = validator_exchange_rate r * p / B /\ 0 <= x <= validator_exchange_rate r.
Proof.
  intros Hr Hp. unfold in_width in *. pose proof one_lt_B. eexists.
  assert (0 <= validator_exchange_rate r * p / B <= validator_exchange_rate r).
  { unfold Penalty.wf in Hp. split; [apply Z.div_pos; nia|apply Z.div_le_upper_bound; nia]. }
  split; [|split; [reflexivity|done]]. unfold Rate.slash, Penalty.apply_to.
  rewrite mul_uint_run; [|done|by apply penalty_fixed_wf|].
  2: { unfold Penalty.wf in Hp. rewrite U256_B. fold B in Hr. nia. }
  cbn [outcome_bind]. by rewrite to_amount_run.
Qed.

(** (C27) Delegating stake and undelegating the delegation tokens at the same rate never gains, and loses
    less than the worth of one delegation token and one unit of stake; delegating the result again
    yields no more delegation tokens; a penalty, applied to the rate before undelegating or to the
    unbonding tokens when they are claimed, only takes away.  None of it overflows. *)
Theorem delegation_round_trips_never_gain r x penalty :
  is_u128 (validator_exchange_rate r) -> 0 < validator_exchange_rate r -> is_u128 x ->
  x < validator_exchange_rate r * (B / S8) -> Penalty.wf penalty ->
  exists d y d' z slashed y',
    @Rate.delegation_amount string r x = Ok d
    /\ @Rate.unbonded_amount string r d = Ok y /\ y <= x /\ (x - y) * S8 <= validator_exchange_rate r + S8
    /\ @Rate.delegation_amount string r y = Ok d' /\ d' <= d
    /\ @Penalty.apply_to_amount string penalty y = Ok z /\ z <= y
    /\ @Rate.slash string r penalty = Ok slashed
    /\ @Rate.unbonded_amount string slashed d = Ok y' /\ 0 <= y' <= y.
Proof.
  intros Hr Hpos Hx Hlt Hp. destruct (@delegation_amount_run r Hr string x Hx Hpos Hlt) as [Hd Hxf].
  assert (Hf : 0 < fixed_rate r) by (unfold in_width in Hx; lia).
  pose proof (fixed_rate_bounds r Hr) as [[Hfr _] _]. pose proof one_lt_B as HB.
  set (f := fixed_rate r) in *. set (d := x * B / f) in *. set (y := d * f / B).
  pose proof (div_le_mul (x * B) f Hf) as Hdb. fold d in Hdb.
  pose proof (div_le_mul (d * f) B ltac:(lia)) as Hyb. fold y in Hyb. unfold in_width in Hx.
  assert (H0d : 0 <= d) by (apply Z.div_pos; nia). assert (H0y : 0 <= y) by (apply Z.div_pos; nia).
  assert (Hyx : y <= x) by nia. assert (Hloss : (x - y) * B < f + B) by nia.
  assert (Hu : d * f < U256) by (rewrite U256_B; fold B in Hx; nia).
  assert (Hd128 : d < 2 ^ 128).
  { fold B. apply Z.div_lt_upper_bound; [done|]. nia. }
  destruct (slash_run (E:=string) r penalty Hr Hp) as (xs & Hs & _ & Hxs).
  set (slashed := mkRate (rate_identity r) (validator_reward_rate r) xs) in *.
  assert (Hrs : is_u128 (validator_exchange_rate slashed)) by (unfold in_width in *; cbn; lia).
  assert (Hfs : 0 <= fixed_rate slashed <= f).
  { split; [apply fixed_rate_bounds, Hrs|]. apply Z.div_le_mono; [done|]. cbn. nia. }
  exists d, y, (y * B / f), (y * penalty / B), slashed, (d * fixed_rate slashed / B).
  split_and!.
  - done.
  - by apply unbonded_amount_run.
  - done.
  - unfold S8 in *. nia.
  - apply delegation_amount_run; [done|unfold in_width; lia|done|lia].
  - apply Z.div_le_upper_bound; nia.
  - apply (apply_to_amount_run (E:=string)); [done|unfold in_width; lia].
  - apply (apply_to_amount_run (E:=string)); [done|unfold in_width; lia].
  - done.
  - apply unbonded_amount_run; [done|done|nia|done].
  - apply Z.div_pos; nia.
  - apply Z.div_le_mono; nia.
Qed.

(** ** Growth *)

Section Growth.
Context (x r c : Z) (Hx : 0 <= x < 2 ^ 64) (Hr : 0 <= r < 2 ^ 64) (Hc : 0 <= c <= 10000).

Definition kept_commission : Z := B - c * B / 10000.
Definition fixed_reward : Z := r * B / S8 * kept_commission / B.
Definition fixed_exchange : Z := x * B / S8 * (B + fixed_reward) / B.

Lemma kept_commission_bounds :
  (10000 - c) * B <= kept_commission * 10000 < (10000 - c) * B + 10000 /\ 0 <= kept_commission <= B.
Proof.
  unfold kept_commission. pose proof (div_le_mul (c * B) 10000 ltac:(lia)). pose proof one_lt_B.
  assert (0 <= c * B / 10000) by (apply Z.div_pos; nia).
  assert (c * B / 10000 <= B) by (apply Z.div_le_upper_bound; nia). lia.
Qed.

Lemma small_scaled v : 0 <= v < 2 ^ 64 -> v * B / S8 * S8 <= v * B < (v * B / S8 + 1) * S8 /\ 0 <= v * B / S8 <= 2 ^ 64 * B.
Proof.
  intros Hv. pose proof (scaled_bounds v ltac:(lia)) as [Hb H0]. pose proof one_lt_B. split; [done|]. split; [done|].
  apply Z.div_le_upper_bound; [done|]. unfold S8. nia.
Qed.

Lemma fixed_reward_bounds :
  fixed_reward * B <= r * B / S8 * kept_commission < (fixed_reward + 1) * B /\ 0 <= fixed_reward <= 2 ^ 64 * B.
Proof.
  unfold fixed_reward. pose proof (small_scaled r Hr) as [_ Hs]. pose proof kept_commission_bounds as [_ Hk]. pose proof one_lt_B.
  split; [apply div_le_mul; lia|]. split; [apply Z.div_pos; nia|]. apply Z.div_le_upper_bound; nia.
Qed.

Lemma fixed_exchange_bounds :
  fixed_exchange * B <= x * B / S8 * (B + fixed_reward) < (fixed_exchange + 1) * B
  /\ 0 <= fixed_exchange <= 2 ^ 64 * (2 ^ 64 * B + B).
Proof.
  unfold fixed_exchange. pose proof (small_scaled x Hx) as [_ Hs]. pose proof fixed_reward_bounds as [_ Hk]. pose proof one_lt_B.
  split; [apply div_le_mul; lia|]. split; [apply Z.div_pos; nia|]. apply Z.div_le_upper_bound; nia.
Qed.

Lemma kept_le_base : fixed_reward * S8 / B <= r.
Proof.
  pose proof (small_scaled r Hr) as [Hs Hs0]. pose proof kept_commission_bounds as [_ Hk].
  pose proof fixed_reward_bounds as [Hf Hf0]. pose proof one_lt_B. apply Z.div_le_upper_bound; [lia|].
  set (rs := r * B / S8) in *. assert (rs * kept_commission <= rs * B) by nia.
  assert (fixed_reward <= rs) by nia. unfold S8 in *. nia.
Qed.

(** The new exchange rate, against exact arithmetic. *)
Lemma exchange_upper :
  fixed_exchange * S8 / B * (S8 * 10000) <= x * (S8 * 10000 + r * (10000 - c)) + S8 * 10000.
Proof.
  pose proof (small_scaled r Hr) as [[Hr1 _] Hr0]. pose proof (small_scaled x Hx) as [[Hx1 _] Hx0].
  pose proof kept_commission_bounds as [[_ Hk] Hk0]. pose proof fixed_reward_bounds as [[Hf _] Hf0].
  pose proof fixed_exchange_bounds as [[He _] He0]. pose proof one_lt_B.
  set (k := kept_commission) in *. set (nr := fixed_reward) in *. set (nx := fixed_exchange) in *.
  set (xs := x * B / S8) in *. set (rs := r * B / S8) in *.
  pose proof (div_le_mul (nx * S8) B ltac:(lia)) as [Hd _]. set (e := nx * S8 / B) in *.
  assert (H1 : e * B <= x * (B + nr)).
  { assert (nx * S8 * B <= xs * S8 * (B + nr)) by (unfold S8 in *; nia).
    assert (xs * S8 * (B + nr) <= x * B * (B + nr)) by (unfold S8 in *; nia).
    assert (e * B * B <= x * (B + nr) * B) by nia. nia. }
  assert (H2 : nr * S8 <= r * k).
  { assert (nr * B * S8 <= rs * S8 * k) by (unfold S8 in *; nia).
    assert (rs * S8 * k <= r * B * k) by (unfold S8 in *; nia). nia. }
  assert (H3 : nr * S8 * 10000 <= r * (10000 - c) * B + r * 10000) by nia.
  assert (H4 : x * (nr * S8 * 10000) <= x * (r * (10000 - c) * B + r * 10000)) by nia.
  assert (H5 : x * r <= B) by (change B with (2 ^ 64 * 2 ^ 64); nia).
  assert (H6 : e * B * (S8 * 10000) <= x * (B + nr) * (S8 * 10000)) by (unfold S8; nia).
  assert (H7 : e * (S8 * 10000) * B <= (x * (S8 * 10000 + r * (10000 - c)) + S8 * 10000) * B) by (unfold S8 in *; nia).
  nia.
Qed.

Lemma exchange_lower :
  x * (S8 * 10000 + r * (10000 - c)) < (fixed_exchange * S8 / B + 2) * (S8 * 10000).
Proof.
  pose proof (small_scaled r Hr) as [[_ Hr1] Hr0]. pose proof (small_scaled x Hx) as [[_ Hx1] Hx0].
  pose proof kept_commission_bounds as [[Hk _] Hk0]. pose proof fixed_reward_bounds as [[_ Hf] Hf0].
  pose proof fixed_exchange_bounds as [[_ He] He0]. pose proof one_lt_B.
  set (k := kept_commission) in *. set (nr := fixed_reward) in *. set (nx := fixed_exchange) in *.
  set (xs := x * B / S8) in *. set (rs := r * B / S8) in *.
  pose proof (div_le_mul (nx * S8) B ltac:(lia)) as [_ Hd]. set (e := nx * S8 / B) in *.
  assert (Hsmall : 2 * x + 2 * S8 + S8 * 2 ^ 64 <= B) by (change B with (2 ^ 128); unfold S8; lia).
  assert (G1 : r * (10000 - c) * B - 2 * (S8 * 10000) < nr * (S8 * 10000)).
  { destruct (Z.eq_dec r 0) as [Hr'|Hr']; [rewrite Hr'; unfold S8; nia|].
    assert (HrB : S8 <= r * B) by (unfold S8 in *; nia).
    assert (A1 : (r * B - S8) * ((10000 - c) * B) <= rs * S8 * (k * 10000)).
    { apply Z.mul_le_mono_nonneg; [lia|unfold S8 in *; lia|nia|done]. }
    assert (A2 : rs * k * (S8 * 10000) < (nr + 1) * B * (S8 * 10000)) by (apply Z.mul_lt_mono_pos_r; [done|lia]).
    assert (A3 : (r * B - S8) * (10000 - c) * B < (nr + 1) * (S8 * 10000) * B) by (clear - A1 A2; lia).
    apply Z.mul_lt_mono_pos_r in A3; [|lia].
    assert (S8 * (10000 - c) <= S8 * 10000) by (unfold S8; lia). clear - A3 Hc Hr. unfold S8 in *. lia. }
  assert (G2 : x * B * B + x * B * nr - 2 * (S8 * B) - S8 * nr < (e + 1) * B * B).
  { assert (A1 : (x * B - S8) * (B + nr) <= xs * S8 * (B + nr)) by (apply Z.mul_le_mono_nonneg_r; unfold S8 in *; lia).
    assert (A2 : xs * (B + nr) * S8 < (nx + 1) * B * S8) by (apply Z.mul_lt_mono_pos_r; [done|lia]).
    assert (A3 : nx * S8 * B < (e + 1) * B * B) by (apply Z.mul_lt_mono_pos_r; [lia|done]).
    clear - A1 A2 A3. unfold S8 in *. lia. }
  assert (G3 : x * B * (r * (10000 - c) * B - 2 * (S8 * 10000)) <= x * B * (nr * (S8 * 10000))) by (apply Z.mul_le_mono_nonneg_l; [nia|lia]).
  assert (G4 : (x * B * B + x * B * nr - 2 * (S8 * B) - S8 * nr) * (S8 * 10000) < (e + 1) * B * B * (S8 * 10000)) by (apply Z.mul_lt_mono_pos_r; done).
  assert (G5 : S8 * nr <= S8 * 2 ^ 64 * B) by (clear - Hf0; unfold S8 in *; lia).
  assert (G6 : (2 * x + 2 * S8 + S8 * 2 ^ 64) * B <= B * B) by (apply Z.mul_le_mono_nonneg_r; lia).
  assert (G7 : x * (S8 * 10000 + r * (10000 - c)) * (B * B) < (e + 2) * (S8 * 10000) * (B * B)).
  { clear - G2 G3 G4 G5 G6. unfold S8 in *. lia. }
  apply Z.mul_lt_mono_pos_r in G7; [done|nia].
Qed.

(** Nothing overflows on the way. *)
Lemma reward_small : fixed_reward * S8 <= r * B.
Proof.
  pose proof (small_scaled r Hr) as [Hs Hs0]. pose proof kept_commission_bounds as [_ Hk].
  pose proof fixed_reward_bounds as [Hf Hf0]. pose proof one_lt_B.
  set (rs := r * B / S8) in *. assert (rs * kept_commission <= rs * B) by nia.
  assert (fixed_reward <= rs) by nia. unfold S8 in *. nia.
Qed.

Lemma exchange_small : fixed_exchange * S8 <= x * (B + fixed_reward).
Proof.
  pose proof (small_scaled x Hx) as [[Hs _] _]. pose proof fixed_exchange_bounds as [[He _] He0].
  pose proof fixed_reward_bounds as [_ Hf0]. pose proof one_lt_B. set (xs := x * B / S8) in *. set (nr := fixed_reward) in *.
  set (nx := fixed_exchange) in *.
  assert (A1 : nx * B * S8 <= xs * (B + nr) * S8) by (apply Z.mul_le_mono_nonneg_r; [done|lia]).
  assert (A2 : xs * S8 * (B + nr) <= x * B * (B + nr)) by (apply Z.mul_le_mono_nonneg_r; lia).
  apply (Z.mul_le_mono_pos_r _ _ B); [lia|]. clear - A1 A2. unfold S8 in *. lia.
Qed.

Lemma reward_fits : fixed_reward * S8 < U256 /\ U128x128.wf (B + fixed_reward) /\ U128x128.wf fixed_reward.
Proof.
  pose proof reward_small as Hs. pose proof fixed_reward_bounds as [_ Hf0]. unfold U128x128.wf.
  rewrite U256_B. change B with (2 ^ 128) in *. unfold S8 in *. lia.
Qed.

Lemma exchange_fits : fixed_exchange * S8 < U256.
Proof.
  pose proof reward_small as Hs. pose proof exchange_small as He. pose proof fixed_reward_bounds as [_ Hf0].
  pose proof fixed_exchange_bounds as [_ He0].
  assert (A1 : x * (B + fixed_reward) * S8 <= 2 ^ 64 * (B * S8 + 2 ^ 64 * B)).
  { assert (x * (B + fixed_reward) <= 2 ^ 64 * (B + fixed_reward)) by nia. unfold S8 in *. nia. }
  rewrite U256_B. change B with (2 ^ 128) in *. unfold S8 in *. lia.
Qed.

Lemma next_rates_run {E} rate base :
  validator_exchange_rate rate = x -> base_reward_rate base = r ->
  @Rate.next_rates E rate base c = Ok (fixed_reward * S8 / B, fixed_exchange * S8 / B).
Proof.
  intros Hrx Hbr. unfold Rate.next_rates. rewrite (proj2 (Z.ltb_ge _ _)) by lia.
  pose proof kept_commission_bounds as [_ Hk]. pose proof reward_fits as (Hf1 & Hf2 & Hf3). pose proof exchange_fits as He.
  pose proof fixed_exchange_bounds as [_ He0]. pose proof one_lt_B.
  rewrite (div_uint_run c 10000); [|unfold in_width; lia|by_computation]. cbn [outcome_bind].
  rewrite Hbr, Hrx, !descale_run by (unfold in_width; lia). cbn [outcome_bind].
  unfold U128x128.checked_sub, Prelude.checked_sub. change (from_uint 1) with B.
  rewrite (proj2 (Z.leb_le _ _)) by (unfold kept_commission in Hk; lia). cbn [ok_or expect_ok outcome_bind]. fold kept_commission.
  rewrite mul_run; [|apply scaled_wf; unfold in_width; lia|unfold U128x128.wf; rewrite U256_B; nia|apply Hf3].
  cbn [outcome_bind]. fold fixed_reward. unfold U128x128.checked_add, Prelude.checked_add. fold U256.
  rewrite (proj2 (Z.ltb_lt _ _)) by apply Hf2. cbn [ok_or expect_ok outcome_bind].
  assert (Hew : U128x128.wf fixed_exchange) by (unfold U128x128.wf, S8 in *; lia).
  rewrite mul_run; [|apply scaled_wf; unfold in_width; lia|done|apply Hew]. cbn [outcome_bind]. fold fixed_exchange.
  rewrite mul_factor_run by done. cbn [outcome_bind]. rewrite to_amount_run. cbn [outcome_bind].
  rewrite mul_factor_run by done. cbn [outcome_bind]. by rewrite to_amount_run.
Qed.
End Growth.

Lemma base_next_run {E} base r :
  0 <= base_exchange_rate base < 2 ^ 64 -> 0 <= r < 2 ^ 64 -> epoch_index base + 1 < 2 ^ 64 ->
  @BaseRate.next_epoch E base r
    = Ok (mkBaseRate (epoch_index base + 1) r (fixed_exchange (base_exchange_rate base) r 0 * S8 / B)).
Proof.
  intros Hx Hr Hi. assert (Hfr : fixed_reward r 0 = r * B / S8).
  { unfold fixed_reward. change (kept_commission 0) with B. apply Z.div_mul. pose proof one_lt_B. lia. }
  pose proof (reward_fits r 0 Hr ltac:(lia)) as (Hf1 & Hf2 & Hf3).
  pose proof (exchange_fits (base_exchange_rate base) r 0 Hx Hr ltac:(lia)) as He.
  pose proof (fixed_exchange_bounds (base_exchange_rate base) r 0 Hx Hr ltac:(lia)) as [_ He0]. pose proof one_lt_B.
  unfold BaseRate.next_epoch. rewrite !descale_run by (unfold in_width; lia). cbn [outcome_bind].
  unfold U128x128.checked_add, Prelude.checked_add. fold U256. change (from_uint 1) with B. rewrite <- Hfr.
  rewrite (proj2 (Z.ltb_lt _ _)) by apply Hf2. cbn [ok_or expect_ok outcome_bind].
  assert (Hew : U128x128.wf (fixed_exchange (base_exchange_rate base) r 0)) by (unfold U128x128.wf, S8 in *; lia).
  rewrite mul_run; [|apply scaled_wf; unfold in_width; lia|done|apply Hew]. cbn [outcome_bind].
  fold (fixed_exchange (base_exchange_rate base) r 0).
  rewrite mul_factor_run by done. cbn [outcome_bind]. rewrite to_amount_run. cbn [outcome_bind].
  by rewrite plain_add_run by lia.
Qed.

(** (C28) At the end of an epoch the exchange rate of an active validator grows by the base reward that
    its commission leaves, exactly up to two units of the last place, and its reward rate is at most
    the base rate; the rates of the other validators stay; the base rate grows in the same way.
    Nothing panics: the commission is at most 100% and the rates are below 2^64, where 10^8 stands
    for one. *)
Theorem rates_grow_by_the_kept_reward rate base r streams state :
  0 <= validator_exchange_rate rate < 2 ^ 64 -> 0 <= r < 2 ^ 64 ->
  0 <= base_exchange_rate base < 2 ^ 64 -> epoch_index base + 1 < 2 ^ 64 ->
  Forall (fun fs => 0 <= rate_bps fs) streams -> list_sum (rate_bps <$> streams) <= 10000 ->
  exists base' rate',
    @BaseRate.next_epoch string base r = Ok base' /\ base_reward_rate base' = r
    /\ base_exchange_rate base' * S8 <= base_exchange_rate base * (S8 + r) + S8
    /\ base_exchange_rate base * (S8 + r) < (base_exchange_rate base' + 2) * S8
    /\ @Rate.next_epoch string rate base' streams state = Ok rate' /\ rate_identity rate' = rate_identity rate
    /\ (state <> ValidatorState.Active -> rate' = rate)
    /\ (state = ValidatorState.Active ->
          let kept := 10000 - list_sum (rate_bps <$> streams) in
          validator_reward_rate rate' <= r
          /\ validator_exchange_rate rate' * (S8 * 10000) <= validator_exchange_rate rate * (S8 * 10000 + r * kept) + S8 * 10000
          /\ validator_exchange_rate rate * (S8 * 10000 + r * kept) < (validator_exchange_rate rate' + 2) * (S8 * 10000)).
Proof.
  intros Hx Hr Hb Hi Hbps Hsum. assert (Hc : 0 <= list_sum (rate_bps <$> streams) <= 10000).
  { split; [apply list_sum_nonneg, Forall_fmap; exact Hbps|done]. }
  eexists. unfold Rate.next_epoch. rewrite FundingStreams.commission_run by (done || lia).
  pose proof (exchange_upper _ r 0 Hb Hr ltac:(lia)) as Hu. pose proof (exchange_lower _ r 0 Hb Hr ltac:(lia)) as Hl.
  case_decide as Hs.
  - set (c := list_sum (rate_bps <$> streams)) in *.
    exists (mkRate (rate_identity rate) (fixed_reward r c * S8 / B) (fixed_exchange (validator_exchange_rate rate) r c * S8 / B)).
    split_and!; [by apply base_next_run|done|cbn; lia|cbn; lia| | |done|].
    + cbn [outcome_bind]. rewrite (next_rates_run (validator_exchange_rate rate) r) by done. reflexivity.
    + done.
    + intros _. cbn [validator_reward_rate validator_exchange_rate fst snd]. split_and!.
      * by apply kept_le_base.
      * by apply exchange_upper.
      * by apply exchange_lower.
  - exists rate. split_and!; [by apply base_next_run|done|cbn; lia|cbn; lia|done|done|done|done].
Qed.

(** *** Witnesses *)

Definition sample_rate : RateData := mkRate 7 0 123456789.

Lemma delegation_round_trips_never_gain_witness :
  exists d y, @Rate.delegation_amount string sample_rate 1000000 = Ok d
    /\ @Rate.unbonded_amount string sample_rate d = Ok y /\ y <= 1000000.
Proof.
  destruct (delegation_round_trips_never_gain sample_rate 1000000 (B / 2)) as (d & y & _ & _ & _ & _ & Hd & Hy & Hle & _);
    [by_computation..|].
  exists d, y. split_and!; [exact Hd|exact Hy|exact Hle].
Defined.

Lemma rates_grow_by_the_kept_reward_witness :
  exists rate', @Rate.next_epoch string sample_rate (mkBaseRate 1 30000 100029999)
      [mkStream ToCommunityPool 500] ValidatorState.Active = Ok rate'
    /\ validator_reward_rate rate' <= 30000.
Proof.
  destruct (rates_grow_by_the_kept_reward sample_rate (mkBaseRate 0 0 100000000) 30000 [mkStream ToCommunityPool 500]
    ValidatorState.Active) as (base' & rate' & Hb & _ & _ & _ & Hr & _ & _ & Ha); [by_computation..|repeat constructor; cbn; lia|by_computation|].
  assert (He : @BaseRate.next_epoch string (mkBaseRate 0 0 100000000) 30000 = Ok (mkBaseRate 1 30000 100029999)) by (vm_compute; reflexivity).
  rewrite He in Hb. injection Hb as <-. exists rate'. split; [exact Hr|]. exact (proj1 (Ha eq_refl)).
Defined.
