(* ===== verification/Clock.v ===== *)
(** * The block clock

    Models crates/core/component/sct: epoch.rs, component/clock.rs and the part of component/sct.rs
    that keeps the height and the epoch of every block.  The timestamps are left out. *)

From S2P Require Import Prelude.
From S2P Require Import DexState.

#[global] Instance epoch_eq_dec : EqDecision Epoch.
Proof. solve_decision. Defined.

(** The flag that ends an epoch early is in the object store, which a commit clears. *)
Record Clock := mkClock {
  clock_height : option Z;
  epoch_by_height : gmap Z Epoch;
  end_epoch_early : bool;
  epoch_duration : option Z;
}.

Definition set_clock_height (v : option Z) (c : Clock) : Clock :=
  mkClock v (epoch_by_height c) (end_epoch_early c) (epoch_duration c).
Definition set_epoch_by_height (v : gmap Z Epoch) (c : Clock) : Clock :=
  mkClock (clock_height c) v (end_epoch_early c) (epoch_duration c).
Definition set_end_epoch_early (v : bool) (c : Clock) : Clock :=
  mkClock (clock_height c) (epoch_by_height c) v (epoch_duration c).
Definition set_epoch_duration (v : option Z) (c : Clock) : Clock :=
  mkClock (clock_height c) (epoch_by_height c) (end_epoch_early c) v.

(** [Epoch::is_scheduled_epoch_end] *)
Definition is_scheduled_epoch_end {E} (self : Epoch) (current_height epoch_duration : Z) : outcome E bool :=
  let! elapsed := plain_sub current_height (start_height self) in
  let! last := plain_sub epoch_duration 1 in
  Ok (last <=? elapsed).

(** ** Reads *)

Module EpochRead.
Definition get_block_height (c : Clock) : anyhow Z := ok_or (clock_height c) "Missing block_height".

Definition get_epoch_by_height (height : Z) (c : Clock) : anyhow Epoch :=
  ok_or (epoch_by_height c !! height) "missing epoch for height".

Definition get_current_epoch (c : Clock) : anyhow Epoch :=
  let! height := get_block_height c in
  ok_or (epoch_by_height c !! height) "missing epoch for current height".

Definition is_epoch_ending_early (c : Clock) : bool := end_epoch_early c.

Definition get_epoch_duration_parameter (c : Clock) : anyhow Z :=
  ok_or (epoch_duration c) "Missing SctParameters".
End EpochRead.

(** ** Writes *)

Module EpochManager.
Definition set_end_epoch_flag (c : Clock) : Clock := set_end_epoch_early true c.
Definition put_block_height (height : Z) (c : Clock) : Clock := set_clock_height (Some height) c.
Definition put_epoch_by_height (height : Z) (e : Epoch) (c : Clock) : Clock :=
  set_epoch_by_height (<[height := e]> (epoch_by_height c)) c.
End EpochManager.

Module Sct.
Import EpochManager.

(** The first block takes its epoch from here, since [end_block] writes that of the next one. *)
Definition init_chain (epoch_duration : Z) (c : Clock) : Clock :=
  put_epoch_by_height 1 (mkEpoch 0 0)
    (put_epoch_by_height 0 (mkEpoch 0 0) (put_block_height 0 (set_epoch_duration (Some epoch_duration) c))).

Definition begin_block (height : Z) (c : Clock) : Clock := put_block_height height c.
End Sct.
