(* ===== verification/Stake.v ===== *)
(** * The state of the staking component

    Models crates/core/component/stake: params.rs, changes.rs, event.rs, the reads and writes of
    component/stake.rs and component/validator_handler/validator_store.rs, and the penalties.  The
    keys of state_key.rs become the fields of the state, one map per family of keys. *)

From S2P Require Import Prelude.
From S2P Require Import Num.
From S2P Require Import Asset.
From S2P Require Import DexState.
From S2P Require Import Clock.
From S2P Require Import Validator.
From S2P Require Import Rate.

(** Code outside this model: the address of a consensus key (the first 20 bytes of its SHA-256), the
    bech32m text of an identity key, as a big-endian integer since all texts have one length, and the
    verification of a signature over the encoding of a definition. *)
Class StakeEnv := {
  #[global] stake_tokens :: StakeTokens;
  validator_address : consensus_key -> Z;
  identity_text : identity_key -> Z;
  definition_signed : Validator -> Z -> bool;
}.

(** ** Data *)

Record StakeParameters := mkStakeParams {
  unbonding_delay : Z;
  active_validator_limit : Z;
  slashing_penalty_misbehavior : Z;
  slashing_penalty_downtime : Z;
  signed_blocks_window_len : Z;
  missed_blocks_maximum : Z;
  min_validator_stake : Z;
}.

Record DelegationChanges := mkChanges { delegations : list Delegate; undelegations : list Undelegate }.

(** What CometBFT reports of a misbehaving validator. *)
Record Misbehavior := mkMisbehavior {
  misbehaving_address : Z;
  misbehaving_power : Z;
  misbehavior_height : Z;
}.

Inductive StakeEvent :=
| EventValidatorStateChange (id : identity_key) (state : ValidatorState.t)
| EventValidatorVotingPowerChange (id : identity_key) (voting_power : Z)
| EventValidatorBondingStateChange (id : identity_key) (state : BondingState.t)
| EventRateDataChange (id : identity_key) (rate : RateData)
| EventValidatorDefinitionUpload (validator : Validator)
| EventValidatorMissedBlock (id : identity_key)
| EventDelegate (id : identity_key) (amount : Z)
| EventUndelegate (id : identity_key) (amount : Z)
| EventTombstoneValidator (current_height : Z) (id : identity_key) (evidence : Misbehavior)
| EventSlashingPenaltyApplied (id : identity_key) (epoch_index new_penalty : Z).

(** The tally, the previous base rate, the funding queue, the issuance budget and the validator
    updates are in the object store, which a commit clears.  The denominations are those of the
    shielded pool's registry, the budget is that of the distributions component. *)
Record StakeState := mkStake {
  clock : Clock;
  stake_params : option StakeParameters;
  definitions : gmap identity_key Validator;
  states : gmap identity_key ValidatorState.t;
  bonding_states : gmap identity_key BondingState.t;
  pool_sizes : gmap identity_key Z;
  powers : gmap identity_key Z;
  current_rates : gmap identity_key RateData;
  previous_rates : gmap identity_key RateData;
  uptimes : gmap identity_key Uptime.t;
  last_disabled : gmap identity_key Z;
  consensus_set_index : gset identity_key;
  identity_by_consensus_key : gmap consensus_key identity_key;
  consensus_key_by_address : gmap Z consensus_key;
  penalties : gmap (identity_key * Z) Z;
  delegation_tally : DelegationChanges;
  delegation_changes : gmap Z DelegationChanges;
  base_rate : option BaseRateData;
  previous_base_rate : option BaseRateData;
  funding_queue : option (list (identity_key * list FundingStream * Z));
  issuance_budget : option Z;
  consensus_keys : option (list consensus_key);
  validator_updates : option (list (consensus_key * Z));
  denoms : gset asset_id;
  stake_events : list StakeEvent;
}.

(** Field updates. *)
Definition set_clock (v : Clock) (s : StakeState) : StakeState :=
  mkStake v (stake_params s) (definitions s) (states s) (bonding_states s) (pool_sizes s)
    (powers s) (current_rates s) (previous_rates s) (uptimes s) (last_disabled s)
    (consensus_set_index s) (identity_by_consensus_key s) (consensus_key_by_address s)
    (penalties s) (delegation_tally s) (delegation_changes s) (base_rate s)
    (previous_base_rate s) (funding_queue s) (issuance_budget s) (consensus_keys s)
    (validator_updates s) (denoms s) (stake_events s).
Definition set_stake_params (v : option StakeParameters) (s : StakeState) : StakeState :=
  mkStake (clock s) v (definitions s) (states s) (bonding_states s) (pool_sizes s) (powers s)
    (current_rates s) (previous_rates s) (uptimes s) (last_disabled s) (consensus_set_index s)
    (identity_by_consensus_key s) (consensus_key_by_address s) (penalties s)
    (delegation_tally s) (delegation_changes s) (base_rate s) (previous_base_rate s)
    (funding_queue s) (issuance_budget s) (consensus_keys s) (validator_updates s) (denoms s)
    (stake_events s).
Definition set_definitions (v : gmap identity_key Validator) (s : StakeState) : StakeState :=
  mkStake (clock s) (stake_params s) v (states s) (bonding_states s) (pool_sizes s) (powers s)
    (current_rates s) (previous_rates s) (uptimes s) (last_disabled s) (consensus_set_index s)
    (identity_by_consensus_key s) (consensus_key_by_address s) (penalties s)
    (delegation_tally s) (delegation_changes s) (base_rate s) (previous_base_rate s)
    (funding_queue s) (issuance_budget s) (consensus_keys s) (validator_updates s) (denoms s)
    (stake_events s).
Definition set_states (v : gmap identity_key ValidatorState.t) (s : StakeState) : StakeState :=
  mkStake (clock s) (stake_params s) (definitions s) v (bonding_states s) (pool_sizes s)
    (powers s) (current_rates s) (previous_rates s) (uptimes s) (last_disabled s)
    (consensus_set_index s) (identity_by_consensus_key s) (consensus_key_by_address s)
    (penalties s) (delegation_tally s) (delegation_changes s) (base_rate s)
    (previous_base_rate s) (funding_queue s) (issuance_budget s) (consensus_keys s)
    (validator_updates s) (denoms s) (stake_events s).
Definition set_bonding_states (v : gmap identity_key BondingState.t)
  (s : StakeState) : StakeState :=
  mkStake (clock s) (stake_params s) (definitions s) (states s) v (pool_sizes s) (powers s)
    (current_rates s) (previous_rates s) (uptimes s) (last_disabled s) (consensus_set_index s)
    (identity_by_consensus_key s) (consensus_key_by_address s) (penalties s)
    (delegation_tally s) (delegation_changes s) (base_rate s) (previous_base_rate s)
    (funding_queue s) (issuance_budget s) (consensus_keys s) (validator_updates s) (denoms s)
    (stake_events s).
Definition set_pool_sizes (v : gmap identity_key Z) (s : StakeState) : StakeState :=
  mkStake (clock s) (stake_params s) (definitions s) (states s) (bonding_states s) v (powers s)
    (current_rates s) (previous_rates s) (uptimes s) (last_disabled s) (consensus_set_index s)
    (identity_by_consensus_key s) (consensus_key_by_address s) (penalties s)
    (delegation_tally s) (delegation_changes s) (base_rate s) (previous_base_rate s)
    (funding_queue s) (issuance_budget s) (consensus_keys s) (validator_updates s) (denoms s)
    (stake_events s).
Definition set_powers (v : gmap identity_key Z) (s : StakeState) : StakeState :=
  mkStake (clock s) (stake_params s) (definitions s) (states s) (bonding_states s)
    (pool_sizes s) v (current_rates s) (previous_rates s) (uptimes s) (last_disabled s)
    (consensus_set_index s) (identity_by_consensus_key s) (consensus_key_by_address s)
    (penalties s) (delegation_tally s) (delegation_changes s) (base_rate s)
    (previous_base_rate s) (funding_queue s) (issuance_budget s) (consensus_keys s)
    (validator_updates s) (denoms s) (stake_events s).
Definition set_current_rates (v : gmap identity_key RateData) (s : StakeState) : StakeState :=
  mkStake (clock s) (stake_params s) (definitions s) (states s) (bonding_states s)
    (pool_sizes s) (powers s) v (previous_rates s) (uptimes s) (last_disabled s)
    (consensus_set_index s) (identity_by_consensus_key s) (consensus_key_by_address s)
    (penalties s) (delegation_tally s) (delegation_changes s) (base_rate s)
    (previous_base_rate s) (funding_queue s) (issuance_budget s) (consensus_keys s)
    (validator_updates s) (denoms s) (stake_events s).
Definition set_previous_rates (v : gmap identity_key RateData) (s : StakeState) : StakeState :=
  mkStake (clock s) (stake_params s) (definitions s) (states s) (bonding_states s)
    (pool_sizes s) (powers s) (current_rates s) v (uptimes s) (last_disabled s)
    (consensus_set_index s) (identity_by_consensus_key s) (consensus_key_by_address s)
    (penalties s) (delegation_tally s) (delegation_changes s) (base_rate s)
    (previous_base_rate s) (funding_queue s) (issuance_budget s) (consensus_keys s)
    (validator_updates s) (denoms s) (stake_events s).
Definition set_uptimes (v : gmap identity_key Uptime.t) (s : StakeState) : StakeState :=
  mkStake (clock s) (stake_params s) (definitions s) (states s) (bonding_states s)
    (pool_sizes s) (powers s) (current_rates s) (previous_rates s) v (last_disabled s)
    (consensus_set_index s) (identity_by_consensus_key s) (consensus_key_by_address s)
    (penalties s) (delegation_tally s) (delegation_changes s) (base_rate s)
    (previous_base_rate s) (funding_queue s) (issuance_budget s) (consensus_keys s)
    (validator_updates s) (denoms s) (stake_events s).
Definition set_last_disabled (v : gmap identity_key Z) (s : StakeState) : StakeState :=
  mkStake (clock s) (stake_params s) (definitions s) (states s) (bonding_states s)
    (pool_sizes s) (powers s) (current_rates s) (previous_rates s) (uptimes s) v
    (consensus_set_index s) (identity_by_consensus_key s) (consensus_key_by_address s)
    (penalties s) (delegation_tally s) (delegation_changes s) (base_rate s)
    (previous_base_rate s) (funding_queue s) (issuance_budget s) (consensus_keys s)
    (validator_updates s) (denoms s) (stake_events s).
Definition set_consensus_set_index (v : gset identity_key) (s : StakeState) : StakeState :=
  mkStake (clock s) (stake_params s) (definitions s) (states s) (bonding_states s)
    (pool_sizes s) (powers s) (current_rates s) (previous_rates s) (uptimes s) (last_disabled s)
    v (identity_by_consensus_key s) (consensus_key_by_address s) (penalties s)
    (delegation_tally s) (delegation_changes s) (base_rate s) (previous_base_rate s)
    (funding_queue s) (issuance_budget s) (consensus_keys s) (validator_updates s) (denoms s)
    (stake_events s).
Definition set_identity_by_consensus_key (v : gmap consensus_key identity_key)
  (s : StakeState) : StakeState :=
  mkStake (clock s) (stake_params s) (definitions s) (states s) (bonding_states s)
    (pool_sizes s) (powers s) (current_rates s) (previous_rates s) (uptimes s) (last_disabled s)
    (consensus_set_index s) v (consensus_key_by_address s) (penalties s) (delegation_tally s)
    (delegation_changes s) (base_rate s) (previous_base_rate s) (funding_queue s)
    (issuance_budget s) (consensus_keys s) (validator_updates s) (denoms s) (stake_events s).
Definition set_consensus_key_by_address (v : gmap Z consensus_key)
  (s : StakeState) : StakeState :=
  mkStake (clock s) (stake_params s) (definitions s) (states s) (bonding_states s)
    (pool_sizes s) (powers s) (current_rates s) (previous_rates s) (uptimes s) (last_disabled s)
    (consensus_set_index s) (identity_by_consensus_key s) v (penalties s) (delegation_tally s)
    (delegation_changes s) (base_rate s) (previous_base_rate s) (funding_queue s)
    (issuance_budget s) (consensus_keys s) (validator_updates s) (denoms s) (stake_events s).
Definition set_penalties (v : gmap (identity_key * Z) Z) (s : StakeState) : StakeState :=
  mkStake (clock s) (stake_params s) (definitions s) (states s) (bonding_states s)
    (pool_sizes s) (powers s) (current_rates s) (previous_rates s) (uptimes s) (last_disabled s)
    (consensus_set_index s) (identity_by_consensus_key s) (consensus_key_by_address s) v
    (delegation_tally s) (delegation_changes s) (base_rate s) (previous_base_rate s)
    (funding_queue s) (issuance_budget s) (consensus_keys s) (validator_updates s) (denoms s)
    (stake_events s).
Definition set_delegation_tally (v : DelegationChanges) (s : StakeState) : StakeState :=
  mkStake (clock s) (stake_params s) (definitions s) (states s) (bonding_states s)
    (pool_sizes s) (powers s) (current_rates s) (previous_rates s) (uptimes s) (last_disabled s)
    (consensus_set_index s) (identity_by_consensus_key s) (consensus_key_by_address s)
    (penalties s) v (delegation_changes s) (base_rate s) (previous_base_rate s)
    (funding_queue s) (issuance_budget s) (consensus_keys s) (validator_updates s) (denoms s)
    (stake_events s).
Definition set_delegation_changes (v : gmap Z DelegationChanges) (s : StakeState) : StakeState :=
  mkStake (clock s) (stake_params s) (definitions s) (states s) (bonding_states s)
    (pool_sizes s) (powers s) (current_rates s) (previous_rates s) (uptimes s) (last_disabled s)
    (consensus_set_index s) (identity_by_consensus_key s) (consensus_key_by_address s)
    (penalties s) (delegation_tally s) v (base_rate s) (previous_base_rate s) (funding_queue s)
    (issuance_budget s) (consensus_keys s) (validator_updates s) (denoms s) (stake_events s).
Definition set_base_rate (v : option BaseRateData) (s : StakeState) : StakeState :=
  mkStake (clock s) (stake_params s) (definitions s) (states s) (bonding_states s)
    (pool_sizes s) (powers s) (current_rates s) (previous_rates s) (uptimes s) (last_disabled s)
    (consensus_set_index s) (identity_by_consensus_key s) (consensus_key_by_address s)
    (penalties s) (delegation_tally s) (delegation_changes s) v (previous_base_rate s)
    (funding_queue s) (issuance_budget s) (consensus_keys s) (validator_updates s) (denoms s)
    (stake_events s).
Definition set_previous_base_rate (v : option BaseRateData) (s : StakeState) : StakeState :=
  mkStake (clock s) (stake_params s) (definitions s) (states s) (bonding_states s)
    (pool_sizes s) (powers s) (current_rates s) (previous_rates s) (uptimes s) (last_disabled s)
    (consensus_set_index s) (identity_by_consensus_key s) (consensus_key_by_address s)
    (penalties s) (delegation_tally s) (delegation_changes s) (base_rate s) v (funding_queue s)
    (issuance_budget s) (consensus_keys s) (validator_updates s) (denoms s) (stake_events s).
Definition set_funding_queue (v : option (list (identity_key * list FundingStream * Z)))
  (s : StakeState) : StakeState :=
  mkStake (clock s) (stake_params s) (definitions s) (states s) (bonding_states s)
    (pool_sizes s) (powers s) (current_rates s) (previous_rates s) (uptimes s) (last_disabled s)
    (consensus_set_index s) (identity_by_consensus_key s) (consensus_key_by_address s)
    (penalties s) (delegation_tally s) (delegation_changes s) (base_rate s)
    (previous_base_rate s) v (issuance_budget s) (consensus_keys s) (validator_updates s)
    (denoms s) (stake_events s).
Definition set_issuance_budget (v : option Z) (s : StakeState) : StakeState :=
  mkStake (clock s) (stake_params s) (definitions s) (states s) (bonding_states s)
    (pool_sizes s) (powers s) (current_rates s) (previous_rates s) (uptimes s) (last_disabled s)
    (consensus_set_index s) (identity_by_consensus_key s) (consensus_key_by_address s)
    (penalties s) (delegation_tally s) (delegation_changes s) (base_rate s)
    (previous_base_rate s) (funding_queue s) v (consensus_keys s) (validator_updates s)
    (denoms s) (stake_events s).
Definition set_consensus_keys (v : option (list consensus_key)) (s : StakeState) : StakeState :=
  mkStake (clock s) (stake_params s) (definitions s) (states s) (bonding_states s)
    (pool_sizes s) (powers s) (current_rates s) (previous_rates s) (uptimes s) (last_disabled s)
    (consensus_set_index s) (identity_by_consensus_key s) (consensus_key_by_address s)
    (penalties s) (delegation_tally s) (delegation_changes s) (base_rate s)
    (previous_base_rate s) (funding_queue s) (issuance_budget s) v (validator_updates s)
    (denoms s) (stake_events s).
Definition set_validator_updates (v : option (list (consensus_key * Z)))
  (s : StakeState) : StakeState :=
  mkStake (clock s) (stake_params s) (definitions s) (states s) (bonding_states s)
    (pool_sizes s) (powers s) (current_rates s) (previous_rates s) (uptimes s) (last_disabled s)
    (consensus_set_index s) (identity_by_consensus_key s) (consensus_key_by_address s)
    (penalties s) (delegation_tally s) (delegation_changes s) (base_rate s)
    (previous_base_rate s) (funding_queue s) (issuance_budget s) (consensus_keys s) v (denoms s)
    (stake_events s).
Definition set_denoms (v : gset asset_id) (s : StakeState) : StakeState :=
  mkStake (clock s) (stake_params s) (definitions s) (states s) (bonding_states s)
    (pool_sizes s) (powers s) (current_rates s) (previous_rates s) (uptimes s) (last_disabled s)
    (consensus_set_index s) (identity_by_consensus_key s) (consensus_key_by_address s)
    (penalties s) (delegation_tally s) (delegation_changes s) (base_rate s)
    (previous_base_rate s) (funding_queue s) (issuance_budget s) (consensus_keys s)
    (validator_updates s) v (stake_events s).
Definition set_stake_events (v : list StakeEvent) (s : StakeState) : StakeState :=
  mkStake (clock s) (stake_params s) (definitions s) (states s) (bonding_states s)
    (pool_sizes s) (powers s) (current_rates s) (previous_rates s) (uptimes s) (last_disabled s)
    (consensus_set_index s) (identity_by_consensus_key s) (consensus_key_by_address s)
    (penalties s) (delegation_tally s) (delegation_changes s) (base_rate s)
    (previous_base_rate s) (funding_queue s) (issuance_budget s) (consensus_keys s)
    (validator_updates s) (denoms s) v.

Definition record_stake_event (e : StakeEvent) (s : StakeState) : StakeState :=
  set_stake_events (stake_events s ++ [e]) s.

Abbreviation stake := (comp StakeState string).

(** A read that can fail. *)
Definition asks {A} (f : StakeState -> anyhow A) : stake A := fun s => (f s, s).
Definition on_clock (f : Clock -> Clock) : stake unit := modify (fun s => set_clock (f (clock s)) s).

(** ** Reads *)

Module StakeRead.
Definition get_block_height : stake Z := asks (fun s => EpochRead.get_block_height (clock s)).
Definition get_epoch_by_height (height : Z) : stake Epoch :=
  asks (fun s => EpochRead.get_epoch_by_height height (clock s)).
Definition get_current_epoch : stake Epoch := asks (fun s => EpochRead.get_current_epoch (clock s)).

Definition get_stake_params : stake StakeParameters :=
  asks (fun s => ok_or (stake_params s) "Missing StakeParameters").
Definition get_signed_blocks_window_len : stake Z :=
  params <- get_stake_params;; ret (signed_blocks_window_len params).
Definition get_missed_blocks_maximum : stake Z :=
  params <- get_stake_params;; ret (missed_blocks_maximum params).

Definition get_current_base_rate : stake BaseRateData := asks (fun s => expect_some (base_rate s)).

Definition get_delegation_changes (height : Z) : stake DelegationChanges :=
  asks (fun s => ok_or (delegation_changes s !! height) "missing delegation changes for block").

Definition get_validator_state (id : identity_key) (s : StakeState) : option ValidatorState.t := states s !! id.
Definition get_validator_bonding_state (id : identity_key) (s : StakeState) : option BondingState.t :=
  bonding_states s !! id.
Definition get_validator_pool_size (id : identity_key) (s : StakeState) : option Z := pool_sizes s !! id.
Definition get_validator_power (id : identity_key) (s : StakeState) : option Z := powers s !! id.
Definition get_validator_rate (id : identity_key) (s : StakeState) : option RateData := current_rates s !! id.
Definition get_prev_validator_rate (id : identity_key) (s : StakeState) : option RateData := previous_rates s !! id.
Definition get_last_disabled_height (id : identity_key) (s : StakeState) : option Z := last_disabled s !! id.
Definition get_validator_definition (id : identity_key) (s : StakeState) : option Validator := definitions s !! id.
Definition get_validator_uptime (id : identity_key) (s : StakeState) : option Uptime.t := uptimes s !! id.
Definition fetch_validator_consensus_key (id : identity_key) (s : StakeState) : option consensus_key :=
  validator_consensus_key <$> get_validator_definition id s.

(** [validator::Status] and [validator::Info] *)
Definition get_validator_status (id : identity_key) (s : StakeState)
  : option (identity_key * ValidatorState.t * Z * BondingState.t) :=
  match get_validator_state id s, get_validator_power id s, get_validator_bonding_state id s with
  | Some state, Some voting_power, Some bonding_state => Some (id, state, voting_power, bonding_state)
  | _, _, _ => None
  end.
Definition get_validator_info (id : identity_key) (s : StakeState)
  : option (Validator * (identity_key * ValidatorState.t * Z * BondingState.t) * RateData) :=
  match get_validator_definition id s, get_validator_status id s, get_validator_rate id s with
  | Some validator, Some status, Some rate => Some (validator, status, rate)
  | _, _, _ => None
  end.

Definition lookup_identity_key_by_consensus_key (ck : consensus_key) (s : StakeState) : option identity_key :=
  identity_by_consensus_key s !! ck.
Definition lookup_consensus_key_by_comet_address (address : Z) (s : StakeState) : option consensus_key :=
  consensus_key_by_address s !! address.
Definition get_validator_definition_by_consensus_key (ck : consensus_key) (s : StakeState) : option Validator :=
  match lookup_identity_key_by_consensus_key ck s with
  | Some identity_key => get_validator_definition identity_key s
  | None => None
  end.
Definition get_validator_definition_by_cometbft_address (address : Z) (s : StakeState) : option Validator :=
  match lookup_consensus_key_by_comet_address address s with
  | Some consensus_key => get_validator_definition_by_consensus_key consensus_key s
  | None => None
  end.

(** The height from which an undelegation that started at [start] can be claimed; [None] when the
    pool is not bonded any more. *)
Definition unbonding_height (bonding : BondingState.t) (start min_block_delay : Z) : option Z :=
  let upper_bound_height := saturating_add 64 start min_block_delay in
  match bonding with
  | BondingState.Bonded => Some upper_bound_height
  | BondingState.Unbonding unbonds_at_height =>
      if start <? unbonds_at_height then Some (Z.min unbonds_at_height upper_bound_height) else None
  | BondingState.Unbonded => None
  end.

Definition compute_unbonding_height (id : identity_key) (start : Z) : stake (option Z) :=
  val_bonding_state <- gets (get_validator_bonding_state id);;
  match val_bonding_state with
  | None => fail "validator bonding state not tracked"
  | Some bonding =>
      params <- get_stake_params;;
      ret (unbonding_height bonding start (unbonding_delay params))
  end.
End StakeRead.

(** ** The consensus set

    The index holds the validators that are active or could become so. *)

Module ConsensusIndex.
Section ConsensusIndex.
Context `{StakeEnv}.

Definition text_le (a b : identity_key) : Prop := identity_text a <= identity_text b.
#[global] Instance text_le_dec : RelDecision text_le.
Proof. intros a b. unfold text_le. apply _. Defined.

(** [consensus_set_stream]: the keys come in the order of their text. *)
Definition get_consensus_set (s : StakeState) : list identity_key :=
  merge_sort text_le (elements (consensus_set_index s)).

Definition belongs_in_index (id : identity_key) (s : StakeState) : bool :=
  match StakeRead.get_validator_state id s with
  | Some (ValidatorState.Active | ValidatorState.Inactive) => true
  | _ => false
  end.

Definition add_consensus_set_index (id : identity_key) : stake unit :=
  modify (fun s => set_consensus_set_index ({[ id ]} ∪ consensus_set_index s) s).
Definition remove_consensus_set_index (id : identity_key) : stake unit :=
  modify (fun s => set_consensus_set_index (consensus_set_index s ∖ {[ id ]}) s).
End ConsensusIndex.
End ConsensusIndex.

(** ** Writes *)

(** The bound that CometBFT puts on powers, i64::MAX / 8. *)
Definition MAX_VOTING_POWER : Z := 1152921504606846975.

Module StakeWrite.
Section StakeWrite.
Context `{StakeEnv}.

Definition put_stake_params (params : StakeParameters) : stake unit := modify (set_stake_params (Some params)).

Definition push_delegation (d : Delegate) : stake unit :=
  modify (fun s => set_delegation_tally
    (mkChanges (delegations (delegation_tally s) ++ [d]) (undelegations (delegation_tally s))) s).
Definition push_undelegation (u : Undelegate) : stake unit :=
  modify (fun s => set_delegation_tally
    (mkChanges (delegations (delegation_tally s)) (undelegations (delegation_tally s) ++ [u])) s).
Definition write_delegation_changes (height : Z) (changes : DelegationChanges) : stake unit :=
  modify (fun s => set_delegation_changes (<[height := changes]> (delegation_changes s)) s).
Definition queue_staking_rewards (queue : list (identity_key * list FundingStream * Z)) : stake unit :=
  modify (set_funding_queue (Some queue)).
Definition put_cometbft_validator_updates (updates : list (consensus_key * Z)) : stake unit :=
  modify (set_validator_updates (Some updates)).
Definition register_denom (id : asset_id) : stake unit :=
  modify (fun s => set_denoms ({[ id ]} ∪ denoms s) s).

(** Entries of earlier keys are kept, so that evidence about them can still be attributed. *)
Definition register_consensus_key (id : identity_key) (ck : consensus_key) : stake unit :=
  modify (fun s => set_consensus_key_by_address
    (<[validator_address ck := ck]> (consensus_key_by_address s)) s);;;
  modify (fun s => set_identity_by_consensus_key (<[ck := id]> (identity_by_consensus_key s)) s).

Definition set_validator_uptime (id : identity_key) (u : Uptime.t) : stake unit :=
  modify (fun s => set_uptimes (<[id := u]> (uptimes s)) s).
Definition set_validator_bonding_state (id : identity_key) (b : BondingState.t) : stake unit :=
  modify (fun s => set_bonding_states (<[id := b]> (bonding_states s)) s);;;
  modify (record_stake_event (EventValidatorBondingStateChange id b)).
Definition set_validator_power (id : identity_key) (voting_power : Z) : stake unit :=
  if MAX_VOTING_POWER <? voting_power then fail "voting power exceeds maximum"
  else
    modify (fun s => set_powers (<[id := voting_power]> (powers s)) s);;;
    modify (record_stake_event (EventValidatorVotingPowerChange id voting_power)).
Definition put_validator_state (id : identity_key) (state : ValidatorState.t) : stake unit :=
  modify (fun s => set_states (<[id := state]> (states s)) s);;;
  modify (record_stake_event (EventValidatorStateChange id state)).
Definition set_initial_validator_state (id : identity_key) (state : ValidatorState.t) : stake unit :=
  match state with
  | ValidatorState.Active | ValidatorState.Defined => put_validator_state id state
  | _ => fail "invalid initial validator state"
  end.
Definition set_validator_rate_data (id : identity_key) (rate : RateData) : stake unit :=
  modify (fun s => set_current_rates (<[id := rate]> (current_rates s)) s);;;
  modify (record_stake_event (EventRateDataChange id rate)).
Definition set_prev_validator_rate (id : identity_key) (rate : RateData) : stake unit :=
  modify (fun s => set_previous_rates (<[id := rate]> (previous_rates s)) s).
Definition set_last_disabled_height (id : identity_key) (height : Z) : stake unit :=
  modify (fun s => set_last_disabled (<[id := height]> (last_disabled s)) s).
Definition put_validator_definition (id : identity_key) (v : Validator) : stake unit :=
  modify (fun s => set_definitions (<[id := v]> (definitions s)) s).

(** *** Pools, in delegation tokens *)

Definition pool_size_or_zero (id : identity_key) (s : StakeState) : Z := default 0 (StakeRead.get_validator_pool_size id s).
Definition set_validator_pool_size (id : identity_key) (amount : Z) : stake unit :=
  modify (fun s => set_pool_sizes (<[id := amount]> (pool_sizes s)) s).

Definition increase_validator_pool_size (id : identity_key) (add : Z) : stake (option Z) :=
  old_supply <- gets (pool_size_or_zero id);;
  match checked_add 128 old_supply add with
  | Some new_supply => set_validator_pool_size id new_supply;;; ret (Some new_supply)
  | None => ret None
  end.
Definition decrease_validator_pool_size (id : identity_key) (sub : Z) : stake (option Z) :=
  old_supply <- gets (pool_size_or_zero id);;
  match checked_sub old_supply sub with
  | Some new_supply => set_validator_pool_size id new_supply;;; ret (Some new_supply)
  | None => ret None
  end.

(** Returns the deposit measured in delegation tokens. *)
Definition deposit_to_validator_pool (id : identity_key) (unbonded_deposit : Z) : stake (option Value) :=
  old_supply <- gets (pool_size_or_zero id);;
  match checked_add 128 old_supply unbonded_deposit with
  | None => ret None
  | Some new_supply =>
      rate <- gets (StakeRead.get_validator_rate id);;
      match rate with
      | None => ret None
      | Some rate =>
          current_epoch <- expecting StakeRead.get_current_epoch;;
          d <- lift (Rate.build_delegate rate current_epoch unbonded_deposit);;
          set_validator_pool_size id new_supply;;;
          ret (Some (Actions.delegation_value d))
      end
  end.
End StakeWrite.
End StakeWrite.

(** ** Penalties *)

(** [{epoch_index:010}]: decimal digits, padded to ten. *)
Fixpoint decimal_digits (fuel : nat) (x : Z) : list Z :=
  match fuel with
  | O => []
  | S fuel => (if 10 <=? x then decimal_digits fuel (x / 10) else []) ++ [x mod 10]
  end.
Definition padded_digits (x : Z) : list Z :=
  let digits := decimal_digits 20 x in replicate (10 - length digits) 0 ++ digits.

Module Slashing.
Section Slashing.
Context `{StakeEnv}.

Definition get_penalty_in_epoch (id : identity_key) (epoch_index : Z) (s : StakeState) : option Z :=
  penalties s !! (id, epoch_index).

(** The penalties of a validator by the text of their epoch, as the stream yields them. *)
Definition digits_le (a b : list Z * Z) : Prop := lex_compare a.1 b.1 <> Gt.
#[global] Instance digits_le_dec : RelDecision digits_le.
Proof. intros a b. unfold digits_le. apply _. Defined.
Definition all_penalties (id : identity_key) (s : StakeState) : list (list Z * Z) :=
  merge_sort digits_le (omap (fun '((i, e), p) => if decide (i = id) then Some (padded_digits e, p) else None)
    (map_to_list (penalties s))).

(** [BTreeMap::range], which panics when the bounds are out of order. *)
Definition get_penalty_for_range (id : identity_key) (start end_ : Z) (s : StakeState) : anyhow (list Z) :=
  match lex_compare (padded_digits start) (padded_digits end_) with
  | Gt => Panic
  | _ => Ok (snd <$> filter (fun kp : list Z * Z =>
           lex_compare (padded_digits start) kp.1 <> Gt /\ lex_compare kp.1 (padded_digits end_) = Lt) (all_penalties id s))
  end.

Definition compute_compounded_penalty (penalties : list Z) : anyhow Z :=
  let! compounded := Penalty.from_percent 0 in
  foldl (fun acc penalty => let! acc := acc in Penalty.compound acc penalty) (Ok compounded) penalties.

Definition compounded_penalty_over_range (id : identity_key) (epoch_index_start epoch_index_end : Z) : stake Z :=
  if epoch_index_end <? epoch_index_start then fail "invalid penalty window"
  else
    range <- asks (get_penalty_for_range id epoch_index_start epoch_index_end);;
    lift (compute_compounded_penalty range).

Definition record_slashing_penalty (id : identity_key) (slashing_penalty : Z) : stake unit :=
  current_epoch <- expecting StakeRead.get_current_epoch;;
  no_penalty <- lift (Penalty.from_percent 0);;
  recorded <- gets (get_penalty_in_epoch id (index current_epoch));;
  new_penalty <- lift (Penalty.compound (default no_penalty recorded) slashing_penalty);;
  modify (record_stake_event (EventSlashingPenaltyApplied id (index current_epoch) new_penalty));;;
  modify (fun s => set_penalties (<[(id, index current_epoch) := new_penalty]> (penalties s)) s).
End Slashing.
End Slashing.

(** ** Active stake *)

Section ActiveStake.
Context `{StakeEnv}.
Import StakeRead.

(** One round of the loop of [total_active_stake]. *)
Definition add_active_stake (total : Z) (id : identity_key) : stake Z :=
  validator_state <- asks (fun s => ok_or (get_validator_state id s)
    "validator is in the consensus set index but its state was not found");;
  if decide (validator_state <> ValidatorState.Active) then ret total
  else
    supply <- asks (fun s => ok_or (get_validator_pool_size id s) "validator delegation pool not found");;
    rate <- asks (fun s => ok_or (get_validator_rate id s)
      "validator is in the consensus set index but its rate data was not found");;
    unbonded <- lift (Rate.unbonded_amount rate supply);;
    lift (ok_or (checked_add 128 total unbonded) "total active stake overflowed `Amount` (128 bits)").

Definition total_active_stake : stake Z :=
  ids <- gets ConsensusIndex.get_consensus_set;; for_fold ids 0 add_active_stake.
End ActiveStake.
