(* ===== verification/StakeManager.v ===== *)
(** * The validator state machine

    Models crates/core/component/stake: component/validator_handler/validator_manager.rs and
    uptime_tracker.rs. *)

From S2P Require Import Prelude.
From S2P Require Import Num.
From S2P Require Import Asset.
From S2P Require Import DexState.
From S2P Require Import Clock.
From S2P Require Import Validator.
From S2P Require Import Rate.
From S2P Require Import Stake.
Import ValidatorState.
Import BondingState.
Import StakeRead.
Import StakeWrite.
Import ConsensusIndex.

Module ValidatorManager.
Section ValidatorManager.
Context `{StakeEnv}.

(** A validator that leaves the active set for good ends the epoch early. *)
Definition leaves_active_set (old_state new_state : ValidatorState.t) : bool :=
  match old_state, new_state with
  | Active, (Defined | Disabled | Jailed | Tombstoned) => true
  | _, _ => false
  end.

(** [compute_unbonding_height(..).expect("active validators MUST be bonded")] *)
Definition begin_unbonding (id : identity_key) (unbonding_start_height : Z) : stake unit :=
  height <- compute_unbonding_height id unbonding_start_height;;
  unbonds_at_height <- lift (expect_some height);;
  set_validator_bonding_state id (Unbonding unbonds_at_height).

Definition apply_transition (id : identity_key) (old_state new_state : ValidatorState.t)
  (unbonding_start_height : Z) : stake unit :=
  match old_state, new_state with
  | (Defined | Disabled | Jailed), Inactive => add_consensus_set_index id
  | (Inactive | Jailed | Disabled), Defined => ret tt
  | (Inactive | Jailed | Defined), Disabled => ret tt
  | Inactive, Active =>
      set_validator_bonding_state id Bonded;;;
      height <- get_block_height;;
      window_len <- get_signed_blocks_window_len;;
      set_validator_uptime id (Uptime.new height (Z.to_nat window_len))
  | Active, (Inactive | Defined | Disabled) => begin_unbonding id unbonding_start_height
  | Active, Jailed =>
      params <- get_stake_params;;
      penalty <- lift (Penalty.from_bps_squared (slashing_penalty_downtime params));;
      Slashing.record_slashing_penalty id penalty;;;
      begin_unbonding id unbonding_start_height
  | (Defined | Disabled | Inactive | Active | Jailed), Tombstoned =>
      params <- get_stake_params;;
      penalty <- lift (Penalty.from_bps_squared (slashing_penalty_misbehavior params));;
      Slashing.record_slashing_penalty id penalty;;;
      set_validator_bonding_state id Unbonded
  | Tombstoned, Tombstoned | Defined, Defined | Inactive, Inactive
  | Active, Active | Jailed, Jailed | Disabled, Disabled => ret tt
  | (Disabled | Defined | Jailed), Active => fail "only inactive validators can become active"
  | (Disabled | Defined | Inactive), Jailed => fail "only active validators can get jailed"
  | Tombstoned, (Defined | Disabled | Inactive | Active | Jailed) => fail "tombstoning is permanent"
  end.

Definition set_validator_state_inner (id : identity_key) (old_state new_state : ValidatorState.t)
  : stake (ValidatorState.t * ValidatorState.t) :=
  current_height <- get_block_height;;
  epoch <- get_epoch_by_height current_height;;
  when (leaves_active_set old_state new_state) (on_clock EpochManager.set_end_epoch_flag);;;
  apply_transition id old_state new_state (start_height epoch);;;
  when (bool_decide (new_state = Disabled)) (set_last_disabled_height id current_height);;;
  put_validator_state id new_state;;;
  ret (old_state, new_state).

Definition set_validator_state (id : identity_key) (new_state : ValidatorState.t)
  : stake (ValidatorState.t * ValidatorState.t) :=
  old_state <- asks (fun s => ok_or (get_validator_state id s) "validator state not found for validator");;
  set_validator_state_inner id old_state new_state.

(** The state that the stake of a validator entitles it to. *)
Definition precursor_state (previous_state : ValidatorState.t) (has_minimum_stake : bool) : ValidatorState.t :=
  match previous_state, has_minimum_stake with
  | Defined, true => Inactive
  | Active, true => Active
  | Inactive, true => Inactive
  | _, _ => Defined
  end.

Definition try_precursor_transition (id : identity_key) (previous_state : ValidatorState.t)
  (next_rate : RateData) (delegation_token_supply : Z) : stake (option ValidatorState.t) :=
  match previous_state with
  | Defined | Inactive | Active =>
      params <- expecting get_stake_params;;
      unbonded_pool <- lift (Rate.unbonded_amount next_rate delegation_token_supply);;
      let new_state := precursor_state previous_state (min_validator_stake params <=? unbonded_pool) in
      when (negb (bool_decide (new_state = previous_state)))
        (expecting (set_validator_state id new_state;;; ret tt));;;
      ret (Some new_state)
  | _ => ret None
  end.

(** ** Definitions *)

Definition add_validator_inner (v : Validator) (rate : RateData) (initial_state : ValidatorState.t)
  (initial_bonding_state : BondingState.t) (voting_power pool_size : Z) : stake unit :=
  ensure (bool_decide (initial_state = Defined) || bool_decide (initial_state = Active))
    "validator cannot have this initial_state";;;
  let id := validator_identity v in
  put_validator_definition id v;;;
  register_consensus_key id (validator_consensus_key v);;;
  register_denom (delegation_token id);;;
  set_validator_rate_data id rate;;;
  modify (record_stake_event (EventValidatorDefinitionUpload v));;;
  set_initial_validator_state id initial_state;;;
  set_validator_power id voting_power;;;
  set_validator_bonding_state id initial_bonding_state;;;
  set_validator_pool_size id pool_size.

Definition add_validator (v : Validator) (rate : RateData) : stake unit :=
  add_validator_inner v rate Defined Unbonded 0 0.

Definition add_genesis_validator (allocations : gmap asset_id Z) (genesis_base_rate : BaseRateData)
  (v : Validator) : stake unit :=
  let id := validator_identity v in
  let rate := mkRate id (base_reward_rate genesis_base_rate) (base_exchange_rate genesis_base_rate) in
  let total_delegation_tokens := default 0 (allocations !! delegation_token id) in
  power <- lift (Rate.voting_power rate total_delegation_tokens);;
  add_validator_inner v rate Active Bonded power total_delegation_tokens;;;
  add_consensus_set_index id;;;
  window_len <- get_signed_blocks_window_len;;
  set_validator_uptime id (Uptime.new 0 (Z.to_nat window_len)).

(** The state an operator's request brings a validator back to. *)
Definition reenable (id : identity_key) (missing : string) : stake unit :=
  params <- get_stake_params;;
  rate <- asks (fun s => ok_or (get_validator_rate id s) missing);;
  supply <- gets (pool_size_or_zero id);;
  unbonded <- lift (Rate.unbonded_amount rate supply);;
  set_validator_state id (if min_validator_stake params <=? unbonded then Inactive else Defined);;;
  ret tt.

(** The delay before a disabled validator can be enabled again. *)
Definition check_disabled_long_enough (id : identity_key) : stake unit :=
  last_disabled_height <- gets (get_last_disabled_height id);;
  match last_disabled_height with
  | None => ret tt
  | Some last_disabled =>
      current_height <- get_block_height;;
      epoch_duration <- asks (fun s => EpochRead.get_epoch_duration_parameter (clock s));;
      ensure (saturating_add 64 last_disabled epoch_duration <=? current_height)
        "validator has been disabled too recently"
  end.

Definition update_validator_definition (v : Validator) : stake unit :=
  let id := validator_identity v in
  current_state <- asks (fun s => ok_or (get_validator_state id s) "updated validator has no recorded state");;
  match current_state, enabled v with
  | (Active | Inactive | Jailed | Defined | Disabled), false => set_validator_state id Disabled;;; ret tt
  | Disabled, true =>
      check_disabled_long_enough id;;;
      reenable id "updated validator has no recorded rate data"
  | Jailed, true => reenable id "updated validator has no recorded state"
  | (Active | Inactive), true => ret tt
  | Defined, true => ret tt
  | Tombstoned, _ => ret tt
  end;;;
  register_consensus_key id (validator_consensus_key v);;;
  put_validator_definition id v;;;
  modify (record_stake_event (EventValidatorDefinitionUpload v)).

(** ** Pools and evidence *)

Definition process_validator_pool_state (id : identity_key) (from_height : Z) : stake unit :=
  height <- compute_unbonding_height id from_height;;
  let allowed_unbonding_height := default from_height height in
  when (allowed_unbonding_height <=? from_height) (set_validator_bonding_state id Unbonded).

Definition process_evidence (evidence : Misbehavior) : stake unit :=
  validator <- asks (fun s => ok_or (get_validator_definition_by_cometbft_address (misbehaving_address evidence) s)
    "attempted to slash unknown validator");;
  states <- set_validator_state (validator_identity validator) Tombstoned;;
  match states with
  | ((Inactive | Jailed | Active), Tombstoned) =>
      current_height <- get_block_height;;
      modify (record_stake_event (EventTombstoneValidator current_height (validator_identity validator) evidence))
  | _ => ret tt
  end.
End ValidatorManager.
End ValidatorManager.

(** ** Uptime

    The lookups run as concurrent tasks, spawned in the order of the consensus set, whose results are
    processed as they complete; [schedule] permutes them.  A task that panics makes the join fail with
    an error. *)

Module ValidatorUptimeTracker.
Section ValidatorUptimeTracker.
Context `{StakeEnv}.
Import ValidatorManager.

(** The votes, by address; the last one wins. *)
Definition collect_votes (votes : list (Z * bool)) : gmap Z bool :=
  foldl (fun m '(address, signed) => <[address := signed]> m) ∅ votes.

Definition ValidatorInformation : Type := identity_key * consensus_key * Uptime.t.

Definition spawn_validator_lookup (id : identity_key) (s : StakeState) : anyhow (option ValidatorInformation) :=
  let! state := ok_or (get_validator_state id s) "every known validator must have a recorded state" in
  if decide (state = Active) then
    let! ck := ok_or (fetch_validator_consensus_key id s) "every known validator must have a recorded consensus key" in
    let! uptime := ok_or (get_validator_uptime id s) "every known validator must have a recorded uptime" in
    Ok (Some (id, ck, uptime))
  else Ok None.

Definition process_validator_uptime (info : ValidatorInformation) (did_address_vote : gmap Z bool)
  (params : StakeParameters) (height : Z) : stake unit :=
  let '(id, ck, uptime) := info in
  let voted := default (height =? 1) (did_address_vote !! validator_address ck) in
  when (negb voted) (modify (record_stake_event (EventValidatorMissedBlock id)));;;
  uptime <- lift (Uptime.mark_height_as_signed height voted uptime);;
  if missed_blocks_maximum params <=? Uptime.num_missed_blocks uptime
  then set_validator_state id Jailed;;; ret tt
  else set_validator_uptime id uptime.

(** What is done with the result of one task. *)
Definition process_lookup (did_address_vote : gmap Z bool) (params : StakeParameters) (height : Z)
  (data : anyhow (option ValidatorInformation)) : stake unit :=
  info <- lift data;;
  match info with
  | Some info => process_validator_uptime info did_address_vote params height
  | None => ret tt
  end.

Definition track_uptime (schedule : list identity_key -> list identity_key) (votes : list (Z * bool)) : stake unit :=
  height <- get_block_height;;
  params <- get_stake_params;;
  lookups <- gets (fun s => (fun id => spawn_validator_lookup id s) <$> schedule (get_consensus_set s));;
  for_each lookups (process_lookup (collect_votes votes) params height).
End ValidatorUptimeTracker.
End ValidatorUptimeTracker.
