(* ===== verification/StakeEpoch.v ===== *)
(** * Epochs, actions and blocks of the staking component

    Models crates/core/component/stake: component/epoch_handler.rs, the action handlers, and the
    hooks of component/stake.rs. *)

From S2P Require Import Prelude.
From S2P Require Import Num.
From S2P Require Import Asset.
From S2P Require Import DexState.
From S2P Require Import Clock.
From S2P Require Import Validator.
From S2P Require Import Rate.
From S2P Require Import Stake.
From S2P Require Import StakeManager.
Import ValidatorState.
Import StakeRead.
Import StakeWrite.
Import ConsensusIndex.
Import ValidatorManager.

(** ** The end of an epoch *)

Module EpochHandler.
Section EpochHandler.
Context `{StakeEnv}.

(** Tallies are summed with saturation, per validator. *)
Definition tally_add (tally : gmap identity_key Z) (entry : identity_key * Z) : gmap identity_key Z :=
  <[entry.1 := saturating_add 128 (default 0 (tally !! entry.1)) entry.2]> tally.

Definition collect_changes (tallies : gmap identity_key Z * gmap identity_key Z) (height : Z)
  : stake (gmap identity_key Z * gmap identity_key Z) :=
  ensure (height <=? max_int 63) "should be able to convert u64 into block height";;;
  changes <- get_delegation_changes height;;
  ret (foldl tally_add tallies.1
         ((fun d => (delegate_validator d, delegate_delegation_amount d)) <$> delegations changes),
       foldl tally_add tallies.2
         ((fun u => (undelegate_validator u, undelegate_delegation_amount u)) <$> undelegations changes)).

(** The base rate of the next epoch shares the issuance among the active stake. *)
Definition process_chain_base_rate : stake BaseRateData :=
  prev_base_rate <- get_current_base_rate;;
  issuance <- asks (fun s => expect_some (issuance_budget s));;
  total_active_stake_previous_epoch <- total_active_stake;;
  ratio <- lift (expect_ok (U128x128.ratio (U128x128.from_uint issuance)
    (U128x128.from_uint total_active_stake_previous_epoch)));;
  scaled <- lift (expect_ok (U128x128.checked_mul ratio BPS_SQUARED_SCALING_FACTOR));;
  base_reward_rate <- lift (to_amount scaled);;
  next_base_rate <- lift (BaseRate.next_epoch prev_base_rate base_reward_rate);;
  modify (set_base_rate (Some next_base_rate));;;
  modify (set_previous_base_rate (Some prev_base_rate));;;
  ret next_base_rate.

(** The difference of two amounts as 128-bit signed integers. *)
Definition delegation_delta {E} (total_delegations total_undelegations : Z) : outcome E Z :=
  let delta := Amount.to_i128 total_delegations - Amount.to_i128 total_undelegations in
  if bool_decide (- 2 ^ 127 <= delta < 2 ^ 127) then Ok delta else Panic.

Definition apply_delegation_delta (id : identity_key) (delta : Z) : stake unit :=
  if 0 <? delta then
    size <- increase_validator_pool_size id (Z.abs delta);; _ <- lift (expect_some size);; ret tt
  else if delta <? 0 then
    size <- decrease_validator_pool_size id (Z.abs delta);; _ <- lift (expect_some size);; ret tt
  else ret tt.

Definition process_validator (id : identity_key) (epoch_to_end : Epoch) (next_base_rate : BaseRateData)
  (total_delegations total_undelegations : Z)
  : stake (option (identity_key * list FundingStream * Z)) :=
  validator <- asks (fun s => ok_or (get_validator_definition id s) "its definition was not found in the JMT");;
  let vid := validator_identity validator in
  validator_state <- asks (fun s => ok_or (get_validator_state vid s) "its state was not found in the JMT");;
  prev_validator_rate <- asks (fun s => ok_or (get_validator_rate vid s) "its rate data was not found in the JMT");;
  no_penalty <- lift (Penalty.from_percent 0);;
  penalty <- gets (Slashing.get_penalty_in_epoch vid (index epoch_to_end));;
  slashed <- lift (Rate.slash prev_validator_rate (default no_penalty penalty));;
  set_prev_validator_rate vid slashed;;;
  next_validator_rate <- lift (Rate.next_epoch slashed next_base_rate (funding_streams validator) validator_state);;
  delta <- lift (delegation_delta total_delegations total_undelegations);;
  apply_delegation_delta id delta;;;
  supply <- gets (pool_size_or_zero id);;
  voting_power <- lift (Rate.voting_power next_validator_rate supply);;
  set_validator_rate_data vid next_validator_rate;;;
  set_validator_power vid voting_power;;;
  try_precursor_transition id validator_state next_validator_rate supply;;;
  process_validator_pool_state vid (start_height epoch_to_end);;;
  belongs <- gets (belongs_in_index vid);;
  when (negb belongs) (remove_consensus_set_index vid);;;
  ret (if decide (validator_state = Active) then Some (vid, funding_streams validator, supply) else None).

(** The validators of the queue entries are processed in the order of their keys. *)
Definition process_validators (delegations undelegations : gmap identity_key Z) (epoch_to_end : Epoch)
  (next_base_rate : BaseRateData) (ids : list identity_key)
  : stake (list (identity_key * list FundingStream * Z)) :=
  for_fold ids [] (fun queue id =>
    rewards <- process_validator id epoch_to_end next_base_rate
      (default 0 (delegations !! id)) (default 0 (undelegations !! id));;
    ret (queue ++ match rewards with Some r => [r] | None => [] end)).

(** Descending by power; validators of equal power keep their order, as in a stable sort. *)
Fixpoint insert_by_power (x : identity_key * Z) (l : list (identity_key * Z)) : list (identity_key * Z) :=
  match l with
  | [] => [x]
  | y :: l' => if y.2 <=? x.2 then x :: y :: l' else y :: insert_by_power x l'
  end.
Definition sort_by_power (l : list (identity_key * Z)) : list (identity_key * Z) := foldr insert_by_power [] l.

(** One validator of the consensus set, among those with power or among those without. *)
Definition classify (acc : list (identity_key * Z) * list (identity_key * Z)) (id : identity_key)
  : stake (list (identity_key * Z) * list (identity_key * Z)) :=
  state <- asks (fun s => ok_or (get_validator_state id s) "should be able to fetch validator state");;
  power <- gets (fun s => default 0 (get_validator_power id s));;
  ret (match state with
       | Active | Inactive =>
           if power =? 0 then (acc.1, acc.2 ++ [(id, power)]) else (acc.1 ++ [(id, power)], acc.2)
       | _ => acc
       end).

Definition set_active_and_inactive_validators : stake unit :=
  ids <- gets get_consensus_set;;
  '(validators_by_power, zero_power) <- for_fold ids ([], []) classify;;
  let sorted := sort_by_power validators_by_power in
  params <- get_stake_params;;
  let limit := Z.to_nat (active_validator_limit params) in
  for_each (take limit sorted) (fun v => set_validator_state v.1 Active;;; ret tt);;;
  for_each (drop limit sorted ++ zero_power) (fun v => set_validator_state v.1 Inactive;;; ret tt).

Definition end_epoch (epoch_to_end : Epoch) : stake unit :=
  end_height <- get_block_height;;
  '(delegations_by_validator, undelegations_by_validator) <-
    for_fold (Uptime.heights (start_height epoch_to_end) (Z.to_nat (end_height - start_height epoch_to_end + 1)))
      (∅, ∅) collect_changes;;
  next_base_rate <- process_chain_base_rate;;
  consensus_set <- gets consensus_set_index;;
  let validators_to_process :=
    dom delegations_by_validator ∪ dom undelegations_by_validator ∪ consensus_set in
  funding_queue <- process_validators delegations_by_validator undelegations_by_validator epoch_to_end
    next_base_rate (merge_sort Z.le (elements validators_to_process));;
  queue_staking_rewards funding_queue;;;
  set_active_and_inactive_validators.

(** *** The updates for CometBFT *)

(** The task that looks up the power of one validator. *)
Definition effective_power (id : identity_key) (s : StakeState) : anyhow (consensus_key * Z) :=
  let! state := ok_or (get_validator_state id s) "every known validator must have a recorded state" in
  let! power := if decide (state = Active) then ok_or (get_validator_power id s) "every active validator must have a recorded power"
                else Ok 0 in
  let! ck := ok_or (fetch_validator_consensus_key id s) "every known validator must have a recorded consensus key" in
  Ok (ck, power).

(** The results of the tasks enter the table in the order of their completion. *)
Definition collect_powers (schedule : list identity_key -> list identity_key) (s : StakeState)
  : anyhow (gmap consensus_key Z) :=
  foldl (fun acc id =>
    let! table := acc in let! entry := effective_power id s in Ok (<[entry.1 := entry.2]> table))
    (Ok ∅) (schedule (get_consensus_set s)).

(** Validators without power are reported only if CometBFT knows them; known keys that are not in the
    table are deleted. *)
Definition updates_of (powers : gmap consensus_key Z) (known : list consensus_key) : gmap consensus_key Z :=
  filter (fun kp : consensus_key * Z => 0 < kp.2 \/ kp.1 ∈ known) powers
    ∪ gset_to_gmap 0 (list_to_set known).

(** In the order of the keys. *)
Definition key_le (a b : consensus_key * Z) : Prop := a.1 <= b.1.
#[global] Instance key_le_dec : RelDecision key_le.
Proof. intros a b. unfold key_le. apply _. Defined.
Definition in_key_order (m : gmap consensus_key Z) : list (consensus_key * Z) := merge_sort key_le (map_to_list m).

(** The power is truncated to 64 bits, and converted to a CometBFT power, which has 63. *)
Definition comet_power (power : Z) : anyhow Z :=
  let truncated := power mod 2 ^ 64 in
  if truncated <=? max_int 63 then Ok truncated else Err "integer overflow".

Fixpoint collect_updates (l : list (consensus_key * Z)) : anyhow (list (consensus_key * Z)) :=
  match l with
  | [] => Ok []
  | kp :: l' => let! power := comet_power kp.2 in let! rest := collect_updates l' in Ok ((kp.1, power) :: rest)
  end.

Definition build_cometbft_validator_updates (schedule : list identity_key -> list identity_key) : stake unit :=
  current <- asks (fun s => expect_some (consensus_keys s));;
  powers <- asks (collect_powers schedule);;
  let table := in_key_order (updates_of powers current) in
  updates <- lift (collect_updates table);;
  put_cometbft_validator_updates updates;;;
  modify (set_consensus_keys (Some (fst <$> filter (fun kp : consensus_key * Z => kp.2 <> 0) table))).
End EpochHandler.
End EpochHandler.

(** ** Actions *)

Module StakeActions.
Section StakeActions.
Context `{StakeEnv}.

(** The first delegation to an empty pool has to reach the minimum stake. *)
Definition check_first_delegation (d : Delegate) : stake unit :=
  validator_state <- asks (fun s => ok_or (get_validator_state (delegate_validator d) s) "missing state for validator");;
  if decide (validator_state = Defined) then
    params <- get_stake_params;;
    pool_size <- gets (pool_size_or_zero (delegate_validator d));;
    ensure (negb (pool_size =? 0) || (min_validator_stake params <=? delegate_unbonded_amount d))
      "first delegation to a Defined validator must reach the minimum stake"
  else ret tt.

Definition delegate_check_and_execute (d : Delegate) : stake unit :=
  current_epoch <- get_current_epoch;;
  ensure (delegate_epoch_index d =? index current_epoch) "delegation was prepared for another epoch";;;
  rate <- asks (fun s => ok_or (get_validator_rate (delegate_validator d) s) "unknown validator identity");;
  expected_delegation_amount <- lift (Rate.delegation_amount rate (delegate_unbonded_amount d));;
  ensure (expected_delegation_amount =? delegate_delegation_amount d) "unexpected delegation amount";;;
  validator <- asks (fun s => ok_or (get_validator_definition (delegate_validator d) s) "missing definition for validator");;
  validator_state <- asks (fun s => ok_or (get_validator_state (delegate_validator d) s) "missing state for validator");;
  ensure (enabled validator) "delegations are only allowed to enabled validators";;;
  ensure (match validator_state with Defined | Inactive | Active => true | _ => false end)
    "delegations are only allowed to active or inactive validators";;;
  check_first_delegation d;;;
  push_delegation d;;;
  modify (record_stake_event (EventDelegate (delegate_validator d) (delegate_unbonded_amount d))).

Definition undelegate_check_and_execute (u : Undelegate) : stake unit :=
  current_epoch <- get_current_epoch;;
  ensure (bool_decide (undelegate_from_epoch u = current_epoch)) "undelegation was prepared for another epoch";;;
  rate <- asks (fun s => ok_or (get_validator_rate (undelegate_validator u) s) "unknown validator identity");;
  expected_unbonded_amount <- lift (Rate.unbonded_amount rate (undelegate_delegation_amount u));;
  ensure (undelegate_unbonded_amount u =? expected_unbonded_amount) "undelegation amount does not match expected amount";;;
  register_denom (Actions.undelegate_unbonding_token u);;;
  push_undelegation u;;;
  modify (record_stake_event (EventUndelegate (undelegate_validator u) (undelegate_unbonded_amount u))).

(** The claim converts one token into another and changes no state. *)
Definition undelegate_claim_check_and_execute (id : identity_key) (penalty unbonding_start_height : Z) : stake unit :=
  current_height <- get_block_height;;
  ensure (unbonding_start_height <=? current_height) "the unbonding start height must be at most the current height";;;
  height <- compute_unbonding_height id unbonding_start_height;;
  let allowed_unbonding_height := default current_height height in
  ensure (allowed_unbonding_height <=? current_height) "cannot claim unbonding tokens yet";;;
  unbonding_epoch_start <- get_epoch_by_height unbonding_start_height;;
  unbonding_epoch_end <- get_epoch_by_height allowed_unbonding_height;;
  ensure (index unbonding_epoch_start <=? index unbonding_epoch_end) "unbonding epoch end must not precede its start";;;
  expected_penalty <- Slashing.compounded_penalty_over_range id (index unbonding_epoch_start) (index unbonding_epoch_end);;
  ensure (penalty =? expected_penalty) "penalty does not match expected penalty".

Definition definition_check_stateless (v : Validator) (auth_sig : Z) : anyhow unit :=
  let! _ := guard_or (Z.of_nat (String.length (validator_website v)) <=? 70) "validator website field must be less than 70 characters" in
  let! _ := guard_or (Z.of_nat (String.length (validator_name v)) <=? 140) "validator name must be less than 140 characters" in
  let! _ := guard_or (Z.of_nat (String.length (validator_description v)) <=? 280) "validator description must be less than 280 characters" in
  let! _ := guard_or (Z.of_nat (length (funding_streams v)) <=? 8) "validators can declare at most 8 funding streams" in
  let! _ := guard_or (negb ((sequence_number v =? max_int 32) && enabled v)) "validators must be disabled when their lifetime is over" in
  let! _ := guard_or (definition_signed v auth_sig) "validator definition signature failed to verify" in
  let! total_funding_bps := FundingStreams.commission (funding_streams v) in
  guard_or (total_funding_bps <=? 10000) "validator defined more than 10000bps (= 100%) of funding streams".

Definition definition_check_and_execute (v : Validator) : stake unit :=
  prev_definition <- gets (get_validator_definition (validator_identity v));;
  ensure (match prev_definition with Some prev => sequence_number prev <? sequence_number v | None => true end)
    "definition sequence number must increase";;;
  ck_owner <- gets (get_validator_definition_by_consensus_key (validator_consensus_key v));;
  ensure (match ck_owner with Some owner => validator_identity owner =? validator_identity v | None => true end)
    "consensus key is already in use by validator";;;
  match prev_definition with
  | Some _ => update_validator_definition v
  | None => add_validator v (mkRate (validator_identity v) 0 100000000)
  end.
End StakeActions.
End StakeActions.

(** ** The component *)

Module Staking.
Section Staking.
Context `{StakeEnv}.

(** [allocation.value()] of the genesis of the shielded pool, by asset. *)
Definition sum_allocations {E} (allocations : list Value) : outcome E (gmap asset_id Z) :=
  foldl (fun acc value =>
    let! m := acc in
    let! total := plain_add 128 (default 0 (m !! value_asset value)) (amount value) in
    Ok (<[value_asset value := total]> m)) (Ok ∅) allocations.

Definition init_genesis (params : StakeParameters) (validators : list Validator) (allocations : list Value) : stake unit :=
  put_stake_params params;;;
  starting_height <- expecting get_block_height;;
  starting_epoch <- expecting (get_epoch_by_height starting_height);;
  let genesis_base_rate := mkBaseRate (index starting_epoch) 0 100000000 in
  modify (set_base_rate (Some genesis_base_rate));;;
  genesis_allocations <- lift (sum_allocations allocations);;
  for_each validators (fun v => expecting (add_genesis_validator genesis_allocations genesis_base_rate v));;;
  modify (set_consensus_keys (Some []));;;
  write_delegation_changes starting_height (mkChanges [] []).

Definition init_chain (app_state : option (StakeParameters * list Validator * list Value))
  (schedule : list identity_key -> list identity_key) : stake unit :=
  match app_state with
  | None => ret tt
  | Some (params, validators, allocations) => init_genesis params validators allocations
  end;;;
  expecting (EpochHandler.build_cometbft_validator_updates schedule).

(** Evidence against a validator that is not known is dropped with a warning. *)
Definition begin_block (evidence : list Misbehavior) (votes : list (Z * bool))
  (schedule : list identity_key -> list identity_key) : stake unit :=
  for_each evidence (fun e => ignore_error (process_evidence e));;;
  expecting (ValidatorUptimeTracker.track_uptime schedule votes).

Definition end_block (height : Z) : stake unit :=
  changes <- gets delegation_tally;;
  write_delegation_changes height changes.

Definition end_epoch (schedule : list identity_key -> list identity_key) : stake unit :=
  epoch_ending <- get_current_epoch;;
  EpochHandler.end_epoch epoch_ending;;;
  EpochHandler.build_cometbft_validator_updates schedule.
End Staking.
End Staking.
