(* ===== verification/StakeFacts.v ===== *)
(** * Facts about the validator state machine

    The entries of one validator form its [View]; [well_formed] constrains each view, and the
    entries they share.  Operations on one validator leave the views of the others alone, so that
    each step is checked on one view. *)

From S2P Require Import Prelude.
From S2P Require Import Num.
From S2P Require Import Asset.
From S2P Require Import DexState.
From S2P Require Import Clock.
From S2P Require Import Validator.
From S2P Require Import Rate.
From S2P Require Import RateFacts.
From S2P Require Import Stake.
From S2P Require Import StakeManager.
Import ValidatorState.
Import BondingState.
Import StakeRead.
Import StakeWrite.
Import ConsensusIndex.
Import ValidatorManager.

(** ** Views *)

Record View := mkView {
  view_definition : option Validator;
  view_state : option ValidatorState.t;
  view_bonding : option BondingState.t;
  view_pool : option Z;
  view_power : option Z;
  view_rate : option RateData;
  view_uptime : option Uptime.t;
  view_indexed : bool;
}.

Definition view (s : StakeState) (id : identity_key) : View :=
  mkView (definitions s !! id) (states s !! id) (bonding_states s !! id) (pool_sizes s !! id)
    (powers s !! id) (current_rates s !! id) (uptimes s !! id) (bool_decide (id ∈ consensus_set_index s)).

(** What the state of a validator says about its pool, its tracker and the index; the trackers of
    active validators stand at height [n]. *)
Definition lifecycle (n : Z) (state : ValidatorState.t) (bonding : BondingState.t)
  (uptime : option Uptime.t) (indexed : bool) : Prop :=
  match state with
  | Active => bonding = Bonded /\ indexed = true
              /\ exists u, uptime = Some u /\ Uptime.as_of_block_height u = n /\ (0 < length (Uptime.signatures u))%nat
  | Inactive => bonding <> Bonded /\ indexed = true
  | Tombstoned => bonding = Unbonded
  | Defined | Jailed | Disabled => bonding <> Bonded
  end.

Definition streams_ok (streams : list FundingStream) : Prop :=
  Forall (fun fs => 0 <= rate_bps fs) streams /\ list_sum (rate_bps <$> streams) <= 10000.

(** A validator has all of its entries, or none but a tracker left over. *)
Inductive view_ok (n : Z) (id : identity_key) : View -> Prop :=
| view_unknown uptime : view_ok n id (mkView None None None None None None uptime false)
| view_known v state bonding pool power rate uptime indexed :
    validator_identity v = id -> rate_identity rate = id -> streams_ok (funding_streams v) ->
    is_u128 pool -> 0 <= power <= MAX_VOTING_POWER -> is_u128 (validator_exchange_rate rate) ->
    lifecycle n state bonding uptime indexed ->
    view_ok n id (mkView (Some v) (Some state) (Some bonding) (Some pool) (Some power) (Some rate) uptime indexed).

(** ** Well-formed states *)

(** What the checks of app/src/params/change.rs require. *)
Definition params_ok (p : StakeParameters) : Prop :=
  0 < unbonding_delay p < 2 ^ 64 /\ 0 <= slashing_penalty_misbehavior p <= 100000000
  /\ 0 <= slashing_penalty_downtime p <= 100000000 /\ 0 < signed_blocks_window_len p.

(** Each validator owns its consensus key, every address belongs to a key with an owner, and the
    owners are known. *)
Record keys_ok `{StakeEnv} (s : StakeState) : Prop := {
  keys_owned id v : definitions s !! id = Some v ->
    identity_by_consensus_key s !! validator_consensus_key v = Some id;
  keys_known k id : identity_by_consensus_key s !! k = Some id -> is_Some (definitions s !! id);
  addresses_known a k : consensus_key_by_address s !! a = Some k -> is_Some (identity_by_consensus_key s !! k);
}.

Definition penalties_ok (s : StakeState) : Prop := map_Forall (fun _ p => Penalty.wf p) (penalties s).

(** The height, its epoch, and the parameters are there. *)
Record clock_ok (h : Z) (s : StakeState) : Prop := {
  clock_height_is : clock_height (clock s) = Some h;
  clock_range : 0 <= h < 2 ^ 64 - 1;
  clock_epoch : exists e, epoch_by_height (clock s) !! h = Some e /\ 0 <= start_height e <= h;
  clock_params : exists p, stake_params s = Some p /\ params_ok p;
}.

Record well_formed `{StakeEnv} (h : Z) (n : identity_key -> Z) (s : StakeState) : Prop := {
  wf_view id : view_ok (n id) id (view s id);
  wf_keys : keys_ok s;
  wf_penalties : penalties_ok s;
  wf_clock : clock_ok h s;
}.

(** ** Frames *)

(** What no operation on existing validators changes. *)
Record same_globals (s s' : StakeState) : Prop := {
  same_definitions : definitions s' = definitions s;
  same_owners : identity_by_consensus_key s' = identity_by_consensus_key s;
  same_addresses : consensus_key_by_address s' = consensus_key_by_address s;
  same_params : stake_params s' = stake_params s;
  same_height : clock_height (clock s') = clock_height (clock s);
  same_epochs : epoch_by_height (clock s') = epoch_by_height (clock s);
  same_duration : epoch_duration (clock s') = epoch_duration (clock s);
  same_changes : delegation_changes s' = delegation_changes s;
  same_tally : delegation_tally s' = delegation_tally s;
  same_base_rate : base_rate s' = base_rate s;
  same_consensus_keys : consensus_keys s' = consensus_keys s;
  same_updates : validator_updates s' = validator_updates s;
}.

(** An operation on one validator. *)
Record touches (id : identity_key) (s s' : StakeState) : Prop := {
  touches_globals : same_globals s s';
  touches_views j : j <> id -> view s' j = view s j;
  touches_penalties : penalties_ok s -> penalties_ok s';
}.

Lemma same_globals_refl s : same_globals s s.
Proof. done. Qed.

Lemma same_globals_trans s1 s2 s3 : same_globals s1 s2 -> same_globals s2 s3 -> same_globals s1 s3.
Proof. intros [] []. split; congruence. Qed.

Lemma touches_refl id s : touches id s s.
Proof. done. Qed.

Lemma touches_trans id s1 s2 s3 : touches id s1 s2 -> touches id s2 s3 -> touches id s1 s3.
Proof.
  intros [G1 V1 P1] [G2 V2 P2]. split; [by eapply same_globals_trans| |auto].
  intros j Hj. by rewrite V2, V1.
Qed.

Section Frames.
Context `{StakeEnv}.

Lemma same_globals_keys s s' : same_globals s s' -> keys_ok s -> keys_ok s'.
Proof.
  intros G [O K A]. split.
  - intros id v. rewrite (same_definitions _ _ G), (same_owners _ _ G). apply O.
  - intros k id. rewrite (same_definitions _ _ G), (same_owners _ _ G). apply K.
  - intros a k. rewrite (same_addresses _ _ G), (same_owners _ _ G). apply A.
Qed.

Lemma same_globals_clock h s s' : same_globals s s' -> clock_ok h s -> clock_ok h s'.
Proof.
  intros G [H1 H2 H3 H4]. split.
  - by rewrite (same_height _ _ G).
  - done.
  - by rewrite (same_epochs _ _ G).
  - by rewrite (same_params _ _ G).
Qed.

(** A step on one validator that leaves its view in order. *)
Lemma touches_well_formed h n n' id s s' :
  well_formed h n s -> touches id s s' -> (forall j, j <> id -> n' j = n j) ->
  view_ok (n' id) id (view s' id) -> well_formed h n' s'.
Proof.
  intros [V K P C] T Hn Hid. pose proof (touches_globals _ _ _ T) as G. split.
  - intros j. destruct (decide (j = id)) as [->|Hj]; [done|].
    rewrite (touches_views _ _ _ T j Hj), Hn by done. apply V.
  - by eapply same_globals_keys.
  - by eapply touches_penalties.
  - by eapply same_globals_clock.
Qed.
End Frames.

(** *** The primitive writes *)

Ltac touch := split; [split; reflexivity | intros j Hj; unfold view; cbn | try done].

Lemma touches_event id e s : touches id s (record_stake_event e s).
Proof. by touch. Qed.

Lemma touches_bonding id b s : touches id s (set_bonding_states (<[id := b]> (bonding_states s)) s).
Proof. touch. by rewrite lookup_insert_ne by done. Qed.

Lemma touches_states id st s : touches id s (set_states (<[id := st]> (states s)) s).
Proof. touch. by rewrite lookup_insert_ne by done. Qed.

Lemma touches_uptimes id u s : touches id s (set_uptimes (<[id := u]> (uptimes s)) s).
Proof. touch. by rewrite lookup_insert_ne by done. Qed.

Lemma touches_last_disabled id h s : touches id s (set_last_disabled (<[id := h]> (last_disabled s)) s).
Proof. by touch. Qed.

Lemma touches_index id s : touches id s (set_consensus_set_index ({[ id ]} ∪ consensus_set_index s) s).
Proof. touch. f_equal. apply bool_decide_ext. set_solver. Qed.

Lemma touches_unindex id s : touches id s (set_consensus_set_index (consensus_set_index s ∖ {[ id ]}) s).
Proof. touch. f_equal. apply bool_decide_ext. set_solver. Qed.

Lemma touches_flag id s : touches id s (set_clock (EpochManager.set_end_epoch_flag (clock s)) s).
Proof. by touch. Qed.

Lemma touches_penalty id e p s : Penalty.wf p -> touches id s (set_penalties (<[(id, e) := p]> (penalties s)) s).
Proof. intros Hp. touch; [done|]. intros Hs. by apply map_Forall_insert_2. Qed.

Lemma touches_powers id p s : touches id s (set_powers (<[id := p]> (powers s)) s).
Proof. touch. by rewrite lookup_insert_ne by done. Qed.

Lemma touches_rates id r s : touches id s (set_current_rates (<[id := r]> (current_rates s)) s).
Proof. touch. by rewrite lookup_insert_ne by done. Qed.

Lemma touches_previous_rates id r s : touches id s (set_previous_rates (<[id := r]> (previous_rates s)) s).
Proof. by touch. Qed.

Lemma touches_pool id p s : touches id s (set_pool_sizes (<[id := p]> (pool_sizes s)) s).
Proof. touch. by rewrite lookup_insert_ne by done. Qed.

Create HintDb touches.
#[export] Hint Resolve touches_refl touches_event touches_bonding touches_states touches_uptimes
  touches_last_disabled touches_index touches_unindex touches_flag touches_penalty touches_powers
  touches_rates touches_previous_rates touches_pool : touches.

(** ** Runs

    [succeeds m s Q]: from [s], [m] returns [Ok] with a result and a state that satisfy [Q]. *)

Definition succeeds {A} (m : stake A) (s : StakeState) (Q : A -> StakeState -> Prop) : Prop :=
  exists a s', m s = (Ok a, s') /\ Q a s'.

Section Runs.
Context {A B : Type}.
Implicit Types (m : stake A) (k : A -> stake B) (s : StakeState).

Lemma succeeds_bind m k s R Q :
  succeeds m s R -> (forall a s1, R a s1 -> succeeds (k a) s1 Q) -> succeeds (bind m k) s Q.
Proof.
  intros (a & s1 & Hm & HR) Hk. destruct (Hk a s1 HR) as (b & s2 & Hb & HQ).
  exists b, s2. split; [|done]. by rewrite (bind_run_ok _ _ _ _ _ Hm).
Qed.

Lemma succeeds_ret (a : A) s (Q : A -> StakeState -> Prop) : Q a s -> succeeds (ret a) s Q.
Proof. intros HQ. by exists a, s. Qed.

Lemma succeeds_run m s a s' (Q : A -> StakeState -> Prop) : m s = (Ok a, s') -> Q a s' -> succeeds m s Q.
Proof. intros Hm HQ. by exists a, s'. Qed.

Lemma succeeds_weaken m s (Q R : A -> StakeState -> Prop) :
  succeeds m s Q -> (forall a s', Q a s' -> R a s') -> succeeds m s R.
Proof. intros (a & s' & Hm & HQ) Hi. exists a, s'. auto. Qed.

Lemma succeeds_expecting m s Q : succeeds m s Q -> succeeds (expecting m) s Q.
Proof. intros (a & s' & Hm & HQ). exists a, s'. by rewrite expecting_ok. Qed.

Lemma succeeds_gets (f : StakeState -> A) k s Q : succeeds (k (f s)) s Q -> succeeds (bind (gets f) k) s Q.
Proof. done. Qed.

Lemma succeeds_asks (f : StakeState -> anyhow A) a k s Q :
  f s = Ok a -> succeeds (k a) s Q -> succeeds (bind (asks f) k) s Q.
Proof. intros Hf (b & s' & Hk & HQ). exists b, s'. split; [|done]. unfold bind, asks. by rewrite Hf. Qed.

Lemma succeeds_lift (o : anyhow A) a k s Q :
  o = Ok a -> succeeds (k a) s Q -> succeeds (bind (lift o) k) s Q.
Proof. by intros ->. Qed.
End Runs.

Lemma succeeds_modify {B} f (k : unit -> stake B) s Q : succeeds (k tt) (f s) Q -> succeeds (bind (modify f) k) s Q.
Proof. done. Qed.

Lemma succeeds_assoc {A B C} (m : stake A) (f : A -> stake B) (k : B -> stake C) s Q :
  succeeds (bind m (fun a => bind (f a) k)) s Q -> succeeds (bind (bind m f) k) s Q.
Proof.
  intros (c & s' & Hm & HQ). exists c, s'. split; [|done]. revert Hm. unfold bind. by destruct (m s) as [[]].
Qed.

Lemma succeeds_step {A B} (m : stake A) (k : A -> stake B) s a s1 Q :
  m s = (Ok a, s1) -> succeeds (k a) s1 Q -> succeeds (bind m k) s Q.
Proof. intros Hm Hk. eapply succeeds_bind; [exact (succeeds_run m s a s1 (fun b s2 => b = a /\ s2 = s1) Hm (conj eq_refl eq_refl))|]. by intros ? ? [-> ->]. Qed.

(** A loop keeps an invariant that every round re-establishes. *)
Lemma succeeds_for_each {A} (I : list A -> StakeState -> Prop) (l : list A) (body : A -> stake unit) s :
  (forall x l' s, I (x :: l') s -> succeeds (body x) s (fun _ => I l')) -> I l s ->
  succeeds (for_each l body) s (fun _ => I []).
Proof.
  intros Hb. revert s. induction l as [|x l IH]; intros s HI; [by apply succeeds_ret|].
  eapply succeeds_bind; [by apply Hb|]. intros [] s1. apply IH.
Qed.

(** ** Reads in a well-formed state *)

Section Reads.
Context `{StakeEnv} (h : Z) (s : StakeState) (Hc : clock_ok h s).

Lemma block_height_run : get_block_height s = (Ok h, s).
Proof. unfold get_block_height, asks, EpochRead.get_block_height. by rewrite (clock_height_is _ _ Hc). Qed.

Lemma epoch_run : exists e, 0 <= start_height e <= h
  /\ get_epoch_by_height h s = (Ok e, s) /\ get_current_epoch s = (Ok e, s).
Proof.
  destruct (clock_epoch _ _ Hc) as (e & He & Hr). exists e. split; [done|].
  unfold get_epoch_by_height, get_current_epoch, asks, EpochRead.get_epoch_by_height, EpochRead.get_current_epoch, EpochRead.get_block_height.
  rewrite (clock_height_is _ _ Hc). cbn [ok_or outcome_bind]. by rewrite He.
Qed.

Lemma params_run : exists p, params_ok p /\ stake_params s = Some p /\ get_stake_params s = (Ok p, s)
  /\ get_signed_blocks_window_len s = (Ok (signed_blocks_window_len p), s).
Proof.
  destruct (clock_params _ _ Hc) as (p & Hp & Hok). exists p. split; [done|]. split; [done|].
  unfold get_signed_blocks_window_len, get_stake_params, bind, asks. by rewrite Hp.
Qed.
End Reads.

Lemma no_penalty_run {E} : @Penalty.from_percent E 0 = Ok U128x128.B.
Proof. reflexivity. Qed.

Lemma no_penalty_wf : Penalty.wf U128x128.B.
Proof. unfold Penalty.wf. pose proof U128x128.B_pos. lia. Qed.

(** ** Transitions *)

(** The edges of the state machine, and the loops. *)
Definition legal (old_state new_state : ValidatorState.t) : bool :=
  match old_state, new_state with
  | Tombstoned, Tombstoned | Active, _ => true
  | Tombstoned, _ => false
  | Inactive, Jailed => false
  | Inactive, _ => true
  | (Defined | Disabled), (Active | Jailed) => false
  | Jailed, Active => false
  | _, _ => true
  end.

(** Another state for a validator. *)
Definition relife (w : View) (state : ValidatorState.t) (b : BondingState.t) (u : option Uptime.t) (ix : bool) : View :=
  mkView (view_definition w) (Some state) (Some b) (view_pool w) (view_power w) (view_rate w) u ix.

Section Transitions.
Context `{StakeEnv}.

Definition penalized (id : identity_key) (e : Epoch) (p : Z) (s : StakeState) : StakeState :=
  let q := default U128x128.B (penalties s !! (id, index e)) * p / U128x128.B in
  set_penalties (<[(id, index e) := q]> (penalties s)) (record_stake_event (EventSlashingPenaltyApplied id (index e) q) s).

Lemma recorded_wf id e s : penalties_ok s -> Penalty.wf (default U128x128.B (penalties s !! (id, e))).
Proof.
  intros Hs. destruct (penalties s !! (id, e)) as [q|] eqn:Hq; [|apply no_penalty_wf].
  exact (map_Forall_lookup_1 _ _ _ _ Hs Hq).
Qed.

Lemma record_penalty_run id p h s e :
  clock_ok h s -> penalties_ok s -> Penalty.wf p -> get_current_epoch s = (Ok e, s) ->
  Slashing.record_slashing_penalty id p s = (Ok tt, penalized id e p s) /\ touches id s (penalized id e p s).
Proof.
  intros Hc Hs Hp He. pose proof (recorded_wf id (index e) s Hs) as Hq.
  destruct (@compound_run string _ p Hq Hp) as (Hr & Hw & _). split.
  - unfold Slashing.record_slashing_penalty. unfold bind at 1. unfold expecting. rewrite He.
    rewrite no_penalty_run, bind_lift_ok, bind_gets. unfold Slashing.get_penalty_in_epoch.
    by rewrite Hr, bind_lift_ok, bind_modify.
  - unfold penalized. eapply touches_trans; [apply touches_event|].
    exact (touches_penalty id (index e) _ (record_stake_event _ s) Hw).
Qed.

Lemma bonding_run id b s :
  set_validator_bonding_state id b s
    = (Ok tt, record_stake_event (EventValidatorBondingStateChange id b) (set_bonding_states (<[id := b]> (bonding_states s)) s)).
Proof. done. Qed.

Lemma begin_unbonding_run id h s start :
  clock_ok h s -> bonding_states s !! id = Some Bonded ->
  exists height, begin_unbonding id start s = set_validator_bonding_state id (Unbonding height) s.
Proof.
  intros Hc Hb. destruct (params_run h s Hc) as (p & _ & _ & Hp & _). eexists.
  unfold begin_unbonding, compute_unbonding_height, get_validator_bonding_state.
  unfold bind at 1. rewrite bind_gets, Hb, (bind_run_ok _ _ _ _ _ Hp). cbn [unbonding_height ret]. reflexivity.
Qed.

Lemma view_bonding_set id b s :
  view (record_stake_event (EventValidatorBondingStateChange id b) (set_bonding_states (<[id := b]> (bonding_states s)) s)) id
    = mkView (definitions s !! id) (states s !! id) (Some b) (pool_sizes s !! id) (powers s !! id)
        (current_rates s !! id) (uptimes s !! id) (bool_decide (id ∈ consensus_set_index s)).
Proof. unfold view. cbn. by rewrite lookup_insert_eq. Qed.

Lemma touches_set_bonding id b s :
  touches id s (record_stake_event (EventValidatorBondingStateChange id b) (set_bonding_states (<[id := b]> (bonding_states s)) s)).
Proof. eapply touches_trans; [apply touches_bonding|apply touches_event]. Qed.

(** What a transition makes of a validator, before its state is written. *)
Definition moved (id : identity_key) (old new : ValidatorState.t) (n : Z) (s : StakeState) (_ : unit) (s' : StakeState) : Prop :=
  touches id s s' /\ exists b u ix, view s' id = relife (view s id) old b u ix /\ lifecycle n new b u ix.

Lemma moved_here id old new n s b :
  states s !! id = Some old -> bonding_states s !! id = Some b ->
  lifecycle n new b (uptimes s !! id) (bool_decide (id ∈ consensus_set_index s)) -> moved id old new n s tt s.
Proof.
  intros Hst Hb Hl. split; [apply touches_refl|]. eexists _, _, _. split; [|exact Hl].
  unfold view, relife. cbn. by rewrite Hst, Hb.
Qed.

Lemma moved_bonding id old new n s b :
  states s !! id = Some old ->
  lifecycle n new b (uptimes s !! id) (bool_decide (id ∈ consensus_set_index s)) ->
  succeeds (set_validator_bonding_state id b) s (moved id old new n s).
Proof.
  intros Hst Hl. eapply succeeds_run; [apply bonding_run|]. split; [apply touches_set_bonding|].
  eexists _, _, _. split; [|exact Hl]. rewrite view_bonding_set. unfold relife, view. cbn. by rewrite Hst.
Qed.

(** A penalty recorded on the way changes no view. *)
Lemma moved_after_penalty id old new n p h s (m : stake unit) :
  clock_ok h s -> penalties_ok s -> Penalty.wf p ->
  (forall s1, touches id s s1 -> view s1 id = view s id -> clock_ok h s1 -> succeeds m s1 (moved id old new n s1)) ->
  succeeds (bind (Slashing.record_slashing_penalty id p) (fun _ => m)) s (moved id old new n s).
Proof.
  intros Hc Hs Hp Hm. destruct (epoch_run h s Hc) as (e & _ & _ & He).
  destruct (record_penalty_run id p h s e Hc Hs Hp He) as [Hr Ht].
  eapply succeeds_bind; [exact (succeeds_run _ _ _ _ (fun _ s1 => s1 = penalized id e p s) Hr eq_refl)|].
  intros _ s1 ->. eapply succeeds_weaken.
  - apply Hm; [done|done|]. eapply same_globals_clock; [apply Ht|done].
  - intros [] s' [Ht' (b & u & ix & Hv & Hl)]. split; [by eapply touches_trans|]. by exists b, u, ix.
Qed.
End Transitions.

Section TransitionRuns.
Context `{StakeEnv}.

Lemma penalty_run {E} b : 0 <= b <= 100000000 -> exists p, @Penalty.from_bps_squared E b = Ok p /\ Penalty.wf p.
Proof. intros Hb. eexists. apply from_bps_squared_run. unfold S8. lia. Qed.

(** The hypotheses of a transition: the entries of the validator agree with its state. *)
Definition entries_ok (n : Z) (id : identity_key) (old : ValidatorState.t) (s : StakeState) : Prop :=
  states s !! id = Some old /\ exists b, bonding_states s !! id = Some b
    /\ lifecycle n old b (uptimes s !! id) (bool_decide (id ∈ consensus_set_index s)).

Lemma entries_ok_view n id old s s1 : view s1 id = view s id -> entries_ok n id old s -> entries_ok n id old s1.
Proof.
  intros Hv (Hst & b & Hb & Hl). injection Hv as _ Hst1 Hb1 _ _ _ Hu Hix. unfold entries_ok.
  rewrite Hst1, Hb1, Hu, Hix. eauto.
Qed.

Lemma unbonding_runs id new n h s start :
  clock_ok h s -> entries_ok n id Active s -> new = Inactive \/ new = Defined \/ new = Disabled \/ new = Jailed ->
  succeeds (begin_unbonding id start) s (moved id Active new n s).
Proof.
  intros Hc (Hst & b & Hb & -> & Hix & _) Hnew. destruct (begin_unbonding_run id h s start Hc Hb) as [height Hr].
  destruct (moved_bonding id Active new n s (Unbonding height) Hst) as (u & s2 & Hr2 & HQ).
  { rewrite Hix. by destruct Hnew as [->|[->|[->| ->]]]. }
  exists u, s2. by rewrite Hr.
Qed.

Lemma tombstone_runs id old n h s p :
  clock_ok h s -> penalties_ok s -> entries_ok n id old s -> Penalty.wf p ->
  succeeds (Slashing.record_slashing_penalty id p;;; set_validator_bonding_state id Unbonded) s
    (moved id old Tombstoned n s).
Proof.
  intros Hc Hs He Hp. eapply moved_after_penalty; [done..|]. intros s1 _ Hv Hc1.
  destruct (entries_ok_view _ _ _ _ _ Hv He) as (Hst & _). by apply moved_bonding.
Qed.

Lemma jail_runs id n h s p start :
  clock_ok h s -> penalties_ok s -> entries_ok n id Active s -> Penalty.wf p ->
  succeeds (Slashing.record_slashing_penalty id p;;; begin_unbonding id start) s (moved id Active Jailed n s).
Proof.
  intros Hc Hs He Hp. eapply moved_after_penalty; [done..|]. intros s1 _ Hv Hc1.
  eapply unbonding_runs; [done| |by auto]. by eapply entries_ok_view.
Qed.

Lemma index_runs id old n s b :
  states s !! id = Some old -> bonding_states s !! id = Some b -> b <> Bonded ->
  succeeds (add_consensus_set_index id) s (moved id old Inactive n s).
Proof.
  intros Hst Hb Hne. eapply succeeds_run; [done|]. split; [apply touches_index|].
  exists b, (uptimes s !! id), true. split; [|done]. unfold view, relife. cbn. rewrite Hst, Hb. f_equal.
  apply bool_decide_eq_true. set_solver.
Qed.

Lemma promote_runs id n h s :
  clock_ok h s -> entries_ok n id Inactive s ->
  succeeds (set_validator_bonding_state id Bonded;;;
    height <- get_block_height;; window_len <- get_signed_blocks_window_len;;
    set_validator_uptime id (Uptime.new height (Z.to_nat window_len))) s (moved id Inactive Active h s).
Proof.
  intros Hc (Hst & b & Hb & _ & Hix). pose proof (touches_set_bonding id Bonded s) as Ht.
  pose proof (same_globals_clock h _ _ (touches_globals _ _ _ Ht) Hc) as Hc1.
  eapply succeeds_step; [exact (bonding_run id Bonded s)|]. set (s1 := record_stake_event _ _) in *.
  destruct (params_run h s1 Hc1) as (ps & (_ & _ & _ & Hw) & _ & _ & Hlen).
  eapply succeeds_step; [exact (block_height_run h s1 Hc1)|]. eapply succeeds_step; [exact Hlen|].
  eapply succeeds_run; [done|]. split; [eapply touches_trans; [exact Ht|apply touches_uptimes]|].
  exists Bonded, (Some (Uptime.new h (Z.to_nat (signed_blocks_window_len ps)))), true. split.
  - unfold view, relife, s1. cbn. rewrite !lookup_insert_eq, Hst, Hix. done.
  - split_and!; [done..|]. eexists. split; [done|]. cbn. rewrite length_replicate. split; [done|lia].
Qed.

(** A legal transition succeeds and brings the validator to where its new state puts it. *)
Lemma apply_transition_runs id old new n h s start :
  clock_ok h s -> penalties_ok s -> legal old new = true -> entries_ok n id old s ->
  succeeds (apply_transition id old new start) s
    (moved id old new (if decide (old = Inactive /\ new = Active) then h else n) s).
Proof.
  intros Hc Hs Hlegal He. pose proof He as (Hst & b & Hb & Hl).
  destruct (params_run h s Hc) as (ps & (_ & Hmis & Hdown & _) & _ & Hps & _).
  destruct (@penalty_run string _ Hmis) as (pm & Hpm & Hpmw). destruct (@penalty_run string _ Hdown) as (pd & Hpd & Hpdw).
  destruct old, new; try discriminate Hlegal; cbn [apply_transition];
    repeat (rewrite decide_True by done); repeat (rewrite decide_False by (intros [? ?]; discriminate));
    first
    [ eapply succeeds_step; [exact Hps|]; eapply succeeds_lift; [exact Hpm|]; by eapply tombstone_runs
    | eapply succeeds_step; [exact Hps|]; eapply succeeds_lift; [exact Hpd|]; by eapply jail_runs
    | by eapply promote_runs
    | eapply unbonding_runs; by eauto
    | by eapply index_runs
    | eapply succeeds_ret, moved_here; [done..|]; cbn in Hl |- *; tauto ].
Qed.

(** [set_validator_state] on a well-formed state. *)
Lemma set_validator_state_runs id old new n h s :
  clock_ok h s -> penalties_ok s -> legal old new = true -> entries_ok n id old s ->
  succeeds (set_validator_state id new) s (fun r s' => r = (old, new) /\ touches id s s'
    /\ exists b u ix, view s' id = relife (view s id) new b u ix
         /\ lifecycle (if decide (old = Inactive /\ new = Active) then h else n) new b u ix).
Proof.
  intros Hc Hs Hlegal He. destruct (epoch_run h s Hc) as (e & _ & Hep & _).
  unfold set_validator_state. eapply succeeds_asks; [unfold get_validator_state; by rewrite (proj1 He)|].
  unfold set_validator_state_inner. eapply succeeds_step; [exact (block_height_run h s Hc)|]. eapply succeeds_step; [exact Hep|].
  eapply (succeeds_bind _ _ _ (fun _ s1 => touches id s s1 /\ view s1 id = view s id)).
  { destruct (leaves_active_set old new); eapply succeeds_run; [done|split; [apply touches_flag|done]|done|split; [apply touches_refl|done]]. }
  intros _ s1 [T1 V1]. pose proof (touches_globals _ _ _ T1) as G1.
  eapply succeeds_bind.
  { apply apply_transition_runs; [by eapply same_globals_clock|by eapply touches_penalties|exact Hlegal|by eapply entries_ok_view]. }
  intros _ s2 (T2 & b & u & ix & V2 & L2). rewrite V1 in V2.
  eapply (succeeds_bind _ _ _ (fun _ s3 => touches id s s3 /\ view s3 id = relife (view s id) old b u ix)).
  { destruct (bool_decide (new = Disabled)); (eapply succeeds_run; [done|]); (split; [|done]);
      repeat (eapply touches_trans; [eassumption|]); [apply touches_last_disabled|apply touches_refl]. }
  intros _ s3 [T3 V3]. eapply succeeds_run; [done|]. split; [done|]. split.
  - eapply touches_trans; [exact T3|]. eapply touches_trans; [apply touches_states|apply touches_event].
  - exists b, u, ix. split; [|done]. revert V3. unfold view, relife. cbn. intros [= -> _ -> -> -> -> -> ->].
    by rewrite lookup_insert_eq.
Qed.
End TransitionRuns.

(** ** Operations on well-formed states *)

Section WellFormed.
Context `{StakeEnv}.

(** The entries of a validator that has a state. *)
Lemma view_known_state n id w old :
  view_ok n id w -> view_state w = Some old ->
  exists v b pool power rate, view_definition w = Some v /\ view_bonding w = Some b /\ view_pool w = Some pool
    /\ view_power w = Some power /\ view_rate w = Some rate
    /\ validator_identity v = id /\ rate_identity rate = id /\ streams_ok (funding_streams v)
    /\ is_u128 pool /\ 0 <= power <= MAX_VOTING_POWER /\ is_u128 (validator_exchange_rate rate)
    /\ lifecycle n old b (view_uptime w) (view_indexed w).
Proof. intros []; cbn; [done|]. intros [= ->]. eauto 20. Qed.

Lemma known_entries h n id old s :
  well_formed h n s -> states s !! id = Some old -> entries_ok (n id) id old s.
Proof.
  intros W Hst. destruct (view_known_state _ _ _ old (wf_view _ _ _ W id) Hst)
    as (v & b & pool & power & rate & _ & Hb & _ & _ & _ & _ & _ & _ & _ & _ & _ & Hl). split; [done|]. by exists b.
Qed.

Lemma view_ok_relife m n id w old new b u ix :
  view_ok n id w -> view_state w = Some old -> lifecycle m new b u ix -> view_ok m id (relife w new b u ix).
Proof. intros [] Hst Hl; [done|]. by constructor. Qed.

(** The height expected of the tracker of a validator that has just become active. *)
Definition promoted (old new : ValidatorState.t) (id : identity_key) (h : Z) (n : identity_key -> Z) : identity_key -> Z :=
  fun j => if decide (j = id /\ old = Inactive /\ new = Active) then h else n j.

(** What a transition of a validator does to a well-formed state. *)
Record transitions (id : identity_key) (old new : ValidatorState.t) (s s' : StakeState) : Prop := {
  transition_touches : touches id s s';
  transition_state : states s' !! id = Some new;
  transition_view : exists b u ix, view s' id = relife (view s id) new b u ix;
}.

Lemma transition_runs h n id old new s :
  well_formed h n s -> states s !! id = Some old -> legal old new = true ->
  succeeds (set_validator_state id new) s (fun r s' => r = (old, new) /\ transitions id old new s s'
    /\ well_formed h (promoted old new id h n) s').
Proof.
  intros W Hst Hlegal. pose proof (known_entries h n id old s W Hst) as He.
  eapply succeeds_weaken; [eapply (set_validator_state_runs id old new (n id) h s (wf_clock _ _ _ W) (wf_penalties _ _ _ W) Hlegal He)|].
  intros r s' (-> & T & b & u & ix & V & L). split; [done|]. split.
  - split; [done| |by eauto]. by injection V.
  - eapply touches_well_formed; [exact W|exact T| |].
    + intros j Hj. unfold promoted. rewrite decide_False by tauto. done.
    + rewrite V. eapply view_ok_relife; [apply (wf_view _ _ _ W)|exact Hst|]. unfold promoted.
      destruct (decide (id = id /\ _)), (decide (old = _ /\ _)); tauto.
Qed.

Lemma promoted_id old new id h n : ~ (old = Inactive /\ new = Active) -> promoted old new id h n = n \/ forall j, promoted old new id h n j = n j.
Proof. intros Hn. right. intros j. unfold promoted. rewrite decide_False by tauto. done. Qed.

Lemma well_formed_ext h n n' s : (forall id, n' id = n id) -> well_formed h n s -> well_formed h n' s.
Proof. intros Hn [V K P C]. split; [|done..]. intros id. rewrite Hn. apply V. Qed.

(** An event changes nothing. *)
Lemma well_formed_event h n e s : well_formed h n s -> well_formed h n (record_stake_event e s).
Proof. intros W. eapply (touches_well_formed h n n 0); [exact W|apply touches_event|done|apply (wf_view _ _ _ W 0)]. Qed.

Lemma view_known_definition n id w v :
  view_ok n id w -> view_definition w = Some v -> validator_identity v = id /\ is_Some (view_state w).
Proof. intros []; cbn; [done|]. intros [= <-]. eauto. Qed.

Lemma well_formed_known h n s id v :
  well_formed h n s -> definitions s !! id = Some v -> validator_identity v = id /\ is_Some (states s !! id).
Proof. intros W Hv. exact (view_known_definition _ _ _ v (wf_view _ _ _ W id) Hv). Qed.

Lemma evidence_names h n s a v :
  well_formed h n s -> get_validator_definition_by_cometbft_address a s = Some v ->
  definitions s !! validator_identity v = Some v.
Proof.
  intros W Hv. unfold get_validator_definition_by_cometbft_address, get_validator_definition_by_consensus_key in Hv.
  destruct (lookup_consensus_key_by_comet_address a s) as [k|]; [|done].
  destruct (lookup_identity_key_by_consensus_key k s) as [j|]; [|done].
  by rewrite (proj1 (well_formed_known _ _ _ _ _ W Hv)).
Qed.

(** Validators only change by being tombstoned. *)
Definition only_tombstoned (s s' : StakeState) : Prop :=
  same_globals s s' /\ forall j, view s' j = view s j
    \/ (is_Some (states s !! j) /\ states s' !! j = Some Tombstoned).

Lemma only_tombstoned_trans s1 s2 s3 : only_tombstoned s1 s2 -> only_tombstoned s2 s3 -> only_tombstoned s1 s3.
Proof.
  intros [G1 V1] [G2 V2]. split; [by eapply same_globals_trans|]. intros j.
  destruct (V1 j) as [E1|[K1 T1]], (V2 j) as [E2|[K2 T2]].
  - left. congruence.
  - right. split; [|done]. by injection E1 as _ <- _.
  - right. split; [done|]. injection E2 as _ -> _. done.
  - by right.
Qed.

Lemma only_tombstoned_event s s' e : only_tombstoned s s' -> only_tombstoned s (record_stake_event e s').
Proof. intros O. eapply only_tombstoned_trans; [exact O|]. split; [split; reflexivity|by left]. Qed.

(** Evidence either names no known validator, or tombstones one. *)
Lemma process_evidence_runs h n e s :
  well_formed h n s ->
  succeeds (ignore_error (process_evidence e)) s (fun _ s' => well_formed h n s' /\ only_tombstoned s s').
Proof.
  intros W. unfold succeeds, ignore_error, process_evidence. unfold bind at 1, asks at 1.
  destruct (get_validator_definition_by_cometbft_address (misbehaving_address e) s) as [v|] eqn:Hv; cbn [ok_or].
  2: { exists tt, s. split; [done|]. split; [exact W|]. split; [apply same_globals_refl|by left]. }
  pose proof (evidence_names _ _ _ _ _ W Hv) as Hdef. set (id := validator_identity v) in *.
  destruct (well_formed_known _ _ _ _ _ W Hdef) as [_ [old Hst]].
  destruct (transition_runs h n id old Tombstoned s W Hst ltac:(by destruct old)) as (r & s' & Hr & -> & T & W').
  assert (W'' : well_formed h n s').
  { eapply well_formed_ext; [|exact W']. intros j. unfold promoted. rewrite decide_False by (by intros (_ & _ & ?)). done. }
  assert (O : only_tombstoned s s').
  { split; [apply (touches_globals _ _ _ (transition_touches _ _ _ _ _ T))|]. intros j. destruct (decide (j = id)) as [->|Hj].
    - right. split; [by eexists|apply (transition_state _ _ _ _ _ T)].
    - left. by apply (touches_views _ _ _ (transition_touches _ _ _ _ _ T)). }
  rewrite (bind_run_ok _ _ _ _ _ Hr). pose proof (block_height_run h s' (wf_clock _ _ _ W'')) as Hh.
  destruct old; try (rewrite (bind_run_ok _ _ _ _ _ Hh)); eexists tt, _;
    (split; [reflexivity|]); (split; [by try apply well_formed_event|]); by try apply only_tombstoned_event.
Qed.

Lemma evidence_runs h n es s :
  well_formed h n s ->
  succeeds (for_each es (fun e => ignore_error (process_evidence e))) s (fun _ s' => well_formed h n s' /\ only_tombstoned s s').
Proof.
  intros W. eapply (succeeds_for_each (fun _ s' => well_formed h n s' /\ only_tombstoned s s')).
  - intros e l' s1 [W1 O1]. eapply succeeds_weaken; [by apply process_evidence_runs|].
    intros _ s2 [W2 O2]. split; [done|]. by eapply only_tombstoned_trans.
  - split; [done|]. split; [apply same_globals_refl|by left].
Qed.
End WellFormed.
