(* ===== verification/StakeUptime.v ===== *)
(** * Uptime tracking under any schedule

    The lookups of [track_uptime] are processed in the order in which they complete.  Each result
    concerns one validator, so the writes of two of them commute up to the order of their events;
    the lemmas below compute the state a round leaves behind and show that no round fails. *)

From S2P Require Import Prelude.
From S2P Require Import Num.
From S2P Require Import Asset.
From S2P Require Import DexState.
From S2P Require Import Clock.
From S2P Require Import Validator.
From S2P Require Import Rate.
From S2P Require Import RateFacts.
From S2P Require Import Stake.
From S2P Require Import StakeManager.
From S2P Require Import StakeFacts.
Import ValidatorState.
Import BondingState.
Import StakeRead.
Import StakeWrite.
Import ConsensusIndex.
Import ValidatorManager.
Import ValidatorUptimeTracker.

(** ** States that differ in the order of their events only *)

Definition same_but_events (s s' : StakeState) : Prop :=
  stake_events s ≡ₚ stake_events s' /\ set_stake_events [] s = set_stake_events [] s'.

#[global] Instance same_but_events_preorder : PreOrder same_but_events.
Proof.
  split; [by intros s|]. intros s1 s2 s3 [P1 E1] [P2 E2]. split; [by rewrite P1|congruence].
Qed.

(** A function that reads no events and appends some. *)
Definition appends (f : StakeState -> StakeState) (evs : StakeState -> list StakeEvent) : Prop :=
  forall s, set_stake_events [] (f s) = set_stake_events [] (f (set_stake_events [] s))
    /\ stake_events (f s) = stake_events s ++ evs (set_stake_events [] s).

Lemma appends_proper f evs : appends f evs -> Proper (same_but_events ==> same_but_events) f.
Proof.
  intros Hf s s' [P E]. destruct (Hf s) as [E1 V1], (Hf s') as [E2 V2]. split.
  - by rewrite V1, V2, P, E.
  - by rewrite E1, E2, E.
Qed.

Lemma appends_commute f g fe ge s :
  appends f fe -> appends g ge -> set_stake_events [] (f (g s)) = set_stake_events [] (g (f s)) ->
  fe (set_stake_events [] (g s)) = fe (set_stake_events [] s) -> ge (set_stake_events [] (f s)) = ge (set_stake_events [] s) ->
  same_but_events (f (g s)) (g (f s)).
Proof.
  intros Hf Hg E Ef Eg. split; [|done]. rewrite (proj2 (Hf (g s))), (proj2 (Hg (f s))), (proj2 (Hf s)), (proj2 (Hg s)).
  rewrite Ef, Eg, <- !app_assoc. apply Permutation_app_head, Permutation_app_comm.
Qed.

(** ** Writes to the fields that tracking concerns *)

Record Patch := mkPatch {
  on_the_clock : Clock -> Clock;
  on_penalties : gmap (identity_key * Z) Z -> gmap (identity_key * Z) Z;
  on_bonding : gmap identity_key BondingState.t -> gmap identity_key BondingState.t;
  on_states : gmap identity_key ValidatorState.t -> gmap identity_key ValidatorState.t;
  on_uptimes : gmap identity_key Uptime.t -> gmap identity_key Uptime.t;
  emits : gmap (identity_key * Z) Z -> list StakeEvent;
}.

Definition patch (p : Patch) (s : StakeState) : StakeState :=
  set_stake_events (stake_events s ++ emits p (penalties s))
    (set_clock (on_the_clock p (clock s)) (set_penalties (on_penalties p (penalties s))
      (set_bonding_states (on_bonding p (bonding_states s)) (set_states (on_states p (states s))
        (set_uptimes (on_uptimes p (uptimes s)) s))))).

Definition commute {A} (f g : A -> A) : Prop := forall x, f (g x) = g (f x).

Lemma patch_appends p : appends (patch p) (fun s => emits p (penalties s)).
Proof. done. Qed.

(** The fields of a patched state, with its events forgotten. *)
Definition patched (c : Clock) p b st u (s : StakeState) : StakeState :=
  set_clock c (set_penalties p (set_bonding_states b (set_states st (set_uptimes u (set_stake_events [] s))))).

Lemma patch_fields p s :
  set_stake_events [] (patch p s)
    = patched (on_the_clock p (clock s)) (on_penalties p (penalties s)) (on_bonding p (bonding_states s))
        (on_states p (states s)) (on_uptimes p (uptimes s)) s.
Proof. destruct s. reflexivity. Qed.

Lemma patched_twice c p b st u q s : patched c p b st u (patch q s) = patched c p b st u s.
Proof. destruct s. reflexivity. Qed.

Lemma patch_projections p s :
  clock (patch p s) = on_the_clock p (clock s) /\ penalties (patch p s) = on_penalties p (penalties s)
  /\ bonding_states (patch p s) = on_bonding p (bonding_states s) /\ states (patch p s) = on_states p (states s)
  /\ uptimes (patch p s) = on_uptimes p (uptimes s).
Proof. destruct s. done. Qed.

Lemma patches_commute p q s :
  commute (on_the_clock p) (on_the_clock q) -> commute (on_penalties p) (on_penalties q) ->
  commute (on_bonding p) (on_bonding q) -> commute (on_states p) (on_states q) -> commute (on_uptimes p) (on_uptimes q) ->
  (forall m, emits p (on_penalties q m) = emits p m) -> (forall m, emits q (on_penalties p m) = emits q m) ->
  same_but_events (patch p (patch q s)) (patch q (patch p s)).
Proof.
  intros C1 C2 C3 C4 C5 E1 E2. eapply appends_commute; [apply patch_appends..| | |].
  - rewrite !patch_fields, !patched_twice. destruct (patch_projections p s) as (-> & -> & -> & -> & ->).
    destruct (patch_projections q s) as (-> & -> & -> & -> & ->). by rewrite C1, C2, C3, C4, C5.
  - apply E1.
  - apply E2.
Qed.

Lemma commute_id_l {A} (f : A -> A) : commute id f.
Proof. done. Qed.
Lemma commute_id_r {A} (f : A -> A) : commute f id.
Proof. done. Qed.
Lemma commute_self {A} (f : A -> A) : commute f f.
Proof. done. Qed.
Lemma commute_insert `{Countable K} {A} (i j : K) (x y : A) : i <> j -> commute (insert (M := gmap K A) i x) (insert j y).
Proof. intros Hne m. by apply insert_insert_ne. Qed.

Definition info_id (info : ValidatorInformation) : identity_key := info.1.1.
Definition info_key (info : ValidatorInformation) : consensus_key := info.1.2.
Definition info_uptime (info : ValidatorInformation) : Uptime.t := info.2.

Section Rounds.
Context `{StakeEnv} (votes : gmap Z bool) (ps : StakeParameters) (h : Z) (e : Epoch) (pd : Z).

(** ** The state after one round *)

Definition voted (ck : consensus_key) : bool := default (h =? 1) (votes !! validator_address ck).

Definition marked (info : ValidatorInformation) : Uptime.t :=
  Uptime.mk h (<[Uptime.slot (info_uptime info) h := voted (info_key info)]> (Uptime.signatures (info_uptime info))).

Definition missed_too_many (info : ValidatorInformation) : bool :=
  missed_blocks_maximum ps <=? Uptime.num_missed_blocks (marked info).

Definition missed_event (info : ValidatorInformation) : list StakeEvent :=
  if voted (info_key info) then [] else [EventValidatorMissedBlock (info_id info)].

Definition compounded (id : identity_key) (m : gmap (identity_key * Z) Z) : Z :=
  default U128x128.B (m !! (id, index e)) * pd / U128x128.B.

Definition unbonding : BondingState.t := Unbonding (saturating_add 64 (start_height e) (unbonding_delay ps)).

Definition round (info : ValidatorInformation) : Patch :=
  let id := info_id info in
  if missed_too_many info then
    mkPatch EpochManager.set_end_epoch_flag (fun m => <[(id, index e) := compounded id m]> m)
      (insert id unbonding) (insert id Jailed) Datatypes.id
      (fun m => missed_event info ++ [EventSlashingPenaltyApplied id (index e) (compounded id m);
        EventValidatorBondingStateChange id unbonding; EventValidatorStateChange id Jailed])
  else
    mkPatch Datatypes.id Datatypes.id Datatypes.id Datatypes.id (insert id (marked info)) (fun _ => missed_event info).

Lemma compounded_insert i j q m : i <> j -> compounded i (<[(j, index e) := q]> m) = compounded i m.
Proof. intros Hne. unfold compounded. by rewrite lookup_insert_ne by congruence. Qed.

Lemma rounds_commute i j s :
  info_id i <> info_id j -> same_but_events (patch (round i) (patch (round j) s)) (patch (round j) (patch (round i) s)).
Proof.
  intros Hne. apply patches_commute; unfold round; destruct (missed_too_many i), (missed_too_many j); cbn;
    try apply commute_id_l; try apply commute_id_r; try apply commute_self; try (by apply commute_insert);
    try (intros m; by rewrite compounded_insert by congruence); try done.
  intros m. rewrite !compounded_insert by congruence. apply insert_insert_ne. congruence.
Qed.

(** *** Runs *)

Context (Hpd : @Penalty.from_bps_squared string (slashing_penalty_downtime ps) = Ok pd).

Definition jailed (id : identity_key) (s : StakeState) : StakeState :=
  let s2 := penalized id e pd (set_clock (EpochManager.set_end_epoch_flag (clock s)) s) in
  let s3 := record_stake_event (EventValidatorBondingStateChange id unbonding)
              (set_bonding_states (<[id := unbonding]> (bonding_states s2)) s2) in
  record_stake_event (EventValidatorStateChange id Jailed) (set_states (<[id := Jailed]> (states s3)) s3).

Lemma jail_run id s :
  clock_ok h s -> penalties_ok s -> Penalty.wf pd -> stake_params s = Some ps ->
  get_current_epoch s = (Ok e, s) -> states s !! id = Some Active -> bonding_states s !! id = Some Bonded ->
  set_validator_state id Jailed s = (Ok (Active, Jailed), jailed id s).
Proof.
  intros Hc Hs Hp Hps He Hst Hb. set (s1 := set_clock (EpochManager.set_end_epoch_flag (clock s)) s).
  assert (He' : get_epoch_by_height h s = (Ok e, s)).
  { destruct (epoch_run h s Hc) as (e' & _ & H1 & H2). rewrite H1. rewrite He in H2. by injection H2 as ->. }
  assert (He1 : get_current_epoch s1 = (Ok e, s1)).
  { unfold get_current_epoch, asks, EpochRead.get_current_epoch, EpochRead.get_block_height in *. injection He as He. cbn. by rewrite He. }
  pose proof (touches_flag id s) as T1. fold s1 in T1.
  pose proof (same_globals_clock h _ _ (touches_globals _ _ _ T1) Hc) as Hc1.
  destruct (record_penalty_run id pd h s1 e Hc1 Hs Hp He1) as [Hr T2]. set (s2 := penalized id e pd s1) in *.
  pose proof (same_globals_clock h _ _ (touches_globals _ _ _ T2) Hc1) as Hc2.
  unfold set_validator_state. unfold bind at 1, asks at 1. unfold get_validator_state at 1. rewrite Hst. cbn [ok_or].
  unfold set_validator_state_inner.
  rewrite (bind_run_ok _ _ _ _ _ (block_height_run h s Hc)), (bind_run_ok _ _ _ _ _ He').
  cbn [leaves_active_set when]. unfold on_clock. rewrite bind_modify. fold s1.
  cbn [apply_transition].
  assert (Hap : bind get_stake_params (fun params => penalty <- lift (Penalty.from_bps_squared (slashing_penalty_downtime params));;
      Slashing.record_slashing_penalty id penalty;;; begin_unbonding id (start_height e)) s1
    = set_validator_bonding_state id unbonding s2).
  { unfold get_stake_params. unfold bind at 1, asks at 1. change (stake_params s1) with (stake_params s). rewrite Hps. cbn [ok_or].
    rewrite Hpd, bind_lift_ok, (bind_run_ok _ _ _ _ _ Hr). unfold begin_unbonding, compute_unbonding_height, get_validator_bonding_state.
    unfold bind at 1. rewrite bind_gets. change (bonding_states s2 !! id) with (bonding_states s !! id). rewrite Hb.
    unfold get_stake_params, bind, asks. change (stake_params s2) with (stake_params s). rewrite Hps. reflexivity. }
  rewrite (bind_run_ok _ _ _ _ _ (eq_trans Hap (bonding_run id unbonding s2))). reflexivity.
Qed.

Lemma mark_run info :
  Uptime.as_of_block_height (info_uptime info) = h - 1 -> h < 2 ^ 64 -> (0 < length (Uptime.signatures (info_uptime info)))%nat ->
  Uptime.mark_height_as_signed h (voted (info_key info)) (info_uptime info) = Ok (marked info).
Proof.
  intros Ha Hh Hl. unfold Uptime.mark_height_as_signed. rewrite Ha, plain_add_run by lia. cbn [outcome_bind].
  rewrite (proj2 (Z.eqb_eq _ _)) by lia. cbn [negb]. by rewrite (proj2 (Z.eqb_neq _ _)) by lia.
Qed.

(** A round does what its patch says. *)
Lemma round_run info s :
  clock_ok h s -> penalties_ok s -> Penalty.wf pd -> stake_params s = Some ps -> get_current_epoch s = (Ok e, s) ->
  states s !! info_id info = Some Active -> bonding_states s !! info_id info = Some Bonded ->
  Uptime.as_of_block_height (info_uptime info) = h - 1 -> (0 < length (Uptime.signatures (info_uptime info)))%nat ->
  process_validator_uptime info votes ps h s = (Ok tt, patch (round info) s).
Proof.
  intros Hc Hs Hp Hps He Hst Hb Ha Hl. pose proof (clock_range _ _ Hc) as Hh.
  destruct info as [[id ck] u]. cbn [info_id info_key info_uptime fst snd] in *. unfold process_validator_uptime.
  pose proof (mark_run (id, ck, u) Ha ltac:(lia) Hl) as Hm. cbn [info_id info_key info_uptime fst snd] in Hm.
  fold (voted ck). set (s1 := if voted ck then s else record_stake_event (EventValidatorMissedBlock id) s).
  assert (H1 : @when _ string (negb (voted ck)) (modify (record_stake_event (EventValidatorMissedBlock id))) s = (Ok tt, s1)) by (subst s1; by destruct (voted ck)).
  assert (T1 : touches id s s1) by (subst s1; destruct (voted ck); [apply touches_refl|apply touches_event]).
  assert (He1 : get_current_epoch s1 = (Ok e, s1)).
  { unfold get_current_epoch, asks in *. injection He as He. subst s1. destruct (voted ck); cbn; by rewrite He. }
  assert (V1 : penalties s1 = penalties s /\ stake_params s1 = stake_params s /\ states s1 = states s /\ bonding_states s1 = bonding_states s)
    by (subst s1; by destruct (voted ck)).
  rewrite (bind_run_ok _ _ _ _ _ H1), Hm, bind_lift_ok. fold (missed_too_many (id, ck, u)). unfold round.
  destruct (missed_too_many (id, ck, u)) eqn:Hmiss.
  - destruct V1 as (V1 & V2 & V3 & V4).
    assert (Hj : set_validator_state id Jailed s1 = (Ok (Active, Jailed), jailed id s1)).
    { apply jail_run; [eapply same_globals_clock; [apply T1|exact Hc]|unfold penalties_ok; by rewrite V1|done|congruence|done|congruence|congruence]. }
    rewrite (bind_run_ok _ _ _ _ _ Hj). unfold ret. f_equal. subst s1. clear. unfold missed_event. cbn [info_id info_key fst snd].
    destruct s as [f1 f2 f3 f4 f5 f6 f7 f8 f9 f10 f11 f12 f13
       f14 f15 f16 f17 f18 f19 f20 f21 f22 f23 f24 f25], (voted ck); cbv [jailed penalized record_stake_event patch compounded set_clock set_penalties set_bonding_states
      set_states set_stake_events clock penalties bonding_states states stake_events on_the_clock on_penalties on_bonding on_states on_uptimes emits set_uptimes uptimes Datatypes.id
      stake_params definitions pool_sizes powers current_rates previous_rates last_disabled consensus_set_index identity_by_consensus_key consensus_key_by_address delegation_tally delegation_changes base_rate previous_base_rate funding_queue issuance_budget consensus_keys validator_updates denoms];
      f_equal; by rewrite <- !app_assoc.
  - unfold set_validator_uptime, modify. f_equal. subst s1. clear. unfold missed_event. cbn [info_id info_key fst snd].
    destruct s, (voted ck); [|reflexivity]. unfold patch. cbn [emits on_the_clock on_penalties on_bonding on_states on_uptimes]. cbn. by rewrite app_nil_r.
Qed.

Lemma round_touches info s : Penalty.wf pd -> touches (info_id info) s (patch (round info) s).
Proof.
  intros Hp. split.
  - unfold round. by destruct (missed_too_many info); split.
  - intros j Hj. destruct (patch_projections (round info) s) as (_ & _ & Hb & Hst & Hu). unfold view. rewrite Hb, Hst, Hu.
    unfold round. destruct (missed_too_many info); cbn; unfold Datatypes.id; by rewrite ?lookup_insert_ne by done.
  - intros Hs. destruct (patch_projections (round info) s) as (_ & Hq & _). unfold penalties_ok. rewrite Hq.
    unfold round. destruct (missed_too_many info); cbn [on_penalties]; [|done]. apply map_Forall_insert_2; [|done].
    destruct (@compound_run string _ pd (recorded_wf (info_id info) (index e) s Hs) Hp) as (_ & Hw & _). exact Hw.
Qed.

Lemma round_view info s :
  view_ok (h - 1) (info_id info) (view s (info_id info)) -> states s !! info_id info = Some Active ->
  uptimes s !! info_id info = Some (info_uptime info) -> view_ok h (info_id info) (view (patch (round info) s) (info_id info)).
Proof.
  intros Hv Hst Hu. set (id := info_id info) in *.
  destruct (patch_projections (round info) s) as (_ & _ & Eb & Est & Eu).
  destruct (view_known_state _ _ _ _ Hv Hst) as (v & b & pool & power & rate & _ & Hb & _ & _ & _ & _ & _ & _ & _ & _ & _ & -> & Hix & Hup).
  destruct (missed_too_many info) eqn:Hm.
  - assert (E : view (patch (round info) s) id = relife (view s id) Jailed unbonding (uptimes s !! id) (bool_decide (id ∈ consensus_set_index s))).
    { unfold view, relife. rewrite Eb, Est, Eu. unfold round. rewrite Hm. cbn. by rewrite !lookup_insert_eq. }
    rewrite E. by eapply view_ok_relife.
  - assert (E : view (patch (round info) s) id = relife (view s id) Active Bonded (Some (marked info)) true).
    { unfold view, relife. rewrite Eb, Est, Eu. unfold round. rewrite Hm. cbn in Hb, Hix |- *. unfold Datatypes.id.
      by rewrite lookup_insert_eq, Hst, Hb, Hix. }
    rewrite E. eapply view_ok_relife; [exact Hv|exact Hst|]. cbn. split_and!; [done|done|]. eexists. split; [done|]. split; [done|].
    unfold marked. cbn. rewrite length_insert. destruct Hup as (u & Hup & _ & Hl). cbn in Hup. rewrite Hu in Hup. by injection Hup as ->.
Qed.

(** ** The loop *)

Lemma view_ok_height n n' id w :
  view_ok n id w -> (view_state w = Some Active -> view_indexed w = true -> n' = n) -> view_ok n' id w.
Proof.
  intros [|v st b pool power rate up ix Hid Hr Hf Hpo Hpw Hx Hl] Hn; constructor; [done..|].
  destruct st; try exact Hl. cbn in Hn, Hl |- *. destruct Hl as (-> & -> & Hl). by rewrite Hn.
Qed.

(** What a task contributes, given the state it was spawned in. *)
Definition contribution (s0 : StakeState) (id : identity_key) (s : StakeState) : StakeState :=
  match spawn_validator_lookup id s0 with
  | Ok (Some info) => patch (round info) s
  | _ => s
  end.

(** Trackers of the validators still to be processed stand one block back. *)
Definition pending (rest : list identity_key) (j : identity_key) : Z := if decide (j ∈ rest) then h - 1 else h.

Lemma lookup_run n id s st :
  view_ok n id (view s id) -> states s !! id = Some st ->
  (st <> Active /\ spawn_validator_lookup id s = Ok None)
  \/ (st = Active /\ exists info, spawn_validator_lookup id s = Ok (Some info) /\ info_id info = id
       /\ uptimes s !! id = Some (info_uptime info) /\ bonding_states s !! id = Some Bonded
       /\ Uptime.as_of_block_height (info_uptime info) = n /\ (0 < length (Uptime.signatures (info_uptime info)))%nat).
Proof.
  intros Hv Hst. unfold spawn_validator_lookup, get_validator_state. rewrite Hst. cbn [ok_or outcome_bind].
  destruct (decide (st = Active)) as [->|]; [right|by left]. split; [done|].
  destruct (view_known_state _ _ _ _ Hv Hst) as (v & b & pool & power & rate & Hd & Hb & _ & _ & _ & _ & _ & _ & _ & _ & _ & -> & _ & u & Hu & Ha & Hl).
  unfold view in Hd, Hb, Hu. cbn in Hd, Hb, Hu. unfold fetch_validator_consensus_key, get_validator_definition, get_validator_uptime.
  rewrite Hd, Hu. cbn [fmap option_fmap option_map ok_or outcome_bind]. exists (id, validator_consensus_key v, u). done.
Qed.

Lemma contributions_run (s0 : StakeState) (Hp : Penalty.wf pd) : forall rest s,
  NoDup rest -> well_formed h (pending rest) s -> stake_params s = Some ps -> get_current_epoch s = (Ok e, s) ->
  (forall j, j ∈ rest -> view s j = view s0 j /\ is_Some (states s0 !! j)) ->
  let s' := foldl (fun s id => contribution s0 id s) s rest in
  for_each ((fun id => spawn_validator_lookup id s0) <$> rest) (process_lookup votes ps h) s = (Ok tt, s')
  /\ well_formed h (fun _ => h) s' /\ same_globals s s'.
Proof.
  induction rest as [|id rest IH]; intros s Hnd W Hps He Hv; cbn [foldl fmap list_fmap for_each].
  { split; [done|]. split; [|apply same_globals_refl]. eapply well_formed_ext; [|exact W]. intros j. unfold pending. by rewrite decide_False by set_solver. }
  apply NoDup_cons in Hnd as [Hid Hnd]. destruct (Hv id ltac:(set_solver)) as [Ev [st Hst]].
  pose proof (wf_view _ _ _ W id) as Vs. unfold pending in Vs. rewrite decide_True in Vs by set_solver.
  assert (Hrest : forall s1, touches id s s1 -> view_ok h id (view s1 id) ->
    well_formed h (pending rest) s1 /\ stake_params s1 = Some ps /\ get_current_epoch s1 = (Ok e, s1)
    /\ forall j, j ∈ rest -> view s1 j = view s0 j /\ is_Some (states s0 !! j)).
  { intros s1 T V1. pose proof (touches_globals _ _ _ T) as G. split_and!.
    - eapply touches_well_formed; [exact W|exact T| |].
      + intros j Hj. unfold pending. destruct (decide (j ∈ rest)), (decide (j ∈ id :: rest)); set_solver.
      + unfold pending. by rewrite decide_False by done.
    - by rewrite (same_params _ _ G).
    - unfold get_current_epoch, asks, EpochRead.get_current_epoch, EpochRead.get_block_height in *. injection He as He.
      by rewrite (same_height _ _ G), (same_epochs _ _ G), He.
    - intros j Hj. destruct (Hv j ltac:(set_solver)) as [E1 E2]. split; [|done]. rewrite <- E1.
      apply (touches_views _ _ _ T). set_solver. }
  rewrite Ev in Vs. unfold contribution at 2 4 6. unfold process_lookup at 1.
  destruct (lookup_run (h - 1) id s0 st Vs Hst) as [[Hna Hl]|[-> (info & Hl & Hinfo & Hu & Hb & Ha & Hlen)]]; rewrite Hl.
  - destruct (Hrest s (touches_refl id s)) as (W1 & P1 & E1 & V1).
    { rewrite Ev. eapply view_ok_height; [exact Vs|]. cbn. congruence. }
    destruct (IH s Hnd W1 P1 E1 V1) as (R & Wf & G). split; [|done]. rewrite bind_lift_ok. exact R.
  - assert (Hs : states s !! id = Some Active /\ bonding_states s !! id = Some Bonded /\ uptimes s !! id = Some (info_uptime info)).
    { unfold view in Ev. injection Ev as _ -> -> _ _ _ -> _. done. }
    destruct Hs as (Hs1 & Hs2 & Hs3). rewrite <- Ev in Vs. rewrite <- Hinfo in Vs, Hs1, Hs2, Hs3.
    pose proof (round_touches info s Hp) as T. pose proof (round_view info s Vs Hs1 Hs3) as V. rewrite Hinfo in T, V.
    destruct (Hrest _ T V) as (W1 & P1 & E1 & V1). destruct (IH _ Hnd W1 P1 E1 V1) as (R & Wf & G). split_and!.
    + rewrite bind_lift_ok. rewrite (bind_run_ok _ _ _ _ _ (round_run info s (wf_clock _ _ _ W) (wf_penalties _ _ _ W) Hp Hps He Hs1 Hs2 Ha Hlen)). exact R.
    + exact Wf.
    + eapply same_globals_trans; [apply (touches_globals _ _ _ T)|exact G].
Qed.
End Rounds.

(** ** Tracking, under any schedule *)

Lemma lookup_names `{StakeEnv} id s info : spawn_validator_lookup id s = Ok (Some info) -> info_id info = id.
Proof.
  unfold spawn_validator_lookup. intros Hl. apply outcome_bind_ok in Hl as (st & _ & Hl). case_decide; [|done].
  apply outcome_bind_ok in Hl as (ck & _ & Hl). apply outcome_bind_ok in Hl as (u & _ & Hl). by injection Hl as <-.
Qed.

Section Commuting.
Context {A S} (R : relation S) `{!PreOrder R} (f : S -> A -> S).
Context (Hf : forall x, Proper (R ==> R) (fun s => f s x)) (Hc : forall x y s, x <> y -> R (f (f s x) y) (f (f s y) x)).

Lemma foldl_proper l s s' : R s s' -> R (foldl f s l) (foldl f s' l).
Proof. revert s s'. induction l as [|x l IH]; intros s s' Hs; [done|]. cbn. apply IH. by apply (Hf x). Qed.

Lemma foldl_commuting l l' : l ≡ₚ l' -> NoDup l -> forall s, R (foldl f s l) (foldl f s l').
Proof.
  induction 1 as [|x l l' _ IH|x y l|l1 l2 l3 P1 IH1 P2 IH2]; intros Hnd s; cbn.
  - done.
  - apply NoDup_cons in Hnd as [_ Hnd]. by apply IH.
  - apply NoDup_cons in Hnd as [Hx _]. apply foldl_proper, Hc. set_solver.
  - transitivity (foldl f s l2); [by apply IH1|]. apply IH2. by rewrite <- P1.
Qed.
End Commuting.

Section Tracking.
Context `{StakeEnv}.

Lemma consensus_set_perm s : get_consensus_set s ≡ₚ elements (consensus_set_index s).
Proof. unfold get_consensus_set. apply merge_sort_Permutation. Qed.

Lemma consensus_set_NoDup s : NoDup (get_consensus_set s).
Proof. rewrite consensus_set_perm. apply NoDup_elements. Qed.

Lemma elem_of_consensus_set s id : id ∈ get_consensus_set s <-> id ∈ consensus_set_index s.
Proof. rewrite consensus_set_perm. apply elem_of_elements. Qed.

(** A schedule only reorders the tasks. *)
Definition fair (schedule : list identity_key -> list identity_key) : Prop := forall l, schedule l ≡ₚ l.

Lemma indexed_known h n s id : well_formed h n s -> id ∈ consensus_set_index s -> is_Some (states s !! id).
Proof.
  intros W Hid. pose proof (wf_view _ _ _ W id) as V. unfold view in V. rewrite bool_decide_eq_true_2 in V by done.
  inversion V. by eexists.
Qed.

Lemma contributions_commute votes ps h e pd s0 l l' :
  l ≡ₚ l' -> NoDup l ->
  same_but_events (foldl (fun s id => contribution votes ps h e pd s0 id s) s0 l)
                  (foldl (fun s id => contribution votes ps h e pd s0 id s) s0 l').
Proof.
  intros Hp Hnd. apply foldl_commuting; [apply _| | |done|done].
  - intros id. unfold contribution. destruct (spawn_validator_lookup id s0) as [[info|]|?|]; try (by intros ? ?).
    eapply appends_proper, patch_appends.
  - intros x y s Hxy. unfold contribution. destruct (spawn_validator_lookup x s0) as [[i|]|?|] eqn:Hx; try done.
    destruct (spawn_validator_lookup y s0) as [[j|]|?|] eqn:Hy; try done.
    apply rounds_commute. rewrite (lookup_names _ _ _ Hx), (lookup_names _ _ _ Hy). congruence.
Qed.

(** Tracking returns, and what it returns is the same under every schedule, but for the order of the
    events. *)
Lemma track_uptime_runs h votes s :
  well_formed h (fun _ => h - 1) s ->
  exists final, forall schedule, fair schedule -> exists s', track_uptime schedule votes s = (Ok tt, s')
    /\ well_formed h (fun _ => h) s' /\ same_globals s s' /\ same_but_events final s'.
Proof.
  intros W. pose proof (wf_clock _ _ _ W) as Hc. destruct (params_run h s Hc) as (ps & (_ & _ & Hdown & _) & Hps & Hpr & _).
  destruct (@penalty_run string _ Hdown) as (pd & Hpd & Hpw). destruct (epoch_run h s Hc) as (e & _ & _ & He).
  set (after l := foldl (fun s' id => contribution (collect_votes votes) ps h e pd s id s') s l).
  exists (after (get_consensus_set s)). intros schedule Hf. exists (after (schedule (get_consensus_set s))).
  assert (Hrun : for_each ((fun id => spawn_validator_lookup id s) <$> schedule (get_consensus_set s))
      (process_lookup (collect_votes votes) ps h) s = (Ok tt, after (schedule (get_consensus_set s)))
    /\ well_formed h (fun _ => h) (after (schedule (get_consensus_set s)))
    /\ same_globals s (after (schedule (get_consensus_set s)))).
  { apply (contributions_run (collect_votes votes) ps h e pd Hpd s Hpw); [|..|done|done|].
    - rewrite (Hf _). apply consensus_set_NoDup.
    - destruct W as [V K P C]. split; [|done..]. intros id. eapply view_ok_height; [apply V|]. intros _ Hix.
      unfold pending. rewrite decide_True; [done|]. rewrite (Hf _), elem_of_consensus_set. by eapply bool_decide_eq_true_1.
    - intros j Hj. split; [done|]. rewrite (Hf _), elem_of_consensus_set in Hj. by eapply indexed_known. }
  destruct Hrun as (Hrun & W' & G). split_and!; [|done|done|].
  - unfold track_uptime. rewrite (bind_run_ok _ _ _ _ _ (block_height_run h s Hc)), (bind_run_ok _ _ _ _ _ Hpr), bind_gets.
    exact Hrun.
  - apply contributions_commute; [by rewrite (Hf _)|apply consensus_set_NoDup].
Qed.
End Tracking.
