(* ===== verification/StakeEpochFacts.v ===== *)
(** * Facts about epochs

    Processing the validators at the end of an epoch keeps the state well formed, and moves
    validators only between the states Defined, Inactive and Active. *)

From S2P Require Import Prelude.
From S2P Require Import Num.
From S2P Require Import Asset.
From S2P Require Import DexState.
From S2P Require Import Clock.
From S2P Require Import Validator.
From S2P Require Import Rate.
From S2P Require Import RateFacts.
From S2P Require Import Stake.
From S2P Require Import StakeManager.
From S2P Require Import StakeEpoch.
From S2P Require Import StakeFacts.
From S2P Require Import StakeUptime.
Import ValidatorState.
Import BondingState.
Import StakeRead.
Import StakeWrite.
Import ConsensusIndex.
Import ValidatorManager.
Import EpochHandler.

(** ** Widths of the results *)

Lemma to_amount_width {E} x y : U128x128.wf x -> @to_amount E x = Ok y -> is_u128 y.
Proof.
  rewrite to_amount_run. intros [Hx0 Hx] [= <-]. unfold in_width. rewrite U128x128.U256_B in Hx. pose proof U128x128.B_pos.
  split; [by apply Z.div_pos|]. fold U128x128.B. apply Z.div_lt_upper_bound; [done|]. exact Hx.
Qed.

Lemma unbonded_amount_width {E} r d y :
  is_u128 (validator_exchange_rate r) -> is_u128 d -> @Rate.unbonded_amount E r d = Ok y -> is_u128 y.
Proof.
  intros Hr Hd Hy. unfold Rate.unbonded_amount in Hy. rewrite descale_run in Hy by done. cbn [outcome_bind] in Hy.
  apply outcome_bind_ok in Hy as (m & Hm & Hy). apply (proj1 (expect_ok_ok _ _)) in Hm.
  eapply to_amount_width; [|exact Hy]. eapply U128x128.checked_mul_wf; [by apply U128x128.wf_from_uint| |exact Hm]. by apply scaled_wf.
Qed.

Lemma checked_add_wf x y z : U128x128.wf x -> U128x128.wf y -> U128x128.checked_add x y = Ok z -> U128x128.wf z.
Proof.
  intros [Hx _] [Hy _]. unfold U128x128.checked_add. intros Hz. apply ok_or_ok, checked_add_some in Hz as [-> Hz].
  split; [lia|exact Hz].
Qed.

Lemma checked_sub_wf x y z : U128x128.wf x -> U128x128.wf y -> U128x128.checked_sub x y = Ok z -> U128x128.wf z.
Proof.
  intros [Hx Hx'] [Hy _]. unfold U128x128.checked_sub. intros Hz. apply ok_or_ok, checked_sub_some in Hz as [-> Hz].
  split; lia.
Qed.

Lemma descale_width {E} x y : @descale E x = Ok y -> 0 <= x -> U128x128.wf y.
Proof.
  unfold descale. intros Hy Hx. apply (proj1 (expect_ok_ok _ _)) in Hy. eapply U128x128.checked_div_wf; [|apply factor_wf|exact Hy].
  rewrite U128x128.from_uint_eq. pose proof U128x128.B_pos. nia.
Qed.

(** A rate stays that of its validator, and in 128 bits. *)
Lemma slash_width {E} r p r' :
  is_u128 (validator_exchange_rate r) -> Penalty.wf p -> @Rate.slash E r p = Ok r' ->
  rate_identity r' = rate_identity r /\ is_u128 (validator_exchange_rate r').
Proof.
  intros Hr Hp Hs. destruct (@slash_run E r p Hr Hp) as (x & Hx & _ & Hb). rewrite Hx in Hs. injection Hs as <-.
  split; [done|]. unfold in_width in *. cbn. lia.
Qed.

Lemma next_epoch_width {E} r base streams state r' :
  is_u128 (validator_exchange_rate r) -> 0 <= base_reward_rate base -> streams_ok streams ->
  @Rate.next_epoch E r base streams state = Ok r' ->
  rate_identity r' = rate_identity r /\ is_u128 (validator_exchange_rate r').
Proof.
  intros Hr Hb [Hst Hsum] Hn. unfold Rate.next_epoch in Hn. case_decide; [|by injection Hn as <-].
  rewrite FundingStreams.commission_run in Hn by (done || lia). cbn [outcome_bind] in Hn. set (c := list_sum _) in *.
  assert (0 <= c) by (apply list_sum_nonneg, Forall_fmap; exact Hst).
  apply outcome_bind_ok in Hn as ([reward exchange] & Hrun & Hn). injection Hn as <-. split; [done|]. cbn.
  unfold Rate.next_rates in Hrun. destruct (10000 <? c); [done|]. inv_outcome. simplify_eq.
  assert (W0 : U128x128.wf a0) by (by eapply descale_width).
  assert (W1 : U128x128.wf a1) by (eapply descale_width; [exact Hrun2|apply Hr]).
  assert (Wa : U128x128.wf a).
  { eapply U128x128.checked_div_wf; [|apply (U128x128.wf_from_uint 10000); by_computation|exact Hrun0].
    rewrite U128x128.from_uint_eq. pose proof U128x128.B_pos. nia. }
  pose proof (checked_sub_wf _ _ _ (U128x128.wf_from_uint 1 ltac:(by_computation)) Wa Hrun3) as W2.
  pose proof (U128x128.checked_mul_wf _ _ _ W0 W2 Hrun4) as W3.
  pose proof (checked_add_wf _ _ _ (U128x128.wf_from_uint 1 ltac:(by_computation)) W3 Hrun5) as W4.
  pose proof (U128x128.checked_mul_wf _ _ _ W1 W4 Hrun6) as W5.
  eapply to_amount_width; [|exact Hrun10]. exact (U128x128.checked_mul_wf _ _ _ W5 factor_wf Hrun9).
Qed.

(** ** Writes to the entries of one validator *)

Section Entries.
Context `{StakeEnv} (h : Z) (n : identity_key -> Z).

Lemma view_known_inv m id w old :
  view_ok m id w -> view_state w = Some old ->
  exists v b pool power rate u ix, w = mkView (Some v) (Some old) (Some b) (Some pool) (Some power) (Some rate) u ix
    /\ validator_identity v = id /\ rate_identity rate = id /\ streams_ok (funding_streams v)
    /\ is_u128 pool /\ 0 <= power <= MAX_VOTING_POWER /\ is_u128 (validator_exchange_rate rate) /\ lifecycle m old b u ix.
Proof. intros []; cbn; [done|]. intros [= ->]. do 7 eexists. split; [reflexivity|auto 10]. Qed.

(** Replacing one of the numbers of a known validator. *)
Lemma well_formed_entry id s s' old :
  well_formed h n s -> states s !! id = Some old -> touches id s s' ->
  (forall v b pool power rate u ix,
     view s id = mkView (Some v) (Some old) (Some b) (Some pool) (Some power) (Some rate) u ix ->
     exists pool' power' rate', view s' id = mkView (Some v) (Some old) (Some b) (Some pool') (Some power') (Some rate') u ix
       /\ (is_u128 pool -> is_u128 pool') /\ (0 <= power <= MAX_VOTING_POWER -> 0 <= power' <= MAX_VOTING_POWER)
       /\ (rate_identity rate = id -> is_u128 (validator_exchange_rate rate) ->
           rate_identity rate' = id /\ is_u128 (validator_exchange_rate rate'))) ->
  well_formed h n s'.
Proof.
  intros W Hst T Hw. eapply touches_well_formed; [exact W|exact T|done|].
  destruct (view_known_inv _ _ _ old (wf_view _ _ _ W id) Hst) as (v & b & pool & power & rate & u & ix & E & Hid & Hr & Hf & Hp & Hpw & Hx & Hl).
  destruct (Hw _ _ _ _ _ _ _ E) as (pool' & power' & rate' & -> & H1 & H2 & H3). specialize (H3 Hr Hx) as [H3 H4].
  constructor; auto.
Qed.

Lemma well_formed_previous_rate id r s old :
  well_formed h n s -> states s !! id = Some old -> well_formed h n (set_previous_rates (<[id := r]> (previous_rates s)) s).
Proof.
  intros W Hst. eapply well_formed_entry; [exact W|exact Hst|apply touches_previous_rates|].
  intros v b pool power rate u ix E. exists pool, power, rate. split_and!; [exact E|done..].
Qed.

Lemma well_formed_pool id p s old :
  well_formed h n s -> states s !! id = Some old -> is_u128 p -> well_formed h n (set_pool_sizes (<[id := p]> (pool_sizes s)) s).
Proof.
  intros W Hst Hp. eapply well_formed_entry; [exact W|exact Hst|apply touches_pool|].
  intros v b pool power rate u ix E. exists p, power, rate. split_and!; [|done..].
  unfold view in *. cbn. rewrite lookup_insert_eq. congruence.
Qed.

Lemma well_formed_power id p s old :
  well_formed h n s -> states s !! id = Some old -> 0 <= p <= MAX_VOTING_POWER ->
  well_formed h n (set_powers (<[id := p]> (powers s)) s).
Proof.
  intros W Hst Hp. eapply well_formed_entry; [exact W|exact Hst|apply touches_powers|].
  intros v b pool power rate u ix E. exists pool, p, rate. split_and!; [|done..].
  unfold view in *. cbn. rewrite lookup_insert_eq. congruence.
Qed.

Lemma well_formed_rate id r s old :
  well_formed h n s -> states s !! id = Some old -> rate_identity r = id -> is_u128 (validator_exchange_rate r) ->
  well_formed h n (set_current_rates (<[id := r]> (current_rates s)) s).
Proof.
  intros W Hst Hr Hx. eapply well_formed_entry; [exact W|exact Hst|apply touches_rates|].
  intros v b pool power rate u ix E. exists pool, power, r. split_and!; [|done..].
  unfold view in *. cbn. rewrite lookup_insert_eq. congruence.
Qed.

(** A pool is unbonded only when its validator is not active. *)
Lemma well_formed_unbonded id s old :
  well_formed h n s -> states s !! id = Some old -> old <> Active ->
  well_formed h n (record_stake_event (EventValidatorBondingStateChange id Unbonded)
    (set_bonding_states (<[id := Unbonded]> (bonding_states s)) s)).
Proof.
  intros W Hst Ho. eapply touches_well_formed; [exact W|apply touches_set_bonding|done|].
  pose proof (wf_view _ _ _ W id) as V.
  destruct (view_known_state _ _ _ _ V Hst) as (v & b & pool & power & rate & _ & _ & _ & _ & _ & _ & _ & _ & _ & _ & _ & Hl).
  assert (E : view (record_stake_event (EventValidatorBondingStateChange id Unbonded)
      (set_bonding_states (<[id := Unbonded]> (bonding_states s)) s)) id
    = relife (view s id) old Unbonded (uptimes s !! id) (bool_decide (id ∈ consensus_set_index s))).
  { unfold view, relife. cbn. by rewrite lookup_insert_eq, Hst. }
  rewrite E. eapply view_ok_relife; [exact V|exact Hst|]. destruct old; cbn in *; try done. (split; [done|apply Hl]).
Qed.

(** A validator leaves the index when it cannot become active. *)
Lemma well_formed_unindexed id s old :
  well_formed h n s -> states s !! id = Some old -> old <> Active -> old <> Inactive ->
  well_formed h n (set_consensus_set_index (consensus_set_index s ∖ {[ id ]}) s).
Proof.
  intros W Hst H1 H2. eapply touches_well_formed; [exact W|apply touches_unindex|done|].
  pose proof (wf_view _ _ _ W id) as V.
  destruct (view_known_state _ _ _ _ V Hst) as (v & b & pool & power & rate & _ & Hb & _ & _ & _ & _ & _ & _ & _ & _ & _ & Hl).
  assert (E : view (set_consensus_set_index (consensus_set_index s ∖ {[ id ]}) s) id = relife (view s id) old b (uptimes s !! id) false).
  { unfold view, relife in *. cbn in *. rewrite Hst, Hb. f_equal. apply bool_decide_eq_false. set_solver. }
  rewrite E. eapply view_ok_relife; [exact V|exact Hst|]. by destruct old.
Qed.
End Entries.

Lemma asks_ok {A} (f : StakeState -> anyhow A) a s s' : asks f s = (Ok a, s') <-> f s = Ok a /\ s' = s.
Proof. unfold asks. split; [by intros [= -> ->]|by intros [-> ->]]. Qed.

Ltac inv_stake :=
  repeat first
    [ inv_comp_step
    | match goal with H : asks _ _ = (Ok _, _) |- _ => apply asks_ok in H as [H ->]; inv_outcome end ].

(** ** Processing one validator *)

Section ProcessValidator.
Context `{StakeEnv} (h : Z).
Notation wf_at := (well_formed h (fun _ => h)).

Lemma apply_delta_keeps id delta s u s' old :
  wf_at s -> states s !! id = Some old -> apply_delegation_delta id delta s = (Ok u, s') -> touches id s s' /\ wf_at s' /\ states s' !! id = Some old.
Proof.
  intros W Hst Hrun.
  assert (Hpool : is_u128 (pool_size_or_zero id s)).
  { unfold pool_size_or_zero, get_validator_pool_size.
    destruct (view_known_state _ _ _ _ (wf_view _ _ _ W id) Hst) as (v & b & pool & power & rate & _ & _ & Hp & _ & _ & _ & _ & _ & Hpw & _).
    unfold view in Hp. cbn in Hp. by rewrite Hp. }
  assert (Hset : forall p, is_u128 p -> touches id s (set_pool_sizes (<[id := p]> (pool_sizes s)) s)
    /\ wf_at (set_pool_sizes (<[id := p]> (pool_sizes s)) s) /\ states (set_pool_sizes (<[id := p]> (pool_sizes s)) s) !! id = Some old).
  { intros p Hp. split; [apply touches_pool|]. split; [by eapply well_formed_pool|done]. }
  unfold apply_delegation_delta in Hrun. unfold increase_validator_pool_size, decrease_validator_pool_size, set_validator_pool_size in Hrun.
  unfold in_width in *. destruct (0 <? delta) eqn:Hpos; [|destruct (delta <? 0) eqn:Hneg].
  - inv_stake. destruct (checked_add 128 _ _) as [p|] eqn:Hp; inv_stake; inv_outcome; simplify_eq. apply Hset.
    apply checked_add_some in Hp as [-> Hp]. lia.
  - inv_stake. destruct (checked_sub _ _) as [p|] eqn:Hp; inv_stake; inv_outcome; simplify_eq. apply Hset.
    apply checked_sub_some in Hp as [-> Hp]. lia.
  - inv_stake. split; [apply touches_refl|done].
Qed.

Lemma rate_write_keeps id r s u s' old :
  wf_at s -> states s !! id = Some old -> rate_identity r = id -> is_u128 (validator_exchange_rate r) ->
  set_validator_rate_data id r s = (Ok u, s') -> touches id s s' /\ wf_at s' /\ states s' !! id = Some old.
Proof.
  intros W Hst Hr Hx Hrun. unfold set_validator_rate_data in Hrun. inv_stake.
  split; [eapply touches_trans; [apply touches_rates|apply touches_event]|]. split; [|done].
  by eapply well_formed_event, well_formed_rate.
Qed.

Lemma power_write_keeps id p s u s' old :
  wf_at s -> states s !! id = Some old -> 0 <= p -> set_validator_power id p s = (Ok u, s') ->
  touches id s s' /\ wf_at s' /\ states s' !! id = Some old.
Proof.
  intros W Hst Hp Hrun. unfold set_validator_power in Hrun. destruct (MAX_VOTING_POWER <? p) eqn:Hm; [by inv_stake|]. inv_stake. to_prop.
  split; [eapply touches_trans; [apply touches_powers|apply touches_event]|]. split; [|done].
  eapply well_formed_event, well_formed_power; [done..|lia].
Qed.

(** A transition at the height that trackers stand at keeps the state well formed. *)
Lemma transition_keeps id old new s r s' :
  wf_at s -> states s !! id = Some old -> legal old new = true -> set_validator_state id new s = (Ok r, s') ->
  r = (old, new) /\ transitions id old new s s' /\ wf_at s'.
Proof.
  intros W Hst Hl Hrun. destruct (transition_runs h _ id old new s W Hst Hl) as (r' & s'' & Hrun' & -> & T & W').
  rewrite Hrun in Hrun'. injection Hrun' as -> ->. split; [done|]. split; [done|].
  eapply well_formed_ext; [|exact W']. intros j. unfold promoted. by case_decide.
Qed.

(** The states that an epoch moves a validator between. *)
Definition electable (st : ValidatorState.t) : Prop := st = Defined \/ st = Inactive \/ st = Active.
Definition epoch_moves (old new : ValidatorState.t) : Prop := new = old \/ (electable old /\ electable new).

Lemma precursor_keeps id old rate supply s r s' :
  wf_at s -> states s !! id = Some old -> try_precursor_transition id old rate supply s = (Ok r, s') ->
  touches id s s' /\ wf_at s' /\ exists new, states s' !! id = Some new /\ epoch_moves old new.
Proof.
  intros W Hst Hrun.
  assert (Hstay : touches id s s /\ wf_at s /\ exists new, states s !! id = Some new /\ epoch_moves old new).
  { split; [apply touches_refl|]. split; [done|]. exists old. split; [done|by left]. }
  unfold try_precursor_transition in Hrun. destruct old; try (by inv_stake).
  all: apply bind_ok in Hrun as (ps & s1 & H1 & Hrun); apply (proj1 (expecting_ok _ _ _ _)) in H1;
    unfold get_stake_params in H1; apply asks_ok in H1 as [_ ->]; apply bind_ok in Hrun as (ub & s1 & H1 & Hrun);
    apply lift_ok in H1 as [_ ->]; apply bind_ok in Hrun as (u & s1 & H1 & Hrun); apply ret_ok in Hrun as [-> ->];
    set (new := precursor_state _ _) in H1; destruct (bool_decide (new = _)) eqn:Hb; cbn [negb when] in H1;
    [apply ret_ok in H1 as [_ ->]; exact Hstay|];
    apply (proj1 (expecting_ok _ _ _ _)) in H1; apply bind_ok in H1 as (r & s2 & Hset & H1); apply ret_ok in H1 as [_ ->];
    match type of Hst with _ = Some ?o =>
      assert (Hnew : legal o new = true /\ (new = Defined \/ (o = Defined /\ new = Inactive)))
        by (subst new; unfold precursor_state in *; apply bool_decide_eq_false in Hb; destruct (_ <=? _); naive_solver)
    end; destruct Hnew as [Hlegal Hnew]; destruct (transition_keeps id _ new s r s2 W Hst Hlegal Hset) as (_ & T & W');
    (split; [apply (transition_touches _ _ _ _ _ T)|]); (split; [done|]); exists new;
    (split; [apply (transition_state _ _ _ _ _ T)|]); right; unfold electable; naive_solver.
Qed.

Lemma pool_state_keeps id from s u s' old e :
  wf_at s -> states s !! id = Some old -> get_epoch_by_height h s = (Ok e, s) -> from = start_height e -> 0 <= from <= h ->
  process_validator_pool_state id from s = (Ok u, s') -> touches id s s' /\ wf_at s' /\ states s' !! id = Some old.
Proof.
  intros W Hst He -> Hfrom Hrun. pose proof (wf_clock _ _ _ W) as Hc. pose proof (clock_range _ _ Hc) as Hh.
  destruct (params_run h s Hc) as (ps & (Hd & _) & _ & Hps & _).
  destruct (view_known_state _ _ _ _ (wf_view _ _ _ W id) Hst) as (v & b & pool & power & rate & _ & Hb & _ & _ & _ & _ & _ & _ & _ & _ & _ & Hl).
  unfold view in Hb. cbn in Hb. unfold process_validator_pool_state in Hrun. apply bind_ok in Hrun as (oh & s1 & H1 & Hrun).
  unfold compute_unbonding_height, get_validator_bonding_state in H1. apply bind_ok in H1 as (ob & s2 & H2 & H1).
  apply gets_ok in H2 as [-> ->]. rewrite Hb in H1. rewrite (bind_run_ok _ _ _ _ _ Hps) in H1. apply ret_ok in H1 as [-> ->].
  set (allowed := default _ _) in Hrun. destruct (allowed <=? start_height e) eqn:Ha; cbn [when] in Hrun.
  - rewrite bonding_run in Hrun. injection Hrun as _ <-. split; [apply touches_set_bonding|]. split; [|done].
    eapply well_formed_unbonded; [done|exact Hst|]. intros ->. destruct Hl as (-> & _). to_prop.
    subst allowed. cbn [unbonding_height from_option] in Ha. unfold saturating_add, max_int, Datatypes.id in Ha. lia.
  - apply ret_ok in Hrun as [_ ->]. split; [apply touches_refl|done].
Qed.

(** What processing a validator guarantees. *)
Definition processed (id : identity_key) (s s' : StakeState) : Prop :=
  touches id s s' /\ wf_at s'
  /\ exists old new, states s !! id = Some old /\ states s' !! id = Some new
     /\ epoch_moves old new /\ (id ∈ consensus_set_index s' -> new = Active \/ new = Inactive).

Lemma unindex_keeps id s u s' st :
  wf_at s -> states s !! id = Some st ->
  @when _ string (negb (belongs_in_index id s)) (remove_consensus_set_index id) s = (Ok u, s') ->
  touches id s s' /\ wf_at s' /\ states s' !! id = Some st /\ (id ∈ consensus_set_index s' -> st = Active \/ st = Inactive).
Proof.
  intros W Hst Hrun. unfold belongs_in_index, get_validator_state in Hrun. rewrite Hst in Hrun.
  assert (Hin : st = Active \/ st = Inactive \/ (st <> Active /\ st <> Inactive)) by (destruct st; auto).
  destruct Hin as [->|[->|[H1 H2]]]; cbn in Hrun.
  - apply ret_ok in Hrun as [_ ->]. split_and!; auto. apply touches_refl.
  - apply ret_ok in Hrun as [_ ->]. split_and!; auto. apply touches_refl.
  - replace (match st with Active | Inactive => true | _ => false end) with false in Hrun by (by destruct st).
    cbn in Hrun. unfold remove_consensus_set_index in Hrun. apply modify_ok in Hrun as [_ ->].
    split; [apply touches_unindex|]. split; [by eapply well_formed_unindexed|]. split; [done|].
    cbn. set_solver.
Qed.

Lemma process_validator_keeps id e base td tu s r s' :
  wf_at s -> get_epoch_by_height h s = (Ok e, s) -> 0 <= start_height e <= h -> 0 <= base_reward_rate base ->
  process_validator id e base td tu s = (Ok r, s') -> processed id s s'.
Proof.
  intros W He Hstart Hbase Hrun. unfold process_validator in Hrun.
  apply bind_ok in Hrun as (v & s1 & H1 & Hrun). apply asks_ok in H1 as [H1 ->]. apply ok_or_ok in H1.
  unfold get_validator_definition in H1. destruct (well_formed_known _ _ _ _ _ W H1) as [Evid [old Hst]]. rewrite Evid in Hrun.
  apply bind_ok in Hrun as (st & s1 & H2 & Hrun). apply asks_ok in H2 as [H2 ->]. apply ok_or_ok in H2.
  unfold get_validator_state in H2. assert (st = old) as -> by congruence. clear H2.
  apply bind_ok in Hrun as (rate & s1 & H2 & Hrun). apply asks_ok in H2 as [H2 ->]. apply ok_or_ok in H2. unfold get_validator_rate in H2.
  destruct (view_known_inv _ _ _ old (wf_view _ _ _ W id) Hst) as (v' & b & pool & power & rate' & u & ix & E & _ & Hrid & Hstreams & Hpool & _ & Hwidth & _).
  assert (v' = v /\ rate' = rate) as [-> ->] by (unfold view in E; split; congruence). clear E.
  rewrite no_penalty_run, bind_lift_ok, bind_gets in Hrun. set (pen := default _ _) in Hrun.
  assert (Hpen : Penalty.wf pen) by apply (recorded_wf id (index e) s (wf_penalties _ _ _ W)).
  apply bind_ok in Hrun as (sl & s1 & H3 & Hrun). apply lift_ok in H3 as [H3 ->].
  destruct (slash_width _ _ _ Hwidth Hpen H3) as [Hsl1 Hsl2].
  unfold set_prev_validator_rate in Hrun. rewrite bind_modify in Hrun. set (s1 := set_previous_rates _ s) in Hrun.
  assert (W1 : wf_at s1) by (by eapply well_formed_previous_rate). assert (T1 : touches id s s1) by apply touches_previous_rates.
  assert (Hst1 : states s1 !! id = Some old) by done. clearbody s1.
  apply bind_ok in Hrun as (next & s2 & H4 & Hrun). apply lift_ok in H4 as [H4 ->].
  destruct (next_epoch_width _ _ _ _ _ Hsl2 Hbase Hstreams H4) as [Hn1 Hn2].
  apply bind_ok in Hrun as (delta & s2 & H5 & Hrun). apply lift_ok in H5 as [_ ->].
  apply bind_ok in Hrun as (ud & s2 & H6 & Hrun). destruct (apply_delta_keeps _ _ _ _ _ _ W1 Hst1 H6) as (T2 & W2 & Hst2).
  rewrite bind_gets in Hrun. set (supply := pool_size_or_zero id s2) in Hrun.
  assert (Hsupply : is_u128 supply).
  { subst supply. unfold pool_size_or_zero, get_validator_pool_size.
    destruct (view_known_state _ _ _ _ (wf_view _ _ _ W2 id) Hst2) as (? & ? & p & ? & ? & _ & _ & Hp & _ & _ & _ & _ & _ & Hpw & _).
    unfold view in Hp. cbn in Hp. by rewrite Hp. }
  apply bind_ok in Hrun as (vp & s3 & H7 & Hrun). apply lift_ok in H7 as [H7 ->].
  pose proof (unbonded_amount_width _ _ _ Hn2 Hsupply H7) as [Hvp _].
  apply bind_ok in Hrun as (ur & s3 & H8 & Hrun). assert (Hnid : rate_identity next = id) by congruence.
  destruct (rate_write_keeps _ _ _ _ _ _ W2 Hst2 Hnid Hn2 H8) as (T3 & W3 & Hst3).
  apply bind_ok in Hrun as (up & s4 & H9 & Hrun). destruct (power_write_keeps _ _ _ _ _ _ W3 Hst3 Hvp H9) as (T4 & W4 & Hst4).
  apply bind_ok in Hrun as (ut & s5 & H10 & Hrun). destruct (precursor_keeps _ _ _ _ _ _ _ W4 Hst4 H10) as (T5 & W5 & new & Hst5 & Hnew).
  apply bind_ok in Hrun as (us & s6 & H11 & Hrun).
  pose proof (touches_trans _ _ _ _ T1 (touches_trans _ _ _ _ T2 (touches_trans _ _ _ _ T3 (touches_trans _ _ _ _ T4 T5)))) as T15.
  assert (He5 : get_epoch_by_height h s5 = (Ok e, s5)).
  { pose proof (touches_globals _ _ _ T15) as G. unfold get_epoch_by_height, asks, EpochRead.get_epoch_by_height in *.
    injection He as He. rewrite (same_epochs _ _ G). by rewrite He. }
  destruct (pool_state_keeps _ _ _ _ _ _ e W5 Hst5 He5 eq_refl Hstart H11) as (T6 & W6 & Hst6).
  rewrite bind_gets in Hrun. apply bind_ok in Hrun as (uu & s7 & H12 & Hrun). apply ret_ok in Hrun as [_ ->].
  destruct (unindex_keeps _ _ _ _ _ W6 Hst6 H12) as (T7 & W7 & Hst7 & Hix).
  split; [exact (touches_trans _ _ _ _ T15 (touches_trans _ _ _ _ T6 T7))|]. split; [exact W7|]. exists old, new. auto.
Qed.

Lemma epoch_moves_trans a b c : epoch_moves a b -> epoch_moves b c -> epoch_moves a c.
Proof. unfold epoch_moves. naive_solver. Qed.

(** All states move that way. *)
Definition all_epoch_moves (s s' : StakeState) : Prop :=
  forall j, (states s !! j = None /\ states s' !! j = None)
    \/ exists old new, states s !! j = Some old /\ states s' !! j = Some new /\ epoch_moves old new.

Lemma all_epoch_moves_refl s : all_epoch_moves s s.
Proof. intros j. destruct (states s !! j) as [st|]; [right|by left]. exists st, st. split_and!; [done..|by left]. Qed.

Lemma all_epoch_moves_trans s1 s2 s3 : all_epoch_moves s1 s2 -> all_epoch_moves s2 s3 -> all_epoch_moves s1 s3.
Proof.
  intros M1 M2 j. destruct (M1 j) as [[A1 A2]|(a & b & A1 & A2 & A3)], (M2 j) as [[B1 B2]|(b' & c & B1 & B2 & B3)].
  - by left.
  - congruence.
  - congruence.
  - right. exists a, c. split_and!; [done..|]. eapply epoch_moves_trans; [exact A3|]. congruence.
Qed.

(** Moves of one validator. *)
Lemma touched_epoch_moves id old new s s' :
  touches id s s' -> states s !! id = Some old -> states s' !! id = Some new -> epoch_moves old new -> all_epoch_moves s s'.
Proof.
  intros T H1 H2 Hm j. destruct (decide (j = id)) as [->|Hj]; [right; by exists old, new|].
  pose proof (touches_views _ _ _ T j Hj) as V. injection V as _ V _ _ _ _ _ _. rewrite V. apply all_epoch_moves_refl.
Qed.

(** The run over the validators of an epoch. *)
Record swept (ids : list identity_key) (s s' : StakeState) : Prop := {
  swept_globals : same_globals s s';
  swept_wf : wf_at s';
  swept_others j : j ∉ ids -> view s' j = view s j;
  swept_indexed j : j ∈ ids -> j ∈ consensus_set_index s' -> states s' !! j = Some Active \/ states s' !! j = Some Inactive;
  swept_moves : all_epoch_moves s s';
}.

Lemma process_validators_keeps (delegations undelegations : gmap identity_key Z) e base : forall ids q s r s',
  NoDup ids -> wf_at s -> get_epoch_by_height h s = (Ok e, s) -> 0 <= start_height e <= h -> 0 <= base_reward_rate base ->
  for_fold ids q (fun queue id =>
    rewards <- process_validator id e base (default 0 (delegations !! id)) (default 0 (undelegations !! id));;
    ret (queue ++ match rewards with Some r => [r] | None => [] end)) s = (Ok r, s') ->
  swept ids s s'.
Proof.
  induction ids as [|id ids IH]; intros q s r s' Hnd W He Hstart Hbase Hrun; cbn [for_fold] in Hrun.
  { apply ret_ok in Hrun as [_ ->]. split; [apply same_globals_refl|done|done|set_solver|apply all_epoch_moves_refl]. }
  apply NoDup_cons in Hnd as [Hid Hnd].
  apply bind_ok in Hrun as (q' & s1 & H1 & Hrun). apply bind_ok in H1 as (rw & s2 & H1 & H2). apply ret_ok in H2 as [_ ->].
  destruct (process_validator_keeps _ _ _ _ _ _ _ _ W He Hstart Hbase H1) as (T & W1 & old & new & Ho & Hn & Hm & Hix).
  pose proof (touches_globals _ _ _ T) as G.
  assert (He1 : get_epoch_by_height h s2 = (Ok e, s2)).
  { unfold get_epoch_by_height, asks, EpochRead.get_epoch_by_height in *. injection He as He. rewrite (same_epochs _ _ G). by rewrite He. }
  destruct (IH _ _ _ _ Hnd W1 He1 Hstart Hbase Hrun) as [G2 W2 O2 I2 M2]. split.
  - by eapply same_globals_trans.
  - done.
  - intros j Hj. rewrite O2 by set_solver. apply (touches_views _ _ _ T). set_solver.
  - intros j Hj Hjx. destruct (decide (j ∈ ids)) as [|Hji]; [by apply I2|]. assert (j = id) as -> by set_solver.
    pose proof (O2 id Hid) as V. injection V as _ V _ _ _ _ _ Vx. rewrite V, Hn.
    rewrite bool_decide_eq_true_2 in Vx by done. symmetry in Vx. apply bool_decide_eq_true_1 in Vx. destruct (Hix Vx) as [->| ->]; auto.
  - eapply all_epoch_moves_trans; [by eapply touched_epoch_moves|exact M2].
Qed.
End ProcessValidator.
