(* ===== verification/StakeElection.v ===== *)
(** * Facts about the active set

    The promotion of the validators with the most power always succeeds, and the lemmas compute what
    it does; with the facts about the other steps, the end of an epoch keeps the state well formed. *)

From S2P Require Import Prelude.
From S2P Require Import Num.
From S2P Require Import Asset.
From S2P Require Import DexState.
From S2P Require Import Clock.
From S2P Require Import Validator.
From S2P Require Import Rate.
From S2P Require Import RateFacts.
From S2P Require Import Stake.
From S2P Require Import StakeManager.
From S2P Require Import StakeEpoch.
From S2P Require Import StakeFacts.
From S2P Require Import StakeUptime.
From S2P Require Import StakeEpochFacts.
Import ValidatorState.
Import BondingState.
Import StakeRead.
Import StakeWrite.
Import ConsensusIndex.
Import ValidatorManager.
Import EpochHandler.

(** ** The active set *)

Section ActiveSet.
Context `{StakeEnv}.

(** Who comes first: more power, or as much and a smaller text. *)
Definition stronger (x y : identity_key * Z) : Prop :=
  y.2 < x.2 \/ (y.2 = x.2 /\ identity_text x.1 <= identity_text y.1).

Lemma insert_by_power_perm x l : insert_by_power x l ≡ₚ x :: l.
Proof. induction l as [|y l IH]; cbn; [done|]. destruct (y.2 <=? x.2); [done|]. rewrite IH. apply Permutation_swap. Qed.

Lemma sort_by_power_perm l : sort_by_power l ≡ₚ l.
Proof. induction l as [|x l IH]; [done|]. unfold sort_by_power in *. cbn. rewrite insert_by_power_perm. by rewrite IH. Qed.

Lemma insert_by_power_sorted x l :
  StronglySorted stronger l -> Forall (fun y => identity_text x.1 <= identity_text y.1) l ->
  StronglySorted stronger (insert_by_power x l).
Proof.
  induction 1 as [|y l Hl IH Hy]; intros Hx; cbn; [repeat constructor|]. apply Forall_cons in Hx as [Hxy Hx].
  destruct (y.2 <=? x.2) eqn:Hp; to_prop.
  - constructor; [by constructor|]. apply Forall_cons. split; [unfold stronger; lia|].
    rewrite Forall_forall in Hy, Hx |- *. intros z Hz. specialize (Hy z Hz). specialize (Hx z Hz). unfold stronger in *. lia.
  - constructor; [by apply IH|]. apply Forall_forall. intros z Hz. rewrite insert_by_power_perm in Hz.
    apply elem_of_cons in Hz as [->|Hz]; [left; lia|]. by eapply Forall_forall in Hy.
Qed.

Lemma sort_by_power_sorted l :
  StronglySorted (fun x y => identity_text x.1 <= identity_text y.1) l -> StronglySorted stronger (sort_by_power l).
Proof.
  induction 1 as [|x l Hl IH Hx]; [constructor|]. unfold sort_by_power in *. cbn. apply insert_by_power_sorted; [done|].
  fold (sort_by_power l). by rewrite sort_by_power_perm.
Qed.

(** Those who can be active. *)
Definition elector (s : StakeState) (id : identity_key) : Prop := states s !! id = Some Active \/ states s !! id = Some Inactive.
#[global] Instance elector_dec s id : Decision (elector s id).
Proof. unfold elector. apply _. Defined.

Definition power_of (s : StakeState) (id : identity_key) : Z := default 0 (powers s !! id).
Definition with_power (s : StakeState) (ids : list identity_key) : list (identity_key * Z) := (fun id => (id, power_of s id)) <$> ids.
Definition candidates (s : StakeState) (ids : list identity_key) : list identity_key := filter (fun id => elector s id /\ power_of s id <> 0) ids.
Definition powerless (s : StakeState) (ids : list identity_key) : list identity_key := filter (fun id => elector s id /\ power_of s id = 0) ids.

Lemma classify_run s : forall ids acc,
  (forall id, id ∈ ids -> is_Some (states s !! id)) ->
  for_fold ids acc classify s = (Ok (acc.1 ++ with_power s (candidates s ids), acc.2 ++ with_power s (powerless s ids)), s).
Proof.
  induction ids as [|id ids IH]; intros acc Hk; cbn [for_fold].
  { unfold candidates, powerless. cbn. rewrite !app_nil_r. by destruct acc. }
  destruct (Hk id ltac:(set_solver)) as [st Hst].
  assert (Hc : classify acc id s = (Ok (match st with
       | Active | Inactive => if power_of s id =? 0 then (acc.1, acc.2 ++ [(id, power_of s id)]) else (acc.1 ++ [(id, power_of s id)], acc.2)
       | _ => acc end), s)).
  { unfold classify, bind, asks, gets, get_validator_state. by rewrite Hst. }
  rewrite (bind_run_ok _ _ _ _ _ Hc), IH by (intros j Hj; apply Hk; set_solver).
  unfold candidates, powerless. rewrite !filter_cons. f_equal. f_equal. unfold with_power.
  assert (He : elector s id <-> st = Active \/ st = Inactive) by (unfold elector; rewrite Hst; split; (intros [E|E]; injection E as E; auto) || (intros [->| ->]; auto)).
  assert (Hd : (st = Active \/ st = Inactive) \/ (st <> Active /\ st <> Inactive)) by (destruct st; auto).
  destruct Hd as [Hd|Hd].
  - replace (match st with Active | Inactive => _ | _ => acc end)
      with (if power_of s id =? 0 then (acc.1, acc.2 ++ [(id, power_of s id)]) else (acc.1 ++ [(id, power_of s id)], acc.2))
      by (by destruct Hd as [->| ->]).
    destruct (Z.eqb_spec (power_of s id) 0) as [Hz|Hz].
    + rewrite (decide_False (P := _ /\ _ <> 0)), (decide_True (P := _ /\ _ = 0)) by tauto. cbn [fst snd fmap list_fmap].
      by rewrite <- app_assoc.
    + rewrite (decide_True (P := _ /\ _ <> 0)), (decide_False (P := _ /\ _ = 0)) by tauto. cbn [fst snd fmap list_fmap].
      by rewrite <- app_assoc.
  - replace (match st with Active | Inactive => _ | _ => acc end) with acc by (destruct st; tauto).
    rewrite (decide_False (P := _ /\ _ <> 0)), (decide_False (P := _ /\ _ = 0)) by tauto. done.
Qed.

(** The validators with power, from the strongest on; the first of them become active. *)
Definition ranking (s : StakeState) : list (identity_key * Z) :=
  sort_by_power (with_power s (candidates s (get_consensus_set s))).
Definition elected (limit : nat) (s : StakeState) : list (identity_key * Z) := take limit (ranking s).
Definition defeated (limit : nat) (s : StakeState) : list (identity_key * Z) :=
  drop limit (ranking s) ++ with_power s (powerless s (get_consensus_set s)).

Lemma with_power_ids s ids : (with_power s ids).*1 = ids.
Proof. unfold with_power. rewrite <- list_fmap_compose. apply list_fmap_id. Qed.

Lemma ranking_perm s : ranking s ≡ₚ with_power s (candidates s (get_consensus_set s)).
Proof. apply sort_by_power_perm. Qed.

Lemma ranking_ids s : (ranking s).*1 ≡ₚ candidates s (get_consensus_set s).
Proof. rewrite ranking_perm. by rewrite with_power_ids. Qed.

Lemma consensus_set_sorted s : StronglySorted text_le (get_consensus_set s).
Proof.
  apply StronglySorted_merge_sort; unfold text_le; [intros ???; lia|intros ??; lia].
Qed.

Lemma candidates_sorted s ids : StronglySorted text_le ids -> StronglySorted text_le (candidates s ids).
Proof.
  induction 1 as [|x l Hl IH Hx]; [constructor|]. unfold candidates in *. rewrite filter_cons. case_decide; [|done].
  constructor; [done|]. apply Forall_forall. intros y Hy. apply list_elem_of_filter in Hy as [_ Hy].
  by eapply Forall_forall in Hx.
Qed.

Lemma ranking_sorted s : StronglySorted stronger (ranking s).
Proof.
  apply sort_by_power_sorted. pose proof (candidates_sorted s _ (consensus_set_sorted s)) as Hs.
  induction Hs as [|x l Hl IH Hx]; [constructor|]. cbn. constructor; [done|].
  apply Forall_fmap. exact Hx.
Qed.

Lemma split_consensus s limit j :
  (j ∈ (elected limit s).*1 \/ j ∈ (defeated limit s).*1) <-> (j ∈ get_consensus_set s /\ elector s j).
Proof.
  assert (Hr : j ∈ (take limit (ranking s)).*1 \/ j ∈ (drop limit (ranking s)).*1 <-> j ∈ candidates s (get_consensus_set s)).
  { rewrite <- elem_of_app, <- fmap_app, take_drop. by rewrite ranking_ids. }
  unfold elected, defeated. rewrite fmap_app, with_power_ids, elem_of_app.
  unfold candidates, powerless in *. rewrite list_elem_of_filter in Hr |- *. destruct (decide (power_of s j = 0)); tauto.
Qed.

Lemma election_NoDup s limit : NoDup ((elected limit s).*1 ++ (defeated limit s).*1).
Proof.
  unfold elected, defeated. rewrite fmap_app, app_assoc, <- fmap_app, take_drop, with_power_ids.
  apply NoDup_app. split; [|split].
  - rewrite ranking_ids. apply NoDup_filter, consensus_set_NoDup.
  - intros j Hj Hj'. rewrite ranking_ids in Hj. unfold candidates, powerless in *.
    apply list_elem_of_filter in Hj as [[_ Hj] _]. by apply list_elem_of_filter in Hj' as [[_ Hj'] _].
  - apply NoDup_filter, consensus_set_NoDup.
Qed.

(** ** Assigning states *)

Section Assign.
Context (h : Z).
Notation wf_at := (well_formed h (fun _ => h)).

Record assigned (new : ValidatorState.t) (ids : list identity_key) (s s' : StakeState) : Prop := {
  assigned_globals : same_globals s s';
  assigned_wf : wf_at s';
  assigned_others j : j ∉ ids -> view s' j = view s j;
  assigned_ids j : j ∈ ids -> exists b u ix, view s' j = relife (view s j) new b u ix;
}.

Lemma elector_view s s' j : view s' j = view s j -> elector s j -> elector s' j.
Proof. intros V. injection V as _ V _ _ _ _ _ _. unfold elector. by rewrite V. Qed.

Lemma assign_runs new : new = Active \/ new = Inactive -> forall l s,
  NoDup l.*1 -> wf_at s -> (forall j, j ∈ l.*1 -> elector s j) ->
  succeeds (for_each l (fun v : identity_key * Z => set_validator_state v.1 new;;; ret tt)) s (fun _ => assigned new l.*1 s).
Proof.
  intros Hnew. induction l as [|[id p] l IH]; intros s Hnd W He.
  { apply succeeds_ret. split; [apply same_globals_refl|done|done|set_solver]. }
  cbn [fmap list_fmap fst] in *. apply NoDup_cons in Hnd as [Hid Hnd]. cbn [for_each].
  assert (Hst : exists old, states s !! id = Some old /\ legal old new = true).
  { destruct (He id ltac:(set_solver)) as [E|E], Hnew as [->| ->]; eauto. }
  destruct Hst as (old & Hst & Hl). apply succeeds_assoc.
  eapply succeeds_bind; [by eapply transition_runs|]. intros r s1 (_ & T & W1). cbn.
  assert (W1' : wf_at s1) by (eapply well_formed_ext; [|exact W1]; intros j; unfold promoted; by case_decide).
  pose proof (touches_views _ _ _ (transition_touches _ _ _ _ _ T)) as V1.
  change (succeeds (for_each l (fun v : identity_key * Z => set_validator_state v.1 new;;; ret tt)) s1 (fun _ => assigned new (id :: l.*1) s)).
  eapply succeeds_weaken; [apply IH; [done..|]|].
  { intros j Hj. eapply elector_view; [|apply He; set_solver]. apply V1. set_solver. }
  intros _ s' [G2 W2 O2 I2]. split.
  - eapply same_globals_trans; [apply (touches_globals _ _ _ (transition_touches _ _ _ _ _ T))|done].
  - done.
  - intros j Hj. rewrite O2 by set_solver. apply V1. set_solver.
  - intros j Hj. destruct (decide (j = id)) as [->|Hne].
    + rewrite O2 by done. apply (transition_view _ _ _ _ _ T).
    + destruct (I2 j ltac:(set_solver)) as (b & u & ix & ->). rewrite V1 by done. eauto.
Qed.

(** What an election leaves behind. *)
Record election (limit : nat) (s s' : StakeState) : Prop := {
  election_globals : same_globals s s';
  election_wf : wf_at s';
  election_winners j : j ∈ (elected limit s).*1 -> states s' !! j = Some Active;
  election_losers j : j ∈ (defeated limit s).*1 -> states s' !! j = Some Inactive;
  election_others j : j ∉ consensus_set_index s -> view s' j = view s j;
  election_powers j : powers s' !! j = powers s !! j;
  election_index j : j ∈ consensus_set_index s -> j ∈ consensus_set_index s';
}.

Lemma assigned_state new ids s s' j : assigned new ids s s' -> j ∈ ids -> states s' !! j = Some new.
Proof. intros A Hj. destruct (assigned_ids _ _ _ _ A j Hj) as (b & u & ix & V). by injection V. Qed.

Lemma assigned_power new ids s s' j : assigned new ids s s' -> powers s' !! j = powers s !! j.
Proof.
  intros A. destruct (decide (j ∈ ids)) as [Hj|Hj].
  - destruct (assigned_ids _ _ _ _ A j Hj) as (b & u & ix & V). by injection V.
  - pose proof (assigned_others _ _ _ _ A j Hj) as V. by injection V.
Qed.

(** Validators that are active or inactive are in the index. *)
Lemma elector_indexed m s j : well_formed h m s -> elector s j -> j ∈ consensus_set_index s.
Proof.
  intros W [E|E]; destruct (view_known_state _ _ _ _ (wf_view _ _ _ W j) E) as (v & b & pool & power & rate & _ & _ & _ & _ & _ & _ & _ & _ & _ & _ & _ & Hl);
    cbn in Hl; eapply bool_decide_eq_true_1; apply Hl.
Qed.

(** Every member of the index can be elected. *)
Definition index_electable (s : StakeState) : Prop := forall j, j ∈ consensus_set_index s -> elector s j.

Lemma set_active_and_inactive_runs s :
  wf_at s -> index_electable s ->
  succeeds set_active_and_inactive_validators s (fun _ s' =>
    exists p, stake_params s = Some p /\ election (Z.to_nat (active_validator_limit p)) s s').
Proof.
  intros W He. pose proof (wf_clock _ _ _ W) as Hc. destruct (params_run h s Hc) as (p & _ & Hp & Hpr & _).
  unfold set_active_and_inactive_validators. apply succeeds_gets.
  eapply succeeds_step; [apply classify_run|].
  { intros id Hid. apply elem_of_consensus_set in Hid. by eapply indexed_known. }
  cbn [fst snd app]. fold (ranking s). eapply succeeds_step; [exact Hpr|].
  set (limit := Z.to_nat (active_validator_limit p)). fold (elected limit s). fold (defeated limit s).
  pose proof (election_NoDup s limit) as Hnd. apply NoDup_app in Hnd as (Hn1 & Hdisj & Hn2).
  assert (Hel : forall j, j ∈ (elected limit s).*1 \/ j ∈ (defeated limit s).*1 -> elector s j)
    by (intros j Hj; by apply split_consensus in Hj as [_ Hj]).
  eapply succeeds_bind; [eapply (assign_runs Active); auto|]. cbn. intros _ s1 A1.
  eapply succeeds_weaken; [eapply (assign_runs Inactive); [auto|done|apply A1|]|].
  { intros j Hj. destruct (decide (j ∈ (elected limit s).*1)) as [Hj'|Hj'].
    - left. by eapply assigned_state.
    - eapply elector_view; [by apply A1|]. auto. }
  cbn. intros _ s' A2. exists p. split; [done|].
  assert (Hwin : forall j, j ∈ (elected limit s).*1 -> states s' !! j = Some Active).
  { intros j Hj. pose proof (assigned_others _ _ _ _ A2 j (Hdisj j Hj)) as V. injection V as _ V _ _ _ _ _ _. rewrite V.
    by eapply assigned_state. }
  assert (Hlose : forall j, j ∈ (defeated limit s).*1 -> states s' !! j = Some Inactive).
  { intros j Hj. by eapply assigned_state. }
  split.
  - eapply same_globals_trans; [apply A1|apply A2].
  - apply A2.
  - exact Hwin.
  - exact Hlose.
  - intros j Hj.
    assert (Hno : ~ (j ∈ (elected limit s).*1 \/ j ∈ (defeated limit s).*1)).
    { intros Hin. apply split_consensus in Hin as [Hin _]. by apply elem_of_consensus_set in Hin. }
    rewrite (assigned_others _ _ _ _ A2) by tauto. apply (assigned_others _ _ _ _ A1). tauto.
  - intros j. rewrite (assigned_power _ _ _ _ _ A2). by eapply assigned_power.
  - intros j Hj. assert (Hin : j ∈ (elected limit s).*1 \/ j ∈ (defeated limit s).*1).
    { apply split_consensus. split; [by apply elem_of_consensus_set|auto]. }
    eapply elector_indexed; [apply A2|]. destruct Hin as [Hin|Hin]; [left|right]; auto.
Qed.

(** ** The strongest are active *)

Definition active_validators (s : StakeState) : list identity_key :=
  filter (fun id => states s !! id = Some Active) (get_consensus_set s).
Definition ranked (s : StakeState) (id : identity_key) : identity_key * Z := (id, power_of s id).

Record strongest_active (limit : nat) (s : StakeState) : Prop := {
  strongest_count : (length (active_validators s) <= limit)%nat;
  strongest_power a : states s !! a = Some Active -> power_of s a <> 0;
  strongest_order a b : states s !! a = Some Active -> states s !! b = Some Inactive -> power_of s b <> 0 ->
    stronger (ranked s a) (ranked s b);
  strongest_full b : states s !! b = Some Inactive -> power_of s b <> 0 -> length (active_validators s) = limit;
}.

Lemma ranking_power s id x : (id, x) ∈ ranking s -> x = power_of s id /\ x <> 0.
Proof.
  rewrite ranking_perm. unfold with_power. intros Hin. apply list_elem_of_fmap in Hin as (j & [= -> ->] & Hj).
  unfold candidates in Hj. apply list_elem_of_filter in Hj. tauto.
Qed.

Lemma ranked_ids s (l : list (identity_key * Z)) id : (forall kp, kp ∈ l -> kp ∈ ranking s) -> id ∈ l.*1 -> ranked s id ∈ l.
Proof.
  intros Hl Hid. apply list_elem_of_fmap in Hid as ([j x] & -> & Hin). destruct (ranking_power _ _ _ (Hl _ Hin)) as [-> _].
  exact Hin.
Qed.

Lemma election_placed limit s s' j :
  wf_at s -> index_electable s -> election limit s s' -> elector s' j ->
  (states s' !! j = Some Active /\ j ∈ (elected limit s).*1) \/ (states s' !! j = Some Inactive /\ j ∈ (defeated limit s).*1).
Proof.
  intros W He E Hj. destruct (decide (j ∈ consensus_set_index s)) as [Hix|Hix].
  - assert (Hin : j ∈ (elected limit s).*1 \/ j ∈ (defeated limit s).*1).
    { apply split_consensus. split; [by apply elem_of_consensus_set|auto]. }
    destruct Hin as [Hin|Hin]; [left|right]; (split; [|done]); [by apply (election_winners _ _ _ E)|by apply (election_losers _ _ _ E)].
  - exfalso. apply Hix. eapply elector_indexed; [exact W|]. eapply elector_view; [|exact Hj]. symmetry. by apply (election_others _ _ _ E).
Qed.

Lemma active_validators_elected limit s s' :
  wf_at s -> index_electable s -> election limit s s' -> active_validators s' ≡ₚ (elected limit s).*1.
Proof.
  intros W He E. apply NoDup_Permutation.
  - apply NoDup_filter, consensus_set_NoDup.
  - pose proof (election_NoDup s limit) as Hnd. by apply NoDup_app in Hnd as [Hnd _].
  - intros j. unfold active_validators. rewrite list_elem_of_filter. split.
    + intros [Hst _]. destruct (election_placed _ _ _ j W He E (or_introl Hst)) as [[_ ?]|[? _]]; congruence.
    + intros Hj. pose proof (election_winners _ _ _ E j Hj) as Hst. split; [done|]. apply elem_of_consensus_set.
      eapply elector_indexed; [apply E|by left].
Qed.

Lemma election_strongest limit s s' :
  wf_at s -> index_electable s -> election limit s s' -> strongest_active limit s'.
Proof.
  intros W He E. pose proof (active_validators_elected _ _ _ W He E) as Hact.
  assert (Hpow : forall j, power_of s' j = power_of s j) by (intros j; unfold power_of; by rewrite (election_powers _ _ _ E)).
  assert (Hwin : forall a, states s' !! a = Some Active -> ranked s a ∈ elected limit s).
  { intros a Ha. destruct (election_placed _ _ _ a W He E (or_introl Ha)) as [[_ Hin]|[? _]]; [|congruence].
    apply ranked_ids; [|done]. intros kp Hkp.  unfold elected in Hkp.
    rewrite <- (take_drop limit (ranking s)). apply elem_of_app. by left. }
  assert (Hlose : forall b, states s' !! b = Some Inactive -> power_of s b <> 0 -> ranked s b ∈ drop limit (ranking s)).
  { intros b Hb Hp. destruct (election_placed _ _ _ b W He E (or_intror Hb)) as [[? _]|[_ Hin]]; [congruence|].
    unfold defeated in Hin. rewrite fmap_app, with_power_ids, elem_of_app in Hin. destruct Hin as [Hin|Hin].
    - apply ranked_ids; [|done]. intros kp Hkp. rewrite <- (take_drop limit (ranking s)). apply elem_of_app. by right.
    - unfold powerless in Hin. apply list_elem_of_filter in Hin. tauto. }
  assert (Hlen : length (active_validators s') = Nat.min limit (length (ranking s))).
  { rewrite Hact, length_fmap. apply length_take. }
  split.
  - lia.
  - intros a Ha. rewrite Hpow. specialize (Hwin a Ha). unfold elected in Hwin.
    assert (Hin : ranked s a ∈ ranking s) by (rewrite <- (take_drop limit (ranking s)); apply elem_of_app; by left).
    by destruct (ranking_power _ _ _ Hin).
  - intros a b Ha Hb Hp. unfold ranked. rewrite !Hpow in *. pose proof (ranking_sorted s) as Hs.
    rewrite <- (take_drop limit (ranking s)) in Hs. eapply StronglySorted_app_1_elem_of; [exact Hs|by apply Hwin|by apply Hlose].
  - intros b Hb Hp. rewrite Hpow in Hp. specialize (Hlose b Hb Hp). rewrite Hlen.
    assert (length (drop limit (ranking s)) <> 0)%nat by (intros H0; apply nil_length_inv in H0; rewrite H0 in Hlose; set_solver).
    rewrite length_drop in *. lia.
Qed.
End Assign.
End ActiveSet.

(** ** The whole end of an epoch *)

Lemma base_next_epoch_reward {E} b r b' : @BaseRate.next_epoch E b r = Ok b' -> base_reward_rate b' = r.
Proof. unfold BaseRate.next_epoch. intros Hb. inv_outcome. by simplify_eq. Qed.

Section EndEpoch.
Context `{StakeEnv} (h : Z).
Notation wf_at := (well_formed h (fun _ => h)).

Lemma for_fold_reads {A B} (body : B -> A -> stake B) : (forall b a s r s', body b a s = (Ok r, s') -> s' = s) ->
  forall l b s r s', for_fold l b body s = (Ok r, s') -> s' = s.
Proof.
  intros Hb. induction l as [|a l IH]; intros b s r s' Hrun; cbn in Hrun; [by apply ret_ok in Hrun as [_ ->]|].
  apply bind_ok in Hrun as (b' & s1 & H1 & Hrun). apply Hb in H1 as ->. by eapply IH.
Qed.

Lemma collect_changes_reads tallies height s r s' : collect_changes tallies height s = (Ok r, s') -> s' = s.
Proof. unfold collect_changes, get_delegation_changes. intros Hrun. by inv_stake. Qed.

Lemma add_active_stake_run total id s r s' :
  wf_at s -> is_u128 total -> add_active_stake total id s = (Ok r, s') -> s' = s /\ is_u128 r.
Proof.
  intros W Ht Hrun. unfold add_active_stake in Hrun. apply bind_ok in Hrun as (st & s2 & H1 & Hrun).
  apply asks_ok in H1 as [H1 ->]. apply ok_or_ok in H1. unfold get_validator_state in H1.
  case_decide; [by apply ret_ok in Hrun as [-> ->]|]. inv_stake. unfold get_validator_pool_size, get_validator_rate in *. simplify_eq.
  match goal with Hs : pool_sizes s !! id = _, Hr : current_rates s !! id = _, Hu : Rate.unbonded_amount _ _ = _ |- _ =>
    destruct (view_known_inv _ _ _ _ (wf_view _ _ _ W id) H1) as (v & b & pool & power & rate & u & ix & E & _ & _ & _ & Hpool & _ & Hrate & _);
    injection E as _ _ _ E1 _ E2 _ _; rewrite E1 in Hs; rewrite E2 in Hr; simplify_eq; pose proof (unbonded_amount_width _ _ _ Hrate Hpool Hu)
  end.
  split; [done|]. unfold in_width in *. match goal with Hs : Prelude.checked_add _ _ _ = Some _ |- _ => apply checked_add_some in Hs end. lia.
Qed.

Lemma total_active_stake_run s r s' : wf_at s -> total_active_stake s = (Ok r, s') -> s' = s /\ is_u128 r.
Proof.
  intros W. unfold total_active_stake. rewrite bind_gets. generalize (get_consensus_set s) as l.
  assert (H0 : is_u128 0) by by_computation. revert H0. generalize 0 as total.
  intros total H0 l. revert total H0. induction l as [|id l IH]; intros total H0 Hrun; cbn in Hrun; [by apply ret_ok in Hrun as [-> ->]|].
  apply bind_ok in Hrun as (t & s1 & H1 & Hrun). destruct (add_active_stake_run _ _ _ _ _ W H0 H1) as [-> H2]. by apply (IH t).
Qed.

(** The budget is an amount. *)
Definition budget_ok (s : StakeState) : Prop := forall i, issuance_budget s = Some i -> is_u128 i.

(** The base rate of the next epoch is all that changes, and its reward is not negative. *)
Lemma chain_base_rate_run s b s' :
  wf_at s -> budget_ok s -> process_chain_base_rate s = (Ok b, s') ->
  0 <= base_reward_rate b /\ exists old, base_rate s = Some old
    /\ s' = set_previous_base_rate (Some old) (set_base_rate (Some b) s).
Proof.
  intros W Hi. unfold process_chain_base_rate, get_current_base_rate. intros Hrun.
  apply bind_ok in Hrun as (old & s1 & H1 & Hrun). apply asks_ok in H1 as [H1 ->]. apply expect_some_ok in H1.
  apply bind_ok in Hrun as (issuance & s1 & H2 & Hrun). apply asks_ok in H2 as [H2 ->]. apply expect_some_ok, Hi in H2.
  apply bind_ok in Hrun as (total & s1 & Ht & Hrun). destruct (total_active_stake_run _ _ _ W Ht) as [-> Hw].
  apply bind_ok in Hrun as (ratio & s1 & H3 & Hrun). apply lift_ok in H3 as [H3 ->]. apply (proj1 (expect_ok_ok _ _)) in H3.
  apply bind_ok in Hrun as (scaled & s1 & H4 & Hrun). apply lift_ok in H4 as [H4 ->]. apply (proj1 (expect_ok_ok _ _)) in H4.
  apply bind_ok in Hrun as (reward & s1 & H5 & Hrun). apply lift_ok in H5 as [H5 ->].
  apply bind_ok in Hrun as (next & s1 & H6 & Hrun). apply lift_ok in H6 as [H6 ->].
  rewrite !bind_modify in Hrun. apply ret_ok in Hrun as [-> ->]. split; [|by exists old].
  rewrite (base_next_epoch_reward _ _ _ H6).
  assert (Wr : U128x128.wf ratio).
  { eapply U128x128.checked_div_wf; [|by apply U128x128.wf_from_uint|exact H3]. by apply U128x128.wf_from_uint. }
  eapply (to_amount_width scaled); [|exact H5]. exact (U128x128.checked_mul_wf _ _ _ Wr factor_wf H4).
Qed.

(** The end of an epoch leaves all that concerns no single validator, but for the rates and the queue. *)
Definition same_but_rates (s s' : StakeState) : Prop := same_globals (set_base_rate None s) (set_base_rate None s').

Lemma same_globals_but_rates s s' : same_globals s s' -> same_but_rates s s'.
Proof. by intros []; split. Qed.

Lemma same_but_rates_trans s1 s2 s3 : same_but_rates s1 s2 -> same_but_rates s2 s3 -> same_but_rates s1 s3.
Proof. apply same_globals_trans. Qed.

(** Fields outside the views. *)
Lemma well_formed_same n s s' :
  well_formed h n s -> same_but_rates s s' -> (forall j, view s' j = view s j) -> penalties s' = penalties s -> well_formed h n s'.
Proof.
  intros [V K P C] G Hv Hp. split.
  - intros j. rewrite Hv. apply V.
  - assert (K0 : keys_ok (set_base_rate None s)) by (by destruct K). by destruct (same_globals_keys _ _ G K0).
  - unfold penalties_ok. by rewrite Hp.
  - assert (C0 : clock_ok h (set_base_rate None s)) by (by destruct C). by destruct (same_globals_clock h _ _ G C0).
Qed.

Lemma view_moves s s' : (forall j, view s' j = view s j) -> all_epoch_moves s s'.
Proof. intros Hv j. specialize (Hv j). injection Hv as _ V _ _ _ _ _ _. rewrite V. apply all_epoch_moves_refl. Qed.

Lemma election_moves limit s s' : wf_at s -> index_electable s -> election h limit s s' -> all_epoch_moves s s'.
Proof.
  intros W He E j. destruct (decide (j ∈ consensus_set_index s)) as [Hj|Hj].
  - pose proof (He j Hj) as Hel.
    assert (Hin : j ∈ (elected limit s).*1 \/ j ∈ (defeated limit s).*1) by (apply split_consensus; split; [by apply elem_of_consensus_set|done]).
    right. assert (Hold : exists old, states s !! j = Some old /\ electable old) by (unfold electable; destruct Hel; eauto 6).
    destruct Hold as (old & Hold & Ho). exists old. unfold epoch_moves, electable in *.
    destruct Hin as [Hin|Hin]; [exists Active|exists Inactive]; (split; [done|]); split; auto.
    + by apply (election_winners _ _ _ _ E).
    + by apply (election_losers _ _ _ _ E).
  - pose proof (election_others _ _ _ _ E j Hj) as V. injection V as _ V _ _ _ _ _ _. rewrite V. apply all_epoch_moves_refl.
Qed.

(** What a successful [end_epoch] has done. *)
Record epoch_ended (s s' : StakeState) : Prop := {
  ended_frame : same_but_rates s s';
  ended_wf : wf_at s';
  ended_moves : all_epoch_moves s s';
  ended_active : exists p, stake_params s = Some p /\ strongest_active (Z.to_nat (active_validator_limit p)) s';
}.

Lemma end_epoch_keeps e s u s' :
  wf_at s -> budget_ok s -> get_epoch_by_height h s = (Ok e, s) -> 0 <= start_height e <= h ->
  EpochHandler.end_epoch e s = (Ok u, s') -> epoch_ended s s'.
Proof.
  intros W Hb He Hstart Hrun. unfold EpochHandler.end_epoch in Hrun.
  rewrite (bind_run_ok _ _ _ _ _ (block_height_run h s (wf_clock _ _ _ W))) in Hrun.
  apply bind_ok in Hrun as ([del und] & s1 & H1 & Hrun). apply for_fold_reads in H1 as ->; [|by intros; eapply collect_changes_reads].
  apply bind_ok in Hrun as (base & s1 & H2 & Hrun). destruct (chain_base_rate_run _ _ _ W Hb H2) as (Hbase & old & _ & ->).
  set (s1 := set_previous_base_rate _ _) in Hrun.
  assert (G1 : same_but_rates s s1) by done. assert (V1 : forall j, view s1 j = view s j) by done.
  assert (P1 : penalties s1 = penalties s) by done. assert (He1 : get_epoch_by_height h s1 = (Ok e, s1)).
  { unfold get_epoch_by_height, asks in *. injection He as He. unfold s1. cbn. by rewrite He. }
  pose proof (well_formed_same _ _ _ W G1 V1 P1) as W1. clearbody s1.
  rewrite bind_gets in Hrun. set (ids := merge_sort Z.le _) in Hrun.
  assert (Hids : forall j, j ∈ consensus_set_index s1 -> j ∈ ids).
  { intros j Hj. unfold ids. rewrite merge_sort_Permutation, elem_of_elements. set_solver. }
  assert (Hnd : NoDup ids) by (unfold ids; rewrite merge_sort_Permutation; apply NoDup_elements). clearbody ids.
  apply bind_ok in Hrun as (queue & s2 & H3 & Hrun). unfold process_validators in H3.
  destruct (process_validators_keeps h del und e base ids _ _ _ _ Hnd W1 He1 Hstart Hbase H3) as [G2 W2 O2 I2 M2].
  unfold queue_staking_rewards in Hrun. rewrite bind_modify in Hrun. set (s3 := set_funding_queue _ s2) in Hrun.
  assert (W3 : wf_at s3) by (by eapply (well_formed_same _ s2)).
  assert (He3 : index_electable s3).
  { intros j Hj. destruct (decide (j ∈ ids)) as [Hji|Hji]; [by apply I2|]. exfalso. apply Hji, Hids.
    pose proof (O2 j Hji) as V. injection V as _ _ _ _ _ _ _ Vx. eapply bool_decide_eq_true_1. rewrite <- Vx. by apply bool_decide_eq_true_2. }
  destruct (set_active_and_inactive_runs h s3 W3 He3) as (u' & s4 & Hrun' & p & Hp & E). rewrite Hrun in Hrun'. injection Hrun' as -> ->.
  split.
  - eapply same_but_rates_trans; [exact G1|]. eapply same_but_rates_trans; [apply same_globals_but_rates, G2|].
    apply same_globals_but_rates. apply same_globals_trans with s3; [done|]. exact (election_globals _ _ _ _ E).
  - apply E.
  - eapply all_epoch_moves_trans; [by apply view_moves|]. eapply all_epoch_moves_trans; [exact M2|].
    eapply all_epoch_moves_trans; [by apply (view_moves s2 s3)|]. by eapply election_moves.
  - exists p. split; [|by eapply election_strongest]. rewrite <- Hp. change (stake_params s3) with (stake_params s2).
    rewrite (same_params _ _ G2). symmetry. exact (same_params _ _ G1).
Qed.
End EndEpoch.
