(* ===== verification/StakeComet.v ===== *)
(** * Facts about the updates for CometBFT

    Building the updates always succeeds in a well-formed state, whatever the order in which the
    lookups complete, and the lemmas say which validators the updates name. *)

From S2P Require Import Prelude.
From S2P Require Import Num.
From S2P Require Import Asset.
From S2P Require Import DexState.
From S2P Require Import Clock.
From S2P Require Import Validator.
From S2P Require Import Rate.
From S2P Require Import Stake.
From S2P Require Import StakeManager.
From S2P Require Import StakeEpoch.
From S2P Require Import StakeFacts.
From S2P Require Import StakeUptime.
From S2P Require Import StakeElection.
Import ValidatorState.
Import BondingState.
Import StakeRead.
Import StakeWrite.
Import ConsensusIndex.
Import ValidatorManager.
Import EpochHandler.

(** ** The table of powers *)

Section Comet.
Context `{StakeEnv}.

Definition key_of (s : StakeState) (id : identity_key) : consensus_key :=
  default 0 (validator_consensus_key <$> definitions s !! id).
Definition voting_weight (s : StakeState) (id : identity_key) : Z :=
  if decide (states s !! id = Some Active) then default 0 (powers s !! id) else 0.

Lemma effective_power_run h n s id :
  well_formed h n s -> id ∈ consensus_set_index s ->
  effective_power id s = Ok (key_of s id, voting_weight s id) /\ 0 <= voting_weight s id <= MAX_VOTING_POWER
  /\ exists v, definitions s !! id = Some v /\ key_of s id = validator_consensus_key v.
Proof.
  intros W Hid. destruct (indexed_known _ _ _ _ W Hid) as [st Hst].
  destruct (view_known_state _ _ _ _ (wf_view _ _ _ W id) Hst) as (v & b & pool & power & rate & Hv & _ & _ & Hp & _ & _ & _ & _ & _ & Hpw & _ & _).
  unfold view in Hv, Hp. cbn in Hv, Hp.
  unfold effective_power, voting_weight, key_of, get_validator_state, get_validator_power, fetch_validator_consensus_key, get_validator_definition.
  rewrite Hst, Hp, Hv. cbn. split; [|split; [|by exists v]].
  - destruct (decide (st = Active)) as [->|Hne]; cbn; [by rewrite decide_True|]. by rewrite decide_False by congruence.
  - case_decide; unfold MAX_VOTING_POWER in *; lia.
Qed.

(** Members of the index have keys of their own. *)
Lemma key_of_inj h n s i j :
  well_formed h n s -> i ∈ consensus_set_index s -> j ∈ consensus_set_index s -> key_of s i = key_of s j -> i = j.
Proof.
  intros W Hi Hj E. destruct (effective_power_run _ _ _ _ W Hi) as (_ & _ & v & Hv & Ev), (effective_power_run _ _ _ _ W Hj) as (_ & _ & w & Hw & Ew).
  pose proof (keys_owned _ (wf_keys _ _ _ W) _ _ Hv) as Oi. pose proof (keys_owned _ (wf_keys _ _ _ W) _ _ Hw) as Oj. congruence.
Qed.

(** The table once every task has completed. *)
Definition power_table (s : StakeState) (ids : list identity_key) : gmap consensus_key Z :=
  foldl (fun table id => <[key_of s id := voting_weight s id]> table) ∅ ids.

Lemma collect_powers_run h n s schedule :
  well_formed h n s -> fair schedule -> collect_powers schedule s = Ok (power_table s (schedule (get_consensus_set s))).
Proof.
  intros W Hf. unfold collect_powers, power_table.
  assert (Hin : forall id, id ∈ schedule (get_consensus_set s) -> id ∈ consensus_set_index s)
    by (intros id; by rewrite (Hf _), elem_of_consensus_set).
  revert Hin. generalize (schedule (get_consensus_set s)) as ids. generalize (∅ : gmap consensus_key Z) as table.
  intros table ids. revert table. induction ids as [|id ids IH]; intros table Hin; [done|]. cbn.
  rewrite (proj1 (effective_power_run _ _ _ _ W (Hin id ltac:(set_solver)))). cbn. apply IH. set_solver.
Qed.

Lemma power_table_lookup h n s ids k p :
  well_formed h n s -> (forall id, id ∈ ids -> id ∈ consensus_set_index s) ->
  power_table s ids !! k = Some p <-> exists id, id ∈ ids /\ key_of s id = k /\ voting_weight s id = p.
Proof.
  intros W. unfold power_table. induction ids as [|id ids IH] using rev_ind; intros Hin.
  { cbn. rewrite lookup_empty. set_solver. }
  rewrite foldl_app. cbn. destruct (decide (key_of s id = k)) as [<-|Hne].
  - rewrite lookup_insert_eq. split.
    + intros [= <-]. exists id. set_solver.
    + intros (j & Hj & Hk & <-). by rewrite (key_of_inj _ _ _ j id W (Hin _ Hj) (Hin id ltac:(set_solver)) Hk).
  - rewrite lookup_insert_ne by done. rewrite IH by set_solver. split; intros (j & Hj & Hk & Hp); exists j; [set_solver|].
    split; [|done]. apply elem_of_app in Hj as [Hj|Hj]; [done|]. set_solver.
Qed.

(** The order of completion does not matter. *)
Lemma power_table_scheduled h n s schedule :
  well_formed h n s -> fair schedule -> power_table s (schedule (get_consensus_set s)) = power_table s (get_consensus_set s).
Proof.
  intros W Hf. apply map_eq. intros k. apply option_eq. intros p.
  rewrite !(power_table_lookup _ _ _ _ _ _ W) by (intros id; rewrite ?(Hf _); by rewrite elem_of_consensus_set).
  by setoid_rewrite (Hf _).
Qed.

(** Of a well-formed state: the keys with power are those of the active validators that have some. *)
Lemma power_table_spec h n s k p :
  well_formed h n s -> p <> 0 ->
  power_table s (get_consensus_set s) !! k = Some p
  <-> exists id v, states s !! id = Some Active /\ definitions s !! id = Some v /\ validator_consensus_key v = k /\ powers s !! id = Some p.
Proof.
  intros W Hp. rewrite (power_table_lookup _ _ _ _ _ _ W) by (intros id; by rewrite elem_of_consensus_set). split.
  - intros (id & Hid & <- & Hw). apply elem_of_consensus_set in Hid.
    destruct (effective_power_run _ _ _ _ W Hid) as (_ & _ & v & Hv & Ev). exists id, v. unfold voting_weight in Hw.
    case_decide; [|done]. destruct (powers s !! id); cbn in Hw; [|done]. subst. auto.
  - intros (id & v & Hst & Hv & <- & Hpow). exists id. split; [|split].
    + apply elem_of_consensus_set. eapply elector_indexed; [exact W|by left].
    + unfold key_of. by rewrite Hv.
    + unfold voting_weight. by rewrite decide_True, Hpow by done.
Qed.

(** ** The updates *)

Lemma updates_of_power m known k p :
  map_Forall (fun _ q => 0 <= q) m -> p <> 0 -> updates_of m known !! k = Some p <-> m !! k = Some p.
Proof.
  intros Hm Hp. unfold updates_of. rewrite lookup_union_Some_raw, map_lookup_filter_Some, lookup_gset_to_gmap_Some. split.
  - intros [[Hk _]|[_ [_ ?]]]; [done|congruence].
  - intros Hk. left. split; [done|]. left. cbn. pose proof (map_Forall_lookup_1 _ _ _ _ Hm Hk) as Hq. cbn in Hq. lia.
Qed.

Lemma updates_of_zero m known k :
  map_Forall (fun _ q => 0 <= q) m ->
  updates_of m known !! k = Some 0 <-> k ∈ known /\ forall p, m !! k = Some p -> p = 0.
Proof.
  intros Hm. unfold updates_of.
  rewrite lookup_union_Some_raw, map_lookup_filter_Some, map_lookup_filter_None, lookup_gset_to_gmap_Some, elem_of_list_to_set. split.
  - intros [[Hk [Hlt|Hin]]|[Hno [Hin _]]]; cbn in *; [lia|split; [done|congruence]|]. split; [done|].
    intros p Hk. destruct Hno as [Hno|Hno]; [congruence|]. exfalso. apply (Hno p Hk). by right.
  - intros [Hin Hz]. destruct (m !! k) as [p|] eqn:Hk; [left|right].
    + rewrite (Hz p eq_refl). split; [done|]. by right.
    + auto.
Qed.

Lemma in_key_order_spec m : StronglySorted key_le (in_key_order m) /\ NoDup (in_key_order m).*1
  /\ forall k p, (k, p) ∈ in_key_order m <-> m !! k = Some p.
Proof.
  unfold in_key_order. split_and!.
  - apply StronglySorted_merge_sort; unfold key_le; [intros ???; lia|intros ??; lia].
  - rewrite merge_sort_Permutation. apply NoDup_fst_map_to_list.
  - intros k p. rewrite merge_sort_Permutation. apply elem_of_map_to_list.
Qed.

Lemma comet_power_run p : 0 <= p <= MAX_VOTING_POWER -> comet_power p = Ok p.
Proof.
  intros Hp. unfold comet_power. rewrite Z.mod_small by (unfold MAX_VOTING_POWER in Hp; lia).
  unfold max_int. case (Z.leb_spec p (2 ^ 63 - 1)); [done|]. unfold MAX_VOTING_POWER in Hp. lia.
Qed.

Lemma collect_updates_run l : Forall (fun kp : consensus_key * Z => 0 <= kp.2 <= MAX_VOTING_POWER) l -> collect_updates l = Ok l.
Proof.
  induction 1 as [|[k p] l Hp _ IH]; [done|]. cbn in Hp |- *. rewrite comet_power_run by done. cbn [outcome_bind].
  by rewrite IH.
Qed.

Lemma power_table_range h n s : well_formed h n s -> map_Forall (fun _ p => 0 <= p <= MAX_VOTING_POWER) (power_table s (get_consensus_set s)).
Proof.
  intros W k p Hk. rewrite (power_table_lookup _ _ _ _ _ _ W) in Hk by (intros id; by rewrite elem_of_consensus_set).
  destruct Hk as (id & Hid & _ & <-). apply elem_of_consensus_set in Hid. apply (effective_power_run _ _ _ _ W Hid).
Qed.

(** What is sent, and what is kept. *)
Definition comet_updates (s : StakeState) (known : list consensus_key) : list (consensus_key * Z) :=
  in_key_order (updates_of (power_table s (get_consensus_set s)) known).
Definition updated (s : StakeState) (known : list consensus_key) : StakeState :=
  set_consensus_keys (Some (fst <$> filter (fun kp : consensus_key * Z => kp.2 <> 0) (comet_updates s known)))
    (set_validator_updates (Some (comet_updates s known)) s).

Lemma build_updates_run h n s known schedule :
  well_formed h n s -> consensus_keys s = Some known -> fair schedule ->
  build_cometbft_validator_updates schedule s = (Ok tt, updated s known).
Proof.
  intros W Hk Hf. unfold build_cometbft_validator_updates, bind at 1, asks at 1. rewrite Hk. cbn [expect_some].
  unfold bind at 1, asks at 1. rewrite (collect_powers_run _ _ _ _ W Hf), (power_table_scheduled _ _ _ _ W Hf).
  fold (comet_updates s known). rewrite collect_updates_run; [reflexivity|].
  apply Forall_forall. intros [k p] Hin. apply in_key_order_spec in Hin. cbn.
  pose proof (power_table_range _ _ _ W) as Hr.
  assert (Hm : map_Forall (fun _ q => 0 <= q) (power_table s (get_consensus_set s))) by (intros k' p' Hk'; apply (Hr k' p' Hk')).
  destruct (decide (p = 0)) as [->|Hp]; [unfold MAX_VOTING_POWER; lia|]. apply (updates_of_power _ _ _ _ Hm Hp) in Hin.
  by apply (Hr k p).
Qed.

(** The active validators with power, by their keys. *)
Definition validating (s : StakeState) (k : consensus_key) (p : Z) : Prop :=
  p <> 0 /\ exists id v, states s !! id = Some Active /\ definitions s !! id = Some v /\ validator_consensus_key v = k /\ powers s !! id = Some p.

Record updates_right (s : StakeState) (known : list consensus_key) (updates : list (consensus_key * Z)) : Prop := {
  updates_once : NoDup updates.*1;
  updates_power k p : p <> 0 -> (k, p) ∈ updates <-> validating s k p;
  updates_removal k : (k, 0) ∈ updates <-> k ∈ known /\ forall p, ~ validating s k p;
}.

Lemma comet_updates_right h n s known : well_formed h n s -> updates_right s known (comet_updates s known).
Proof.
  intros W. destruct (in_key_order_spec (updates_of (power_table s (get_consensus_set s)) known)) as (_ & Hnd & Hin).
  assert (Hm : map_Forall (fun _ q => 0 <= q) (power_table s (get_consensus_set s)))
    by (intros k' p' Hk'; apply (power_table_range _ _ _ W k' p' Hk')).
  unfold comet_updates. split; [done|..].
  - intros k p Hp. rewrite Hin, (updates_of_power _ _ _ _ Hm Hp), (power_table_spec _ _ _ _ _ W Hp). unfold validating. naive_solver.
  - intros k. rewrite Hin, (updates_of_zero _ _ _ Hm). split; intros [Hk Hp]; (split; [done|]).
    + intros p [Hne Hv]. apply (power_table_spec _ _ _ k p W Hne) in Hv. auto.
    + intros p Hv. destruct (decide (p = 0)) as [|Hne]; [done|]. exfalso. apply (Hp p). split; [done|].
      by apply (power_table_spec _ _ _ _ _ W Hne).
Qed.

(** The keys kept are those of the validating validators. *)
Lemma updated_keys h n s known : well_formed h n s -> exists keys, consensus_keys (updated s known) = Some keys
  /\ forall k, k ∈ keys <-> exists p, validating s k p.
Proof.
  intros W. eexists. split; [reflexivity|]. intros k. destruct (comet_updates_right _ _ _ known W) as [_ Hp _].
  rewrite list_elem_of_fmap. split.
  - intros ([k' p] & -> & Hin). apply list_elem_of_filter in Hin as [Hne Hin]. cbn in *. exists p. by apply Hp.
  - intros (p & Hv). exists (k, p). split; [done|]. apply list_elem_of_filter. split; [apply Hv|]. apply Hp; [apply Hv|done].
Qed.

Lemma updated_keeps h n s known : well_formed h n s -> well_formed h n (updated s known).
Proof. intros [V K P C]. split; [exact V|by destruct K|exact P|by destruct C]. Qed.
End Comet.

(** ** The set that CometBFT keeps *)

(** What ABCI and CometBFT document of the updates in a response: each key occurs at most once, a power
    is not negative and within the bound, a power of zero removes a validator of the set, and any
    other one adds or changes one.  The set that results may not be empty, and its total power may not
    exceed [MaxTotalVotingPower], an eighth of the largest i64 (types/validator_set.go, which
    stake/src/component/mod.rs refers to).  A response without updates changes nothing; one that
    breaks a rule halts the node. *)
Section Set_of_powers.
Implicit Types (powers : gmap consensus_key Z) (updates : list (consensus_key * Z)).

Definition MaxTotalVotingPower : Z := (2 ^ 63 - 1) / 8.

Definition proper updates powers : Prop :=
  NoDup updates.*1
  /\ Forall (fun kp => 0 <= kp.2 <= MaxTotalVotingPower /\ (kp.2 = 0 -> is_Some (powers !! kp.1))) updates.

Definition comet_update powers (kp : consensus_key * Z) : gmap consensus_key Z :=
  if decide (kp.2 = 0) then delete kp.1 powers else <[kp.1 := kp.2]> powers.
Definition merged updates powers : gmap consensus_key Z := foldl comet_update powers updates.

Definition total_power powers : Z := map_sum (fun p => p) powers.
Definition electable powers : Prop := powers <> ∅ /\ total_power powers <= MaxTotalVotingPower.

Definition acceptable updates powers : Prop :=
  proper updates powers /\ (updates = [] \/ electable (merged updates powers)).

#[global] Instance electable_decision powers : Decision (electable powers).
Proof. unfold electable. apply _. Defined.
#[global] Instance acceptable_decision updates powers : Decision (acceptable updates powers).
Proof. unfold acceptable, proper. apply _. Defined.

Definition comet_apply updates powers : option (gmap consensus_key Z) :=
  if decide (acceptable updates powers) then Some (merged updates powers) else None.

Lemma comet_apply_merged updates powers held : comet_apply updates powers = Some held -> held = merged updates powers.
Proof. unfold comet_apply. case_decide; congruence. Qed.

(** Proper updates are accepted when they change nothing, or lead to a set that CometBFT can work with. *)
Lemma comet_apply_proper updates powers : proper updates powers ->
  comet_apply updates powers
  = if decide (updates = [] \/ electable (merged updates powers)) then Some (merged updates powers) else None.
Proof. intros Hp. unfold comet_apply, acceptable. repeat case_decide; try done; tauto. Qed.

Lemma merged_nil powers : merged [] powers = powers.
Proof. done. Qed.

Lemma proper_nil powers : proper [] powers.
Proof. split; [constructor|done]. Qed.

Lemma comet_update_lookup updates powers k p : NoDup updates.*1 ->
  merged updates powers !! k = Some p <-> (p <> 0 /\ (k, p) ∈ updates) \/ (k ∉ updates.*1 /\ powers !! k = Some p).
Proof.
  unfold merged. induction updates as [|[j q] l IH] using rev_ind; intros Hnd; [cbn; set_solver|].
  rewrite fmap_app in Hnd |- *. apply NoDup_app in Hnd as (Hnd & Hj & _). cbn in Hj.
  rewrite foldl_app. cbn. unfold comet_update at 1. cbn.
  assert (Hin : forall x, (j, x) ∉ l) by (intros x Hx; apply (Hj j); [|by left]; apply list_elem_of_fmap; by exists (j, x)).
  rewrite elem_of_app, not_elem_of_app, list_elem_of_singleton, elem_of_cons. destruct (decide (k = j)) as [->|Hne].
  - destruct (decide (q = 0)) as [->|Hq]; rewrite ?lookup_delete_eq, ?lookup_insert_eq; naive_solver.
  - destruct (decide (q = 0)) as [->|Hq]; rewrite ?lookup_delete_ne, ?lookup_insert_ne by done; rewrite IH by done; set_solver.
Qed.
End Set_of_powers.

Section Follows.
Context `{StakeEnv}.

(** The keys that staking remembers are those of the set. *)
Definition remembers (known : list consensus_key) (held : gmap consensus_key Z) : Prop := forall k, k ∈ known <-> is_Some (held !! k).
(** The set is that of the validating validators. *)
Definition follows (s : StakeState) (held : gmap consensus_key Z) : Prop := forall k p, held !! k = Some p <-> validating s k p.

Lemma validating_range h n s k p : well_formed h n s -> validating s k p -> 0 <= p <= MAX_VOTING_POWER.
Proof. intros W [Hp Hv]. apply (power_table_spec _ _ _ k p W Hp) in Hv. exact (power_table_range _ _ _ W k p Hv). Qed.

(** The updates are proper, and lead from any set whose keys are remembered to the validating validators. *)
Lemma comet_follows h n s known held :
  well_formed h n s -> remembers known held ->
  proper (comet_updates s known) held /\ follows s (merged (comet_updates s known) held).
Proof.
  intros W Hr. destruct (comet_updates_right _ _ _ known W) as [Hnd Hpow Hrem]. split.
  { split; [done|]. apply Forall_forall. intros [k p] Hin. cbn. destruct (decide (p = 0)) as [->|Hp].
    - split; [by_computation|]. intros _. apply Hr. by apply (Hrem k).
    - split; [|done]. apply (Hpow k p Hp) in Hin. pose proof (validating_range _ _ _ _ _ W Hin) as Hb.
      unfold MAX_VOTING_POWER in Hb. unfold MaxTotalVotingPower. change ((2 ^ 63 - 1) / 8) with 1152921504606846975. lia. }
  intros k p. rewrite (comet_update_lookup _ _ _ _ Hnd). split.
  - intros [[Hp Hin]|[Hno Hk]]; [by apply Hpow|]. exfalso.
    assert (Hnv : ~ forall q, ~ validating s k q).
    { intros Hnv. apply Hno, list_elem_of_fmap. exists (k, 0). split; [done|]. apply Hrem. split; [|done]. apply Hr. by exists p. }
    apply Hnv. intros q Hv. apply Hno, list_elem_of_fmap. exists (k, q). split; [done|]. apply Hpow; [apply Hv|done].
  - intros Hv. left. split; [apply Hv|]. apply Hpow; [apply Hv|done].
Qed.

Lemma updated_remembers h n s known held : well_formed h n s -> follows s held ->
  exists keys, consensus_keys (updated s known) = Some keys /\ remembers keys held.
Proof.
  intros W Hf. destruct (updated_keys _ _ _ known W) as (keys & E & Hk). exists keys. split; [done|]. intros k.
  rewrite Hk. unfold is_Some. by setoid_rewrite (Hf k).
Qed.
End Follows.
