(* ===== verification/StakeHandlers.v ===== *)
(** * The action handlers of staking keep validators well-formed

    Delegations and undelegations only queue; definitions add a validator or update one. *)

From S2P Require Import Prelude.
From S2P Require Import Num.
From S2P Require Import Asset.
From S2P Require Import DexState.
From S2P Require Import Clock.
From S2P Require Import Validator.
From S2P Require Import Rate.
From S2P Require Import RateFacts.
From S2P Require Import Stake.
From S2P Require Import StakeManager.
From S2P Require Import StakeEpoch.
From S2P Require Import StakeFacts.
From S2P Require Import StakeEpochFacts.
From S2P Require Import StakeComet.
Import ValidatorState.
Import BondingState.
Import StakeRead.
Import StakeWrite.
Import ConsensusIndex.
Import ValidatorManager.
Import StakeActions.

(** What the invariant reads. *)
Record same_core (s s' : StakeState) : Prop := {
  core_views j : view s' j = view s j;
  core_definitions : definitions s' = definitions s;
  core_owners : identity_by_consensus_key s' = identity_by_consensus_key s;
  core_addresses : consensus_key_by_address s' = consensus_key_by_address s;
  core_params : stake_params s' = stake_params s;
  core_penalties : penalties s' = penalties s;
  core_clock : clock s' = clock s;
  core_keys : consensus_keys s' = consensus_keys s;
  core_updates : validator_updates s' = validator_updates s;
}.

Section Handlers.
Context `{StakeEnv}.

Lemma same_core_well_formed h n s s' : well_formed h n s -> same_core s s' -> well_formed h n s'.
Proof.
  intros [V [K1 K2 K3] P [C1 C2 C3 C4]] S. split.
  - intros j. rewrite (core_views _ _ S). apply V.
  - split; intros *; rewrite ?(core_definitions _ _ S), ?(core_owners _ _ S), ?(core_addresses _ _ S); eauto.
  - unfold penalties_ok. by rewrite (core_penalties _ _ S).
  - split; rewrite ?(core_clock _ _ S), ?(core_params _ _ S); done.
Qed.

(** Nothing is sent to CometBFT yet, and the keys of the set it holds are remembered. *)
Definition keyed (held : gmap consensus_key Z) (s : StakeState) : Prop :=
  (exists known, consensus_keys s = Some known /\ remembers known held) /\ validator_updates s = None.

Lemma keyed_same held s s' :
  keyed held s -> consensus_keys s' = consensus_keys s -> validator_updates s' = validator_updates s -> keyed held s'.
Proof. unfold keyed. by intros K -> ->. Qed.

(** The invariant of staking while a block runs its transactions. *)
Definition staking_ok (held : gmap consensus_key Z) (h : Z) (s : StakeState) : Prop := well_formed h (fun _ => h) s /\ keyed held s.

Context (held : gmap consensus_key Z).
Notation running := (staking_ok held).

Lemma same_core_running h s s' : running h s -> same_core s s' -> running h s'.
Proof. intros [W K] S. split; [by eapply same_core_well_formed|]. eapply keyed_same; [exact K|apply S..]. Qed.

Lemma same_globals_keyed s s' : keyed held s -> same_globals s s' -> keyed held s'.
Proof. intros K G. eapply keyed_same; [exact K|apply G..]. Qed.

(** *** Delegations *)

Lemma check_first_delegation_reads d s u s' : check_first_delegation d s = (Ok u, s') -> s' = s.
Proof. unfold check_first_delegation, get_stake_params. intros Hrun. inv_stake. case_decide; by inv_stake. Qed.

Lemma delegate_keeps h d s u s' : running h s -> delegate_check_and_execute d s = (Ok u, s') -> running h s'.
Proof.
  intros K Hrun. unfold delegate_check_and_execute, get_current_epoch, push_delegation in Hrun. inv_stake.
  match goal with Hc : check_first_delegation _ _ = _ |- _ => apply check_first_delegation_reads in Hc as -> end.
  eapply same_core_running; [exact K|]. done.
Qed.

Lemma undelegate_keeps h d s u s' : running h s -> undelegate_check_and_execute d s = (Ok u, s') -> running h s'.
Proof.
  intros K Hrun. unfold undelegate_check_and_execute, get_current_epoch, push_undelegation, register_denom in Hrun. inv_stake.
  eapply same_core_running; [exact K|]. done.
Qed.

Lemma claim_keeps h id penalty start s u s' :
  running h s -> undelegate_claim_check_and_execute id penalty start s = (Ok u, s') -> running h s'.
Proof.
  intros K Hrun.
  unfold undelegate_claim_check_and_execute, get_block_height, compute_unbonding_height, get_epoch_by_height, Slashing.compounded_penalty_over_range, get_stake_params in Hrun.
  inv_stake. destruct (get_validator_bonding_state id s); inv_stake; destruct (_ <? _); by inv_stake.
Qed.

(** *** Definitions *)

(** A definition whose consensus key belongs to nobody else takes the place of the previous one. *)
Lemma well_formed_defined h n id v s s' :
  well_formed h n s -> (forall j, j <> id -> view s' j = view s j) -> view_ok (n id) id (view s' id) ->
  definitions s' = <[id := v]> (definitions s) ->
  identity_by_consensus_key s' = <[validator_consensus_key v := id]> (identity_by_consensus_key s) ->
  consensus_key_by_address s' = <[validator_address (validator_consensus_key v) := validator_consensus_key v]> (consensus_key_by_address s) ->
  (forall j w, definitions s !! j = Some w -> validator_consensus_key w = validator_consensus_key v -> j = id) ->
  penalties s' = penalties s -> clock s' = clock s -> stake_params s' = stake_params s ->
  well_formed h n s'.
Proof.
  intros [V [K1 K2 K3] P [C1 C2 C3 C4]] Hv Hid Hd Ho Ha Hfree Hp Hc Hps. split.
  - intros j. destruct (decide (j = id)) as [->|Hj]; [done|]. rewrite Hv by done. apply V.
  - split.
    + intros j w. rewrite Hd, Ho. destruct (decide (j = id)) as [->|Hj].
      * rewrite lookup_insert_eq. intros [= <-]. by rewrite lookup_insert_eq.
      * rewrite lookup_insert_ne by done. intros Hw. rewrite lookup_insert_ne; [by apply K1|]. intros E. apply Hj. by eapply Hfree.
    + intros k j. rewrite Hd, Ho. destruct (decide (k = validator_consensus_key v)) as [->|Hk].
      * rewrite lookup_insert_eq. intros [= <-]. rewrite lookup_insert_eq. by eexists.
      * rewrite lookup_insert_ne by done. intros Hj. destruct (decide (j = id)) as [->|Hne]; [rewrite lookup_insert_eq; by eexists|].
        rewrite lookup_insert_ne by done. by eapply K2.
    + intros a k. rewrite Ha, Ho. intros Hk. destruct (decide (k = validator_consensus_key v)) as [->|Hne]; [rewrite lookup_insert_eq; by eexists|].
      rewrite lookup_insert_ne by done. destruct (decide (a = validator_address (validator_consensus_key v))) as [->|Hna].
      * rewrite lookup_insert_eq in Hk. congruence.
      * rewrite lookup_insert_ne in Hk by done. by eapply K3.
  - unfold penalties_ok. by rewrite Hp.
  - split; rewrite ?Hc, ?Hps; done.
Qed.

(** What [add_validator_inner] writes. *)
Record added (v : Validator) (rate : RateData) (st : ValidatorState.t) (b : BondingState.t) (power pool : Z) (s s' : StakeState) : Prop := {
  added_definitions : definitions s' = <[validator_identity v := v]> (definitions s);
  added_states : states s' = <[validator_identity v := st]> (states s);
  added_bonding : bonding_states s' = <[validator_identity v := b]> (bonding_states s);
  added_pools : pool_sizes s' = <[validator_identity v := pool]> (pool_sizes s);
  added_powers : powers s' = <[validator_identity v := power]> (powers s);
  added_rates : current_rates s' = <[validator_identity v := rate]> (current_rates s);
  added_uptimes : uptimes s' = uptimes s;
  added_index : consensus_set_index s' = consensus_set_index s;
  added_owners : identity_by_consensus_key s' = <[validator_consensus_key v := validator_identity v]> (identity_by_consensus_key s);
  added_addresses : consensus_key_by_address s'
    = <[validator_address (validator_consensus_key v) := validator_consensus_key v]> (consensus_key_by_address s);
  added_params : stake_params s' = stake_params s;
  added_penalties : penalties s' = penalties s;
  added_clock : clock s' = clock s;
  added_keys : consensus_keys s' = consensus_keys s;
  added_updates : validator_updates s' = validator_updates s;
  added_power : power <= MAX_VOTING_POWER;
}.

Lemma add_inner_run v rate st b power pool s u s' :
  add_validator_inner v rate st b power pool s = (Ok u, s') -> added v rate st b power pool s s'.
Proof.
  intros Hrun. unfold add_validator_inner, set_validator_power in Hrun.
  destruct (MAX_VOTING_POWER <? power) eqn:Hp; [destruct st; discriminate Hrun|]. to_prop.
  destruct st; try discriminate Hrun; apply (f_equal snd) in Hrun; cbn [snd] in Hrun; rewrite <- Hrun; split; first [reflexivity|exact Hp].
Qed.

Lemma added_view v rate st b power pool s s' :
  added v rate st b power pool s s' -> view s' (validator_identity v)
  = mkView (Some v) (Some st) (Some b) (Some pool) (Some power) (Some rate) (uptimes s !! validator_identity v)
      (bool_decide (validator_identity v ∈ consensus_set_index s)).
Proof.
  intros A. unfold view. rewrite (added_definitions _ _ _ _ _ _ _ _ A), (added_states _ _ _ _ _ _ _ _ A), (added_bonding _ _ _ _ _ _ _ _ A),
    (added_pools _ _ _ _ _ _ _ _ A), (added_powers _ _ _ _ _ _ _ _ A), (added_rates _ _ _ _ _ _ _ _ A), (added_uptimes _ _ _ _ _ _ _ _ A),
    (added_index _ _ _ _ _ _ _ _ A). by rewrite !lookup_insert_eq.
Qed.

Lemma added_others v rate st b power pool s s' j :
  added v rate st b power pool s s' -> j <> validator_identity v -> view s' j = view s j.
Proof.
  intros A Hj. unfold view. rewrite (added_definitions _ _ _ _ _ _ _ _ A), (added_states _ _ _ _ _ _ _ _ A), (added_bonding _ _ _ _ _ _ _ _ A),
    (added_pools _ _ _ _ _ _ _ _ A), (added_powers _ _ _ _ _ _ _ _ A), (added_rates _ _ _ _ _ _ _ _ A), (added_uptimes _ _ _ _ _ _ _ _ A),
    (added_index _ _ _ _ _ _ _ _ A). by rewrite !lookup_insert_ne by done.
Qed.

(** The consensus key of a definition is free, or belongs to its validator. *)
Definition key_free (v : Validator) (s : StakeState) : Prop :=
  forall j w, definitions s !! j = Some w -> validator_consensus_key w = validator_consensus_key v -> j = validator_identity v.

Lemma unknown_view n id w : view_ok n id w -> view_definition w = None -> view_indexed w = false.
Proof. by intros []. Qed.

Lemma add_validator_keeps h v s u s' :
  running h s -> streams_ok (funding_streams v) -> key_free v s -> definitions s !! validator_identity v = None ->
  add_validator v (mkRate (validator_identity v) 0 100000000) s = (Ok u, s') -> running h s'.
Proof.
  intros [W K] Hstr Hfree Hnew Hrun. unfold add_validator in Hrun. pose proof (add_inner_run _ _ _ _ _ _ _ _ _ Hrun) as A. clear Hrun. split; [|eapply keyed_same; [exact K|apply A..]].
  pose proof (unknown_view _ _ _ (wf_view _ _ _ W (validator_identity v)) Hnew) as Hix. unfold view in Hix. cbn in Hix.
  eapply (well_formed_defined h _ (validator_identity v) v s s');
    [exact W|intros j Hj; by eapply added_others| |apply A|apply A|apply A|exact Hfree|apply A|apply A|apply A].
  rewrite (added_view _ _ _ _ _ _ _ _ A). rewrite Hix. by constructor.
Qed.

(** Moving to another state along a legal edge. *)
Lemma transition_running h id old new s r s' :
  running h s -> states s !! id = Some old -> legal old new = true -> set_validator_state id new s = (Ok r, s') ->
  running h s' /\ same_globals s s' /\ exists st, states s' !! id = Some st.
Proof.
  intros [W K] Hst Hl Hrun. destruct (transition_keeps h id old new s r s' W Hst Hl Hrun) as (_ & T & W').
  pose proof (touches_globals _ _ _ (transition_touches _ _ _ _ _ T)) as G. split; [split; [done|by eapply same_globals_keyed]|].
  split; [done|]. exists new. apply (transition_state _ _ _ _ _ T).
Qed.

Lemma reenable_running h id old missing s u s' :
  running h s -> states s !! id = Some old -> old = Disabled \/ old = Jailed -> reenable id missing s = (Ok u, s') ->
  running h s' /\ same_globals s s' /\ exists st, states s' !! id = Some st.
Proof.
  intros K Hst Hold Hrun. unfold reenable, get_stake_params in Hrun. inv_stake.
  match goal with Ht : set_validator_state id ?new s = _ |- _ => eapply (transition_running h id old new); [exact K|exact Hst| |exact Ht] end.
  destruct Hold as [-> | ->], (_ <=? _); reflexivity.
Qed.

Lemma check_disabled_reads id s u s' : check_disabled_long_enough id s = (Ok u, s') -> s' = s.
Proof. unfold check_disabled_long_enough, get_block_height. intros Hrun. inv_stake. destruct (get_last_disabled_height id s); by inv_stake. Qed.

(** The state that an update brings a validator to. *)
Lemma update_state_running h id (en : bool) old s u s' :
  running h s -> states s !! id = Some old ->
  (match old, en with
   | (Active | Inactive | Jailed | Defined | Disabled), false => set_validator_state id Disabled;;; ret tt
   | Disabled, true => check_disabled_long_enough id;;; reenable id "updated validator has no recorded rate data"
   | Jailed, true => reenable id "updated validator has no recorded state"
   | (Active | Inactive), true => ret tt
   | Defined, true => ret tt
   | Tombstoned, _ => ret tt
   end) s = (Ok u, s') ->
  running h s' /\ same_globals s s' /\ exists st, states s' !! id = Some st.
Proof.
  intros K Hst Hrun.
  assert (Hstay : running h s /\ same_globals s s /\ exists st, states s !! id = Some st) by (split; [done|]; split; [apply same_globals_refl|by exists old]).
  assert (Hmove : forall new r s1, legal old new = true -> set_validator_state id new s = (Ok r, s1) ->
    running h s1 /\ same_globals s s1 /\ exists st, states s1 !! id = Some st) by (intros new r s1 Hl; by eapply transition_running).
  destruct old, en; try (apply ret_ok in Hrun as [_ ->]; exact Hstay);
    try (apply bind_ok in Hrun as (r & s1 & H1 & Hrun); apply ret_ok in Hrun as [_ ->]; eapply Hmove; [|exact H1]; reflexivity);
    try (apply bind_ok in Hrun as (r & s1 & H1 & Hrun); apply check_disabled_reads in H1 as ->); (eapply reenable_running; [exact K|exact Hst|tauto|exact Hrun]).
Qed.

Lemma updated_view_ok n id w v :
  view_ok n id w -> is_Some (view_state w) -> validator_identity v = id -> streams_ok (funding_streams v) ->
  view_ok n id (mkView (Some v) (view_state w) (view_bonding w) (view_pool w) (view_power w) (view_rate w) (view_uptime w) (view_indexed w)).
Proof. intros [] Hs ? ?; [by destruct Hs|]. by constructor. Qed.

Lemma update_validator_keeps h v s u s' :
  running h s -> streams_ok (funding_streams v) -> key_free v s -> update_validator_definition v s = (Ok u, s') -> running h s'.
Proof.
  intros K Hstr Hfree Hrun. unfold update_validator_definition in Hrun. set (id := validator_identity v) in *.
  apply bind_ok in Hrun as (old & s1 & H1 & Hrun). apply asks_ok in H1 as [H1 ->]. apply ok_or_ok in H1. unfold get_validator_state in H1.
  apply bind_ok in Hrun as (u1 & s1 & H2 & Hrun). destruct (update_state_running h id (enabled v) old s u1 s1 K H1 H2) as ([W1 K1] & G & st & Hst).
  unfold register_consensus_key, put_validator_definition in Hrun. apply (f_equal snd) in Hrun. cbn [snd] in Hrun. rewrite <- Hrun. split; [|eapply keyed_same; [exact K1|done..]].
  eapply (well_formed_defined h _ id v s1); [exact W1| | |reflexivity..| |reflexivity|reflexivity|reflexivity].
  - intros j Hj. unfold view. cbn. by rewrite lookup_insert_ne.
  - pose proof (updated_view_ok _ _ _ v (wf_view _ _ _ W1 id) ltac:(by exists st) eq_refl Hstr) as V. unfold view in *. cbn in *.
    by rewrite lookup_insert_eq.
  - intros j w. rewrite (same_definitions _ _ G). apply Hfree.
Qed.

Lemma definition_keeps h v s u s' :
  running h s -> streams_ok (funding_streams v) -> definition_check_and_execute v s = (Ok u, s') -> running h s'.
Proof.
  intros K Hstr Hrun. pose proof K as [W _]. unfold definition_check_and_execute in Hrun. rewrite bind_gets in Hrun.
  apply bind_ok in Hrun as (u1 & s1 & H1 & Hrun). apply ensure_ok in H1 as [_ ->]. rewrite bind_gets in Hrun.
  apply bind_ok in Hrun as (u2 & s1 & H1 & Hrun). apply ensure_ok in H1 as [Hown ->].
  assert (Hfree : key_free v s).
  { intros j w Hw Hk. pose proof (keys_owned _ (wf_keys _ _ _ W) j w Hw) as Ho. rewrite Hk in Ho.
    unfold get_validator_definition_by_consensus_key, lookup_identity_key_by_consensus_key, get_validator_definition in Hown.
    rewrite Ho, Hw in Hown. apply Z.eqb_eq in Hown. rewrite <- Hown. symmetry. apply (well_formed_known _ _ _ _ _ W Hw). }
  destruct (get_validator_definition (validator_identity v) s) eqn:Hprev.
  - by eapply update_validator_keeps.
  - by eapply add_validator_keeps.
Qed.

(** The stateless checks bound the commission. *)
Lemma commission_ok {E} l total : FundingStreams.typed l -> @FundingStreams.commission E l = Ok total -> total = list_sum (rate_bps <$> l).
Proof.
  intros Ht Hrun. unfold FundingStreams.commission in Hrun.
  enough (Hf : forall l acc r, FundingStreams.typed l -> foldl (fun acc fs => let! total := acc in plain_add 64 total (rate_bps fs)) acc l = (Ok r : outcome E Z) ->
    exists a, acc = Ok a /\ r = a + list_sum (rate_bps <$> l)) by (destruct (Hf _ _ _ Ht Hrun) as (a & [= <-] & ->); lia).
  clear. induction l as [|fs l IH]; intros acc r Ht Hrun; [exists r; split; [done|cbn; lia]|].
  apply Forall_cons in Ht as [_ Ht]. cbn [foldl] in Hrun. destruct (IH _ _ Ht Hrun) as (a & Ha & ->).
  apply outcome_bind_ok in Ha as (b & -> & Ha). apply plain_add_ok in Ha as [-> _]. exists b. split; [done|]. symmetry. apply Z.add_assoc.
Qed.

Lemma checked_streams v sig :
  FundingStreams.typed (funding_streams v) -> definition_check_stateless v sig = Ok tt -> streams_ok (funding_streams v).
Proof.
  intros Ht Hs. unfold definition_check_stateless in Hs. inv_outcome. to_prop.
  match goal with Hc : FundingStreams.commission _ = Ok _ |- _ => apply (commission_ok _ _ Ht) in Hc as -> end.
  split; [|done]. eapply Forall_impl; [exact Ht|]. intros fs Hfs. apply Hfs.
Qed.
End Handlers.
