(* ===== verification/Distributions.v ===== *)
(** * Distributions

    Models crates/core/component/distributions: params.rs, component.rs and component/view.rs.  The
    issuance of staking tokens is in the object store, which a commit clears. *)

From S2P Require Import Prelude.
From S2P Require Import DexState.
From S2P Require Import Clock.

Record DistributionsParameters := mkDistributionsParams {
  staking_issuance_per_block : Z;
  liquidity_tournament_incentive_per_block : Z;
  liquidity_tournament_end_block : option Z;
}.

Record EventLqtPoolSizeIncrease := mkPoolIncrease { event_epoch_index : Z; increase : Z; new_total : Z }.

Record DistributionsState := mkDistributions {
  distributions_params : option DistributionsParameters;
  staking_token_issuance : option Z;
  lqt_issuance : gmap Z Z;
  distributions_events : list EventLqtPoolSizeIncrease;
}.

Definition set_distributions_params (v : option DistributionsParameters) (s : DistributionsState) : DistributionsState :=
  mkDistributions v (staking_token_issuance s) (lqt_issuance s) (distributions_events s).
Definition set_staking_token_issuance (v : option Z) (s : DistributionsState) : DistributionsState :=
  mkDistributions (distributions_params s) v (lqt_issuance s) (distributions_events s).
Definition set_lqt_issuance (v : gmap Z Z) (s : DistributionsState) : DistributionsState :=
  mkDistributions (distributions_params s) (staking_token_issuance s) v (distributions_events s).
Definition record_pool_event (e : EventLqtPoolSizeIncrease) (s : DistributionsState) : DistributionsState :=
  mkDistributions (distributions_params s) (staking_token_issuance s) (lqt_issuance s) (distributions_events s ++ [e]).

Abbreviation distributing := (comp DistributionsState string).

Module Distributions.

(** ** Reads and writes *)

Definition get_distributions_params : distributing DistributionsParameters :=
  fun s => (ok_or (distributions_params s) "Missing DistributionsParameters", s).
Definition get_lqt_reward_issuance_for_epoch (epoch_index : Z) (s : DistributionsState) : option Z :=
  lqt_issuance s !! epoch_index.
Definition get_staking_token_issuance_for_epoch (s : DistributionsState) : option Z := staking_token_issuance s.
Definition set_staking_token_issuance_for_epoch (issuance : Z) : distributing unit :=
  modify (set_staking_token_issuance (Some issuance)).
Definition set_lqt_reward_issuance_for_epoch (epoch_index issuance : Z) : distributing unit :=
  modify (fun s => set_lqt_issuance (<[epoch_index := issuance]> (lqt_issuance s)) s).

(** ** Issuance *)

(** A height before the start of its epoch is a panic. *)
Definition compute_new_staking_issuance (c : Clock) : distributing Z :=
  current_block_height <- lift (EpochRead.get_block_height c);;
  current_epoch <- lift (EpochRead.get_current_epoch c);;
  num_blocks <- lift (expect_some (checked_sub current_block_height (start_height current_epoch)));;
  params <- get_distributions_params;;
  lift (expect_some (checked_mul 128 (staking_issuance_per_block params) num_blocks)).

Definition define_staking_budget (c : Clock) : distributing unit :=
  new_issuance <- compute_new_staking_issuance c;;
  set_staking_token_issuance_for_epoch new_issuance.

Definition increment_lqt_issuance (epoch_index by_ : Z) : distributing Z :=
  current <- gets (get_lqt_reward_issuance_for_epoch epoch_index);;
  new <- lift (expect_some (checked_add 128 (default 0 current) by_));;
  set_lqt_reward_issuance_for_epoch epoch_index new;;;
  ret new.

(** ** The component *)

Definition init_chain (params : option DistributionsParameters) : distributing unit :=
  match params with None => ret tt | Some params => modify (set_distributions_params (Some params)) end.

(** Once the tournament is over, the budget of the epoch is set to zero in every block. *)
Definition end_block (height : Z) (c : Clock) : distributing unit :=
  current_epoch <- expecting (lift (EpochRead.get_current_epoch c));;
  let epoch_index := index current_epoch in
  params <- expecting get_distributions_params;;
  let increase := liquidity_tournament_incentive_per_block params in
  let current_block := Z.max height 0 in
  match liquidity_tournament_end_block params with
  | Some end_block =>
      if end_block <=? current_block then
        set_lqt_reward_issuance_for_epoch epoch_index 0;;;
        when (current_block =? end_block) (modify (record_pool_event (mkPoolIncrease epoch_index 0 0)))
      else
        new_total <- increment_lqt_issuance epoch_index increase;;
        modify (record_pool_event (mkPoolIncrease epoch_index increase new_total))
  | None =>
      new_total <- increment_lqt_issuance epoch_index increase;;
      modify (record_pool_event (mkPoolIncrease epoch_index increase new_total))
  end.

Definition end_epoch (c : Clock) : distributing unit := define_staking_budget c.
End Distributions.
