(* ===== verification/Tally.v ===== *)
(** * Votes, tallies and the states of a proposal

    Models crates/core/component/governance: vote.rs, tally.rs, params.rs, proposal_state.rs and the
    payloads of proposal.rs. *)

From S2P Require Import Prelude.

(** ** Votes *)

Module Vote.
Inductive t := Abstain | Yes | No.
#[global] Instance eq_dec : EqDecision t.
Proof. solve_decision. Defined.
End Vote.

(** ** Ratios

    Compared by cross-multiplication in 128 bits, which 64-bit numbers never overflow. *)

Module Ratio.
Record t := new { numerator : Z; denominator : Z }.

Definition cmp (self other : t) : comparison :=
  Z.compare (numerator self * denominator other) (denominator self * numerator other).
Definition ge (self other : t) : bool := match cmp self other with Lt => false | _ => true end.
Definition gt (self other : t) : bool := match cmp self other with Gt => true | _ => false end.
Definition eqb (self other : t) : bool :=
  numerator self * denominator other =? denominator self * numerator other.
End Ratio.

Record GovernanceParameters := mkGovernanceParams {
  proposal_voting_blocks : Z;
  proposal_deposit_amount : Z;
  proposal_valid_quorum : Ratio.t;
  proposal_pass_threshold : Ratio.t;
  proposal_slash_threshold : Ratio.t;
}.

(** ** Tallies *)

Module Tally.
Record t := mk { yes : Z; no : Z; abstain : Z }.

Definition zero : t := mk 0 0 0.

Definition total {E} (self : t) : outcome E Z :=
  let! sum := plain_add 64 (yes self) (no self) in plain_add 64 sum (abstain self).

Definition of_vote (vote : Vote.t) (power : Z) : t :=
  match vote with
  | Vote.Yes => mk power 0 0
  | Vote.No => mk 0 power 0
  | Vote.Abstain => mk 0 0 power
  end.

Definition add {E} (self rhs : t) : outcome E t :=
  let! y := plain_add 64 (yes self) (yes rhs) in
  let! n := plain_add 64 (no self) (no rhs) in
  let! a := plain_add 64 (abstain self) (abstain rhs) in
  Ok (mk y n a).

Inductive Outcome := Pass | Fail | Slash.

Definition meets_quorum {E} (self : t) (total_voting_power : Z) (params : GovernanceParameters) : outcome E bool :=
  let! votes := total self in
  Ok (Ratio.ge (Ratio.new votes total_voting_power) (proposal_valid_quorum params)).

Definition slashed {E} (self : t) (params : GovernanceParameters) : outcome E bool :=
  let! votes := total self in
  Ok (Ratio.gt (Ratio.new (no self) votes) (proposal_slash_threshold params)).

Definition yes_ratio {E} (self : t) : outcome E Ratio.t :=
  let! decided := plain_add 64 (yes self) (no self) in
  Ok (Ratio.new (yes self) (Z.min decided 1)).

Definition outcome_of {E} (self : t) (total_voting_power : Z) (params : GovernanceParameters) : outcome E Outcome :=
  let! quorum := meets_quorum self total_voting_power params in
  if negb quorum then Ok Fail
  else
    let! slash := slashed self params in
    if slash then Ok Slash
    else
      let! ratio := yes_ratio self in
      Ok (if Ratio.gt ratio (proposal_pass_threshold params) then Pass else Fail).

Definition emergency_pass {E} (self : t) (total_voting_power : Z) (params : GovernanceParameters) : outcome E bool :=
  let! quorum := meets_quorum self total_voting_power params in
  if negb quorum then Ok false
  else
    let! slash := slashed self params in
    if slash then Ok false
    else Ok (Ratio.gt (Ratio.new (yes self) total_voting_power) (Ratio.new 1 3)).
End Tally.

(** ** The states of a proposal *)

Module Withdrawal.
Inductive t (W : Type) :=
| No
| WithReason (reason : W).
Arguments No {W}.
Arguments WithReason {W} reason.

Definition map {W X} (f : W -> X) (w : t W) : t X :=
  match w with No => No | WithReason reason => WithReason (f reason) end.
End Withdrawal.

Module ProposalOutcome.
Inductive t (W : Type) :=
| Passed
| Failed (withdrawn : Withdrawal.t W)
| Slashed (withdrawn : Withdrawal.t W).
Arguments Passed {W}.
Arguments Failed {W} withdrawn.
Arguments Slashed {W} withdrawn.

Definition map {W X} (f : W -> X) (o : t W) : t X :=
  match o with
  | Passed => Passed
  | Failed withdrawn => Failed (Withdrawal.map f withdrawn)
  | Slashed withdrawn => Slashed (Withdrawal.map f withdrawn)
  end.

Definition is_slashed {W} (o : t W) : bool := match o with Slashed _ => true | _ => false end.
Definition should_be_refunded {W} (o : t W) : bool := negb (is_slashed o).

Definition of_tally {W} (o : Tally.Outcome) : t W :=
  match o with
  | Tally.Pass => Passed
  | Tally.Fail => Failed Withdrawal.No
  | Tally.Slash => Slashed Withdrawal.No
  end.

#[global] Instance withdrawal_eq_dec : EqDecision (Withdrawal.t unit).
Proof. solve_decision. Defined.
#[global] Instance eq_dec : EqDecision (t unit).
Proof. solve_decision. Defined.
End ProposalOutcome.

Module ProposalState.
Inductive t :=
| Voting
| Withdrawn (reason : string)
| Finished (outcome : ProposalOutcome.t string)
| Claimed (outcome : ProposalOutcome.t string).

Definition is_withdrawn (s : t) : bool := match s with Withdrawn _ => true | _ => false end.

(** *** What is stored

    The messages of the protobuf package; every message field can be absent. *)
Inductive PbOutcome :=
| PbPassed
| PbFailed (withdrawn : option string)
| PbSlashed (withdrawn : option string).

Inductive PbState :=
| PbVoting
| PbWithdrawn (reason : string)
| PbFinished (outcome : option (option PbOutcome))
| PbClaimed (outcome : option (option PbOutcome)).

Definition MAX_VALIDATOR_VOTE_REASON_LENGTH : Z := 1024.

Definition pb_of_withdrawal (w : Withdrawal.t string) : option string :=
  match w with Withdrawal.No => None | Withdrawal.WithReason reason => Some reason end.

Definition pb_of_outcome (o : ProposalOutcome.t string) : option PbOutcome :=
  Some match o with
       | ProposalOutcome.Passed => PbPassed
       | ProposalOutcome.Failed withdrawn => PbFailed (pb_of_withdrawal withdrawn)
       | ProposalOutcome.Slashed withdrawn => PbSlashed (pb_of_withdrawal withdrawn)
       end.

(** A claimed proposal is encoded as a finished one. *)
Definition pb_of_state (s : t) : option PbState :=
  Some match s with
       | Voting => PbVoting
       | Withdrawn reason => PbWithdrawn reason
       | Finished outcome => PbFinished (Some (pb_of_outcome outcome))
       | Claimed outcome => PbFinished (Some (pb_of_outcome outcome))
       end.

Definition withdrawal_of_pb (withdrawn : option string) : anyhow (Withdrawal.t string) :=
  match withdrawn with
  | Some reason =>
      if MAX_VALIDATOR_VOTE_REASON_LENGTH <? Z.of_nat (String.length reason)
      then Err "withdrawn reason must be smaller than 1kb"
      else Ok (Withdrawal.WithReason reason)
  | None => Ok Withdrawal.No
  end.

Definition outcome_of_pb (msg : option PbOutcome) : anyhow (ProposalOutcome.t string) :=
  let! o := ok_or msg "missing proposal outcome" in
  match o with
  | PbPassed => Ok ProposalOutcome.Passed
  | PbFailed withdrawn => let! w := withdrawal_of_pb withdrawn in Ok (ProposalOutcome.Failed w)
  | PbSlashed withdrawn => let! w := withdrawal_of_pb withdrawn in Ok (ProposalOutcome.Slashed w)
  end.

Definition state_of_pb (msg : option PbState) : anyhow t :=
  let! s := ok_or msg "missing proposal state" in
  match s with
  | PbVoting => Ok Voting
  | PbWithdrawn reason => Ok (Withdrawn reason)
  | PbFinished outcome =>
      let! o := ok_or outcome "missing proposal outcome" in let! o := outcome_of_pb o in Ok (Finished o)
  | PbClaimed outcome =>
      let! o := ok_or outcome "missing proposal outcome" in let! o := outcome_of_pb o in Ok (Claimed o)
  end.
End ProposalState.

(** ** Proposals *)

Record EncodedParameter := mkEncodedParameter { param_component : string; param_key : string; param_value : string }.
Record ParameterChange := mkParameterChange { changes : list EncodedParameter; preconditions : list EncodedParameter }.

Module ProposalPayload.
Inductive t :=
| Signaling (commit : option string)
| Emergency (halt_chain : bool)
| ParameterChange (change : ParameterChange)
| CommunityPoolSpend (transaction_plan : list Z)
| UpgradePlan (height : Z)
| FreezeIbcClient (client_id : string)
| UnfreezeIbcClient (client_id : string).

Definition is_emergency (p : t) : bool := match p with Emergency _ => true | _ => false end.
Definition is_ibc_freeze (p : t) : bool := match p with FreezeIbcClient _ | UnfreezeIbcClient _ => true | _ => false end.
End ProposalPayload.

Record Proposal := mkProposal {
  proposal_id : Z;
  proposal_title : string;
  proposal_description : string;
  proposal_payload : ProposalPayload.t;
}.
