(* ===== verification/Governance.v ===== *)
(** * Governance

    Models crates/core/component/governance: state_key.rs, component/view.rs, component.rs, the action
    handlers and the balances of the actions.  The handler of submissions is in [AppParams]. *)

From S2P Require Import Prelude.
From S2P Require Import Num.
From S2P Require Import Asset.
From S2P Require Import DexState.
From S2P Require Import Clock.
From S2P Require Import Validator.
From S2P Require Import Rate.
From S2P Require Import Stake.
From S2P Require Import Tally.

(** ** Tokens *)

Module ProposalNft.
Inductive Kind := Deposit | UnbondingDeposit | Slashed | Failed | Passed.
#[global] Instance kind_eq_dec : EqDecision Kind.
Proof. solve_decision. Defined.
End ProposalNft.

(** ** Actions *)

Record ProposalWithdraw := mkWithdraw { withdraw_proposal : Z; withdraw_reason : string }.

Record ProposalDepositClaim := mkClaim {
  claim_proposal : Z;
  claim_deposit_amount : Z;
  claim_outcome : ProposalOutcome.t unit;
}.

Record ValidatorVote := mkValidatorVote {
  vote_proposal : Z;
  vote_vote : Vote.t;
  vote_identity_key : identity_key;
  vote_governance_key : Z;
  vote_reason : string;
  vote_auth_sig : Z;
}.

Record DelegatorVote := mkDelegatorVote {
  delegator_proposal : Z;
  delegator_start_position : Z;
  delegator_vote : Vote.t;
  delegator_value : Value;
  delegator_unbonded_amount : Z;
  delegator_nullifier : Z;
}.

Record ProposalSubmit := mkSubmit { submit_proposal : Proposal; submit_deposit_amount : Z }.

(** Code outside this model: asset ids are hashes of denominations, and those of registered delegation
    tokens name their validator; a nullifier is written as hexadecimal text, here a big-endian integer;
    signatures and proofs; the client ids and states of the IBC packages; building the transaction of a
    community pool spend from its plan, and its stateless checks. *)
Class GovernanceEnv := {
  #[global] governance_stake :: StakeEnv;
  proposal_nft : ProposalNft.Kind -> Z -> asset_id;
  voting_receipt_token : Z -> asset_id;
  delegation_validator : asset_id -> option identity_key;
  nullifier_text : Z -> Z;
  validator_vote_signed : ValidatorVote -> bool;
  delegator_vote_verifies : DelegatorVote -> bool;
  valid_client_id : string -> bool;
  client_with_frozen_height : Z -> Z;
  client_unfrozen : Z -> Z;
  community_pool_transaction_of : list Z -> anyhow Z;
  community_pool_transaction_checks : Z -> anyhow unit;
}.

(** ** State *)

Inductive GovernanceEvent :=
| EventDelegatorVote (vote : DelegatorVote) (validator : identity_key)
| EventProposalDepositClaim (claim : ProposalDepositClaim)
| EventValidatorVote (vote : ValidatorVote) (voting_power : Z)
| EventProposalWithdraw (withdraw : ProposalWithdraw)
| EventProposalSubmit (submit : ProposalSubmit) (start_height end_height : Z)
| EventProposalPassed (proposal : Proposal)
| EventProposalFailed (proposal : Proposal)
| EventProposalSlashed (proposal : Proposal).

(** The state of a proposal is kept encoded.  The mark of a started proposal is in the object store. *)
Record GovernanceState := mkGovernance {
  governance_params : option GovernanceParameters;
  next_proposal_id : option Z;
  proposal_definitions : gmap Z Proposal;
  community_pool_transactions : gmap Z Z;
  proposal_states : gmap Z (option ProposalState.PbState);
  deposit_amounts : gmap Z Z;
  voting_starts : gmap Z Z;
  voting_ends : gmap Z Z;
  start_positions : gmap Z Z;
  unfinished : gset Z;
  voted_nullifiers : gmap (Z * Z) Z;
  rates_at_start : gmap (Z * identity_key) RateData;
  powers_at_start : gmap (Z * identity_key) Z;
  validator_votes : gmap (Z * identity_key) Vote.t;
  validator_vote_reasons : gmap (Z * identity_key) string;
  tallied_votes : gmap (Z * identity_key) Tally.t;
  untallied_votes : gmap (Z * identity_key * Z) Tally.t;
  deliveries : gset (Z * Z);
  param_changes : gmap Z ParameterChange;
  next_upgrade : option Z;
  halt_bit : option bool;
  started_mark : bool;
  governance_events : list GovernanceEvent;
}.

(** Field updates. *)
Definition set_governance_params (v : option GovernanceParameters) (s : GovernanceState) : GovernanceState :=
  mkGovernance v (next_proposal_id s) (proposal_definitions s) (community_pool_transactions s)
    (proposal_states s) (deposit_amounts s) (voting_starts s) (voting_ends s) (start_positions
    s) (unfinished s) (voted_nullifiers s) (rates_at_start s) (powers_at_start s)
    (validator_votes s) (validator_vote_reasons s) (tallied_votes s) (untallied_votes s)
    (deliveries s) (param_changes s) (next_upgrade s) (halt_bit s) (started_mark s)
    (governance_events s).
Definition set_next_proposal_id (v : option Z) (s : GovernanceState) : GovernanceState :=
  mkGovernance (governance_params s) v (proposal_definitions s) (community_pool_transactions s)
    (proposal_states s) (deposit_amounts s) (voting_starts s) (voting_ends s) (start_positions
    s) (unfinished s) (voted_nullifiers s) (rates_at_start s) (powers_at_start s)
    (validator_votes s) (validator_vote_reasons s) (tallied_votes s) (untallied_votes s)
    (deliveries s) (param_changes s) (next_upgrade s) (halt_bit s) (started_mark s)
    (governance_events s).
Definition set_proposal_definitions (v : gmap Z Proposal) (s : GovernanceState) : GovernanceState :=
  mkGovernance (governance_params s) (next_proposal_id s) v (community_pool_transactions s)
    (proposal_states s) (deposit_amounts s) (voting_starts s) (voting_ends s) (start_positions
    s) (unfinished s) (voted_nullifiers s) (rates_at_start s) (powers_at_start s)
    (validator_votes s) (validator_vote_reasons s) (tallied_votes s) (untallied_votes s)
    (deliveries s) (param_changes s) (next_upgrade s) (halt_bit s) (started_mark s)
    (governance_events s).
Definition set_community_pool_transactions (v : gmap Z Z) (s : GovernanceState) : GovernanceState :=
  mkGovernance (governance_params s) (next_proposal_id s) (proposal_definitions s) v
    (proposal_states s) (deposit_amounts s) (voting_starts s) (voting_ends s) (start_positions
    s) (unfinished s) (voted_nullifiers s) (rates_at_start s) (powers_at_start s)
    (validator_votes s) (validator_vote_reasons s) (tallied_votes s) (untallied_votes s)
    (deliveries s) (param_changes s) (next_upgrade s) (halt_bit s) (started_mark s)
    (governance_events s).
Definition set_proposal_states (v : gmap Z (option ProposalState.PbState)) (s : GovernanceState) : GovernanceState :=
  mkGovernance (governance_params s) (next_proposal_id s) (proposal_definitions s)
    (community_pool_transactions s) v (deposit_amounts s) (voting_starts s) (voting_ends s)
    (start_positions s) (unfinished s) (voted_nullifiers s) (rates_at_start s) (powers_at_start
    s) (validator_votes s) (validator_vote_reasons s) (tallied_votes s) (untallied_votes s)
    (deliveries s) (param_changes s) (next_upgrade s) (halt_bit s) (started_mark s)
    (governance_events s).
Definition set_deposit_amounts (v : gmap Z Z) (s : GovernanceState) : GovernanceState :=
  mkGovernance (governance_params s) (next_proposal_id s) (proposal_definitions s)
    (community_pool_transactions s) (proposal_states s) v (voting_starts s) (voting_ends s)
    (start_positions s) (unfinished s) (voted_nullifiers s) (rates_at_start s) (powers_at_start
    s) (validator_votes s) (validator_vote_reasons s) (tallied_votes s) (untallied_votes s)
    (deliveries s) (param_changes s) (next_upgrade s) (halt_bit s) (started_mark s)
    (governance_events s).
Definition set_voting_starts (v : gmap Z Z) (s : GovernanceState) : GovernanceState :=
  mkGovernance (governance_params s) (next_proposal_id s) (proposal_definitions s)
    (community_pool_transactions s) (proposal_states s) (deposit_amounts s) v (voting_ends s)
    (start_positions s) (unfinished s) (voted_nullifiers s) (rates_at_start s) (powers_at_start
    s) (validator_votes s) (validator_vote_reasons s) (tallied_votes s) (untallied_votes s)
    (deliveries s) (param_changes s) (next_upgrade s) (halt_bit s) (started_mark s)
    (governance_events s).
Definition set_voting_ends (v : gmap Z Z) (s : GovernanceState) : GovernanceState :=
  mkGovernance (governance_params s) (next_proposal_id s) (proposal_definitions s)
    (community_pool_transactions s) (proposal_states s) (deposit_amounts s) (voting_starts s) v
    (start_positions s) (unfinished s) (voted_nullifiers s) (rates_at_start s) (powers_at_start
    s) (validator_votes s) (validator_vote_reasons s) (tallied_votes s) (untallied_votes s)
    (deliveries s) (param_changes s) (next_upgrade s) (halt_bit s) (started_mark s)
    (governance_events s).
Definition set_start_positions (v : gmap Z Z) (s : GovernanceState) : GovernanceState :=
  mkGovernance (governance_params s) (next_proposal_id s) (proposal_definitions s)
    (community_pool_transactions s) (proposal_states s) (deposit_amounts s) (voting_starts s)
    (voting_ends s) v (unfinished s) (voted_nullifiers s) (rates_at_start s) (powers_at_start s)
    (validator_votes s) (validator_vote_reasons s) (tallied_votes s) (untallied_votes s)
    (deliveries s) (param_changes s) (next_upgrade s) (halt_bit s) (started_mark s)
    (governance_events s).
Definition set_unfinished (v : gset Z) (s : GovernanceState) : GovernanceState :=
  mkGovernance (governance_params s) (next_proposal_id s) (proposal_definitions s)
    (community_pool_transactions s) (proposal_states s) (deposit_amounts s) (voting_starts s)
    (voting_ends s) (start_positions s) v (voted_nullifiers s) (rates_at_start s)
    (powers_at_start s) (validator_votes s) (validator_vote_reasons s) (tallied_votes s)
    (untallied_votes s) (deliveries s) (param_changes s) (next_upgrade s) (halt_bit s)
    (started_mark s) (governance_events s).
Definition set_voted_nullifiers (v : gmap (Z * Z) Z) (s : GovernanceState) : GovernanceState :=
  mkGovernance (governance_params s) (next_proposal_id s) (proposal_definitions s)
    (community_pool_transactions s) (proposal_states s) (deposit_amounts s) (voting_starts s)
    (voting_ends s) (start_positions s) (unfinished s) v (rates_at_start s) (powers_at_start s)
    (validator_votes s) (validator_vote_reasons s) (tallied_votes s) (untallied_votes s)
    (deliveries s) (param_changes s) (next_upgrade s) (halt_bit s) (started_mark s)
    (governance_events s).
Definition set_rates_at_start (v : gmap (Z * identity_key) RateData) (s : GovernanceState) : GovernanceState :=
  mkGovernance (governance_params s) (next_proposal_id s) (proposal_definitions s)
    (community_pool_transactions s) (proposal_states s) (deposit_amounts s) (voting_starts s)
    (voting_ends s) (start_positions s) (unfinished s) (voted_nullifiers s) v (powers_at_start
    s) (validator_votes s) (validator_vote_reasons s) (tallied_votes s) (untallied_votes s)
    (deliveries s) (param_changes s) (next_upgrade s) (halt_bit s) (started_mark s)
    (governance_events s).
Definition set_powers_at_start (v : gmap (Z * identity_key) Z) (s : GovernanceState) : GovernanceState :=
  mkGovernance (governance_params s) (next_proposal_id s) (proposal_definitions s)
    (community_pool_transactions s) (proposal_states s) (deposit_amounts s) (voting_starts s)
    (voting_ends s) (start_positions s) (unfinished s) (voted_nullifiers s) (rates_at_start s) v
    (validator_votes s) (validator_vote_reasons s) (tallied_votes s) (untallied_votes s)
    (deliveries s) (param_changes s) (next_upgrade s) (halt_bit s) (started_mark s)
    (governance_events s).
Definition set_validator_votes (v : gmap (Z * identity_key) Vote.t) (s : GovernanceState) : GovernanceState :=
  mkGovernance (governance_params s) (next_proposal_id s) (proposal_definitions s)
    (community_pool_transactions s) (proposal_states s) (deposit_amounts s) (voting_starts s)
    (voting_ends s) (start_positions s) (unfinished s) (voted_nullifiers s) (rates_at_start s)
    (powers_at_start s) v (validator_vote_reasons s) (tallied_votes s) (untallied_votes s)
    (deliveries s) (param_changes s) (next_upgrade s) (halt_bit s) (started_mark s)
    (governance_events s).
Definition set_validator_vote_reasons (v : gmap (Z * identity_key) string) (s : GovernanceState) : GovernanceState :=
  mkGovernance (governance_params s) (next_proposal_id s) (proposal_definitions s)
    (community_pool_transactions s) (proposal_states s) (deposit_amounts s) (voting_starts s)
    (voting_ends s) (start_positions s) (unfinished s) (voted_nullifiers s) (rates_at_start s)
    (powers_at_start s) (validator_votes s) v (tallied_votes s) (untallied_votes s) (deliveries
    s) (param_changes s) (next_upgrade s) (halt_bit s) (started_mark s) (governance_events s).
Definition set_tallied_votes (v : gmap (Z * identity_key) Tally.t) (s : GovernanceState) : GovernanceState :=
  mkGovernance (governance_params s) (next_proposal_id s) (proposal_definitions s)
    (community_pool_transactions s) (proposal_states s) (deposit_amounts s) (voting_starts s)
    (voting_ends s) (start_positions s) (unfinished s) (voted_nullifiers s) (rates_at_start s)
    (powers_at_start s) (validator_votes s) (validator_vote_reasons s) v (untallied_votes s)
    (deliveries s) (param_changes s) (next_upgrade s) (halt_bit s) (started_mark s)
    (governance_events s).
Definition set_untallied_votes (v : gmap (Z * identity_key * Z) Tally.t) (s : GovernanceState) : GovernanceState :=
  mkGovernance (governance_params s) (next_proposal_id s) (proposal_definitions s)
    (community_pool_transactions s) (proposal_states s) (deposit_amounts s) (voting_starts s)
    (voting_ends s) (start_positions s) (unfinished s) (voted_nullifiers s) (rates_at_start s)
    (powers_at_start s) (validator_votes s) (validator_vote_reasons s) (tallied_votes s) v
    (deliveries s) (param_changes s) (next_upgrade s) (halt_bit s) (started_mark s)
    (governance_events s).
Definition set_deliveries (v : gset (Z * Z)) (s : GovernanceState) : GovernanceState :=
  mkGovernance (governance_params s) (next_proposal_id s) (proposal_definitions s)
    (community_pool_transactions s) (proposal_states s) (deposit_amounts s) (voting_starts s)
    (voting_ends s) (start_positions s) (unfinished s) (voted_nullifiers s) (rates_at_start s)
    (powers_at_start s) (validator_votes s) (validator_vote_reasons s) (tallied_votes s)
    (untallied_votes s) v (param_changes s) (next_upgrade s) (halt_bit s) (started_mark s)
    (governance_events s).
Definition set_param_changes (v : gmap Z ParameterChange) (s : GovernanceState) : GovernanceState :=
  mkGovernance (governance_params s) (next_proposal_id s) (proposal_definitions s)
    (community_pool_transactions s) (proposal_states s) (deposit_amounts s) (voting_starts s)
    (voting_ends s) (start_positions s) (unfinished s) (voted_nullifiers s) (rates_at_start s)
    (powers_at_start s) (validator_votes s) (validator_vote_reasons s) (tallied_votes s)
    (untallied_votes s) (deliveries s) v (next_upgrade s) (halt_bit s) (started_mark s)
    (governance_events s).
Definition set_next_upgrade (v : option Z) (s : GovernanceState) : GovernanceState :=
  mkGovernance (governance_params s) (next_proposal_id s) (proposal_definitions s)
    (community_pool_transactions s) (proposal_states s) (deposit_amounts s) (voting_starts s)
    (voting_ends s) (start_positions s) (unfinished s) (voted_nullifiers s) (rates_at_start s)
    (powers_at_start s) (validator_votes s) (validator_vote_reasons s) (tallied_votes s)
    (untallied_votes s) (deliveries s) (param_changes s) v (halt_bit s) (started_mark s)
    (governance_events s).
Definition set_halt_bit (v : option bool) (s : GovernanceState) : GovernanceState :=
  mkGovernance (governance_params s) (next_proposal_id s) (proposal_definitions s)
    (community_pool_transactions s) (proposal_states s) (deposit_amounts s) (voting_starts s)
    (voting_ends s) (start_positions s) (unfinished s) (voted_nullifiers s) (rates_at_start s)
    (powers_at_start s) (validator_votes s) (validator_vote_reasons s) (tallied_votes s)
    (untallied_votes s) (deliveries s) (param_changes s) (next_upgrade s) v (started_mark s)
    (governance_events s).
Definition set_started_mark (v : bool) (s : GovernanceState) : GovernanceState :=
  mkGovernance (governance_params s) (next_proposal_id s) (proposal_definitions s)
    (community_pool_transactions s) (proposal_states s) (deposit_amounts s) (voting_starts s)
    (voting_ends s) (start_positions s) (unfinished s) (voted_nullifiers s) (rates_at_start s)
    (powers_at_start s) (validator_votes s) (validator_vote_reasons s) (tallied_votes s)
    (untallied_votes s) (deliveries s) (param_changes s) (next_upgrade s) (halt_bit s) v
    (governance_events s).
Definition set_governance_events (v : list GovernanceEvent) (s : GovernanceState) : GovernanceState :=
  mkGovernance (governance_params s) (next_proposal_id s) (proposal_definitions s)
    (community_pool_transactions s) (proposal_states s) (deposit_amounts s) (voting_starts s)
    (voting_ends s) (start_positions s) (unfinished s) (voted_nullifiers s) (rates_at_start s)
    (powers_at_start s) (validator_votes s) (validator_vote_reasons s) (tallied_votes s)
    (untallied_votes s) (deliveries s) (param_changes s) (next_upgrade s) (halt_bit s)
    (started_mark s) v.

Definition record_governance_event (e : GovernanceEvent) (s : GovernanceState) : GovernanceState :=
  set_governance_events (governance_events s ++ [e]) s.

(** What the handlers see: the state of governance, that of staking with its clock and the registry of
    denominations, the IBC clients, the heights at which nullifiers were spent, and the position of the
    commitment tree (none when it is full). *)
Record World := mkWorld {
  governance : GovernanceState;
  staking : StakeState;
  ibc_clients : gmap string Z;
  spend_heights : gmap Z Z;
  tree_position : option (Z * Z * Z);
}.

Definition set_governance (v : GovernanceState) (w : World) : World :=
  mkWorld v (staking w) (ibc_clients w) (spend_heights w) (tree_position w).
Definition set_staking (v : StakeState) (w : World) : World :=
  mkWorld (governance w) v (ibc_clients w) (spend_heights w) (tree_position w).
Definition set_ibc_clients (v : gmap string Z) (w : World) : World :=
  mkWorld (governance w) (staking w) v (spend_heights w) (tree_position w).

Abbreviation governing := (comp World string).

(** A read of the governance state, a read that can fail, and a write. *)
Definition reads {A} (f : GovernanceState -> A) : governing A := gets (fun w => f (governance w)).
Definition asking {A} (f : World -> anyhow A) : governing A := fun w => (f w, w).
Definition writes (f : GovernanceState -> GovernanceState) : governing unit :=
  modify (fun w => set_governance (f (governance w)) w).
Definition record_event (e : GovernanceEvent) : governing unit := writes (record_governance_event e).
Definition register_denom (a : asset_id) : governing unit :=
  modify (fun w => set_staking (set_denoms ({[ a ]} ∪ denoms (staking w)) (staking w)) w).
Definition get_block_height : governing Z := asking (fun w => EpochRead.get_block_height (clock (staking w))).

(** The entries of one proposal. *)
Definition for_proposal {A} (proposal : Z) (m : gmap (Z * identity_key) A) : gmap identity_key A :=
  list_to_map (omap (fun '((p, i), a) => if decide (p = proposal) then Some (i, a) else None) (map_to_list m)).

(** ** Reads *)

Module GovernanceRead.
Section GovernanceRead.
Context `{GovernanceEnv}.

Definition is_pre_upgrade_height : governing bool :=
  next_upgrade_height <- reads next_upgrade;;
  match next_upgrade_height with
  | None => ret false
  | Some next_upgrade_height =>
      current_height <- get_block_height;;
      ret (saturating_add 64 current_height 1 =? next_upgrade_height)
  end.

Definition get_governance_params : governing GovernanceParameters :=
  asking (fun w => ok_or (governance_params (governance w)) "Missing GovernanceParameters").
Definition get_next_proposal_id : governing Z := reads (fun s => default 0 (next_proposal_id s)).
Definition get_proposal_definition (proposal : Z) (s : GovernanceState) : option Proposal := proposal_definitions s !! proposal.
Definition get_proposal_payload (proposal : Z) (s : GovernanceState) : option ProposalPayload.t :=
  proposal_payload <$> proposal_definitions s !! proposal.
Definition get_deposit_amount (proposal : Z) (s : GovernanceState) : option Z := deposit_amounts s !! proposal.

(** The state is decoded when it is read. *)
Definition get_proposal_state (proposal : Z) : governing (option ProposalState.t) :=
  asking (fun w => match proposal_states (governance w) !! proposal with
                   | None => Ok None
                   | Some msg => let! s := ProposalState.state_of_pb msg in Ok (Some s)
                   end).

Definition unfinished_proposals (s : GovernanceState) : list Z := merge_sort Z.le (elements (unfinished s)).

(** A power is stored as an amount and read as a 64-bit integer, which drops its high half. *)
Definition as_u64 (power : Z) : Z := power mod 2 ^ 64.
Definition specific_validator_voting_power_at_proposal_start (proposal : Z) (i : identity_key) (s : GovernanceState) : Z :=
  default 0 (as_u64 <$> powers_at_start s !! (proposal, i)).
Definition validator_voting_power_at_proposal_start (proposal : Z) (s : GovernanceState) : gmap identity_key Z :=
  as_u64 <$> for_proposal proposal (powers_at_start s).
Definition total_voting_power_at_proposal_start (proposal : Z) : governing Z :=
  powers <- reads (validator_voting_power_at_proposal_start proposal);;
  lift (foldl (fun acc power => let! total := acc in plain_add 64 total power) (Ok 0) (snd <$> btree_items powers)).

Definition check_nullifier_unvoted_for_proposal (proposal nullifier : Z) : governing unit :=
  voted <- reads (fun s => voted_nullifiers s !! (proposal, nullifier));;
  ensure (bool_decide (voted = None)) "nullifier was already used for voting on proposal".

Definition check_proposal_votable (proposal : Z) : governing unit :=
  state <- get_proposal_state proposal;;
  match state with
  | Some ProposalState.Voting => ret tt
  | Some (ProposalState.Withdrawn _) => fail "proposal has already been withdrawn"
  | Some (ProposalState.Finished _ | ProposalState.Claimed _) => fail "voting on proposal has already concluded"
  | None => fail "proposal does not exist"
  end.

Definition check_proposal_started_at_position (proposal claimed_position : Z) : governing unit :=
  position <- reads (fun s => start_positions s !! proposal);;
  match position with
  | Some position => ensure (position =? claimed_position) "proposal was not started at claimed start position"
  | None => fail "proposal does not exist"
  end.

Definition check_nullifier_unspent_before_start_block_height (proposal nullifier : Z) : governing unit :=
  start <- reads (fun s => voting_starts s !! proposal);;
  match start with
  | None => fail "proposal does not exist"
  | Some start_height =>
      spent <- gets (fun w => spend_heights w !! nullifier);;
      match spent with
      | Some spend_height => ensure (negb (spend_height <? start_height)) "nullifier was already spent before proposal started"
      | None => ret tt
      end
  end.

Definition validator_by_delegation_asset (a : asset_id) : governing identity_key :=
  asking (fun w =>
    if decide (a ∈ denoms (staking w)) then ok_or (delegation_validator a) "not a delegation token"
    else Err "asset ID does not correspond to a known denom").

Definition check_unbonded_amount_correct_exchange_for_proposal (proposal : Z) (v : Value) (unbonded_amount : Z)
  : governing unit :=
  validator <- validator_by_delegation_asset (value_asset v);;
  rate_data <- reads (fun s => rates_at_start s !! (proposal, validator));;
  match rate_data with
  | None => fail "validator was not active at the start of proposal"
  | Some rate_data =>
      expected <- lift (Rate.unbonded_amount rate_data (amount v));;
      ensure (expected =? unbonded_amount) "unbonded amount does not correspond to staked delegation tokens"
  end.

Definition check_height_in_future_of_voting_end (height : Z) : governing unit :=
  block_height <- get_block_height;;
  params <- get_governance_params;;
  voting_end_height <- lift (plain_add 64 block_height (proposal_voting_blocks params));;
  ensure (negb (height <? voting_end_height)) "effective height is less than the block height for the end of the voting period".

Definition check_validator_has_not_voted (proposal : Z) (i : identity_key) : governing unit :=
  vote <- reads (fun s => validator_votes s !! (proposal, i));;
  ensure (bool_decide (vote = None)) "validator has already voted on proposal".

Definition check_governance_key_matches_validator (i : identity_key) (key : Z) : governing unit :=
  validator <- gets (fun w => StakeRead.get_validator_definition i (staking w));;
  match validator with
  | Some validator => ensure (governance_key validator =? key) "governance key does not match validator"
  | None => fail "validator does not exist"
  end.

Definition check_proposal_claimable (proposal : Z) : governing unit :=
  state <- get_proposal_state proposal;;
  match state with
  | Some ProposalState.Voting => fail "proposal is still voting"
  | Some (ProposalState.Withdrawn _) => fail "proposal has been withdrawn but voting has not concluded"
  | Some (ProposalState.Finished _) => ret tt
  | Some (ProposalState.Claimed _) => fail "the deposit for proposal has already been claimed"
  | None => fail "proposal does not exist"
  end.

Definition check_proposal_claim_valid_deposit (proposal claimed : Z) : governing unit :=
  deposit <- reads (get_deposit_amount proposal);;
  match deposit with
  | Some deposit => ensure (claimed =? deposit) "proposal deposit claim does not match proposal deposit"
  | None => fail "proposal does not exist"
  end.

Definition check_validator_active_at_proposal_start (proposal : Z) (i : identity_key) : governing unit :=
  power <- reads (fun s => powers_at_start s !! (proposal, i));;
  ensure (bool_decide (power <> None)) "validator was not active at the start of proposal".

(** The loop of [current_tally] over the powers, and the assertions after it: a validator votes with
    the power that its delegators have not used. *)
Fixpoint tally_loop (powers : list (identity_key * Z)) (votes : gmap identity_key Vote.t)
  (delegators : gmap identity_key Tally.t) (tally : Tally.t) : anyhow Tally.t :=
  match powers with
  | [] => if bool_decide (votes = ∅) && bool_decide (delegators = ∅) then Ok tally else Panic
  | (validator, power) :: powers =>
      let delegator_tally := default Tally.zero (delegators !! validator) in
      let! tally :=
        match votes !! validator with
        | Some vote =>
            let! used := Tally.total delegator_tally in
            Tally.add tally (Tally.of_vote vote (saturating_sub power used))
        | None => Ok tally
        end in
      let! tally := Tally.add tally delegator_tally in
      tally_loop powers (delete validator votes) (delete validator delegators) tally
  end.

Definition current_tally (proposal : Z) : governing Tally.t :=
  powers <- reads (validator_voting_power_at_proposal_start proposal);;
  votes <- reads (fun s => for_proposal proposal (validator_votes s));;
  delegators <- reads (fun s => for_proposal proposal (tallied_votes s));;
  lift (tally_loop (btree_items powers) votes delegators Tally.zero).

Definition param_changes_for_height (height : Z) (s : GovernanceState) : option ParameterChange := param_changes s !! height.
Definition proposal_started (s : GovernanceState) : bool := started_mark s.
Definition is_chain_halted (s : GovernanceState) : bool := default false (halt_bit s).

Definition get_client_state (client_id : string) : governing Z :=
  asking (fun w => ok_or (ibc_clients w !! client_id) "could not find client state").
End GovernanceRead.
End GovernanceRead.

(** ** Writes *)

Module GovernanceWrite.
Section GovernanceWrite.
Context `{GovernanceEnv}.
Import GovernanceRead.

Definition put_governance_params (params : GovernanceParameters) : governing unit :=
  writes (set_governance_params (Some params)).
Definition init_proposal_counter : governing unit := writes (set_next_proposal_id (Some 0)).

(** The task of [new_proposal] that looks up one validator. *)
Definition active_validator (i : identity_key) (s : StakeState) : anyhow (option (identity_key * RateData * Z)) :=
  let! state := ok_or (StakeRead.get_validator_state i s) "every known validator must have a recorded state" in
  if decide (state = ValidatorState.Active) then
    let! rate_data := ok_or (StakeRead.get_validator_rate i s) "every known validator must have a recorded current rate" in
    let! power := ok_or (StakeRead.get_validator_power i s) "every known validator must have a recorded current power" in
    Ok (Some (i, rate_data, power))
  else Ok None.

(** The results of the tasks are recorded as they complete; [schedule] orders them. *)
Definition new_proposal (schedule : list identity_key -> list identity_key) (proposal : Proposal) : governing Z :=
  next <- get_next_proposal_id;;
  ensure (next =? proposal_id proposal) "proposal id does not match next proposal id";;;
  lookups <- gets (fun w => (fun i => active_validator i (staking w)) <$> schedule (ConsensusIndex.get_consensus_set (staking w)));;
  for_each lookups (fun lookup =>
    per_validator <- lift lookup;;
    match per_validator with
    | Some (i, rate_data, power) =>
        writes (fun s => set_rates_at_start (<[(next, i) := rate_data]> (rates_at_start s)) s);;;
        writes (fun s => set_powers_at_start (<[(next, i) := power]> (powers_at_start s)) s)
    | None => ret tt
    end);;;
  following <- lift (plain_add 64 next 1);;
  writes (set_next_proposal_id (Some following));;;
  writes (fun s => set_proposal_definitions (<[next := proposal]> (proposal_definitions s)) s);;;
  ret next.

Definition mark_nullifier_voted_on_proposal (proposal nullifier : Z) : governing unit :=
  height <- expecting get_block_height;;
  writes (fun s => set_voted_nullifiers (<[(proposal, nullifier) := height]> (voted_nullifiers s)) s).
Definition mark_proposal_started : governing unit := writes (set_started_mark true).
Definition put_deposit_amount (proposal deposit : Z) : governing unit :=
  writes (fun s => set_deposit_amounts (<[proposal := deposit]> (deposit_amounts s)) s).

Definition put_proposal_state (proposal : Z) (state : ProposalState.t) : governing unit :=
  writes (fun s => set_proposal_states (<[proposal := ProposalState.pb_of_state state]> (proposal_states s)) s);;;
  match state with
  | ProposalState.Voting | ProposalState.Withdrawn _ => writes (fun s => set_unfinished ({[ proposal ]} ∪ unfinished s) s)
  | ProposalState.Finished _ | ProposalState.Claimed _ => writes (fun s => set_unfinished (unfinished s ∖ {[ proposal ]}) s)
  end.

Definition cast_validator_vote (proposal : Z) (i : identity_key) (vote : Vote.t) (reason : string) : governing unit :=
  writes (fun s => set_validator_votes (<[(proposal, i) := vote]> (validator_votes s)) s);;;
  writes (fun s => set_validator_vote_reasons (<[(proposal, i) := reason]> (validator_vote_reasons s)) s).
Definition put_proposal_voting_start (proposal block : Z) : governing unit :=
  writes (fun s => set_voting_starts (<[proposal := block]> (voting_starts s)) s).
Definition put_proposal_voting_end (proposal block : Z) : governing unit :=
  writes (fun s => set_voting_ends (<[proposal := block]> (voting_ends s)) s).
Definition put_proposal_voting_start_position (proposal position : Z) : governing unit :=
  writes (fun s => set_start_positions (<[proposal := position]> (start_positions s)) s).

(** The amount is truncated to 64 bits. *)
Definition cast_delegator_vote (proposal : Z) (i : identity_key) (vote : Vote.t) (nullifier unbonded_amount : Z) : governing unit :=
  writes (fun s => set_untallied_votes
    (<[(proposal, i, nullifier) := Tally.of_vote vote (as_u64 unbonded_amount)]> (untallied_votes s)) s).

(** *** Tallying

    The votes come in the order of their keys: proposal, validator, nullifier. *)
Definition vote_key : Type := Z * identity_key * Z.
Definition key_text (k : vote_key) : list Z := [k.1.1; identity_text k.1.2; nullifier_text k.2].
Definition vote_le (a b : vote_key * Tally.t) : Prop := lex_compare (key_text a.1) (key_text b.1) <> Gt.
#[global] Instance vote_le_dec : RelDecision vote_le.
Proof. intros a b. unfold vote_le. apply _. Defined.

Definition concerns (just_for_proposal : option Z) (k : vote_key) : bool :=
  match just_for_proposal with Some proposal => k.1.1 =? proposal | None => true end.
Definition pending_votes (just_for_proposal : option Z) (s : GovernanceState) : list (vote_key * Tally.t) :=
  merge_sort vote_le (filter (fun kt : vote_key * Tally.t => concerns just_for_proposal kt.1)
    (map_to_list (untallied_votes s))).

(** One vote of the stream: the tally it is added to is the one in the state. *)
Definition sweep_vote (new_tallies : gmap (Z * identity_key) Tally.t) (vote : vote_key * Tally.t)
  : governing (gmap (Z * identity_key) Tally.t) :=
  current_tally <- reads (fun s => default Tally.zero (tallied_votes s !! vote.1.1));;
  current_tally <- lift (Tally.add current_tally vote.2);;
  ret (<[vote.1.1 := current_tally]> new_tallies).

Definition tally_delegator_votes (just_for_proposal : option Z) : governing unit :=
  votes <- reads (pending_votes just_for_proposal);;
  new_tallies <- for_fold votes ∅ sweep_vote;;
  writes (fun s => set_untallied_votes (foldl (fun m vote => delete vote.1 m) (untallied_votes s) votes) s);;;
  writes (fun s => set_tallied_votes (new_tallies ∪ tallied_votes s) s).

(** *** Enacting *)

Definition deliver_community_pool_transaction (proposal : Z) : governing unit :=
  height <- get_block_height;;
  delivery_height <- lift (plain_add 64 height 1);;
  writes (fun s => set_deliveries ({[ (delivery_height, proposal) ]} ∪ deliveries s) s).
Definition signal_upgrade (height : Z) : governing unit := writes (set_next_upgrade (Some height)).
Definition signal_halt : governing unit := writes (set_halt_bit (Some true)).
Definition ready_to_start : governing unit := writes (set_halt_bit (Some false)).

Definition update_client (client_id : string) (f : Z -> Z) : governing unit :=
  if valid_client_id client_id then
    client_state <- get_client_state client_id;;
    modify (fun w => set_ibc_clients (<[client_id := f client_state]> (ibc_clients w)) w)
  else fail "invalid client id".

Definition enact_proposal (proposal : Z) (payload : ProposalPayload.t) : governing unit :=
  match payload with
  | ProposalPayload.Signaling _ => ret tt
  | ProposalPayload.Emergency halt_chain => when halt_chain signal_halt
  | ProposalPayload.ParameterChange change =>
      current_height <- get_block_height;;
      change_height <- lift (plain_add 64 current_height 1);;
      writes (fun s => set_param_changes (<[change_height := change]> (param_changes s)) s)
  | ProposalPayload.CommunityPoolSpend _ => deliver_community_pool_transaction proposal
  | ProposalPayload.UpgradePlan height => signal_upgrade height
  | ProposalPayload.FreezeIbcClient client_id => update_client client_id client_with_frozen_height
  | ProposalPayload.UnfreezeIbcClient client_id => update_client client_id client_unfrozen
  end.
End GovernanceWrite.
End GovernanceWrite.

(** ** Action handlers *)

Module GovernanceActions.
Section GovernanceActions.
Context `{GovernanceEnv}.
Import GovernanceRead GovernanceWrite.

Definition delegator_vote_check_stateless (v : DelegatorVote) : anyhow unit :=
  guard_or (delegator_vote_verifies v) "a delegator vote proof did not verify".

Definition delegator_vote_check_and_execute (v : DelegatorVote) : governing unit :=
  let proposal := delegator_proposal v in
  check_proposal_votable proposal;;;
  check_proposal_started_at_position proposal (delegator_start_position v);;;
  check_nullifier_unspent_before_start_block_height proposal (delegator_nullifier v);;;
  check_nullifier_unvoted_for_proposal proposal (delegator_nullifier v);;;
  check_unbonded_amount_correct_exchange_for_proposal proposal (delegator_value v) (delegator_unbonded_amount v);;;
  mark_nullifier_voted_on_proposal proposal (delegator_nullifier v);;;
  i <- validator_by_delegation_asset (value_asset (delegator_value v));;
  cast_delegator_vote proposal i (delegator_vote v) (delegator_nullifier v) (delegator_unbonded_amount v);;;
  record_event (EventDelegatorVote v i).

Definition claimed_nft (o : ProposalOutcome.t string) : ProposalNft.Kind :=
  match o with
  | ProposalOutcome.Passed => ProposalNft.Passed
  | ProposalOutcome.Failed _ => ProposalNft.Failed
  | ProposalOutcome.Slashed _ => ProposalNft.Slashed
  end.

Definition deposit_claim_check_and_execute (c : ProposalDepositClaim) : governing unit :=
  let proposal := claim_proposal c in
  check_proposal_claimable proposal;;;
  check_proposal_claim_valid_deposit proposal (claim_deposit_amount c);;;
  state <- get_proposal_state proposal;;
  match state with
  | Some (ProposalState.Finished o) =>
      ensure (bool_decide (claim_outcome c = ProposalOutcome.map (fun _ => tt) o)) "deposit claim has another outcome";;;
      register_denom (proposal_nft (claimed_nft o) proposal);;;
      put_proposal_state proposal (ProposalState.Claimed o);;;
      record_event (EventProposalDepositClaim c)
  | _ => fail "proposal is not in finished state"
  end.

Definition validator_vote_check_stateless (v : ValidatorVote) : anyhow unit :=
  let! _ := guard_or (validator_vote_signed v) "validator vote signature failed to verify" in
  guard_or (Z.of_nat (String.length (vote_reason v)) <=? ProposalState.MAX_VALIDATOR_VOTE_REASON_LENGTH)
    "validator vote reason is too long".

(** Proposals of the emergency tier are enacted as soon as they have enough power. *)
Definition check_emergency (proposal : Z) (payload : ProposalPayload.t) : governing unit :=
  if ProposalPayload.is_emergency payload || ProposalPayload.is_ibc_freeze payload then
    tally <- current_tally proposal;;
    total_voting_power <- total_voting_power_at_proposal_start proposal;;
    params <- get_governance_params;;
    passes <- lift (Tally.emergency_pass tally total_voting_power params);;
    when passes
      (enact_proposal proposal payload;;;
       put_proposal_state proposal (ProposalState.Finished ProposalOutcome.Passed))
  else ret tt.

Definition validator_vote_check_and_execute (v : ValidatorVote) : governing unit :=
  let proposal := vote_proposal v in
  check_proposal_votable proposal;;;
  check_validator_active_at_proposal_start proposal (vote_identity_key v);;;
  check_validator_has_not_voted proposal (vote_identity_key v);;;
  check_governance_key_matches_validator (vote_identity_key v) (vote_governance_key v);;;
  state <- get_proposal_state proposal;;
  state <- lift (expect_some state);;
  if ProposalState.is_withdrawn state then ret tt
  else
    cast_validator_vote proposal (vote_identity_key v) (vote_vote v) (vote_reason v);;;
    payload <- reads (get_proposal_payload proposal);;
    payload <- lift (expect_some payload);;
    check_emergency proposal payload;;;
    voting_power <- reads (specific_validator_voting_power_at_proposal_start proposal (vote_identity_key v));;
    record_event (EventValidatorVote v voting_power).

Definition withdraw_check_stateless (a : ProposalWithdraw) : anyhow unit :=
  guard_or (Z.of_nat (String.length (withdraw_reason a)) <=? 80) "proposal withdrawal reason must fit within 80 characters".

Definition withdraw_check_and_execute (a : ProposalWithdraw) : governing unit :=
  check_proposal_votable (withdraw_proposal a);;;
  put_proposal_state (withdraw_proposal a) (ProposalState.Withdrawn (withdraw_reason a));;;
  register_denom (proposal_nft ProposalNft.UnbondingDeposit (withdraw_proposal a));;;
  record_event (EventProposalWithdraw a).

(** *** Balances *)

Definition nft_value (kind : ProposalNft.Kind) (proposal : Z) : Value := mkValue 1 (proposal_nft kind proposal).

Definition submit_balance {E} (a : ProposalSubmit) : outcome E Balance.t :=
  Balance.sub (Balance.from_value (nft_value ProposalNft.Deposit (proposal_id (submit_proposal a))))
    (Balance.from_value (mkValue (submit_deposit_amount a) staking_token)).

Definition withdraw_balance {E} (a : ProposalWithdraw) : outcome E Balance.t :=
  Balance.sub (Balance.from_value (nft_value ProposalNft.UnbondingDeposit (withdraw_proposal a)))
    (Balance.from_value (nft_value ProposalNft.Deposit (withdraw_proposal a))).

(** The token that a claim burns, and the one that it issues. *)
Definition claim_burns (o : ProposalOutcome.t unit) : ProposalNft.Kind :=
  match o with
  | ProposalOutcome.Passed
  | ProposalOutcome.Failed Withdrawal.No | ProposalOutcome.Slashed Withdrawal.No => ProposalNft.Deposit
  | ProposalOutcome.Failed (Withdrawal.WithReason _)
  | ProposalOutcome.Slashed (Withdrawal.WithReason _) => ProposalNft.UnbondingDeposit
  end.
Definition claim_issues (o : ProposalOutcome.t unit) : ProposalNft.Kind :=
  match o with
  | ProposalOutcome.Passed => ProposalNft.Passed
  | ProposalOutcome.Failed _ => ProposalNft.Failed
  | ProposalOutcome.Slashed _ => ProposalNft.Slashed
  end.

Definition claim_balance {E} (c : ProposalDepositClaim) : outcome E Balance.t :=
  let! balance := Balance.sub (Balance.from_value (nft_value (claim_issues (claim_outcome c)) (claim_proposal c)))
                    (Balance.from_value (nft_value (claim_burns (claim_outcome c)) (claim_proposal c))) in
  if ProposalOutcome.should_be_refunded (claim_outcome c)
  then Balance.add balance (Balance.from_value (mkValue (claim_deposit_amount c) staking_token))
  else Ok balance.
End GovernanceActions.
End GovernanceActions.

(** ** The component *)

Module Governance.
Section Governance.
Context `{GovernanceEnv}.
Import GovernanceRead GovernanceWrite.

Definition init_chain (params : option GovernanceParameters) : governing unit :=
  match params with
  | Some params => put_governance_params params;;; init_proposal_counter
  | None => ret tt
  end.

(** The event of an outcome names the definition of the proposal. *)
Definition record_outcome (event : Proposal -> GovernanceEvent) (proposal : Z) : governing unit :=
  definition <- asking (fun w => ok_or (get_proposal_definition proposal (governance w)) "proposal does not exist");;
  record_event (event definition).

(** The tally of a proposal that is still voting decides it, and enacts it if it passes. *)
Definition conclude_voting (proposal : Z) : governing (ProposalOutcome.t string) :=
  tally <- current_tally proposal;;
  total_voting_power <- total_voting_power_at_proposal_start proposal;;
  params <- get_governance_params;;
  result <- lift (Tally.outcome_of tally total_voting_power params);;
  match result with
  | Tally.Pass =>
      payload <- asking (fun w => ok_or (get_proposal_payload proposal (governance w)) "proposal has payload");;
      enact_proposal proposal payload;;;
      record_outcome EventProposalPassed proposal
  | Tally.Fail => record_outcome EventProposalFailed proposal
  | Tally.Slash => record_outcome EventProposalSlashed proposal
  end;;;
  ret (ProposalOutcome.of_tally result).

Definition enact_passed_proposal (proposal : Z) : governing unit :=
  height <- expecting get_block_height;;
  voting_end <- asking (fun w => ok_or (voting_ends (governance w) !! proposal) "proposal has voting end");;
  if height <? voting_end then ret tt
  else
    tally_delegator_votes (Some proposal);;;
    state <- get_proposal_state proposal;;
    current_state <- lift (ok_or state "proposal has id");;
    result <- match current_state with
              | ProposalState.Voting => conclude_voting proposal
              | ProposalState.Withdrawn reason => ret (ProposalOutcome.Failed (Withdrawal.WithReason reason))
              | ProposalState.Finished _ => fail "proposal is already finished, and should have been removed from the active set"
              | ProposalState.Claimed _ => fail "proposal is already claimed, and should have been removed from the active set"
              end;;
    put_proposal_state proposal (ProposalState.Finished result).

Definition enact_all_passed_proposals : governing unit :=
  proposals <- reads unfinished_proposals;;
  for_each proposals enact_passed_proposal.

Definition end_block : governing unit := expecting enact_all_passed_proposals.
Definition end_epoch : governing unit := tally_delegator_votes None.
End Governance.
End Governance.
