(* ===== verification/Fmd.v ===== *)
(** * Clue detection parameters

    Models the fuzzy message detection of the shielded pool: crates/crypto/decaf377-fmd/src/precision.rs,
    and fmd.rs, component/fmd.rs and the hooks of component/shielded_pool.rs in
    crates/core/component/shielded-pool. *)

From S2P Require Import Prelude.

(** ** Precision *)

Module Precision.
(** A number of bits. *)
Definition t : Type := Z.
Definition MAX_PRECISION : Z := 24.
Definition MAX : t := MAX_PRECISION.
Definition default : t := 0.

Definition new (precision_bits : Z) : anyhow t :=
  if MAX_PRECISION <? precision_bits then Err "precision too large" else Ok precision_bits.

(** [TryFrom] for the wider integers goes through a byte. *)
Definition try_from (value : Z) : anyhow t :=
  if (value <? 0) || (max_int 8 <? value) then Err "precision too large" else new value.
End Precision.

(** ** Parameters *)

Module Fmd.
Record Parameters := mkParameters { precision : Precision.t; as_of_block_height : Z }.
Definition default_parameters : Parameters := mkParameters Precision.default 1.

Definition FMD_GRACE_PERIOD_BLOCKS_DEFAULT : Z := 16.

Record SlidingWindow := mkSlidingWindow { window : Z; targeted_detections_per_window : Z }.

Inductive MetaParametersAlgorithm :=
| Fixed (p : Precision.t)
| Sliding (w : SlidingWindow).

Record MetaParameters := mkMeta { fmd_grace_period_blocks : Z; algorithm : MetaParametersAlgorithm }.

Inductive AlgorithmState :=
| NothingState
| FixedState
| SlidingWindowState (approximate_clue_count : Z).

(** A period of zero blocks is a division by zero. *)
Definition should_update_fmd_params {E} (fmd_grace_period_blocks height : Z) : outcome E bool :=
  if fmd_grace_period_blocks =? 0 then Panic else Ok (height mod fmd_grace_period_blocks =? 0).

(** [u32::leading_zeros] *)
Definition leading_zeros_32 (x : Z) : Z := if x =? 0 then 32 else 31 - Z.log2 x.

Definition required_precision {E} (inverse_detection_ratio : Z) : outcome E Precision.t :=
  if inverse_detection_ratio =? 0 then expect_ok (Precision.new 1)
  else
    let! lg_inverse_ratio := plain_sub 63 (leading_zeros_32 inverse_detection_ratio) in
    if Precision.MAX <? lg_inverse_ratio then Ok Precision.MAX
    else expect_ok (Precision.new lg_inverse_ratio).

(** [((w - 1) * old + new) / w] *)
Definition approximate {E} (w old_count projected : Z) : outcome E Z :=
  let! rest := plain_sub w 1 in
  let product := old_count * rest in
  let saturated := Z.min product (max_int 64) in
  let average := saturating_add 64 saturated projected / w in
  Ok (if average <? 2 ^ 32 then average else max_int 32).

Definition sliding_update {E} (self : SlidingWindow) (old : Parameters) (state : AlgorithmState)
  (height : Z) (clue_count_delta : Z * Z) : outcome E (Parameters * AlgorithmState) :=
  if window self =? 0 then Ok (old, SlidingWindowState 0)
  else
    let new_clues_in_period := saturating_sub clue_count_delta.2 clue_count_delta.1 in
    let! projected_clue_count := plain_mul 64 (window self) new_clues_in_period in
    let old_approximate_clue_count := match state with SlidingWindowState count => count | _ => 0 end in
    let! approximate_clue_count := approximate (window self) old_approximate_clue_count projected_clue_count in
    let inverse_detection_ratio :=
      if targeted_detections_per_window self =? 0 then 0
      else approximate_clue_count / targeted_detections_per_window self in
    let! p := required_precision inverse_detection_ratio in
    Ok (mkParameters p height, SlidingWindowState approximate_clue_count).

Definition updated_fmd_params {E} (self : MetaParameters) (old : Parameters) (state : AlgorithmState)
  (height : Z) (clue_count_delta : Z * Z) : outcome E (Parameters * AlgorithmState) :=
  match algorithm self with
  | Fixed p => Ok (mkParameters p height, FixedState)
  | Sliding w => sliding_update w old state height clue_count_delta
  end.
End Fmd.

(** ** The component *)

Module ShieldedPool.
Import Fmd.

Record ShieldedPoolParameters := mkShieldedPoolParams { fmd_meta_params : MetaParameters }.

(** The clue counts are zero as long as they are not stored. *)
Record PoolState := mkPool {
  shielded_pool_params : option ShieldedPoolParameters;
  current_fmd : option Parameters;
  previous_fmd : option Parameters;
  algorithm_state : option AlgorithmState;
  current_clues : option Z;
  previous_clues : option Z;
}.

Abbreviation pooling := (comp PoolState string).

(** A read that can fail. *)
Definition reading {A} (f : PoolState -> anyhow A) : pooling A := fun s => (f s, s).

Definition set_current_fmd (v : option Parameters) (s : PoolState) : PoolState :=
  mkPool (shielded_pool_params s) v (previous_fmd s) (algorithm_state s) (current_clues s) (previous_clues s).
Definition set_previous_fmd (v : option Parameters) (s : PoolState) : PoolState :=
  mkPool (shielded_pool_params s) (current_fmd s) v (algorithm_state s) (current_clues s) (previous_clues s).
Definition set_algorithm_state (v : option AlgorithmState) (s : PoolState) : PoolState :=
  mkPool (shielded_pool_params s) (current_fmd s) (previous_fmd s) v (current_clues s) (previous_clues s).
Definition set_current_clues (v : option Z) (s : PoolState) : PoolState :=
  mkPool (shielded_pool_params s) (current_fmd s) (previous_fmd s) (algorithm_state s) v (previous_clues s).
Definition set_previous_clues (v : option Z) (s : PoolState) : PoolState :=
  mkPool (shielded_pool_params s) (current_fmd s) (previous_fmd s) (algorithm_state s) (current_clues s) v.
Definition set_shielded_pool_params (v : option ShieldedPoolParameters) (s : PoolState) : PoolState :=
  mkPool v (current_fmd s) (previous_fmd s) (algorithm_state s) (current_clues s) (previous_clues s).

Definition get_current_clue_count (s : PoolState) : Z := default 0 (current_clues s).
Definition get_previous_clue_count (s : PoolState) : Z := default 0 (previous_clues s).

Definition record_clue : pooling unit :=
  count <- gets get_current_clue_count;;
  modify (set_current_clues (Some (saturating_add 64 count 1))).

Definition flush_clue_count : pooling (Z * Z) :=
  previous <- gets get_previous_clue_count;;
  current <- gets get_current_clue_count;;
  modify (set_previous_clues (Some current));;;
  modify (set_current_clues (Some 0));;;
  ret (previous, current).

(** The part of [init_chain] that sets parameters. *)
Definition init_parameters (params : ShieldedPoolParameters) : pooling unit :=
  modify (set_shielded_pool_params (Some params));;;
  modify (set_current_fmd (Some default_parameters));;;
  modify (set_previous_fmd (Some default_parameters)).

Definition end_block (height : Z) : pooling unit :=
  height <- (if height <? 0 then panic else ret height);;
  params <- reading (fun s => expect_some (shielded_pool_params s));;
  let meta_params := fmd_meta_params params in
  update <- lift (should_update_fmd_params (fmd_grace_period_blocks meta_params) height);;
  if update : bool then
    old <- reading (fun s => expect_some (current_fmd s));;
    clue_count_delta <- flush_clue_count;;
    state <- gets (fun s => default NothingState (algorithm_state s));;
    '(new, state) <- lift (updated_fmd_params meta_params old state height clue_count_delta);;
    modify (set_previous_fmd (Some old));;;
    modify (set_current_fmd (Some new));;;
    modify (set_algorithm_state (Some state))
  else ret tt.
End ShieldedPool.
