(* ===== verification/AppParams.v ===== *)
(** * The parameters of the application

    Models crates/core/app: params.rs, params/change.rs, the parameters of app/mod.rs, and the handler
    of proposal submissions (action_handler/actions/submit.rs); with governance/src/change.rs. *)

From S2P Require Import Prelude.
From S2P Require Import Num.
From S2P Require Import Asset.
From S2P Require Import DexState.
From S2P Require Import Fee.
From S2P Require Import Clock.
From S2P Require Import Validator.
From S2P Require Import Stake.
From S2P Require Import Distributions.
From S2P Require Import Fmd.
From S2P Require Import Tally.
From S2P Require Import Governance.

(** ** Parameters *)

Record CommunityPoolParameters := mkCommunityPoolParams { community_pool_spend_proposals_enabled : bool }.

Record LiquidityTournamentParameters := mkTournamentParams {
  gauge_threshold : Z;
  max_positions : Z;
  max_delegators : Z;
  delegator_share : Z;
}.
Record FundingParameters := mkFundingParams { liquidity_tournament : LiquidityTournamentParameters }.

Record IBCParameters := mkIbcParams {
  ibc_enabled : bool;
  inbound_ics20_transfers_enabled : bool;
  outbound_ics20_transfers_enabled : bool;
}.

Record SctParameters := mkSctParams { sct_epoch_duration : Z }.

(** The parameters of the auctions are an empty struct. *)
Record AppParameters := mkAppParams {
  app_chain_id : string;
  app_community_pool_params : CommunityPoolParameters;
  app_distributions_params : DistributionsParameters;
  app_dex_params : DexParameters;
  app_fee_params : FeeParameters;
  app_funding_params : FundingParameters;
  app_governance_params : GovernanceParameters;
  app_ibc_params : IBCParameters;
  app_sct_params : SctParameters;
  app_shielded_pool_params : ShieldedPool.ShieldedPoolParameters;
  app_stake_params : StakeParameters;
}.

(** ** Validity *)

Module Checks.
(** The descriptions of the checks that fail, joined. *)
Fixpoint join (l : list string) : string :=
  match l with
  | [] => ""
  | [s] => s
  | s :: l => s +:+ ", " +:+ join l
  end.

Definition check_all (checks : list (bool * string)) : anyhow unit :=
  match omap (fun '(ok, description) => if ok : bool then None else Some description) checks with
  | [] => Ok tt
  | failed_because => Err ("invalid chain parameters: " +:+ join failed_because)
  end.

Definition check_invariant (sides : list (bool * string)) : anyhow unit :=
  check_all ((fun '(same, name) => (same, name +:+ " can't be changed")) <$> sides).

Definition check_valid (p : AppParameters) : anyhow unit :=
  let stake := app_stake_params p in
  let governance := app_governance_params p in
  let ibc := app_ibc_params p in
  let epoch_duration := sct_epoch_duration (app_sct_params p) in
  let! two_epochs := plain_mul 64 epoch_duration 2 in
  let! least_delay := plain_add 64 two_epochs 1 in
  check_all
    [(negb (String.eqb (app_chain_id p) ""), "chain ID must be a non-empty string");
     (1 <=? epoch_duration, "epoch duration must be at least one block");
     (least_delay <=? unbonding_delay stake, "unbonding must take at least two epochs");
     (3 <? active_validator_limit stake, "active validator limit must be at least 4");
     (1 <=? slashing_penalty_misbehavior stake, "slashing penalty (misbehavior) must be at least 1 basis point");
     (slashing_penalty_misbehavior stake <=? 100000000, "slashing penalty (misbehavior) must be at most 10,000 basis points^2");
     (1 <=? slashing_penalty_downtime stake, "slashing penalty (downtime) must be at least 1 basis point");
     (slashing_penalty_downtime stake <=? 100000000, "slashing penalty (downtime) must be at most 10,000 basis points^2");
     (2 <=? signed_blocks_window_len stake, "signed blocks window length must be at least 2");
     (1 <=? missed_blocks_maximum stake, "missed blocks maximum must be at least 1");
     ((negb (inbound_ics20_transfers_enabled ibc) && negb (outbound_ics20_transfers_enabled ibc)) || ibc_enabled ibc,
      "IBC must be enabled if either inbound or outbound ICS20 transfers are enabled");
     (1 <=? proposal_voting_blocks governance, "proposal voting blocks must be at least 1");
     (1 <=? proposal_deposit_amount governance, "proposal deposit amount must be at least 1");
     (Ratio.gt (proposal_valid_quorum governance) (Ratio.new 0 1), "proposal valid quorum must be greater than 0");
     (Ratio.ge (proposal_pass_threshold governance) (Ratio.new 1 2), "proposal pass threshold must be greater than or equal to 1/2");
     (Ratio.gt (proposal_slash_threshold governance) (Ratio.new 1 2), "proposal slash threshold must be greater than 1/2");
     (1000000 <=? min_validator_stake stake, "the minimum validator stake must be at least 1penumbra")].

Definition check_valid_update (self new : AppParameters) : anyhow unit :=
  let! _ := check_valid new in
  let! _ := check_invariant [(String.eqb (app_chain_id self) (app_chain_id new), "chain ID")] in
  let! _ := check_invariant
    [(sct_epoch_duration (app_sct_params self) =? sct_epoch_duration (app_sct_params new), "epoch duration");
     (active_validator_limit (app_stake_params self) =? active_validator_limit (app_stake_params new), "active validator limit");
     (signed_blocks_window_len (app_stake_params self) =? signed_blocks_window_len (app_stake_params new), "signed blocks window length")] in
  check_invariant
    [(Ratio.eqb (proposal_valid_quorum (app_governance_params self)) (proposal_valid_quorum (app_governance_params new)), "proposal valid quorum");
     (Ratio.eqb (proposal_pass_threshold (app_governance_params self)) (proposal_pass_threshold (app_governance_params new)), "proposal pass threshold");
     (Ratio.eqb (proposal_slash_threshold (app_governance_params self)) (proposal_slash_threshold (app_governance_params new)), "proposal slash threshold")].
End Checks.

(** ** Changes

    Changes apply to the JSON of the parameters: an object with a value per component, most of them
    objects.  The values inside are JSON values that are only compared. *)

Module Change.
Section Change.
Context {json : Type} `{EqDecision json} (from_str : string -> anyhow json).

Definition Tree : Type := gmap string (json + gmap string json).

Definition get_component (app_parameters : Tree) (change : EncodedParameter) : anyhow (gmap string json) :=
  let! component := ok_or (app_parameters !! param_component change) "component not found in app parameters" in
  match component with
  | inr fields => Ok fields
  | inl _ => Err "expected component to be an object in app parameters"
  end.

Definition check_precondition (app_parameters : Tree) (precondition : EncodedParameter) : anyhow unit :=
  let! expected_value := from_str (param_value precondition) in
  let! fields := get_component app_parameters precondition in
  match fields !! param_key precondition with
  | Some current_value => guard_or (bool_decide (current_value = expected_value)) "precondition failed: unexpected value"
  | None => Err "precondition failed: key not found in component"
  end.

Definition apply_change (app_parameters : Tree) (change : EncodedParameter) : anyhow Tree :=
  let! fields := get_component app_parameters change in
  let! new_value := from_str (param_value change) in
  Ok (<[param_component change := inr (<[param_key change := new_value]> fields)]> app_parameters).

Definition apply_changes_raw (self : ParameterChange) (app_parameters : Tree) : anyhow Tree :=
  let! _ := foldl (fun acc p => let! _ := acc in check_precondition app_parameters p) (Ok tt) (preconditions self) in
  foldl (fun acc c => let! tree := acc in apply_change tree c) (Ok app_parameters) (changes self).
End Change.
End Change.

(** Code outside this model: the JSON parser and the serialization of the parameters, which goes
    through the generated protobuf types. *)
Class ParameterJson := {
  json : Type;
  json_eq_dec :: EqDecision json;
  json_from_str : string -> anyhow json;
  to_value : AppParameters -> anyhow (Change.Tree (json := json));
  from_value : Change.Tree (json := json) -> anyhow AppParameters;
}.

Definition apply_changes `{ParameterJson} (self : ParameterChange) (app_parameters : AppParameters) : anyhow AppParameters :=
  let! app_parameters_raw := to_value app_parameters in
  let! new_app_parameters_raw := Change.apply_changes_raw json_from_str self app_parameters_raw in
  let! new_app_parameters := from_value new_app_parameters_raw in
  let! _ := Checks.check_valid_update app_parameters new_app_parameters in
  Ok new_app_parameters.

(** ** The state of the application

    The components of a chain that governance reads and writes, and the parameters of the others. *)

Record App := mkApp {
  world : World;
  distribution : DistributionsState;
  pool : ShieldedPool.PoolState;
  chain_id : option string;
  community_pool_params : option CommunityPoolParameters;
  dex_params : option DexParameters;
  fee_params : option FeeParameters;
  funding_params : option FundingParameters;
  ibc_params : option IBCParameters;
}.

Definition set_world (v : World) (a : App) : App :=
  mkApp v (distribution a) (pool a) (chain_id a) (community_pool_params a) (dex_params a) (fee_params a) (funding_params a) (ibc_params a).
Definition set_distribution (v : DistributionsState) (a : App) : App :=
  mkApp (world a) v (pool a) (chain_id a) (community_pool_params a) (dex_params a) (fee_params a) (funding_params a) (ibc_params a).
Definition set_pool (v : ShieldedPool.PoolState) (a : App) : App :=
  mkApp (world a) (distribution a) v (chain_id a) (community_pool_params a) (dex_params a) (fee_params a) (funding_params a) (ibc_params a).
Definition set_chain_id (v : option string) (a : App) : App :=
  mkApp (world a) (distribution a) (pool a) v (community_pool_params a) (dex_params a) (fee_params a) (funding_params a) (ibc_params a).
Definition set_other_params (community_pool : option CommunityPoolParameters) (dex : option DexParameters) (fee : option FeeParameters)
  (funding : option FundingParameters) (ibc : option IBCParameters) (a : App) : App :=
  mkApp (world a) (distribution a) (pool a) (chain_id a) community_pool dex fee funding ibc.

Abbreviation app := (comp App string).

Section Lifting.
Context {A : Type}.
(** The computations of a component, on its part of the state. *)
Definition on_world (m : governing A) : app A := fun a => let '(r, w) := m (world a) in (r, set_world w a).
Definition on_distribution (m : distributing A) : app A := fun a => let '(r, d) := m (distribution a) in (r, set_distribution d a).
Definition on_pool (m : ShieldedPool.pooling A) : app A := fun a => let '(r, p) := m (pool a) in (r, set_pool p a).
Definition on_staking (m : stake A) : app A :=
  on_world (fun w => let '(r, s) := m (staking w) in (r, set_staking s w)).
Definition ask (f : App -> anyhow A) : app A := fun a => (f a, a).
End Lifting.

Definition get_app_params : app AppParameters :=
  ask (fun a =>
    let! chain_id := expect_some (chain_id a) in
    let! community_pool := ok_or (community_pool_params a) "Missing CommunityPoolParameters" in
    let! distributions := ok_or (distributions_params (distribution a)) "Missing DistributionsParameters" in
    let! ibc := ok_or (ibc_params a) "Missing IbcParameters" in
    let! fee := ok_or (fee_params a) "Missing FeeParameters" in
    let! funding := ok_or (funding_params a) "Missing FundingParameters" in
    let! governance := ok_or (governance_params (governance (world a))) "Missing GovernanceParameters" in
    let! sct := ok_or (epoch_duration (clock (staking (world a)))) "Missing SctParameters" in
    let! shielded_pool := ok_or (ShieldedPool.shielded_pool_params (pool a)) "Missing ShieldedPoolParameters" in
    let! stake := ok_or (stake_params (staking (world a))) "Missing StakeParameters" in
    let! dex := ok_or (dex_params a) "Missing DexParameters" in
    Ok (mkAppParams chain_id community_pool distributions dex fee funding governance ibc (mkSctParams sct) shielded_pool stake)).

(** Writes to the chain id are ignored. *)
Definition put_app_params (p : AppParameters) : app unit :=
  modify (set_other_params (Some (app_community_pool_params p)) (Some (app_dex_params p)) (Some (app_fee_params p))
    (Some (app_funding_params p)) (Some (app_ibc_params p)));;;
  on_distribution (modify (set_distributions_params (Some (app_distributions_params p))));;;
  on_world (writes (set_governance_params (Some (app_governance_params p))));;;
  on_staking (on_clock (set_epoch_duration (Some (sct_epoch_duration (app_sct_params p)))));;;
  on_pool (modify (ShieldedPool.set_shielded_pool_params (Some (app_shielded_pool_params p))));;;
  on_staking (StakeWrite.put_stake_params (app_stake_params p)).

(** ** Submitting a proposal *)

Module ActionPlan.
Inductive t :=
| Spend | Output | Swap | SwapClaim | DelegatorVote | UndelegateClaim | Delegate | Undelegate
| ProposalSubmit | ProposalWithdraw | ProposalDepositClaim
| ValidatorDefinition | ActionLiquidityTournamentVote | IbcAction | ValidatorVote
| PositionOpen | PositionClose | PositionWithdraw | CommunityPoolSpend | CommunityPoolOutput
| Ics20Withdrawal | CommunityPoolDeposit
| ActionDutchAuctionSchedule | ActionDutchAuctionEnd | ActionDutchAuctionWithdraw.
End ActionPlan.

Module Submit.
Section Submit.
Context `{GovernanceEnv} `{ParameterJson} (decode_plan : list Z -> anyhow (list ActionPlan.t)).
Import GovernanceRead GovernanceWrite.

Definition PROPOSAL_TITLE_LIMIT : Z := 80.
Definition PROPOSAL_DESCRIPTION_LIMIT : Z := 10000.

(** The community pool can neither prove, nor claim an undelegation, nor manipulate proposals. *)
Definition check_plan_action (action : ActionPlan.t) : anyhow unit :=
  match action with
  | ActionPlan.Spend | ActionPlan.Output | ActionPlan.Swap | ActionPlan.SwapClaim
  | ActionPlan.DelegatorVote | ActionPlan.UndelegateClaim =>
      Err "invalid action in Community Pool spend proposal (would require proving)"
  | ActionPlan.Delegate | ActionPlan.Undelegate =>
      Err "invalid action in Community Pool spend proposal (can't claim outputs of undelegation)"
  | ActionPlan.ProposalSubmit | ActionPlan.ProposalWithdraw | ActionPlan.ProposalDepositClaim =>
      Err "invalid action in Community Pool spend proposal (not allowed to manipulate proposals from within proposals)"
  | _ => Ok tt
  end.

Definition check_stateless (a : ProposalSubmit) : anyhow unit :=
  let p := submit_proposal a in
  let! _ := guard_or (Z.of_nat (String.length (proposal_title p)) <=? PROPOSAL_TITLE_LIMIT) "proposal title must fit within 80 characters" in
  let! _ := guard_or (Z.of_nat (String.length (proposal_description p)) <=? PROPOSAL_DESCRIPTION_LIMIT)
              "proposal description must fit within 10000 characters" in
  match proposal_payload p with
  | ProposalPayload.Signaling _ | ProposalPayload.Emergency _ | ProposalPayload.ParameterChange _
  | ProposalPayload.UpgradePlan _ => Ok tt
  | ProposalPayload.CommunityPoolSpend plan =>
      let! actions := decode_plan plan in
      foldl (fun acc action => let! _ := acc in check_plan_action action) (Ok tt) actions
  | ProposalPayload.FreezeIbcClient client_id | ProposalPayload.UnfreezeIbcClient client_id =>
      guard_or (valid_client_id client_id) "can't decode client id from IBC proposal"
  end.

Definition check_client (client_id : string) : governing unit :=
  if valid_client_id client_id then _ <- get_client_state client_id;; ret tt else fail "invalid client id".

Definition check_payload (payload : ProposalPayload.t) : app unit :=
  match payload with
  | ProposalPayload.Signaling _ | ProposalPayload.Emergency _ | ProposalPayload.UpgradePlan _ => ret tt
  | ProposalPayload.ParameterChange change =>
      current_parameters <- get_app_params;;
      _ <- lift (apply_changes change current_parameters);; ret tt
  | ProposalPayload.CommunityPoolSpend plan =>
      params <- ask (fun a => ok_or (community_pool_params a) "Missing CommunityPoolParameters");;
      ensure (community_pool_spend_proposals_enabled params) "Community Pool spend proposals are not enabled";;;
      tx <- lift (community_pool_transaction_of plan);;
      lift (community_pool_transaction_checks tx)
  | ProposalPayload.FreezeIbcClient client_id | ProposalPayload.UnfreezeIbcClient client_id => on_world (check_client client_id)
  end.

(** [(epoch, block, 0).into()] *)
Definition position_of (epoch block : Z) : Z := epoch * 2 ^ 32 + block * 2 ^ 16.

Definition check_and_execute (schedule : list identity_key -> list identity_key) (a : ProposalSubmit) : app unit :=
  let p := submit_proposal a in
  params <- on_world get_governance_params;;
  ensure (submit_deposit_amount a =? proposal_deposit_amount params)
    "submitted proposal deposit does not match required proposal deposit";;;
  next <- on_world get_next_proposal_id;;
  ensure (proposal_id p =? next) "submitted proposal ID does not match expected proposal ID";;;
  check_payload (proposal_payload p);;;
  match proposal_payload p with
  | ProposalPayload.CommunityPoolSpend plan =>
      tx <- lift (community_pool_transaction_of plan);;
      on_world (writes (fun s => set_community_pool_transactions (<[proposal_id p := tx]> (community_pool_transactions s)) s))
  | _ => ret tt
  end;;;
  on_world (
    proposal <- new_proposal schedule p;;
    put_deposit_amount proposal (submit_deposit_amount a);;;
    register_denom (proposal_nft ProposalNft.Deposit proposal);;;
    register_denom (voting_receipt_token proposal);;;
    put_proposal_state proposal ProposalState.Voting;;;
    params <- get_governance_params;;
    current_block <- get_block_height;;
    voting_end <- lift (plain_add 64 current_block (proposal_voting_blocks params));;
    put_proposal_voting_start proposal current_block;;;
    put_proposal_voting_end proposal voting_end;;;
    position <- asking (fun w => ok_or (tree_position w) "state commitment tree is full");;
    put_proposal_voting_start_position proposal (position_of position.1.1 position.1.2);;;
    mark_proposal_started;;;
    record_event (EventProposalSubmit a current_block voting_end)).
End Submit.
End Submit.
