(* ===== verification/Chain.v ===== *)
(** * Blocks and transactions

    Models crates/core/app: app/mod.rs, and action_handler/transaction.rs with its checks, for the
    components of [App]: staking with the clock, governance, distributions, and the parameters of the
    shielded pool.  A transaction is what these components see of one: its actions for staking and
    governance, its expiry, and the precisions of its clues. *)

From S2P Require Import Prelude.
From S2P Require Import Num.
From S2P Require Import Asset.
From S2P Require Import DexState.
From S2P Require Import Fee.
From S2P Require Import Clock.
From S2P Require Import Validator.
From S2P Require Import Rate.
From S2P Require Import Stake.
From S2P Require Import StakeManager.
From S2P Require Import StakeEpoch.
From S2P Require Import Distributions.
From S2P Require Import Fmd.
From S2P Require Import Tally.
From S2P Require Import Governance.
From S2P Require Import AppParams.

Inductive Action :=
| ActionDelegate (d : Delegate)
| ActionUndelegate (u : Undelegate)
| ActionUndelegateClaim (validator : identity_key) (penalty unbonding_start_height : Z)
| ActionValidatorDefinition (v : Validator) (auth_sig : Z)
| ActionProposalSubmit (a : ProposalSubmit)
| ActionProposalWithdraw (a : ProposalWithdraw)
| ActionProposalDepositClaim (c : ProposalDepositClaim)
| ActionValidatorVote (v : ValidatorVote)
| ActionDelegatorVote (v : DelegatorVote).

Record Transaction := mkTransaction {
  tx_actions : list Action;
  tx_chain_id : string;
  tx_expiry_height : Z;
  tx_clue_precisions : list Precision.t;
}.

(** The order in which the tasks of a block complete. *)
Abbreviation schedule := (list identity_key -> list identity_key).

(** Code outside this model: the verification of the proof of an undelegation claim, the decoding of
    transaction plans, and the transactions of the community pool, which are kept encoded. *)
Class ChainEnv := {
  #[global] chain_governance :: GovernanceEnv;
  #[global] chain_json :: ParameterJson;
  claim_proof_verifies : identity_key -> Z -> Z -> bool;
  decode_plan : list Z -> anyhow (list ActionPlan.t);
  decode_transaction : Z -> Transaction;
}.

(** ** Transactions *)

Module Transactions.
Section Transactions.
Context `{ChainEnv}.

Definition action_check_stateless (a : Action) : anyhow unit :=
  match a with
  | ActionDelegate _ | ActionUndelegate _ => Ok tt
  | ActionUndelegateClaim i penalty start => guard_or (claim_proof_verifies i penalty start) "an undelegate claim proof did not verify"
  | ActionValidatorDefinition v auth_sig => StakeActions.definition_check_stateless v auth_sig
  | ActionProposalSubmit a => Submit.check_stateless decode_plan a
  | ActionProposalWithdraw a => GovernanceActions.withdraw_check_stateless a
  | ActionProposalDepositClaim _ => Ok tt
  | ActionValidatorVote v => GovernanceActions.validator_vote_check_stateless v
  | ActionDelegatorVote v => GovernanceActions.delegator_vote_check_stateless v
  end.

Definition action_check_and_execute (sched : schedule) (a : Action) : app unit :=
  match a with
  | ActionDelegate d => on_staking (StakeActions.delegate_check_and_execute d)
  | ActionUndelegate u => on_staking (StakeActions.undelegate_check_and_execute u)
  | ActionUndelegateClaim i penalty start => on_staking (StakeActions.undelegate_claim_check_and_execute i penalty start)
  | ActionValidatorDefinition v _ => on_staking (StakeActions.definition_check_and_execute v)
  | ActionProposalSubmit a => Submit.check_and_execute sched a
  | ActionProposalWithdraw a => on_world (GovernanceActions.withdraw_check_and_execute a)
  | ActionProposalDepositClaim c => on_world (GovernanceActions.deposit_claim_check_and_execute c)
  | ActionValidatorVote v => on_world (GovernanceActions.validator_vote_check_and_execute v)
  | ActionDelegatorVote v => on_world (GovernanceActions.delegator_vote_check_and_execute v)
  end.

(** A transaction without actions is refused. *)
Definition check_stateless (tx : Transaction) : anyhow unit :=
  let! _ := guard_or (negb (bool_decide (length (tx_actions tx) = 0%nat)))
    "consensus rule violated: transaction must have more than 0 actions" in
  foldl (fun acc a => let! _ := acc in action_check_stateless a) (Ok tt) (tx_actions tx).

Definition chain_id_is_correct (tx : Transaction) : app unit :=
  chain_id <- ask (fun a => expect_some (chain_id a));;
  ensure (String.eqb (tx_chain_id tx) chain_id) "transaction chain ID must match the current chain ID".

Definition expiry_height_is_valid (expiry_height : Z) : app unit :=
  current_height <- on_world get_block_height;;
  ensure ((expiry_height =? 0) || (current_height <=? expiry_height))
    "transaction expiry height must be greater than or equal to the current block height".

Definition clue_precision_valid {E} (meta : Fmd.MetaParameters) (previous current : Fmd.Parameters) (block_height : Z)
  (clue_precision : Precision.t) : outcome E bool :=
  let using_current_precision := clue_precision =? Fmd.precision current in
  let using_previous_precision := clue_precision =? Fmd.precision previous in
  let! end_of_grace := plain_add 64 (Fmd.as_of_block_height previous) (Fmd.fmd_grace_period_blocks meta) in
  let within_grace_period := block_height <? end_of_grace in
  Ok (using_current_precision || (using_previous_precision && within_grace_period)).

Fixpoint fmd_precision_within_grace_period (clues : list Precision.t) (meta : Fmd.MetaParameters)
  (previous current : Fmd.Parameters) (block_height : Z) : anyhow unit :=
  match clues with
  | [] => Ok tt
  | clue_precision :: clues =>
      let! valid := clue_precision_valid meta previous current block_height clue_precision in
      let! _ := guard_or valid "consensus rule violated: invalid clue precision" in
      fmd_precision_within_grace_period clues meta previous current block_height
  end.

Definition fmd_parameters_valid (tx : Transaction) : app unit :=
  params <- ask (fun a => expect_some (ShieldedPool.shielded_pool_params (pool a)));;
  previous <- ask (fun a => expect_some (ShieldedPool.previous_fmd (pool a)));;
  current <- ask (fun a => expect_some (ShieldedPool.current_fmd (pool a)));;
  height <- on_world get_block_height;;
  lift (fmd_precision_within_grace_period (tx_clue_precisions tx) (ShieldedPool.fmd_meta_params params) previous current height).

Definition check_historical (tx : Transaction) : app unit :=
  chain_id_is_correct tx;;;
  expiry_height_is_valid (tx_expiry_height tx);;;
  fmd_parameters_valid tx.

Definition check_and_execute (sched : schedule) (tx : Transaction) : app unit :=
  for_each (tx_actions tx) (action_check_and_execute sched);;;
  for_each (tx_clue_precisions tx) (fun _ => on_pool ShieldedPool.record_clue).

(** The checks run in tasks; one that panics makes the join fail with an error. *)
Definition in_task {A} (m : app A) : app A := fun a =>
  match m a with
  | (Panic, a') => (Err "waiting for check tasks", a')
  | r => r
  end.

(** [deliver_tx]: the writes of a transaction that fails are dropped. *)
Definition deliver_tx (sched : schedule) (tx : Transaction) : app unit :=
  in_task (lift (check_stateless tx));;;
  in_task (check_historical tx);;;
  transaction (_ <- on_world get_block_height;; check_and_execute sched tx).
End Transactions.
End Transactions.

(** ** Blocks *)

Module Block.
Section Block.
Context `{ChainEnv}.
Import Transactions.

(** What CometBFT sends. *)
Record Input := mkInput {
  evidence : list Misbehavior;
  votes : list (Z * bool);
  txs : list Transaction;
}.

(** A change that does not apply is only logged. *)
Definition apply_scheduled_change (height : Z) : app unit :=
  scheduled <- on_world (reads (GovernanceRead.param_changes_for_height height));;
  match scheduled with
  | None => ret tt
  | Some change =>
      old_params <- expecting get_app_params;;
      match apply_changes change old_params with
      | Ok new_params => put_app_params new_params
      | Err _ => ret tt
      | Panic => panic
      end
  end.

(** The transactions of the community pool that were scheduled for this block, by their proposals. *)
Definition pending_community_pool_transactions : app (list Transaction) :=
  height <- on_world get_block_height;;
  ask (fun a =>
    let s := governance (world a) in
    let proposals := merge_sort Z.le (elements (set_map snd (filter (fun hp : Z * Z => hp.1 = height) (deliveries s)) : gset Z)) in
    foldl (fun acc proposal =>
      let! transactions := acc in
      let! tx := ok_or (community_pool_transactions s !! proposal) "no transaction found for proposal" in
      Ok (transactions ++ [decode_transaction tx])) (Ok []) proposals).

(** A transaction that panics brings the node down; errors are answered or logged. *)
Definition deliver_or_skip (sched : schedule) (tx : Transaction) : app unit := ignore_error (deliver_tx sched tx).

Definition begin_block (sched : schedule) (height : Z) (i : Input) : app unit :=
  apply_scheduled_change height;;;
  on_staking (on_clock (Sct.begin_block height));;;
  on_staking (Staking.begin_block (evidence i) (votes i) sched);;;
  pending <- expecting pending_community_pool_transactions;;
  for_each pending (deliver_or_skip sched).

(** The end of an epoch: distributions set the budget that staking spends. *)
Definition end_epoch (sched : schedule) : app unit :=
  c <- gets (fun a => clock (staking (world a)));;
  on_distribution (expecting (Distributions.end_epoch c));;;
  on_world (expecting Governance.end_epoch);;;
  budget <- gets (fun a => Distributions.get_staking_token_issuance_for_epoch (distribution a));;
  on_staking (modify (set_issuance_budget budget));;;
  on_staking (expecting (Staking.end_epoch sched)).

Definition end_block (sched : schedule) (height : Z) : app unit :=
  on_pool (ShieldedPool.end_block height);;;
  c <- gets (fun a => clock (staking (world a)));;
  on_distribution (Distributions.end_block height c);;;
  on_world Governance.end_block;;;
  on_staking (Staking.end_block height);;;
  current_height <- expecting (on_staking StakeRead.get_block_height);;
  current_epoch <- expecting (on_staking StakeRead.get_current_epoch);;
  duration <- ask (fun a => expect_ok (EpochRead.get_epoch_duration_parameter (clock (staking (world a)))));;
  scheduled_end <- lift (is_scheduled_epoch_end current_epoch current_height duration);;
  early_end <- gets (fun a => EpochRead.is_epoch_ending_early (clock (staking (world a))));;
  is_chain_upgrade <- expecting (on_world GovernanceRead.is_pre_upgrade_height);;
  next_height <- lift (plain_add 64 current_height 1);;
  if scheduled_end || early_end || is_chain_upgrade then
    end_epoch sched;;;
    next_index <- lift (plain_add 64 (index current_epoch) 1);;
    on_staking (on_clock (EpochManager.put_epoch_by_height next_height (mkEpoch next_index next_height)))
  else on_staking (on_clock (EpochManager.put_epoch_by_height next_height current_epoch)).

(** The commit halts the chain before an upgrade, and clears the object store. *)
Definition clear_object_store (a : App) : App :=
  let s := staking (world a) in
  let s := set_clock (set_end_epoch_early false (clock s)) s in
  let s := set_delegation_tally (mkChanges [] []) s in
  let s := set_previous_base_rate None (set_funding_queue None (set_issuance_budget None (set_validator_updates None s))) in
  let w := set_governance (set_started_mark false (governance (world a))) (set_staking s (world a)) in
  set_distribution (set_staking_token_issuance None (distribution a)) (set_world w a).

Definition commit : app unit :=
  is_pre_upgrade_height <- expecting (on_world GovernanceRead.is_pre_upgrade_height);;
  when is_pre_upgrade_height (on_world GovernanceWrite.signal_halt);;;
  modify clear_object_store.

(** What a genesis file says of these components. *)
Record Content := mkContent {
  content_chain_id : string;
  content_sct : SctParameters;
  content_shielded_pool : ShieldedPool.ShieldedPoolParameters;
  content_allocations : list Value;
  content_distributions : DistributionsParameters;
  content_stake : StakeParameters;
  content_validators : list Validator;
  content_ibc : IBCParameters;
  content_dex : DexParameters;
  content_community_pool : CommunityPoolParameters;
  content_governance : GovernanceParameters;
  content_fee : FeeParameters;
  content_funding : FundingParameters;
}.

(** The asset of an allocation is registered; its note is minted in the commitment tree. *)
Definition register_allocation (allocation : Value) : app unit :=
  if amount allocation =? 0 then panic else on_world (register_denom (value_asset allocation)).

(** A chain starts from a genesis file, or, after an upgrade, from the state it has. *)
Definition init_chain (sched : schedule) (app_state : option Content) : app unit :=
  match app_state with
  | Some genesis =>
      modify (set_chain_id (Some (content_chain_id genesis)));;;
      on_staking (on_clock (Sct.init_chain (sct_epoch_duration (content_sct genesis))));;;
      on_pool (ShieldedPool.init_parameters (content_shielded_pool genesis));;;
      for_each (content_allocations genesis) register_allocation;;;
      on_distribution (Distributions.init_chain (Some (content_distributions genesis)));;;
      on_staking (Staking.init_chain (Some (content_stake genesis, content_validators genesis, content_allocations genesis)) sched);;;
      modify (set_other_params (Some (content_community_pool genesis)) (Some (content_dex genesis)) (Some (content_fee genesis))
        (Some (content_funding genesis)) (Some (content_ibc genesis)));;;
      on_world (Governance.init_chain (Some (content_governance genesis)))
  | None =>
      on_distribution (Distributions.init_chain None);;;
      on_staking (Staking.init_chain None sched);;;
      on_world (Governance.init_chain None)
  end.

(** What the response to a block carries for CometBFT. *)
Definition cometbft_validator_updates (a : App) : list (consensus_key * Z) := default [] (validator_updates (staking (world a))).

(** A whole block, up to its response, and its commit. *)
Definition respond (sched : schedule) (height : Z) (i : Input) : app unit :=
  begin_block sched height i;;;
  for_each (txs i) (deliver_or_skip sched);;;
  end_block sched height.
Definition run (sched : schedule) (height : Z) (i : Input) : app unit :=
  respond sched height i;;;
  commit.
End Block.
End Block.

(** ** The empty store

    What a chain starts from. *)

Definition empty_stake : StakeState :=
  mkStake (mkClock None ∅ false None) None ∅ ∅ ∅ ∅ ∅ ∅ ∅ ∅ ∅ ∅ ∅ ∅ ∅ (mkChanges [] []) ∅ None None None None None None ∅ [].
Definition empty_governance : GovernanceState :=
  mkGovernance None None ∅ ∅ ∅ ∅ ∅ ∅ ∅ ∅ ∅ ∅ ∅ ∅ ∅ ∅ ∅ ∅ ∅ None None false [].
Definition empty_app : App :=
  mkApp (mkWorld empty_governance empty_stake ∅ ∅ (Some (0, 0, 0))) (mkDistributions None None ∅ [])
    (ShieldedPool.mkPool None None None None None None) None None None None None None.
