(* ===== verification/FmdTheorems.v ===== *)
(** * Theorems about clue detection parameters *)

From S2P Require Import Prelude.
From S2P Require Import Fmd.
From S2P Require Import Chain.
Import Fmd.
Import ShieldedPool.

(** ** The sliding window *)

Lemma leading_zeros_range x : 0 < x < 2 ^ 32 -> 0 <= leading_zeros_32 x <= 31.
Proof.
  intros [H0 H1]. unfold leading_zeros_32. rewrite (proj2 (Z.eqb_neq x 0)) by lia.
  pose proof (Z.log2_nonneg x). assert (Z.log2 x < 32) by (apply Z.log2_lt_pow2; lia). lia.
Qed.

Lemma required_precision_run {E} r : 0 <= r < 2 ^ 32 -> @required_precision E r = Ok (if r =? 0 then 1 else Precision.MAX).
Proof.
  intros Hr. unfold required_precision. destruct (Z.eqb_spec r 0) as [->|H0]; [done|].
  pose proof (leading_zeros_range r ltac:(lia)). rewrite plain_sub_run by lia. cbn [outcome_bind].
  unfold Precision.MAX, Precision.MAX_PRECISION. by rewrite (proj2 (Z.ltb_lt 24 _)) by lia.
Qed.

Lemma approximate_run {E} w c p : 0 < w < 2 ^ 32 -> 0 <= c < 2 ^ 32 -> 0 <= p ->
  exists a, @approximate E w c p = Ok a /\ 0 <= a < 2 ^ 32.
Proof.
  intros Hw Hc Hp. unfold approximate. rewrite plain_sub_run by lia. cbn [outcome_bind]. eexists. split; [done|].
  assert (0 <= saturating_add 64 (Z.min (c * (w - 1)) (max_int 64)) p) by (assert (0 <= c * (w - 1)) by nia; unfold saturating_add, max_int; lia).
  pose proof (Z.div_pos (saturating_add 64 (Z.min (c * (w - 1)) (max_int 64)) p) w ltac:(lia) ltac:(lia)).
  set (q := _ / w) in *. destruct (q <? 2 ^ 32) eqn:Hlt; to_prop; unfold max_int; lia.
Qed.

(** The sliding window only ever asks for one bit of precision or for the maximum: the logarithm
    of a 32-bit ratio is computed as if the ratio had 64 bits. *)
Theorem sliding_window_is_all_or_nothing {E} w old state height delta new state' :
  0 <= window w < 2 ^ 32 -> 0 <= targeted_detections_per_window w < 2 ^ 32 -> window w <> 0 ->
  (forall c, state = SlidingWindowState c -> 0 <= c < 2 ^ 32) -> is_u64 delta.1 -> is_u64 delta.2 ->
  @sliding_update E w old state height delta = Ok (new, state') ->
  precision new = 1 \/ precision new = Precision.MAX.
Proof.
  intros Hw Ht Hw0 Hs H1 H2 Hrun. unfold sliding_update in Hrun. rewrite (proj2 (Z.eqb_neq _ _)) in Hrun by done.
  apply outcome_bind_ok in Hrun as (projected & Hp & Hrun). apply plain_mul_ok in Hp as [-> _].
  set (c := match state with SlidingWindowState count => count | _ => 0 end) in Hrun.
  assert (Hc : 0 <= c < 2 ^ 32) by (unfold c; destruct state as [| |n]; [lia..|by apply Hs]).
  unfold in_width in *. destruct (@approximate_run E (window w) c (window w * saturating_sub delta.2 delta.1)) as (a & Ha & Hr);
    [lia|done|unfold saturating_sub; nia|].
  rewrite Ha in Hrun. cbn [outcome_bind] in Hrun. rewrite required_precision_run in Hrun.
  - cbn [outcome_bind] in Hrun. injection Hrun as <- _. cbn. destruct (_ =? 0); auto.
  - destruct (Z.eqb_spec (targeted_detections_per_window w) 0); [lia|]. split; [apply Z.div_pos; lia|].
    apply Z.div_lt_upper_bound; nia.
Qed.

Lemma sliding_window_is_all_or_nothing_witness :
  exists new state', @sliding_update string (mkSlidingWindow 2 3) default_parameters (SlidingWindowState 100) 16 (0, 50)
      = Ok (new, state') /\ (precision new = 1 \/ precision new = Precision.MAX).
Proof.
  eexists _, _. split; [reflexivity|].
  eapply (@sliding_window_is_all_or_nothing string (mkSlidingWindow 2 3) default_parameters (SlidingWindowState 100) 16 (0, 50));
    [by_computation|by_computation|discriminate|intros c [= <-]; lia|by_computation|by_computation|reflexivity].
Defined.

(** ** The grace period *)

(** The states of the pool after block [h]: clues arrive, blocks end in order, and the parameters change,
    as [put_app_params] does when a proposal passes.  [changed] is the last block before the last
    change, if the parameters of genesis were ever changed. *)
Inductive pool_reachable : Z -> option Z -> PoolState -> Prop :=
| pool_genesis params s s' : init_parameters params s = (Ok tt, s') -> pool_reachable 0 None s'
| pool_clue h changed s s' : pool_reachable h changed s -> record_clue s = (Ok tt, s') -> pool_reachable h changed s'
| pool_params h changed params s : pool_reachable h changed s ->
    pool_reachable h (Some h) (set_shielded_pool_params (Some params) s)
| pool_block h changed s s' : pool_reachable h changed s -> end_block (h + 1) s = (Ok tt, s') ->
    pool_reachable (h + 1) changed s'.

(** The periods that begin at the multiples of [g]: the last one up to [h] began after the change, and
    the one before it did too. *)
Definition settled (g h : Z) (changed : option Z) : Prop :=
  match changed with None => True | Some k => k < h / g * g end.
Definition long_settled (g h : Z) (changed : option Z) : Prop :=
  match changed with None => True | Some k => k < h / g * g - g end.

(** Once the parameters are settled the current ones are as old as the period at most, and the ones
    before them a whole period older, unless both ask for the same precision. *)
Record pool_inv (h : Z) (changed : option Z) (s : PoolState) : Prop := {
  inv_height : 0 <= h;
  inv_changed : forall k, changed = Some k -> k <= h;
  inv_grace : exists params p c, shielded_pool_params s = Some params /\ previous_fmd s = Some p /\ current_fmd s = Some c
    /\ as_of_block_height p <= h + 1 /\ as_of_block_height c <= h + 1
    /\ let g := fmd_grace_period_blocks (fmd_meta_params params) in
       0 < g -> (settled g h changed -> as_of_block_height c <= h / g * g + 1)
         /\ (long_settled g h changed -> precision p = precision c \/ as_of_block_height p + g <= h + 1);
}.

Lemma updated_as_of {E} meta old state h delta new state' :
  @updated_fmd_params E meta old state h delta = Ok (new, state') -> new = old \/ as_of_block_height new = h.
Proof.
  unfold updated_fmd_params, sliding_update. intros Hrun. destruct (algorithm meta) as [p|w].
  - injection Hrun as <- _. by right.
  - destruct (window w =? 0); [injection Hrun as <- _; by left|]. inv_outcome. simplify_eq. by right.
Qed.

Lemma pool_inv_genesis params s s' : init_parameters params s = (Ok tt, s') -> pool_inv 0 None s'.
Proof.
  intros Hrun. unfold init_parameters in Hrun. inv_comp. split; [lia|done|].
  exists params, default_parameters, default_parameters. split_and!; [done..|by cbn; lia|by cbn; lia|]. intros g Hg. split; [|by left].
  intros _. rewrite Z.div_0_l by lia. cbn. lia.
Qed.

Lemma pool_inv_params params h changed s :
  pool_inv h changed s -> pool_inv h (Some h) (set_shielded_pool_params (Some params) s).
Proof.
  intros [Hh Hc (q & p & c & _ & Hp & Hcur & Hle & Hle' & _)]. split; [done|by intros k [= <-]|].
  exists params, p, c. split_and!; [done..|]. intros g Hg. pose proof (Z.mul_div_le h g Hg).
  unfold settled, long_settled. split; lia.
Qed.

(** The period goes on. *)
Lemma same_period g h : 0 < g -> 0 <= h -> (h + 1) mod g <> 0 -> (h + 1) / g = h / g.
Proof.
  intros Hg Hh Hm. pose proof (Z.div_mod (h + 1) g ltac:(lia)). pose proof (Z.mod_pos_bound (h + 1) g Hg).
  apply Z.div_unique with ((h + 1) mod g - 1); lia.
Qed.

(** Block [h + 1] begins a period. *)
Lemma new_period g h : 0 < g -> 0 <= h -> (h + 1) mod g = 0 -> (h + 1) / g * g = h + 1 /\ h / g * g = h + 1 - g.
Proof.
  intros Hg Hh Hm. pose proof (Z.div_mod (h + 1) g ltac:(lia)) as Hd. rewrite Hm in Hd.
  assert (h / g = (h + 1) / g - 1); [|nia]. symmetry. apply Z.div_unique with (g - 1); nia.
Qed.

Lemma pool_inv_block h changed s s' :
  pool_inv h changed s -> end_block (h + 1) s = (Ok tt, s') -> pool_inv (h + 1) changed s'.
Proof.
  intros [Hh Hch (params & p & c & Hp & Hprev & Hcur & Hle & Hle' & Hinv)] Hrun. unfold end_block in Hrun.
  rewrite (proj2 (Z.ltb_ge (h + 1) 0)) in Hrun by lia.
  apply bind_ok in Hrun as (x & s1 & H1 & Hrun). apply ret_ok in H1 as [-> ->].
  apply bind_ok in Hrun as (ps & s1 & H1 & Hrun). unfold reading in H1. injection H1 as H1 <-. rewrite Hp in H1. injection H1 as <-.
  apply bind_ok in Hrun as (u & s1 & H1 & Hrun). apply lift_ok in H1 as [H1 ->]. unfold should_update_fmd_params in H1.
  set (g := fmd_grace_period_blocks (fmd_meta_params params)) in *.
  destruct (Z.eqb_spec g 0) as [Hg0|Hg0]; [done|]. injection H1 as <-.
  assert (Hch' : forall k, changed = Some k -> k <= h + 1) by (intros k Hk; specialize (Hch k Hk); lia).
  destruct (Z.eqb_spec ((h + 1) mod g) 0) as [Hm|Hm].
  2: { apply ret_ok in Hrun as [_ ->]. split; [lia|done|]. exists params, p, c. split_and!; [done..|lia|lia|]. fold g. intros g' Hg. subst g'.
       unfold settled, long_settled in *. rewrite (same_period g h Hg Hh Hm).
       destruct (Hinv Hg) as [H1 H2]. split; [exact H1|]. intros Hl. destruct (H2 Hl); [by left|right; lia]. }
  apply bind_ok in Hrun as (old & s1 & H1 & Hrun). unfold reading in H1. injection H1 as H1 <-. rewrite Hcur in H1. injection H1 as <-.
  apply bind_ok in Hrun as (delta & s1 & H1 & Hrun). unfold flush_clue_count in H1. inv_comp.
  match goal with Hu : updated_fmd_params _ _ _ _ _ = Ok ?a |- _ => destruct a as [new st] end. inv_comp. split; [lia|exact Hch'|].
  match goal with Hu : updated_fmd_params _ _ _ _ _ = Ok (?n, _) |- _ =>
    exists params, c, n; apply updated_as_of in Hu; assert (as_of_block_height n <= h + 1) by (destruct Hu as [->|Hu]; lia);
    split_and!; [exact Hp|done|done|lia|lia|]
  end.
  fold g. intros g' Hg. subst g'. destruct (new_period g h Hg Hh Hm) as [Hnow Hlast]. unfold settled, long_settled in *.
  rewrite Hnow. split; [lia|]. intros Hl. right. destruct (Hinv Hg) as [H1 _].
  assert (as_of_block_height c <= h / g * g + 1); [|lia]. apply H1. destruct changed; [lia|done].
Qed.

Lemma pool_reachable_inv h changed s : pool_reachable h changed s -> pool_inv h changed s.
Proof.
  induction 1 as [params s s' Hs|h changed s s' _ [Hh Hc Hi] Hs|h changed params s _ IH|h changed s s' _ IH Hs];
    [by eapply pool_inv_genesis| |by eapply pool_inv_params|by eapply pool_inv_block].
  unfold record_clue in Hs. inv_comp. split; [done|done|exact Hi].
Qed.

(** (C40) The grace period is never open while the parameters stay: in every reachable state in which
    they have not changed since genesis, or for two periods, a clue in the next block is accepted
    exactly when it uses the current precision, and the check never panics.  (A change can open it for a while, as in
    [a_longer_period_opens_it].) *)
Theorem clues_must_use_the_current_precision params h changed s :
  pool_reachable h changed s -> shielded_pool_params s = Some params ->
  let g := fmd_grace_period_blocks (fmd_meta_params params) in
  0 < g -> h + 1 + g < 2 ^ 64 -> match changed with None => True | Some k => k + 2 * g <= h end ->
  exists previous current, previous_fmd s = Some previous /\ current_fmd s = Some current
    /\ forall clue, Transactions.clue_precision_valid (E := string) (fmd_meta_params params) previous current (h + 1) clue
         = Ok (clue =? precision current).
Proof.
  intros Hr Hpar g Hg Hroom Hlong. destruct (pool_reachable_inv _ _ _ Hr) as [Hh _ (q & p & c & Hq & Hp & Hc & Hle & _ & Hinv)].
  rewrite Hpar in Hq. injection Hq as <-. exists p, c. split_and!; [done..|].
  intros clue. unfold Transactions.clue_precision_valid. fold g in Hinv |- *. rewrite plain_add_run by lia.
  cbn [outcome_bind]. f_equal. destruct (Hinv Hg) as [_ H2]. destruct H2 as [Heq|Hold].
  - unfold long_settled. destruct changed as [k|]; [|done]. pose proof (Z.mod_pos_bound h g Hg).
    pose proof (Z.div_mod h g ltac:(lia)). lia.
  - rewrite Heq. destruct (clue =? precision c); [done|]. by rewrite andb_false_l.
  - rewrite (proj2 (Z.ltb_ge _ _)) by exact Hold. by rewrite andb_false_r, orb_false_r.
Qed.

(** Two blocks under a period of two blocks and a fixed precision of 5 bits, then a period of three. *)
Definition grace_of (g bits : Z) : ShieldedPoolParameters := mkShieldedPoolParams (mkMeta g (Fixed bits)).
Definition no_pool : PoolState := mkPool None None None None None None.
Definition pool_ran (m : pooling unit) (s : PoolState) : PoolState := (m s).2.
Definition pool_0 : PoolState := pool_ran (init_parameters (grace_of 2 5)) no_pool.
Definition pool_2 : PoolState := pool_ran (end_block 2) (pool_ran (end_block 1) pool_0).
Definition pool_changed : PoolState := set_shielded_pool_params (Some (grace_of 3 7)) pool_2.
Definition pool_8 : PoolState := foldl (fun s h => pool_ran (end_block h) s) pool_changed [3; 4; 5; 6; 7; 8].

Lemma blocks_reachable n : forall h changed s,
  pool_reachable h changed s ->
  forallb (fun k => match (end_block (h + 1 + Z.of_nat k) (foldl (fun s h => pool_ran (end_block h) s) s
    ((fun i => h + 1 + Z.of_nat i) <$> seq 0 k))).1 with Ok _ => true | _ => false end) (seq 0 n) = true ->
  pool_reachable (h + Z.of_nat n) changed
    (foldl (fun s h => pool_ran (end_block h) s) s ((fun i => h + 1 + Z.of_nat i) <$> seq 0 n)).
Proof.
  induction n as [|n IH]; intros h changed s Hr Hall; [by rewrite Z.add_0_r|].
  rewrite seq_S in Hall |- *. rewrite forallb_app in Hall. apply andb_true_iff in Hall as [Hall Hlast].
  cbn [forallb] in Hlast. rewrite andb_true_r in Hlast. rewrite Nat.add_0_l in *. rewrite fmap_app, foldl_app.
  cbn [fmap list_fmap foldl]. replace (h + Z.of_nat (S n)) with (h + Z.of_nat n + 1) by lia.
  eapply pool_block; [by apply IH|]. replace (h + Z.of_nat n + 1) with (h + 1 + Z.of_nat n) by lia.
  unfold pool_ran at 2. destruct (end_block _ _) as [[[]| |] s']; done.
Qed.

Lemma pool_changed_reachable : pool_reachable 2 (Some 2) pool_changed.
Proof.
  eapply pool_params. apply (blocks_reachable 2 0 None pool_0); [|vm_compute; reflexivity].
  apply (pool_genesis (grace_of 2 5) no_pool). reflexivity.
Qed.

Lemma pool_8_reachable : pool_reachable 8 (Some 2) pool_8.
Proof. apply (blocks_reachable 6 2 (Some 2) pool_changed pool_changed_reachable). vm_compute. reflexivity. Qed.

Lemma clues_must_use_the_current_precision_witness :
  pool_reachable 8 (Some 2) pool_8
  /\ exists previous current, previous_fmd pool_8 = Some previous /\ current_fmd pool_8 = Some current
    /\ forall clue, Transactions.clue_precision_valid (E := string) (fmd_meta_params (grace_of 3 7)) previous current (8 + 1) clue
         = Ok (clue =? precision current).
Proof.
  split; [exact pool_8_reachable|].
  apply (clues_must_use_the_current_precision (grace_of 3 7) 8 (Some 2) pool_8 pool_8_reachable); [vm_compute; reflexivity|cbn; lia|cbn; lia|cbn; lia].
Defined.

(** A longer period opens it: right after the change a clue of the default precision, which only the
    parameters before the current ones ask for, is accepted. *)
Example a_longer_period_opens_it :
  pool_reachable 2 (Some 2) pool_changed
  /\ exists previous current, previous_fmd pool_changed = Some previous /\ current_fmd pool_changed = Some current
    /\ precision previous <> precision current
    /\ Transactions.clue_precision_valid (E := string) (fmd_meta_params (grace_of 3 7)) previous current (2 + 1)
          (precision previous) = Ok true.
Proof.
  split; [exact pool_changed_reachable|]. eexists _, _. split; [vm_compute; reflexivity|].
  split; [vm_compute; reflexivity|]. split; [vm_compute; discriminate|vm_compute; reflexivity].
Qed.

(** A grace period of zero blocks, which the checks of parameter changes accept, stops the chain. *)
Theorem zero_grace_period_panics params h s :
  shielded_pool_params s = Some params -> fmd_grace_period_blocks (fmd_meta_params params) = 0 ->
  (end_block h s).1 = Panic.
Proof.
  intros Hp Hg. unfold end_block. destruct (h <? 0); [done|]. unfold bind, ret, reading. rewrite Hp. cbn [expect_some].
  unfold lift, should_update_fmd_params. by rewrite Hg.
Qed.

(** The counts of two periods are subtracted from each other, although each starts at zero: traffic
    that does not grow counts as none. *)
Theorem steady_traffic_counts_as_none s n previous s1 current s2 :
  get_current_clue_count s = n -> flush_clue_count s = (Ok previous, s1) ->
  forall s1', get_current_clue_count s1' = n -> previous_clues s1' = previous_clues s1 ->
  flush_clue_count s1' = (Ok current, s2) -> saturating_sub current.2 current.1 = 0.
Proof.
  intros Hn H1 s1' Hn' Hprev H2. unfold flush_clue_count in H1, H2. inv_comp. simplify_eq. cbn in *.
  unfold get_previous_clue_count in *. rewrite Hprev. cbn. unfold saturating_sub. rewrite Hn'. lia.
Qed.
