(* ===== verification/GovernanceFacts.v ===== *)
(** * Facts about governance

    Inversion of the handlers' computations, what tallying does to the stored tallies, and the value
    of [current_tally]. *)

From S2P Require Import Prelude.
From S2P Require Import Num.
From S2P Require Import Asset.
From S2P Require Import Clock.
From S2P Require Import Validator.
From S2P Require Import Rate.
From S2P Require Import Stake.
From S2P Require Import Tally.
From S2P Require Import Governance.
Import GovernanceRead.
Import GovernanceWrite.

Lemma reads_ok {A} (f : GovernanceState -> A) a w w' : reads f w = (Ok a, w') <-> a = f (governance w) /\ w' = w.
Proof. apply (gets_ok (fun w => f (governance w))). Qed.

Lemma asking_ok {A} (f : World -> anyhow A) a w w' : asking f w = (Ok a, w') <-> f w = Ok a /\ w' = w.
Proof. unfold asking. split; [by intros [= -> ->]|by intros [-> ->]]. Qed.

Lemma writes_ok f u w w' : writes f w = (Ok u, w') <-> u = tt /\ w' = set_governance (f (governance w)) w.
Proof. apply (modify_ok (fun w => set_governance (f (governance w)) w)). Qed.

Ltac inv_gov_step :=
  first
    [ inv_comp_step
    | match goal with
      | H : reads _ _ = (Ok _, _) |- _ => apply reads_ok in H as [-> ->]
      | H : asking _ _ = (Ok _, _) |- _ => apply asking_ok in H as [H ->]
      | H : writes _ _ = (Ok _, _) |- _ => apply writes_ok in H as [-> ->]
      | H : record_event _ _ = (Ok _, _) |- _ => apply writes_ok in H as [-> ->]
      end ].
Ltac inv_gov := repeat inv_gov_step.

(** ** The outcome of a tally *)

Lemma total_run {E} t : Tally.yes t + Tally.no t + Tally.abstain t < 2 ^ 64 -> 0 <= Tally.abstain t ->
  @Tally.total E t = Ok (Tally.yes t + Tally.no t + Tally.abstain t).
Proof.
  intros Ht Ha. unfold Tally.total. rewrite plain_add_run by lia. cbn [outcome_bind]. by rewrite plain_add_run by lia.
Qed.

(** ** Entries of one proposal *)

Lemma for_proposal_lookup {A} (p : Z) (m : gmap (Z * identity_key) A) (i : identity_key) : for_proposal p m !! i = m !! (p, i).
Proof.
  unfold for_proposal. apply option_eq. intros a. set (l := omap _ _).
  assert (Hin : forall j b, (j, b) ∈ l <-> m !! (p, j) = Some b).
  { intros j b. unfold l. rewrite list_elem_of_omap. split.
    - intros ([[q k] c] & Hin & Hc). case_decide; [|done]. simplify_eq. by apply elem_of_map_to_list in Hin.
    - intros Hm. exists ((p, j), b). split; [by apply elem_of_map_to_list|]. by rewrite decide_True. }
  rewrite <- elem_of_list_to_map; [apply Hin|].
  unfold l. clear. pose proof (NoDup_fst_map_to_list m) as Hnd. induction (map_to_list m) as [|[[q k] c] ml IH]; cbn; [constructor|].
  apply NoDup_cons in Hnd as [Hk Hnd]. case_decide; [|by apply IH]. cbn. apply NoDup_cons. split; [|by apply IH]. subst q.
  intros Hin. apply Hk. apply list_elem_of_fmap in Hin as ([k' c'] & Hk' & Hin). cbn in Hk'. subst k'.
  apply list_elem_of_omap in Hin as ([[q' k'] c''] & Hin & Hc). case_decide; [|done]. simplify_eq.
  apply list_elem_of_fmap. by exists ((p, k), c').
Qed.

(** ** Sweeping delegators' votes *)

(** The last of a list of votes for a validator and a proposal. *)
Definition last_vote (k : Z * identity_key) (votes : list (vote_key * Tally.t)) : option Tally.t :=
  snd <$> last (filter (fun v : vote_key * Tally.t => v.1.1 = k) votes).

Section Sweeping.
Context `{GovernanceEnv}.

Lemma sweep_votes_run w : forall votes acc new w',
  for_fold votes acc sweep_vote w = (Ok new, w') ->
  w' = w /\ forall k, match last_vote k votes with
                      | None => new !! k = acc !! k
                      | Some t => exists sum, @Tally.add string (default Tally.zero (tallied_votes (governance w) !! k)) t = Ok sum /\ new !! k = Some sum
                      end.
Proof.
  induction votes as [|[[k n] t] votes IH]; intros acc new w' Hrun; cbn [for_fold] in Hrun; [by apply ret_ok in Hrun as [-> ->]|].
  apply bind_ok in Hrun as (acc' & w1 & H1 & Hrun). unfold sweep_vote in H1. inv_gov. cbn in *.
  match goal with Ha : Tally.add _ _ = Ok ?x |- _ => rename Ha into Hadd; set (sum := x) in * end.
  destruct (IH _ _ _ Hrun) as [-> Hlast]. split; [done|]. intros j. specialize (Hlast j). unfold last_vote in *. rewrite filter_cons. cbn [fst snd].
  destruct (decide (k = j)) as [->|Hne].
  - rewrite last_cons. destruct (last (filter _ votes)) as [v|] eqn:Hv; cbn in *; [done|].
    exists sum. split; [done|]. by rewrite Hlast, lookup_insert_eq.
  - destruct (last (filter _ votes)) as [v|]; cbn in *; [done|]. by rewrite Hlast, lookup_insert_ne.
Qed.
End Sweeping.

(** ** The current tally *)

Definition plus (a b : Tally.t) : Tally.t :=
  Tally.mk (Tally.yes a + Tally.yes b) (Tally.no a + Tally.no b) (Tally.abstain a + Tally.abstain b).
Definition sum_tallies (l : list Tally.t) : Tally.t := foldr plus Tally.zero l.
Definition weight (t : Tally.t) : Z := Tally.yes t + Tally.no t + Tally.abstain t.
Definition tally_ok (t : Tally.t) : Prop := 0 <= Tally.yes t /\ 0 <= Tally.no t /\ 0 <= Tally.abstain t.

(** What one validator adds: the votes of its delegators, and its own vote with the rest of its power. *)
Definition counted (votes : gmap identity_key Vote.t) (delegators : gmap identity_key Tally.t) (v : identity_key * Z) : Tally.t :=
  let used := default Tally.zero (delegators !! v.1) in
  plus match votes !! v.1 with
       | Some vote => Tally.of_vote vote (saturating_sub v.2 (weight used))
       | None => Tally.zero
       end used.

Lemma plus_assoc a b c : plus (plus a b) c = plus a (plus b c).
Proof. unfold plus. cbn. f_equal; lia. Qed.

Lemma plus_zero a : plus a Tally.zero = a.
Proof. destruct a. unfold plus. cbn. f_equal; lia. Qed.

Lemma of_vote_ok v x : 0 <= x -> tally_ok (Tally.of_vote v x) /\ weight (Tally.of_vote v x) = x.
Proof. intros Hx. destruct v; unfold tally_ok, weight; cbn; lia. Qed.

Lemma add_run {E} a b : tally_ok a -> tally_ok b -> weight a + weight b < 2 ^ 64 -> @Tally.add E a b = Ok (plus a b).
Proof.
  unfold tally_ok, weight. intros Ha Hb Hw. unfold Tally.add. do 3 (rewrite plain_add_run by lia; cbn [outcome_bind]). done.
Qed.

Lemma plus_ok a b : tally_ok a -> tally_ok b -> tally_ok (plus a b) /\ weight (plus a b) = weight a + weight b.
Proof. unfold tally_ok, weight, plus. cbn. lia. Qed.

Lemma weight_nonneg t : tally_ok t -> 0 <= weight t.
Proof. unfold tally_ok, weight. lia. Qed.

Definition delegators_ok (delegators : gmap identity_key Tally.t) : Prop := map_Forall (fun _ t => tally_ok t) delegators.

Lemma used_ok delegators i : delegators_ok delegators -> tally_ok (default Tally.zero (delegators !! i)).
Proof.
  intros Hd. destruct (delegators !! i) as [t|] eqn:Ht; [exact (map_Forall_lookup_1 _ _ _ _ Hd Ht)|]. unfold tally_ok. cbn. lia.
Qed.

Lemma counted_ok votes delegators v : delegators_ok delegators -> tally_ok (counted votes delegators v).
Proof.
  intros Hd. unfold counted. pose proof (used_ok _ v.1 Hd) as Hu. apply plus_ok; [|exact Hu].
  destruct (votes !! v.1) as [vote|]; [|unfold tally_ok; cbn; lia]. apply of_vote_ok. unfold saturating_sub. lia.
Qed.

Lemma sum_tallies_ok l : Forall tally_ok l -> tally_ok (sum_tallies l).
Proof. induction 1 as [|t l Ht _ IH]; [unfold tally_ok; cbn; lia|]. by apply plus_ok. Qed.

Lemma weight_sum_cons t l : tally_ok t -> Forall tally_ok l -> weight (sum_tallies (t :: l)) = weight t + weight (sum_tallies l).
Proof. intros Ht Hl. apply plus_ok; [done|by apply sum_tallies_ok]. Qed.

(** Removing another validator does not change what one adds. *)
Lemma counted_delete votes delegators i v : v.1 <> i -> counted (delete i votes) (delete i delegators) v = counted votes delegators v.
Proof. intros Hne. unfold counted. by rewrite !lookup_delete_ne by done. Qed.

(** The loop adds up what the validators add, and its assertions hold when the votes are those of
    validators with power. *)
Lemma tally_loop_run : forall powers votes delegators tally,
  NoDup powers.*1 -> (forall i, is_Some (votes !! i) -> i ∈ powers.*1) -> (forall i, is_Some (delegators !! i) -> i ∈ powers.*1) ->
  delegators_ok delegators -> tally_ok tally ->
  weight tally + weight (sum_tallies (counted votes delegators <$> powers)) < 2 ^ 64 ->
  tally_loop powers votes delegators tally = Ok (plus tally (sum_tallies (counted votes delegators <$> powers))).
Proof.
  induction powers as [|[i p] powers IH]; intros votes delegators tally Hnd Hv Hd Hok Ht Hw; cbn [tally_loop].
  { assert (votes = ∅) as -> by (apply map_empty; intros i; apply eq_None_not_Some; intros Hs; apply Hv in Hs; set_solver).
    assert (delegators = ∅) as -> by (apply map_empty; intros i; apply eq_None_not_Some; intros Hs; apply Hd in Hs; set_solver).
    rewrite !bool_decide_eq_true_2 by done. cbn. by rewrite plus_zero. }
  cbn [fmap list_fmap fst] in Hnd, Hv, Hd. apply NoDup_cons in Hnd as [Hi Hnd].
  pose proof (used_ok _ i Hok) as Hu. set (used := default Tally.zero (delegators !! i)) in *.
  assert (Hrest : counted votes delegators <$> powers = counted (delete i votes) (delete i delegators) <$> powers).
  { apply list_fmap_ext. intros k [j q] Hj. symmetry. apply counted_delete. cbn. intros ->. apply Hi.
    apply list_elem_of_fmap. exists (i, q). split; [done|]. by eapply list_elem_of_lookup_2. }
  assert (Hall : Forall tally_ok (counted votes delegators <$> powers)) by (apply Forall_fmap, Forall_true; intros; by apply counted_ok).
  rewrite fmap_cons, weight_sum_cons in Hw by (done || by apply counted_ok).
  pose proof (weight_nonneg _ (sum_tallies_ok _ Hall)) as Hrw.
  set (own := match votes !! i with Some vote => Tally.of_vote vote (saturating_sub p (weight used)) | None => Tally.zero end).
  assert (Hown : tally_ok own) by (unfold own; destruct (votes !! i); [apply of_vote_ok; unfold saturating_sub; lia|unfold tally_ok; cbn; lia]).
  assert (Hc : counted votes delegators (i, p) = plus own used) by done.
  assert (Hcw : weight (counted votes delegators (i, p)) = weight own + weight used) by (rewrite Hc; by apply plus_ok).
  pose proof (weight_nonneg _ Ht). pose proof (weight_nonneg _ Hown). pose proof (weight_nonneg _ Hu).
  assert (Hstep : match votes !! i with
                  | Some vote => let! u := Tally.total used in Tally.add tally (Tally.of_vote vote (saturating_sub p u))
                  | None => Ok tally
                  end = (Ok (plus tally own) : anyhow Tally.t)).
  { unfold own in *. destruct (votes !! i) as [vote|]; [|by rewrite plus_zero].
    rewrite total_run by (unfold weight, tally_ok in *; lia). cbn [outcome_bind]. fold (weight used).
    apply add_run; [done..|]. lia. }
  rewrite Hstep. cbn [outcome_bind]. destruct (plus_ok _ _ Ht Hown) as [Hto Htw].
  rewrite add_run by (done || lia). cbn [outcome_bind]. destruct (plus_ok _ _ Hto Hu) as [Hto' Htw'].
  rewrite IH; [|done|..].
  - rewrite <- Hrest. f_equal. cbn. by rewrite Hc, !plus_assoc.
  - intros j Hj. destruct (decide (j = i)) as [->|Hne]; [by rewrite lookup_delete_eq in Hj; destruct Hj|].
    rewrite lookup_delete_ne in Hj by done. apply Hv in Hj. set_solver.
  - intros j Hj. destruct (decide (j = i)) as [->|Hne]; [by rewrite lookup_delete_eq in Hj; destruct Hj|].
    rewrite lookup_delete_ne in Hj by done. apply Hd in Hj. set_solver.
  - by apply map_Forall_delete.
  - done.
  - rewrite <- Hrest. lia.
Qed.
