(* ===== verification/ChainFacts.v ===== *)
(** * Invariants of a chain

    An invariant that looks at the state of the components only is kept by a block when it is kept by
    the handlers of its actions and by the hooks of the components. *)

From S2P Require Import Prelude.
From S2P Require Import Num.
From S2P Require Import Asset.
From S2P Require Import Clock.
From S2P Require Import Validator.
From S2P Require Import Rate.
From S2P Require Import Stake.
From S2P Require Import StakeManager.
From S2P Require Import StakeEpoch.
From S2P Require Import Distributions.
From S2P Require Import Fmd.
From S2P Require Import Tally.
From S2P Require Import Governance.
From S2P Require Import AppParams.
From S2P Require Import Chain.
From S2P Require Import GovernanceFacts.
Import GovernanceRead.
Import GovernanceWrite.

(** What an invariant may look at. *)
Class ComponentInvariant (I : App -> Prop) :=
  component_invariant a a' : I a -> world a' = world a -> distribution a' = distribution a -> I a'.

Definition holds (I : App -> Prop) {A} (m : app A) : Prop := triple I m (fun _ => I).

Section Holds.
Context (I : App -> Prop).

Lemma holds_bind {A B} (m : app A) (k : A -> app B) : holds I m -> (forall a, holds I (k a)) -> holds I (bind m k).
Proof. intros Hm Hk. eapply triple_bind; [exact Hm|exact Hk]. Qed.

Lemma holds_for_each {A} (l : list A) (body : A -> app unit) : (forall x, x ∈ l -> holds I (body x)) -> holds I (for_each l body).
Proof. apply triple_for_each. Qed.

Lemma holds_expecting {A} (m : app A) : holds I m -> holds I (expecting m).
Proof. apply triple_expecting. Qed.

Lemma holds_panic {A} : holds I (panic (A := A)).
Proof. apply triple_panic. Qed.
Lemma holds_ret {A} (x : A) : holds I (ret x).
Proof. by apply triple_ret. Qed.
Lemma holds_gets {A} (f : App -> A) : holds I (gets f).
Proof. by apply triple_gets. Qed.
Lemma holds_lift {A} (o : anyhow A) : holds I (lift o).
Proof. by apply triple_lift. Qed.
Lemma holds_ensure b e : holds I (ensure b e).
Proof. by apply triple_ensure. Qed.
Lemma holds_ask {A} (f : App -> anyhow A) : holds I (ask f).
Proof. unfold ask. intros a r a' Ha [= _ <-]. exact Ha. Qed.

Lemma holds_world {A} (m : governing A) :
  (forall a r w, I a -> m (world a) = (Ok r, w) -> I (set_world w a)) -> holds I (on_world m).
Proof. intros Hm a r a' Ha. unfold on_world. destruct (m (world a)) as [o w] eqn:Hrun. intros [= -> <-]. by eapply Hm. Qed.

Lemma holds_staking {A} (m : stake A) :
  (forall a r s, I a -> m (staking (world a)) = (Ok r, s) -> I (set_world (set_staking s (world a)) a)) -> holds I (on_staking m).
Proof.
  intros Hm. apply holds_world. intros a r w Ha. destruct (m (staking (world a))) as [o s] eqn:Hrun. intros [= -> <-]. by eapply Hm.
Qed.

Lemma holds_distribution {A} (m : distributing A) :
  (forall a r d, I a -> m (distribution a) = (Ok r, d) -> I (set_distribution d a)) -> holds I (on_distribution m).
Proof. intros Hm a r a' Ha. unfold on_distribution. destruct (m (distribution a)) as [o d] eqn:Hrun. intros [= -> <-]. by eapply Hm. Qed.
End Holds.

Section Components.
Context (I : App -> Prop) `{!ComponentInvariant I}.

Lemma set_same_world a : I a -> I (set_world (world a) a).
Proof. intros Ha. by eapply component_invariant. Qed.

Lemma holds_asking {A} (f : World -> anyhow A) : holds I (on_world (asking f)).
Proof. apply holds_world. intros a r w Ha [_ ->]%asking_ok. by apply set_same_world. Qed.
Lemma holds_reads {A} (f : GovernanceState -> A) : holds I (on_world (reads f)).
Proof. apply holds_world. intros a r w Ha [_ ->]%reads_ok. by apply set_same_world. Qed.
Lemma holds_modify (f : App -> App) :
  (forall a, world (f a) = world a) -> (forall a, distribution (f a) = distribution a) -> holds I (modify f).
Proof. intros Hw Hd. apply triple_modify. intros a Ha. by eapply component_invariant. Qed.

Lemma holds_pool {A} (m : ShieldedPool.pooling A) : holds I (on_pool m).
Proof.
  intros a r a' Ha. unfold on_pool. destruct (m (pool a)) as [o p]. intros [= _ <-]. by eapply component_invariant.
Qed.
End Components.

(** [hold] splits a computation into steps, and leaves those on the components. *)
Ltac hold_step :=
  lazymatch goal with
  | |- holds _ (bind _ _) => apply holds_bind; [|intros ?]
  | |- holds _ (for_each _ _) => apply holds_for_each; intros ? ?
  | |- holds _ (on_pool _) => apply holds_pool; exact _
  | |- holds _ (ask _) => apply holds_ask
  | |- holds _ (gets _) => apply holds_gets
  | |- holds _ (lift _) => apply holds_lift
  | |- holds _ (ret _) => apply holds_ret
  | |- holds _ (ensure _ _) => apply holds_ensure
  | |- holds _ panic => apply holds_panic
  | |- holds _ (expecting _) => apply holds_expecting
  | |- holds _ (on_world (asking _)) => apply holds_asking; exact _
  | |- holds _ (on_world (reads _)) => apply holds_reads; exact _
  | |- holds _ (if ?b then _ else _) => destruct b
  end.
Ltac hold := repeat hold_step.

(** ** Transactions *)

Section Transactions.
Context `{ChainEnv} (I : App -> Prop) `{!ComponentInvariant I}.
Import Transactions Block.

Lemma checked_actions l : foldl (fun acc a => let! _ := acc in action_check_stateless a) (Ok tt) l = Ok tt ->
  Forall (fun a => action_check_stateless a = Ok tt) l.
Proof.
  enough (Hf : forall acc, foldl (fun acc a => let! _ := acc in action_check_stateless a) acc l = Ok tt ->
    acc = Ok tt /\ Forall (fun a => action_check_stateless a = Ok tt) l) by apply Hf.
  induction l as [|a l IH]; intros acc Hl; [by split|]. apply IH in Hl as [Ha Hl].
  destruct acc as [[]| |]; [|done..]. by split; [|constructor].
Qed.

Lemma check_stateless_actions tx : check_stateless tx = Ok tt -> Forall (fun a => action_check_stateless a = Ok tt) (tx_actions tx).
Proof. unfold check_stateless. intros Hs. inv_outcome. by apply checked_actions. Qed.

(** The historical checks only read. *)
Lemma check_historical_reads tx a r a' : check_historical tx a = (r, a') -> world a' = world a /\ distribution a' = distribution a.
Proof.
  unfold check_historical, chain_id_is_correct, expiry_height_is_valid, fmd_parameters_valid, get_block_height, bind, ask, on_world, asking, lift, ensure, ret, fail.
  intros Hrun. repeat (case_match; simplify_eq; try done).
Qed.

Lemma pre_upgrade_holds : holds I (on_world is_pre_upgrade_height).
Proof.
  apply holds_world. intros a r w Ha Hrun. unfold is_pre_upgrade_height, get_block_height in Hrun.
  apply bind_ok in Hrun as (n & w1 & H1 & Hrun). apply reads_ok in H1 as [_ ->]. destruct n; inv_gov; by apply set_same_world.
Qed.

(** A transaction whose actions keep the invariant keeps it: one that fails leaves no trace. *)
Lemma deliver_or_skip_holds sched tx :
  (forall a, a ∈ tx_actions tx -> action_check_stateless a = Ok tt -> holds I (action_check_and_execute sched a)) ->
  holds I (deliver_or_skip sched tx).
Proof.
  intros Hact a u a' Ha Hrun. unfold deliver_or_skip, ignore_error in Hrun. destruct (deliver_tx sched tx a) as [o a1] eqn:Hd.
  assert (I a1); [|by destruct o; simplify_eq].
  clear Hrun. unfold deliver_tx, bind at 1 in Hd. destruct (in_task _ a) as [o1 a2] eqn:H1.
  assert (Hs : a2 = a /\ (o1 = Ok tt -> check_stateless tx = Ok tt)).
  { unfold in_task, lift in H1. destruct (check_stateless tx) as [[]| |]; by simplify_eq. }
  destruct Hs as [-> Hs]. destruct o1 as [[]| |]; [|by simplify_eq..].
  unfold bind at 1 in Hd. destruct (in_task (check_historical tx) a) as [o2 a2] eqn:H2.
  assert (Hw : world a2 = world a /\ distribution a2 = distribution a).
  { unfold in_task in H2. destruct (check_historical tx a) as [o3 a3] eqn:H3. apply check_historical_reads in H3. by destruct o3; simplify_eq. }
  assert (Ha2 : I a2) by (by eapply component_invariant; [exact Ha|apply Hw..]).
  destruct o2 as [u2| |]; [|by simplify_eq..]. destruct o as [[]| |].
  - rewrite transaction_ok in Hd.
    enough (Hk : holds I (_ <- on_world get_block_height;; check_and_execute sched tx)) by exact (Hk _ _ _ Ha2 Hd).
    unfold get_block_height, check_and_execute. hold.
    apply Hact; [done|]. specialize (Hs eq_refl). apply check_stateless_actions in Hs. rewrite Forall_forall in Hs. by apply Hs.
  - by apply transaction_not_ok in Hd as ->.
  - by apply transaction_not_ok in Hd as ->.
Qed.
End Transactions.
