(* ===== verification/Devnet.v ===== *)
(** * A small chain

    Concrete choices for the code outside the model, a genesis with two validators, and the first
    blocks, on which the theorems about the chain are instantiated. *)

From S2P Require Import Prelude.
From S2P Require Import Num.
From S2P Require Import Asset.
From S2P Require Import DexState.
From S2P Require Import Fee.
From S2P Require Import Clock.
From S2P Require Import Validator.
From S2P Require Import Rate.
From S2P Require Import Stake.
From S2P Require Import StakeManager.
From S2P Require Import StakeEpoch.
From S2P Require Import Distributions.
From S2P Require Import Fmd.
From S2P Require Import Tally.
From S2P Require Import Governance.
From S2P Require Import AppParams.
From S2P Require Import Chain.

(** ** The environment *)

#[global] Instance dev_tokens : StakeTokens := {
  staking_token := 0;
  delegation_token i := 1000 + i;
  unbonding_token i height := 2000 + 100 * height + i;
}.

#[global] Instance dev_stake : StakeEnv := {
  validator_address key := key;
  identity_text i := i;
  definition_signed _ _ := true;
}.

Definition dev_nft (kind : ProposalNft.Kind) (proposal : Z) : asset_id :=
  - 10 * proposal - match kind with
                    | ProposalNft.Deposit => 1 | ProposalNft.UnbondingDeposit => 2
                    | ProposalNft.Slashed => 3 | ProposalNft.Failed => 4 | ProposalNft.Passed => 5
                    end.

#[global] Instance dev_governance : GovernanceEnv := {
  proposal_nft := dev_nft;
  voting_receipt_token proposal := - 10 * proposal - 6;
  delegation_validator a := if (1000 <? a) && (a <? 2000) then Some (a - 1000) else None;
  nullifier_text n := n;
  validator_vote_signed _ := true;
  delegator_vote_verifies _ := true;
  valid_client_id _ := true;
  client_with_frozen_height client := - client;
  client_unfrozen client := - client;
  community_pool_transaction_of _ := Err "no transactions";
  community_pool_transaction_checks _ := Ok tt;
}.

#[global] Instance dev_json : ParameterJson := {
  json := Z;
  json_from_str _ := Ok 0;
  to_value _ := Ok ∅;
  from_value _ := Err "no parameters";
}.

#[global] Instance dev_chain : ChainEnv := {
  claim_proof_verifies _ _ _ := true;
  decode_plan _ := Ok [];
  decode_transaction _ := mkTransaction [] "" 0 [];
}.

Definition in_order (l : list identity_key) : list identity_key := l.

(** ** The genesis *)

Definition dev_validator (i : identity_key) : Validator := mkValidator i (10 + i) (20 + i) "validator" "" "" true [] 0.

Definition dev_governance_params : GovernanceParameters :=
  mkGovernanceParams 2 10000000 (Ratio.new 2 5) (Ratio.new 1 2) (Ratio.new 4 5).
Definition dev_stake_params : StakeParameters := mkStakeParams 4 2 1000 10 10 5 1000000.
Definition no_gas : GasPrices := mkGasPrices 0 0 0 0 0.

Definition dev_content : Block.Content :=
  Block.mkContent "devnet" (mkSctParams 2) (ShieldedPool.mkShieldedPoolParams (Fmd.mkMeta 1 (Fmd.Fixed 0)))
    [mkValue 30000000 1001; mkValue 20000000 1002; mkValue 1000 0] (mkDistributionsParams 0 0 None) dev_stake_params
    [dev_validator 1; dev_validator 2] (mkIbcParams true true true) (mkDexParameters true [] 4 100 64)
    (mkCommunityPoolParams false) dev_governance_params (mkFeeParameters no_gas []) (mkFundingParams (mkTournamentParams 0 0 0 0)).

(** ** Blocks *)

Definition dev_proposal (payload : ProposalPayload.t) : Proposal := mkProposal 0 "title" "description" payload.
Definition dev_tx (actions : list Action) : Transaction := mkTransaction actions "devnet" 0 [].
Definition dev_input (actions : list (list Action)) : Block.Input := Block.mkInput [] [(21, true); (22, true)] (dev_tx <$> actions).
Definition after (height : Z) (actions : list (list Action)) (a : App) : App := (Block.run in_order height (dev_input actions) a).2.

Definition dev_submit : Action :=
  ActionProposalSubmit (mkSubmit (dev_proposal (ProposalPayload.Signaling None)) 10000000).
Definition dev_vote (i : identity_key) (v : Vote.t) : Action := ActionValidatorVote (mkValidatorVote 0 v i (10 + i) "" 0).
Definition dev_delegator_vote (i : identity_key) (v : Vote.t) (weight nullifier : Z) : Action :=
  ActionDelegatorVote (mkDelegatorVote 0 0 v (mkValue weight (1000 + i)) weight nullifier).
Definition dev_claim (o : ProposalOutcome.t unit) : Action := ActionProposalDepositClaim (mkClaim 0 10000000 o).

Definition dev_genesis : App := (bind (Block.init_chain in_order (Some dev_content)) (fun _ => Block.commit) empty_app).2.
Abbreviation submitted_block := (after 1 [[dev_submit]] dev_genesis).
