(* ===== verification/GovernanceMachine.v ===== *)
(** * The life of proposals

    The steps of governance, the invariant of its state, and the order in which a proposal moves. *)

From S2P Require Import Prelude.
From S2P Require Import Num.
From S2P Require Import Asset.
From S2P Require Import Clock.
From S2P Require Import Validator.
From S2P Require Import Rate.
From S2P Require Import Stake.
From S2P Require Import Tally.
From S2P Require Import Governance.
From S2P Require Import AppParams.
From S2P Require Import GovernanceFacts.
Import GovernanceRead.
Import GovernanceWrite.
Import GovernanceActions.

(** ** The invariant *)

(** What is recorded of a proposal when it is submitted. *)
Definition recorded (s : GovernanceState) (p : Z) : Prop :=
  is_Some (proposal_definitions s !! p) /\ is_Some (deposit_amounts s !! p) /\ is_Some (voting_starts s !! p)
  /\ is_Some (voting_ends s !! p) /\ is_Some (start_positions s !! p).

Definition stored (s : GovernanceState) (p : Z) : option (option ProposalState.PbState) := proposal_states s !! p.
Definition in_state (s : GovernanceState) (p : Z) (st : ProposalState.t) : Prop := stored s p = Some (ProposalState.pb_of_state st).
Definition is_open (s : GovernanceState) (p : Z) : Prop :=
  in_state s p ProposalState.Voting \/ exists reason, in_state s p (ProposalState.Withdrawn reason).

(** The states that survive their encoding: reasons are short, and none is claimed. *)
Definition short (reason : string) : Prop := Z.of_nat (String.length reason) <= ProposalState.MAX_VALIDATOR_VOTE_REASON_LENGTH.
Definition withdrawal_short (w : Withdrawal.t string) : Prop :=
  match w with Withdrawal.No => True | Withdrawal.WithReason reason => short reason end.
Definition outcome_short (o : ProposalOutcome.t string) : Prop :=
  match o with
  | ProposalOutcome.Passed => True
  | ProposalOutcome.Failed w | ProposalOutcome.Slashed w => withdrawal_short w
  end.
Definition storable (st : ProposalState.t) : Prop :=
  match st with
  | ProposalState.Voting => True
  | ProposalState.Withdrawn reason => short reason
  | ProposalState.Finished o => outcome_short o
  | ProposalState.Claimed _ => False
  end.

Lemma storable_reads_back st : storable st -> ProposalState.state_of_pb (ProposalState.pb_of_state st) = Ok st.
Proof.
  assert (Hw : forall w, withdrawal_short w -> ProposalState.withdrawal_of_pb (ProposalState.pb_of_withdrawal w) = Ok w).
  { intros [|reason] Hs; [done|]. cbn in *. unfold short in Hs. by rewrite (proj2 (Z.ltb_ge _ _)). }
  destruct st as [| |o|]; try done. cbn. intros Hs. destruct o as [|w|w]; [done|cbn in *; by rewrite Hw..].
Qed.

Record governance_ok (s : GovernanceState) : Prop := {
  ok_ids p : is_Some (stored s p) -> p < default 0 (next_proposal_id s);
  ok_recorded p : is_Some (stored s p) -> recorded s p;
  ok_states p : is_Some (stored s p) -> exists st, in_state s p st /\ storable st;
  ok_unfinished p : p ∈ unfinished s <-> is_open s p;
  ok_rates p i : is_Some (rates_at_start s !! (p, i)) <-> is_Some (powers_at_start s !! (p, i));
  ok_votes p i : is_Some (validator_votes s !! (p, i)) -> is_Some (powers_at_start s !! (p, i));
  ok_tallied p i : is_Some (tallied_votes s !! (p, i)) -> is_Some (powers_at_start s !! (p, i));
  ok_untallied p i n : is_Some (untallied_votes s !! (p, i, n)) -> is_Some (powers_at_start s !! (p, i));
  ok_tallies : map_Forall (fun _ t => tally_ok t) (tallied_votes s) /\ map_Forall (fun _ t => tally_ok t) (untallied_votes s);
}.

(** The fields that the invariant reads. *)
Record same_proposals (s s' : GovernanceState) : Prop := {
  same_next : next_proposal_id s' = next_proposal_id s;
  same_definitions : proposal_definitions s' = proposal_definitions s;
  same_states : proposal_states s' = proposal_states s;
  same_deposits : deposit_amounts s' = deposit_amounts s;
  same_starts : voting_starts s' = voting_starts s;
  same_ends : voting_ends s' = voting_ends s;
  same_positions : start_positions s' = start_positions s;
  same_unfinished : unfinished s' = unfinished s;
  same_rates : rates_at_start s' = rates_at_start s;
  same_powers : powers_at_start s' = powers_at_start s;
  same_validator_votes : validator_votes s' = validator_votes s;
  same_tallied : tallied_votes s' = tallied_votes s;
  same_untallied : untallied_votes s' = untallied_votes s;
}.

Lemma same_proposals_refl s : same_proposals s s.
Proof. done. Qed.

Lemma same_proposals_trans s1 s2 s3 : same_proposals s1 s2 -> same_proposals s2 s3 -> same_proposals s1 s3.
Proof. intros [] []. split; congruence. Qed.

Lemma same_proposals_ok s s' : same_proposals s s' -> governance_ok s -> governance_ok s'.
Proof.
  intros [] [O1 O2 O3 O4 O5 O6 O7 O8 O9].
  split; unfold recorded, is_open, in_state, stored in *; repeat match goal with E : _ = _ |- _ => rewrite !E; clear E end; done.
Qed.

(** ** The order of states *)

(** A proposal starts out in voting, can be withdrawn, and finishes; a withdrawn one can only fail. *)
Inductive moves : option (option ProposalState.PbState) -> option (option ProposalState.PbState) -> Prop :=
| starts : moves None (Some (ProposalState.pb_of_state ProposalState.Voting))
| withdraws reason : moves (Some (ProposalState.pb_of_state ProposalState.Voting)) (Some (ProposalState.pb_of_state (ProposalState.Withdrawn reason)))
| finishes o : moves (Some (ProposalState.pb_of_state ProposalState.Voting)) (Some (ProposalState.pb_of_state (ProposalState.Finished o)))
| fails reason : moves (Some (ProposalState.pb_of_state (ProposalState.Withdrawn reason)))
    (Some (ProposalState.pb_of_state (ProposalState.Finished (ProposalOutcome.Failed (Withdrawal.WithReason reason))))).

Abbreviation evolves := (rtc moves).

(** A step keeps the invariant and moves every proposal in that order, or leaves it. *)
Definition sound (s s' : GovernanceState) : Prop :=
  governance_ok s' /\ forall p, evolves (stored s p) (stored s' p).

Lemma sound_trans s1 s2 s3 : sound s1 s2 -> (governance_ok s2 -> sound s2 s3) -> sound s1 s3.
Proof. intros [O2 M1] H2. destruct (H2 O2) as [O3 M2]. split; [done|]. intros p. etransitivity; [apply M1|apply M2]. Qed.

Lemma sound_same s s' : governance_ok s -> same_proposals s s' -> sound s s'.
Proof.
  intros O S. split; [by eapply same_proposals_ok|]. intros p. unfold stored. rewrite (same_states _ _ S). apply rtc_refl.
Qed.

Section Lemmas.
Context `{GovernanceEnv}.

Lemma votable_inv p w u w' : check_proposal_votable p w = (Ok u, w') ->
  w' = w /\ get_proposal_state p w = (Ok (Some ProposalState.Voting), w).
Proof.
  unfold check_proposal_votable. intros Hrun. apply bind_ok in Hrun as (st & w1 & H1 & Hrun).
  pose proof H1 as H2. apply asking_ok in H2 as [_ ->]. destruct st as [[]|]; by inv_gov.
Qed.

(** What is read is what was stored, for states that survive their encoding. *)
Lemma proposal_state_inv p w st w' : governance_ok (governance w) ->
  get_proposal_state p w = (Ok (Some st), w') -> in_state (governance w) p st.
Proof.
  intros O Hrun. apply asking_ok in Hrun as [Hrun _]. unfold in_state, stored.
  destruct (proposal_states (governance w) !! p) as [msg|] eqn:Hm; [|done].
  destruct (ok_states _ O p ltac:(by eexists)) as (st' & Hin & Hd). apply storable_reads_back in Hd. unfold in_state, stored in Hin. rewrite Hm in Hin. injection Hin as ->.
  rewrite Hd in Hrun. cbn in Hrun. by injection Hrun as <-.
Qed.

(** [put_proposal_state] on a recorded proposal. *)
Definition put_state (p : Z) (st : ProposalState.t) (s : GovernanceState) : GovernanceState :=
  let s := set_proposal_states (<[p := ProposalState.pb_of_state st]> (proposal_states s)) s in
  match st with
  | ProposalState.Voting | ProposalState.Withdrawn _ => set_unfinished ({[ p ]} ∪ unfinished s) s
  | ProposalState.Finished _ | ProposalState.Claimed _ => set_unfinished (unfinished s ∖ {[ p ]}) s
  end.

Lemma put_proposal_state_run p st w : put_proposal_state p st w = (Ok tt, set_governance (put_state p st (governance w)) w).
Proof. unfold put_proposal_state, put_state. by destruct st. Qed.

Lemma put_proposal_state_inv p st w u w' :
  put_proposal_state p st w = (Ok u, w') -> w' = set_governance (put_state p st (governance w)) w.
Proof. rewrite put_proposal_state_run. congruence. Qed.

Lemma put_state_ok p st s :
  governance_ok s -> recorded s p -> p < default 0 (next_proposal_id s) ->
  storable st -> governance_ok (put_state p st s).
Proof.
  intros [O1 O2 O3 O4 O5 O6 O7 O8 O9] Hr Hp Hst.
  assert (Hs : forall q, stored (put_state p st s) q = if decide (q = p) then Some (ProposalState.pb_of_state st) else stored s q).
  { intros q. unfold stored, put_state. case_decide as Hq; [subst q|]; destruct st; cbn; by rewrite ?lookup_insert_eq, ?lookup_insert_ne. }
  assert (Hrec : forall q, recorded (put_state p st s) q <-> recorded s q) by (intros q; unfold recorded, put_state; by destruct st).
  assert (Hn : next_proposal_id (put_state p st s) = next_proposal_id s) by (unfold put_state; by destruct st).
  split.
  - intros q. rewrite Hs, Hn. case_decide; [by subst|]. apply O1.
  - intros q. rewrite Hs, Hrec. case_decide; [by subst|]. apply O2.
  - intros q. unfold in_state. rewrite Hs. case_decide; [by exists st|]. apply O3.
  - intros q. unfold is_open, in_state. rewrite Hs. specialize (O4 q). unfold is_open, in_state in O4. case_decide as Hq; [subst q|].
    + destruct st as [|reason|o|o]; unfold put_state; cbn.
      * split; [by left|set_solver].
      * split; [intros _; right; by eexists|set_solver].
      * split; [set_solver|]. intros [?|[? ?]]; discriminate.
      * split; [set_solver|]. intros [?|[? ?]]; discriminate.
    + rewrite <- O4. unfold put_state. destruct st; cbn; set_solver.
  - intros q i. unfold put_state. destruct st; apply O5.
  - intros q i. unfold put_state. destruct st; apply O6.
  - intros q i. unfold put_state. destruct st; apply O7.
  - intros q i n. unfold put_state. destruct st; apply O8.
  - unfold put_state. destruct st; apply O9.
Qed.

Lemma open_recorded s p st : governance_ok s -> in_state s p st -> recorded s p /\ p < default 0 (next_proposal_id s).
Proof. intros O Hin. split; [apply (ok_recorded _ O)|apply (ok_ids _ O)]; by eexists. Qed.

Lemma in_state_storable s p st : governance_ok s -> in_state s p st -> (forall o, st <> ProposalState.Claimed o) -> storable st.
Proof.
  intros O Hin Hc. destruct (ok_states _ O p ltac:(by eexists)) as (st' & Hin' & Hs). unfold in_state in *. rewrite Hin in Hin'.
  injection Hin' as E. destruct st as [|r|o|o], st' as [|r'|o'|o']; try discriminate E; try done; try (by destruct (Hc o)).
  - injection E as ->. done.
  - cbn in *. destruct o as [|[]|[]], o' as [|[]|[]]; cbn in *; try done; by injection E as ->.
Qed.

(** Another state for a proposal, in order. *)
Lemma put_state_sound p st new s :
  governance_ok s -> in_state s p st -> storable new -> evolves (stored s p) (Some (ProposalState.pb_of_state new)) -> sound s (put_state p new s).
Proof.
  intros O Hin Hs Hm. destruct (open_recorded _ _ _ O Hin) as [Hr Hp]. split; [by apply put_state_ok|].
  intros q. unfold stored in *. unfold put_state. destruct (decide (q = p)) as [->|Hne].
  - destruct new; cbn; by rewrite lookup_insert_eq.
  - destruct new; cbn; rewrite lookup_insert_ne by done; apply rtc_refl.
Qed.

Lemma put_state_claimed p o s : put_state p (ProposalState.Claimed o) s = put_state p (ProposalState.Finished o) s.
Proof. done. Qed.

Lemma enact_same p payload w u w' : enact_proposal p payload w = (Ok u, w') -> same_proposals (governance w) (governance w').
Proof.
  unfold enact_proposal, deliver_community_pool_transaction, signal_halt, signal_upgrade, update_client, get_client_state, get_block_height.
  intros Hrun. destruct payload as [c|[]|c|pl|hh|client|client]; try destruct (valid_client_id client); cbn [when] in Hrun; inv_gov; split; done.
Qed.

(** Steps that leave the states. *)
Lemma sound_same_l s1 s2 s3 : same_proposals s1 s2 -> sound s2 s3 -> sound s1 s3.
Proof. intros S [O M]. split; [done|]. intros p. specialize (M p). unfold stored in *. by rewrite <- (same_states _ _ S). Qed.

Lemma sound_same_r s1 s2 s3 : sound s1 s2 -> same_proposals s2 s3 -> sound s1 s3.
Proof. intros [O M] S. split; [by eapply same_proposals_ok|]. intros p. specialize (M p). unfold stored in *. by rewrite (same_states _ _ S). Qed.

Lemma withdraw_sound a w u w' :
  governance_ok (governance w) -> withdraw_check_stateless a = Ok tt -> withdraw_check_and_execute a w = (Ok u, w') ->
  sound (governance w) (governance w').
Proof.
  intros O Hs Hrun. unfold withdraw_check_stateless in Hs. apply guard_or_ok in Hs. to_prop.
  unfold withdraw_check_and_execute in Hrun. apply bind_ok in Hrun as (u1 & w1 & H1 & Hrun). destruct (votable_inv _ _ _ _ H1) as [-> Hst].
  apply (proposal_state_inv _ _ _ _ O) in Hst. rewrite (bind_run_ok _ _ _ _ _ (put_proposal_state_run _ _ w)) in Hrun.
  unfold register_denom in Hrun. inv_gov. eapply sound_same_r; [eapply put_state_sound; [done|exact Hst|..]|done].
  - cbn. unfold short, ProposalState.MAX_VALIDATOR_VOTE_REASON_LENGTH. lia.
  - rewrite Hst. apply rtc_once. constructor.
Qed.

Lemma claim_sound c w u w' :
  governance_ok (governance w) -> deposit_claim_check_and_execute c w = (Ok u, w') -> sound (governance w) (governance w').
Proof.
  intros O Hrun. unfold deposit_claim_check_and_execute, check_proposal_claim_valid_deposit in Hrun.
  apply bind_ok in Hrun as (u1 & w1 & H1 & Hrun). assert (w1 = w); [|subst w1].
  { unfold check_proposal_claimable in H1. apply bind_ok in H1 as (st & w2 & H2 & H1). apply asking_ok in H2 as [_ ->].
    destruct st as [[]|]; by inv_gov. }
  apply bind_ok in Hrun as (u2 & w1 & H2 & Hrun). assert (w1 = w); [|subst w1].
  { apply bind_ok in H2 as (d & w2 & H3 & H2). apply reads_ok in H3 as [_ ->]. destruct d; by inv_gov. }
  apply bind_ok in Hrun as (st & w1 & H3 & Hrun). assert (w1 = w) as -> by (by apply asking_ok in H3 as [_ ->]).
  destruct st as [[| |o|]|]; try by inv_gov. apply (proposal_state_inv _ _ _ _ O) in H3.
  unfold register_denom in Hrun. apply bind_ok in Hrun as (u3 & w1 & H4 & Hrun). apply ensure_ok in H4 as [_ ->].
  rewrite bind_modify in Hrun. set (w1 := set_staking _ w) in Hrun.
  rewrite (bind_run_ok _ _ _ _ _ (put_proposal_state_run _ _ w1)), put_state_claimed in Hrun. inv_gov.
  eapply sound_same_r; [eapply (put_state_sound _ (ProposalState.Finished o)); [done|exact H3|..]|done].
  - eapply in_state_storable; [done|exact H3|done].
  - rewrite H3. apply rtc_refl.
Qed.

(** *** Votes *)

Lemma delegator_vote_sound v w u w' :
  governance_ok (governance w) -> delegator_vote_check_and_execute v w = (Ok u, w') -> sound (governance w) (governance w').
Proof.
  intros O Hrun. unfold delegator_vote_check_and_execute in Hrun.
  apply bind_ok in Hrun as (u1 & w1 & H1 & Hrun). destruct (votable_inv _ _ _ _ H1) as [-> _].
  unfold check_proposal_started_at_position, check_nullifier_unspent_before_start_block_height, check_nullifier_unvoted_for_proposal,
    check_unbonded_amount_correct_exchange_for_proposal, mark_nullifier_voted_on_proposal, cast_delegator_vote, validator_by_delegation_asset in Hrun.
  apply bind_ok in Hrun as (u2 & w1 & H2 & Hrun). apply bind_ok in H2 as (pos & w2 & H3 & H2). apply reads_ok in H3 as [_ ->].
  assert (w1 = w) by (destruct pos; by inv_gov). subst w1.
  apply bind_ok in Hrun as (u3 & w1 & H3 & Hrun). apply bind_ok in H3 as (st & w2 & H4 & H3). apply reads_ok in H4 as [_ ->].
  assert (w1 = w); [|subst w1]. { destruct st; [|by inv_gov]. apply bind_ok in H3 as (sp & w2 & H4 & H3). apply gets_ok in H4 as [_ ->]. destruct sp; by inv_gov. }
  apply bind_ok in Hrun as (u4 & w1 & H4 & Hrun). assert (w1 = w) by (by inv_gov); subst w1.
  apply bind_ok in Hrun as (u5 & w1 & H5 & Hrun). apply bind_ok in H5 as (i & w2 & H6 & H5). apply asking_ok in H6 as [H6 ->].
  apply bind_ok in H5 as (rate & w2 & H7 & H5). apply reads_ok in H7 as [Hrate ->]. destruct rate as [rate|]; [|by inv_gov].
  assert (w1 = w) by (by inv_gov); subst w1. apply bind_ok in Hrun as (u6 & w1 & H7 & Hrun).
  apply bind_ok in H7 as (height & w2 & H8 & H7). apply (proj1 (expecting_ok _ _ _ _)) in H8. apply asking_ok in H8 as [_ ->]. apply writes_ok in H7 as [_ ->].
  apply bind_ok in Hrun as (i' & w2 & H8 & Hrun). apply asking_ok in H8 as [H8 ->]. cbn [staking set_governance] in H8.
  assert (i' = i) as -> by congruence.
  assert (Hpow : is_Some (powers_at_start (governance w) !! (delegator_proposal v, i))) by (apply (ok_rates _ O); by rewrite <- Hrate).
  apply bind_ok in Hrun as (u7 & w2 & H9 & Hrun). apply writes_ok in H9 as [_ ->]. apply writes_ok in Hrun as [_ ->]. cbn.
  split; [|intros p; apply rtc_refl]. destruct O as [O1 O2 O3 O4 O5 O6 O7 O8 [O9 O10]]. split; try done.
  - intros p j n. cbn. destruct (decide ((p, j, n) = (delegator_proposal v, i, delegator_nullifier v))) as [E|Hne]; [by simplify_eq|].
    rewrite lookup_insert_ne by congruence. apply O8.
  - cbn. split; [done|]. apply map_Forall_insert_2; [|done]. apply of_vote_ok. unfold as_u64. by apply Z.mod_pos_bound.
Qed.

Lemma current_tally_reads p w t w' : current_tally p w = (Ok t, w') -> w' = w.
Proof. unfold current_tally. intros Hrun. by inv_gov. Qed.
Lemma total_power_reads p w t w' : total_voting_power_at_proposal_start p w = (Ok t, w') -> w' = w.
Proof. unfold total_voting_power_at_proposal_start. intros Hrun. by inv_gov. Qed.
Lemma governance_params_reads w t w' : get_governance_params w = (Ok t, w') -> w' = w.
Proof. unfold get_governance_params. intros Hrun. by inv_gov. Qed.

Lemma emergency_sound p payload w u w' :
  governance_ok (governance w) -> in_state (governance w) p ProposalState.Voting -> check_emergency p payload w = (Ok u, w') ->
  sound (governance w) (governance w').
Proof.
  intros O Hst Hrun. unfold check_emergency in Hrun.
  destruct (_ || _); [|apply ret_ok in Hrun as [_ ->]; by apply sound_same].
  apply bind_ok in Hrun as (t & w1 & H1 & Hrun). apply current_tally_reads in H1 as ->.
  apply bind_ok in Hrun as (tp & w1 & H1 & Hrun). apply total_power_reads in H1 as ->.
  apply bind_ok in Hrun as (ps & w1 & H1 & Hrun). apply governance_params_reads in H1 as ->.
  apply bind_ok in Hrun as (passes & w1 & H1 & Hrun). apply lift_ok in H1 as [_ ->].
  destruct passes; cbn [when] in Hrun; [|apply ret_ok in Hrun as [_ ->]; by apply sound_same].
  apply bind_ok in Hrun as (u1 & w1 & H1 & Hrun). apply enact_same in H1.
  rewrite put_proposal_state_run in Hrun. injection Hrun as _ <-. cbn [governance set_governance].
  assert (O1 : governance_ok (governance w1)) by (by eapply same_proposals_ok).
  assert (Hst1 : in_state (governance w1) p ProposalState.Voting) by (unfold in_state, stored in *; by rewrite (same_states _ _ H1)).
  eapply sound_same_l; [exact H1|]. apply (put_state_sound p ProposalState.Voting (ProposalState.Finished ProposalOutcome.Passed) (governance w1)); [done..|].
  rewrite Hst1. apply rtc_once. constructor.
Qed.

Lemma cast_vote_ok p i v reason s :
  governance_ok s -> is_Some (powers_at_start s !! (p, i)) ->
  governance_ok (set_validator_vote_reasons reason (set_validator_votes (<[(p, i) := v]> (validator_votes s)) s)).
Proof.
  intros [O1 O2 O3 O4 O5 O6 O7 O8 O9] Hp. split; try done. intros q j. cbn.
  destruct (decide ((q, j) = (p, i))) as [E|Hne]; [by simplify_eq|]. rewrite lookup_insert_ne by congruence. apply O6.
Qed.

Lemma validator_vote_sound v w u w' :
  governance_ok (governance w) -> validator_vote_check_and_execute v w = (Ok u, w') -> sound (governance w) (governance w').
Proof.
  intros O Hrun. unfold validator_vote_check_and_execute in Hrun.
  apply bind_ok in Hrun as (u1 & w1 & H1 & Hrun). destruct (votable_inv _ _ _ _ H1) as [-> Hst].
  unfold check_validator_active_at_proposal_start, check_validator_has_not_voted, check_governance_key_matches_validator, cast_validator_vote in Hrun.
  apply bind_ok in Hrun as (u2 & w1 & H2 & Hrun). apply bind_ok in H2 as (power & w2 & H3 & H2). apply reads_ok in H3 as [Hp ->].
  apply ensure_ok in H2 as [H2 ->]. apply bool_decide_eq_true in H2. subst power.
  apply bind_ok in Hrun as (u3 & w1 & H3 & Hrun). assert (w1 = w) by (by inv_gov). subst w1.
  apply bind_ok in Hrun as (u4 & w1 & H4 & Hrun). assert (w1 = w); [|subst w1].
  { apply bind_ok in H4 as (vd & w2 & H5 & H4). apply gets_ok in H5 as [_ ->]. destruct vd; by inv_gov. }
  rewrite (bind_run_ok _ _ _ _ _ Hst) in Hrun. cbn [expect_some lift] in Hrun. rewrite bind_lift_ok in Hrun. cbn [ProposalState.is_withdrawn] in Hrun.
  apply (proposal_state_inv _ _ _ _ O) in Hst.
  apply bind_ok in Hrun as (u5 & w1 & H5 & Hrun). apply bind_ok in H5 as (u6 & w2 & H6 & H5). apply writes_ok in H6 as [_ ->]. apply writes_ok in H5 as [_ ->].
  apply bind_ok in Hrun as (pl & w2 & H6 & Hrun). apply reads_ok in H6 as [_ ->].
  apply bind_ok in Hrun as (pl' & w2 & H6 & Hrun). apply lift_ok in H6 as [_ ->].
  apply bind_ok in Hrun as (u7 & w2 & H6 & Hrun).
  assert (O1 := cast_vote_ok (vote_proposal v) (vote_identity_key v) (vote_vote v) (<[(vote_proposal v, vote_identity_key v) := vote_reason v]> (validator_vote_reasons (governance w))) _ O
    ltac:(by apply not_eq_None_Some in H2)).
  apply emergency_sound in H6 as [O2 M2]; [|exact O1|exact Hst]. inv_gov.
  split; [|exact M2]. eapply same_proposals_ok; [|exact O2]. done.
Qed.

(** *** Tallying *)

Lemma pending_votes_stored just s k t : (k, t) ∈ pending_votes just s -> untallied_votes s !! k = Some t.
Proof.
  unfold pending_votes. rewrite merge_sort_Permutation, list_elem_of_filter. intros [_ Hin]. by apply elem_of_map_to_list in Hin.
Qed.

Lemma last_vote_in k votes t : last_vote k votes = Some t -> exists n, ((k, n), t) ∈ votes.
Proof.
  unfold last_vote. intros Hl. apply fmap_Some in Hl as ([[k' n] t'] & Hl & ->). apply last_Some_elem_of, list_elem_of_filter in Hl as [Hk Hin].
  cbn in Hk. subst k'. by exists n.
Qed.

Lemma add_ok a b t : tally_ok a -> tally_ok b -> @Tally.add string a b = Ok t -> tally_ok t.
Proof. unfold Tally.add. intros Ha Hb Hrun. inv_outcome. repeat match goal with Hp : plain_add _ _ _ = Ok _ |- _ => apply plain_add_ok in Hp as [-> _] end. unfold tally_ok in *. cbn. lia. Qed.

Lemma cleared_lookup (votes : list (vote_key * Tally.t)) (m : gmap vote_key Tally.t) k t :
  foldl (fun m vote => delete vote.1 m) m votes !! k = Some t -> m !! k = Some t.
Proof.
  revert m. induction votes as [|v votes IH]; intros m; [done|]. cbn. intros Hk. apply IH in Hk. by apply lookup_delete_Some in Hk as [_ Hk].
Qed.

Lemma tally_sound just w u w' :
  governance_ok (governance w) -> tally_delegator_votes just w = (Ok u, w') ->
  sound (governance w) (governance w') /\ proposal_states (governance w') = proposal_states (governance w).
Proof.
  intros O Hrun. unfold tally_delegator_votes in Hrun. apply bind_ok in Hrun as (votes & w1 & H1 & Hrun). apply reads_ok in H1 as [Hv ->].
  apply bind_ok in Hrun as (new & w1 & H1 & Hrun). apply sweep_votes_run in H1 as [-> Hnew].
  apply bind_ok in Hrun as (u1 & w1 & H1 & Hrun). apply writes_ok in H1 as [_ ->]. apply writes_ok in Hrun as [_ ->].
  cbn [governance set_governance]. split; [|done]. split; [|intros p; apply rtc_refl].
  assert (Hk : forall k t, new !! k = Some t -> is_Some (powers_at_start (governance w) !! k) /\ tally_ok t).
  { intros [p i] t Hkt. specialize (Hnew (p, i)). destruct (last_vote (p, i) votes) as [t0|] eqn:Hl; [|by rewrite Hnew, lookup_empty in Hkt].
    destruct Hnew as (sum & Hadd & Hs). rewrite Hkt in Hs. injection Hs as <-. apply last_vote_in in Hl as [n Hin]. rewrite Hv in Hin.
    apply pending_votes_stored in Hin. split; [apply (ok_untallied _ O p i n); by eexists|]. destruct (ok_tallies _ O) as [Ht Hu].
    eapply add_ok; [|exact (map_Forall_lookup_1 _ _ _ _ Hu Hin)|exact Hadd].
    destruct (tallied_votes (governance w) !! (p, i)) as [t1|] eqn:Ht1; [exact (map_Forall_lookup_1 _ _ _ _ Ht Ht1)|]. unfold tally_ok. cbn. lia. }
  destruct O as [O1 O2 O3 O4 O5 O6 O7 O8 [O9 O10]]. split; try done.
  - intros p i. cbn. rewrite lookup_union_is_Some. intros [[t Ht]|Ht]; [by apply Hk in Ht as [? _]|by apply O7].
  - intros p i n. cbn. intros [t Ht]. apply cleared_lookup in Ht. apply (O8 p i n). by eexists.
  - cbn. split.
    + apply map_Forall_union_2; [|done]. intros k t Ht. by apply Hk in Ht as [_ Ht].
    + intros k t Ht. apply cleared_lookup in Ht. exact (map_Forall_lookup_1 _ _ _ _ O10 Ht).
Qed.

(** *** Enacting *)

Lemma record_outcome_same event p w u w' : Governance.record_outcome event p w = (Ok u, w') -> same_proposals (governance w) (governance w').
Proof. unfold Governance.record_outcome. intros Hrun. inv_gov. done. Qed.

Lemma conclude_same p w o w' : Governance.conclude_voting p w = (Ok o, w') ->
  same_proposals (governance w) (governance w') /\ outcome_short o.
Proof.
  intros Hrun. unfold Governance.conclude_voting in Hrun.
  apply bind_ok in Hrun as (t & w1 & H1 & Hrun). apply current_tally_reads in H1 as ->.
  apply bind_ok in Hrun as (tp & w1 & H1 & Hrun). apply total_power_reads in H1 as ->.
  apply bind_ok in Hrun as (ps & w1 & H1 & Hrun). apply governance_params_reads in H1 as ->.
  apply bind_ok in Hrun as (res & w1 & H1 & Hrun). apply lift_ok in H1 as [_ ->].
  apply bind_ok in Hrun as (u & w1 & H1 & Hrun). apply ret_ok in Hrun as [-> ->]. destruct res; (split; [|done]).
  - apply bind_ok in H1 as (pl & w2 & H2 & H1). apply asking_ok in H2 as [_ ->]. apply bind_ok in H1 as (u2 & w2 & H2 & H1).
    apply enact_same in H2. apply record_outcome_same in H1. by eapply same_proposals_trans.
  - by eapply record_outcome_same.
  - by eapply record_outcome_same.
Qed.

Lemma enact_sound p w u w' :
  governance_ok (governance w) -> Governance.enact_passed_proposal p w = (Ok u, w') -> sound (governance w) (governance w').
Proof.
  intros O Hrun. unfold Governance.enact_passed_proposal in Hrun.
  apply bind_ok in Hrun as (height & w1 & H1 & Hrun). apply (proj1 (expecting_ok _ _ _ _)) in H1. apply asking_ok in H1 as [_ ->].
  apply bind_ok in Hrun as (vend & w1 & H1 & Hrun). apply asking_ok in H1 as [_ ->].
  destruct (height <? vend); [apply ret_ok in Hrun as [_ ->]; by apply sound_same|].
  apply bind_ok in Hrun as (u1 & w1 & H1 & Hrun). apply tally_sound in H1 as [S1 _]; [|done]. eapply sound_trans; [exact S1|]. intros O1.
  apply bind_ok in Hrun as (st & w2 & H2 & Hrun). assert (w2 = w1) as -> by (by apply asking_ok in H2 as [_ ->]).
  apply bind_ok in Hrun as (cur & w2 & H3 & Hrun). apply lift_ok in H3 as [Hst ->]. destruct st as [st|]; [|done]. injection Hst as ->.
  apply (proposal_state_inv _ _ _ _ O1) in H2. apply bind_ok in Hrun as (o & w2 & H3 & Hrun).
  assert (Hgo : same_proposals (governance w1) (governance w2) -> outcome_short o ->
    evolves (Some (ProposalState.pb_of_state cur)) (Some (ProposalState.pb_of_state (ProposalState.Finished o))) -> sound (governance w1) (governance w')).
  { intros S Ho Hm. rewrite put_proposal_state_run in Hrun. injection Hrun as _ <-. cbn [governance set_governance]. eapply sound_same_l; [exact S|].
    assert (in_state (governance w2) p cur) as Hc by (unfold in_state, stored in *; by rewrite (same_states _ _ S)).
    apply (put_state_sound p cur (ProposalState.Finished o) (governance w2)); [by eapply same_proposals_ok|done|exact Ho|by rewrite Hc]. }
  destruct cur as [|reason|o'|o']; try by inv_gov.
  - apply conclude_same in H3 as [S Ho]. apply Hgo; [done..|]. apply rtc_once. constructor.
  - apply ret_ok in H3 as [-> ->]. apply Hgo; [done| |apply rtc_once; constructor].
    assert (Hr : storable (ProposalState.Withdrawn reason)) by (eapply in_state_storable; [exact O1|exact H2|done]). exact Hr.
Qed.

Lemma sound_for_each {A} (body : A -> governing unit) :
  (forall x w u w', governance_ok (governance w) -> body x w = (Ok u, w') -> sound (governance w) (governance w')) ->
  forall l w u w', governance_ok (governance w) -> for_each l body w = (Ok u, w') -> sound (governance w) (governance w').
Proof.
  intros Hb. induction l as [|x l IH]; intros w u w' O Hrun; cbn [for_each] in Hrun; [apply ret_ok in Hrun as [_ ->]; by apply sound_same|].
  apply bind_ok in Hrun as (u1 & w1 & H1 & Hrun). eapply sound_trans; [by eapply Hb|]. intros O1. by eapply IH.
Qed.

Lemma end_block_sound w u w' :
  governance_ok (governance w) -> Governance.end_block w = (Ok u, w') -> sound (governance w) (governance w').
Proof.
  intros O Hrun. unfold Governance.end_block in Hrun. apply (proj1 (expecting_ok _ _ _ _)) in Hrun. unfold Governance.enact_all_passed_proposals in Hrun.
  apply bind_ok in Hrun as (l & w1 & H1 & Hrun). apply reads_ok in H1 as [_ ->]. by eapply sound_for_each; [apply enact_sound|..].
Qed.
End Lemmas.
