(* ===== verification/ChainGovernance.v ===== *)
(** * Governance along the chain

    Submissions keep the invariant of governance, and so do transactions and whole blocks. *)

From S2P Require Import Prelude.
From S2P Require Import Num.
From S2P Require Import Asset.
From S2P Require Import Clock.
From S2P Require Import Validator.
From S2P Require Import Rate.
From S2P Require Import Stake.
From S2P Require Import StakeManager.
From S2P Require Import StakeEpoch.
From S2P Require Import Distributions.
From S2P Require Import Fmd.
From S2P Require Import Tally.
From S2P Require Import Governance.
From S2P Require Import AppParams.
From S2P Require Import Chain.
From S2P Require Import GovernanceFacts.
From S2P Require Import GovernanceMachine.
From S2P Require Import ChainFacts.
Import GovernanceRead.
Import GovernanceWrite.
Import GovernanceActions.

(** ** Submissions *)

(** What a submission adds to the state. *)
Record submitted (next : Z) (s s' : GovernanceState) : Prop := {
  sub_next : next_proposal_id s' = Some (next + 1);
  sub_states : proposal_states s' = <[next := ProposalState.pb_of_state ProposalState.Voting]> (proposal_states s);
  sub_unfinished : unfinished s' = {[ next ]} ∪ unfinished s;
  sub_new : recorded s' next;
  sub_old q : recorded s q -> recorded s' q;
  sub_rates q i : is_Some (rates_at_start s' !! (q, i)) <-> is_Some (powers_at_start s' !! (q, i));
  sub_powers k : is_Some (powers_at_start s !! k) -> is_Some (powers_at_start s' !! k);
  sub_votes : validator_votes s' = validator_votes s;
  sub_tallied : tallied_votes s' = tallied_votes s;
  sub_untallied : untallied_votes s' = untallied_votes s;
}.

Lemma submitted_sound next s s' :
  governance_ok s -> next = default 0 (next_proposal_id s) -> submitted next s s' -> sound s s'.
Proof.
  intros O Hnext S. pose proof O as [O1 O2 O3 O4 O5 O6 O7 O8 O9].
  assert (Hnew : stored s next = None) by (apply eq_None_not_Some; intros Hs; apply O1 in Hs; lia).
  assert (Hs : forall q, stored s' q = if decide (q = next) then Some (ProposalState.pb_of_state ProposalState.Voting) else stored s q).
  { intros q. unfold stored. rewrite (sub_states _ _ _ S). case_decide as Hq; [subst q; by rewrite lookup_insert_eq|by rewrite lookup_insert_ne]. }
  split; [split|].
  - intros q. rewrite Hs, (sub_next _ _ _ S). cbn. case_decide; [lia|]. intros Hq. apply O1 in Hq. lia.
  - intros q. rewrite Hs. case_decide; [subst q; intros _; apply (sub_new _ _ _ S)|]. intros Hq. by apply (sub_old _ _ _ S), O2.
  - intros q. unfold in_state. rewrite Hs. case_decide; [by exists ProposalState.Voting|]. apply O3.
  - intros q. specialize (O4 q). unfold is_open, in_state in *. rewrite Hs, (sub_unfinished _ _ _ S). case_decide as Hq.
    + subst q. split; [by left|set_solver].
    + rewrite <- O4. set_solver.
  - apply (sub_rates _ _ _ S).
  - intros q i. rewrite (sub_votes _ _ _ S). intros Hv. by apply (sub_powers _ _ _ S), O6.
  - intros q i. rewrite (sub_tallied _ _ _ S). intros Hv. by apply (sub_powers _ _ _ S), O7.
  - intros q i n. rewrite (sub_untallied _ _ _ S). intros Hv. by eapply (sub_powers _ _ _ S), O8.
  - by rewrite (sub_tallied _ _ _ S), (sub_untallied _ _ _ S).
  - intros q. rewrite Hs. case_decide; [subst q; rewrite Hnew; apply rtc_once; constructor|apply rtc_refl].
Qed.

Section Lemmas.
Context `{ChainEnv}.

Definition with_starts (rates : gmap (Z * identity_key) RateData) (powers : gmap (Z * identity_key) Z) (w : World) : World :=
  set_governance (set_powers_at_start powers (set_rates_at_start rates (governance w))) w.

Lemma new_proposal_inv sched p w next w' :
  governance_ok (governance w) -> new_proposal sched p w = (Ok next, w') ->
  next = default 0 (next_proposal_id (governance w)) /\ exists rates powers,
    (forall q i, is_Some (rates !! (q, i)) <-> is_Some (powers !! (q, i)))
    /\ (forall k, is_Some (powers_at_start (governance w) !! k) -> is_Some (powers !! k))
    /\ w' = set_governance (set_proposal_definitions (<[next := p]> (proposal_definitions (governance w)))
              (set_next_proposal_id (Some (next + 1)) (governance (with_starts rates powers w)))) w.
Proof.
  intros O Hrun. unfold new_proposal in Hrun. apply bind_ok in Hrun as (n & w1 & H1 & Hrun). apply reads_ok in H1 as [Hn ->].
  apply bind_ok in Hrun as (u & w1 & H1 & Hrun). apply ensure_ok in H1 as [_ ->].
  apply bind_ok in Hrun as (lookups & w1 & H1 & Hrun). apply gets_ok in H1 as [_ ->].
  apply bind_ok in Hrun as (u1 & w1 & H1 & Hrun).
  set (I := fun w1 => exists rates powers, w1 = with_starts rates powers w
    /\ (forall q i, is_Some (rates !! (q, i)) <-> is_Some (powers !! (q, i)))
    /\ (forall k, is_Some (powers_at_start (governance w) !! k) -> is_Some (powers !! k))).
  assert (HI : I w1).
  { refine (triple_for_each I lookups _ _ w u1 w1 _ H1); [|exists (rates_at_start (governance w)), (powers_at_start (governance w))].
    - intros lookup _ w2 u2 w3 (rates & powers & -> & Hrp & Hp) Hb. apply bind_ok in Hb as (per & w2 & H2 & Hb). apply lift_ok in H2 as [_ ->].
      destruct per as [[[i rate] power]|]; [|apply ret_ok in Hb as [_ ->]; by exists rates, powers].
      apply bind_ok in Hb as (u3 & w2 & H2 & Hb). apply writes_ok in H2 as [_ ->]. apply writes_ok in Hb as [_ ->].
      exists (<[(n, i) := rate]> rates), (<[(n, i) := power]> powers). split; [done|]. split.
      + intros q j. destruct (decide ((q, j) = (n, i))) as [->|Hne]; [by rewrite !lookup_insert_eq|]. by rewrite !lookup_insert_ne by congruence.
      + intros k Hk. destruct (decide (k = (n, i))) as [->|Hne]; [by rewrite lookup_insert_eq|]. rewrite lookup_insert_ne by congruence. by apply Hp.
    - split; [by destruct w as [[] ? ? ? ?]|]. split; [|done]. apply (ok_rates _ O). }
  destruct HI as (rates & powers & -> & Hrp & Hp).
  apply bind_ok in Hrun as (f & w1 & H2 & Hrun). apply lift_ok in H2 as [Hf ->]. apply plain_add_ok in Hf as [-> _].
  apply bind_ok in Hrun as (u2 & w1 & H2 & Hrun). apply writes_ok in H2 as [_ ->].
  apply bind_ok in Hrun as (u3 & w1 & H2 & Hrun). apply writes_ok in H2 as [_ ->]. apply ret_ok in Hrun as [-> ->].
  split; [done|]. by exists rates, powers.
Qed.

(** The part of the handler that writes. *)
Lemma register_proposal_sound sched a w u w' :
  governance_ok (governance w) ->
  (proposal <- new_proposal sched (submit_proposal a);;
    put_deposit_amount proposal (submit_deposit_amount a);;;
    register_denom (proposal_nft ProposalNft.Deposit proposal);;;
    register_denom (voting_receipt_token proposal);;;
    put_proposal_state proposal ProposalState.Voting;;;
    params <- get_governance_params;;
    current_block <- get_block_height;;
    voting_end <- lift (plain_add 64 current_block (proposal_voting_blocks params));;
    put_proposal_voting_start proposal current_block;;;
    put_proposal_voting_end proposal voting_end;;;
    position <- asking (fun w => ok_or (tree_position w) "state commitment tree is full");;
    put_proposal_voting_start_position proposal (Submit.position_of position.1.1 position.1.2);;;
    mark_proposal_started;;;
    record_event (EventProposalSubmit a current_block voting_end)) w = (Ok u, w') ->
  sound (governance w) (governance w').
Proof.
  intros O Hrun. apply bind_ok in Hrun as (next & w1 & H1 & Hrun).
  apply new_proposal_inv in H1 as (Hn & rates & powers & Hrp & Hp & ->); [|done].
  apply (submitted_sound next); [done..|]. unfold put_deposit_amount, register_denom, put_proposal_voting_start, put_proposal_voting_end,
    put_proposal_voting_start_position, mark_proposal_started, get_governance_params, get_block_height in Hrun.
  set (w1 := set_governance (set_proposal_definitions _ _) w) in Hrun.
  apply bind_ok in Hrun as (u1 & w2 & H2 & Hrun). apply writes_ok in H2 as [_ ->].
  apply bind_ok in Hrun as (u2 & w2 & H2 & Hrun). apply modify_ok in H2 as [_ ->].
  apply bind_ok in Hrun as (u3 & w2 & H2 & Hrun). apply modify_ok in H2 as [_ ->].
  apply bind_ok in Hrun as (u4 & w2 & H2 & Hrun). apply put_proposal_state_inv in H2 as ->.
  apply bind_ok in Hrun as (ps & w2 & H2 & Hrun). apply asking_ok in H2 as [_ ->].
  apply bind_ok in Hrun as (block & w2 & H2 & Hrun). apply asking_ok in H2 as [_ ->].
  apply bind_ok in Hrun as (vend & w2 & H2 & Hrun). apply lift_ok in H2 as [_ ->].
  apply bind_ok in Hrun as (u5 & w2 & H2 & Hrun). apply writes_ok in H2 as [_ ->].
  apply bind_ok in Hrun as (u6 & w2 & H2 & Hrun). apply writes_ok in H2 as [_ ->].
  apply bind_ok in Hrun as (pos & w2 & H2 & Hrun). apply asking_ok in H2 as [_ ->].
  apply bind_ok in Hrun as (u7 & w2 & H2 & Hrun). apply writes_ok in H2 as [_ ->].
  apply bind_ok in Hrun as (u8 & w2 & H2 & Hrun). apply writes_ok in H2 as [_ ->]. apply writes_ok in Hrun as [_ ->].
  split; try done.
  - unfold recorded. cbn. rewrite !lookup_insert_eq. repeat split; by eexists.
  - intros q. unfold recorded. cbn. rewrite !lookup_insert_is_Some'. intuition.
Qed.

End Lemmas.

(** ** Blocks *)

(** The states that governance can get to from [g0] on. *)
Definition tracks (g0 : GovernanceState) (a : App) : Prop := sound g0 (governance (world a)).

#[global] Instance tracks_component g0 : ComponentInvariant (tracks g0).
Proof. intros a a' Ha Hw _. unfold tracks. by rewrite Hw. Qed.

Section Chain.
Context `{ChainEnv} (g0 : GovernanceState).
Import Transactions Block.
Notation keeps := (holds (tracks g0)).

Lemma keeps_world {A} (m : governing A) :
  (forall w r w', governance_ok (governance w) -> m w = (Ok r, w') -> sound (governance w) (governance w')) -> keeps (on_world m).
Proof. intros Hm. apply holds_world. intros a r w Ha Hrun. eapply sound_trans; [exact Ha|]. intros O. by eapply Hm. Qed.

Lemma writes_keeps f : (forall s, same_proposals s (f s)) -> keeps (on_world (writes f)).
Proof. intros Hf. apply keeps_world. intros w u w' O [_ ->]%writes_ok. by apply sound_same. Qed.

Lemma keeps_staking {A} (m : stake A) : keeps (on_staking m).
Proof. by apply holds_staking. Qed.
Lemma keeps_distribution {A} (m : distributing A) : keeps (on_distribution m).
Proof. by apply holds_distribution. Qed.

(** [keep] also disposes of what the other components do. *)
Ltac keep := repeat first [hold_step | apply keeps_staking | apply keeps_distribution | apply pre_upgrade_holds; exact _ ].

Lemma check_payload_keeps payload : keeps (Submit.check_payload payload).
Proof.
  assert (Hc : forall client, keeps (on_world (Submit.check_client client))).
  { intros client. apply keeps_world. intros w r w' O Hrun. unfold Submit.check_client, get_client_state in Hrun.
    apply sound_same; [done|]. destruct (valid_client_id client); by inv_gov. }
  destruct payload; cbn [Submit.check_payload]; try unfold get_app_params; keep; apply Hc.
Qed.

Lemma submit_keeps sched a : keeps (Submit.check_and_execute sched a).
Proof.
  unfold Submit.check_and_execute, get_governance_params at 1, get_next_proposal_id. keep; [apply check_payload_keeps| |].
  - destruct (proposal_payload (submit_proposal a)); keep. by apply writes_keeps.
  - apply keeps_world. intros w r w' O Hrun. by eapply register_proposal_sound.
Qed.

Lemma action_keeps sched a : action_check_stateless a = Ok tt -> keeps (action_check_and_execute sched a).
Proof.
  destruct a; cbn; intros Hs; keep; [apply submit_keeps|..]; apply keeps_world; intros w r w' O Hrun.
  - by eapply withdraw_sound.
  - by eapply claim_sound.
  - by eapply validator_vote_sound.
  - by eapply delegator_vote_sound.
Qed.

Lemma deliver_or_skip_keeps sched tx : keeps (deliver_or_skip sched tx).
Proof. apply deliver_or_skip_holds; [exact _|]. intros a _. apply action_keeps. Qed.

Lemma scheduled_change_keeps height : keeps (apply_scheduled_change height).
Proof.
  unfold apply_scheduled_change. keep. destruct a as [change|]; [|keep]. apply holds_bind; [unfold get_app_params; keep|].
  intros old. destruct (apply_changes change old) as [new| |]; [|keep..]. unfold put_app_params. keep; [by apply (holds_modify _)|by apply writes_keeps].
Qed.

Lemma begin_block_keeps sched height i : keeps (begin_block sched height i).
Proof.
  unfold begin_block, pending_community_pool_transactions, get_block_height. keep; [apply scheduled_change_keeps|apply deliver_or_skip_keeps].
Qed.

Lemma epoch_end_keeps sched : keeps (Block.end_epoch sched).
Proof.
  unfold Block.end_epoch, Governance.end_epoch. keep. apply keeps_world. intros w u w' O Hrun.
  apply (proj1 (expecting_ok _ _ _ _)) in Hrun. by eapply tally_sound.
Qed.

Lemma end_block_keeps sched height : keeps (Block.end_block sched height).
Proof.
  unfold Block.end_block. keep; try apply epoch_end_keeps.
  apply keeps_world. intros w u w' O Hrun. by eapply end_block_sound.
Qed.

Lemma commit_keeps : keeps commit.
Proof.
  unfold commit. keep; [|apply triple_modify; intros a' Ha; by eapply sound_same_r]. destruct a; [by apply writes_keeps|apply holds_ret].
Qed.

(** Every block keeps the invariant, whatever it holds and however its tasks are scheduled. *)
Lemma block_keeps sched height i : keeps (run sched height i).
Proof.
  unfold run, respond. keep; [apply begin_block_keeps|apply deliver_or_skip_keeps|apply end_block_keeps|apply commit_keeps].
Qed.

End Chain.

Section Reachable.
Context `{ChainEnv}.
Import Block.

(** *** Reachable states *)

Lemma on_staking_governance {A} (m : stake A) a r a' :
  on_staking m a = (r, a') -> governance (world a') = governance (world a).
Proof. unfold on_staking, on_world. destruct (m (staking (world a))). by intros [= _ <-]. Qed.

Lemma allocations_governance g l :
  triple (fun a => governance (world a) = g) (for_each l register_allocation) (fun _ a => governance (world a) = g).
Proof.
  apply triple_for_each. intros v _ a u a' Ha. unfold register_allocation. destruct (amount v =? 0); [done|]. by intros [= _ <-].
Qed.

Lemma empty_ok : governance_ok (set_next_proposal_id (Some 0) empty_governance).
Proof.
  assert (Hs : forall p, stored (set_next_proposal_id (Some 0) empty_governance) p = None) by (intros p; apply lookup_empty).
  split; try (intros p; rewrite Hs; by intros [? ?]).
  - intros p. unfold is_open, in_state. rewrite Hs. split; [set_solver|]. intros [?|[? ?]]; discriminate.
  - intros p i. cbn. by rewrite !lookup_empty.
  - intros p i [? Hp]. cbn in Hp. by apply lookup_empty_Some in Hp.
  - intros p i [? Hp]. cbn in Hp. by apply lookup_empty_Some in Hp.
  - intros p i n [? Hp]. cbn in Hp. by apply lookup_empty_Some in Hp.
  - split; apply map_Forall_empty.
Qed.

(** A chain begins with its genesis, and there are no proposals. *)
Lemma genesis_ok sched c a : bind (init_chain sched (Some c)) (fun _ => commit) empty_app = (Ok tt, a) ->
  governance_ok (governance (world a)).
Proof.
  intros Hrun. apply bind_ok in Hrun as (u & a1 & H1 & Hrun). unfold init_chain in H1.
  enough (O : governance_ok (governance (world a1))).
  { destruct (commit_keeps (governance (world a1)) _ _ _ (sound_same _ _ O (same_proposals_refl _)) Hrun) as [O1 _]. exact O1. }
  clear Hrun a. apply bind_ok in H1 as (u1 & a2 & H2 & H1). apply modify_ok in H2 as [_ ->].
  apply bind_ok in H1 as (u2 & a2 & H2 & H1). apply on_staking_governance in H2.
  apply bind_ok in H1 as (u3 & a3 & H3 & H1). injection H3 as _ <-.
  apply bind_ok in H1 as (u4 & a4 & H4 & H1). eapply (allocations_governance empty_governance) in H4; [|exact H2].
  apply bind_ok in H1 as (u5 & a5 & H5 & H1). injection H5 as _ <-.
  apply bind_ok in H1 as (u6 & a6 & H6 & H1). apply on_staking_governance in H6.
  apply bind_ok in H1 as (u7 & a7 & H7 & H1). apply modify_ok in H7 as [_ ->].
  assert (E : world a1 = set_governance (set_next_proposal_id (Some 0)
    (set_governance_params (Some (content_governance c)) (governance (world a6)))) (world a6)) by (exact (eq_sym (f_equal (fun r => world r.2) H1))).
  assert (E6 : governance (world a6) = empty_governance) by (rewrite H6; exact H4).
  rewrite E, E6. eapply same_proposals_ok; [|exact empty_ok]. done.
Qed.

(** What other components write: the clients of IBC, the spent nullifiers and the commitment tree. *)
Definition set_outside (clients : gmap string Z) (spends : gmap Z Z) (position : option (Z * Z * Z)) (a : App) : App :=
  set_world (mkWorld (governance (world a)) (staking (world a)) clients spends position) a.

(** A chain of blocks. *)
Inductive chain_steps : App -> App -> Prop :=
| no_block a : chain_steps a a
| another_block a1 a2 a3 sched height i : chain_steps a1 a2 -> run sched height i a2 = (Ok tt, a3) -> chain_steps a1 a3
| other_writes a1 a2 clients spends position : chain_steps a1 a2 -> chain_steps a1 (set_outside clients spends position a2).

Lemma chain_steps_sound a a' :
  governance_ok (governance (world a)) -> chain_steps a a' -> sound (governance (world a)) (governance (world a')).
Proof.
  intros O. induction 1 as [a|a1 a2 a3 sched height i _ IH Hrun|a1 a2 c s p _ IH]; [by apply sound_same| |exact (IH O)].
  exact (block_keeps _ sched height i _ _ _ (IH O) Hrun).
Qed.

(** The states after a block of a chain, from its genesis on. *)
Definition on_chain (a : App) : Prop :=
  exists sched content a0, bind (init_chain sched (Some content)) (fun _ => commit) empty_app = (Ok tt, a0) /\ chain_steps a0 a.

Lemma on_chain_ok a : on_chain a -> governance_ok (governance (world a)).
Proof. intros (sched & c & a0 & H0 & Hs). apply genesis_ok in H0. by apply chain_steps_sound in Hs as [O _]. Qed.
End Reachable.
