(* ===== verification/ChainStaking.v ===== *)
(** * Staking along the chain

    The invariant of validators through the phases of a block: before it, while it runs its
    transactions, and after its end.  Governance only registers denominations. *)

From S2P Require Import Prelude.
From S2P Require Import Num.
From S2P Require Import Asset.
From S2P Require Import DexState.
From S2P Require Import Fee.
From S2P Require Import Clock.
From S2P Require Import Validator.
From S2P Require Import Rate.
From S2P Require Import RateFacts.
From S2P Require Import Stake.
From S2P Require Import StakeManager.
From S2P Require Import StakeEpoch.
From S2P Require Import StakeFacts.
From S2P Require Import StakeUptime.
From S2P Require Import StakeEpochFacts.
From S2P Require Import StakeElection.
From S2P Require Import StakeComet.
From S2P Require Import StakeHandlers.
From S2P Require Import Distributions.
From S2P Require Import Fmd.
From S2P Require Import Tally.
From S2P Require Import Governance.
From S2P Require Import AppParams.
From S2P Require Import Chain.
From S2P Require Import GovernanceFacts.
From S2P Require Import ChainFacts.
Import GovernanceRead.
Import GovernanceWrite.
Import GovernanceActions.

(** ** Computations that leave staking alone *)

(** But for the denominations that they register. *)
Definition quiet {A} (m : governing A) : Prop :=
  forall w, exists d, staking (m w).2 = set_denoms d (staking w).

Section Quiet.
Lemma quiet_reader {A} (m : governing A) : (forall w, staking (m w).2 = staking w) -> quiet m.
Proof. intros Hm w. exists (denoms (staking w)). rewrite Hm. by destruct (staking w). Qed.

Lemma quiet_bind {A B} (m : governing A) (k : A -> governing B) : quiet m -> (forall a, quiet (k a)) -> quiet (bind m k).
Proof.
  intros Hm Hk w. unfold bind. destruct (m w) as [[a|e|] w1] eqn:Hr; specialize (Hm w); rewrite Hr in Hm; [|exact Hm..].
  destruct Hm as [d Hd], (Hk a w1) as [d' Hd']. exists d'. rewrite Hd'. cbn in Hd. by rewrite Hd.
Qed.

Lemma quiet_ret {A} (a : A) : quiet (ret a).
Proof. by apply quiet_reader. Qed.
Lemma quiet_fail {A} e : quiet (fail (A := A) e).
Proof. by apply quiet_reader. Qed.
Lemma quiet_panic {A} : quiet (panic (A := A)).
Proof. by apply quiet_reader. Qed.
Lemma quiet_lift {A} (o : anyhow A) : quiet (lift o).
Proof. by apply quiet_reader. Qed.
Lemma quiet_gets {A} (f : World -> A) : quiet (gets f).
Proof. by apply quiet_reader. Qed.
Lemma quiet_reads {A} (f : GovernanceState -> A) : quiet (reads f).
Proof. by apply quiet_reader. Qed.
Lemma quiet_asking {A} (f : World -> anyhow A) : quiet (asking f).
Proof. by apply quiet_reader. Qed.
Lemma quiet_writes f : quiet (writes f).
Proof. by apply quiet_reader. Qed.
Lemma quiet_ensure b e : quiet (ensure b e).
Proof. destruct b; [apply quiet_ret|apply quiet_fail]. Qed.
Lemma quiet_when b m : quiet m -> quiet (when b m).
Proof. destruct b; [done|]. intros _. apply quiet_ret. Qed.
Lemma quiet_register a : quiet (register_denom a).
Proof. intros w. by eexists. Qed.
Lemma quiet_clients f : quiet (modify (fun w => set_ibc_clients (f w) w)).
Proof. by apply quiet_reader. Qed.

Lemma quiet_expecting {A} (m : governing A) : quiet m -> quiet (expecting (E := string) m).
Proof. intros Hm w. destruct (Hm w) as [d Hd]. exists d. unfold expecting. by destruct (m w) as [[]]. Qed.

Lemma quiet_for_each {A} (l : list A) body : (forall x, quiet (body x)) -> quiet (for_each l body).
Proof. intros Hb. induction l as [|x l IH]; [apply quiet_ret|]. by apply quiet_bind. Qed.

Lemma quiet_for_fold {A B} (l : list A) (b : B) body : (forall b x, quiet (body b x)) -> quiet (for_fold l b body).
Proof. intros Hb. revert b. induction l as [|x l IH]; intros b; [apply quiet_ret|]. by apply quiet_bind. Qed.
End Quiet.

(** [quiet] unfolds what a handler calls until it is made of such steps. *)
Ltac quiet_step :=
  lazymatch goal with
  | |- quiet (bind _ _) => apply quiet_bind; [|intros ?]
  | |- quiet (ret _) => apply quiet_ret
  | |- quiet (fail _) => apply quiet_fail
  | |- quiet panic => apply quiet_panic
  | |- quiet (lift _) => apply quiet_lift
  | |- quiet (gets _) => apply quiet_gets
  | |- quiet (reads _) => apply quiet_reads
  | |- quiet (asking _) => apply quiet_asking
  | |- quiet (writes _) => apply quiet_writes
  | |- quiet (record_event _) => apply quiet_writes
  | |- quiet (ensure _ _) => apply quiet_ensure
  | |- quiet (when _ _) => apply quiet_when
  | |- quiet (register_denom _) => apply quiet_register
  | |- quiet (modify (fun w => set_ibc_clients _ w)) => apply quiet_clients
  | |- quiet (expecting _) => apply quiet_expecting
  | |- quiet (for_each _ _) => apply quiet_for_each; intros ?
  | |- quiet (for_fold _ _ _) => apply quiet_for_fold; intros ? ?
  | |- quiet (match ?x with _ => _ end) => destruct x
  | |- quiet (?f _ _ _ _ _) => unfold f
  | |- quiet (?f _ _ _ _) => unfold f
  | |- quiet (?f _ _ _) => unfold f
  | |- quiet (?f _ _) => unfold f
  | |- quiet (?f _) => unfold f
  | |- quiet ?f => unfold f
  end.
Ltac quiet := repeat quiet_step.

Section Handlers.
Context `{GovernanceEnv}.

Lemma delegator_vote_quiet v : quiet (delegator_vote_check_and_execute v).
Proof. quiet. Qed.
Lemma claim_quiet c : quiet (deposit_claim_check_and_execute c).
Proof. quiet. Qed.
Lemma validator_vote_quiet v : quiet (validator_vote_check_and_execute v).
Proof. quiet. Qed.
Lemma withdraw_quiet a : quiet (withdraw_check_and_execute a).
Proof. quiet. Qed.
Lemma end_block_quiet : quiet Governance.end_block.
Proof. quiet. Qed.
Lemma end_epoch_quiet : quiet Governance.end_epoch.
Proof. quiet. Qed.
End Handlers.

(** ** While a block runs its transactions *)

Definition issuance_typed (d : DistributionsState) : Prop :=
  forall p, distributions_params d = Some p -> 0 <= staking_issuance_per_block p.
Definition in_block `{StakeEnv} (held : gmap consensus_key Z) (h : Z) (a : App) : Prop := staking_ok held h (staking (world a)) /\ issuance_typed (distribution a).

#[global] Instance in_block_component `{StakeEnv} held h : ComponentInvariant (in_block held h).
Proof. intros a a' [K T] Hw Hd. unfold in_block. by rewrite Hw, Hd. Qed.

(** Transactions hold typed values: the rates of funding streams have 16 bits. *)
Definition action_typed (a : Action) : Prop :=
  match a with
  | ActionValidatorDefinition v _ => FundingStreams.typed (funding_streams v)
  | _ => True
  end.
Definition tx_typed (tx : Transaction) : Prop := Forall action_typed (tx_actions tx).

Section Block.
Context `{ChainEnv} (held : gmap consensus_key Z) (h : Z).
Import Transactions Block.
Notation kept := (holds (in_block held h)).

Lemma denoms_core d s : same_core s (set_denoms d s).
Proof. done. Qed.

Lemma kept_quiet {A} (m : governing A) : quiet m -> kept (on_world m).
Proof.
  intros Hq. apply holds_world. intros a r w [K T] Hrun. split; [|exact T]. destruct (Hq (world a)) as [d Hd]. rewrite Hrun in Hd.
  cbn in *. rewrite Hd. eapply same_core_running; [exact K|apply denoms_core].
Qed.

Lemma kept_staking {A} (m : stake A) : (forall s r s', staking_ok held h s -> m s = (Ok r, s') -> staking_ok held h s') -> kept (on_staking m).
Proof. intros Hm. apply holds_staking. intros a r s [K T] Hrun. split; [|exact T]. by eapply Hm. Qed.

Lemma check_payload_kept payload : kept (Submit.check_payload payload).
Proof.
  assert (Hc : forall client, kept (on_world (Submit.check_client client))) by (intros client; apply kept_quiet; quiet).
  destruct payload; cbn [Submit.check_payload]; try unfold get_app_params; hold; apply Hc.
Qed.

Lemma submit_kept sched a : kept (Submit.check_and_execute sched a).
Proof.
  unfold Submit.check_and_execute, get_governance_params at 1, get_next_proposal_id. hold; [apply check_payload_kept| |].
  - destruct (proposal_payload (submit_proposal a)); hold. apply kept_quiet, quiet_writes.
  - apply kept_quiet. quiet.
Qed.

Lemma action_kept sched a : action_typed a -> action_check_stateless a = Ok tt -> kept (action_check_and_execute sched a).
Proof.
  destruct a; cbn; intros Ht Hs.
  - apply kept_staking. intros. by eapply delegate_keeps.
  - apply kept_staking. intros. by eapply undelegate_keeps.
  - apply kept_staking. intros. by eapply claim_keeps.
  - apply kept_staking. intros. eapply definition_keeps; [done| |done]. by eapply checked_streams.
  - apply submit_kept.
  - apply kept_quiet, withdraw_quiet.
  - apply kept_quiet, claim_quiet.
  - apply kept_quiet, validator_vote_quiet.
  - apply kept_quiet, delegator_vote_quiet.
Qed.

Lemma deliver_or_skip_kept sched tx : tx_typed tx -> kept (deliver_or_skip sched tx).
Proof.
  intros Ht. apply deliver_or_skip_holds; [exact _|]. intros a Ha. unfold tx_typed in Ht. rewrite Forall_forall in Ht. by apply action_kept, Ht.
Qed.
End Block.

(** ** Before a block *)

(** The epoch of the next block is there, and begins no later. *)
Definition next_epoch (h : Z) (s : StakeState) : Prop :=
  exists e, epoch_by_height (clock s) !! (h + 1) = Some e /\ 0 <= start_height e <= h + 1.
Definition ready `{StakeEnv} (held : gmap consensus_key Z) (h : Z) (a : App) : Prop := in_block held h a /\ next_epoch h (staking (world a)).

#[global] Instance ready_component `{StakeEnv} held h : ComponentInvariant (ready held h).
Proof. intros a a' [K N] Hw Hd. split; [by eapply component_invariant|]. by rewrite Hw. Qed.

(** Typed parameters: what comes out of the JSON has the width of its type. *)
Class TypedJson `{ParameterJson} := {
  json_delay_typed t p : from_value t = Ok p -> unbonding_delay (app_stake_params p) < 2 ^ 64;
  json_issuance_typed t p : from_value t = Ok p -> 0 <= staking_issuance_per_block (app_distributions_params p);
}.

(** A failed check is in the list of failures. *)
Lemma check_all_ok checks : Checks.check_all checks = Ok tt -> Forall (fun c => c.1 = true) checks.
Proof.
  unfold Checks.check_all. destruct (omap _ checks) as [|x l] eqn:Ho; [|done]. intros _.
  induction checks as [|[ok d] checks IH]; [constructor|]. cbn in Ho. destruct ok; [|done]. constructor; [done|by apply IH].
Qed.

Lemma changed_params_ok `{TypedJson} change old new :
  apply_changes change old = Ok new -> params_ok (app_stake_params new) /\ 0 <= staking_issuance_per_block (app_distributions_params new).
Proof.
  unfold apply_changes. intros Hrun. inv_outcome. unfold Checks.check_valid_update in *. inv_outcome.
  match goal with Hf : from_value _ = Ok _ |- _ => pose proof (json_delay_typed _ _ Hf) as Hd; pose proof (json_issuance_typed _ _ Hf) as Hi end.
  split; [|exact Hi].
  match goal with Hv : Checks.check_valid ?p = Ok ?u |- _ => rename Hv into Hvalid; destruct u end.
  unfold Checks.check_valid in Hvalid. inv_outcome.
  repeat match goal with Hp : plain_mul _ _ _ = Ok _ |- _ => apply plain_mul_ok in Hp as [-> _] | Hp : plain_add _ _ _ = Ok _ |- _ => apply plain_add_ok in Hp as [-> _] end.
  apply check_all_ok in Hvalid. rewrite !Forall_cons in Hvalid. cbn in Hvalid. destruct_and! Hvalid. to_prop.
  unfold params_ok. lia.
Qed.

(** *** The clock and the parameters *)

Section Phases.
Context `{ChainEnv} (held : gmap consensus_key Z).
Import Transactions Block.

(** The invariant under another clock. *)
Lemma well_formed_clock h h' n c s : well_formed h n s -> clock_ok h' (set_clock c s) -> well_formed h' n (set_clock c s).
Proof. intros [V [K1 K2 K3] P _] C. by split. Qed.

Lemma running_params h p s : staking_ok held h s -> params_ok p -> staking_ok held h (set_stake_params (Some p) s).
Proof.
  intros [[V [K1 K2 K3] P [C1 C2 C3 _]] K] Hp. split; [|exact K]. split; [exact V|done|exact P|]. split; [exact C1|done|exact C3|by exists p].
Qed.

Lemma running_duration h d s : staking_ok held h s -> staking_ok held h (set_clock (set_epoch_duration d (clock s)) s).
Proof. intros [W K]. split; [|exact K]. eapply well_formed_clock; [exact W|]. destruct W as [_ _ _ [C1 C2 C3 C4]]. by split. Qed.

Lemma scheduled_change_ready `{!TypedJson} h height : holds (ready held h) (apply_scheduled_change height).
Proof.
  unfold apply_scheduled_change. hold. destruct a as [change|]; [|hold]. apply holds_bind; [unfold get_app_params; hold|].
  intros old. destruct (apply_changes change old) as [new| |] eqn:Hnew; [|hold..]. apply changed_params_ok in Hnew as [Hp Hi].
  unfold put_app_params. hold.
  - by apply (holds_modify _).
  - apply holds_distribution. intros x r d [[K T] N] [= _ <-]. split; [|exact N]. split; [exact K|]. by intros p [= <-].
  - apply holds_world. intros x r w [[K T] N] [_ ->]%writes_ok. split; [by split|exact N].
  - apply holds_staking. intros x r s [[K T] N] [= _ <-]. split; [|exact N]. split; [by apply running_duration|exact T].
  - apply holds_staking. intros x r s [[K T] N] [= _ <-]. split; [|exact N]. split; [by apply running_params|exact T].
Qed.

(** The height of the block. *)
Lemma height_moves h s :
  staking_ok held h s -> next_epoch h s -> h + 1 < 2 ^ 64 - 1 ->
  well_formed (h + 1) (fun _ => h) (set_clock (Sct.begin_block (h + 1) (clock s)) s).
Proof.
  intros [W _] N Hh. eapply well_formed_clock; [exact W|]. destruct W as [_ _ _ [C1 C2 C3 C4]]. split; [done|lia|exact N|exact C4].
Qed.

(** The evidence and the votes of a block: nothing fails, whatever they are. *)
Lemma begin_block_runs h ev votes s :
  well_formed (h + 1) (fun _ => h) s ->
  exists final, forall sched, fair sched -> exists s', Staking.begin_block ev votes sched s = (Ok tt, s')
    /\ well_formed (h + 1) (fun _ => h + 1) s' /\ same_globals s s' /\ same_but_events final s'.
Proof.
  intros W. destruct (evidence_runs (h + 1) _ ev s W) as ([] & s1 & Hev & W1 & [G1 _]).
  assert (W1' : well_formed (h + 1) (fun _ => h + 1 - 1) s1) by (eapply well_formed_ext; [|exact W1]; intros; cbn; lia).
  destruct (track_uptime_runs (h + 1) votes s1 W1') as (final & Hf). exists final. intros sched Hs.
  destruct (Hf sched Hs) as (s' & Hrun & W2 & G2 & E). exists s'. split; [|split; [exact W2|split; [by eapply same_globals_trans|exact E]]].
  unfold Staking.begin_block. rewrite (bind_run_ok _ _ _ _ _ Hev). unfold expecting. by rewrite Hrun.
Qed.

Lemma begin_block_running h ev votes sched s u s' :
  fair sched -> well_formed (h + 1) (fun _ => h) s -> keyed held s ->
  Staking.begin_block ev votes sched s = (Ok u, s') -> staking_ok held (h + 1) s'.
Proof.
  intros Hf W K Hrun. destruct (begin_block_runs h ev votes s W) as (final & Hall). destruct (Hall sched Hf) as (s1 & Hrun1 & W1 & G & _).
  rewrite Hrun1 in Hrun. injection Hrun as _ ->. split; [exact W1|]. by eapply same_globals_keyed.
Qed.

Lemma on_staking_inv {A} (m : stake A) a r a' : on_staking m a = (Ok r, a') ->
  exists s, m (staking (world a)) = (Ok r, s) /\ a' = set_world (set_staking s (world a)) a.
Proof. unfold on_staking, on_world. destruct (m (staking (world a))) as [o s]. intros [= -> <-]. by exists s. Qed.

(** Typed inputs: the transactions of the block, and those of the community pool. *)
Class TypedEnv := decoded_typed t : tx_typed (decode_transaction t).
Definition input_typed (i : Input) : Prop := Forall tx_typed (txs i).

Lemma pending_typed `{!TypedEnv} h a l a' :
  in_block held h a -> pending_community_pool_transactions a = (Ok l, a') -> in_block held h a' /\ Forall tx_typed l.
Proof.
  intros Ka Hrun. unfold pending_community_pool_transactions in Hrun. apply bind_ok in Hrun as (height & a1 & H1 & Hrun).
  assert (Ka1 : in_block held h a1) by exact (holds_asking _ _ _ _ _ Ka H1). unfold ask in Hrun. injection Hrun as Hl <-. split; [exact Ka1|].
  revert Hl. generalize (merge_sort Z.le (elements (set_map snd (filter (fun hp : Z * Z => hp.1 = height) (deliveries (governance (world a1)))) : gset Z))) as ps.
  intros ps. enough (Hf : forall ps acc, foldl (fun acc proposal =>
      let! transactions := acc in
      let! tx := ok_or (community_pool_transactions (governance (world a1)) !! proposal) "no transaction found for proposal" in
      Ok (transactions ++ [decode_transaction tx])) acc ps = (Ok l : anyhow _) -> exists l0, acc = Ok l0 /\ (Forall tx_typed l0 -> Forall tx_typed l)).
  { intros Hl. destruct (Hf _ _ Hl) as (l0 & [= <-] & Himp). by apply Himp. }
  clear ps Ka1 H1. induction ps as [|p ps IH]; intros acc Hl; [by exists l|]. cbn [foldl] in Hl. destruct (IH _ Hl) as (l1 & H1 & Himp).
  apply outcome_bind_ok in H1 as (l0 & -> & H1). apply outcome_bind_ok in H1 as (t & _ & [= <-]). exists l0. split; [done|].
  intros Hl0. apply Himp, Forall_app. split; [done|]. apply Forall_singleton, decoded_typed.
Qed.

(** The state between the new height and the votes. *)
Definition risen (h : Z) (a : App) : Prop :=
  well_formed (h + 1) (fun _ => h) (staking (world a)) /\ keyed held (staking (world a)) /\ issuance_typed (distribution a).

Lemma begin_block_triple `{!TypedJson} `{!TypedEnv} h sched i :
  h + 1 < 2 ^ 64 - 1 -> fair sched -> triple (ready held h) (begin_block sched (h + 1) i) (fun _ => in_block held (h + 1)).
Proof.
  intros Hh Hf. unfold begin_block. eapply triple_bind; [apply scheduled_change_ready|]. intros [].
  eapply (triple_bind _ _ (fun _ => risen h)).
  { intros a u a' [[K T] N] Hrun. apply on_staking_inv in Hrun as (s & Hrun & ->). injection Hrun as _ <-.
    split; [exact (height_moves h _ K N Hh)|]. split; [apply K|exact T]. }
  intros []. eapply (triple_bind _ _ (fun _ => in_block held (h + 1))).
  { intros a u a' (W & K & T) Hrun. apply on_staking_inv in Hrun as (s & Hrun & ->). split; [|exact T].
    exact (begin_block_running h _ _ sched _ _ _ Hf W K Hrun). }
  intros []. eapply (triple_bind _ _ (fun pending a => in_block held (h + 1) a /\ Forall tx_typed pending)).
  { apply triple_expecting. intros a l a' Ka Hrun. by eapply pending_typed. }
  intros pending a u a' [Ka Ht]. apply (holds_for_each (in_block held (h + 1))); [|exact Ka].
  intros tx Htx. rewrite Forall_forall in Ht. by apply deliver_or_skip_kept, Ht.
Qed.

(** *** The end of a block *)

Lemma triple_pure {S A} (phi : Prop) (P : S -> Prop) (m : comp S string A) Q : (phi -> triple P m Q) -> triple (fun s => P s /\ phi) m Q.
Proof. intros Hm s a s' [HP Hphi]. by apply Hm. Qed.

Lemma distributions_end_block_params height c d r d' :
  Distributions.end_block height c d = (r, d') -> distributions_params d' = distributions_params d.
Proof.
  unfold Distributions.end_block, Distributions.increment_lqt_issuance, Distributions.set_lqt_reward_issuance_for_epoch,
    Distributions.get_distributions_params, expecting, bind, lift, Prelude.ret, gets, modify, when.
  intros Hrun. repeat (case_match; simplify_eq; try done); unfold ret in Hrun; by simplify_eq.
Qed.

(** The budget of an epoch is an amount. *)
Definition budget_typed (d : DistributionsState) : Prop := forall i, staking_token_issuance d = Some i -> is_u128 i.

Lemma distributions_end_epoch_typed c d u d' :
  issuance_typed d -> Distributions.end_epoch c d = (Ok u, d') -> issuance_typed d' /\ budget_typed d'.
Proof.
  intros T Hrun. unfold Distributions.end_epoch, Distributions.define_staking_budget, Distributions.compute_new_staking_issuance,
    Distributions.set_staking_token_issuance_for_epoch, Distributions.get_distributions_params in Hrun.
  inv_comp. match goal with Hp : (ok_or _ _, _) = _ |- _ => injection Hp as Hp <- end. inv_outcome. split; [exact T|].
  intros i [= <-].
  match goal with Hs : checked_sub _ _ = Some _, Hm : checked_mul _ _ _ = Some _ |- _ => apply checked_sub_some in Hs as [-> ?]; apply checked_mul_some in Hm as [-> ?] end.
  match goal with Hp : distributions_params _ = Some _ |- _ => pose proof (T _ Hp) end. unfold in_width. nia.
Qed.

(** The set that the response [s] to a block asks CometBFT for: the updates are proper, and staking
    remembers the keys they lead to. *)
Definition answered (s : StakeState) (held' : gmap consensus_key Z) : Prop :=
  proper (default [] (validator_updates s)) held /\ held' = merged (default [] (validator_updates s)) held
  /\ exists known, consensus_keys s = Some known /\ remembers known held'.

(** The active validators are the strongest of those that can be elected. *)
Definition elects_strongest (s : StakeState) : Prop :=
  exists p, stake_params s = Some p /\ strongest_active (Z.to_nat (active_validator_limit p)) s.

Definition epoch_over (h : Z) (s : StakeState) : Prop :=
  well_formed h (fun _ => h) s /\ elects_strongest s /\ exists held', answered s held' /\ follows s held'.

(** The end of an epoch, of staking alone: the rates, the active set and the updates of CometBFT. *)
Lemma staking_end_epoch_inv h sched s u s' :
  staking_ok held h s -> budget_ok s -> fair sched -> Staking.end_epoch sched s = (Ok u, s') -> epoch_over h s'.
Proof.
  intros [W [(k & K & Hk) _]] Hb Hf Hrun. unfold Staking.end_epoch in Hrun. destruct (epoch_run h s (wf_clock _ _ _ W)) as (e & Hstart & Hat & Hcur).
  rewrite (bind_run_ok _ _ _ _ _ Hcur) in Hrun. apply bind_ok in Hrun as (u1 & s1 & H1 & Hrun).
  pose proof (end_epoch_keeps h e s u1 s1 W Hb Hat Hstart H1) as E. pose proof (ended_wf _ _ _ E) as W1.
  assert (K1 : consensus_keys s1 = Some k) by (rewrite <- K; exact (same_consensus_keys _ _ (ended_frame _ _ _ E))).
  rewrite (build_updates_run h _ s1 k sched W1 K1 Hf) in Hrun. injection Hrun as _ <-.
  destruct (ended_active _ _ _ E) as (p & Hp & Hs). destruct (comet_follows _ _ _ _ _ W1 Hk) as (Ha & Hfol).
  split; [by apply updated_keeps|]. split; [exists p; split; [rewrite <- Hp; exact (same_params _ _ (ended_frame _ _ _ E))|by destruct Hs]|].
  eexists. split; [|exact Hfol]. split; [exact Ha|]. split; [done|]. by eapply updated_remembers.
Qed.

Definition budgeted (h : Z) (a : App) : Prop := in_block held h a /\ budget_typed (distribution a).

Lemma end_epoch_triple h sched : fair sched -> triple (in_block held h) (Block.end_epoch sched) (fun _ a => epoch_over h (staking (world a)) /\ issuance_typed (distribution a)).
Proof.
  intros Hf. unfold Block.end_epoch. eapply triple_bind; [apply (holds_gets (in_block held h))|]. intros c.
  eapply (triple_bind _ _ (fun _ => budgeted h)).
  { intros a u a' [K T] Hrun. unfold on_distribution in Hrun. destruct (expecting (Distributions.end_epoch c) (distribution a)) as [o d] eqn:Hd.
    injection Hrun as -> <-. apply (proj1 (expecting_ok _ _ _ _)) in Hd. apply distributions_end_epoch_typed in Hd as [T' B]; [|done]. by split. }
  intros []. eapply (triple_bind _ _ (fun _ => budgeted h)).
  { intros a u a' [Ka B] Hrun. pose proof (kept_quiet held h _ (quiet_expecting _ end_epoch_quiet) a u a' Ka Hrun) as Ka'. split; [exact Ka'|].
    unfold on_world in Hrun. destruct (expecting Governance.end_epoch (world a)) as [o w]. injection Hrun as _ <-. exact B. }
  intros []. eapply (triple_bind _ _ (fun budget a => in_block held h a /\ forall i, budget = Some i -> is_u128 i)).
  { intros a budget a' [Ka B] [= <- <-]. by split. }
  intros budget. apply triple_pure. intros B. eapply (triple_bind _ _ (fun _ a => in_block held h a /\ budget_ok (staking (world a)))).
  { intros a u a' [K T] Hrun. apply on_staking_inv in Hrun as (s & Hrun & ->). injection Hrun as _ <-. split; [|exact B]. split; [|exact T].
    eapply same_core_running; [exact K|]. done. }
  intros []. intros a u a' [[K T] Hb] Hrun. apply on_staking_inv in Hrun as (s & Hrun & ->). apply (proj1 (expecting_ok _ _ _ _)) in Hrun.
  split; [|exact T]. by eapply staking_end_epoch_inv.
Qed.

(** After the end of a block, before its commit. *)
Definition settled (h : Z) (s : StakeState) (held' : gmap consensus_key Z) : Prop :=
  well_formed h (fun _ => h) s /\ next_epoch h s /\ answered s held'.

(** Either the epoch goes on and nothing is sent, or a new one begins with the strongest validators. *)
Definition block_over (h : Z) (s : StakeState) : Prop :=
  exists e held', epoch_by_height (clock s) !! (h + 1) = Some e /\ settled h s held' /\
    (0 <= start_height e <= h /\ validator_updates s = None \/ start_height e = h + 1 /\ elects_strongest s /\ follows s held').

Lemma well_formed_next h e s : well_formed h (fun _ => h) s ->
  well_formed h (fun _ => h) (set_clock (EpochManager.put_epoch_by_height (h + 1) e (clock s)) s).
Proof.
  intros W. eapply well_formed_clock; [exact W|]. destruct W as [_ _ _ [C1 C2 (e' & Ce & Cr) C4]]. split; [exact C1|done| |exact C4].
  exists e'. split; [|done]. cbn. by rewrite lookup_insert_ne by lia.
Qed.

Lemma next_epoch_put h e s : 0 <= start_height e <= h + 1 ->
  next_epoch h (set_clock (EpochManager.put_epoch_by_height (h + 1) e (clock s)) s).
Proof. intros He. exists e. split; [|done]. cbn. by rewrite lookup_insert_eq. Qed.

Lemma same_epoch_over h e s : staking_ok held h s -> 0 <= start_height e <= h ->
  block_over h (set_clock (EpochManager.put_epoch_by_height (h + 1) e (clock s)) s).
Proof.
  intros [W [K U]] He. exists e, held. split; [cbn; by rewrite lookup_insert_eq|]. split; [|by left].
  split; [by apply well_formed_next|]. split; [apply next_epoch_put; lia|]. unfold answered. cbn. rewrite U.
  split; [apply proper_nil|]. split; [done|exact K].
Qed.

Lemma new_epoch_over h n s : 0 <= h -> epoch_over h s ->
  block_over h (set_clock (EpochManager.put_epoch_by_height (h + 1) (mkEpoch n (h + 1)) (clock s)) s).
Proof.
  intros Hh (W & S & held' & A & F). exists (mkEpoch n (h + 1)), held'. split; [cbn; by rewrite lookup_insert_eq|].
  split; [split; [by apply well_formed_next|]; split; [apply next_epoch_put; cbn; lia|exact A]|]. right. split; [done|]. split; [|exact F].
  destruct S as (p & Hp & []). exists p. by split.
Qed.

Lemma end_block_triple h sched : fair sched -> triple (in_block held h) (Block.end_block sched h) (fun _ a => block_over h (staking (world a)) /\ issuance_typed (distribution a)).
Proof.
  intros Hf. unfold Block.end_block. eapply triple_bind; [apply (holds_pool (in_block held h))|]. intros [].
  eapply triple_bind; [apply (holds_gets (in_block held h))|]. intros c.
  eapply triple_bind; [apply (holds_distribution (in_block held h))|].
  { intros a r d [K T] Hrun. apply distributions_end_block_params in Hrun. split; [exact K|]. intros p. cbn. rewrite Hrun. apply T. }
  intros []. eapply triple_bind; [apply kept_quiet, end_block_quiet|]. intros [].
  eapply triple_bind; [apply kept_staking|].
  { intros s r s' K Hrun. unfold Staking.end_block, StakeWrite.write_delegation_changes in Hrun. inv_comp. eapply same_core_running; [exact K|]. done. }
  intros []. eapply (triple_bind _ _ (fun height a => in_block held h a /\ height = h)).
  { apply triple_expecting. intros a height a' [K T] Hrun. apply on_staking_inv in Hrun as (s & Hrun & ->).
    rewrite (block_height_run h _ (wf_clock _ _ _ (proj1 K))) in Hrun. injection Hrun as <- <-. split; [|done]. by split. }
  intros height. apply triple_pure. intros ->. eapply (triple_bind _ _ (fun e a => in_block held h a /\ 0 <= start_height e <= h)).
  { apply triple_expecting. intros a e a' [K T] Hrun. apply on_staking_inv in Hrun as (s & Hrun & ->).
    destruct (epoch_run h _ (wf_clock _ _ _ (proj1 K))) as (e' & He & _ & Hcur). rewrite Hcur in Hrun. injection Hrun as <- <-. split; [|done]. by split. }
  intros e. apply triple_pure. intros He. eapply triple_bind; [apply (holds_ask (in_block held h))|]. intros duration.
  eapply triple_bind; [apply (holds_lift (in_block held h))|]. intros scheduled. eapply triple_bind; [apply (holds_gets (in_block held h))|]. intros early.
  eapply triple_bind; [apply (holds_expecting (in_block held h)), pre_upgrade_holds; exact _|]. intros upgrade.
  eapply (triple_bind _ _ (fun next a => in_block held h a /\ next = h + 1)).
  { apply triple_lift. intros a next Ka Hn. apply plain_add_ok in Hn as [-> _]. by split. }
  intros next. apply triple_pure. intros ->. destruct (_ || _).
  - eapply triple_bind; [by apply end_epoch_triple|]. intros []. eapply triple_bind.
    { apply (triple_lift _ _ (fun _ a => epoch_over h (staking (world a)) /\ issuance_typed (distribution a))). by intros a idx Ka _. }
    intros idx. intros a u a' [Ka T] Hrun. apply on_staking_inv in Hrun as (s & Hrun & ->). injection Hrun as _ <-.
    split; [apply new_epoch_over; [lia|done]|exact T].
  - intros a u a' [K T] Hrun. apply on_staking_inv in Hrun as (s & Hrun & ->). injection Hrun as _ <-. split; [by apply same_epoch_over|exact T].
Qed.
End Phases.
