(* ===== verification/ChainGenesis.v ===== *)
(** * Validators from genesis on

    Genesis makes every validator of its file active; from there on every block of a chain keeps the
    invariant of [StakeFacts]. *)

From S2P Require Import Prelude.
From S2P Require Import Num.
From S2P Require Import Asset.
From S2P Require Import DexState.
From S2P Require Import Fee.
From S2P Require Import Clock.
From S2P Require Import Validator.
From S2P Require Import Rate.
From S2P Require Import RateFacts.
From S2P Require Import Stake.
From S2P Require Import StakeManager.
From S2P Require Import StakeEpoch.
From S2P Require Import StakeFacts.
From S2P Require Import StakeUptime.
From S2P Require Import StakeEpochFacts.
From S2P Require Import StakeElection.
From S2P Require Import StakeComet.
From S2P Require Import StakeHandlers.
From S2P Require Import Distributions.
From S2P Require Import Fmd.
From S2P Require Import Tally.
From S2P Require Import Governance.
From S2P Require Import AppParams.
From S2P Require Import Chain.
From S2P Require Import GovernanceFacts.
From S2P Require Import ChainFacts.
From S2P Require Import ChainStaking.
From S2P Require Import ChainGovernance.
Import ValidatorState.
Import BondingState.
Import StakeRead.
Import StakeWrite.
Import ConsensusIndex.
Import ValidatorManager.

(** What a genesis file has to satisfy: nothing checks it. *)
Record content_ok (c : Block.Content) : Prop := {
  content_params : params_ok (Block.content_stake c);
  content_issuance : 0 <= staking_issuance_per_block (Block.content_distributions c);
  content_streams : Forall (fun v => streams_ok (funding_streams v)) (Block.content_validators c);
  content_keys : NoDup (validator_consensus_key <$> Block.content_validators c);
  content_amounts : Forall (fun v => is_u128 (amount v)) (Block.content_allocations c);
}.

Section Genesis.
Context `{StakeEnv}.
Notation wf_0 := (well_formed 0 (fun _ => 0)).

Lemma sum_allocations_typed l m : Forall (fun v => is_u128 (amount v)) l -> @Staking.sum_allocations string l = Ok m -> map_Forall (fun _ x => is_u128 x) m.
Proof.
  unfold Staking.sum_allocations. intros Hl Hrun.
  enough (Hf : forall l acc, Forall (fun v => is_u128 (amount v)) l ->
    foldl (fun acc value => let! m := acc in let! total := plain_add 128 (default 0 (m !! value_asset value)) (amount value) in
      Ok (<[value_asset value := total]> m)) acc l = (Ok m : anyhow _) ->
    exists m0, acc = Ok m0 /\ (map_Forall (fun _ x => is_u128 x) m0 -> map_Forall (fun _ x => is_u128 x) m)).
  { destruct (Hf _ _ Hl Hrun) as (m0 & [= <-] & Himp). apply Himp, map_Forall_empty. }
  clear l Hl Hrun. induction l as [|v l IH]; intros acc Hl Hrun; [by exists m|]. apply Forall_cons in Hl as [Hv Hl]. cbn [foldl] in Hrun.
  destruct (IH _ Hl Hrun) as (m1 & H1 & Himp). apply outcome_bind_ok in H1 as (m0 & -> & H1). apply outcome_bind_ok in H1 as (total & Ht & [= <-]).
  apply plain_add_ok in Ht as [-> Ht]. exists m0. split; [done|]. intros Hm0. apply Himp. apply map_Forall_insert_2; [|done].
  unfold in_width in *. split; [|exact Ht]. destruct (m0 !! value_asset v) as [x|] eqn:Hx; cbn in *; [|lia].
  pose proof (map_Forall_lookup_1 _ _ _ _ Hm0 Hx) as Hr. cbn in Hr. lia.
Qed.

(** A validator of the genesis, whose key no earlier one has. *)
Lemma genesis_validator_keeps allocations base v s u s' :
  wf_0 s -> map_Forall (fun _ x => is_u128 x) allocations -> is_u128 (base_exchange_rate base) -> streams_ok (funding_streams v) ->
  (forall j w, definitions s !! j = Some w -> validator_consensus_key w <> validator_consensus_key v) ->
  add_genesis_validator allocations base v s = (Ok u, s') ->
  wf_0 s' /\ definitions s' = <[validator_identity v := v]> (definitions s).
Proof.
  intros W Ha Hb Hstr Hnew Hrun. unfold add_genesis_validator in Hrun. set (id := validator_identity v) in *. set (pool := default 0 _) in Hrun.
  assert (Hpool : is_u128 pool).
  { unfold pool. destruct (allocations !! delegation_token id) as [x|] eqn:Hx; [exact (map_Forall_lookup_1 _ _ _ _ Ha Hx)|by by_computation]. }
  apply bind_ok in Hrun as (power & s1 & H1 & Hrun). apply lift_ok in H1 as [Hpow ->].
  pose proof (unbonded_amount_width (mkRate id (base_reward_rate base) (base_exchange_rate base)) pool power Hb Hpool Hpow) as [Hp0 _].
  apply bind_ok in Hrun as (u1 & s1 & H1 & Hrun). pose proof (add_inner_run _ _ _ _ _ _ _ _ _ H1) as A. clear H1.
  unfold add_consensus_set_index in Hrun. rewrite bind_modify in Hrun. set (s2 := set_consensus_set_index _ s1) in Hrun.
  assert (C2 : clock_ok 0 s2).
  { destruct (wf_clock _ _ _ W) as [C1 C2 C3 C4]. split; unfold s2; cbn; rewrite ?(added_clock _ _ _ _ _ _ _ _ A), ?(added_params _ _ _ _ _ _ _ _ A); done. }
  destruct (params_run 0 s2 C2) as (ps & (_ & _ & _ & Hlen) & _ & _ & Hw). rewrite (bind_run_ok _ _ _ _ _ Hw) in Hrun.
  unfold set_validator_uptime in Hrun. apply modify_ok in Hrun as [_ ->]. split; [|exact (added_definitions _ _ _ _ _ _ _ _ A)].
  eapply (well_formed_defined 0 _ id v s); [exact W| | |apply A|apply A|apply A| |apply A|apply A|apply A].
  - intros j Hj. rewrite <- (added_others _ _ _ _ _ _ _ _ j A Hj). unfold view. cbn. rewrite lookup_insert_ne by done. f_equal.
    apply bool_decide_ext. set_solver.
  - pose proof (added_view _ _ _ _ _ _ _ _ A) as V. fold id in V. unfold view in *. cbn in *. injection V as -> -> -> -> -> -> _ _.
    rewrite lookup_insert_eq, bool_decide_eq_true_2 by set_solver. constructor; try done; [split; [done|apply A]|].
    split_and!; [done..|]. eexists. split; [done|]. cbn. rewrite length_replicate. split; [done|lia].
  - intros j w Hw' Hk. by destruct (Hnew j w Hw').
Qed.

Lemma genesis_validators_keep allocations base : map_Forall (fun _ x => is_u128 x) allocations -> is_u128 (base_exchange_rate base) ->
  forall l s u s', wf_0 s -> Forall (fun v => streams_ok (funding_streams v)) l -> NoDup (validator_consensus_key <$> l) ->
  (forall j w, definitions s !! j = Some w -> validator_consensus_key w ∉ validator_consensus_key <$> l) ->
  for_each l (fun v => expecting (E := string) (add_genesis_validator allocations base v)) s = (Ok u, s') -> wf_0 s'.
Proof.
  intros Ha Hb. induction l as [|v l IH]; intros s u s' W Hstr Hnd Hnew Hrun; cbn [for_each] in Hrun; [by apply ret_ok in Hrun as [_ ->]|].
  apply bind_ok in Hrun as (u1 & s1 & H1 & Hrun). apply (proj1 (expecting_ok _ _ _ _)) in H1.
  apply Forall_cons in Hstr as [Hv Hstr]. rewrite fmap_cons in *. apply NoDup_cons in Hnd as [Hvl Hnd].
  destruct (genesis_validator_keeps allocations base v s u1 s1 W Ha Hb Hv) as [W1 Hd]; [|exact H1|].
  { intros j w Hw Hk. apply (Hnew j w Hw). rewrite Hk. set_solver. }
  eapply IH; [exact W1|exact Hstr|exact Hnd| |exact Hrun]. intros j w. rewrite Hd. intros Hw.
  apply lookup_insert_Some in Hw as [[<- <-]|[_ Hw]]; [done|]. specialize (Hnew j w Hw). set_solver.
Qed.
End Genesis.

(** ** The whole genesis *)

Section Chain.
Context `{ChainEnv}.
Import Block.

(** A store without validators. *)
Definition unpopulated (s : StakeState) : Prop := exists c p d, s = set_clock c (set_stake_params p (set_denoms d empty_stake)).

Lemma unpopulated_well_formed h n s : unpopulated s -> clock_ok h s -> well_formed h n s.
Proof.
  intros (c & p & d & ->) C. split; [| |apply map_Forall_empty|exact C].
  - intros j. unfold view. cbn. rewrite !lookup_empty, bool_decide_eq_false_2 by set_solver. constructor.
  - split; cbn; intros *; rewrite lookup_empty; done.
Qed.

Definition first_clock (s : StakeState) : Prop :=
  clock_height (clock s) = Some 0 /\ epoch_by_height (clock s) !! 0 = Some (mkEpoch 0 0) /\ epoch_by_height (clock s) !! 1 = Some (mkEpoch 0 0).

(** Adding the validators leaves the clock, and sends nothing. *)
Definition same_clock (s s' : StakeState) : Prop := clock s' = clock s /\ validator_updates s' = validator_updates s.

Lemma genesis_validators_clock allocations base l s u s' :
  for_each l (fun v => expecting (E := string) (add_genesis_validator allocations base v)) s = (Ok u, s') -> same_clock s s'.
Proof.
  intros Hrun. refine (triple_for_each (same_clock s) l _ _ s u s' (conj eq_refl eq_refl) Hrun).
  intros v _. apply triple_expecting. intros s1 u1 s2 [Hc Hu] H1. unfold add_genesis_validator in H1.
  apply bind_ok in H1 as (power & s3 & H2 & H1). apply lift_ok in H2 as [_ ->]. apply bind_ok in H1 as (u2 & s3 & H2 & H1).
  pose proof (add_inner_run _ _ _ _ _ _ _ _ _ H2) as A. pose proof (added_clock _ _ _ _ _ _ _ _ A) as Hc3. pose proof (added_updates _ _ _ _ _ _ _ _ A) as Hu3. unfold add_consensus_set_index, get_signed_blocks_window_len, get_stake_params, set_validator_uptime in H1.
  inv_stake. split; cbn; congruence.
Qed.

Lemma init_genesis_running params validators allocations s u s' :
  unpopulated s -> first_clock s -> params_ok params -> Forall (fun v => streams_ok (funding_streams v)) validators ->
  NoDup (validator_consensus_key <$> validators) -> Forall (fun v => is_u128 (amount v)) allocations ->
  Staking.init_genesis params validators allocations s = (Ok u, s') ->
  staking_ok ∅ 0 s' /\ first_clock s'.
Proof.
  intros (c & p & d & ->) (F1 & F2 & F3) Hp Hstr Hnd Ha Hrun. unfold Staking.init_genesis, put_stake_params in Hrun. rewrite bind_modify in Hrun.
  set (s0 := set_stake_params (Some params) _) in Hrun.
  assert (C0 : clock_ok 0 s0) by (split; [exact F1|done|by exists (mkEpoch 0 0)|by exists params]).
  assert (W0 : well_formed 0 (fun _ => 0) s0).
  { apply unpopulated_well_formed; [|exact C0]. by exists c, (Some params), d. }
  assert (D0 : definitions s0 = ∅) by done. assert (K0 : clock s0 = c /\ validator_updates s0 = None) by done. clearbody s0. cbn in F1, F2, F3.
  apply bind_ok in Hrun as (h0 & s1 & H1 & Hrun). unfold get_block_height in H1. apply (proj1 (expecting_ok _ _ _ _)), asks_ok in H1 as [_ ->].
  apply bind_ok in Hrun as (e0 & s1 & H1 & Hrun). unfold get_epoch_by_height in H1. apply (proj1 (expecting_ok _ _ _ _)), asks_ok in H1 as [_ ->].
  rewrite bind_modify in Hrun. set (s1 := set_base_rate _ s0) in Hrun.
  assert (W1 : well_formed 0 (fun _ => 0) s1) by (eapply same_core_well_formed; [exact W0|done]).
  assert (D1 : definitions s1 = ∅) by done. assert (K1 : clock s1 = c /\ validator_updates s1 = None) by done. clearbody s1.
  apply bind_ok in Hrun as (alloc & s2 & H1 & Hrun). apply lift_ok in H1 as [Hal ->]. apply (sum_allocations_typed _ _ Ha) in Hal.
  apply bind_ok in Hrun as (u1 & s2 & H1 & Hrun). pose proof (genesis_validators_clock _ _ _ _ _ _ H1) as [K2 U2].
  apply (genesis_validators_keep alloc (mkBaseRate (index e0) 0 100000000) Hal ltac:(by_computation)) in H1 as W2; [|done..|by rewrite D1].
  rewrite bind_modify in Hrun. unfold write_delegation_changes in Hrun. apply modify_ok in Hrun as [_ ->]. split.
  - split; [|split; [exists []; split; [done|]; intros k; rewrite lookup_empty; split; [set_solver|by intros []]|cbn; rewrite U2; apply K1]]. destruct W2 as [V [Q1 Q2 Q3] P [C1 C2 C3 C4]]. split; [exact V|by split|exact P|by split].
  - destruct K1 as [K1 _]. unfold first_clock. cbn. by rewrite K2, K1.
Qed.

(** Genesis as a whole, up to its commit. *)
Lemma init_chain_settled sched c a :
  fair sched -> content_ok c -> init_chain sched (Some c) empty_app = (Ok tt, a) ->
  (exists held, settled ∅ 0 (staking (world a)) held /\ follows (staking (world a)) held) /\ issuance_typed (distribution a).
Proof.
  intros Hf Hc Hrun. unfold init_chain in Hrun.
  apply bind_ok in Hrun as (u1 & a1 & H1 & Hrun). apply modify_ok in H1 as [_ ->].
  apply bind_ok in Hrun as (u2 & a2 & H2 & Hrun). apply on_staking_inv in H2 as (s2 & H2 & ->). injection H2 as _ <-.
  apply bind_ok in Hrun as (u3 & a3 & H3 & Hrun). injection H3 as _ <-.
  set (Q := fun a => unpopulated (staking (world a)) /\ first_clock (staking (world a))).
  apply bind_ok in Hrun as (u4 & a4 & H4 & Hrun).
  assert (Q4 : Q a4).
  { refine (triple_for_each Q (content_allocations c) _ _ _ u4 a4 _ H4).
    - intros v _ x ux x' [(cl & p & d & Hx) F] Hb. unfold register_allocation in Hb. destruct (amount v =? 0); [done|]. injection Hb as _ <-.
      split; [|exact F]. cbn. rewrite Hx. by eexists _, _, _.
    - split; [by eexists _, None, ∅|]. split; [done|]. split; [done|]. reflexivity. }
  clear H4. destruct Q4 as [U4 F4].
  apply bind_ok in Hrun as (u5 & a5 & H5 & Hrun). unfold on_distribution in H5. injection H5 as _ <-.
  apply bind_ok in Hrun as (u6 & a6 & H6 & Hrun). apply on_staking_inv in H6 as (s6 & H6 & ->).
  unfold Staking.init_chain in H6. apply bind_ok in H6 as (u7 & s7 & H7 & H6).
  destruct (init_genesis_running _ _ _ _ _ _ U4 F4 (content_params _ Hc) (content_streams _ Hc) (content_keys _ Hc) (content_amounts _ Hc) H7) as [[W7 [(k & K7 & R7) _]] F7].
  apply (proj1 (expecting_ok _ _ _ _)) in H6. rewrite (build_updates_run 0 _ s7 k sched W7 K7 Hf) in H6. injection H6 as _ H6.
  apply bind_ok in Hrun as (u8 & a8 & H8 & Hrun). apply modify_ok in H8 as [_ ->].
  assert (E : staking (world a) = updated s7 k /\ distribution a = set_distributions_params (Some (content_distributions c)) (distribution a4)).
  { rewrite H6. split; [exact (eq_sym (f_equal (fun r => staking (world r.2)) Hrun))|exact (eq_sym (f_equal (fun r => distribution r.2) Hrun))]. }
  destruct E as [E1 E2]. rewrite E1, E2. split.
  - destruct (comet_follows _ _ _ _ _ W7 R7) as (Ha & Hf'). eexists. split; [|exact Hf'].
    split; [by apply updated_keeps|]. split; [exists (mkEpoch 0 0); split; [apply F7|cbn; lia]|]. split; [exact Ha|]. split; [done|].
    by eapply updated_remembers.
  - intros p [= <-]. apply (content_issuance _ Hc).
Qed.
End Chain.

(** ** Every block *)

Section Blocks.
Context `{ChainEnv}.
Import Transactions Block.

Lemma cleared_ready held h a held' :
  settled held h (staking (world a)) held' -> issuance_typed (distribution a) -> ready held' h (clear_object_store a).
Proof.
  intros (W & N & _ & _ & K) T. split; [split; [split; [|by split]|exact T]|exact N].
  assert (W1 : well_formed h (fun _ => h) (set_clock (set_end_epoch_early false (clock (staking (world a)))) (staking (world a)))).
  { eapply well_formed_clock; [exact W|]. destruct W as [_ _ _ [C1 C2 C3 C4]]. by split. }
  destruct W1 as [V [K1 K2 K3] P [C1 C2 C3 C4]]. split; [exact V|by split|exact P|by split].
Qed.

(** The commit only signals a halt and clears the object store. *)
Lemma commit_ready held h a u a' held' :
  settled held h (staking (world a)) held' -> issuance_typed (distribution a) -> commit a = (Ok u, a') -> ready held' h a'.
Proof.
  intros S T Hrun. unfold commit in Hrun. apply bind_ok in Hrun as (halting & a1 & H1 & Hrun).
  set (I := fun a : App => settled held h (staking (world a)) held' /\ issuance_typed (distribution a)).
  assert (HI : ComponentInvariant I) by (intros x y [? ?] Hw Hd; unfold I; by rewrite Hw, Hd).
  assert (Hq : forall A (m : governing A), quiet m -> holds I (on_world m)).
  { intros A m Hm. apply holds_world. intros x r w [Sx Tx] Hx. split; [|exact Tx]. destruct (Hm (world x)) as [d Hd]. rewrite Hx in Hd. cbn in *.
    rewrite Hd. destruct Sx as ([V [K1 K2 K3] P [C1 C2 C3 C4]] & N & A1). split; [split; [exact V|by split|exact P|by split]|]. by split. }
  assert (I1 : I a1) by (exact (holds_expecting I _ (pre_upgrade_holds I) _ _ _ (conj S T) H1)).
  apply bind_ok in Hrun as (u2 & a2 & H2 & Hrun). assert (I2 : I a2).
  { destruct halting; [exact (Hq _ _ (quiet_writes _) _ _ _ I1 H2)|by apply ret_ok in H2 as [_ ->]]. }
  apply modify_ok in Hrun as [_ ->]. by eapply cleared_ready; apply I2.
Qed.

(** A block of height [h + 1], up to its response. *)
Lemma respond_over `{!TypedJson} `{!TypedEnv} held h sched i :
  h + 1 < 2 ^ 64 - 1 -> fair sched -> input_typed i -> triple (ready held h) (respond sched (h + 1) i)
    (fun _ a => block_over held (h + 1) (staking (world a)) /\ issuance_typed (distribution a)).
Proof.
  intros Hh Hf Hi. unfold respond. eapply triple_bind; [by apply begin_block_triple|]. intros [].
  eapply (triple_bind _ _ (fun _ => in_block held (h + 1))); [|intros []; by apply end_block_triple].
  apply (holds_for_each (in_block held (h + 1))). intros tx Htx. unfold input_typed in Hi. rewrite Forall_forall in Hi. by apply deliver_or_skip_kept, Hi.
Qed.

(** The states a chain goes through, by height, with the set of powers that CometBFT holds: the genesis,
    the blocks, each with its own order of the tasks, and the writes of the components outside [App]. *)
Inductive chain_at : Z -> gmap consensus_key Z -> App -> Prop :=
| chain_genesis sched c a a' held : fair sched -> content_ok c ->
    init_chain sched (Some c) empty_app = (Ok tt, a) -> comet_apply (cometbft_validator_updates a) ∅ = Some held ->
    commit a = (Ok tt, a') -> chain_at 0 held a'
| chain_block h held a a1 a' sched i held' : chain_at h held a -> fair sched -> input_typed i -> h + 1 < 2 ^ 64 - 1 ->
    respond sched (h + 1) i a = (Ok tt, a1) -> comet_apply (cometbft_validator_updates a1) held = Some held' ->
    commit a1 = (Ok tt, a') -> chain_at (h + 1) held' a'
| chain_outside h held a clients spends position : chain_at h held a -> chain_at h held (set_outside clients spends position a).

Lemma settled_answer held h s held1 held' :
  settled held h s held1 -> comet_apply (default [] (validator_updates s)) held = Some held' -> held1 = held'.
Proof. intros (_ & _ & _ & -> & _) A'. by apply comet_apply_merged in A'. Qed.

Lemma chain_ready `{!TypedJson} `{!TypedEnv} h held a : chain_at h held a -> ready held h a.
Proof.
  induction 1 as [sched c a a' held Hf Hc Hinit Hset Hcommit|h held a a1 a' sched i held' _ IH Hf Hi Hh Hrun Hset Hcommit|h held a cl sp po _ IH].
  - destruct (init_chain_settled _ _ _ Hf Hc Hinit) as [(held1 & S & _) T]. rewrite (settled_answer _ _ _ _ _ S Hset) in S. by eapply commit_ready.
  - destruct (respond_over held h sched i Hh Hf Hi _ _ _ IH Hrun) as [(e & held1 & _ & S & _) T].
    rewrite (settled_answer _ _ _ _ _ S Hset) in S. by eapply commit_ready.
  - exact IH.
Qed.

Lemma chain_at_nonneg h held a : chain_at h held a -> 0 <= h.
Proof. induction 1; lia. Qed.
End Blocks.
