(* ===== verification/StakeTheorems.v ===== *)
(** * Theorems about staking along a chain

    What holds of the validators in every state of a chain, from its genesis on, and of the set of
    validators that CometBFT keeps. *)

From S2P Require Import Prelude.
From S2P Require Import Num.
From S2P Require Import Asset.
From S2P Require Import DexState.
From S2P Require Import Fee.
From S2P Require Import Clock.
From S2P Require Import Validator.
From S2P Require Import Rate.
From S2P Require Import Stake.
From S2P Require Import StakeEpoch.
From S2P Require Import StakeFacts.
From S2P Require Import StakeUptime.
From S2P Require Import StakeElection.
From S2P Require Import StakeComet.
From S2P Require Import StakeHandlers.
From S2P Require Import Distributions.
From S2P Require Import Fmd.
From S2P Require Import Tally.
From S2P Require Import Governance.
From S2P Require Import AppParams.
From S2P Require Import Chain.
From S2P Require Import ChainFacts.
From S2P Require Import ChainStaking.
From S2P Require Import ChainGenesis.
Import Block.

(** ** In every state *)

Section Chain.
Context `{ChainEnv} `{!TypedJson} `{!TypedEnv}.

(** (C30) In every state of a chain, from its genesis on and whatever its blocks hold, every validator
    is recorded completely, with values in their ranges and in agreement with its place in its life
    cycle: it is in the index of the consensus set while it can be elected or is active, and an active
    validator has an uptime tracker that ends at the last block; consensus keys belong to one validator
    each; penalties never exceed one; and the next block finds its epoch and its parameters. *)
Theorem validators_are_well_formed h held a :
  chain_at h held a ->
  well_formed h (fun _ => h) (staking (world a))
  /\ (exists known, consensus_keys (staking (world a)) = Some known /\ forall k, k ∈ known <-> is_Some (held !! k))
  /\ exists e, epoch_by_height (clock (staking (world a))) !! (h + 1) = Some e /\ 0 <= start_height e <= h + 1.
Proof. intros Hc. destruct (chain_ready h held a Hc) as [[[W [K _]] _] N]. by split. Qed.

(** (C31) The evidence and the votes of a block, whatever they are, never make it fail, and the order in
    which the lookups of validators complete changes nothing but the order of the events. *)
Theorem votes_are_counted_in_any_order h held a a1 u evidence votes :
  chain_at h held a -> h + 1 < 2 ^ 64 - 1 ->
  bind (apply_scheduled_change (h + 1)) (fun _ => on_staking (on_clock (Sct.begin_block (h + 1)))) a = (Ok u, a1) ->
  exists final, forall sched, fair sched ->
    exists s', Staking.begin_block evidence votes sched (staking (world a1)) = (Ok tt, s') /\ same_but_events final s'.
Proof.
  intros Hc Hh Hrun. apply bind_ok in Hrun as (u0 & a0 & Hchange & Hrun).
  destruct (scheduled_change_ready held h (h + 1) _ _ _ (chain_ready h held a Hc) Hchange) as [[K _] N].
  apply on_staking_inv in Hrun as (s & Hrun & ->). injection Hrun as _ <-.
  destruct (begin_block_runs h evidence votes _ (height_moves held h _ K N Hh)) as (final & Hall).
  exists final. intros sched Hf. destruct (Hall sched Hf) as (s' & Hb & _ & _ & E). by exists s'.
Qed.

(** (C32) After every block, either the epoch goes on, or a new one begins and the active validators are
    the strongest: there are at most as many as the parameter allows, all of them have power, every
    inactive validator with power is weaker than each of them, by power and then by identity, and there
    is no such validator unless the active set is full. *)
Theorem epochs_elect_the_strongest h held a a1 u sched i :
  chain_at h held a -> fair sched -> input_typed i -> h + 1 < 2 ^ 64 - 1 -> respond sched (h + 1) i a = (Ok u, a1) ->
  exists e, epoch_by_height (clock (staking (world a1))) !! (h + 2) = Some e
    /\ (start_height e <= h + 1 \/ start_height e = h + 2
       /\ exists p, stake_params (staking (world a1)) = Some p /\ strongest_active (Z.to_nat (active_validator_limit p)) (staking (world a1))).
Proof.
  intros Hc Hf Hi Hh Hrun. destruct (respond_over held h sched i Hh Hf Hi _ _ _ (chain_ready h held a Hc) Hrun) as [(e & held' & He & _ & Hcase) _].
  replace (h + 2) with (h + 1 + 1) by lia. exists e. split; [done|]. destruct Hcase as [[Hs _]|(Hs & E & _)]; [left; lia|right]. split; [lia|exact E].
Qed.

(** (C33) The updates in the responses keep the set that CometBFT holds: they never repeat a key, give
    only powers in range and remove only keys that are held; no update is sent while an epoch goes
    on; and at genesis and when a new epoch begins the set they lead to is exactly that of the active
    validators with power, by their consensus keys.  CometBFT accepts them if and only if nothing
    changes, or that set is not empty and its total power is within CometBFT's bound, which staking
    checks of each validator alone. *)
Theorem cometbft_follows_the_active_validators sched :
  fair sched ->
  (forall c a u, content_ok c -> init_chain sched (Some c) empty_app = (Ok u, a) ->
     let updates := cometbft_validator_updates a in
     proper updates ∅ /\ follows (staking (world a)) (merged updates ∅)
     /\ comet_apply updates ∅
        = if decide (updates = [] \/ electable (merged updates ∅)) then Some (merged updates ∅) else None)
  /\ (forall h held a a1 u i, chain_at h held a -> input_typed i -> h + 1 < 2 ^ 64 - 1 -> respond sched (h + 1) i a = (Ok u, a1) ->
     let updates := cometbft_validator_updates a1 in
     proper updates held
     /\ comet_apply updates held
        = (if decide (updates = [] \/ electable (merged updates held)) then Some (merged updates held) else None)
     /\ exists e, epoch_by_height (clock (staking (world a1))) !! (h + 2) = Some e
       /\ (start_height e <= h + 1 /\ updates = []
           \/ start_height e = h + 2 /\ follows (staking (world a1)) (merged updates held))).
Proof.
  intros Hf. split.
  - intros c a [] Hc Hrun updates. destruct (init_chain_settled sched c a Hf Hc Hrun) as [(held' & (_ & _ & P & -> & _) & F) _].
    split; [exact P|]. split; [exact F|]. by apply comet_apply_proper.
  - intros h held a a1 u i Hc Hi Hh Hrun updates.
    destruct (respond_over held h sched i Hh Hf Hi _ _ _ (chain_ready h held a Hc) Hrun) as [(e & held' & He & (_ & _ & P & Hm & _) & Hcase) _].
    replace (h + 2) with (h + 1 + 1) by lia. split; [exact P|]. split; [by apply comet_apply_proper|]. exists e. split; [exact He|].
    destruct Hcase as [[Hs U]|(Hs & _ & F)]; [left|right]; (split; [lia|]); [|by rewrite Hm in F].
    unfold updates, cometbft_validator_updates. by rewrite U.
Qed.
End Chain.

From S2P Require Import Devnet.

(** ** A chain with room for one validator *)

#[global] Instance dev_typed_json : TypedJson.
Proof. split; intros t p Hp; discriminate Hp. Qed.
#[global] Instance dev_typed : TypedEnv.
Proof. intros t. constructor. Qed.

Lemma in_order_fair : fair in_order.
Proof. intros l. reflexivity. Qed.
Lemma backwards_fair : fair (@rev identity_key).
Proof. intros l. symmetry. apply Permutation_rev. Qed.

(** There is room for one active validator, and a delegation in the first block makes the second validator the strongest. *)
Definition contested_content : Content :=
  mkContent "devnet" (content_sct dev_content) (content_shielded_pool dev_content) (content_allocations dev_content)
    (content_distributions dev_content) (mkStakeParams 4 1 1000 10 10 5 1000000) (content_validators dev_content) (content_ibc dev_content)
    (content_dex dev_content) (content_community_pool dev_content) (content_governance dev_content) (content_fee dev_content) (content_funding dev_content).
Definition dev_delegation : Action := ActionDelegate (mkDelegate 2 0 15000000 15000000).

Abbreviation contested_response := (init_chain in_order (Some contested_content) empty_app).2.
Abbreviation contested_genesis := (commit contested_response).2.
Abbreviation delegation_response := (respond in_order 1 (dev_input [[dev_delegation]]) contested_genesis).2.
Abbreviation delegated_block := (commit delegation_response).2.

Lemma contested_content_ok : content_ok contested_content.
Proof.
  split; cbn; [by_computation|lia| | |].
  - repeat constructor; cbn; by_computation.
  - apply (bool_decide_unpack _). by vm_compute.
  - repeat constructor; cbn; by_computation.
Qed.
Lemma contested_init_run : init_chain in_order (Some contested_content) empty_app = (Ok tt, contested_response).
Proof.
  assert (Hr : (init_chain in_order (Some contested_content) empty_app).1 = Ok tt) by (vm_compute; reflexivity).
  rewrite <- Hr. apply surjective_pairing.
Qed.
Definition genesis_set : gmap consensus_key Z := {[21 := 30000000; 22 := 20000000]}.
Lemma contested_on_chain : chain_at 0 genesis_set contested_genesis.
Proof.
  eapply (chain_genesis in_order); [exact in_order_fair|exact contested_content_ok|exact contested_init_run|vm_compute; reflexivity|].
  assert (Hr : (commit contested_response).1 = Ok tt) by (vm_compute; reflexivity). rewrite <- Hr. apply surjective_pairing.
Qed.
Lemma delegation_typed : input_typed (dev_input [[dev_delegation]]).
Proof. repeat constructor. Qed.
Lemma delegation_run : respond in_order 1 (dev_input [[dev_delegation]]) contested_genesis = (Ok tt, delegation_response).
Proof.
  assert (Hr : (respond in_order 1 (dev_input [[dev_delegation]]) contested_genesis).1 = Ok tt) by (vm_compute; reflexivity).
  rewrite <- Hr. apply surjective_pairing.
Qed.
Definition elected_set : gmap consensus_key Z := {[22 := 35000000]}.
Lemma delegated_on_chain : chain_at 1 elected_set delegated_block.
Proof.
  eapply (chain_block 0 genesis_set _ _ _ in_order (dev_input [[dev_delegation]]));
    [exact contested_on_chain|exact in_order_fair|exact delegation_typed|lia|exact delegation_run|vm_compute; reflexivity|].
  assert (Hr : (commit delegation_response).1 = Ok tt) by (vm_compute; reflexivity). rewrite <- Hr. apply surjective_pairing.
Qed.

Lemma validators_are_well_formed_witness :
  chain_at 1 elected_set delegated_block /\ states (staking (world delegated_block)) !! 1 = Some ValidatorState.Inactive
  /\ well_formed 1 (fun _ => 1) (staking (world delegated_block)).
Proof.
  split; [exact delegated_on_chain|]. split; [vm_compute; reflexivity|].
  exact (proj1 (validators_are_well_formed 1 elected_set delegated_block delegated_on_chain)).
Defined.

Abbreviation second_height := (bind (apply_scheduled_change 2) (fun _ => on_staking (on_clock (Sct.begin_block 2))) delegated_block).2.

Lemma votes_are_counted_in_any_order_witness :
  exists final, exists s', Staking.begin_block [mkMisbehavior 22 35000000 1] [(21, true)] (@rev _) (staking (world second_height)) = (Ok tt, s')
    /\ same_but_events final s'.
Proof.
  assert (Hr : (bind (apply_scheduled_change 2) (fun _ => on_staking (on_clock (Sct.begin_block 2))) delegated_block).1 = Ok tt) by (vm_compute; reflexivity).
  destruct (votes_are_counted_in_any_order 1 elected_set delegated_block second_height tt [mkMisbehavior 22 35000000 1] [(21, true)] delegated_on_chain
    ltac:(lia) ltac:(cbv beta; rewrite <- Hr; apply surjective_pairing)) as [final Hall].
  exists final. exact (Hall _ backwards_fair).
Defined.

Lemma epochs_elect_the_strongest_witness :
  states (staking (world contested_genesis)) !! 1 = Some ValidatorState.Active
  /\ states (staking (world delegation_response)) !! 1 = Some ValidatorState.Inactive
  /\ states (staking (world delegation_response)) !! 2 = Some ValidatorState.Active
  /\ exists e, epoch_by_height (clock (staking (world delegation_response))) !! 2 = Some e
    /\ (start_height e <= 1 \/ start_height e = 2
       /\ exists p, stake_params (staking (world delegation_response)) = Some p
          /\ strongest_active (Z.to_nat (active_validator_limit p)) (staking (world delegation_response))).
Proof.
  split_and!; [vm_compute; reflexivity..|].
  exact (epochs_elect_the_strongest 0 genesis_set contested_genesis delegation_response tt in_order (dev_input [[dev_delegation]])
    contested_on_chain in_order_fair delegation_typed ltac:(lia) delegation_run).
Defined.

(** The bound is on the total: a genesis with two validators of the largest power that staking allows
    is built without an error, and CometBFT refuses it. *)
Definition heavy_content : Content :=
  mkContent "devnet" (content_sct dev_content) (content_shielded_pool dev_content)
    [mkValue MAX_VOTING_POWER 1001; mkValue MAX_VOTING_POWER 1002; mkValue 1000 0]
    (content_distributions dev_content) (content_stake dev_content) (content_validators dev_content) (content_ibc dev_content)
    (content_dex dev_content) (content_community_pool dev_content) (content_governance dev_content) (content_fee dev_content) (content_funding dev_content).
Abbreviation heavy_response := (init_chain in_order (Some heavy_content) empty_app).2.

Example the_total_power_is_not_bounded :
  init_chain in_order (Some heavy_content) empty_app = (Ok tt, heavy_response)
  /\ cometbft_validator_updates heavy_response = [(21, MAX_VOTING_POWER); (22, MAX_VOTING_POWER)]
  /\ comet_apply (cometbft_validator_updates heavy_response) ∅ = None.
Proof.
  split; [|split; vm_compute; reflexivity].
  assert (Hr : (init_chain in_order (Some heavy_content) empty_app).1 = Ok tt) by (vm_compute; reflexivity).
  rewrite <- Hr. apply surjective_pairing.
Qed.

Lemma cometbft_follows_the_active_validators_witness :
  cometbft_validator_updates delegation_response = [(21, 0); (22, 35000000)]
  /\ comet_apply (cometbft_validator_updates delegation_response) genesis_set = Some elected_set
  /\ exists e, epoch_by_height (clock (staking (world delegation_response))) !! 2 = Some e
    /\ (start_height e <= 1 /\ cometbft_validator_updates delegation_response = []
        \/ start_height e = 2 /\ follows (staking (world delegation_response)) (merged (cometbft_validator_updates delegation_response) genesis_set)).
Proof.
  split; [vm_compute; reflexivity|]. split; [vm_compute; reflexivity|].
  exact (proj2 (proj2 (proj2 (cometbft_follows_the_active_validators in_order in_order_fair) 0 genesis_set contested_genesis delegation_response tt
    (dev_input [[dev_delegation]]) contested_on_chain delegation_typed ltac:(lia) delegation_run))).
Defined.
