(* ===== verification/GovernanceTheorems.v ===== *)
(** * Theorems about governance

    What holds of proposals along a chain, what their tallies count, and where the code departs from
    what its comments say. *)

From S2P Require Import Prelude.
From S2P Require Import Num.
From S2P Require Import Asset.
From S2P Require Import Clock.
From S2P Require Import Validator.
From S2P Require Import Rate.
From S2P Require Import Stake.
From S2P Require Import Tally.
From S2P Require Import Governance.
From S2P Require Import AppParams.
From S2P Require Import Chain.
From S2P Require Import Devnet.
From S2P Require Import GovernanceFacts.
From S2P Require Import GovernanceMachine.
From S2P Require Import ChainGovernance.
Import GovernanceRead.
Import GovernanceWrite.
Import GovernanceActions.

(** ** The small chain *)

(** A block of the small chain that runs. *)
Lemma after_step height actions a0 a :
  (Block.run in_order height (dev_input actions) a).1 = Ok tt -> chain_steps a0 a -> chain_steps a0 (after height actions a).
Proof. intros Hr Hs. eapply another_block; [exact Hs|]. rewrite <- Hr. apply surjective_pairing. Qed.

Abbreviation voted_block :=
  (after 2 [[dev_vote 1 Vote.No]; [dev_delegator_vote 2 Vote.Yes 100 7; dev_delegator_vote 2 Vote.Yes 500 8]] submitted_block).
Abbreviation decided_block := (after 3 [] voted_block).

Lemma genesis_run : bind (Block.init_chain in_order (Some dev_content)) (fun _ => Block.commit) empty_app = (Ok tt, dev_genesis).
Proof.
  assert (Hr : (bind (Block.init_chain in_order (Some dev_content)) (fun _ => Block.commit) empty_app).1 = Ok tt) by (vm_compute; reflexivity).
  rewrite <- Hr. apply surjective_pairing.
Qed.
Lemma submitted_steps : chain_steps dev_genesis submitted_block.
Proof. apply after_step; [vm_compute; reflexivity|constructor]. Qed.
Lemma voted_steps : chain_steps submitted_block voted_block.
Proof. apply after_step; [vm_compute; reflexivity|constructor]. Qed.
Lemma decided_steps : chain_steps voted_block decided_block.
Proof. apply after_step; [vm_compute; reflexivity|constructor]. Qed.

Lemma chain_steps_trans `{ChainEnv} a1 a2 a3 : chain_steps a1 a2 -> chain_steps a2 a3 -> chain_steps a1 a3.
Proof.
  intros H12 H23. revert H12. induction H23; intros H12; [done|eapply another_block; [by apply IHchain_steps|done]|by apply other_writes, IHchain_steps].
Qed.

Lemma on_chain_steps `{ChainEnv} a a' : on_chain a -> chain_steps a a' -> on_chain a'.
Proof. intros (sched & c & a0 & H0 & Hs) Hs'. exists sched, c, a0. split; [done|by eapply chain_steps_trans]. Qed.

Lemma submitted_on_chain : on_chain submitted_block.
Proof. exists in_order, dev_content, dev_genesis. split; [exact genesis_run|exact submitted_steps]. Qed.
Lemma voted_on_chain : on_chain voted_block.
Proof. eapply on_chain_steps; [exact submitted_on_chain|exact voted_steps]. Qed.
Lemma decided_on_chain : on_chain decided_block.
Proof. eapply on_chain_steps; [exact voted_on_chain|exact decided_steps]. Qed.

(** ** Proposals *)

(** (C34) Along a chain, whatever its blocks hold: every proposal with a state has an id that was handed
    out, and its definition, deposit and voting period; its state can be read back; the unfinished
    proposals are exactly those still voting or withdrawn; and votes are only stored for validators
    whose power and rate at the start of the proposal are known. *)
Theorem proposals_are_well_formed `{ChainEnv} a : on_chain a -> governance_ok (governance (world a)).
Proof. apply on_chain_ok. Qed.

Lemma proposals_are_well_formed_witness :
  on_chain decided_block /\ elements (unfinished (governance (world submitted_block))) = [0]
  /\ elements (unfinished (governance (world decided_block))) = [] /\ governance_ok (governance (world decided_block)).
Proof.
  split; [exact decided_on_chain|]. split; [vm_compute; reflexivity|]. split; [vm_compute; reflexivity|].
  exact (proposals_are_well_formed decided_block decided_on_chain).
Defined.

Lemma finished_stays o x : evolves (Some (ProposalState.pb_of_state (ProposalState.Finished o))) x ->
  x = Some (ProposalState.pb_of_state (ProposalState.Finished o)).
Proof. intros Hm. inversion Hm as [|? y ? Hy]; [done|]. inversion Hy. Qed.

Lemma withdrawn_stays reason x : evolves (Some (ProposalState.pb_of_state (ProposalState.Withdrawn reason))) x ->
  x = Some (ProposalState.pb_of_state (ProposalState.Withdrawn reason))
  \/ x = Some (ProposalState.pb_of_state (ProposalState.Finished (ProposalOutcome.Failed (Withdrawal.WithReason reason)))).
Proof.
  intros Hm. inversion Hm as [|? y ? Hy Hrest]; [by left|]. right. inversion Hy; subst. by apply finished_stays.
Qed.

(** (C35) Proposals only move forward: an outcome is final, and a withdrawn proposal can only fail, for
    the reason it was withdrawn. *)
Theorem outcomes_are_final `{ChainEnv} a a' p :
  on_chain a -> chain_steps a a' ->
  (forall o, in_state (governance (world a)) p (ProposalState.Finished o) -> in_state (governance (world a')) p (ProposalState.Finished o))
  /\ (forall reason, in_state (governance (world a)) p (ProposalState.Withdrawn reason) ->
        in_state (governance (world a')) p (ProposalState.Withdrawn reason)
        \/ in_state (governance (world a')) p (ProposalState.Finished (ProposalOutcome.Failed (Withdrawal.WithReason reason)))).
Proof.
  intros Hc Hs. apply on_chain_ok in Hc. apply chain_steps_sound in Hs as [_ Hm]; [|done]. specialize (Hm p).
  unfold in_state. split; intros x Hx; rewrite Hx in Hm; [by apply finished_stays|by apply withdrawn_stays].
Qed.

Lemma outcomes_are_final_witness :
  let slashed := ProposalState.Finished (ProposalOutcome.Slashed Withdrawal.No) in
  let next := after 4 [[dev_claim (ProposalOutcome.Slashed Withdrawal.No)]; [dev_vote 2 Vote.Yes]] decided_block in
  on_chain decided_block /\ chain_steps decided_block next
  /\ in_state (governance (world decided_block)) 0 slashed /\ in_state (governance (world next)) 0 slashed.
Proof.
  intros slashed next. split; [exact decided_on_chain|].
  assert (Hs : chain_steps decided_block next) by (apply after_step; [vm_compute; reflexivity|constructor]).
  assert (Hi : in_state (governance (world decided_block)) 0 slashed) by (vm_compute; reflexivity).
  split; [exact Hs|]. split; [exact Hi|]. exact (proj1 (outcomes_are_final decided_block next 0 decided_on_chain Hs) _ Hi).
Defined.

(** *** Enacting *)

(** What enacting a proposal can change. *)
Definition same_effects (w w' : World) : Prop :=
  halt_bit (governance w') = halt_bit (governance w) /\ next_upgrade (governance w') = next_upgrade (governance w)
  /\ param_changes (governance w') = param_changes (governance w) /\ deliveries (governance w') = deliveries (governance w)
  /\ ibc_clients w' = ibc_clients w.

Section Effects.
Context `{GovernanceEnv}.

Lemma tally_effects just w u w' : tally_delegator_votes just w = (Ok u, w') -> same_effects w w'.
Proof.
  unfold tally_delegator_votes. intros Hrun. apply bind_ok in Hrun as (votes & w1 & H1 & Hrun). apply reads_ok in H1 as [_ ->].
  apply bind_ok in Hrun as (new & w1 & H1 & Hrun). apply sweep_votes_run in H1 as [-> _]. by inv_gov.
Qed.

Lemma put_state_effects p st w : same_effects w (set_governance (put_state p st (governance w)) w).
Proof. by destruct st. Qed.

Lemma same_effects_trans w1 w2 w3 : same_effects w1 w2 -> same_effects w2 w3 -> same_effects w1 w3.
Proof. intros (?&?&?&?&?) (?&?&?&?&?). unfold same_effects. split_and!; congruence. Qed.

Lemma put_state_in p st w : in_state (put_state p st (governance w)) p st.
Proof. unfold in_state, stored, put_state. destruct st; apply lookup_insert_eq. Qed.

Lemma conclude_inv p w o w' : Governance.conclude_voting p w = (Ok o, w') ->
  exists t power params res, current_tally p w = (Ok t, w) /\ total_voting_power_at_proposal_start p w = (Ok power, w)
    /\ governance_params (governance w) = Some params /\ Tally.outcome_of t power params = (Ok res : anyhow _)
    /\ o = ProposalOutcome.of_tally res /\ (res <> Tally.Pass -> same_effects w w').
Proof.
  intros Hrun. unfold Governance.conclude_voting in Hrun.
  apply bind_ok in Hrun as (t & w1 & H1 & Hrun). pose proof (current_tally_reads _ _ _ _ H1) as ->.
  apply bind_ok in Hrun as (power & w1 & H2 & Hrun). pose proof (total_power_reads _ _ _ _ H2) as ->.
  apply bind_ok in Hrun as (params & w1 & H3 & Hrun). apply asking_ok in H3 as [H3 ->]. apply ok_or_ok in H3.
  apply bind_ok in Hrun as (res & w1 & H4 & Hrun). apply lift_ok in H4 as [H4 ->].
  apply bind_ok in Hrun as (u & w1 & H5 & Hrun). apply ret_ok in Hrun as [-> ->].
  exists t, power, params, res. split_and!; [done..|]. intros Hres. unfold Governance.record_outcome in H5. destruct res; [done|by inv_gov..].
Qed.
End Effects.

(** Only a proposal that is still voting when its period ends and that passes by its tally takes
    effect: concluding any other proposal leaves the halt bit, the planned upgrade, the scheduled
    parameter changes and deliveries, and the IBC clients as they are. *)
Theorem only_passed_proposals_take_effect `{GovernanceEnv} p w w' :
  governance_ok (governance w) -> Governance.enact_passed_proposal p w = (Ok tt, w') ->
  same_effects w w'
  \/ exists w1 t power params, in_state (governance w) p ProposalState.Voting /\ in_state (governance w') p (ProposalState.Finished ProposalOutcome.Passed)
       /\ tally_delegator_votes (Some p) w = (Ok tt, w1) /\ current_tally p w1 = (Ok t, w1)
       /\ total_voting_power_at_proposal_start p w1 = (Ok power, w1) /\ governance_params (governance w1) = Some params
       /\ Tally.outcome_of t power params = (Ok Tally.Pass : anyhow _).
Proof.
  intros O Hrun. unfold Governance.enact_passed_proposal in Hrun.
  apply bind_ok in Hrun as (height & w1 & H1 & Hrun). apply (proj1 (expecting_ok _ _ _ _)) in H1. apply asking_ok in H1 as [_ ->].
  apply bind_ok in Hrun as (vend & w1 & H1 & Hrun). apply asking_ok in H1 as [_ ->].
  destruct (height <? vend); [apply ret_ok in Hrun as [_ ->]; by left|].
  apply bind_ok in Hrun as ([] & w1 & H1 & Hrun). pose proof (tally_effects _ _ _ _ H1) as E1.
  pose proof (tally_sound _ _ _ _ O H1) as [[O1 _] Hs].
  apply bind_ok in Hrun as (st & w2 & H2 & Hrun). assert (w2 = w1) as -> by (by apply asking_ok in H2 as [_ ->]).
  apply bind_ok in Hrun as (cur & w2 & H3 & Hrun). apply lift_ok in H3 as [Hst ->]. destruct st as [st|]; [|done]. injection Hst as ->.
  apply (proposal_state_inv _ _ _ _ O1) in H2. apply bind_ok in Hrun as (o & w2 & H3 & Hrun). apply put_proposal_state_inv in Hrun as ->.
  assert (Hleft : same_effects w1 w2 -> same_effects w (set_governance (put_state p (ProposalState.Finished o) (governance w2)) w2)).
  { intros E. eapply same_effects_trans; [exact E1|]. eapply same_effects_trans; [exact E|apply put_state_effects]. }
  destruct cur as [|reason|o'|o']; [|apply ret_ok in H3 as [-> ->]; left; by apply Hleft|by inv_gov..].
  apply conclude_inv in H3 as (t & power & params & res & Ht & Hp & Hps & Hres & -> & He).
  destruct res; [|left; by apply Hleft, He..].
  right. exists w1, t, power, params. split_and!; [|apply put_state_in|done..]. unfold in_state, stored in *. by rewrite Hs in H2.
Qed.

(** A planned upgrade, voted for and about to be concluded. *)
Abbreviation upgrade_block :=
  (after 2 [[dev_vote 1 Vote.Yes]]
    (after 1 [[ActionProposalSubmit (mkSubmit (dev_proposal (ProposalPayload.UpgradePlan 100)) 10000000)]] dev_genesis)).
Abbreviation closing_world := (world (on_staking (on_clock (Sct.begin_block 3)) upgrade_block).2).

Lemma closing_ok : governance_ok (governance closing_world).
Proof.
  erewrite on_staking_governance by apply surjective_pairing. apply on_chain_ok. exists in_order, dev_content, dev_genesis.
  split; [exact genesis_run|]. apply after_step; [vm_compute; reflexivity|]. apply after_step; [vm_compute; reflexivity|constructor].
Qed.

Lemma only_passed_proposals_take_effect_witness :
  let w := closing_world in let w' := (Governance.enact_passed_proposal 0 w).2 in
  next_upgrade (governance w') = Some 100
  /\ (same_effects w w'
      \/ exists w1 t power params, in_state (governance w) 0 ProposalState.Voting /\ in_state (governance w') 0 (ProposalState.Finished ProposalOutcome.Passed)
           /\ tally_delegator_votes (Some 0) w = (Ok tt, w1) /\ current_tally 0 w1 = (Ok t, w1)
           /\ total_voting_power_at_proposal_start 0 w1 = (Ok power, w1) /\ governance_params (governance w1) = Some params
           /\ Tally.outcome_of t power params = (Ok Tally.Pass : anyhow _)).
Proof.
  intros w w'. split; [vm_compute; reflexivity|]. apply (only_passed_proposals_take_effect 0 w w' closing_ok).
  assert (Hr : (Governance.enact_passed_proposal 0 w).1 = Ok tt) by (vm_compute; reflexivity). rewrite <- Hr. apply surjective_pairing.
Defined.

(** *** Tallies *)

Lemma counted_weight votes delegators v : delegators_ok delegators ->
  let used := weight (default Tally.zero (delegators !! v.1)) in
  weight (counted votes delegators v) = match votes !! v.1 with Some _ => Z.max v.2 used | None => used end.
Proof.
  intros Hd used. unfold counted. pose proof (used_ok _ v.1 Hd) as Hu. fold used in Hu. destruct (votes !! v.1) as [vote|].
  - destruct (of_vote_ok vote (saturating_sub v.2 used)) as [Ho Hw]; [unfold saturating_sub; lia|].
    fold used. destruct (plus_ok _ _ Ho Hu) as [_ ->]. rewrite Hw. fold used. unfold saturating_sub. lia.
  - destruct (plus_ok Tally.zero _ ltac:(unfold tally_ok; cbn; lia) Hu) as [_ ->]. done.
Qed.

(** (C36) The tally of a proposal on the chain: when the votes fit in 64 bits, it is defined, none of its
    assertions fails, and every validator that was active at the start counts once, with the swept votes
    of its delegators, and, if it voted, with the rest of its power for its own vote. *)
Theorem tallies_count_every_validator_once `{ChainEnv} a p :
  let s := governance (world a) in
  let powers := btree_items (validator_voting_power_at_proposal_start p s) in
  let votes := for_proposal p (validator_votes s) in
  let delegators := for_proposal p (tallied_votes s) in
  on_chain a -> weight (sum_tallies (counted votes delegators <$> powers)) < 2 ^ 64 ->
  current_tally p (world a) = (Ok (sum_tallies (counted votes delegators <$> powers)), world a)
  /\ forall i power, powers_at_start s !! (p, i) = Some power -> 0 <= power < 2 ^ 64 ->
       (i, power) ∈ powers
       /\ weight (counted votes delegators (i, power))
          = match validator_votes s !! (p, i) with
            | Some _ => Z.max power (weight (default Tally.zero (tallied_votes s !! (p, i))))
            | None => weight (default Tally.zero (tallied_votes s !! (p, i)))
            end.
Proof.
  intros s powers votes delegators Hc Hw. pose proof (on_chain_ok _ Hc) as O. fold s in O.
  assert (Hd : delegators_ok delegators).
  { intros i t Ht. unfold delegators in Ht. rewrite for_proposal_lookup in Ht. exact (map_Forall_lookup_1 _ _ _ _ (proj1 (ok_tallies _ O)) Ht). }
  assert (Hk : forall i power, powers_at_start s !! (p, i) = Some power -> (i, as_u64 power) ∈ powers).
  { intros i power Hi. apply elem_of_btree_items. unfold validator_voting_power_at_proposal_start. by rewrite lookup_fmap, for_proposal_lookup, Hi. }
  assert (Hin : forall i, is_Some (powers_at_start s !! (p, i)) -> i ∈ powers.*1).
  { intros i [power Hi]. apply Hk in Hi. apply list_elem_of_fmap. by exists (i, as_u64 power). }
  split.
  - unfold current_tally, bind, reads, gets, lift. fold s powers votes delegators.
    enough (E : tally_loop powers votes delegators Tally.zero = Ok (plus Tally.zero (sum_tallies (counted votes delegators <$> powers)))).
    { rewrite E. by destruct (sum_tallies _). }
    apply tally_loop_run; [apply btree_items_NoDup| | |done|unfold tally_ok; cbn; lia|exact Hw].
    + intros i Hi. apply Hin, (ok_votes _ O). unfold votes in Hi. by rewrite for_proposal_lookup in Hi.
    + intros i Hi. apply Hin, (ok_tallied _ O). unfold delegators in Hi. by rewrite for_proposal_lookup in Hi.
  - intros i power Hi Hp. split; [apply Hk in Hi; unfold as_u64 in Hi; by rewrite Z.mod_small in Hi|].
    rewrite counted_weight by done. unfold votes, delegators. cbn [fst snd]. by rewrite !for_proposal_lookup.
Qed.

Lemma tallies_count_every_validator_once_witness :
  let s := governance (world decided_block) in
  current_tally 0 (world decided_block)
    = (Ok (sum_tallies (counted (for_proposal 0 (validator_votes s)) (for_proposal 0 (tallied_votes s))
                        <$> btree_items (validator_voting_power_at_proposal_start 0 s))), world decided_block)
  /\ (current_tally 0 (world decided_block)).1 = Ok (Tally.mk 500 30000000 0).
Proof.
  intros s. split; [|vm_compute; reflexivity].
  apply (tallies_count_every_validator_once decided_block 0 decided_on_chain). vm_compute. reflexivity.
Defined.

(** *** Where the code departs from its comments *)

Lemma yes_beats_threshold y n d : 0 <= y -> 0 <= n < d ->
  Ratio.gt (Ratio.new y 1) (Ratio.new n d) = (0 <? y).
Proof.
  intros Hy Hn. unfold Ratio.gt, Ratio.cmp. cbn [Ratio.numerator Ratio.denominator].
  destruct (Z.compare_spec (y * d) (1 * n)); destruct (Z.ltb_spec 0 y); done || (exfalso; nia).
Qed.

(** (C37) The pass threshold plays no role: whenever there is a quorum and the proposal is not slashed, it
    passes as soon as there is any vote for it, however many are against.  The share of yes votes is
    computed over the minimum of the votes cast and one. *)
Theorem pass_threshold_is_ignored t power params :
  tally_ok t -> weight t < 2 ^ 64 ->
  0 <= Ratio.numerator (proposal_pass_threshold params) < Ratio.denominator (proposal_pass_threshold params) ->
  @Tally.outcome_of string t power params
  = Ok (if negb (Ratio.ge (Ratio.new (weight t) power) (proposal_valid_quorum params)) then Tally.Fail
        else if Ratio.gt (Ratio.new (Tally.no t) (weight t)) (proposal_slash_threshold params) then Tally.Slash
        else if 0 <? Tally.yes t then Tally.Pass else Tally.Fail).
Proof.
  intros (Hy & Hn & Ha) Hw Hp. unfold weight in *. unfold Tally.outcome_of, Tally.meets_quorum, Tally.slashed, Tally.yes_ratio.
  rewrite total_run by lia. cbn [outcome_bind]. destruct (negb _); [done|]. destruct (Ratio.gt (Ratio.new (Tally.no t) _) _); [done|].
  rewrite plain_add_run by lia. cbn [outcome_bind]. destruct (proposal_pass_threshold params) as [n d]. cbn in Hp.
  destruct (Z.eq_dec (Tally.yes t + Tally.no t) 0) as [E|E].
  - rewrite E. assert (Tally.yes t = 0) as -> by lia. unfold Ratio.gt, Ratio.cmp. cbn. by destruct n.
  - rewrite Z.min_r by lia. rewrite yes_beats_threshold by done. by destruct (0 <? Tally.yes t).
Qed.

(** A quarter of the votes passes a proposal that needs half of them. *)
Lemma pass_threshold_is_ignored_witness :
  let params := mkGovernanceParams 2 10000000 (Ratio.new 2 5) (Ratio.new 1 2) (Ratio.new 4 5) in
  @Tally.outcome_of string (Tally.mk 1 3 0) 4 params = Ok Tally.Pass.
Proof. intros params. rewrite pass_threshold_is_ignored; [reflexivity|by_computation..]. Defined.

(** (C38) A sweep loses votes: of all pending votes of delegators of one validator on one proposal, only
    the one whose key comes last is added to the stored tally, although every one of them is removed
    from the pending votes. *)
Theorem sweeps_count_one_vote_per_validator `{GovernanceEnv} just w w' :
  tally_delegator_votes just w = (Ok tt, w') ->
  let pending := pending_votes just (governance w) in
  (forall k, tallied_votes (governance w') !! k
             = match last_vote k pending with
               | Some vote => Some (plus (default Tally.zero (tallied_votes (governance w) !! k)) vote)
               | None => tallied_votes (governance w) !! k
               end)
  /\ forall k vote, (k, vote) ∈ pending -> untallied_votes (governance w') !! k = None.
Proof.
  intros Hrun pending. unfold tally_delegator_votes in Hrun. apply bind_ok in Hrun as (votes & w1 & H1 & Hrun). apply reads_ok in H1 as [-> ->].
  fold pending in Hrun. apply bind_ok in Hrun as (new & w1 & H1 & Hrun). apply sweep_votes_run in H1 as [-> Hnew].
  apply bind_ok in Hrun as (u1 & w1 & H1 & Hrun). apply writes_ok in H1 as [_ ->]. apply writes_ok in Hrun as [_ ->].
  cbn [governance set_governance tallied_votes untallied_votes set_tallied_votes set_untallied_votes]. split.
  - intros k. specialize (Hnew k). destruct (last_vote k pending) as [vote|].
    + destruct Hnew as (sum & Hadd & Hk). erewrite lookup_union_Some_l by exact Hk. f_equal. unfold Tally.add in Hadd. inv_outcome.
      repeat match goal with Hp : plain_add _ _ _ = Ok _ |- _ => apply plain_add_ok in Hp as [-> _] end. done.
    + rewrite lookup_empty in Hnew. by rewrite lookup_union_r.
  - clear. assert (Hkeep : forall l (m : gmap vote_key Tally.t) k, m !! k = None ->
      foldl (fun m (vote : vote_key * Tally.t) => delete vote.1 m) m l !! k = None).
    { induction l as [|v l IH]; intros m k Hm; [done|]. apply IH. by apply lookup_delete_None; right. }
    intros k vote Hin. generalize (untallied_votes (governance w)). induction pending as [|v l IH]; intros m; [by apply elem_of_nil in Hin|].
    cbn [foldl]. apply elem_of_cons in Hin as [<-|Hin]; [apply Hkeep, lookup_delete_eq|by apply IH].
Qed.

(** Of votes of 100 and 500 for one validator, 500 are counted. *)
Lemma sweeps_count_one_vote_per_validator_witness :
  let w := world voted_block in let w' := (tally_delegator_votes None w).2 in
  snd <$> pending_votes None (governance w) = [Tally.mk 100 0 0; Tally.mk 500 0 0]
  /\ tallied_votes (governance w') !! (0, 2) = Some (Tally.mk 500 0 0)
  /\ forall k vote, (k, vote) ∈ pending_votes None (governance w) -> untallied_votes (governance w') !! k = None.
Proof.
  intros w w'. split; [vm_compute; reflexivity|].
  assert (Hr : (tally_delegator_votes None w).1 = Ok tt) by (vm_compute; reflexivity).
  destruct (sweeps_count_one_vote_per_validator None w w') as [Hk Hall]; [rewrite <- Hr; apply surjective_pairing|].
  split; [rewrite Hk; vm_compute; reflexivity|exact Hall].
Defined.

Section Claims.
Context `{GovernanceEnv}.

(** The world after a claim. *)
Definition claimed (c : ProposalDepositClaim) (o : ProposalOutcome.t string) (w : World) : World :=
  let s := staking w in
  let w := set_staking (set_denoms ({[ proposal_nft (claimed_nft o) (claim_proposal c) ]} ∪ denoms s) s) w in
  let w := set_governance (put_state (claim_proposal c) (ProposalState.Finished o) (governance w)) w in
  set_governance (record_governance_event (EventProposalDepositClaim c) (governance w)) w.

Record claimable (c : ProposalDepositClaim) (o : ProposalOutcome.t string) (w : World) : Prop := {
  claim_state : get_proposal_state (claim_proposal c) w = (Ok (Some (ProposalState.Finished o)), w);
  claim_deposit : deposit_amounts (governance w) !! claim_proposal c = Some (claim_deposit_amount c);
  claim_names : claim_outcome c = ProposalOutcome.map (fun _ => tt) o;
}.

Lemma claim_run c o w : claimable c o w -> deposit_claim_check_and_execute c w = (Ok tt, claimed c o w).
Proof.
  intros [Hs Hd Ho]. unfold deposit_claim_check_and_execute.
  assert (H1 : check_proposal_claimable (claim_proposal c) w = (Ok tt, w)).
  { unfold check_proposal_claimable. by rewrite (bind_run_ok _ _ _ _ _ Hs). }
  assert (H2 : check_proposal_claim_valid_deposit (claim_proposal c) (claim_deposit_amount c) w = (Ok tt, w)).
  { unfold check_proposal_claim_valid_deposit, get_deposit_amount, bind, reads, gets. by rewrite Hd, Z.eqb_refl. }
  rewrite (bind_run_ok _ _ _ _ _ H1), (bind_run_ok _ _ _ _ _ H2), (bind_run_ok _ _ _ _ _ Hs).
  by rewrite bool_decide_eq_true_2 by done.
Qed.

Lemma claim_inv c w w' : deposit_claim_check_and_execute c w = (Ok tt, w') -> exists o, claimable c o w /\ w' = claimed c o w.
Proof.
  intros Hrun. pose proof Hrun as Hall. unfold deposit_claim_check_and_execute, check_proposal_claim_valid_deposit in Hrun.
  apply bind_ok in Hrun as (u1 & w1 & H1 & Hrun). assert (w1 = w); [|subst w1].
  { unfold check_proposal_claimable in H1. apply bind_ok in H1 as (st & w2 & H2 & H1). apply asking_ok in H2 as [_ ->].
    destruct st as [[]|]; by inv_gov. }
  apply bind_ok in Hrun as (u2 & w1 & H2 & Hrun). apply bind_ok in H2 as (d & w2 & H3 & H2). apply reads_ok in H3 as [Hd ->].
  destruct d as [d|]; [|by inv_gov]. apply ensure_ok in H2 as [Hd' ->]. apply Z.eqb_eq in Hd'. subst d.
  apply bind_ok in Hrun as (st & w1 & H3 & Hrun). assert (w1 = w) as -> by (by apply asking_ok in H3 as [_ ->]).
  destruct st as [[| |o|]|]; try by inv_gov. apply bind_ok in Hrun as (u3 & w1 & H4 & Hrun). apply ensure_ok in H4 as [Ho ->].
  apply bool_decide_eq_true in Ho. assert (C : claimable c o w) by (by split). exists o. split; [exact C|].
  rewrite (claim_run _ _ _ C) in Hall. congruence.
Qed.
End Claims.

(** (C39) A deposit can be claimed again and again: on the chain, whenever a claim succeeds, the state of
    the proposal stays what it was, and the same claim succeeds on the state it leaves, since a claimed
    proposal is stored as a finished one.  Only the token that each claim burns stands in the way. *)
Theorem claims_can_be_repeated `{ChainEnv} a c w' :
  on_chain a -> deposit_claim_check_and_execute c (world a) = (Ok tt, w') ->
  stored (governance w') (claim_proposal c) = stored (governance (world a)) (claim_proposal c)
  /\ exists w'', deposit_claim_check_and_execute c w' = (Ok tt, w'').
Proof.
  intros Hc Hrun. pose proof (on_chain_ok _ Hc) as O. apply claim_inv in Hrun as (o & C & ->). destruct C as [Hs Hd Ho].
  pose proof (proposal_state_inv _ _ _ _ O Hs) as Hin. assert (Hst : storable (ProposalState.Finished o)) by (by eapply in_state_storable).
  assert (E : proposal_states (governance (claimed c o (world a))) !! claim_proposal c = Some (ProposalState.pb_of_state (ProposalState.Finished o))).
  { apply lookup_insert_eq. }
  split; [unfold stored; rewrite E; by rewrite Hin|]. eexists. apply (claim_run _ o). split; [|exact Hd|exact Ho].
  unfold get_proposal_state, asking. rewrite E, storable_reads_back by exact Hst. done.
Qed.

Lemma claims_can_be_repeated_witness :
  let c := mkClaim 0 10000000 (ProposalOutcome.Slashed Withdrawal.No) in
  let w' := (deposit_claim_check_and_execute c (world decided_block)).2 in
  stored (governance w') 0 = stored (governance (world decided_block)) 0
  /\ exists w'', deposit_claim_check_and_execute c w' = (Ok tt, w'').
Proof.
  intros c w'. apply (claims_can_be_repeated decided_block c w' decided_on_chain).
  assert (Hr : (deposit_claim_check_and_execute c (world decided_block)).1 = Ok tt) by (vm_compute; reflexivity).
  rewrite <- Hr. apply surjective_pairing.
Defined.
