(* ===== verification/Tct.v ===== *)
(** * The tiered commitment tree: nodes and tiers

    Models crates/crypto/tct: the hashes and authentication paths (internal/hash.rs, internal/path.rs),
    and the frontier and complete parts of a tier (internal/frontier, internal/complete,
    internal/insert.rs, internal/three.rs).  The traits of internal/interface.rs are the classes
    [Focus], for what can be at the tip of a frontier together with what it completes to, and
    [Frontier], for what items can be inserted into.  A frontier caches its hash: [hash] is the value
    that a call returns and [fill] what the call leaves behind. *)

From S2P Require Import Prelude.

(** Code outside the repository: the field of hashes and the hash function poseidon377. *)
Class HashEnv := {
  Hash : Type;
  #[global] Hash_eq_dec :: EqDecision Hash;
  StateCommitment : Type;
  #[global] StateCommitment_eq_dec :: EqDecision StateCommitment;
  #[global] StateCommitment_countable :: Countable StateCommitment;
  zero : Hash;
  one : Hash;
  hash_1 : StateCommitment -> Hash;
  hash_4 : Z -> Hash -> Hash -> Hash -> Hash -> Hash;
}.

(** The debug assertions and expectations inside the tree only panic. *)
Abbreviation never := Empty_set.
Definition absurd {E A} (m : outcome never A) : outcome E A := map_err (fun e : never => match e with end) m.
Definition debug_assert {E} (b : bool) : outcome E unit := if b then Ok tt else Panic.

(** ** Directions *)

Inductive WhichWay := Leftmost | Left | Right | Rightmost.
Abbreviation quad T := (T * T * T * T)%type.

Module Path.
(** [WhichWay::at]: the direction at a node of the height, and the index in the child. *)
Definition at_height (height index : Z) : WhichWay * Z :=
  let which_way := match Z.land (Z.shiftr index (2 * (height - 1))) 3 with
                   | 0 => Leftmost | 1 => Left | 2 => Right | _ => Rightmost
                   end in
  (which_way, Z.land index (Z.lnot (Z.shiftl 3 ((height - 1) * 2)))).

Definition insert {T} (w : WhichWay) (item : T) (siblings : T * T * T) : quad T :=
  let '(a, b, c) := siblings in
  match w with
  | Leftmost => (item, a, b, c)
  | Left => (a, item, b, c)
  | Right => (a, b, item, c)
  | Rightmost => (a, b, c, item)
  end.

Definition pick {T} (w : WhichWay) (children : quad T) : T * (T * T * T) :=
  let '(a, b, c, d) := children in
  match w with
  | Leftmost => (a, (b, c, d))
  | Left => (b, (a, c, d))
  | Right => (c, (a, b, d))
  | Rightmost => (d, (a, b, c))
  end.

(** [IndexMut<WhichWay>] *)
Definition set {T} (w : WhichWay) (x : T) (children : quad T) : quad T :=
  let '(a, b, c, d) := children in
  match w with
  | Leftmost => (x, b, c, d)
  | Left => (a, x, c, d)
  | Right => (a, b, x, d)
  | Rightmost => (a, b, c, x)
  end.

Definition map {T U} (f : T -> U) (children : quad T) : quad U :=
  let '(a, b, c, d) := children in (f a, f b, f c, f d).
End Path.

(** ** Hashes *)

Module Hashing.
Section Hashing.
Context `{HashEnv}.

Definition hash_of (item : StateCommitment) : Hash := hash_1 item.

Definition hash_node (height : Z) (a b c d : Hash) : Hash := hash_4 height a b c d.

(** The hashes of the nodes over empty blocks, for the heights from 9 to 16. *)
Definition PRECOMPUTE_HEIGHTS : list Z := [9; 10; 11; 12; 13; 14; 15; 16].
Definition precompute_next (hashes : list (Hash * Hash)) (height : Z) : list (Hash * Hash) :=
  let below := match last hashes with Some p => p.2 | None => one end in
  hashes ++ [(below, hash_node height below below below below)].
Definition PRECOMPUTED_HASH_PAIRS : list (Hash * Hash) := foldl precompute_next [] PRECOMPUTE_HEIGHTS.

Definition node (height : Z) (a b c d : Hash) : Hash :=
  match (if (9 <=? height) && (height <=? 16) then PRECOMPUTED_HASH_PAIRS !! Z.to_nat (height - 9) else None) with
  | Some (input, output) => if bool_decide ((a, b, c, d) = (input, input, input, input)) then output else hash_node height a b c d
  | None => hash_node height a b c d
  end.

(** A forgotten-version has six bytes, the low one first, and the derived order compares them in that
    order. *)
Definition forgotten_of_u64 (u : Z) : Z := u mod 2 ^ 48.
Definition next {E} (forgotten : Z) : outcome E Z := let! u := plain_add 64 forgotten 1 in Ok (forgotten_of_u64 u).
Definition forgotten_cmp (a b : Z) : comparison := lex_compare (le_bytes 6 a) (le_bytes 6 b).
(** [Iterator::max], which keeps the last of equal elements. *)
Definition forgotten_max (a b : Z) : Z := match forgotten_cmp a b with Gt => a | _ => b end.
End Hashing.
End Hashing.
Import Hashing.

(** The siblings on an authentication path, from the root down. *)
Abbreviation AuthPath := (list (Hash * Hash * Hash)).

(** [Path::root]: the root to which a path leads from the leaf of an index. *)
Fixpoint path_root `{HashEnv} (height : nat) (path : AuthPath) (index : Z) (leaf : Hash) : Hash :=
  match height, path with
  | S n, siblings :: child =>
      let which_way := (Path.at_height (Z.of_nat height) index).1 in
      let '(a, b, c, d) := Path.insert which_way (path_root n child index leaf) siblings in
      node (Z.of_nat height) a b c d
  | _, _ => leaf
  end.

(** ** Items or their hashes *)

Inductive Insert `{HashEnv} (T : Type) :=
| Keep (item : T)
| HashOf (hash : Hash).
Arguments Keep {_ T} item.
Arguments HashOf {_ T} hash.

Module Inserts.
Section Inserts.
Context `{HashEnv} {T U : Type}.
Definition map (f : T -> U) (i : Insert T) : Insert U :=
  match i with Keep item => Keep (f item) | HashOf h => HashOf h end.
Definition keep (i : Insert T) : option T := match i with Keep item => Some item | HashOf _ => None end.
End Inserts.
End Inserts.

(** At most three siblings. *)
Inductive Three (T : Type) :=
| Three_0
| Three_1 (a : T)
| Three_2 (a b : T)
| Three_3 (a b c : T).
Arguments Three_0 {T}.
Arguments Three_1 {T} a.
Arguments Three_2 {T} a b.
Arguments Three_3 {T} a b c.

Module Threes.
Section Threes.
Context {T : Type}.
Definition push (three : Three T) (item : T) : Three T + quad T :=
  match three with
  | Three_0 => inl (Three_1 item)
  | Three_1 a => inl (Three_2 a item)
  | Three_2 a b => inl (Three_3 a b item)
  | Three_3 a b c => inr (a, b, c, item)
  end.
Definition is_full (three : Three T) : bool := match three with Three_3 _ _ _ => true | _ => false end.
Definition len (three : Three T) : Z :=
  match three with Three_0 => 0 | Three_1 _ => 1 | Three_2 _ _ => 2 | Three_3 _ _ _ => 3 end.
End Threes.
End Threes.

(** ** The interfaces *)

(** What can be the focus of a frontier, with what it becomes when it is complete. *)
Class Focus `{HashEnv} (F C : Type) := {
  height : nat;
  hash : F -> Hash;
  fill : F -> F;
  cached_hash : F -> option Hash;
  finalize_owned : F -> Insert C;
  position : F -> option Z;
  witness : F -> Z -> outcome never (option (AuthPath * Hash) * F);
  forget : option Z -> Z -> F -> outcome never (bool * F);
  complete_hash : C -> Hash;
  complete_witness : C -> Z -> outcome never (option (AuthPath * Hash));
  forget_owned : option Z -> Z -> C -> outcome never (Insert C * bool);
}.

(** What items can be inserted into; [peek] runs a read of the focused item that only fills caches. *)
Class Frontier `{HashEnv} (F C I : Type) := {
  #[global] frontier_focus :: Focus F C;
  new : I -> F;
  insert_owned : F -> I -> F + I * Insert C;
  update : forall {A}, (I -> outcome never (A * I)) -> F -> outcome never (option A * F);
  focus : F -> option I;
  peek : (I -> I) -> F -> F;
  is_full : F -> bool;
}.

Definition insert_hash `{Focus F C} (i : Insert C) : Hash :=
  match i with Keep item => complete_hash item | HashOf h => h end.

(** [impl Forget for Insert<T>] *)
Definition insert_forget `{Focus F C} (forgotten : option Z) (index : Z) (i : Insert C) : outcome never (Insert C * bool) :=
  match i with
  | Keep item => forget_owned forgotten index item
  | HashOf h => Ok (HashOf h, false)
  end.

(** The version with which a direction is marked, if something was forgotten there. *)
Definition mark (forgotten : option Z) (was_forgotten : bool) (w : WhichWay) (marks : quad Z) : outcome never (quad Z) :=
  match forgotten with
  | Some version => if was_forgotten then let! n := next version in Ok (Path.set w n marks) else Ok marks
  | None => Ok marks
  end.

(** ** Items *)

Module Items.
Section Items.
Context `{HashEnv}.

Record FItem := mkFItem { fitem : Insert (StateCommitment * Hash) }.
Record CItem := mkCItem { citem_hash : Hash; citem_commitment : StateCommitment }.

Definition item_of_commitment (c : StateCommitment) : FItem := mkFItem (Keep (c, hash_of c)).
Definition item_of_hash (h : Hash) : FItem := mkFItem (HashOf h).

Definition item_hash (i : FItem) : Hash := match fitem i with HashOf h => h | Keep (_, h) => h end.
Definition item_finalize (i : FItem) : Insert CItem := Inserts.map (fun ch => mkCItem ch.2 ch.1) (fitem i).

Definition item_witness (i : FItem) (index : Z) : outcome never (option (AuthPath * Hash) * FItem) :=
  let! _ := debug_assert (index =? 0) in Ok (Some ([], item_hash i), i).
Definition item_forget (_ : option Z) (index : Z) (i : FItem) : outcome never (bool * FItem) :=
  if index =? 0 then
    match fitem i with
    | Keep (_, h) => Ok (true, item_of_hash h)
    | HashOf _ => Ok (false, i)
    end
  else Panic.

Definition citem_witness (i : CItem) (index : Z) : outcome never (option (AuthPath * Hash)) :=
  let! _ := debug_assert (index =? 0) in Ok (Some ([], citem_hash i)).
Definition citem_forget_owned (_ : option Z) (index : Z) (i : CItem) : outcome never (Insert CItem * bool) :=
  let! _ := debug_assert (index =? 0) in Ok (HashOf (citem_hash i), true).

#[global] Instance item_focus : Focus FItem CItem := {
  height := 0%nat;
  hash := item_hash;
  fill i := i;
  cached_hash i := Some (item_hash i);
  finalize_owned := item_finalize;
  position _ := None;
  witness := item_witness;
  forget := item_forget;
  complete_hash := citem_hash;
  complete_witness := citem_witness;
  forget_owned := citem_forget_owned;
}.
End Items.
End Items.
Import Items.

(** ** Leaves *)

Module Leaves.
Section Leaves.
Context `{HashEnv} {I CI : Type} `{!Focus I CI}.

Record FLeaf := mkFLeaf { leaf_item : I }.
Record CLeaf := mkCLeaf { cleaf_item : CI }.

#[global] Instance leaf_focus : Focus FLeaf CLeaf := {
  height := @height _ I CI _;
  hash l := hash (leaf_item l);
  fill l := mkFLeaf (fill (leaf_item l));
  cached_hash l := cached_hash (leaf_item l);
  finalize_owned l := Inserts.map mkCLeaf (finalize_owned (leaf_item l));
  position l := position (leaf_item l);
  witness l index := let! r := witness (leaf_item l) index in Ok (r.1, mkFLeaf r.2);
  forget forgotten index l := let! r := forget forgotten index (leaf_item l) in Ok (r.1, mkFLeaf r.2);
  complete_hash c := complete_hash (cleaf_item c);
  complete_witness c index := complete_witness (cleaf_item c) index;
  forget_owned forgotten index c :=
    let! r := forget_owned forgotten index (cleaf_item c) in Ok (Inserts.map mkCLeaf r.1, r.2);
}.

(** Insertion into a leaf always fails. *)
#[global] Instance leaf_frontier : Frontier FLeaf CLeaf I := {
  new := mkFLeaf;
  insert_owned l item := inr (item, finalize_owned l);
  update A f l := let! r := f (leaf_item l) in Ok (Some r.1, mkFLeaf r.2);
  focus l := Some (leaf_item l);
  peek f l := mkFLeaf (f (leaf_item l));
  is_full _ := true;
}.
End Leaves.
Arguments FLeaf : clear implicits.
Arguments CLeaf : clear implicits.
End Leaves.
Import Leaves.

(** ** Nodes *)

Module Nodes.
Section Nodes.
Context `{HashEnv} {F C : Type} `{!Focus F C}.

(** The children of a complete node, of which at least one is kept: the shapes of complete/node/children.rs. *)
Record CNode := mkCNode { cnode_hash : Hash; cnode_forgotten : quad Z; cnode_children : quad (Insert C) }.
Record FNode := mkFNode { fnode_cache : option Hash; fnode_forgotten : quad Z; fnode_siblings : Three (Insert C); fnode_focus : F }.

Definition node_height : Z := Z.of_nat (S (@height _ F C _)).

(** *** Complete nodes *)

(** [Children::try_from]: the hashes, if no child is kept. *)
Definition children_hashes (children : quad (Insert C)) : option (quad Hash) :=
  match children with
  | (HashOf a, HashOf b, HashOf c, HashOf d) => Some (a, b, c, d)
  | _ => None
  end.
Definition children_hash (children : quad (Insert C)) : Hash :=
  let '(a, b, c, d) := Path.map insert_hash children in node node_height a b c d.

Definition from_children_or_else_hash (forgotten : quad Z) (children : quad (Insert C)) : Insert CNode :=
  match children_hashes children with
  | Some (a, b, c, d) => HashOf (node node_height a b c d)
  | None => Keep (mkCNode (children_hash children) forgotten children)
  end.

(** The siblings of a path, in front of the path below. *)
Definition extend_path (siblings : Hash * Hash * Hash) (w : option (AuthPath * Hash)) : option (AuthPath * Hash) :=
  match w with Some (child, leaf) => Some (siblings :: child, leaf) | None => None end.
Definition witness_kept (child : Insert C) (index : Z) : outcome never (option (AuthPath * Hash)) :=
  match Inserts.keep child with Some c => complete_witness c index | None => Ok None end.

Definition cnode_witness (c : CNode) (index : Z) : outcome never (option (AuthPath * Hash)) :=
  let '(which_way, index) := Path.at_height node_height index in
  let '(child, (x, y, z)) := Path.pick which_way (cnode_children c) in
  let! w := witness_kept child index in
  Ok (extend_path (insert_hash x, insert_hash y, insert_hash z) w).

Definition cnode_forget_owned (forgotten : option Z) (index : Z) (self : CNode) : outcome never (Insert CNode * bool) :=
  let '(which_way, index) := Path.at_height node_height index in
  let '(child, siblings) := Path.pick which_way (cnode_children self) in
  let! r := insert_forget forgotten index child in
  let children := Path.insert which_way r.1 siblings in
  let was_forgotten := r.2 in
  match children_hashes children with
  | Some _ => Ok (HashOf (cnode_hash self), was_forgotten)
  | None =>
      let! marks := mark forgotten was_forgotten which_way (cnode_forgotten self) in
      Ok (Keep (mkCNode (cnode_hash self) marks children), was_forgotten)
  end.

(** *** Frontier nodes *)

Definition from_parts (forgotten : quad Z) (siblings : Three (Insert C)) (focus : F) : FNode := mkFNode None forgotten siblings focus.

(** The hash of a node pads with zero. *)
Definition fnode_compute (n : FNode) : Hash :=
  let focus := hash (fnode_focus n) in
  let '(a, b, c, d) := match fnode_siblings n with
                       | Three_0 => (focus, zero, zero, zero)
                       | Three_1 a => (insert_hash a, focus, zero, zero)
                       | Three_2 a b => (insert_hash a, insert_hash b, focus, zero)
                       | Three_3 a b c => (insert_hash a, insert_hash b, insert_hash c, focus)
                       end in
  node node_height a b c d.
(** [set_if_empty] *)
Definition fnode_hash (n : FNode) : Hash := match fnode_cache n with Some h => h | None => fnode_compute n end.
Definition fnode_fill (n : FNode) : FNode :=
  match fnode_cache n with
  | Some _ => n
  | None => mkFNode (Some (fnode_compute n)) (fnode_forgotten n) (fnode_siblings n) (fill (fnode_focus n))
  end.

(** Finalizing pads with one. *)
Definition fnode_finalize (n : FNode) : Insert CNode :=
  from_children_or_else_hash (fnode_forgotten n)
    match Threes.push (fnode_siblings n) (finalize_owned (fnode_focus n)) with
    | inr children => children
    | inl (Three_3 a b c) => (a, b, c, HashOf one)
    | inl (Three_2 a b) => (a, b, HashOf one, HashOf one)
    | inl (Three_1 a) => (a, HashOf one, HashOf one, HashOf one)
    | inl Three_0 => (HashOf one, HashOf one, HashOf one, HashOf one)
    end.

Definition fnode_position (n : FNode) : option Z :=
  let child_capacity := 4 ^ Z.of_nat (@height _ F C _) in
  let siblings := Threes.len (fnode_siblings n) in
  match position (fnode_focus n) with
  | Some focus_position => Some (siblings * child_capacity + focus_position)
  | None => if siblings + 1 <? 4 then Some ((siblings + 1) * child_capacity) else None
  end.

Definition set_focus (focus : F) (n : FNode) : FNode := mkFNode (fnode_cache n) (fnode_forgotten n) (fnode_siblings n) focus.

(** The path through the focus, and through a sibling, for which the focus is only hashed. *)
Definition witness_focus (siblings : Hash * Hash * Hash) (index : Z) (n : FNode) : outcome never (option (AuthPath * Hash) * FNode) :=
  let! r := witness (fnode_focus n) index in
  Ok (extend_path siblings r.1, set_focus r.2 n).
Definition witness_sibling (sibling : Insert C) (siblings : Hash * Hash * Hash) (index : Z) (n : FNode)
  : outcome never (option (AuthPath * Hash) * FNode) :=
  let! w := witness_kept sibling index in
  Ok (extend_path siblings w, set_focus (fill (fnode_focus n)) n).

Definition fnode_witness (n : FNode) (index : Z) : outcome never (option (AuthPath * Hash) * FNode) :=
  let '(which_way, index) := Path.at_height node_height index in
  let focus := hash (fnode_focus n) in
  match fnode_siblings n, which_way with
  | Three_0, Leftmost => witness_focus (zero, zero, zero) index n
  | Three_1 a, Leftmost => witness_sibling a (focus, zero, zero) index n
  | Three_1 a, Left => witness_focus (insert_hash a, zero, zero) index n
  | Three_2 a b, Leftmost => witness_sibling a (insert_hash b, focus, zero) index n
  | Three_2 a b, Left => witness_sibling b (insert_hash a, focus, zero) index n
  | Three_2 a b, Right => witness_focus (insert_hash a, insert_hash b, zero) index n
  | Three_3 a b c, Leftmost => witness_sibling a (insert_hash b, insert_hash c, focus) index n
  | Three_3 a b c, Left => witness_sibling b (insert_hash a, insert_hash c, focus) index n
  | Three_3 a b c, Right => witness_sibling c (insert_hash a, insert_hash b, focus) index n
  | Three_3 a b c, Rightmost => witness_focus (insert_hash a, insert_hash b, insert_hash c) index n
  | _, _ => Ok (None, n)
  end.

(** Forgetting in the focus, or in a sibling that is put back by [set]. *)
Definition forget_focus (forgotten : option Z) (index : Z) (n : FNode) : outcome never (bool * FNode) :=
  let! r := forget forgotten index (fnode_focus n) in Ok (r.1, set_focus r.2 n).
Definition forget_sibling (forgotten : option Z) (index : Z) (sibling : Insert C) (set : Insert C -> Three (Insert C)) (n : FNode)
  : outcome never (bool * FNode) :=
  let! r := insert_forget forgotten index sibling in
  Ok (r.2, mkFNode (fnode_cache n) (fnode_forgotten n) (set r.1) (fnode_focus n)).

Definition fnode_forget (forgotten : option Z) (index : Z) (n : FNode) : outcome never (bool * FNode) :=
  let '(which_way, index) := Path.at_height node_height index in
  let! r :=
    match fnode_siblings n, which_way with
    | Three_0, Leftmost => forget_focus forgotten index n
    | Three_1 a, Leftmost => forget_sibling forgotten index a Three_1 n
    | Three_1 a, Left => forget_focus forgotten index n
    | Three_2 a b, Leftmost => forget_sibling forgotten index a (fun a => Three_2 a b) n
    | Three_2 a b, Left => forget_sibling forgotten index b (fun b => Three_2 a b) n
    | Three_2 a b, Right => forget_focus forgotten index n
    | Three_3 a b c, Leftmost => forget_sibling forgotten index a (fun a => Three_3 a b c) n
    | Three_3 a b c, Left => forget_sibling forgotten index b (fun b => Three_3 a b c) n
    | Three_3 a b c, Right => forget_sibling forgotten index c (fun c => Three_3 a b c) n
    | Three_3 a b c, Rightmost => forget_focus forgotten index n
    | _, _ => Ok (false, n)
    end in
  let '(was_forgotten, n) := r in
  let! marks := mark forgotten was_forgotten which_way (fnode_forgotten n) in
  Ok (was_forgotten, mkFNode (fnode_cache n) marks (fnode_siblings n) (fnode_focus n)).

#[global] Instance node_focus : Focus FNode CNode := {
  height := S (@height _ F C _);
  hash := fnode_hash;
  fill := fnode_fill;
  cached_hash := fnode_cache;
  finalize_owned := fnode_finalize;
  position := fnode_position;
  witness := fnode_witness;
  forget := fnode_forget;
  complete_hash := cnode_hash;
  complete_witness := cnode_witness;
  forget_owned := cnode_forget_owned;
}.
End Nodes.
Arguments CNode {_} C.
Arguments FNode {_} F C.

Section Frontiers.
Context `{HashEnv} {F C I : Type} `{!Frontier F C I}.

Definition fnode_new (item : I) : FNode F C := from_parts (0, 0, 0, 0) Three_0 (new item).

Definition fnode_insert_owned (n : FNode F C) (item : I) : FNode F C + I * Insert (CNode C) :=
  match insert_owned (fnode_focus n) item with
  | inl focus => inl (from_parts (fnode_forgotten n) (fnode_siblings n) focus)
  | inr (item, sibling) =>
      match Threes.push (fnode_siblings n) sibling with
      | inl siblings => inl (from_parts (fnode_forgotten n) siblings (new item))
      | inr children => inr (item, from_children_or_else_hash (fnode_forgotten n) children)
      end
  end.

(** The cached hash is cleared when that of the focus has changed. *)
Definition fnode_update {A} (f : I -> outcome never (A * I)) (n : FNode F C) : outcome never (option A * FNode F C) :=
  let before_hash := cached_hash (fnode_focus n) in
  let! r := update f (fnode_focus n) in
  let '(output, focus) := r in
  let after_hash := cached_hash focus in
  let cache := if bool_decide (before_hash = after_hash) then fnode_cache n else None in
  Ok (output, mkFNode cache (fnode_forgotten n) (fnode_siblings n) focus).

#[global] Instance node_frontier : Frontier (FNode F C) (CNode C) I := {
  new := fnode_new;
  insert_owned := fnode_insert_owned;
  update A := fnode_update;
  focus n := focus (fnode_focus n);
  peek f n := set_focus (peek f (fnode_focus n)) n;
  is_full n := Threes.is_full (fnode_siblings n) && is_full (fnode_focus n);
}.
End Frontiers.
End Nodes.
Import Nodes.

(** ** Tiers *)

Module Tiers.
Section Nested.
Context `{HashEnv} (I CI : Type).

(** [n] levels of nodes over leaves. *)
Fixpoint NestedC (n : nat) : Type := match n with O => CLeaf CI | S n => CNode (NestedC n) end.
Fixpoint NestedF (n : nat) : Type := match n with O => FLeaf I | S n => FNode (NestedF n) (NestedC n) end.

#[global] Instance nested_frontier `{!Focus I CI} : forall n, Frontier (NestedF n) (NestedC n) I :=
  fix go n := match n with O => leaf_frontier | S n => node_frontier (Frontier0 := go n) end.
End Nested.

Abbreviation LEVELS := 8%nat.

(** The eight levels of a tier, as types of their own. *)
Section Inner.
Context `{HashEnv} (I CI : Type).
Definition InnerF : Type := NestedF I CI LEVELS.
Definition InnerC : Type := NestedC CI LEVELS.
#[global] Instance inner_frontier `{!Focus I CI} : Frontier InnerF InnerC I := nested_frontier I CI LEVELS.
Definition inner_marks (f : InnerF) : quad Z := @fnode_forgotten _ (NestedF I CI 7) (NestedC CI 7) f.
End Inner.
Arguments InnerC {_} CI.
Arguments inner_marks {_ I CI} f.
#[global] Typeclasses Opaque InnerF InnerC.
#[global] Hint Opaque InnerF InnerC : typeclass_instances.
#[global] Arguments inner_frontier : simpl never.

Section Tiers.
Context `{HashEnv} {I CI : Type} `{!Focus I CI}.

(** A tier is a frontier with at least one item, or it is complete, or it is just a hash. *)
Inductive FTier :=
| Tier_Frontier (frontier : InnerF I CI)
| Tier_Complete (complete : InnerC CI)
| Tier_Hash (hash : Hash).
Record CTier := mkCTier { ctier_inner : InnerC CI }.

Definition tier_of_hash (h : Hash) : FTier := Tier_Hash h.
Definition tier_new (item : I) : FTier := Tier_Frontier (new item).

Definition tier_insert (item : I) (t : FTier) : outcome never ((unit + I) * FTier) :=
  match t with
  | Tier_Complete _ | Tier_Hash _ => Ok (inr item, t)
  | Tier_Frontier frontier =>
      if is_full frontier then Ok (inr item, t)
      else match insert_owned frontier item with
           | inl frontier => Ok (inl tt, Tier_Frontier frontier)
           | inr _ => Panic
           end
  end.

Definition tier_update {A} (f : I -> outcome never (A * I)) (t : FTier) : outcome never (option A * FTier) :=
  match t with
  | Tier_Frontier frontier => let! r := update f frontier in Ok (r.1, Tier_Frontier r.2)
  | _ => Ok (None, t)
  end.
Definition tier_focus_item (t : FTier) : option I :=
  match t with Tier_Frontier frontier => focus frontier | _ => None end.
Definition tier_peek (f : I -> I) (t : FTier) : FTier :=
  match t with Tier_Frontier frontier => Tier_Frontier (peek f frontier) | _ => t end.
Definition tier_is_full (t : FTier) : bool :=
  match t with Tier_Frontier frontier => is_full frontier | _ => true end.
Definition tier_is_finalized (t : FTier) : bool :=
  match t with Tier_Frontier _ => false | _ => true end.

Definition tier_finalize (t : FTier) : bool * FTier :=
  (tier_is_finalized t,
   match t with
   | Tier_Frontier frontier =>
       match finalize_owned frontier with HashOf h => Tier_Hash h | Keep inner => Tier_Complete inner end
   | _ => t
   end).

Definition tier_finalize_owned (t : FTier) : Insert CTier :=
  match t with
  | Tier_Frontier frontier => Inserts.map mkCTier (finalize_owned frontier)
  | Tier_Complete inner => Keep (mkCTier inner)
  | Tier_Hash h => HashOf h
  end.

Definition tier_hash (t : FTier) : Hash :=
  match t with Tier_Frontier frontier => hash frontier | Tier_Complete complete => complete_hash complete | Tier_Hash h => h end.
Definition tier_fill (t : FTier) : FTier :=
  match t with Tier_Frontier frontier => Tier_Frontier (fill frontier) | _ => t end.
Definition tier_cached_hash (t : FTier) : option Hash :=
  match t with Tier_Frontier frontier => cached_hash frontier | Tier_Complete complete => Some (complete_hash complete) | Tier_Hash h => Some h end.
Definition tier_position (t : FTier) : option Z :=
  match t with Tier_Frontier frontier => position frontier | _ => None end.

Definition tier_witness (t : FTier) (index : Z) : outcome never (option (AuthPath * Hash) * FTier) :=
  match t with
  | Tier_Frontier frontier => let! r := witness frontier index in Ok (r.1, Tier_Frontier r.2)
  | Tier_Complete complete => let! w := complete_witness complete index in Ok (w, t)
  | Tier_Hash _ => Ok (None, t)
  end.

Definition tier_forget (forgotten : option Z) (index : Z) (t : FTier) : outcome never (bool * FTier) :=
  match t with
  | Tier_Frontier frontier => let! r := forget forgotten index frontier in Ok (r.1, Tier_Frontier r.2)
  | Tier_Complete complete =>
      let! r := forget_owned forgotten index complete in
      Ok (r.2, match r.1 with Keep complete => Tier_Complete complete | HashOf h => Tier_Hash h end)
  | Tier_Hash h => Ok (false, t)
  end.

#[global] Instance tier_focus : Focus FTier CTier := {
  height := (LEVELS + @height _ I CI _)%nat;
  hash := tier_hash;
  fill := tier_fill;
  cached_hash := tier_cached_hash;
  finalize_owned := tier_finalize_owned;
  position := tier_position;
  witness := tier_witness;
  forget := tier_forget;
  complete_hash c := complete_hash (ctier_inner c);
  complete_witness c index := complete_witness (ctier_inner c) index;
  forget_owned forgotten index c :=
    let! r := forget_owned forgotten index (ctier_inner c) in Ok (Inserts.map mkCTier r.1, r.2);
}.

(** *** The top of a tree *)

(** The top can be empty, and is never finalized in place; [track_forgotten] is set for trees and not
    for builders. *)
Record FTop := mkTop { track_forgotten : bool; top_inner : option (InnerF I CI) }.
Record CTop := mkCTop { ctop_inner : InnerC CI }.

Definition top_new (track_forgotten : bool) : FTop := mkTop track_forgotten None.
Definition set_inner (inner : option (InnerF I CI)) (t : FTop) : FTop := mkTop (track_forgotten t) inner.

Definition top_insert (item : I) (t : FTop) : outcome never ((unit + I) * FTop) :=
  match top_inner t with
  | Some inner =>
      if is_full inner then Ok (inr item, t)
      else match insert_owned inner item with
           | inl inner => Ok (inl tt, set_inner (Some inner) t)
           | inr _ => Panic
           end
  | None => Ok (inl tt, set_inner (Some (new item)) t)
  end.

(** The greatest version, in the order of its bytes, in the marks of the root. *)
Definition top_forgotten (t : FTop) : option Z :=
  if track_forgotten t then
    Some (match top_inner t with
          | Some inner => let '(a, b, c, d) := inner_marks inner in forgotten_max (forgotten_max (forgotten_max a b) c) d
          | None => 0
          end)
  else None.

Definition top_forget (index : Z) (t : FTop) : outcome never (bool * FTop) :=
  match top_inner t with
  | Some inner => let! r := forget (top_forgotten t) index inner in Ok (r.1, set_inner (Some r.2) t)
  | None => Ok (false, t)
  end.

Definition top_update {A} (f : I -> outcome never (A * I)) (t : FTop) : outcome never (option A * FTop) :=
  match top_inner t with
  | Some inner => let! r := update f inner in Ok (r.1, set_inner (Some r.2) t)
  | None => Ok (None, t)
  end.
Definition top_focus (t : FTop) : option I := match top_inner t with Some inner => focus inner | None => None end.
Definition top_peek (f : I -> I) (t : FTop) : FTop := set_inner (peek f <$> top_inner t) t.

(** The hash of an empty top is one when it is finalized, and zero before. *)
Definition top_finalize (t : FTop) : Insert CTop :=
  match top_inner t with Some inner => Inserts.map mkCTop (finalize_owned inner) | None => HashOf one end.
Definition top_is_full (t : FTop) : bool := match top_inner t with Some inner => is_full inner | None => false end.
Definition top_is_empty (t : FTop) : bool := match top_inner t with Some _ => false | None => true end.
Definition top_position (t : FTop) : option Z := match top_inner t with Some inner => position inner | None => Some 0 end.
Definition top_hash (t : FTop) : Hash := match top_inner t with Some inner => hash inner | None => zero end.
Definition top_fill (t : FTop) : FTop := set_inner (fill <$> top_inner t) t.
Definition top_witness (t : FTop) (index : Z) : outcome never (option (AuthPath * Hash) * FTop) :=
  match top_inner t with
  | Some inner => let! r := witness inner index in Ok (r.1, set_inner (Some r.2) t)
  | None => Ok (None, t)
  end.

(** [From<complete::Top>] and [From<Hash>]: a finalized builder becomes an item of the tier above. *)
Definition tier_of_top (inner : Insert CTop) : FTier :=
  match inner with Keep top => Tier_Complete (ctop_inner top) | HashOf h => Tier_Hash h end.
(** Back, for the block that an error returns. *)
Definition top_of_tier (t : FTier) : Insert CTop := Inserts.map (fun c => mkCTop (ctier_inner c)) (tier_finalize_owned t).
End Tiers.
Arguments FTier {_} I CI.
Arguments CTier {_} CI.
Arguments FTop {_} I CI.
Arguments CTop {_} CI.
End Tiers.
