(* ===== verification/TctSpec.v ===== *)
(** * What a commitment tree means

    The contents of a tree without its representation: the list of the items of a tier, the root hash
    of such a list, where the next item goes, and which commitments are witnessed.  [Denotes] is what
    the item of a tier has to mean for this; a leaf means its hash with the commitment that is kept. *)

From S2P Require Import Prelude.
From S2P Require Import Tct.
Import Hashing.
Import Tiers.

(** What an item of some height means: its hash at the tip of the frontier and when it is complete,
    where the next commitment goes, and the commitments that are kept. *)
Class Denotes `{HashEnv} (D : Type) := {
  open_hash : D -> Hash;
  closed_hash : D -> Hash;
  next_position : D -> option Z;
  kept_at : D -> Z -> option StateCommitment;
  forget_at : Z -> D -> D;
}.

(** ** Chunks *)

Section Chunks.
Context {D : Type}.
Implicit Types (l : list D) (m : nat).

(** The four parts of a list under a node whose children have [m] items each. *)
Definition chunks m l : quad (list D) :=
  (take m l, take m (drop m l), take m (drop m (drop m l)), drop m (drop m (drop m l))).
Definition joined (q : quad (list D)) : list D := let '(a, b, c, d) := q in a ++ b ++ c ++ d.

(** A part is only followed by another one when it is full. *)
Definition shaped m (q : quad (list D)) : Prop :=
  let '(a, b, c, d) := q in
  a <> [] /\ (length a <= m)%nat /\ (length b <= m)%nat /\ (length c <= m)%nat /\ (length d <= m)%nat
  /\ (b <> [] -> length a = m) /\ (c <> [] -> length b = m) /\ (d <> [] -> length c = m).

Lemma nil_length l : l = [] <-> length l = 0%nat.
Proof. destruct l; naive_solver. Qed.

Lemma chunks_joined m l : joined (chunks m l) = l.
Proof.
  unfold joined, chunks. by rewrite !take_drop.
Qed.

Lemma chunks_shaped m l : l <> [] -> (length l <= 4 * m)%nat -> shaped m (chunks m l).
Proof.
  intros Hne Hl. unfold shaped, chunks. rewrite !nil_length in *. rewrite !length_take, !length_drop. lia.
Qed.

Lemma shaped_chunks m q : shaped m q -> chunks m (joined q) = q.
Proof.
  destruct q as [[[a b] c] d]. unfold shaped. rewrite !nil_length. intros Hs. unfold chunks, joined.
  assert (Hd : length d <> 0%nat -> length a = m /\ length b = m /\ length c = m) by lia.
  assert (Hc : length c <> 0%nat -> length a = m /\ length b = m) by lia.
  assert (Hb : length b <> 0%nat -> length a = m) by lia.
  assert (Htake : forall x y : list D, (length x <= m)%nat -> (length y <> 0%nat -> length x = m) -> take m (x ++ y) = x).
  { intros x y Hx Hy. destruct y as [|y0 y]; [rewrite app_nil_r; by apply take_ge|]. by rewrite take_app_length' by (symmetry; apply Hy; done). }
  assert (Hdrop : forall x y : list D, (length x <= m)%nat -> (length y <> 0%nat -> length x = m) -> drop m (x ++ y) = y).
  { intros x y Hx Hy. destruct y as [|y0 y]; [rewrite app_nil_r; by apply drop_ge|]. by rewrite drop_app_length' by (symmetry; apply Hy; done). }
  rewrite (Hdrop a), (Hdrop b), (Hdrop c) by (rewrite ?length_app; lia).
  rewrite (Htake a), (Htake b), (Htake c) by (rewrite ?length_app; lia). done.
Qed.
End Chunks.

(** ** Roots *)

Definition cells (n : nat) : nat := (4 ^ n)%nat.

Section Roots.
Context `{Denotes D} (h0 : nat).

(** The root of a complete tier of [n] levels over items of height [h0]: missing items count as one. *)
Fixpoint closed_root (n : nat) (l : list D) : Hash :=
  match l, n with
  | [], _ => one
  | d :: _, O => closed_hash d
  | _, S m =>
      let '(a, b, c, d) := chunks (cells m) l in
      hash_node (Z.of_nat (S (m + h0))) (closed_root m a) (closed_root m b) (closed_root m c) (closed_root m d)
  end.

(** The root of a frontier: missing items count as zero, and only the last part is open. *)
Fixpoint open_root (n : nat) (l : list D) : Hash :=
  match l, n with
  | [], _ => zero
  | d :: _, O => open_hash d
  | _, S m =>
      let '(a, b, c, d) := chunks (cells m) l in
      let before x (rest : list D) := match rest with [] => open_root m x | _ => closed_root m x end in
      hash_node (Z.of_nat (S (m + h0))) (before a b) (before b c) (before c d) (open_root m d)
  end.

(** The items have [4 ^ h0] positions each. *)
Definition item_size : Z := 4 ^ Z.of_nat h0.

Definition list_kept (l : list D) (index : Z) : option StateCommitment :=
  if index <? 0 then None else d ← l !! Z.to_nat (index / item_size); kept_at d (index mod item_size).
Definition list_forget (index : Z) (l : list D) : list D :=
  alter (forget_at (index mod item_size)) (Z.to_nat (index / item_size)) l.
(** In the last item, or after it. *)
Definition list_position (n : nat) (l : list D) : option Z :=
  match last l with
  | None => Some 0
  | Some d =>
      match next_position d with
      | Some p => Some (Z.of_nat (length l - 1) * item_size + p)
      | None => if (length l <? cells n)%nat then Some (Z.of_nat (length l) * item_size) else None
      end
  end.

Definition list_denotes (n : nat) : Denotes (list D) := {|
  open_hash := open_root n;
  closed_hash := closed_root n;
  next_position := list_position n;
  kept_at := list_kept;
  forget_at := list_forget;
|}.
End Roots.

(** ** Leaves and tiers *)

Section Contents.
Context `{HashEnv}.

(** A leaf: the hash of its commitment, which may be kept. *)
Record LeafD := mkLeafD { leaf_hash : Hash; leaf_kept : option StateCommitment }.
#[global] Instance leaf_denotes : Denotes LeafD := {
  open_hash := leaf_hash;
  closed_hash := leaf_hash;
  next_position _ := None;
  kept_at d i := if decide (i = 0) then leaf_kept d else None;
  forget_at i d := if decide (i = 0) then mkLeafD (leaf_hash d) None else d;
}.

(** A tier: open or closed with its items, or of unknown contents. *)
Inductive TierD (D : Type) :=
| Open (items : list D)
| Closed (items : list D)
| Opaque (h : Hash).
End Contents.
Arguments Open {_ D} items.
Arguments Closed {_ D} items.
Arguments Opaque {_ D} h.

Section Tiers.
Context `{Denotes D} (h0 : nat).

Definition tier_items (t : TierD D) : list D := match t with Open l | Closed l => l | Opaque _ => [] end.

Definition tier_denotes : Denotes (TierD D) := {|
  open_hash t := match t with Open l => open_root h0 LEVELS l | Closed l => closed_root h0 LEVELS l | Opaque h => h end;
  closed_hash t := match t with Open l | Closed l => closed_root h0 LEVELS l | Opaque h => h end;
  next_position t := match t with Open l => list_position h0 LEVELS l | _ => None end;
  kept_at t i := list_kept h0 (tier_items t) i;
  forget_at i t := match t with
                   | Open l => Open (list_forget h0 i l)
                   | Closed l => Closed (list_forget h0 i l)
                   | Opaque h => t
                   end;
|}.
End Tiers.
