(* ===== verification/TctLaws.v ===== *)
(** * The laws of frontiers and complete trees

    Facts about directions, parts of lists and forgetting; then the laws that relate a frontier or a
    complete tree to its meaning.  [Represents] says that the operations on a frontier, and on the
    complete tree it becomes, do what they should to the meaning; [Grows] adds insertion.  Items
    satisfy the first, and leaves, nodes and tiers inherit both from what is below them. *)

From S2P Require Import Prelude.
From S2P Require Import Tct.
From S2P Require Import TctSpec.
Import Hashing.
Import Items.
Import Leaves.
Import Nodes.
Import Tiers.

(** ** Hashes and directions *)

Section Directions.
Context `{HashEnv}.

Definition precomputed (hp : Z * (Hash * Hash)) : Prop := let '(height, (input, output)) := hp in output = hash_node height input input input input.

Lemma precompute_spec heights done hashes : Forall precomputed (zip done hashes) -> length done = length hashes ->
  Forall precomputed (zip (done ++ heights) (foldl precompute_next hashes heights)).
Proof.
  revert done hashes. induction heights as [|height heights IH]; intros before hashes Hf Hl; [by rewrite app_nil_r|].
  cbn [foldl]. rewrite cons_middle, app_assoc. apply IH; [|unfold precompute_next; by rewrite !length_app, Hl].
  unfold precompute_next. rewrite zip_with_app by done. apply Forall_app. split; [done|]. by constructor.
Qed.

Lemma precomputed_spec : Forall precomputed (zip PRECOMPUTE_HEIGHTS PRECOMPUTED_HASH_PAIRS).
Proof. by apply (precompute_spec PRECOMPUTE_HEIGHTS [] []). Qed.

(** The precomputed hashes are the hashes. *)
Lemma node_is_hash_node height a b c d : node height a b c d = hash_node height a b c d.
Proof.
  unfold node. case_match eqn:Hp; [|done]. destruct p as [input output]. case_bool_decide as Heq; [|done]. injection Heq as -> -> -> ->.
  destruct ((9 <=? height) && (height <=? 16)) eqn:Hh; [|done]. apply andb_prop in Hh as [H1 H2]. to_prop.
  assert (Hk : PRECOMPUTE_HEIGHTS !! Z.to_nat (height - 9) = Some height).
  { assert (Hcase : height = 9 \/ height = 10 \/ height = 11 \/ height = 12 \/ height = 13 \/ height = 14 \/ height = 15 \/ height = 16) by lia.
    by destruct_or! Hcase; subst. }
  pose proof precomputed_spec as Hs. rewrite Forall_lookup in Hs.
  assert (Hz : zip PRECOMPUTE_HEIGHTS PRECOMPUTED_HASH_PAIRS !! Z.to_nat (height - 9) = Some (height, (input, output))).
  { apply lookup_zip_with_Some. by exists height, (input, output). }
  exact (Hs _ _ Hz).
Qed.

Definition way_of (k : Z) : WhichWay := match k with 0 => Leftmost | 1 => Left | 2 => Right | _ => Rightmost end.
Definition way_index (w : WhichWay) : nat := match w with Leftmost => 0 | Left => 1 | Right => 2 | Rightmost => 3 end.

Lemma four_pow n : 4 ^ Z.of_nat n = 2 ^ (2 * Z.of_nat n).
Proof. by rewrite Z.pow_mul_r by lia. Qed.

Lemma four_pow_pos n : 0 < 4 ^ Z.of_nat n.
Proof. apply Z.pow_pos_nonneg; lia. Qed.

Lemma four_pow_S n : 4 ^ Z.of_nat (S n) = 4 * 4 ^ Z.of_nat n.
Proof. rewrite Nat2Z.inj_succ, Z.pow_succ_r by lia. done. Qed.

Lemma at_height_way n i : 0 <= i -> (Path.at_height (Z.of_nat (S n)) i).1 = way_of ((i / 4 ^ Z.of_nat n) mod 4).
Proof.
  intros Hi. unfold Path.at_height. cbn [fst]. replace (Z.of_nat (S n) - 1) with (Z.of_nat n) by lia.
  rewrite Z.shiftr_div_pow2 by lia. rewrite <- four_pow. change 3 with (Z.ones 2). by rewrite Z.land_ones by lia.
Qed.

Lemma at_height_spec n i : 0 <= i < 4 ^ Z.of_nat (S n) ->
  Path.at_height (Z.of_nat (S n)) i = (way_of (i / 4 ^ Z.of_nat n), i mod 4 ^ Z.of_nat n).
Proof.
  intros Hi. rewrite four_pow_S in Hi. pose proof (four_pow_pos n) as Hp.
  rewrite (surjective_pairing (Path.at_height _ i)), at_height_way by lia.
  rewrite (Z.mod_small (i / _)) by (split; [apply Z.div_pos; lia|apply Z.div_lt_upper_bound; lia]). f_equal.
  unfold Path.at_height. cbn [snd]. replace ((Z.of_nat (S n) - 1) * 2) with (2 * Z.of_nat n) by lia.
  rewrite (four_pow n) in *. set (k := 2 * Z.of_nat n) in *. assert (Hk : 0 <= k) by lia.
  rewrite <- (Z.land_ones i k Hk). apply Z.bits_inj'. intros j Hj. rewrite !Z.land_spec, Z.lnot_spec, Z.shiftl_spec by lia.
  rewrite Z.testbit_ones_nonneg by lia. destruct (Z.ltb_spec j k) as [Hlt|Hge].
  - rewrite (Z.testbit_neg_r 3) by lia. done.
  - rewrite andb_false_r. destruct (Z.ltb_spec j (k + 2)).
    + assert (Ht : Z.testbit 3 (j - k) = true) by (assert (Hc : j - k = 0 \/ j - k = 1) by lia; by destruct Hc as [-> | ->]). by rewrite Ht, andb_false_r.
    + rewrite (Z.bits_above_log2 i j), andb_false_l; [done|lia|]. destruct (Z.eq_dec i 0) as [->|]; [cbn; lia|].
      apply Z.log2_lt_pow2; [lia|]. apply Z.lt_le_trans with (2 ^ (k + 2)); [rewrite Z.pow_add_r; lia|]. apply Z.pow_le_mono_r; lia.
Qed.

(** A path only looks at the index within its tree. *)
Lemma path_root_mod n p i leaf : 0 <= i -> path_root n p (i mod 4 ^ Z.of_nat n) leaf = path_root n p i leaf.
Proof.
  revert p i. induction n as [|n IH]; intros p i Hi; [done|]. destruct p as [|s p]; [done|]. cbn [path_root].
  pose proof (four_pow_pos n) as Hp. pose proof (four_pow_pos (S n)) as HpS.
  pose proof (Z.mod_pos_bound i (4 ^ Z.of_nat (S n)) HpS) as Hb.
  rewrite !at_height_way by lia. rewrite <- (IH p i Hi), <- (IH p (i mod _)) by lia. rewrite four_pow_S.
  rewrite (Z.mul_comm 4), Z.rem_mul_r by lia. rewrite (Z.mul_comm (4 ^ _) (_ mod 4)).
  rewrite Z.mod_add by lia. rewrite Z.div_add by lia. rewrite Z.mod_mod by lia.
  rewrite (Z.div_small (i mod _)) by (apply Z.mod_pos_bound; lia). rewrite Z.add_0_l, Z.mod_mod by lia. done.
Qed.
End Directions.

(** ** The parts of a list *)

Section Parts.
Context {D : Type}.
Implicit Types (l : list D).

Definition part m l (w : WhichWay) : list D := (Path.pick w (chunks m l)).1.

Lemma part_lookup m l w j : (j < m)%nat -> part m l w !! j = l !! (way_index w * m + j)%nat.
Proof.
  intros Hj. unfold part, chunks. destruct w; cbn [Path.pick fst way_index]; rewrite ?lookup_take_lt by done; rewrite ?lookup_drop; f_equal; lia.
Qed.

Lemma chunks_alter f m l w j : (j < m)%nat ->
  chunks m (alter f (way_index w * m + j)%nat l) = Path.set w (alter f j (part m l w)) (chunks m l).
Proof.
  intros Hj. unfold part, chunks. destruct w; cbn [Path.pick Path.set fst way_index];
    repeat (rewrite take_alter || rewrite drop_alter || case_decide); try lia; repeat f_equal; try lia; done.
Qed.

Lemma shaped_set m (q : quad (list D)) w x : shaped m q -> length x = length (Path.pick w q).1 -> shaped m (Path.set w x q).
Proof.
  destruct q as [[[a b] c] d]. destruct w; cbn; rewrite !nil_length; lia.
Qed.

Lemma length_joined (q : quad (list D)) :
  length (joined q) = let '(a, b, c, d) := q in (length a + length b + length c + length d)%nat.
Proof. destruct q as [[[a b] c] d]. cbn. rewrite !length_app. lia. Qed.

Lemma shaped_length m (q : quad (list D)) : shaped m q -> (0 < length (joined q) <= 4 * m)%nat.
Proof. rewrite length_joined. destruct q as [[[a b] c] d]. cbn. rewrite !nil_length. lia. Qed.
End Parts.

(** ** Positions in a list *)

Section Positions.
Context `{Denotes D} (h0 : nat).
Notation size := (item_size h0).

Lemma item_size_pos : 0 < size.
Proof. apply four_pow_pos. Qed.

Lemma cells_Z n : Z.of_nat (cells n) = 4 ^ Z.of_nat n.
Proof. unfold cells. by rewrite Nat2Z.inj_pow. Qed.

Lemma item_size_cells n : 4 ^ Z.of_nat (n + h0) = Z.of_nat (cells n) * size.
Proof. rewrite cells_Z, Nat2Z.inj_add, Z.pow_add_r by lia. done. Qed.

Lemma way_index_of n i : 0 <= i < 4 ^ Z.of_nat (S n) ->
  Z.of_nat (way_index (way_of (i / 4 ^ Z.of_nat n))) = i / 4 ^ Z.of_nat n.
Proof.
  intros Hi. rewrite four_pow_S in Hi. pose proof (four_pow_pos n).
  assert (Hq : 0 <= i / 4 ^ Z.of_nat n < 4) by (split; [apply Z.div_pos; lia|apply Z.div_lt_upper_bound; lia]).
  assert (Hc : i / 4 ^ Z.of_nat n = 0 \/ i / 4 ^ Z.of_nat n = 1 \/ i / 4 ^ Z.of_nat n = 2 \/ i / 4 ^ Z.of_nat n = 3) by lia.
  by destruct_or! Hc; rewrite Hc.
Qed.

(** The item of an index, by the part it is in. *)
Lemma item_index n i : 0 <= i < 4 ^ Z.of_nat (S (n + h0)) ->
  let i' := i mod 4 ^ Z.of_nat (n + h0) in
  Z.to_nat (i / size) = (way_index (way_of (i / 4 ^ Z.of_nat (n + h0))) * cells n + Z.to_nat (i' / size))%nat
  /\ i mod size = i' mod size /\ (Z.to_nat (i' / size) < cells n)%nat /\ 0 <= i' < 4 ^ Z.of_nat (n + h0).
Proof.
  intros Hi i'. pose proof item_size_pos as Hs. pose proof (four_pow_pos (n + h0)) as Hp.
  pose proof (Z.mod_pos_bound i _ Hp) as Hi'. fold i' in Hi'. pose proof (way_index_of (n + h0) i Hi) as Hw.
  set (k := way_index _) in *.
  assert (Hdiv : i = (Z.of_nat k * Z.of_nat (cells n)) * size + i').
  { rewrite Hw. unfold i'. rewrite (Z.div_mod i (4 ^ Z.of_nat (n + h0))) at 1 by lia. rewrite item_size_cells. lia. }
  assert (Hq : i' / size < Z.of_nat (cells n)) by (apply Z.div_lt_upper_bound; [lia|]; rewrite Z.mul_comm, <- item_size_cells; lia).
  pose proof (Z.div_pos i' size ltac:(lia) Hs). split_and!; [|..|lia|lia|lia].
  - rewrite Hdiv at 1. rewrite Z.div_add_l by lia. lia.
  - rewrite Hdiv at 1. by rewrite Z.add_comm, Z.mod_add by lia.
Qed.

Lemma list_kept_part n l i : 0 <= i < 4 ^ Z.of_nat (S (n + h0)) ->
  list_kept h0 l i = list_kept h0 (part (cells n) l (way_of (i / 4 ^ Z.of_nat (n + h0)))) (i mod 4 ^ Z.of_nat (n + h0)).
Proof.
  intros Hi. destruct (item_index n i Hi) as (E & M & L & B). unfold list_kept.
  destruct (Z.ltb_spec i 0), (Z.ltb_spec (i mod 4 ^ Z.of_nat (n + h0)) 0); try lia. by rewrite part_lookup, E, M by done.
Qed.

Lemma list_forget_part n l i : 0 <= i < 4 ^ Z.of_nat (S (n + h0)) ->
  let w := way_of (i / 4 ^ Z.of_nat (n + h0)) in
  chunks (cells n) (list_forget h0 i l)
  = Path.set w (list_forget h0 (i mod 4 ^ Z.of_nat (n + h0)) (part (cells n) l w)) (chunks (cells n) l).
Proof.
  intros Hi w. destruct (item_index n i Hi) as (E & M & L & B). unfold list_forget. rewrite E, M. by apply chunks_alter.
Qed.
End Positions.

(** ** Forgetting *)

(** Forgetting only changes what is kept. *)
Class Forgets `{Denotes D} : Prop := {
  forget_open i d : open_hash (forget_at i d) = open_hash d;
  forget_closed i d : closed_hash (forget_at i d) = closed_hash d;
  forget_position i d : next_position (forget_at i d) = next_position d;
  forget_kept i j d : 0 <= i -> 0 <= j -> kept_at (forget_at i d) j = if decide (i = j) then None else kept_at d j;
}.
Arguments Forgets {_} D {_}.

#[global] Instance leaf_forgets `{HashEnv} : Forgets LeafD.
Proof.
  split; cbn; intros *; [by repeat case_decide..|]. intros _ _. destruct (decide (i = 0)) as [->|], (decide (j = 0)) as [->|]; cbn; repeat case_decide; try done; congruence.
Qed.

Section ListForgets.
Context `{Denotes D} `{!Forgets D} (h0 : nat).

Definition same_hashes (d d' : D) : Prop := open_hash d = open_hash d' /\ closed_hash d = closed_hash d' /\ next_position d = next_position d'.

Lemma list_forget_same i l : Forall2 same_hashes (list_forget h0 i l) l.
Proof.
  unfold list_forget. apply Forall2_alter_l; [|intros x y Hx Hy _].
  - apply Forall2_same_length_lookup_2; [done|]. intros k x y Hx Hy. by simplify_eq.
  - simplify_eq. split_and!; [apply forget_open|apply forget_closed|apply forget_position].
Qed.

Lemma same_chunks m l l' : Forall2 same_hashes l l' -> let '(a, b, c, d) := chunks m l in let '(a', b', c', d') := chunks m l' in
  Forall2 same_hashes a a' /\ Forall2 same_hashes b b' /\ Forall2 same_hashes c c' /\ Forall2 same_hashes d d'.
Proof. intros Hl. unfold chunks. split_and!; repeat (apply Forall2_take || apply Forall2_drop); done. Qed.

Lemma closed_root_same n l l' : Forall2 same_hashes l l' -> closed_root h0 n l = closed_root h0 n l'.
Proof.
  revert l l'. induction n as [|n IH]; intros l l' Hl; [destruct Hl as [|x y l l' Hxy Hl]; [done|apply Hxy]|].
  pose proof (same_chunks (cells n) _ _ Hl) as Hc. destruct Hl as [|x y l l' Hxy Hl]; [done|].
  cbn [closed_root]. destruct (chunks (cells n) (x :: l)) as [[[a b] c] d], (chunks (cells n) (y :: l')) as [[[a' b'] c'] d'].
  destruct Hc as (Ha & Hb & Hc & Hd). by rewrite (IH _ _ Ha), (IH _ _ Hb), (IH _ _ Hc), (IH _ _ Hd).
Qed.

Lemma open_root_same n l l' : Forall2 same_hashes l l' -> open_root h0 n l = open_root h0 n l'.
Proof.
  revert l l'. induction n as [|n IH]; intros l l' Hl; [destruct Hl as [|x y l l' Hxy Hl]; [done|apply Hxy]|].
  pose proof (same_chunks (cells n) _ _ Hl) as Hc. destruct Hl as [|x y l l' Hxy Hl]; [done|].
  cbn [open_root]. destruct (chunks (cells n) (x :: l)) as [[[a b] c] d], (chunks (cells n) (y :: l')) as [[[a' b'] c'] d'].
  destruct Hc as (Ha & Hb & Hc & Hd).
  rewrite (IH _ _ Ha), (IH _ _ Hb), (IH _ _ Hc), (IH _ _ Hd), (closed_root_same _ _ _ Ha), (closed_root_same _ _ _ Hb), (closed_root_same _ _ _ Hc).
  by destruct Hb, Hc, Hd.
Qed.

Lemma list_position_same n l l' : Forall2 same_hashes l l' -> list_position h0 n l = list_position h0 n l'.
Proof.
  intros Hl. unfold list_position. rewrite (Forall2_length _ _ _ Hl).
  assert (Hlast : option_Forall2 same_hashes (last l) (last l')) by (rewrite !last_lookup, (Forall2_length _ _ _ Hl); by apply Forall2_lookup).
  destruct Hlast as [x y (_ & _ & ->)|]; done.
Qed.

Lemma list_forget_kept i j l : 0 <= i -> 0 <= j -> list_kept h0 (list_forget h0 i l) j = if decide (i = j) then None else list_kept h0 l j.
Proof.
  intros Hi Hj. pose proof (item_size_pos h0) as Hs. unfold list_kept, list_forget. destruct (Z.ltb_spec j 0); [lia|].
  rewrite list_lookup_alter. pose proof (Z.div_pos i _ Hi Hs). pose proof (Z.div_pos j _ Hj Hs).
  case_decide as Hq.
  - destruct (l !! Z.to_nat (i / _)) as [d|] eqn:Hl; rewrite <- Hq, Hl; cbn; [|by case_decide].
    rewrite forget_kept by (apply Z.mod_pos_bound; lia). assert (Hdiv : i / item_size h0 = j / item_size h0) by lia.
    case_decide as Hm; case_decide as Hij; try done; [|by subst].
    exfalso. apply Hij. rewrite (Z.div_mod i (item_size h0)), (Z.div_mod j (item_size h0)) by lia. congruence.
  - rewrite decide_False; [done|]. by intros ->.
Qed.

Lemma list_forgets n : @Forgets _ (list D) (list_denotes h0 n).
Proof.
  split; cbn; intros.
  - apply open_root_same, list_forget_same.
  - apply closed_root_same, list_forget_same.
  - apply list_position_same, list_forget_same.
  - by apply list_forget_kept.
Qed.

Lemma tier_forgets : @Forgets _ (TierD D) (tier_denotes h0).
Proof.
  split; intros i; [intros [l|l|h]..|intros j [l|l|h] Hi Hj];
    cbn [open_hash closed_hash next_position kept_at forget_at tier_denotes tier_items];
    solve [reflexivity|apply open_root_same, list_forget_same|apply closed_root_same, list_forget_same
      |apply list_position_same, list_forget_same|by apply list_forget_kept
      |unfold list_kept; rewrite lookup_nil; by destruct (_ <? _), (decide _)].
Qed.
End ListForgets.

(** The order of forgotten-versions is not that of their values. *)
Lemma forgotten_max_either a b : forgotten_max a b = a \/ forgotten_max a b = b.
Proof. unfold forgotten_max. destruct (forgotten_cmp a b); auto. Qed.

Example forgotten_versions_go_down : forgotten_cmp 256 255 = Lt.
Proof. reflexivity. Qed.

(** A forgotten-version that can still be counted up. *)
Definition version_ok (v : option Z) : Prop := forall x, v = Some x -> 0 <= x < 2 ^ 48.
Definition marks_ok (q : quad Z) : Prop := let '(a, b, c, d) := q in
  0 <= a < 2 ^ 48 /\ 0 <= b < 2 ^ 48 /\ 0 <= c < 2 ^ 48 /\ 0 <= d < 2 ^ 48.

(** What a witness has to be: a path of the height that leads to the root, there for what is kept. *)
Definition proves `{HashEnv} (h : nat) (root : Hash) (i : Z) (kept : option StateCommitment) (w : option (AuthPath * Hash)) : Prop :=
  (forall c, kept = Some c -> exists path, w = Some (path, hash_of c))
  /\ (forall path leaf, w = Some (path, leaf) -> length path = h /\ path_root h path i leaf = root).

Class Represents `{Focus F C} `{!Denotes D} := {
  rep : F -> D -> Prop;
  rep_complete : Insert C -> D -> Prop;
  rep_hash f d : rep f d -> hash f = open_hash d;
  rep_cached f d : rep f d -> cached_hash f = None \/ cached_hash f = Some (open_hash d);
  rep_fill f d : rep f d -> rep (fill f) d /\ cached_hash (fill f) = Some (open_hash d);
  rep_finalize f d : rep f d -> rep_complete (finalize_owned f) d;
  rep_position f d : rep f d -> position f = next_position d;
  rep_position_range f d p : rep f d -> next_position d = Some p -> 0 < p < 4 ^ Z.of_nat height;
  rep_range f d i c : rep f d -> kept_at d i = Some c -> 0 <= i < 4 ^ Z.of_nat height;
  rep_witness f d i : rep f d -> 0 <= i < 4 ^ Z.of_nat height ->
    exists w f', witness f i = Ok (w, f') /\ rep f' d /\ cached_hash f' = cached_hash f
      /\ proves height (open_hash d) i (kept_at d i) w;
  rep_forget v f d i : rep f d -> version_ok v -> 0 <= i < 4 ^ Z.of_nat height ->
    exists f', forget v i f = Ok (bool_decide (is_Some (kept_at d i)), f') /\ rep f' (forget_at i d) /\ cached_hash f' = cached_hash f;
  complete_rep_hash x d : rep_complete x d -> insert_hash x = closed_hash d;
  complete_rep_range x d i c : rep_complete x d -> kept_at d i = Some c -> 0 <= i < 4 ^ Z.of_nat height;
  complete_rep_pruned h d i : rep_complete (HashOf h) d -> kept_at d i = None;
  complete_rep_pruned_forget h d i : rep_complete (HashOf h) d -> 0 <= i < 4 ^ Z.of_nat height -> rep_complete (HashOf h) (forget_at i d);
  complete_rep_kept c d : rep_complete (Keep c) d -> exists i, 0 <= i < 4 ^ Z.of_nat height /\ is_Some (kept_at d i);
  complete_rep_witness c d i : rep_complete (Keep c) d -> 0 <= i < 4 ^ Z.of_nat height ->
    exists w, complete_witness c i = Ok w /\ proves height (closed_hash d) i (kept_at d i) w;
  complete_rep_forget v c d i : rep_complete (Keep c) d -> version_ok v -> 0 <= i < 4 ^ Z.of_nat height ->
    exists x, forget_owned v i c = Ok (x, bool_decide (is_Some (kept_at d i))) /\ rep_complete x (forget_at i d);
}.
Arguments Represents {_} F C {_} D {_}.

Class Grows `{Frontier F C X} {D} `{!Denotes D} (repI : X -> D -> Prop) (fillsI : X -> X -> Prop) (h0 n : nat)
  `{R : !@Represents _ F C _ (list D) (list_denotes h0 n)} := {
  rep_length (f : F) (l : list D) : @rep _ _ _ _ _ _ R f l -> (0 < length l <= cells n)%nat;
  rep_new (x : X) (d : D) : repI x d -> @rep _ _ _ _ _ _ R (new x) [d];
  rep_insert (f : F) (l : list D) (x : X) (d : D) : @rep _ _ _ _ _ _ R f l -> repI x d -> (length l < cells n)%nat ->
    exists f', insert_owned f x = inl f' /\ @rep _ _ _ _ _ _ R f' (l ++ [d]);
  rep_insert_full (f : F) (l : list D) (x : X) : @rep _ _ _ _ _ _ R f l -> length l = cells n ->
    exists c, insert_owned f x = inr (x, c) /\ @rep_complete _ _ _ _ _ _ R c l;
  rep_is_full (f : F) (l : list D) : @rep _ _ _ _ _ _ R f l -> is_full f = bool_decide (length l = cells n);
  rep_focus (f : F) (l : list D) (d : D) : @rep _ _ _ _ _ _ R f (l ++ [d]) -> exists x, focus f = Some x /\ repI x d;
  rep_update {A} (g : X -> outcome never (A * X)) (f : F) (l : list D) (d d' : D) (x : X) (a : A) (x' : X) :
    @rep _ _ _ _ _ _ R f (l ++ [d]) -> focus f = Some x -> g x = Ok (a, x') -> repI x' d' ->
    exists f', update g f = Ok (Some a, f') /\ @rep _ _ _ _ _ _ R f' (l ++ [d']);
  rep_peek (g : X -> X) (f : F) (l : list D) (d : D) (x : X) : @rep _ _ _ _ _ _ R f (l ++ [d]) -> focus f = Some x -> fillsI x (g x) -> repI (g x) d ->
    @rep _ _ _ _ _ _ R (peek g f) (l ++ [d]) /\ (is_Some (cached_hash f) -> is_Some (cached_hash (peek g f)));
}.
Arguments Grows {_} F C X {_} D {_} repI fillsI h0 n {R}.

(** ** Items *)

Section Items.
Context `{HashEnv}.

Definition item_rep (i : FItem) (d : LeafD) : Prop :=
  item_hash i = leaf_hash d /\ match fitem i, leaf_kept d with
                               | Keep (c, h), Some c' => c = c' /\ h = hash_of c
                               | HashOf _, None => True
                               | _, _ => False
                               end.
Definition citem_rep (x : Insert CItem) (d : LeafD) : Prop :=
  match x, leaf_kept d with
  | Keep c, Some c' => citem_hash c = leaf_hash d /\ citem_commitment c = c' /\ leaf_hash d = hash_of c'
  | HashOf h, None => h = leaf_hash d
  | _, _ => False
  end.

Lemma leaf_index i : 0 <= i < 4 ^ Z.of_nat 0 -> i = 0.
Proof. cbn. lia. Qed.

#[global, refine] Instance item_represents : Represents FItem CItem LeafD := {
  rep := item_rep;
  rep_complete := citem_rep;
}.
Proof.
  - intros f d [E _]. exact E.
  - intros f d [E _]. right. cbn. by rewrite E.
  - intros f d [E K]. split; [by split|]. cbn. by rewrite E.
  - intros [[[c h]|h]] [lh [c'|]] [E K]; cbn in *; try done. destruct K as [-> ->]. by split_and!.
  - done.
  - done.
  - intros f d i c _. cbn. case_decide; [|done]. subst. cbn. lia.
  - intros f d i [E K] Hi. apply leaf_index in Hi as ->. exists (Some ([], item_hash f)), f. split_and!; [done|by split|done|]. split.
    + cbn. intros c Hc. exists []. rewrite decide_True in Hc by done. rewrite Hc in K. unfold item_hash. destruct (fitem f) as [[c' h]|]; [|done]. destruct K as [-> ->]. done.
    + intros path leaf [= <- <-]. by split.
  - intros v f d i [E K] _ Hi. apply leaf_index in Hi as ->. destruct f as [[[c h]|h]], d as [lh [c'|]]; cbn in *; try done.
    + exists (item_of_hash h). split_and!; [done|by split|done].
    + eexists. split_and!; [done|by split|done].
  - intros [[ih ic]|h] [lh [c'|]]; cbn; naive_solver.
  - intros x d i c _. cbn. case_decide; [|done]. subst. cbn. lia.
  - intros h [lh [c'|]] i K; cbn in *; [done|]. by case_decide.
  - intros h [lh [c'|]] i K Hi; cbn in *; [done|]. by case_decide.
  - intros [ih ic] [lh [c'|]] K; cbn in *; [|done]. exists 0. split; [lia|by eexists].
  - intros [ih ic] [lh [c'|]] i K Hi; cbn in K; [|done]. destruct K as (-> & -> & E). apply leaf_index in Hi as ->.
    exists (Some ([], lh)). split; [done|]. split.
    + intros c [= <-]. exists []. by rewrite E.
    + intros path leaf [= <- <-]. by split.
  - intros v [ih ic] [lh [c'|]] i K _ Hi; cbn in K; [|done]. destruct K as (-> & -> & E). apply leaf_index in Hi as ->.
    exists (HashOf lh). by split.
Defined.
End Items.

(** ** Leaves *)

Section Leaves.
Context `{HashEnv} {X CX D : Type} `{!Focus X CX} `{!Denotes D} `{!Represents X CX D}.
Notation h0 := (@height _ X CX _).

Lemma item_size_height : item_size h0 = 4 ^ Z.of_nat h0.
Proof. done. Qed.

Lemma single_kept d i : 0 <= i < 4 ^ Z.of_nat h0 -> list_kept h0 [d] i = kept_at d i.
Proof.
  intros Hi. unfold list_kept. destruct (Z.ltb_spec i 0); [lia|]. by rewrite Z.div_small, Z.mod_small by done.
Qed.

Lemma single_kept_range d i c : list_kept h0 [d] i = Some c -> 0 <= i < 4 ^ Z.of_nat h0.
Proof.
  unfold list_kept. destruct (Z.ltb_spec i 0); [done|]. pose proof (item_size_pos h0) as Hs. rewrite item_size_height in *.
  destruct (Z.to_nat (i / _)) eqn:Hq; [|by cbn]. intros _. split; [done|]. pose proof (Z.div_pos i _ ltac:(lia) Hs).
  assert (E : i / 4 ^ Z.of_nat h0 = 0) by lia. apply Z.div_small_iff in E; lia.
Qed.

Lemma single_forget d i : 0 <= i < 4 ^ Z.of_nat h0 -> list_forget h0 i [d] = [forget_at i d].
Proof. intros Hi. unfold list_forget. by rewrite Z.div_small, Z.mod_small by done. Qed.

Lemma single_position d : list_position h0 0 [d] = next_position d.
Proof. unfold list_position. cbn. by destruct (next_position d). Qed.

Definition leaf_rep (f : FLeaf X) (l : list D) : Prop := exists d, l = [d] /\ rep (leaf_item f) d.
Definition cleaf_rep (x : Insert (CLeaf CX)) (l : list D) : Prop := exists d, l = [d] /\ rep_complete (Inserts.map (@cleaf_item CX) x) d.

#[global, refine] Instance leaf_represents : @Represents _ (FLeaf X) (CLeaf CX) _ (list D) (list_denotes h0 0) := {
  rep := leaf_rep;
  rep_complete := cleaf_rep;
}.
Proof.
  - intros f l (d & -> & K). exact (rep_hash _ _ K).
  - intros f l (d & -> & K). exact (rep_cached _ _ K).
  - intros f l (d & -> & K). destruct (rep_fill _ _ K) as [K' E]. split; [by exists d|exact E].
  - intros f l (d & -> & K). exists d. split; [done|]. apply rep_finalize in K. revert K. cbn. destruct (finalize_owned (leaf_item f)); intros K; exact K.
  - intros f l (d & -> & K). change (position (leaf_item f) = list_position h0 0 [d]). rewrite single_position. by apply rep_position.
  - intros f l p (d & -> & K). change (list_position h0 0 [d] = Some p -> 0 < p < 4 ^ Z.of_nat h0). rewrite single_position. by eapply rep_position_range.
  - intros f l i c (d & -> & K) Hk. exact (single_kept_range d i c Hk).
  - intros f l i (d & -> & K) Hi. destruct (rep_witness _ _ _ K Hi) as (w & f' & E & K' & Hc & P). exists w, (mkFLeaf f').
    cbn [witness leaf_focus]. rewrite E. split_and!; [done|by exists d|exact Hc|]. cbn [kept_at list_denotes]. rewrite single_kept by done. exact P.
  - intros v f l i (d & -> & K) Hv Hi. destruct (rep_forget v _ _ _ K Hv Hi) as (f' & E & K' & Hc). exists (mkFLeaf f').
    cbn [forget leaf_focus kept_at forget_at list_denotes]. rewrite E, single_kept, single_forget by done. split_and!; [done|by eexists|exact Hc].
  - intros x l (d & -> & K). apply complete_rep_hash in K. cbn. destruct x; exact K.
  - intros x l i c (d & -> & K) Hk. exact (single_kept_range d i c Hk).
  - intros h l i (d & -> & K). cbn [kept_at list_denotes]. destruct (list_kept h0 [d] i) eqn:Hk; [|done].
    pose proof (single_kept_range _ _ _ Hk) as Hr. rewrite single_kept in Hk by done. by rewrite (complete_rep_pruned _ _ i K) in Hk.
  - intros h l i (d & -> & K) Hi. exists (forget_at i d). split; [by apply single_forget|]. exact (complete_rep_pruned_forget _ _ i K Hi).
  - intros c l (d & -> & K). destruct (complete_rep_kept _ _ K) as (i & Hi & Hk). exists i. split; [done|]. cbn [kept_at list_denotes]. by rewrite single_kept.
  - intros c l i (d & -> & K) Hi. destruct (complete_rep_witness _ _ _ K Hi) as (w & E & P). exists w. split; [exact E|].
    cbn [kept_at list_denotes]. rewrite single_kept by done. exact P.
  - intros v c l i (d & -> & K) Hv Hi. destruct (complete_rep_forget v _ _ _ K Hv Hi) as (x & E & K'). exists (Inserts.map mkCLeaf x).
    cbn [forget_owned leaf_focus kept_at forget_at list_denotes]. rewrite E, single_kept, single_forget by done. split; [done|].
    eexists. split; [done|]. by destruct x.
Defined.

Definition fills (x y : X) : Prop := is_Some (cached_hash x) -> is_Some (cached_hash y).

#[global] Instance leaf_grows : Grows (FLeaf X) (CLeaf CX) X D rep fills h0 0.
Proof.
  split.
  - intros f l (d & -> & K). cbn. lia.
  - intros x d K. by exists d.
  - intros f l x d (d' & -> & K) K' Hl. cbn in Hl. lia.
  - intros f l x K Hl. eexists. split; [done|]. exact (rep_finalize f l K).
  - intros f l (d & -> & K). done.
  - intros f l d (d' & E & K). apply (app_inj_2 l [] [d] [d']) in E as [-> [= ->]]; [|done]. by eexists.
  - intros A g f l d d' x a x' (d0 & E & K) [= <-] Hg K'. apply (app_inj_2 l [] [d] [d0]) in E as [-> [= ->]]; [|done].
    exists (mkFLeaf x'). cbn. rewrite Hg. split; [done|]. by exists d'.
  - intros g f l d x (d0 & E & K) [= <-] Hf K'. apply (app_inj_2 l [] [d] [d0]) in E as [-> [= ->]]; [|done].
    split; [by exists d0|exact Hf].
Qed.
End Leaves.
