(* ===== verification/TctNodes.v ===== *)
(** * The laws of nodes

    A node inherits the laws of its children: [TctLaws] one level up. *)

From S2P Require Import Prelude.
From S2P Require Import Tct.
From S2P Require Import TctSpec.
From S2P Require Import TctLaws.
Import Hashing.
Import Items.
Import Leaves.
Import Nodes.
Import Tiers.

(** ** Quads *)

#[global] Instance WhichWay_eq_dec : EqDecision WhichWay.
Proof. solve_decision. Defined.

Lemma pick_set {T} w w' (x : T) q : (Path.pick w' (Path.set w x q)).1 = if decide (w' = w) then x else (Path.pick w' q).1.
Proof. destruct q as [[[a b] c] d]. by destruct w, w'. Qed.

Lemma insert_pick {T} w (x : T) q : Path.insert w x (Path.pick w q).2 = Path.set w x q.
Proof. destruct q as [[[a b] c] d]. by destruct w. Qed.

Lemma way_of_index w : way_of (Z.of_nat (way_index w)) = w.
Proof. by destruct w. Qed.

Lemma cells_pos k : (0 < cells k)%nat.
Proof. unfold cells. pose proof (Nat.pow_nonzero 4 k). lia. Qed.

Section Children.
Context `{HashEnv} {C : Type}.

Lemma children_hashes_some (q : quad (Insert C)) a b c d : children_hashes q = Some (a, b, c, d) ->
  q = (HashOf a, HashOf b, HashOf c, HashOf d).
Proof. destruct q as [[[[?|?] [?|?]] [?|?]] [?|?]]; cbn; congruence. Qed.

Lemma children_hashes_none (q : quad (Insert C)) : children_hashes q = None -> exists w c, (Path.pick w q).1 = Keep c.
Proof.
  destruct q as [[[[x|?] [y|?]] [z|?]] [t|?]]; cbn; intros Hn; try done;
    solve [by exists Leftmost, x|by exists Left, y|by exists Right, z|by exists Rightmost, t].
Qed.

Lemma children_hashes_pruned (q : quad (Insert C)) hs w : children_hashes q = Some hs -> exists h, (Path.pick w q).1 = HashOf h.
Proof. destruct hs as [[[a b] c] d]. intros ->%children_hashes_some. destruct w; by eexists. Qed.
End Children.

Lemma list_kept_range `{Denotes D} h0 n l i c : (length l <= cells n)%nat -> list_kept h0 l i = Some c -> 0 <= i < 4 ^ Z.of_nat (n + h0).
Proof.
  intros Hl. unfold list_kept. destruct (Z.ltb_spec i 0); [done|]. pose proof (item_size_pos h0) as Hs.
  destruct (l !! _) eqn:Hi; [|done]. apply lookup_lt_Some in Hi. intros _. split; [done|]. rewrite item_size_cells.
  pose proof (Z.div_pos i _ ltac:(lia) Hs). assert (Hq : i / item_size h0 < Z.of_nat (cells n)) by lia.
  rewrite (Z.div_mod i (item_size h0)) by lia. pose proof (Z.mod_pos_bound i _ Hs). nia.
Qed.

Section Nodes.
Context `{Frontier F C X} {D} `{!Denotes D} `{!Forgets D} {repI : X -> D -> Prop} {fillsI : X -> X -> Prop} (h0 n : nat).
Context `{R : !@Represents _ F C _ (list D) (list_denotes h0 n)} `{G : !Grows F C X D repI fillsI h0 n}.
Context (Hh : @height _ F C _ = (n + h0)%nat).
Notation RF := (@rep _ F C _ (list D) (list_denotes h0 n) R).
Notation RC := (@rep_complete _ F C _ (list D) (list_denotes h0 n) R).
Notation M := (cells n).
Notation size := (4 ^ Z.of_nat (n + h0)).

Lemma node_height_is : node_height (F := F) (C := C) = Z.of_nat (S (n + h0)).
Proof. unfold node_height. by rewrite Hh. Qed.

Lemma cells_S : cells (S n) = (4 * M)%nat.
Proof. unfold cells. cbn. lia. Qed.

Lemma size_pos : 0 < size.
Proof. apply four_pow_pos. Qed.

(** *** Parts *)

Lemma part_joined (q : quad (list D)) w : shaped M q -> part M (joined q) w = (Path.pick w q).1.
Proof. intros Hs. unfold part. by rewrite shaped_chunks. Qed.

Lemma kept_at_part (q : quad (list D)) i : shaped M q -> 0 <= i < 4 ^ Z.of_nat (S (n + h0)) ->
  list_kept h0 (joined q) i = list_kept h0 (Path.pick (way_of (i / size)) q).1 (i mod size).
Proof. intros Hs Hi. by rewrite (list_kept_part h0 n), part_joined. Qed.

Lemma kept_in_part (q : quad (list D)) w j : shaped M q -> 0 <= j < size ->
  exists i, 0 <= i < 4 ^ Z.of_nat (S (n + h0)) /\ list_kept h0 (joined q) i = list_kept h0 (Path.pick w q).1 j.
Proof.
  intros Hs Hj. pose proof size_pos. set (i := Z.of_nat (way_index w) * size + j).
  assert (Hi : 0 <= i < 4 ^ Z.of_nat (S (n + h0))) by (rewrite four_pow_S; unfold i; destruct w; cbn [way_index]; lia).
  exists i. split; [done|]. rewrite kept_at_part by done. unfold i.
  by rewrite Z.div_add_l, Z.div_small, Z.add_0_r, way_of_index, Z.add_comm, Z.mod_add, Z.mod_small by lia.
Qed.

Lemma forget_joined (q : quad (list D)) i : shaped M q -> 0 <= i < 4 ^ Z.of_nat (S (n + h0)) ->
  let w := way_of (i / size) in let q' := Path.set w (list_forget h0 (i mod size) (Path.pick w q).1) q in
  list_forget h0 i (joined q) = joined q' /\ shaped M q'.
Proof.
  intros Hs Hi w q'. split.
  - rewrite <- (chunks_joined M (list_forget _ _ _)), (list_forget_part h0 n) by done.
    fold w. by rewrite part_joined, shaped_chunks by done.
  - apply shaped_set; [done|]. unfold list_forget. by rewrite length_alter.
Qed.

Lemma joined_nonempty (q : quad (list D)) : shaped M q -> joined q <> [].
Proof. intros Hs Hn. pose proof (shaped_length _ _ Hs) as Hl. rewrite Hn in Hl. cbn in Hl. lia. Qed.

Lemma closed_joined (q : quad (list D)) : shaped M q ->
  closed_root h0 (S n) (joined q) = let '(a, b, c, d) := Path.map (closed_root h0 n) q in node (Z.of_nat (S (n + h0))) a b c d.
Proof.
  intros Hs. pose proof (joined_nonempty q Hs) as Hne. cbn [closed_root]. destruct (joined q) as [|x l] eqn:Hj; [done|].
  rewrite <- Hj, shaped_chunks by done. destruct q as [[[a b] c] d]. cbn. by rewrite node_is_hash_node.
Qed.

(** *** Complete nodes *)

(** A child is the hash one where there are no items. *)
Definition child_rep (x : Insert C) (l : list D) : Prop := match l with [] => x = HashOf one | _ => RC x l end.
Definition children_rep (children : quad (Insert C)) (q : quad (list D)) : Prop :=
  forall w, child_rep (Path.pick w children).1 (Path.pick w q).1.

Lemma child_rep_hash x l : child_rep x l -> insert_hash x = closed_root h0 n l.
Proof. destruct l; cbn [child_rep]; [by intros ->; destruct n|intros K; exact (complete_rep_hash _ _ K)]. Qed.

Lemma child_rep_pruned h l i : child_rep (HashOf h) l -> list_kept h0 l i = None.
Proof.
  destruct l as [|d l]; [|intros K; exact (complete_rep_pruned _ _ i K)]. intros _. unfold list_kept. rewrite lookup_nil. by destruct (_ <? _).
Qed.

Lemma child_rep_keep c l : child_rep (Keep c) l -> RC (Keep c) l.
Proof. by destruct l. Qed.

Definition cnode_rep (x : Insert (CNode C)) (l : list D) : Prop :=
  exists q, l = joined q /\ shaped M q /\
    match x with
    | HashOf h => h = closed_root h0 (S n) l /\ forall i, list_kept h0 l i = None
    | Keep c => cnode_hash c = closed_root h0 (S n) l /\ children_rep (cnode_children c) q
        /\ exists i, 0 <= i < 4 ^ Z.of_nat (S (n + h0)) /\ is_Some (list_kept h0 l i)
    end.

Lemma children_hash_right children q : children_rep children q -> shaped M q ->
  (let '(a, b, c, d) := Path.map insert_hash children in node (node_height (F := F) (C := C)) a b c d) = closed_root h0 (S n) (joined q).
Proof.
  intros Hc Hs. rewrite closed_joined, node_height_is by done.
  pose proof (child_rep_hash _ _ (Hc Leftmost)) as E0. pose proof (child_rep_hash _ _ (Hc Left)) as E1.
  pose proof (child_rep_hash _ _ (Hc Right)) as E2. pose proof (child_rep_hash _ _ (Hc Rightmost)) as E3.
  destruct children as [[[a b] c] d], q as [[[la lb] lc] ld]. cbn in *. by rewrite E0, E1, E2, E3.
Qed.

(** Without kept children nothing is kept; with one something is. *)
Lemma all_pruned children q hs : children_rep children q -> shaped M q -> children_hashes children = Some hs ->
  forall i, list_kept h0 (joined q) i = None.
Proof.
  intros Hc Hs Hh' i. destruct (list_kept h0 (joined q) i) eqn:Hk; [|done].
  assert (Hi : 0 <= i < 4 ^ Z.of_nat (S (n + h0))).
  { apply (list_kept_range h0 (S n) _ _ _) in Hk; [done|]. rewrite cells_S. by apply shaped_length. }
  rewrite kept_at_part in Hk by done. set (w := way_of _) in *. destruct (children_hashes_pruned _ _ w Hh') as [h E].
  pose proof (Hc w) as Hw. rewrite E in Hw. by rewrite (child_rep_pruned _ _ _ Hw) in Hk.
Qed.

Lemma some_kept children q : children_rep children q -> shaped M q -> children_hashes children = None ->
  exists i, 0 <= i < 4 ^ Z.of_nat (S (n + h0)) /\ is_Some (list_kept h0 (joined q) i).
Proof.
  intros Hc Hs Hn. destruct (children_hashes_none _ Hn) as (w & c & E). pose proof (Hc w) as Hw. rewrite E in Hw.
  apply child_rep_keep in Hw. destruct (complete_rep_kept _ _ Hw) as (j & Hj & Hk). rewrite Hh in Hj.
  destruct (kept_in_part q w j Hs Hj) as (i & Hi & E'). exists i. split; [done|]. by rewrite E'.
Qed.

Lemma from_children_rep marks children q : children_rep children q -> shaped M q ->
  cnode_rep (from_children_or_else_hash (F := F) marks children) (joined q).
Proof.
  intros Hc Hs. exists q. split; [done|]. split; [done|]. unfold from_children_or_else_hash. pose proof (children_hash_right _ _ Hc Hs) as E.
  destruct (children_hashes children) as [[[[a b] c] d]|] eqn:Hp.
  - split; [|by eapply all_pruned]. apply children_hashes_some in Hp as ->. exact E.
  - split; [exact E|]. split; [exact Hc|]. by eapply some_kept.
Qed.

(** *** Witnesses *)

Definition root_of (hs : quad Hash) : Hash := let '(a, b, c, d) := hs in node (Z.of_nat (S (n + h0))) a b c d.

Lemma proves_extend (hs : quad Hash) i kept w : 0 <= i < 4 ^ Z.of_nat (S (n + h0)) ->
  proves (n + h0) (Path.pick (way_of (i / size)) hs).1 (i mod size) kept w ->
  proves (S (n + h0)) (root_of hs) i kept (extend_path (Path.pick (way_of (i / size)) hs).2 w).
Proof.
  intros Hi [P1 P2]. split.
  - intros c Hc. destruct (P1 c Hc) as [path ->]. by eexists.
  - intros path leaf Hw. destruct w as [[child leaf']|]; [|done]. injection Hw as <- <-. destruct (P2 _ _ eq_refl) as [Hl E].
    split; [cbn; by rewrite Hl|]. cbn [path_root]. rewrite at_height_spec by done. cbn [fst].
    rewrite <- (path_root_mod _ child) by lia. rewrite E, insert_pick.
    assert (Hset : Path.set (way_of (i / size)) (Path.pick (way_of (i / size)) hs).1 hs = hs).
    { destruct hs as [[[a b] c] d]. by destruct (way_of _). }
    by rewrite Hset.
Qed.

Lemma witness_kept_right x l i : child_rep x l -> 0 <= i < size ->
  exists w, witness_kept (F := F) x i = Ok w /\ proves (n + h0) (insert_hash x) i (list_kept h0 l i) w.
Proof.
  intros Hx Hi. unfold witness_kept. destruct x as [c|h]; cbn [Inserts.keep].
  - apply child_rep_keep in Hx. rewrite <- Hh in Hi. destruct (complete_rep_witness _ _ _ Hx Hi) as (w & E & P). exists w. split; [done|].
    rewrite <- Hh. rewrite (complete_rep_hash _ _ Hx). exact P.
  - exists None. split; [done|]. split; [|done]. intros c. by rewrite (child_rep_pruned _ _ i Hx).
Qed.

Lemma cnode_witness_right c l i : cnode_rep (Keep c) l -> 0 <= i < 4 ^ Z.of_nat (S (n + h0)) ->
  exists w, cnode_witness (F := F) c i = Ok w /\ proves (S (n + h0)) (closed_root h0 (S n) l) i (list_kept h0 l i) w.
Proof.
  intros (q & -> & Hs & _ & Hc & _) Hi. unfold cnode_witness. rewrite node_height_is, at_height_spec by done.
  set (w := way_of _) in *. pose proof (Z.mod_pos_bound i size size_pos) as Hi'.
  destruct (witness_kept_right _ _ _ (Hc w) Hi') as (r & E & P).
  rewrite kept_at_part by done. fold w. rewrite <- children_hash_right with (children := cnode_children c) by done. rewrite node_height_is.
  pose proof (proves_extend (Path.map insert_hash (cnode_children c)) i (list_kept h0 (Path.pick w q).1 (i mod size)) r Hi) as Hp. fold w in Hp.
  destruct (cnode_children c) as [[[x0 x1] x2] x3]. destruct w; cbn in E, P |- *; rewrite E; eexists; (split; [reflexivity|]); apply Hp; exact P.
Qed.

(** *** Forgetting *)

Lemma mark_right v b w marks : version_ok v -> marks_ok marks -> exists marks', mark v b w marks = Ok marks' /\ marks_ok marks'.
Proof.
  intros Hv Hm. unfold mark. destruct v as [x|]; [|by eexists]. destruct b; [|by eexists]. specialize (Hv x eq_refl).
  unfold next. rewrite plain_add_run by lia. cbn. eexists. split; [done|]. unfold forgotten_of_u64.
  pose proof (Z.mod_pos_bound (x + 1) (2 ^ 48) ltac:(lia)). destruct marks as [[[a b] c] d]. destruct w; cbn in *; lia.
Qed.

Lemma mark_runs v b w marks : version_ok v -> exists marks', mark v b w marks = Ok marks'.
Proof.
  intros Hv. unfold mark. destruct v as [x|]; [|by eexists]. destruct b; [|by eexists]. specialize (Hv x eq_refl).
  unfold next. rewrite plain_add_run by lia. by eexists.
Qed.

Lemma child_forget v x l i : version_ok v -> child_rep x l -> 0 <= i < size ->
  exists x', insert_forget v i x = Ok (x', bool_decide (is_Some (list_kept h0 l i))) /\ child_rep x' (list_forget h0 i l).
Proof.
  intros Hv Hx Hi. destruct x as [c|h]; cbn [insert_forget].
  - destruct l as [|d l]; [done|]. rewrite <- Hh in Hi. destruct (complete_rep_forget v _ _ _ Hx Hv Hi) as (x' & E & K). exists x'. split; [exact E|].
    cbn [forget_at list_denotes] in K. destruct (list_forget h0 i (d :: l)) eqn:Hf; [|exact K].
    apply (f_equal length) in Hf. unfold list_forget in Hf. by rewrite length_alter in Hf.
  - exists (HashOf h). rewrite (child_rep_pruned _ _ i Hx). split; [done|]. destruct l as [|d l]; [done|]. rewrite <- Hh in Hi.
    pose proof (complete_rep_pruned_forget _ _ i Hx Hi) as K. cbn [forget_at list_denotes] in K. destruct (list_forget h0 i (d :: l)) eqn:Hf; [|exact K].
    apply (f_equal length) in Hf. unfold list_forget in Hf. by rewrite length_alter in Hf.
Qed.

Lemma closed_forget i l : closed_root h0 (S n) (list_forget h0 i l) = closed_root h0 (S n) l.
Proof. apply closed_root_same, list_forget_same. Qed.
Lemma open_forget k i l : open_root h0 k (list_forget h0 i l) = open_root h0 k l.
Proof. apply open_root_same, list_forget_same. Qed.

Lemma cnode_forget_right v c l i : cnode_rep (Keep c) l -> version_ok v -> 0 <= i < 4 ^ Z.of_nat (S (n + h0)) ->
  exists x, cnode_forget_owned (F := F) v i c = Ok (x, bool_decide (is_Some (list_kept h0 l i))) /\ cnode_rep x (list_forget h0 i l).
Proof.
  intros (q & -> & Hs & E & Hc & _) Hv Hi. unfold cnode_forget_owned. rewrite node_height_is, at_height_spec by done.
  destruct (forget_joined q i Hs Hi) as [Ej Hs']. set (w := way_of _) in *. pose proof (Z.mod_pos_bound i size size_pos) as Hi'.
  destruct (child_forget v _ _ _ Hv (Hc w) Hi') as (x' & Ef & Kx).
  destruct (Path.pick w (cnode_children c)) as [child siblings] eqn:Hp. cbn [fst] in Ef. rewrite Ef. cbn [outcome_bind fst snd].
  assert (Hins : Path.insert w x' siblings = Path.set w x' (cnode_children c)) by (by rewrite <- insert_pick, Hp). rewrite Hins.
  rewrite kept_at_part by done. fold w.
  assert (Hc' : children_rep (Path.set w x' (cnode_children c)) (Path.set w (list_forget h0 (i mod size) (Path.pick w q).1) q)).
  { intros w'. rewrite !pick_set. case_decide; [exact Kx|apply Hc]. }
  pose proof (closed_forget i (joined q)) as Hcl. rewrite Ej in Hcl |- *.
  destruct (children_hashes _) eqn:Hh'.
  - eexists. split; [reflexivity|]. eexists. split; [reflexivity|]. split; [done|]. split; [by rewrite Hcl|]. by eapply all_pruned.
  - destruct (mark_runs v (bool_decide (is_Some (list_kept h0 (Path.pick w q).1 (i mod size)))) w (cnode_forgotten c) Hv) as [marks Em].
    rewrite Em. cbn [outcome_bind]. eexists. split; [reflexivity|]. eexists. split; [reflexivity|]. split; [done|].
    split; [cbn [cnode_hash]; by rewrite Hcl|]. split; [exact Hc'|]. by eapply some_kept.
Qed.

Lemma cnode_pruned_forget h l i : cnode_rep (HashOf h) l -> 0 <= i < 4 ^ Z.of_nat (S (n + h0)) -> cnode_rep (HashOf h) (list_forget h0 i l).
Proof.
  intros (q & -> & Hs & E & Hk) Hi. destruct (forget_joined q i Hs Hi) as [Ej Hs']. pose proof (closed_forget i (joined q)) as Hcl.
  assert (Hk' : forall j, list_kept h0 (list_forget h0 i (joined q)) j = None).
  { intros j. destruct (Z.ltb_spec j 0) as [Hj|Hj]; [unfold list_kept; by rewrite (proj2 (Z.ltb_lt _ _) Hj)|].
    rewrite list_forget_kept by lia. by case_decide. }
  rewrite Ej in *. eexists. split; [reflexivity|]. split; [done|]. split; [by rewrite Hcl|exact Hk'].
Qed.

(** *** Frontier nodes *)

(** A sibling to the left of the frontier is full. *)
Definition full (x : Insert C) (l : list D) : Prop := RC x l /\ length l = M.

Definition siblings_rep (s : Three (Insert C)) (t : list D) (q : quad (list D)) : Prop :=
  match s with
  | Three_0 => q = (t, [], [], [])
  | Three_1 a => exists la, q = (la, t, [], []) /\ full a la
  | Three_2 a b => exists la lb, q = (la, lb, t, []) /\ full a la /\ full b lb
  | Three_3 a b c => exists la lb lc, q = (la, lb, lc, t) /\ full a la /\ full b lb /\ full c lc
  end.

(** The hashes of the children, with [focus] for the open one. *)
Definition frontier_hashes (s : Three (Insert C)) (focus : Hash) : quad Hash :=
  match s with
  | Three_0 => (focus, zero, zero, zero)
  | Three_1 a => (insert_hash a, focus, zero, zero)
  | Three_2 a b => (insert_hash a, insert_hash b, focus, zero)
  | Three_3 a b c => (insert_hash a, insert_hash b, insert_hash c, focus)
  end.

Definition fnode_rep (f : FNode F C) (l : list D) : Prop :=
  exists t q, RF (fnode_focus f) t /\ siblings_rep (fnode_siblings f) t q /\ l = joined q /\ marks_ok (fnode_forgotten f)
    /\ (fnode_cache f = None \/ fnode_cache f = Some (open_root h0 (S n) l) /\ is_Some (cached_hash (fnode_focus f))).

Lemma full_child x l : full x l -> child_rep x l.
Proof. intros [K Hl]. destruct l as [|d l]; [cbn in Hl; pose proof (cells_pos n); lia|exact K]. Qed.

Lemma siblings_shaped s t q : siblings_rep s t q -> (0 < length t <= M)%nat -> shaped M q.
Proof.
  intros Hs Ht. pose proof (cells_pos n).
  destruct s; cbn in Hs; repeat match goal with Hq : exists _, _ |- _ => destruct Hq as [? Hq] end; destruct_and?; subst;
    repeat match goal with Hf : full _ _ |- _ => destruct Hf as [_ Hf] end; cbn; rewrite ?nil_length; cbn; lia.
Qed.

(** The items before the focus stay when it changes. *)
Lemma siblings_tail s t q : siblings_rep s t q ->
  exists pre, joined q = pre ++ t /\ Z.of_nat (length pre) = Threes.len s * Z.of_nat M
    /\ forall t', exists q', siblings_rep s t' q' /\ joined q' = pre ++ t'.
Proof.
  intros Hs. destruct s; cbn in Hs; repeat match goal with Hq : exists _, _ |- _ => destruct Hq as [? Hq] end; destruct_and?; subst;
    repeat match goal with Hf : full _ _ |- _ => pose proof (proj2 Hf); revert Hf end; intros; cbn [joined Threes.len].
  - exists []. rewrite !app_nil_r. split_and!; [done|done|]. intros t'. eexists. split; [reflexivity|]. cbn. by rewrite app_nil_r.
  - exists x. rewrite !app_nil_r. split_and!; [done|lia|]. intros t'. eexists. split; [by eexists|]. cbn. by rewrite app_nil_r.
  - exists (x ++ x0). rewrite !app_nil_r, length_app, <- app_assoc. split_and!; [done|lia|]. intros t'. eexists. split; [by do 2 eexists|]. cbn.
    by rewrite app_nil_r, <- app_assoc.
  - exists (x ++ x0 ++ x1). rewrite !length_app, <- !app_assoc. split_and!; [done|lia|]. intros t'. eexists. split; [by do 3 eexists|]. cbn.
    by rewrite <- !app_assoc.
Qed.

Lemma open_nil k : open_root h0 k [] = zero.
Proof. by destruct k. Qed.

Lemma open_joined s t q : siblings_rep s t q -> (0 < length t <= M)%nat ->
  open_root h0 (S n) (joined q) = root_of (frontier_hashes s (open_root h0 n t)).
Proof.
  intros Hs Ht. pose proof (siblings_shaped _ _ _ Hs Ht) as Hsh. pose proof (joined_nonempty q Hsh) as Hne. cbn [open_root].
  destruct (joined q) as [|x l] eqn:Hj; [done|]. rewrite <- Hj, shaped_chunks by done. unfold root_of.
  assert (En : forall a b c d, node (Z.of_nat (S (n + h0))) a b c d = hash_node (Z.of_nat (S (n + h0))) a b c d) by (intros; apply node_is_hash_node).
  destruct t as [|t0 t]; [cbn in Ht; lia|].
  destruct s; cbn in Hs; repeat match goal with Hq : exists _, _ |- _ => destruct Hq as [? Hq] end; destruct_and?; subst; cbn [frontier_hashes];
    repeat match goal with Hf : full _ _ |- _ => let E := fresh "E" in pose proof (full_child _ _ Hf) as E; apply child_rep_hash in E; rewrite <- E; destruct Hf as [_ Hf] end;
    rewrite ?open_nil; repeat match goal with Hf : length ?y = M |- _ => destruct y; [cbn in Hf; pose proof (cells_pos n); lia|clear Hf] end; done.
Qed.

Lemma focus_length f t : RF f t -> (0 < length t <= M)%nat.
Proof. apply rep_length. Qed.

Lemma fnode_hash_right f l : fnode_rep f l -> fnode_compute f = open_root h0 (S n) l.
Proof.
  intros (t & q & Kt & Hs & -> & _). rewrite (open_joined _ _ _ Hs (focus_length _ _ Kt)).
  unfold fnode_compute. rewrite (rep_hash _ _ Kt), node_height_is. unfold root_of. by destruct (fnode_siblings f).
Qed.

Lemma fnode_length f l : fnode_rep f l -> (0 < length l <= cells (S n))%nat.
Proof.
  intros (t & q & Kt & Hs & -> & _). rewrite cells_S. apply shaped_length. eapply siblings_shaped; [exact Hs|]. by eapply focus_length.
Qed.

Lemma fnode_fill_right f l : fnode_rep f l -> fnode_rep (fnode_fill f) l /\ fnode_cache (fnode_fill f) = Some (open_root h0 (S n) l).
Proof.
  intros K. pose proof (fnode_hash_right _ _ K) as E. destruct K as (t & q & Kt & Hs & -> & Hm & Hc). unfold fnode_fill.
  destruct (fnode_cache f) eqn:Hcf.
  - destruct Hc as [|[Hc Hcc]]; [done|]. split; [|by rewrite Hcf]. exists t, q. split_and!; try done. right. by rewrite Hcf.
  - destruct (rep_fill _ _ Kt) as [Kt' Et]. cbn. rewrite E. split; [|done]. exists t, q. split_and!; try done. right. split; [done|]. by eexists.
Qed.

(** *** Finalizing *)

Lemma focus_complete f t : RF f t -> child_rep (finalize_owned f) t.
Proof. intros K. pose proof (focus_length _ _ K) as Hl. apply rep_finalize in K. destruct t; [cbn in Hl; lia|exact K]. Qed.

Lemma fnode_finalize_right f l : fnode_rep f l -> cnode_rep (fnode_finalize f) l.
Proof.
  intros (t & q & Kt & Hs & -> & _). pose proof (siblings_shaped _ _ _ Hs (focus_length _ _ Kt)) as Hsh. apply focus_complete in Kt.
  unfold fnode_finalize. apply from_children_rep; [|done].
  destruct (fnode_siblings f); cbn in Hs |- *; repeat match goal with Hq : exists _, _ |- _ => destruct Hq as [? Hq] end; destruct_and?; subst;
    intros []; cbn; solve [done|by apply full_child].
Qed.

(** *** Positions *)

Lemma list_position_tail k pre t d : list_position h0 k (pre ++ t ++ [d]) =
  match next_position d with
  | Some p => Some (Z.of_nat (length pre + length t) * item_size h0 + p)
  | None => if (length pre + length t + 1 <? cells k)%nat then Some (Z.of_nat (length pre + length t + 1) * item_size h0) else None
  end.
Proof.
  unfold list_position. rewrite app_assoc, last_snoc, !length_app. cbn [length].
  replace (length pre + length t + 1 - 1)%nat with (length pre + length t)%nat by lia. done.
Qed.

Lemma fnode_position_right f l : fnode_rep f l -> fnode_position f = list_position h0 (S n) l.
Proof.
  intros (t & q & Kt & Hs & -> & _). destruct (siblings_tail _ _ _ Hs) as (pre & -> & Hpre & _).
  pose proof (focus_length _ _ Kt) as Hl. unfold fnode_position. rewrite (rep_position _ _ Kt), Hh. cbn [next_position list_denotes].
  destruct t as [|d t _] using rev_ind; [cbn in Hl; lia|]. rewrite length_app in Hl. cbn in Hl.
  pose proof (list_position_tail n [] t d) as Etail. cbn [app] in Etail. rewrite list_position_tail, Etail. cbn [length]. rewrite item_size_cells, Nat.add_0_l.
  assert (Hk : 0 <= Threes.len (fnode_siblings f) <= 3) by (destruct (fnode_siblings f); cbn; lia).
  rewrite cells_S. destruct (next_position d).
  - f_equal. nia.
  - destruct (Nat.ltb_spec (length t + 1) M).
    + destruct (Nat.ltb_spec (length pre + length t + 1) (4 * M)); [f_equal; nia|nia].
    + assert (Ht : Z.of_nat (length t + 1) = Z.of_nat M) by lia.
      destruct (Z.ltb_spec (Threes.len (fnode_siblings f) + 1) 4), (Nat.ltb_spec (length pre + length t + 1) (4 * M)); [f_equal; nia|nia|nia|done].
Qed.

Lemma fnode_position_range f l p : fnode_rep f l -> list_position h0 (S n) l = Some p -> 0 < p < 4 ^ Z.of_nat (S (n + h0)).
Proof.
  intros K Hp. rewrite <- (fnode_position_right _ _ K) in Hp. destruct K as (t & q & Kt & Hs & -> & _). pose proof size_pos.
  unfold fnode_position in Hp. rewrite (rep_position _ _ Kt), Hh in Hp. rewrite four_pow_S.
  assert (Hk : 0 <= Threes.len (fnode_siblings f) <= 3) by (destruct (fnode_siblings f); cbn; lia).
  destruct (next_position t) as [pt|] eqn:Ht.
  - pose proof (rep_position_range _ _ _ Kt Ht) as Hr. rewrite Hh in Hr. injection Hp as <-. nia.
  - destruct (Z.ltb_spec (Threes.len (fnode_siblings f) + 1) 4); [|done]. injection Hp as <-. nia.
Qed.

(** *** Witnesses through the frontier *)

Lemma set_focus_rep f l t q focus' :
  RF (fnode_focus f) t -> siblings_rep (fnode_siblings f) t q -> fnode_rep f (joined q) -> l = joined q -> RF focus' t ->
  (is_Some (cached_hash (fnode_focus f)) -> is_Some (cached_hash focus')) -> fnode_rep (set_focus focus' f) l.
Proof.
  intros Kt Hs (t1 & q1 & _ & _ & _ & Hm & Hc) -> Kt' Hmono. exists t, q. split_and!; try done. destruct Hc as [|[? ?]]; [by left|right; auto].
Qed.

Definition witnessed (f : FNode F C) (l : list D) (i : Z) (r : outcome never (option (AuthPath * Hash) * FNode F C)) : Prop :=
  exists w f', r = Ok (w, f') /\ fnode_rep f' l /\ fnode_cache f' = fnode_cache f
    /\ proves (S (n + h0)) (open_root h0 (S n) l) i (list_kept h0 l i) w.

Section Through.
Context (f : FNode F C) (t : list D) (q : quad (list D)) (i : Z).
Context (Kt : RF (fnode_focus f) t) (Hs : siblings_rep (fnode_siblings f) t q) (Hf : fnode_rep f (joined q)).
Context (Hi : 0 <= i < 4 ^ Z.of_nat (S (n + h0))).
Notation w := (way_of (i / size)).
Notation hs := (frontier_hashes (fnode_siblings f) (open_root h0 n t)).

Lemma frontier_shaped : shaped M q.
Proof. eapply siblings_shaped; [exact Hs|]. by eapply focus_length. Qed.

Lemma index_below : 0 <= i mod size < 4 ^ Z.of_nat (@height _ F C _).
Proof. rewrite Hh. apply Z.mod_pos_bound, size_pos. Qed.

Lemma witness_focus_case sibs : (Path.pick w q).1 = t -> Path.pick w hs = (open_root h0 n t, sibs) ->
  witnessed f (joined q) i (witness_focus sibs (i mod size) f).
Proof.
  intros Hq Hp. destruct (rep_witness _ _ _ Kt index_below) as (r & f' & E & K' & Hc & P). unfold witness_focus. rewrite E.
  eexists _, _. split; [reflexivity|]. split; [|split; [done|]].
  - eapply set_focus_rep; [exact Kt|exact Hs|exact Hf|done|exact K'|]. cbn [snd]. by rewrite Hc.
  - rewrite (open_joined _ _ _ Hs (focus_length _ _ Kt)), kept_at_part by (done || apply frontier_shaped).
    pose proof (proves_extend hs i (list_kept h0 (Path.pick w q).1 (i mod size)) r Hi) as Hx. rewrite Hp, Hq in Hx. rewrite Hq. apply Hx. rewrite Hh in P. exact P.
Qed.

Lemma witness_sibling_case a sibs : child_rep a (Path.pick w q).1 -> Path.pick w hs = (insert_hash a, sibs) ->
  witnessed f (joined q) i (witness_sibling a sibs (i mod size) f).
Proof.
  intros Ha Hp. destruct (witness_kept_right a _ (i mod size) Ha) as (r & E & P); [apply Z.mod_pos_bound, size_pos|].
  unfold witness_sibling. rewrite E. destruct (rep_fill _ _ Kt) as [Kt' Et].
  eexists _, _. split; [reflexivity|]. split; [|split; [done|]].
  - eapply set_focus_rep; [exact Kt|exact Hs|exact Hf|done|exact Kt'|]. rewrite Et. by eexists.
  - rewrite (open_joined _ _ _ Hs (focus_length _ _ Kt)), kept_at_part by (done || apply frontier_shaped).
    pose proof (proves_extend hs i (list_kept h0 (Path.pick w q).1 (i mod size)) r Hi) as Hx. rewrite Hp in Hx. by apply Hx.
Qed.

Lemma witness_none_case : (Path.pick w q).1 = [] -> witnessed f (joined q) i (Ok (None, f)).
Proof.
  intros Hq. exists None, f. split_and!; [done|exact Hf|done|]. split; [|done]. intros c.
  rewrite kept_at_part by (done || apply frontier_shaped). rewrite Hq. unfold list_kept. rewrite lookup_nil. by destruct (_ <? _).
Qed.
End Through.

Ltac open_siblings Hs := destruct_and?; cbn in Hs;
  repeat match goal with Hq : exists _, _ |- _ => destruct Hq as [? Hq] end; destruct_and?; subst.

Lemma fnode_witness_right f l i : fnode_rep f l -> 0 <= i < 4 ^ Z.of_nat (S (n + h0)) -> witnessed f l i (fnode_witness f i).
Proof.
  intros K Hi. destruct K as (t & q & Kt & Hs & -> & Hm & Hc). assert (Hf : fnode_rep f (joined q)) by (by exists t, q).
  unfold fnode_witness. rewrite node_height_is, at_height_spec, (rep_hash _ _ Kt) by done. cbn [open_hash list_denotes].
  pose proof (witness_focus_case f t q i Kt Hs Hf Hi) as Hfocus. pose proof (witness_sibling_case f t q i Kt Hs Hf Hi) as Hsib.
  pose proof (witness_none_case f t q i Kt Hs Hf Hi) as Hnone.
  destruct (fnode_siblings f); open_siblings Hs; destruct (way_of (i / size)); cbn in Hfocus, Hsib, Hnone;
    solve [by apply Hfocus|by apply Hnone|apply Hsib; [by apply full_child|done]].
Qed.

(** *** Forgetting in the frontier *)

Definition forgot (f : FNode F C) (l : list D) (i : Z) (r : outcome never (bool * FNode F C)) : Prop :=
  exists f', r = Ok (bool_decide (is_Some (list_kept h0 l i)), f') /\ fnode_rep f' (list_forget h0 i l) /\ fnode_cache f' = fnode_cache f.

Section Forgotten.
Context (f : FNode F C) (t : list D) (q : quad (list D)) (i : Z) (v : option Z) (Hv : version_ok v).
Context (Kt : RF (fnode_focus f) t) (Hs : siblings_rep (fnode_siblings f) t q) (Hf : fnode_rep f (joined q)).
Context (Hi : 0 <= i < 4 ^ Z.of_nat (S (n + h0))).
Notation w := (way_of (i / size)).
Notation part' := (list_forget h0 (i mod size) (Path.pick w q).1).
Notation q' := (Path.set w part' q).

Lemma forgot_rep f' t' : RF (fnode_focus f') t' -> siblings_rep (fnode_siblings f') t' q' -> fnode_forgotten f' = fnode_forgotten f ->
  fnode_cache f' = fnode_cache f -> (is_Some (cached_hash (fnode_focus f)) -> is_Some (cached_hash (fnode_focus f'))) ->
  fnode_rep f' (list_forget h0 i (joined q)).
Proof.
  intros Kt' Hs' Em Ec Hmono. pose proof (frontier_shaped f t q Kt Hs) as Hsh. destruct Hf as (t1 & q1 & _ & _ & E1 & Hm & Hc).
  exists t', q'. split; [done|]. split; [done|]. split; [by apply forget_joined|]. split; [by rewrite Em|].
  rewrite Ec, open_forget. destruct Hc as [|[? ?]]; [by left|right; auto].
Qed.

Lemma kept_here : list_kept h0 (joined q) i = list_kept h0 (Path.pick w q).1 (i mod size).
Proof. apply kept_at_part; [|done]. by eapply frontier_shaped. Qed.

Lemma forget_focus_case : (Path.pick w q).1 = t -> (forall t', siblings_rep (fnode_siblings f) t' (Path.set w t' q)) ->
  forgot f (joined q) i (forget_focus v (i mod size) f).
Proof.
  intros Hq Hset. destruct (rep_forget v _ _ _ Kt Hv (index_below i)) as (f' & E & K' & Hc). unfold forget_focus. rewrite E.
  eexists. split; [rewrite kept_here, Hq; reflexivity|]. split; [|done].
  eapply forgot_rep; [exact K'| |done|done|by cbn; rewrite Hc]. rewrite Hq. apply Hset.
Qed.

Lemma forget_sibling_case a set : full a (Path.pick w q).1 ->
  (forall a' la', full a' la' -> siblings_rep (set a') t (Path.set w la' q)) ->
  forgot f (joined q) i (forget_sibling v (i mod size) a set f).
Proof.
  intros Ha Hset. destruct (child_forget v a _ (i mod size) Hv (full_child _ _ Ha)) as (x' & E & K'); [apply Z.mod_pos_bound, size_pos|].
  unfold forget_sibling. rewrite E. eexists. split; [rewrite kept_here; reflexivity|]. split; [|done].
  eapply (forgot_rep _ t); [exact Kt| |done..]. apply Hset. destruct Ha as [_ Hl].
  assert (Hl' : length part' = M) by (unfold list_forget; by rewrite length_alter). split; [|done].
  destruct part'; [cbn in Hl'; pose proof (cells_pos n); lia|exact K'].
Qed.

Lemma forget_none_case : (Path.pick w q).1 = [] -> forgot f (joined q) i (Ok (false, f)).
Proof.
  intros Hq. exists f. rewrite kept_here, Hq. unfold list_kept. rewrite lookup_nil. split; [by destruct (_ <? _)|]. split; [|done].
  eapply (forgot_rep _ t); [done| |done..]. rewrite Hq. change (list_forget h0 (i mod size) []) with (@nil D).
  assert (E : Path.set w [] q = q) by (rewrite <- Hq; destruct q as [[[? ?] ?] ?]; by destruct w). by rewrite E.
Qed.
End Forgotten.

Lemma marked f l i w v r : version_ok v -> forgot f l i r -> exists f', (let! r := r in
    let '(was_forgotten, n) := r in
    let! marks := mark v was_forgotten w (fnode_forgotten n) in
    Ok (was_forgotten, mkFNode (fnode_cache n) marks (fnode_siblings n) (fnode_focus n))) = Ok (bool_decide (is_Some (list_kept h0 l i)), f')
  /\ fnode_rep f' (list_forget h0 i l) /\ fnode_cache f' = fnode_cache f.
Proof.
  intros Hv (f1 & -> & K & Hc). cbn [outcome_bind]. destruct K as (t & q & Kt & Hs & E & Hm & Hcache).
  destruct (mark_right v (bool_decide (is_Some (list_kept h0 l i))) w _ Hv Hm) as (marks & -> & Hm'). cbn [outcome_bind].
  eexists. split; [reflexivity|]. split; [|done]. by exists t, q.
Qed.

Lemma fnode_forget_right v f l i : fnode_rep f l -> version_ok v -> 0 <= i < 4 ^ Z.of_nat (S (n + h0)) ->
  exists f', fnode_forget v i f = Ok (bool_decide (is_Some (list_kept h0 l i)), f') /\ fnode_rep f' (list_forget h0 i l) /\ fnode_cache f' = fnode_cache f.
Proof.
  intros K Hv Hi. destruct K as (t & q & Kt & Hs & -> & Hm & Hc). assert (Hf : fnode_rep f (joined q)) by (by exists t, q).
  unfold fnode_forget. rewrite node_height_is, at_height_spec by done. apply marked; [done|].
  pose proof (forget_focus_case f t q i v Hv Kt Hs Hf Hi) as Hfocus. pose proof (forget_sibling_case f t q i v Hv Kt Hs Hf Hi) as Hsib.
  pose proof (forget_none_case f t q i Kt Hs Hf Hi) as Hnone.
  destruct (fnode_siblings f); open_siblings Hs; destruct (way_of (i / size)); cbn in Hfocus, Hsib, Hnone;
    solve [by apply Hnone|apply Hfocus; [done|]; intros; cbn; eauto 8|apply Hsib; [done|]; intros; cbn; eauto 8].
Qed.
(** *** The laws *)

Lemma node_height_S : @height _ (FNode F C) (CNode C) _ = S (n + h0).
Proof. cbn. by rewrite Hh. Qed.

#[refine] Instance node_represents : @Represents _ (FNode F C) (CNode C) _ (list D) (list_denotes h0 (S n)) := {
  rep := fnode_rep;
  rep_complete := cnode_rep;
}.
Proof.
  all: rewrite ?node_height_S; cbn [open_hash closed_hash next_position kept_at forget_at list_denotes].
  - intros f l K. cbn. unfold fnode_hash. pose proof (fnode_hash_right _ _ K) as E. destruct K as (t & q & _ & _ & _ & _ & Hc).
    destruct Hc as [->|[-> _]]; [exact E|done].
  - intros f l (t & q & _ & _ & _ & _ & Hc). destruct Hc as [|[? _]]; [by left|by right].
  - exact fnode_fill_right.
  - exact fnode_finalize_right.
  - exact fnode_position_right.
  - exact fnode_position_range.
  - intros f l i c K. exact (list_kept_range h0 (S n) l i c (proj2 (fnode_length _ _ K))).
  - intros f l i K Hi. exact (fnode_witness_right _ _ _ K Hi).
  - intros v f l i K Hv Hi. exact (fnode_forget_right _ _ _ _ K Hv Hi).
  - intros x l (q & -> & Hs & K). destruct x as [c|h]; apply K.
  - intros x l i c (q & -> & Hs & _). apply (list_kept_range h0 (S n)). rewrite cells_S. by apply shaped_length.
  - intros h l i (q & -> & Hs & _ & K). apply K.
  - exact cnode_pruned_forget.
  - intros c l (q & -> & Hs & _ & _ & K). exact K.
  - exact cnode_witness_right.
  - exact cnode_forget_right.
Defined.

(** The last item is in the focus. *)
Lemma fnode_last f l d : fnode_rep f (l ++ [d]) -> exists pre t q,
  l = pre ++ t /\ RF (fnode_focus f) (t ++ [d]) /\ siblings_rep (fnode_siblings f) (t ++ [d]) q /\ joined q = l ++ [d] /\ marks_ok (fnode_forgotten f)
  /\ (forall t', exists q', siblings_rep (fnode_siblings f) t' q' /\ joined q' = pre ++ t')
  /\ (fnode_cache f = None \/ fnode_cache f = Some (open_root h0 (S n) (l ++ [d])) /\ is_Some (cached_hash (fnode_focus f))).
Proof.
  intros (t & q & Kt & Hs & E & Hm & Hc). destruct (siblings_tail _ _ _ Hs) as (pre & Ej & _ & Hrest). pose proof (focus_length _ _ Kt) as Hl.
  destruct t as [|d' t _] using rev_ind; [cbn in Hl; lia|]. pose proof E as E'. rewrite Ej, app_assoc in E'. apply app_inj_2 in E' as [-> [= <-]]; [|done].
  exists pre, t, q. split_and!; done.
Qed.

Lemma fnode_rep_new x d : repI x d -> fnode_rep (fnode_new x) [d].
Proof.
  intros K. apply rep_new in K. exists [d], ([d], [], [], []). split_and!; [exact K|done|done|cbn; lia|by left].
Qed.

Lemma push_siblings s t q c s' d : siblings_rep s t q -> full c t -> Threes.push s c = inl s' ->
  exists q', siblings_rep s' [d] q' /\ joined q' = joined q ++ [d].
Proof.
  intros Hs Hc Hp. destruct s; cbn in Hs, Hp; repeat match goal with Hq : exists _, _ |- _ => destruct Hq as [? Hq] end; destruct_and?; simplify_eq;
    cbn; (eexists; split; [by eauto 10|]); cbn; rewrite ?app_nil_r, <- ?app_assoc; done.
Qed.

Lemma push_children s t q c children : siblings_rep s t q -> full c t -> Threes.push s c = inr children -> children_rep children q.
Proof.
  intros Hs Hc Hp. destruct s; cbn in Hs, Hp; repeat match goal with Hq : exists _, _ |- _ => destruct Hq as [? Hq] end; destruct_and?; simplify_eq.
  intros []; by apply full_child.
Qed.

(** How many items there are, in terms of the frontier. *)
Lemma frontier_full s t q : siblings_rep s t q -> (0 < length t <= M)%nat ->
  (length (joined q) = 4 * M <-> Threes.is_full s = true /\ length t = M)%nat.
Proof.
  intros Hs Ht. destruct (siblings_tail _ _ _ Hs) as (pre & -> & Hpre & _). rewrite length_app. destruct s; cbn in *; intuition (lia || done).
Qed.

Lemma fnode_rep_insert f l x d : fnode_rep f l -> repI x d -> (length l < cells (S n))%nat ->
  exists f', fnode_insert_owned f x = inl f' /\ fnode_rep f' (l ++ [d]).
Proof.
  intros (t & q & Kt & Hs & -> & Hm & _) Hx Hl. pose proof (focus_length _ _ Kt) as Ht. rewrite cells_S in Hl. unfold fnode_insert_owned.
  destruct (decide (length t = M)) as [Hfull|Hpart].
  - destruct (rep_insert_full _ _ x Kt Hfull) as (c & -> & Kc). pose proof (frontier_full _ _ _ Hs Ht) as Hff.
    destruct (Threes.push (fnode_siblings f) c) as [s'|children] eqn:Hp.
    + destruct (push_siblings _ _ _ c s' d Hs (conj Kc Hfull) Hp) as (q' & Hs' & <-). eexists. split; [reflexivity|].
      exists [d], q'. split_and!; [by apply rep_new|exact Hs'|done|exact Hm|by left].
    + exfalso. destruct (fnode_siblings f); cbn in Hp, Hff; try done. intuition lia.
  - destruct (rep_insert _ _ x d Kt Hx) as (focus' & -> & Kt'); [lia|]. destruct (siblings_tail _ _ _ Hs) as (pre & -> & _ & Hrest).
    destruct (Hrest (t ++ [d])) as (q' & Hs' & Ej). eexists. split; [reflexivity|].
    exists (t ++ [d]), q'. split_and!; [exact Kt'|exact Hs'|by rewrite Ej, app_assoc|exact Hm|by left].
Qed.

Lemma fnode_rep_full f l x : fnode_rep f l -> length l = cells (S n) -> exists c, fnode_insert_owned f x = inr (x, c) /\ cnode_rep c l.
Proof.
  intros (t & q & Kt & Hs & -> & Hm & _) Hl. pose proof (focus_length _ _ Kt) as Ht. rewrite cells_S in Hl.
  apply (frontier_full _ _ _ Hs Ht) in Hl as [Hf Hfull]. unfold fnode_insert_owned. destruct (rep_insert_full _ _ x Kt Hfull) as (c & -> & Kc).
  pose proof (siblings_shaped _ _ _ Hs Ht) as Hsh.
  destruct (Threes.push (fnode_siblings f) c) as [s'|children] eqn:Hp; [by destruct (fnode_siblings f)|].
  eexists. split; [reflexivity|]. apply from_children_rep; [|done]. by eapply push_children.
Qed.

Lemma fnode_is_full f l : fnode_rep f l -> Threes.is_full (fnode_siblings f) && is_full (fnode_focus f) = bool_decide (length l = cells (S n)).
Proof.
  intros (t & q & Kt & Hs & -> & _). pose proof (focus_length _ _ Kt) as Ht. rewrite cells_S, (rep_is_full _ _ Kt).
  pose proof (frontier_full _ _ _ Hs Ht) as Hff. destruct (Threes.is_full _); cbn [andb].
  - apply bool_decide_ext. intuition.
  - symmetry. apply bool_decide_eq_false. intuition done.
Qed.

Lemma fnode_rep_update {A} (g : X -> outcome never (A * X)) f l d d' x a x' :
  fnode_rep f (l ++ [d]) -> focus (fnode_focus f) = Some x -> g x = Ok (a, x') -> repI x' d' ->
  exists f', fnode_update g f = Ok (Some a, f') /\ fnode_rep f' (l ++ [d']).
Proof.
  intros K Hx Hg Hd. apply fnode_last in K as (pre & t & q & -> & Kt & Hs & Ej & Hm & Hrest & Hc).
  destruct (rep_update g _ _ _ d' x a x' Kt Hx Hg Hd) as (f' & E & Kt'). unfold fnode_update. rewrite E.
  eexists. split; [reflexivity|]. destruct (Hrest (t ++ [d'])) as (q' & Hs' & Ej'). rewrite app_assoc in Ej'.
  exists (t ++ [d']), q'. split_and!; [exact Kt'|exact Hs'|done|exact Hm|]. cbn [fnode_cache fnode_focus].
  case_bool_decide as Heq; [|by left]. destruct Hc as [|[Hc [h Hs0]]]; [by left|right]. rewrite Hc. split; [|by rewrite <- Heq, Hs0].
  rewrite <- Ej, <- Ej', (open_joined _ _ _ Hs (focus_length _ _ Kt)), (open_joined _ _ _ Hs' (focus_length _ _ Kt')).
  destruct (rep_cached _ _ Kt) as [E1|E1]; [by rewrite Hs0 in E1|]. destruct (rep_cached _ _ Kt') as [E2|E2]; [by rewrite <- Heq, E1 in E2|].
  rewrite E1, E2 in Heq. injection Heq as Heq. cbn [open_hash list_denotes] in Heq. by rewrite Heq.
Qed.

Lemma fnode_rep_peek (g : X -> X) f l d x : fnode_rep f (l ++ [d]) -> focus (fnode_focus f) = Some x -> fillsI x (g x) -> repI (g x) d ->
  fnode_rep (set_focus (peek g (fnode_focus f)) f) (l ++ [d]).
Proof.
  intros K Hx Hg Hd. apply fnode_last in K as (pre & t & q & -> & Kt & Hs & Ej & Hm & Hrest & Hc).
  destruct (rep_peek g _ _ _ x Kt Hx Hg Hd) as [Kt' Hmono]. exists (t ++ [d]), q. split_and!; [exact Kt'|exact Hs|done|exact Hm|].
  destruct Hc as [|[? ?]]; [by left|right; auto].
Qed.

Lemma node_grows : @Grows _ (FNode F C) (CNode C) X _ D _ repI fillsI h0 (S n) node_represents.
Proof.
  split.
  - exact fnode_length.
  - exact fnode_rep_new.
  - exact fnode_rep_insert.
  - exact fnode_rep_full.
  - exact fnode_is_full.
  - intros f l d (pre & t & q & -> & Kt & _)%fnode_last. exact (rep_focus _ _ _ Kt).
  - intros A. exact fnode_rep_update.
  - intros g f l d x K Hx Hg Hd. split; [exact (fnode_rep_peek g f l d x K Hx Hg Hd)|exact id].
Qed.
End Nodes.
