(* ===== verification/TctTiers.v ===== *)
(** * The laws of tiers

    Levels of nodes over leaves, by induction on the number of levels; the tiers made of them, as items
    of the tier above; and the top of a tree. *)

From S2P Require Import Prelude.
From S2P Require Import Tct.
From S2P Require Import TctSpec.
From S2P Require Import TctLaws.
From S2P Require Import TctNodes.
Import Hashing.
Import Items.
Import Leaves.
Import Nodes.
Import Tiers.

Section Levels.
Context `{HashEnv} {X CX D : Type} `{!Focus X CX} `{!Denotes D} `{!Forgets D} `{!Represents X CX D}.
Notation h0 := (@height _ X CX _).
Notation size := (item_size h0).

(** ** Levels *)

Lemma nested_height n : @height _ (NestedF X CX n) (NestedC CX n) (@frontier_focus _ _ _ _ (nested_frontier X CX n)) = (n + h0)%nat.
Proof. induction n as [|n IH]; [done|]. cbn. by rewrite <- IH. Qed.

(** The laws of [n] levels; the representation is part of the construction. *)
Record Levels (n : nat) := {
  levels_represent : @Represents _ (NestedF X CX n) (NestedC CX n) (@frontier_focus _ _ _ _ (nested_frontier X CX n)) (list D) (list_denotes h0 n);
  levels_grow : @Grows _ (NestedF X CX n) (NestedC CX n) X (nested_frontier X CX n) D _ rep fills h0 n levels_represent;
}.

Fixpoint levels (n : nat) : Levels n :=
  match n with
  | O => @Build_Levels 0 leaf_represents leaf_grows
  | S m =>
      let L := levels m in
      @Build_Levels (S m) (node_represents (R := levels_represent _ L) (G := levels_grow _ L) h0 m (nested_height m))
        (node_grows (R := levels_represent _ L) (G := levels_grow _ L) h0 m (nested_height m))
  end.

Lemma levels_marks n (f : NestedF X CX (S n)) l : @rep _ _ _ _ _ _ (levels_represent _ (levels (S n))) f l -> marks_ok (fnode_forgotten f).
Proof. intros (t & q & _ & _ & _ & Hm & _). exact Hm. Qed.

(** The laws of the levels of a tier. *)
Class InnerLaws := {
  #[global] inner_represents :: @Represents _ (InnerF X CX) (InnerC CX) _ (list D) (list_denotes h0 LEVELS);
  #[global] inner_grows :: @Grows _ (InnerF X CX) (InnerC CX) X _ D _ rep fills h0 LEVELS inner_represents;
  inner_height : @height _ (InnerF X CX) (InnerC CX) _ = (LEVELS + h0)%nat;
  inner_marks_ok (f : InnerF X CX) (l : list D) : @rep _ _ _ _ _ _ inner_represents f l -> marks_ok (inner_marks f);
}.

#[global] Instance inner_laws : InnerLaws := {
  inner_represents := levels_represent _ (levels LEVELS);
  inner_grows := levels_grow _ (levels LEVELS);
  inner_height := nested_height LEVELS;
  inner_marks_ok := levels_marks 7;
}.
End Levels.
Arguments InnerLaws {_} X CX D {_ _ _}.

Section Tiers.
Context `{HashEnv} {X CX D : Type} `{!Focus X CX} `{!Denotes D} `{!Forgets D} `{!Represents X CX D} `{!InnerLaws X CX D}.
Notation h0 := (@height _ X CX _).
Notation lrep := (@rep _ (InnerF X CX) (InnerC CX) _ (list D) (list_denotes h0 LEVELS) inner_represents).
Notation lrep_complete := (@rep_complete _ (InnerF X CX) (InnerC CX) _ (list D) (list_denotes h0 LEVELS) inner_represents).

(** ** A tier as an item *)

Definition tier_rep (t : FTier X CX) (d : TierD D) : Prop :=
  match t, d with
  | Tier_Frontier f, Open l => lrep f l
  | Tier_Complete c, Closed l => lrep_complete (Keep c) l
  | Tier_Hash h, Closed l => lrep_complete (HashOf h) l
  | Tier_Hash h, Opaque h' => h = h'
  | _, _ => False
  end.

Definition ctier_rep (x : Insert (CTier CX)) (d : TierD D) : Prop :=
  match d with
  | Open l | Closed l => lrep_complete (Inserts.map ctier_inner x) l
  | Opaque h => x = HashOf h
  end.

Lemma list_kept_nil i : list_kept h0 (@nil D) i = None.
Proof. unfold list_kept. rewrite lookup_nil. by destruct (_ <? _). Qed.

Ltac tier_simpl := cbn [hash fill cached_hash finalize_owned position witness forget complete_hash complete_witness forget_owned insert_hash
  tier_focus tier_hash tier_fill tier_cached_hash tier_finalize_owned tier_position tier_witness tier_forget ctier_inner
  open_hash closed_hash next_position kept_at forget_at tier_denotes list_denotes tier_items tier_rep ctier_rep Inserts.map outcome_bind fst snd] in *.
Ltac tier_cases t d K := destruct t as [?f|?c|?h], d as [?l|?l|?h']; cbn [rep rep_complete tier_rep ctier_rep] in K; try (exfalso; exact K).

Lemma tier_height : @height _ (FTier X CX) (CTier CX) _ = @height _ (InnerF X CX) (InnerC CX) _.
Proof. by rewrite inner_height. Qed.

Lemma tier_rep_range t d i k : tier_rep t d -> list_kept h0 (tier_items d) i = Some k -> 0 <= i < 4 ^ Z.of_nat (@height _ (InnerF X CX) (InnerC CX) _).
Proof.
  intros K Hk. tier_cases t d K; tier_simpl; [exact (rep_range _ _ _ _ K Hk)|exact (complete_rep_range _ _ _ _ K Hk)..|].
  by rewrite list_kept_nil in Hk.
Qed.

Lemma proves_none h r i : proves h r i None None.
Proof. by split. Qed.

Lemma tier_rep_witness t d i : tier_rep t d -> 0 <= i < 4 ^ Z.of_nat (@height _ (InnerF X CX) (InnerC CX) _) ->
  exists w t', tier_witness t i = Ok (w, t') /\ tier_rep t' d /\ tier_cached_hash t' = tier_cached_hash t
    /\ proves (@height _ (InnerF X CX) (InnerC CX) _) (@open_hash _ _ (tier_denotes h0) d) i (list_kept h0 (tier_items d) i) w.
Proof.
  intros K Hi. tier_cases t d K; tier_simpl.
  - destruct (rep_witness _ _ _ K Hi) as (w & f' & -> & K' & Hc & P). exists w, (Tier_Frontier f'). by split_and!.
  - destruct (complete_rep_witness _ _ _ K Hi) as (w & -> & P). exists w, (Tier_Complete c). by split_and!.
  - exists None, (Tier_Hash h). split_and!; [done|exact K|done|]. pose proof (complete_rep_pruned _ _ i K) as Hn. tier_simpl. rewrite Hn. apply proves_none.
  - exists None, (Tier_Hash h). split_and!; [done|exact K|done|]. rewrite list_kept_nil. apply proves_none.
Qed.

Lemma tier_rep_forget v t d i : tier_rep t d -> version_ok v -> 0 <= i < 4 ^ Z.of_nat (@height _ (InnerF X CX) (InnerC CX) _) ->
  exists t', tier_forget v i t = Ok (bool_decide (is_Some (list_kept h0 (tier_items d) i)), t')
    /\ tier_rep t' (@forget_at _ _ (tier_denotes h0) i d) /\ tier_cached_hash t' = tier_cached_hash t.
Proof.
  intros K Hv Hi. tier_cases t d K; tier_simpl.
  - destruct (rep_forget v _ _ _ K Hv Hi) as (f' & -> & K' & Hc). exists (Tier_Frontier f'). by split_and!.
  - destruct (complete_rep_forget v _ _ _ K Hv Hi) as (x & -> & K'). eexists. split; [reflexivity|].
    pose proof (complete_rep_hash _ _ K) as Ec. pose proof (complete_rep_hash _ _ K') as Ex. tier_simpl.
    rewrite (closed_root_same _ _ _ _ (list_forget_same h0 i l)), <- Ec in Ex. destruct x; tier_simpl; (split; [exact K'|by f_equal]).
  - exists (Tier_Hash h). pose proof (complete_rep_pruned _ _ i K) as Hn. pose proof (complete_rep_pruned_forget _ _ i K Hi). tier_simpl. rewrite Hn. by split_and!.
  - exists (Tier_Hash h). rewrite list_kept_nil. by split_and!.
Qed.

#[global, refine] Instance tier_represents : @Represents _ (FTier X CX) (CTier CX) _ (TierD D) (tier_denotes h0) := {
  rep := tier_rep;
  rep_complete := ctier_rep;
}.
Proof.
  all: rewrite ?tier_height.
  - intros t d K. tier_cases t d K; tier_simpl; [exact (rep_hash _ _ K)|exact (complete_rep_hash _ _ K)..|exact K].
  - intros t d K. tier_cases t d K; tier_simpl; [exact (rep_cached _ _ K)|right; f_equal..]; [exact (complete_rep_hash _ _ K)..|exact K].
  - intros t d K. tier_cases t d K; tier_simpl; [exact (rep_fill _ _ K)|(split; [exact K|]; f_equal)..]; [exact (complete_rep_hash _ _ K)..|exact K].
  - intros t d K. tier_cases t d K; tier_simpl; [|exact K|exact K|exact (f_equal HashOf K)].
    pose proof (rep_finalize _ _ K) as K'. destruct (finalize_owned f); exact K'.
  - intros t d K. tier_cases t d K; tier_simpl; [exact (rep_position _ _ K)|done..].
  - intros t d p K. tier_cases t d K; tier_simpl; [exact (rep_position_range _ _ _ K)|done..].
  - exact tier_rep_range.
  - intros t d i K Hi. exact (tier_rep_witness t d i K Hi).
  - intros v t d i K Hv Hi. exact (tier_rep_forget v t d i K Hv Hi).
  - intros x [l|l|h] K; [..|by rewrite K]; pose proof (complete_rep_hash _ _ K) as E; destruct x; exact E.
  - intros x [l|l|h] i k K Hk; [exact (complete_rep_range _ _ _ _ K Hk)..|]. tier_simpl. by rewrite list_kept_nil in Hk.
  - intros h [l|l|h'] i K; [exact (complete_rep_pruned _ _ i K)..|]. apply list_kept_nil.
  - intros h [l|l|h'] i K Hi; [exact (complete_rep_pruned_forget _ _ i K Hi)..|exact K].
  - intros c [l|l|h'] K; [exact (complete_rep_kept _ _ K)..|done].
  - intros c [l|l|h'] i K Hi; [exact (complete_rep_witness _ _ _ K Hi)..|done].
  - intros v c [l|l|h'] i K Hv Hi; [| |done]; destruct (complete_rep_forget v _ _ _ K Hv Hi) as (x & E & K'); exists (Inserts.map mkCTier x);
      tier_simpl; rewrite E; (split; [done|]); by destruct x.
Defined.
(** Four to the eighth is not to be evaluated in unary. *)
#[local] Opaque cells.

(** ** Operations on a tier *)

Definition tier_open (d : TierD D) : bool := match d with Open _ => true | _ => false end.
Definition tier_full (d : TierD D) : bool := match d with Open l => bool_decide (length l = cells LEVELS) | _ => true end.
Definition tier_close (d : TierD D) : TierD D := match d with Open l => Closed l | _ => d end.

Lemma tier_rep_length t l : tier_rep t (Open l) -> (0 < length l <= cells LEVELS)%nat.
Proof. destruct t; [|done..]. apply rep_length. Qed.

Lemma tier_rep_new x d : rep x d -> tier_rep (tier_new x) (Open [d]).
Proof. intros K. by apply (rep_new (X := X)). Qed.

Lemma tier_rep_is_full t d : tier_rep t d -> tier_is_full t = tier_full d.
Proof. intros K. tier_cases t d K; [|done..]. exact (rep_is_full _ _ K). Qed.

Lemma tier_rep_finalized t d : tier_rep t d -> tier_is_finalized t = negb (tier_open d).
Proof. intros K. by tier_cases t d K. Qed.

Lemma tier_rep_insert t l x d : tier_rep t (Open l) -> rep x d -> (length l < cells LEVELS)%nat ->
  exists t', tier_insert x t = Ok (inl tt, t') /\ tier_rep t' (Open (l ++ [d])).
Proof.
  intros K Hx Hl. destruct t as [f| |]; [|done..]. unfold tier_insert. rewrite (rep_is_full _ _ K), bool_decide_eq_false_2 by lia.
  destruct (rep_insert f l x d K Hx Hl) as (f' & -> & K'). by eexists.
Qed.

Lemma tier_rep_insert_full t d x : tier_rep t d -> tier_full d = true -> tier_insert x t = Ok (inr x, t).
Proof. intros K Hf. tier_cases t d K; [|done..]. unfold tier_insert. rewrite (rep_is_full _ _ K). cbn in Hf. by rewrite Hf. Qed.

Lemma tier_rep_focus t l d : tier_rep t (Open (l ++ [d])) -> exists x, tier_focus_item t = Some x /\ rep x d.
Proof. intros K. destruct t as [f| |]; [|done..]. exact (rep_focus _ _ _ K). Qed.

Lemma tier_rep_update {A} (g : X -> outcome never (A * X)) t l d d' x a x' :
  tier_rep t (Open (l ++ [d])) -> tier_focus_item t = Some x -> g x = Ok (a, x') -> rep x' d' ->
  exists t', tier_update g t = Ok (Some a, t') /\ tier_rep t' (Open (l ++ [d'])).
Proof.
  intros K Hx Hg Hd. destruct t as [f| |]; [|done..]. destruct (rep_update g _ _ _ d' _ _ _ K Hx Hg Hd) as (f' & E & K').
  unfold tier_update. rewrite E. by eexists.
Qed.

Lemma tier_rep_update_closed {A} (g : X -> outcome never (A * X)) t d : tier_rep t d -> tier_open d = false -> tier_update g t = Ok (None, t).
Proof. intros K Hd. by tier_cases t d K. Qed.

Lemma tier_rep_peek (g : X -> X) t l d x : tier_rep t (Open (l ++ [d])) -> tier_focus_item t = Some x -> fills x (g x) -> rep (g x) d ->
  tier_rep (tier_peek g t) (Open (l ++ [d])) /\ (is_Some (tier_cached_hash t) -> is_Some (tier_cached_hash (tier_peek g t))).
Proof. intros K Hx Hg Hd. destruct t as [f| |]; [|done..]. exact (rep_peek g _ _ _ _ K Hx Hg Hd). Qed.

Lemma tier_rep_peek_closed (g : X -> X) t d : tier_rep t d -> tier_open d = false -> tier_peek g t = t.
Proof. intros K Hd. by tier_cases t d K. Qed.

Lemma tier_rep_finalize t d : tier_rep t d -> exists t', tier_finalize t = (negb (tier_open d), t') /\ tier_rep t' (tier_close d).
Proof.
  intros K. exists (tier_finalize t).2. unfold tier_finalize. cbn [snd].
  tier_cases t d K; (split; [done|]); [|exact K..]. pose proof (rep_finalize _ _ K) as K'. cbn [tier_close]. destruct (finalize_owned f); exact K'.
Qed.

(** ** The top of a tree *)

Definition top_rep (t : FTop X CX) (l : list D) : Prop := match top_inner t with Some f => lrep f l | None => l = [] end.

Lemma top_rep_new b : top_rep (top_new b) [].
Proof. done. Qed.

Ltac top_cases t := destruct t as [tracked [f|]]; unfold top_rep in *; cbn [top_inner] in *.

Lemma top_rep_length t l : top_rep t l -> (length l <= cells LEVELS)%nat.
Proof. top_cases t; [intros K%rep_length; lia|intros ->; apply Nat.le_0_l]. Qed.

Lemma top_rep_hash t l : top_rep t l -> top_hash t = open_root h0 LEVELS l.
Proof. top_cases t; [exact (rep_hash f l)|by intros ->]. Qed.

Lemma top_rep_fill t l : top_rep t l -> top_rep (top_fill t) l.
Proof. top_cases t; [intros K; exact (proj1 (rep_fill _ _ K))|done]. Qed.

Lemma top_rep_position t l : top_rep t l -> top_position t = list_position h0 LEVELS l.
Proof. top_cases t; [exact (rep_position f l)|by intros ->]. Qed.

Lemma top_rep_position_range t l p : top_rep t l -> list_position h0 LEVELS l = Some p -> 0 <= p < 4 ^ Z.of_nat (LEVELS + h0).
Proof.
  rewrite <- inner_height. top_cases t; [intros K Hp; pose proof (rep_position_range f l p K Hp); lia|]. intros -> [= <-].
  pose proof (four_pow_pos (@height _ (InnerF X CX) (InnerC CX) _)). lia.
Qed.

Lemma top_rep_is_full t l : top_rep t l -> top_is_full t = bool_decide (length l = cells LEVELS).
Proof.
  pose proof (cells_pos LEVELS). top_cases t; [exact (rep_is_full f l)|intros ->]. symmetry. apply bool_decide_eq_false. cbn [length]. lia.
Qed.

Lemma top_rep_empty t l : top_rep t l -> top_is_empty t = match l with [] => true | _ => false end.
Proof. top_cases t; [|by intros ->]. intros K%rep_length. destruct l; [cbn in K; lia|done]. Qed.

Lemma top_rep_insert t l x d : top_rep t l -> rep x d -> (length l < cells LEVELS)%nat ->
  exists t', top_insert x t = Ok (inl tt, t') /\ top_rep t' (l ++ [d]) /\ track_forgotten t' = track_forgotten t.
Proof.
  unfold top_insert. top_cases t.
  - intros K Hx Hl. rewrite (rep_is_full _ _ K), bool_decide_eq_false_2 by lia. destruct (rep_insert f l x d K Hx Hl) as (f' & -> & K'). by eexists.
  - intros -> Hx _. eexists. split; [reflexivity|]. split; [|done]. by apply (rep_new (X := X)).
Qed.

Lemma top_rep_insert_full t l x : top_rep t l -> length l = cells LEVELS -> top_insert x t = Ok (inr x, t).
Proof.
  pose proof (cells_pos LEVELS). unfold top_insert. top_cases t; [|intros ->; cbn [length]; lia]. intros K Hl. by rewrite (rep_is_full _ _ K), bool_decide_eq_true_2.
Qed.

Lemma top_rep_focus t l d : top_rep t (l ++ [d]) -> exists x, top_focus t = Some x /\ rep x d.
Proof. unfold top_focus. top_cases t; [exact (rep_focus f l d)|by destruct l]. Qed.

Lemma top_rep_peek (g : X -> X) t l d x : top_rep t (l ++ [d]) -> top_focus t = Some x -> fills x (g x) -> rep (g x) d ->
  top_rep (top_peek g t) (l ++ [d]).
Proof. unfold top_focus, top_peek. top_cases t; [|done]. intros K Hx Hg Hd. exact (proj1 (rep_peek g _ _ _ _ K Hx Hg Hd)). Qed.

Lemma top_rep_peek_empty (g : X -> X) t : top_rep t [] -> top_rep (top_peek g t) [].
Proof. unfold top_peek. top_cases t; [|done]. intros K%rep_length. cbn in K. lia. Qed.

Lemma top_rep_update {A} (g : X -> outcome never (A * X)) t l d d' x a x' :
  top_rep t (l ++ [d]) -> top_focus t = Some x -> g x = Ok (a, x') -> rep x' d' ->
  exists t', top_update g t = Ok (Some a, t') /\ top_rep t' (l ++ [d']) /\ track_forgotten t' = track_forgotten t.
Proof.
  unfold top_focus, top_update. top_cases t; [|done]. intros K Hx Hg Hd. destruct (rep_update g _ _ _ d' _ _ _ K Hx Hg Hd) as (f' & -> & K'). by eexists.
Qed.

Lemma top_rep_update_empty {A} (g : X -> outcome never (A * X)) t : top_rep t [] -> top_update g t = Ok (None, t).
Proof. unfold top_update. top_cases t; [|done]. intros K%rep_length. cbn in K. lia. Qed.

Lemma top_forgotten_ok t l : top_rep t l -> version_ok (top_forgotten t).
Proof.
  unfold top_forgotten. top_cases t; cbn; destruct tracked; intros K v; [|done|intros [= <-]; lia|done].
  apply inner_marks_ok in K. destruct (inner_marks f) as [[[a b] c] d]. cbn in K. intros [= <-].
  repeat match goal with |- context [forgotten_max ?x ?y] => destruct (forgotten_max_either x y) as [-> | ->] end; lia.
Qed.

Lemma top_rep_witness t l i : top_rep t l -> 0 <= i < 4 ^ Z.of_nat (LEVELS + h0) ->
  exists w t', top_witness t i = Ok (w, t') /\ top_rep t' l /\ track_forgotten t' = track_forgotten t
    /\ proves (LEVELS + h0) (open_root h0 LEVELS l) i (list_kept h0 l i) w.
Proof.
  rewrite <- inner_height. unfold top_witness. top_cases t.
  - intros K Hi. destruct (rep_witness _ _ _ K Hi) as (w & f' & -> & K' & _ & P). eexists _, _. by split_and!.
  - intros -> _. exists None, (mkTop tracked None). split_and!; [done..|]. rewrite list_kept_nil. apply proves_none.
Qed.

Lemma top_rep_forget t l i : top_rep t l -> 0 <= i < 4 ^ Z.of_nat (LEVELS + h0) ->
  exists t', top_forget i t = Ok (bool_decide (is_Some (list_kept h0 l i)), t') /\ top_rep t' (list_forget h0 i l) /\ track_forgotten t' = track_forgotten t.
Proof.
  intros K. pose proof (top_forgotten_ok _ _ K) as Hv. revert K. rewrite <- inner_height. unfold top_forget. top_cases t.
  - intros K Hi. destruct (rep_forget _ _ _ _ K Hv Hi) as (f' & -> & K' & _). eexists. by split_and!.
  - intros -> _. eexists. rewrite list_kept_nil. split; [reflexivity|]. by split.
Qed.

(** What is finalized becomes a closed tier; an empty one is only its hash. *)
Definition closed_tier (l : list D) : TierD D := match l with [] => Opaque one | _ => Closed l end.

Lemma top_rep_finalize t l : top_rep t l -> tier_rep (tier_of_top (top_finalize t)) (closed_tier l).
Proof.
  unfold top_finalize. top_cases t; [|by intros ->]. intros K. pose proof (rep_length _ _ K) as Hl. pose proof (rep_finalize _ _ K) as K'.
  destruct l as [|d l]; [cbn in Hl; lia|]. cbn [closed_tier]. destruct (finalize_owned f); exact K'.
Qed.
End Tiers.
