(* ===== verification/TctTree.v ===== *)
(** * The tiered commitment tree: trees and builders

    Models crates/crypto/tct: the indices (index.rs), the tree with its index of witnessed commitments
    (tree.rs), the builders of blocks and epochs (block.rs, epoch.rs), the errors (error.rs) and the
    proofs of inclusion (proof.rs, internal/proof.rs).  A [HashMap] is a [gmap]; where the code
    iterates over one, the order is a parameter. *)

From S2P Require Import Prelude.
From S2P Require Import Tct.
Import Hashing.
Import Items.
Import Tiers.

(** ** Indices *)

(** [within::Block], [within::Epoch] and [within::Tree], of 16-bit numbers. *)
Record within_Block := mkWithinBlock { in_block_commitment : Z }.
Record within_Epoch := mkWithinEpoch { in_epoch_block : Z; in_epoch_commitment : Z }.
Record within_Tree := mkWithinTree { in_tree_epoch : Z; in_tree_block : Z; in_tree_commitment : Z }.

Definition u16_of_block (b : within_Block) : Z := in_block_commitment b.
Definition block_of_u16 (position : Z) : within_Block := mkWithinBlock position.

Definition u32_of_epoch (e : within_Epoch) : Z := Z.lor (Z.shiftl (in_epoch_block e) 16) (in_epoch_commitment e).
Definition epoch_of_u32 (position : Z) : within_Epoch :=
  mkWithinEpoch (Z.shiftr position 16 mod 2 ^ 16) (position mod 2 ^ 16).

Definition u64_of_tree (t : within_Tree) : Z :=
  Z.lor (Z.lor (Z.shiftl (in_tree_epoch t) 32) (Z.shiftl (in_tree_block t) 16)) (in_tree_commitment t).
Definition tree_of_u64 (position : Z) : within_Tree :=
  mkWithinTree (Z.shiftr position 32 mod 2 ^ 16) (Z.shiftr position 16 mod 2 ^ 16) (position mod 2 ^ 16).

(** [Into<u64>] *)
Class IntoU64 (P : Type) := into_u64 : P -> Z.
#[global] Instance block_into_u64 : IntoU64 within_Block := u16_of_block.
#[global] Instance epoch_into_u64 : IntoU64 within_Epoch := u32_of_epoch.
#[global] Instance tree_into_u64 : IntoU64 within_Tree := u64_of_tree.

(** The order in which a [HashMap] is traversed. *)
Class HashOrder `{HashEnv} := {
  hash_order : forall {P}, gmap StateCommitment P -> list (StateCommitment * P);
  hash_order_all : forall {P} (m : gmap StateCommitment P), hash_order m ≡ₚ map_to_list m;
}.

(** ** Trees and builders *)

Inductive Witness := Witness_Forget | Witness_Keep.

Abbreviation Block := (FTier FItem CItem).
Abbreviation CBlock := (CTier CItem).
Abbreviation Epoch := (FTier Block CBlock).
Abbreviation CEpoch := (CTier CBlock).

Abbreviation TREE_HEIGHT := 24%nat.

Section Trees.
Context `{HashEnv}.

(** [Tree] and the two [Builder]s: the index of what is witnessed, and the tree itself. *)
Record Indexed (P I CI : Type) := mkIndexed { index : gmap StateCommitment P; inner : FTop I CI }.
Arguments mkIndexed {P I CI} _ _.
Arguments index {P I CI} _.
Arguments inner {P I CI} _.

Definition BlockBuilder := Indexed within_Block FItem CItem.
Definition EpochBuilder := Indexed within_Epoch Block CBlock.
Definition Tree := Indexed within_Tree Epoch CEpoch.

(** [block::Finalized] and [epoch::Finalized] *)
Record Finalized (P CI : Type) := mkFinalized { finalized_index : gmap StateCommitment P; finalized_inner : Insert (CTop CI) }.
Arguments mkFinalized {P CI} _ _.
Arguments finalized_index {P CI} _.
Arguments finalized_inner {P CI} _.

Definition builder_default {P I CI} : Indexed P I CI := mkIndexed ∅ (top_new false).
Definition tree_default : Tree := mkIndexed ∅ (top_new true).

Section Builders.
Context {P I CI : Type} `{!Focus I CI} `{!IntoU64 P}.

(** [Builder::finalize]; the builder is left empty. *)
Definition builder_finalize (b : Indexed P I CI) : Finalized P CI * Indexed P I CI :=
  (mkFinalized (index b) (top_finalize (inner b)), builder_default).
Definition finalized_default : Finalized P CI := (builder_finalize builder_default).1.
Definition finalized_of_root (root : Hash) : Finalized P CI := mkFinalized ∅ (HashOf root).
(** [Finalized::root] *)
Definition finalized_root (f : Finalized P CI) : Hash :=
  match finalized_inner f with Keep top => complete_hash (ctop_inner top) | HashOf h => h end.

(** [Tree::root] and [Builder::root]: the value, and the caches that are filled. *)
Definition root (t : Indexed P I CI) : Hash * Indexed P I CI := (top_hash (inner t), mkIndexed (index t) (top_fill (inner t))).

(** An operation on the tree inside, which can only panic. *)
Definition on_inner {E A} (f : FTop I CI -> outcome never (A * FTop I CI)) : comp (Indexed P I CI) E A := fun t =>
  match f (inner t) with
  | Ok (a, inner) => (Ok a, mkIndexed (index t) inner)
  | Err e => match e with end
  | Panic => (Panic, t)
  end.

Definition debug_asserts {E} (b : bool) : comp (Indexed P I CI) E unit := if b then ret tt else panic.

(** The commitment is now at the position: a previous one is forgotten. *)
Definition remember {E} (commitment : StateCommitment) (position : P) : comp (Indexed P I CI) E unit :=
  replaced <- gets (fun t => index t !! commitment);;
  modify (fun t => mkIndexed (<[commitment := position]> (index t)) (inner t));;;
  match replaced with
  | Some replaced => forgotten <- on_inner (top_forget (into_u64 replaced));; debug_asserts forgotten
  | None => ret tt
  end.
End Builders.

Definition item_of (witness : Witness) (commitment : StateCommitment) : FItem :=
  match witness with Witness_Keep => item_of_commitment commitment | Witness_Forget => item_of_hash (hash_of commitment) end.

(** [Option::flatten] *)
Definition flatten {A} (o : option (option A)) : option A := mjoin o.

(** [map_err] on the result of an insertion, which returns the item that does not fit. *)
Definition or_error {I E} (r : unit + I) (e : E) : unit + E := match r with inl _ => inl tt | inr _ => inr e end.
Definition into_result {S E} (r : unit + E) : comp S E unit := match r with inl _ => ret tt | inr e => fail e end.
Definition expect_inserted {S E I} (r : unit + I) : comp S E unit := match r with inl _ => ret tt | inr _ => panic end.

(** *** Blocks *)

Inductive BlockInsertError := BlockInsertError_.

Definition block_insert (witness : Witness) (commitment : StateCommitment) : comp BlockBuilder BlockInsertError unit :=
  let item := item_of witness commitment in
  position <- gets (fun b => top_position (inner b));;
  position <- lift (ok_or position BlockInsertError_);;
  position <- (if position <? 2 ^ 16 then ret (block_of_u16 position) else panic);;
  r <- on_inner (top_insert item);;
  expect_inserted r;;;
  match witness with Witness_Keep => remember commitment position | Witness_Forget => ret tt end.

(** *** Epochs *)

Inductive EpochInsertError := EpochInsert_Full | EpochInsert_BlockFull.

(** Into the latest block, unless it is finalized. *)
Definition insert_into_block {E} (item : FItem) (full : E) (block : Block) : outcome never (option (unit + E) * Block) :=
  if tier_is_finalized block then Ok (None, block)
  else let! r := tier_insert item block in Ok (Some (or_error r.1 full), r.2).

Definition epoch_insert (witness : Witness) (commitment : StateCommitment) : comp EpochBuilder EpochInsertError unit :=
  let item := item_of witness commitment in
  position <- gets (fun b => top_position (inner b));;
  position <- lift (ok_or position EpochInsert_Full);;
  position <- (if position <? 2 ^ 32 then ret (epoch_of_u32 position) else panic);;
  r <- on_inner (top_update (insert_into_block item EpochInsert_BlockFull));;
  match flatten r with
  | Some r => into_result r
  | None => r <- on_inner (top_insert (tier_new item));; into_result (or_error r EpochInsert_Full)
  end;;;
  match witness with Witness_Keep => remember commitment position | Witness_Forget => ret tt end.

Inductive EpochInsertBlockError := EpochInsertBlockError_ (block : (Finalized within_Block CItem)).

Section Order.
Context `{!HashOrder}.

Definition epoch_insert_block (block : (Finalized within_Block CItem)) : comp EpochBuilder EpochInsertBlockError Hash :=
  full <- gets (fun b => top_is_full (inner b));;
  (if full then fail (EpochInsertBlockError_ block) else ret tt);;;
  let tier : Block := tier_of_top (finalized_inner block) in
  on_inner (top_update (fun b => Ok (tier_finalize b)));;;
  position <- gets (fun b => top_position (inner b));;
  position <- lift (expect_some position);;
  position <- (if position <? 2 ^ 32 then ret (epoch_of_u32 position) else panic);;
  let block_root := hash tier in
  r <- on_inner (top_insert (fill tier));;
  expect_inserted r;;;
  for_each (hash_order (finalized_index block)) (fun '(c, b) =>
    remember c (mkWithinEpoch (in_epoch_block position) (in_block_commitment b)));;;
  ret block_root.

(** The root is that of the latest block, also when it was finalized before. *)
Definition epoch_end_block : comp EpochBuilder EpochInsertBlockError Hash :=
  r <- on_inner (top_update (fun tier : Block =>
    let '(already_finalized, tier) := tier_finalize tier in
    Ok ((already_finalized, hash tier), fill tier)));;
  let '(already_finalized, finalized_root) := default (true, finalized_root (P := within_Block) (CI := CItem) finalized_default) r in
  (if already_finalized : bool then _ <- epoch_insert_block finalized_default;; ret tt else ret tt);;;
  ret finalized_root.

(** *** The tree *)

Inductive InsertError := Insert_Full | Insert_EpochFull | Insert_BlockFull.
Inductive InsertBlockError := InsertBlock_Full (block : (Finalized within_Block CItem)) | InsertBlock_EpochFull (block : (Finalized within_Block CItem)).
Inductive InsertEpochError := InsertEpochError_ (epoch : (Finalized within_Epoch CBlock)).

(** The closure of [or_else]: into a new block, unless the epoch is finalized. *)
Definition insert_new_block (item : FItem) (epoch : Epoch) : outcome never (option (unit + InsertError) * Epoch) :=
  if tier_is_finalized epoch then Ok (None, epoch)
  else let! r := tier_insert (tier_new item) epoch in Ok (Some (or_error r.1 Insert_EpochFull), r.2).

Definition insert_into_epoch (item : FItem) (epoch : Epoch) : outcome never (option (unit + InsertError) * Epoch) :=
  let! r := tier_update (insert_into_block item Insert_BlockFull) epoch in
  let '(res, epoch) := r in
  match flatten res with
  | Some res => Ok (Some res, epoch)
  | None => insert_new_block item epoch
  end.

Definition tree_insert (witness : Witness) (commitment : StateCommitment) : comp Tree InsertError within_Tree :=
  let item := item_of witness commitment in
  position <- gets (fun t => top_position (inner t));;
  position <- lift (ok_or position Insert_Full);;
  let position := tree_of_u64 position in
  r <- on_inner (top_update (insert_into_epoch item));;
  match flatten r with
  | Some r => into_result r
  | None => r <- on_inner (top_insert (tier_new (tier_new item)));; expect_inserted r
  end;;;
  match witness with Witness_Keep => remember commitment position | Witness_Forget => ret tt end;;;
  ret position.

(** The block goes into the latest epoch; what does not fit is returned. *)
Definition insert_block_into_epoch (tier : Block) (index : gmap StateCommitment within_Block) (epoch : Epoch)
  : outcome never (option (Hash + InsertBlockError) * Epoch) :=
  if tier_is_finalized epoch then Ok (None, epoch)
  else if tier_is_full epoch then Ok (Some (inr (InsertBlock_EpochFull (mkFinalized index (top_of_tier tier)))), epoch)
  else
    let block_root := hash tier in
    let! r := tier_insert (fill tier) epoch in
    match r.1 with inl _ => Ok (Some (inl block_root), r.2) | inr _ => Panic end.

(** The closure of [unwrap_or_else]: into a new epoch. *)
Definition insert_block_as_epoch (tier : Block) (index : gmap StateCommitment within_Block) : comp Tree InsertBlockError Hash :=
  full <- gets (fun t => top_is_full (inner t));;
  if full : bool then fail (InsertBlock_Full (mkFinalized index (top_of_tier tier)))
  else
    let block_root := hash tier in
    r <- on_inner (top_insert (tier_new (fill tier)));;
    expect_inserted r;;;
    ret block_root.

(** Into the latest epoch, or a new one. *)
Definition place_block (tier : Block) (index : gmap StateCommitment within_Block) : comp Tree InsertBlockError Hash :=
  r <- on_inner (top_update (insert_block_into_epoch tier index));;
  match flatten r with
  | Some (inl block_root) => ret block_root
  | Some (inr e) => fail e
  | None => insert_block_as_epoch tier index
  end.

(** The commitments of a block that has been inserted at a position. *)
Definition index_block {E} (position : option Z) (index : gmap StateCommitment within_Block) : comp Tree E unit :=
  position <- lift (expect_some position);;
  let position := tree_of_u64 position in
  for_each (hash_order index) (fun '(c, b) =>
    remember c (mkWithinTree (in_tree_epoch position) (in_tree_block position) (in_block_commitment b))).

Definition tree_insert_block (block : Finalized within_Block CItem) : comp Tree InsertBlockError Hash :=
  let tier : Block := tier_of_top (finalized_inner block) in
  let index := finalized_index block in
  on_inner (top_update (tier_update (fun b : Block => Ok (tier_finalize b))));;;
  position <- gets (fun t => top_position (inner t));;
  block_root <- place_block tier index;;
  index_block position index;;;
  ret block_root.

(** The closure of [end_block], on the latest block. *)
Definition close_or_empty (tier : Block) : outcome never ((bool * Hash) * Block) :=
  let '(already_finalized, tier) := tier_finalize tier in
  Ok (if already_finalized then ((true, finalized_root (P := within_Block) (CI := CItem) finalized_default), tier)
      else ((false, hash tier), fill tier)).

Definition tree_end_block : comp Tree InsertBlockError Hash :=
  r <- on_inner (top_update (tier_update close_or_empty));;
  let '(already_finalized, finalized_root) := default (true, finalized_root (P := within_Block) (CI := CItem) finalized_default) (flatten r) in
  (if already_finalized : bool then _ <- tree_insert_block finalized_default;; ret tt else ret tt);;;
  ret finalized_root.

Definition index_epoch {E} (position : within_Tree) (index : gmap StateCommitment within_Epoch) : comp Tree E unit :=
  for_each (hash_order index) (fun '(c, e) =>
    remember c (mkWithinTree (in_tree_epoch position) (in_epoch_block e) (in_epoch_commitment e))).

Definition tree_insert_epoch (epoch : (Finalized within_Epoch CBlock)) : comp Tree InsertEpochError Hash :=
  full <- gets (fun t => top_is_full (inner t));;
  (if full then fail (InsertEpochError_ epoch) else ret tt);;;
  let tier : Epoch := tier_of_top (finalized_inner epoch) in
  on_inner (top_update (fun e => Ok (tier_finalize e)));;;
  position <- gets (fun t => top_position (inner t));;
  position <- lift (expect_some position);;
  let position := tree_of_u64 position in
  let epoch_root := hash tier in
  r <- on_inner (top_insert (fill tier));;
  expect_inserted r;;;
  index_epoch position (finalized_index epoch);;;
  ret epoch_root.

(** The closure of [end_epoch], on the latest epoch. *)
Definition close_or_empty_epoch (tier : Epoch) : outcome never ((bool * Hash) * Epoch) :=
  let '(already_finalized, tier) := tier_finalize tier in
  Ok (if already_finalized then ((true, finalized_root (P := within_Epoch) (CI := CBlock) finalized_default), tier)
      else ((false, hash tier), fill tier)).

Definition tree_end_epoch : comp Tree InsertEpochError Hash :=
  r <- on_inner (top_update close_or_empty_epoch);;
  let '(already_finalized, finalized_root) := default (true, finalized_root (P := within_Epoch) (CI := CBlock) finalized_default) r in
  (if already_finalized : bool then _ <- tree_insert_epoch finalized_default;; ret tt else ret tt);;;
  ret finalized_root.
End Order.

(** [Tree::forget] *)
Definition tree_forget {E} (commitment : StateCommitment) : comp Tree E bool :=
  within_epoch <- gets (fun t => index t !! commitment);;
  match within_epoch with
  | Some within_epoch =>
      forgotten <- on_inner (top_forget (into_u64 within_epoch));;
      debug_asserts forgotten;;;
      modify (fun t => mkIndexed (base.delete commitment (index t)) (inner t));;;
      ret true
  | None => ret false
  end.

(** *** Proofs *)

Record Proof_ := mkProof { proof_position : Z; auth_path : AuthPath; proof_leaf : StateCommitment }.

Definition proof_root (p : Proof_) : Hash := path_root TREE_HEIGHT (auth_path p) (proof_position p) (hash_of (proof_leaf p)).
Definition verify (p : Proof_) (root : Hash) : outcome Hash unit := if decide (root = proof_root p) then Ok tt else Err root.

(** [Tree::witness] *)
Definition tree_witness {E} (commitment : StateCommitment) : comp Tree E (option Proof_) :=
  position <- gets (fun t => index t !! commitment);;
  match position with
  | None => ret None
  | Some position =>
      w <- on_inner (fun t => top_witness t (into_u64 position));;
      match w with
      | None => ret None
      | Some (auth_path, leaf) =>
          debug_asserts (bool_decide (leaf = hash_of commitment));;;
          ret (Some (mkProof (into_u64 position) auth_path commitment))
      end
  end.

(** *** Reading *)

Definition position_of (commitment : StateCommitment) (t : Tree) : option within_Tree := index t !! commitment.
Definition tree_position (t : Tree) : option within_Tree := tree_of_u64 <$> top_position (inner t).
Definition witnessed_count (t : Tree) : Z := Z.of_nat (size (index t)).
Definition is_empty (t : Tree) : bool := top_is_empty (inner t).
Definition forgotten {E} (t : Tree) : outcome E Z := expect_some (top_forgotten (inner t)).

Definition current_block_root (t : Tree) : Hash * Tree :=
  (match (top_focus (inner t) ≫= tier_focus_item) with
   | Some block => if tier_is_finalized block then (root (builder_default : BlockBuilder)).1 else hash block
   | None => (root (builder_default : BlockBuilder)).1
   end,
   mkIndexed (index t) (top_peek (tier_peek (fun block : Block => if tier_is_finalized block then block else fill block)) (inner t))).

Definition current_epoch_root (t : Tree) : Hash * Tree :=
  (match top_focus (inner t) with
   | Some epoch => if tier_is_finalized epoch then (root (builder_default : EpochBuilder)).1 else hash epoch
   | None => (root (builder_default : EpochBuilder)).1
   end,
   mkIndexed (index t) (top_peek (fun epoch : Epoch => if tier_is_finalized epoch then epoch else fill epoch) (inner t))).
End Trees.
Arguments mkIndexed {_ P I CI} _ _.
Arguments index {_ P I CI} _.
Arguments inner {_ P I CI} _.
Arguments mkFinalized {_ P CI} _ _.
Arguments finalized_index {_ P CI} _.
Arguments finalized_inner {_ P CI} _.
