(* ===== verification/TctContents.v ===== *)
(** * The contents of a tree

    The reference for [TctTree]: a tree as the list of its epochs, lists of blocks, lists of leaves,
    with the position of every commitment that is witnessed, and what the operations do to it.  What is
    added is held from the position that was the next one on, which nothing held before, and the next
    position only goes up: leaf by leaf, block by block, epoch by epoch. *)

From S2P Require Import Prelude.
From S2P Require Import Tct.
From S2P Require Import TctSpec.
From S2P Require Import TctLaws.
From S2P Require Import TctNodes.
From S2P Require Import TctTree.
Import Hashing.
Import Tiers.
Import Items.

(** ** The last of a list *)

Definition split_last {A} (l : list A) : option (list A * A) :=
  match last l with Some x => Some (removelast l, x) | None => None end.

Lemma split_last_snoc {A} (l : list A) x : split_last (l ++ [x]) = Some (l, x).
Proof. unfold split_last. by rewrite last_snoc, removelast_last. Qed.

Lemma split_last_inv {A} (l : list A) r : split_last l = r -> match r with Some (l', x) => l = l' ++ [x] | None => l = [] end.
Proof. intros <-. destruct l as [|x l _] using rev_ind; [done|]. by rewrite split_last_snoc. Qed.

Abbreviation BlockD := (TierD LeafD).
Abbreviation EpochD := (TierD BlockD).
Abbreviation EPOCH_HEIGHT := 16%nat.
Abbreviation capacity := (cells LEVELS).

Section Contents.
Context `{HashEnv}.

#[global] Instance block_denotes : Denotes BlockD := tier_denotes 0.
#[global] Instance epoch_denotes : Denotes EpochD := tier_denotes LEVELS.

(** A tree or a builder: where each witnessed commitment is, and the items. *)
Record ContentsD (D : Type) := mkContents { witnessed : gmap StateCommitment Z; contents : list D }.
Arguments mkContents {D} _ _.
Arguments witnessed {D} _.
Arguments contents {D} _.
Definition TreeD : Type := ContentsD EpochD.

Definition tree_kept (l : list EpochD) (i : Z) : option StateCommitment := list_kept EPOCH_HEIGHT l i.
Definition tree_next (l : list EpochD) : option Z := list_position EPOCH_HEIGHT LEVELS l.
Definition tree_root (l : list EpochD) : Hash := open_root EPOCH_HEIGHT LEVELS l.

Section Moving.
Context {D : Type} `{!Denotes D} (h0 : nat).

(** Exactly the witnessed commitments are kept, each at its position. *)
Definition witnesses_ok (t : ContentsD D) : Prop := forall c i, list_kept h0 (contents t) i = Some c <-> witnessed t !! c = Some i.

(** A commitment is witnessed at its latest position only. *)
Definition move (c : StateCommitment) (p : Z) (t : ContentsD D) : ContentsD D :=
  mkContents (<[c := p]> (witnessed t)) match witnessed t !! c with Some old => list_forget h0 old (contents t) | None => contents t end.

Definition move_all (p : Z) (cs : list (StateCommitment * Z)) (t : ContentsD D) : ContentsD D := foldl (fun t '(c, i) => move c (p + i) t) t cs.
End Moving.

(** ** Operations *)

Definition leaf_of (witness : Witness) (c : StateCommitment) : LeafD :=
  mkLeafD (hash_of c) (match witness with Witness_Keep => Some c | Witness_Forget => None end).

(** In a new epoch, in a new block of the last epoch, or in the last block. *)
Definition open_epoch (d : LeafD) (l : list EpochD) : list EpochD + InsertError :=
  if (length l <? capacity)%nat then inl (l ++ [Open [Open [d]]]) else inr Insert_Full.
Definition open_block (d : LeafD) (blocks : list BlockD) : list BlockD + InsertError :=
  if (length blocks <? capacity)%nat then inl (blocks ++ [Open [d]]) else inr Insert_EpochFull.
Definition add_to_epoch (d : LeafD) (blocks : list BlockD) : list BlockD + InsertError :=
  match split_last blocks with
  | Some (blocks', Open items) => if (length items <? capacity)%nat then inl (blocks' ++ [Open (items ++ [d])]) else inr Insert_BlockFull
  | _ => open_block d blocks
  end.
Definition in_epoch (epochs : list EpochD) (r : list BlockD + InsertError) : list EpochD + InsertError :=
  match r with inl blocks => inl (epochs ++ [Open blocks]) | inr e => inr e end.
Definition add_leaf (d : LeafD) (l : list EpochD) : list EpochD + InsertError :=
  match split_last l with
  | Some (epochs, Open blocks) => in_epoch epochs (add_to_epoch d blocks)
  | _ => open_epoch d l
  end.

Definition spec_insert (witness : Witness) (c : StateCommitment) (t : TreeD) : outcome InsertError Z * TreeD :=
  match tree_next (contents t) with
  | None => (Err Insert_Full, t)
  | Some p =>
      match add_leaf (leaf_of witness c) (contents t) with
      | inr e => (Err e, t)
      | inl l =>
          let t := mkContents (witnessed t) l in
          (Ok p, match witness with Witness_Keep => move EPOCH_HEIGHT c p t | Witness_Forget => t end)
      end
  end.

Definition spec_forget (c : StateCommitment) (t : TreeD) : bool * TreeD :=
  match witnessed t !! c with
  | Some i => (true, mkContents (base.delete c (witnessed t)) (list_forget EPOCH_HEIGHT i (contents t)))
  | None => (false, t)
  end.

Definition close_tier {D} (d : TierD D) : TierD D := match d with Open l => Closed l | _ => d end.

Definition close_block (l : list EpochD) : list EpochD :=
  match split_last l with
  | Some (epochs, Open blocks) =>
      match split_last blocks with Some (blocks', b) => epochs ++ [Open (blocks' ++ [close_tier b])] | None => l end
  | _ => l
  end.
Definition close_epoch (l : list EpochD) : list EpochD :=
  match split_last l with Some (epochs, e) => epochs ++ [close_tier e] | None => l end.

Inductive Full := Tree_is_full | Epoch_is_full.

Definition add_block (b : BlockD) (l : list EpochD) : list EpochD + Full :=
  match split_last l with
  | Some (epochs, Open blocks) => if (length blocks <? capacity)%nat then inl (epochs ++ [Open (blocks ++ [b])]) else inr Epoch_is_full
  | _ => if (length l <? capacity)%nat then inl (l ++ [Open [b]]) else inr Tree_is_full
  end.

(** Also when it does not fit, the open block is closed. *)
Definition spec_insert_block (b : BlockD) (cs : list (StateCommitment * Z)) (t : TreeD) : outcome Full Hash * TreeD :=
  let l := close_block (contents t) in
  match add_block b l with
  | inr e => (Err e, mkContents (witnessed t) l)
  | inl l' => (Ok (closed_hash b), move_all EPOCH_HEIGHT (default 0 (tree_next l)) cs (mkContents (witnessed t) l'))
  end.

Definition spec_insert_epoch (e : EpochD) (cs : list (StateCommitment * Z)) (t : TreeD) : outcome Full Hash * TreeD :=
  if (length (contents t) <? capacity)%nat then
    let l := close_epoch (contents t) in
    (Ok (closed_hash e), move_all EPOCH_HEIGHT (default 0 (tree_next l)) cs (mkContents (witnessed t) (l ++ [e])))
  else (Err Tree_is_full, t).

(** An empty block, or epoch, when the last one is closed. *)
Definition spec_end_block (t : TreeD) : outcome Full Hash * TreeD :=
  match split_last (contents t) with
  | Some (_, Open blocks) =>
      match split_last blocks with
      | Some (_, Open items) => (Ok (closed_root 0 LEVELS items), mkContents (witnessed t) (close_block (contents t)))
      | _ => spec_insert_block (Opaque one) [] t
      end
  | _ => spec_insert_block (Opaque one) [] t
  end.
Definition spec_end_epoch (t : TreeD) : outcome Full Hash * TreeD :=
  match split_last (contents t) with
  | Some (_, Open blocks) => (Ok (closed_root LEVELS LEVELS blocks), mkContents (witnessed t) (close_epoch (contents t)))
  | _ => spec_insert_epoch (Opaque one) [] t
  end.
End Contents.

(** ** What is kept, and where the next goes *)

(** From [f] to [g], the [m] positions from [p] on, free so far, have come to hold [k]. *)
Definition holds_at `{HashEnv} (p m : Z) (k f g : Z -> option StateCommitment) : Prop :=
  forall i, 0 <= i -> (p <= i < p + m -> f i = None /\ g i = k (i - p)) /\ (~ p <= i < p + m -> g i = f i).

Arguments mkContents {_ D} _ _.
Arguments witnessed {_ D} _.
Arguments contents {_ D} _.

Section Growth.
Context `{Denotes D} (h0 : nat).
Notation size := (item_size h0).

Lemma list_kept_snoc l d i : 0 <= i ->
  list_kept h0 (l ++ [d]) i = if decide (i / size = Z.of_nat (length l)) then kept_at d (i mod size) else list_kept h0 l i.
Proof.
  intros Hi. pose proof (item_size_pos h0) as Hs. pose proof (Z.div_pos i _ Hi Hs). unfold list_kept. destruct (Z.ltb_spec i 0); [lia|].
  case_decide as Hq; [by rewrite Hq, Nat2Z.id, list_lookup_middle|].
  destruct (decide (Z.to_nat (i / size) < length l)%nat); [by rewrite lookup_app_l|].
  rewrite lookup_app_r, (lookup_ge_None_2 l) by lia. rewrite lookup_ge_None_2; [done|]. cbn. lia.
Qed.

Lemma list_kept_after l i : 0 <= i -> i / size = Z.of_nat (length l) -> list_kept h0 l i = None.
Proof.
  intros Hi Hq. unfold list_kept. destruct (Z.ltb_spec i 0); [done|]. by rewrite Hq, Nat2Z.id, lookup_ge_None_2.
Qed.

Lemma quotient_range q p m i : 0 <= p -> p + m <= size -> 0 <= i ->
  (Z.of_nat q * size + p <= i < Z.of_nat q * size + p + m <-> i / size = Z.of_nat q /\ p <= i mod size < p + m)
  /\ (i / size = Z.of_nat q -> i = Z.of_nat q * size + i mod size).
Proof.
  intros Hp Hpm Hi. pose proof (item_size_pos h0) as Hs. pose proof (Z.mod_pos_bound i _ Hs). pose proof (Z.div_mod i size ltac:(lia)) as E.
  split; [split|]; [|intros [Eq ?]; rewrite Eq in E; lia|intros Eq; rewrite Eq in E; lia].
  intros Hr. assert (Eq : i / size = Z.of_nat q); [|rewrite Eq in E; lia].
  symmetry. apply (Z.div_unique_pos i size _ (i - Z.of_nat q * size)); lia.
Qed.

Lemma holds_push l d p m k : holds_at p m k (fun _ => None) (kept_at d) -> 0 <= p -> p + m <= size ->
  holds_at (Z.of_nat (length l) * size + p) m k (list_kept h0 l) (list_kept h0 (l ++ [d])).
Proof.
  intros Hk Hp Hpm i Hi. pose proof (item_size_pos h0) as Hs. pose proof (Z.mod_pos_bound i _ Hs). destruct (Hk (i mod size)) as [Hin Hout]; [lia|].
  rewrite list_kept_snoc by done. destruct (quotient_range (length l) p m i Hp Hpm Hi) as [Hq E].
  destruct (decide (i / size = _)) as [Eq|Hne].
  - specialize (E Eq). rewrite (list_kept_after l i) by done. split; intros Hr.
    + split; [done|]. rewrite (proj2 (Hin (proj2 (proj1 Hq Hr)))). f_equal. lia.
    + apply Hout. tauto.
  - split; [tauto|done].
Qed.

Lemma holds_last l d d' p m k : holds_at p m k (kept_at d) (kept_at d') -> 0 <= p -> p + m <= size ->
  holds_at (Z.of_nat (length l) * size + p) m k (list_kept h0 (l ++ [d])) (list_kept h0 (l ++ [d'])).
Proof.
  intros Hk Hp Hpm i Hi. pose proof (item_size_pos h0) as Hs. pose proof (Z.mod_pos_bound i _ Hs). destruct (Hk (i mod size)) as [Hin Hout]; [lia|].
  rewrite !list_kept_snoc by done. destruct (quotient_range (length l) p m i Hp Hpm Hi) as [Hq E].
  destruct (decide (i / size = _)) as [Eq|Hne]; [|split; [tauto|done]]. specialize (E Eq). split; intros Hr.
  - destruct (Hin (proj2 (proj1 Hq Hr))) as [-> ->]. split; [done|]. f_equal. lia.
  - apply Hout. tauto.
Qed.

Lemma same_last l d d' : (forall j, kept_at d j = kept_at d' j) -> forall i, list_kept h0 (l ++ [d]) i = list_kept h0 (l ++ [d']) i.
Proof.
  intros Hk i. destruct (Z.ltb_spec i 0) as [Hi|Hi]; [unfold list_kept; by rewrite (proj2 (Z.ltb_lt _ _) Hi)|].
  rewrite !list_kept_snoc by done. by case_decide.
Qed.

Lemma position_snoc n l d : list_position h0 n (l ++ [d]) =
  match next_position d with
  | Some p => Some (Z.of_nat (length l) * size + p)
  | None => if (S (length l) <? cells n)%nat then Some (Z.of_nat (S (length l)) * size) else None
  end.
Proof.
  unfold list_position. rewrite last_snoc, length_app. cbn [length]. replace (length l + 1)%nat with (S (length l)) by lia.
  replace (S (length l) - 1)%nat with (length l) by lia. done.
Qed.

(** The position after a list whose last item is closed. *)
Lemma position_closed n l : (length l <= cells n)%nat -> (forall d, last l = Some d -> next_position d = None) ->
  list_position h0 n l = if (length l <? cells n)%nat then Some (Z.of_nat (length l) * size) else None.
Proof.
  intros Hl Hd. destruct l as [|d l _] using rev_ind.
  - pose proof (cells_pos n). rewrite (proj2 (Nat.ltb_lt _ _)); [done|cbn [length]; lia].
  - rewrite position_snoc, Hd, length_app by (by rewrite last_snoc). cbn [length]. by rewrite Nat.add_1_r.
Qed.
End Growth.

#[local] Opaque cells.

(** ** Growth of the contents *)

Section Contents.
Context `{HashEnv}.

Definition shape (l : list EpochD) : Prop :=
  (length l <= capacity)%nat /\ forall epochs blocks, l = epochs ++ [Open blocks] ->
    (0 < length blocks <= capacity)%nat /\ forall blocks' items, blocks = blocks' ++ [Open items] -> (0 < length items <= capacity)%nat.

Lemma capacity_Z : Z.of_nat capacity = 65536.
Proof. by rewrite cells_Z. Qed.

(** Where the next leaf goes, level by level. *)
Lemma block_next (items : list LeafD) : (length items <= capacity)%nat ->
  list_position 0 LEVELS items = if (length items <? capacity)%nat then Some (Z.of_nat (length items)) else None.
Proof.
  intros Hl. rewrite position_closed by done. case_match; [|done]. f_equal. change (item_size 0) with 1. lia.
Qed.

Definition last_open {D} (l : list (TierD D)) : bool := match last l with Some (Open _) => true | _ => false end.

Lemma closed_next_position {D} (h0 : nat) `{!Denotes D} (l : list (TierD D)) d : last_open l = false -> last l = Some d ->
  @next_position _ _ (tier_denotes h0) d = None.
Proof. unfold last_open. intros Hl Hd. rewrite Hd in Hl. by destruct d. Qed.

Lemma epoch_next_closed (blocks : list BlockD) : (length blocks <= capacity)%nat -> last_open blocks = false ->
  list_position LEVELS LEVELS blocks = if (length blocks <? capacity)%nat then Some (Z.of_nat (length blocks) * 65536) else None.
Proof. intros Hl Ho. rewrite position_closed; [done|done|]. intros d. by apply closed_next_position. Qed.

Lemma epoch_next_open (blocks : list BlockD) items : (0 < length items <= capacity)%nat ->
  list_position LEVELS LEVELS (blocks ++ [Open items]) =
    if (length items <? capacity)%nat then Some (Z.of_nat (length blocks) * 65536 + Z.of_nat (length items))
    else if (S (length blocks) <? capacity)%nat then Some (Z.of_nat (S (length blocks)) * 65536) else None.
Proof.
  intros Hl. rewrite position_snoc. change (next_position (Open items)) with (list_position 0 LEVELS items). rewrite block_next by lia. by destruct (_ <? _)%nat.
Qed.

Lemma tree_next_closed (l : list EpochD) : (length l <= capacity)%nat -> last_open l = false ->
  tree_next l = if (length l <? capacity)%nat then Some (Z.of_nat (length l) * 4294967296) else None.
Proof. intros Hl Ho. unfold tree_next. rewrite position_closed; [done|done|]. intros d. by apply closed_next_position. Qed.

Lemma tree_next_open (l : list EpochD) blocks :
  tree_next (l ++ [Open blocks]) =
    match list_position LEVELS LEVELS blocks with
    | Some p => Some (Z.of_nat (length l) * 4294967296 + p)
    | None => if (S (length l) <? capacity)%nat then Some (Z.of_nat (S (length l)) * 4294967296) else None
    end.
Proof. unfold tree_next. rewrite position_snoc. reflexivity. Qed.

(** Strictly later, or at the end. *)
Definition later (p : Z) (next : option Z) : Prop := match next with Some q => p < q | None => True end.

Definition leaf_at (d : LeafD) : Z -> option StateCommitment := fun _ => leaf_kept d.

Lemma leaf_holds d : holds_at 0 1 (leaf_at d) (fun _ => None) (kept_at d).
Proof.
  intros i Hi. cbn. split; intros Hr; [|by rewrite decide_False by lia]. by rewrite decide_True by lia.
Qed.

Section Opened.
Context {D : Type} `{!Denotes D} (h0 : nat).

Lemma opened_holds (d : D) p m k : holds_at p m k (fun _ => None) (kept_at d) -> 0 <= p -> p + m <= item_size h0 ->
  holds_at p m k (fun _ => None) (@kept_at _ _ (tier_denotes h0) (Open [d])).
Proof.
  intros Hk Hp Hm i Hi. destruct (holds_push h0 [] d p m k Hk Hp Hm i Hi) as [Hin Hout]. change (Z.of_nat (length []) * item_size h0 + p) with p in *.
  split; intros Hr; [split; [done|exact (proj2 (Hin Hr))]|]. etransitivity; [exact (Hout Hr)|]. unfold list_kept. rewrite lookup_nil. by destruct (_ <? _).
Qed.

Lemma open_push (l : list D) d p m k : holds_at p m k (fun _ => None) (kept_at d) -> 0 <= p -> p + m <= item_size h0 ->
  holds_at (Z.of_nat (length l) * item_size h0 + p) m k (@kept_at _ _ (tier_denotes h0) (Open l)) (@kept_at _ _ (tier_denotes h0) (Open (l ++ [d]))).
Proof. apply holds_push. Qed.

Lemma open_last (l : list D) d d' p m k : holds_at p m k (kept_at d) (kept_at d') -> 0 <= p -> p + m <= item_size h0 ->
  holds_at (Z.of_nat (length l) * item_size h0 + p) m k (@kept_at _ _ (tier_denotes h0) (Open (l ++ [d]))) (@kept_at _ _ (tier_denotes h0) (Open (l ++ [d']))).
Proof. apply holds_last. Qed.
End Opened.

Lemma last_open_snoc {D} (l : list (TierD D)) d : last_open (l ++ [d]) = match d with Open _ => true | _ => false end.
Proof. unfold last_open. by rewrite last_snoc. Qed.

Lemma leaf_into_block epochs blocks items d : (length epochs < capacity)%nat -> (length blocks < capacity)%nat -> (0 < length items < capacity)%nat ->
  let p := Z.of_nat (length epochs) * 4294967296 + (Z.of_nat (length blocks) * 65536 + Z.of_nat (length items)) in
  let l := epochs ++ [Open (blocks ++ [Open items])] in let l' := epochs ++ [Open (blocks ++ [Open (items ++ [d])])] in
  tree_next l = Some p /\ holds_at p 1 (leaf_at d) (tree_kept l) (tree_kept l') /\ later p (tree_next l').
Proof.
  intros He Hb Hi p l l'. pose proof capacity_Z as Hcap. split_and!.
  - unfold l. rewrite tree_next_open, epoch_next_open by lia. by rewrite (proj2 (Nat.ltb_lt _ _)) by lia.
  - apply (holds_last EPOCH_HEIGHT); [|lia|unfold item_size; lia]. apply (open_last LEVELS); [|lia|unfold item_size; lia].
    pose proof (open_push 0 items d 0 1 (leaf_at d) (leaf_holds d) ltac:(lia) ltac:(done)) as Hk. unfold item_size in Hk. cbn [Z.of_nat Z.pow] in Hk.
    by rewrite Z.mul_1_r, Z.add_0_r in Hk.
  - unfold l', later. rewrite tree_next_open, epoch_next_open by (rewrite length_app; cbn [length]; lia). rewrite length_app. cbn [length].
    destruct (Nat.ltb_spec (length items + 1) capacity); [lia|]. destruct (Nat.ltb_spec (S (length blocks)) capacity); [lia|].
    destruct (Nat.ltb_spec (S (length epochs)) capacity); [lia|done].
Qed.
Lemma block_into_epoch epochs blocks (b : BlockD) m k : (length epochs < capacity)%nat -> (length blocks < capacity)%nat -> last_open blocks = false ->
  holds_at 0 m k (fun _ => None) (kept_at b) -> m <= 65536 -> (forall q, next_position b = Some q -> 0 < q) ->
  let p := Z.of_nat (length epochs) * 4294967296 + Z.of_nat (length blocks) * 65536 in
  let l := epochs ++ [Open blocks] in let l' := epochs ++ [Open (blocks ++ [b])] in
  tree_next l = Some p /\ holds_at p m k (tree_kept l) (tree_kept l') /\ later p (tree_next l').
Proof.
  intros He Hb Ho Hk Hm Hq p l l'. pose proof capacity_Z as Hcap. split_and!.
  - unfold l. rewrite tree_next_open, epoch_next_closed by (lia || done). by rewrite (proj2 (Nat.ltb_lt _ _)) by lia.
  - apply (holds_last EPOCH_HEIGHT); [|lia|unfold item_size; lia].
    pose proof (open_push LEVELS blocks b 0 m k Hk ltac:(lia) ltac:(done)) as Hk'. by rewrite Z.add_0_r in Hk'.
  - unfold l', later. rewrite tree_next_open, position_snoc. specialize (Hq). change (item_size LEVELS) with 65536.
    destruct (next_position b) as [q|]; [specialize (Hq q eq_refl); lia|].
    destruct (Nat.ltb_spec (S (length blocks)) capacity); [lia|]. destruct (Nat.ltb_spec (S (length epochs)) capacity); [lia|done].
Qed.

Lemma epoch_into_tree l (e : EpochD) m k : (length l < capacity)%nat -> last_open l = false ->
  holds_at 0 m k (fun _ => None) (kept_at e) -> m <= 4294967296 -> (forall q, next_position e = Some q -> 0 < q) ->
  let p := Z.of_nat (length l) * 4294967296 in
  tree_next l = Some p /\ holds_at p m k (tree_kept l) (tree_kept (l ++ [e])) /\ later p (tree_next (l ++ [e])).
Proof.
  intros Hl Ho Hk Hm Hq p. pose proof capacity_Z as Hcap. split_and!.
  - rewrite tree_next_closed by (lia || done). by rewrite (proj2 (Nat.ltb_lt _ _)) by lia.
  - pose proof (holds_push EPOCH_HEIGHT l e 0 m k Hk ltac:(lia) ltac:(done)) as Hk'. by rewrite Z.add_0_r in Hk'.
  - unfold later, tree_next. rewrite position_snoc. change (item_size EPOCH_HEIGHT) with 4294967296.
    destruct (next_position e) as [q|]; [specialize (Hq q eq_refl); lia|]. destruct (Nat.ltb_spec (S (length l)) capacity); [lia|done].
Qed.

Lemma new_block_holds d : holds_at 0 1 (leaf_at d) (fun _ => None) (kept_at (Open [d])).
Proof. apply opened_holds; [apply leaf_holds|lia|done]. Qed.

Lemma new_block_next d q : next_position (Open [d] : BlockD) = Some q -> 0 < q.
Proof. change (list_position 0 LEVELS [d] = Some q -> 0 < q). pose proof capacity_Z. rewrite block_next by (cbn [length]; lia). cbn [length]. case_match; [|done]. intros [= <-]. lia. Qed.

Lemma new_epoch_holds (b : BlockD) m k : holds_at 0 m k (fun _ => None) (kept_at b) -> m <= 65536 -> holds_at 0 m k (fun _ => None) (kept_at (Open [b])).
Proof. intros Hk Hm. by apply opened_holds. Qed.

Lemma new_epoch_next (b : BlockD) q : (forall q, next_position b = Some q -> 0 < q) -> next_position (Open [b] : EpochD) = Some q -> 0 < q.
Proof.
  intros Hb. change (list_position LEVELS LEVELS ([] ++ [b]) = Some q -> 0 < q). rewrite position_snoc. change (item_size LEVELS) with 65536. cbn [length].
  destruct (next_position b) as [q'|]; [specialize (Hb q' eq_refl); intros [= <-]; lia|]. case_match; [intros [= <-]; lia|done].
Qed.

(** A new leaf is held at the position that was the next one, and positions only go up. *)
Definition added (d : LeafD) (p : Z) (l : list EpochD) (r : list EpochD + InsertError) : Prop :=
  match r with
  | inl l' => holds_at p 1 (leaf_at d) (tree_kept l) (tree_kept l') /\ later p (tree_next l')
  | inr Insert_BlockFull => exists epochs blocks items, l = epochs ++ [Open (blocks ++ [Open items])] /\ length items = capacity
  | inr Insert_EpochFull => exists epochs blocks, l = epochs ++ [Open blocks] /\ length blocks = capacity /\ last_open blocks = false
  | inr Insert_Full => False
  end.

Lemma open_epoch_right d l p : shape l -> last_open l = false -> tree_next l = Some p -> added d p l (open_epoch d l).
Proof.
  intros [Hl _] Ho Hp. unfold open_epoch. rewrite tree_next_closed in Hp by done. destruct (length l <? capacity)%nat eqn:E; [|done].
  injection Hp as <-. apply epoch_into_tree; [by apply Nat.ltb_lt|done| |lia|].
  - apply new_epoch_holds; [apply new_block_holds|lia].
  - intros q. apply new_epoch_next, new_block_next.
Qed.

Lemma open_block_right d epochs blocks p : shape (epochs ++ [Open blocks]) -> last_open blocks = false -> tree_next (epochs ++ [Open blocks]) = Some p ->
  added d p (epochs ++ [Open blocks]) (in_epoch epochs (open_block d blocks)).
Proof.
  intros [Hl Hs] Ho Hp. destruct (Hs epochs blocks eq_refl) as [Hb _]. rewrite length_app in Hl. cbn [length] in Hl.
  unfold open_block. destruct (Nat.ltb_spec (length blocks) capacity) as [Hlt|Hge].
  - destruct (block_into_epoch epochs blocks (Open [d]) 1 (leaf_at d)) as (E & Hk & Hn); [lia|lia|done|apply new_block_holds|lia|apply new_block_next|].
    rewrite Hp in E. injection E as ->. by split.
  - exists epochs, blocks. split_and!; [done|lia|done].
Qed.

Lemma add_leaf_right d l p : shape l -> tree_next l = Some p -> added d p l (add_leaf d l).
Proof.
  intros Hsh Hp. unfold add_leaf. destruct (split_last l) as [[epochs e]|] eqn:El; apply split_last_inv in El as ->; [|by apply open_epoch_right].
  destruct e as [blocks|?|?]; [|by apply open_epoch_right; [|apply last_open_snoc|]..]. unfold add_to_epoch.
  destruct (split_last blocks) as [[blocks' b]|] eqn:Eb; apply split_last_inv in Eb as ->; [|by apply open_block_right].
  destruct b as [items|?|?]; [|by apply open_block_right; [|apply last_open_snoc|]..].
  destruct Hsh as [Hl Hs]. destruct (Hs epochs _ eq_refl) as [Hb Hi]. destruct (Hi blocks' items eq_refl). rewrite !length_app in *. cbn [length] in *.
  destruct (Nat.ltb_spec (length items) capacity) as [Hlt|Hge]; [|exists epochs, blocks', items; split; [done|lia]].
  destruct (leaf_into_block epochs blocks' items d) as (E & Hk & Hn); [lia..|]. rewrite Hp in E. injection E as ->. by split.
Qed.
(** ** Blocks and epochs *)

(** An item as a whole: nothing follows it, and nothing is kept beyond it. *)
Definition whole {D} `{!Denotes D} (h : nat) (d : D) : Prop :=
  next_position d = None /\ forall i c, kept_at d i = Some c -> 0 <= i < 4 ^ Z.of_nat h.

Lemma whole_holds {D} `{!Denotes D} h (d : D) : whole h d -> holds_at 0 (4 ^ Z.of_nat h) (kept_at d) (fun _ => None) (kept_at d).
Proof.
  intros [_ Hk] i Hi. split; intros Hr; [by rewrite Z.sub_0_r|]. destruct (kept_at d i) eqn:E; [|done]. apply Hk in E. lia.
Qed.

Definition block_closed (l : list EpochD) : Prop := forall epochs blocks, l = epochs ++ [Open blocks] -> last_open blocks = false.

Lemma last_open_inv {D} (l : list (TierD D)) : last_open l = true -> exists l' items, l = l' ++ [Open items].
Proof.
  destruct l as [|d l _] using rev_ind; [done|]. rewrite last_open_snoc. destruct d; [|done..]. intros _. by eexists _, _.
Qed.

Lemma app_snoc_inv {A} (l l' : list A) x y : l ++ [x] = l' ++ [y] -> l = l' /\ x = y.
Proof. intros E. apply app_inj_2 in E as [-> [= ->]]; done. Qed.

(** Adding a block after the last one is closed. *)
Lemma add_block_right (b : BlockD) l : shape l -> block_closed l -> whole LEVELS b ->
  match add_block b l with
  | inl l' => exists p, tree_next l = Some p /\ p mod 65536 = 0 /\ holds_at p 65536 (kept_at b) (tree_kept l) (tree_kept l') /\ later p (tree_next l')
  | inr Epoch_is_full => exists epochs blocks, l = epochs ++ [Open blocks] /\ length blocks = capacity
  | inr Tree_is_full => length l = capacity /\ last_open l = false
  end.
Proof.
  intros [Hl Hs] Hc Hw. pose proof (whole_holds _ _ Hw) as Hh. destruct Hw as [Hn _]. unfold add_block.
  assert (Hnew : last_open l = false -> match (if (length l <? capacity)%nat then inl (l ++ [Open [b]]) else inr Tree_is_full) with
    | inl l' => exists p, tree_next l = Some p /\ p mod 65536 = 0 /\ holds_at p 65536 (kept_at b) (tree_kept l) (tree_kept l') /\ later p (tree_next l')
    | inr Epoch_is_full => exists epochs blocks, l = epochs ++ [Open blocks] /\ length blocks = capacity
    | inr Tree_is_full => length l = capacity /\ last_open l = false end).
  { intros Ho. destruct (Nat.ltb_spec (length l) capacity); [|split; [lia|done]].
    destruct (epoch_into_tree l (Open [b]) 65536 (kept_at b)) as (E & Hk & Hla); [lia|done|by apply new_epoch_holds|lia| |].
    { intros q. apply new_epoch_next. intros q'. by rewrite Hn. }
    eexists. split_and!; [exact E| |exact Hk|exact Hla]. rewrite Z.mul_comm. change 4294967296 with (65536 * 65536). rewrite <- Z.mul_assoc, Z.mul_comm. by apply Z_mod_mult. }
  destruct (split_last l) as [[epochs e]|] eqn:El; apply split_last_inv in El as ->; [|by apply Hnew].
  destruct e as [blocks|?|?]; [|by apply Hnew, last_open_snoc..]. destruct (Hs epochs blocks eq_refl) as [Hb _]. rewrite length_app in Hl. cbn [length] in Hl.
  destruct (Nat.ltb_spec (length blocks) capacity); [|exists epochs, blocks; split; [done|lia]].
  destruct (block_into_epoch epochs blocks b 65536 (kept_at b)) as (E & Hk & Hla); [lia|lia|by eapply Hc|done|lia|by intros q; rewrite Hn|].
  eexists. split_and!; [exact E| |exact Hk|exact Hla]. change 4294967296 with (65536 * 65536). rewrite Z.mul_assoc, <- Z.mul_add_distr_r. by apply Z_mod_mult.
Qed.

(** Closing changes the next position only. *)
Definition not_before (p q : option Z) : Prop := match p, q with Some p, Some q => p <= q | _, None => True | None, Some _ => False end.

Lemma not_before_refl p : not_before p p.
Proof. by destruct p; cbn. Qed.

Lemma close_kept {D} `{!Denotes D} h0 (d : TierD D) i : @kept_at _ _ (tier_denotes h0) (close_tier d) i = @kept_at _ _ (tier_denotes h0) d i.
Proof. by destruct d. Qed.

Lemma close_next {D} `{!Denotes D} h0 (d : TierD D) : @next_position _ _ (tier_denotes h0) (close_tier d) = None.
Proof. by destruct d. Qed.

Lemma close_not_open {D} (l : list (TierD D)) d : last_open (l ++ [close_tier d]) = false.
Proof. rewrite last_open_snoc. by destruct d. Qed.

(** Positions before the end of the last block, or of the last epoch. *)
Lemma next_before {D} `{!Denotes D} h0 n l (d d' : D) : (forall p, next_position d = Some p -> p <= item_size h0) -> next_position d' = None ->
  (length l < cells n)%nat ->
  match list_position h0 n (l ++ [d]) with Some p => p <= Z.of_nat (cells n) * item_size h0 | None => True end
  /\ not_before (list_position h0 n (l ++ [d])) (list_position h0 n (l ++ [d'])).
Proof.
  intros Hd Hd' Hl. rewrite !position_snoc, Hd'. pose proof (item_size_pos h0).
  assert (Hm : Z.of_nat (S (length l)) * item_size h0 <= Z.of_nat (cells n) * item_size h0) by (apply Z.mul_le_mono_nonneg_r; lia).
  assert (Es : Z.of_nat (S (length l)) * item_size h0 = Z.of_nat (length l) * item_size h0 + item_size h0) by lia.
  destruct (next_position d) as [p|]; [specialize (Hd p eq_refl); split; [lia|]; case_match; cbn; [lia|done]|].
  destruct (Nat.ltb_spec (S (length l)) (cells n)); cbn; [|done]. split; lia.
Qed.

Lemma block_next_below items q : (length items <= capacity)%nat -> next_position (Open items : BlockD) = Some q -> q <= 65536.
Proof.
  intros Hl. change (list_position 0 LEVELS items = Some q -> q <= 65536). rewrite block_next by done. pose proof capacity_Z.
  case_match; [intros [= <-]; lia|done].
Qed.

Lemma close_block_next epochs blocks b : (length epochs < capacity)%nat -> (length blocks < capacity)%nat ->
  (forall items, b = Open items -> (length items <= capacity)%nat) ->
  not_before (tree_next (epochs ++ [Open (blocks ++ [b])])) (tree_next (epochs ++ [Open (blocks ++ [close_tier b])])).
Proof.
  intros He Hb Hi. pose proof capacity_Z as Hcap. rewrite !tree_next_open.
  assert (Hp : forall p, next_position b = Some p -> p <= item_size LEVELS).
  { intros p Hp. destruct b as [items|?|?]; [|done..]. apply (block_next_below items); [by apply Hi|exact Hp]. }
  destruct (next_before (D := BlockD) LEVELS LEVELS blocks b (close_tier b) Hp (close_next 0 b) Hb) as [H1 H2].
  destruct (list_position LEVELS LEVELS (blocks ++ [b])) as [p|], (list_position LEVELS LEVELS (blocks ++ [close_tier b])) as [q|]; unfold not_before in *; [lia| |done|].
  - destruct (_ <? _)%nat; [|done]. change (item_size LEVELS) with 65536 in H1. lia.
  - by destruct (_ <? _)%nat.
Qed.

Lemma close_block_snoc epochs blocks b : close_block (epochs ++ [Open (blocks ++ [b])]) = epochs ++ [Open (blocks ++ [close_tier b])].
Proof. unfold close_block. by rewrite !split_last_snoc. Qed.

Lemma close_block_kept l i : tree_kept (close_block l) i = tree_kept l i.
Proof.
  unfold close_block. destruct (split_last l) as [[epochs [blocks|?|?]]|] eqn:El; [|done..]. apply split_last_inv in El as ->.
  destruct (split_last blocks) as [[blocks' b]|] eqn:Eb; [|done]. apply split_last_inv in Eb as ->.
  apply (same_last EPOCH_HEIGHT). intros j. apply (same_last LEVELS). intros k. apply close_kept.
Qed.

(** The last block of the last epoch, if the epoch is open. *)
Lemma shape_cases l : shape l -> last_open l = false \/ exists epochs blocks b, l = epochs ++ [Open (blocks ++ [b])]
  /\ (length epochs < capacity)%nat /\ (length blocks < capacity)%nat /\ (forall items, b = Open items -> (0 < length items <= capacity)%nat).
Proof.
  intros [Hl Hs]. destruct (last_open l) eqn:Ho; [right|by left]. apply last_open_inv in Ho as (epochs & blocks & ->).
  destruct (Hs epochs blocks eq_refl) as [Hb Hi]. destruct blocks as [|b blocks _] using rev_ind; [cbn in Hb; lia|].
  exists epochs, blocks, b. rewrite !length_app in *. cbn [length] in *. split_and!; [done|lia|lia|]. intros items ->. by eapply Hi.
Qed.

Lemma close_block_right l : shape l -> shape (close_block l) /\ block_closed (close_block l) /\ not_before (tree_next l) (tree_next (close_block l)).
Proof.
  intros Hsh. destruct (shape_cases _ Hsh) as [Ho|(epochs & blocks & b & -> & He & Hb & Hi)].
  - assert (El : close_block l = l).
    { unfold close_block. destruct (split_last l) as [[epochs [blocks|?|?]]|] eqn:El; try done. apply split_last_inv in El as ->. by rewrite last_open_snoc in Ho. }
    rewrite El. split_and!; [done| |apply not_before_refl]. intros epochs blocks ->. by rewrite last_open_snoc in Ho.
  - rewrite close_block_snoc. split_and!.
    + split; [rewrite length_app; cbn [length]; lia|]. intros epochs' blocks' E. apply app_snoc_inv in E as [-> [= <-]].
      split; [rewrite length_app; cbn [length]; lia|]. intros blocks' items E. apply app_snoc_inv in E as [_ E]. by destruct b.
    + intros epochs' blocks' E. apply app_snoc_inv in E as [-> [= <-]]. apply close_not_open.
    + apply close_block_next; [done..|]. intros items E. apply Hi in E. lia.
Qed.

Lemma close_epoch_kept l i : tree_kept (close_epoch l) i = tree_kept l i.
Proof.
  unfold close_epoch. destruct (split_last l) as [[epochs e]|] eqn:El; [|done]. apply split_last_inv in El as ->.
  apply (same_last EPOCH_HEIGHT). intros j. apply close_kept.
Qed.

Lemma close_epoch_closed l : last_open (close_epoch l) = false /\ length (close_epoch l) = length l.
Proof.
  unfold close_epoch. destruct (split_last l) as [[epochs e]|] eqn:El; apply split_last_inv in El as ->; [|done].
  split; [apply close_not_open|by rewrite !length_app].
Qed.

Lemma epoch_next_below blocks q : (length blocks <= capacity)%nat -> (forall blocks' items, blocks = blocks' ++ [Open items] -> (length items <= capacity)%nat) ->
  next_position (Open blocks : EpochD) = Some q -> q <= 4294967296.
Proof.
  intros Hl Hi. change (list_position LEVELS LEVELS blocks = Some q -> q <= 4294967296). pose proof capacity_Z.
  destruct blocks as [|b blocks _] using rev_ind; [intros [= <-]; lia|]. rewrite length_app in Hl. cbn [length] in Hl.
  destruct (next_before LEVELS LEVELS blocks b (close_tier b)) as [H1 _]; [|apply close_next|lia|].
  - intros p Hp. destruct b as [items|?|?]; [|done..]. apply (block_next_below items); [by eapply Hi|exact Hp].
  - intros E. rewrite E in H1. change (item_size LEVELS) with 65536 in H1. lia.
Qed.

Lemma close_epoch_next l : shape l -> not_before (tree_next l) (tree_next (close_epoch l)).
Proof.
  intros [Hl Hs]. unfold close_epoch. destruct (split_last l) as [[epochs e]|] eqn:El; apply split_last_inv in El as ->; [|apply not_before_refl].
  rewrite length_app in Hl. cbn [length] in Hl. apply next_before; [|apply close_next|lia].
  intros p Hp. destruct e as [blocks|?|?]; [|done..]. destruct (Hs epochs blocks eq_refl) as [Hb Hi].
  apply (epoch_next_below blocks); [lia| |exact Hp]. intros blocks' items E. apply Hi in E. lia.
Qed.
End Contents.
