(* ===== verification/TctMachine.v ===== *)
(** * Trees refine their contents

    [tree_rep] relates a tree to what it contains.  Recording commitments in an index and inserting one
    into a tree do to the tree what their specifications do to the contents, and never panic. *)

From S2P Require Import Prelude.
From S2P Require Import Tct.
From S2P Require Import TctSpec.
From S2P Require Import TctLaws.
From S2P Require Import TctNodes.
From S2P Require Import TctTiers.
From S2P Require Import TctTree.
From S2P Require Import TctContents.
Import Hashing.
Import Items.
Import Tiers.

#[local] Opaque cells.

(** ** Moving commitments *)

Section Moving.
Context `{Denotes D} `{!Forgets D} (h0 : nat).

(** What is still to be recorded as witnessed, at positions that were free. *)
Definition pending (new : list (StateCommitment * Z)) (t : ContentsD D) : Prop :=
  NoDup new.*1 /\ (forall c i, (c, i) ∈ new -> witnessed t !! c <> Some i)
  /\ forall c i, list_kept h0 (contents t) i = Some c <-> witnessed t !! c = Some i \/ (c, i) ∈ new.

Lemma pending_nil t : witnesses_ok h0 t -> pending [] t.
Proof. intros Hw. split_and!; [constructor|set_solver|]. intros c i. rewrite (Hw c i). set_solver. Qed.

Lemma pending_done t : pending [] t -> witnesses_ok h0 t.
Proof. intros (_ & _ & Hk) c i. rewrite Hk. set_solver. Qed.

Lemma kept_nonneg l i c : list_kept h0 l i = Some c -> 0 <= i.
Proof. unfold list_kept. destruct (Z.ltb_spec i 0); [done|lia]. Qed.

Lemma kept_after_forget l i j : 0 <= i -> list_kept h0 (list_forget h0 i l) j = if decide (i = j) then None else list_kept h0 l j.
Proof.
  intros Hi. destruct (Z.ltb_spec j 0) as [Hj|Hj]; [|by apply list_forget_kept].
  unfold list_kept. rewrite (proj2 (Z.ltb_lt _ _)) by done. by case_decide.
Qed.

Lemma move_pending c i new t : pending ((c, i) :: new) t -> pending new (move h0 c i t).
Proof.
  intros (Hnd & Hfree & Hk). cbn in Hnd. apply NoDup_cons in Hnd as [Hc Hnd]. unfold move.
  assert (Hnew : forall j, (c, j) ∉ new). { intros j Hj. apply Hc. apply list_elem_of_fmap. by exists (c, j). }
  assert (Hci : witnessed t !! c <> Some i) by (apply Hfree; by left).
  split_and!; [done| |]; cbn [witnessed contents].
  - intros c' j Hj. rewrite lookup_insert. case_decide; [subst; by apply Hnew in Hj|]. apply Hfree. by right.
  - intros c' j. rewrite lookup_insert.
    assert (Hkept : list_kept h0 match witnessed t !! c with Some old => list_forget h0 old (contents t) | None => contents t end j = Some c'
      <-> list_kept h0 (contents t) j = Some c' /\ witnessed t !! c <> Some j).
    { destruct (witnessed t !! c) as [old|] eqn:Ho; [|naive_solver]. assert (Hold : 0 <= old) by (apply (kept_nonneg (contents t) old c), Hk; by left).
      rewrite kept_after_forget by done. case_decide; naive_solver. }
    rewrite Hkept, Hk, elem_of_cons. case_decide as Hcc; [subst c'|].
    + split; [|intros [[= <-]|Hn]; [by split; [right; left|]|by apply Hnew in Hn]].
      intros [[Ho|[[= <-]|Hn]] Hne]; [done|by left|by apply Hnew in Hn].
    + split; [intros [[?|[[= -> ->]|?]] ?]; naive_solver|]. intros Hor. split; [tauto|]. intros Ho.
      assert (Hkc : list_kept h0 (contents t) j = Some c) by (apply Hk; by left).
      assert (Hkc' : list_kept h0 (contents t) j = Some c') by (apply Hk; rewrite elem_of_cons; tauto). congruence.
Qed.

(** What has come to be held at new positions is pending. *)
Lemma held_pending p m k new t l' : witnesses_ok h0 t -> 0 <= p -> holds_at p m k (list_kept h0 (contents t)) (list_kept h0 l') ->
  NoDup new.*1 -> (forall c i, (c, i) ∈ new <-> p <= i < p + m /\ k (i - p) = Some c) -> pending new (mkContents (witnessed t) l').
Proof.
  intros Hw Hp Hh Hnd Hnew. split_and!; [done| |]; cbn [witnessed contents].
  - intros c i Hin Hci. apply Hnew in Hin as [Hr _]. apply Hw in Hci. destruct (Hh i) as [Hin _]; [lia|]. destruct (Hin Hr) as [E _]. congruence.
  - intros c i. rewrite Hnew, <- (Hw c i). destruct (Z.ltb_spec i 0) as [Hi|Hi].
    + unfold list_kept. rewrite (proj2 (Z.ltb_lt _ _)) by done. intuition (lia || done).
    + destruct (Hh i Hi) as [Hin Hout]. destruct (decide (p <= i < p + m)) as [Hr|Hr].
      * destruct (Hin Hr) as [-> ->]. naive_solver.
      * rewrite (Hout Hr). tauto.
Qed.
End Moving.

(** ** Trees and builders, with their index *)

Section Indexed.
Context `{HashEnv} {P X CX D : Type} `{!Focus X CX} `{!Denotes D} `{!Forgets D} `{!Represents X CX D} `{!InnerLaws X CX D} `{!IntoU64 P}.
Notation h0 := (@height _ X CX _).

Definition indexed_rep (t : Indexed P X CX) (a : ContentsD D) : Prop :=
  top_rep (inner t) (contents a) /\ into_u64 <$> index t = witnessed a.

Lemma on_inner_ok {E A} (f : FTop X CX -> outcome never (A * FTop X CX)) (t : Indexed P X CX) x i :
  f (inner t) = Ok (x, i) -> on_inner (E := E) f t = (Ok x, mkIndexed (index t) i).
Proof. intros Ef. unfold on_inner. by rewrite Ef. Qed.

Lemma bind_on_inner {E A B} (f : FTop X CX -> outcome never (A * FTop X CX)) (k : A -> comp (Indexed P X CX) E B) (t : Indexed P X CX) x i :
  f (inner t) = Ok (x, i) -> bind (on_inner f) k t = k x (mkIndexed (index t) i).
Proof. intros Ef. apply bind_run_ok. by apply on_inner_ok. Qed.

Lemma kept_in_range t l i c : top_rep t l -> list_kept h0 l i = Some c -> 0 <= i < 4 ^ Z.of_nat (LEVELS + h0).
Proof. intros K. apply (list_kept_range h0 LEVELS). exact (top_rep_length _ _ K). Qed.

Lemma remember_right {E} t a c pos new : indexed_rep t a -> pending h0 ((c, into_u64 pos) :: new) a ->
  exists t', remember (E := E) c pos t = (Ok tt, t') /\ indexed_rep t' (move h0 c (into_u64 pos) a)
    /\ pending h0 new (move h0 c (into_u64 pos) a) /\ track_forgotten (inner t') = track_forgotten (inner t).
Proof.
  intros [K Hi] Hp. pose proof (move_pending _ _ _ _ _ Hp) as Hp'. unfold remember. rewrite bind_gets, bind_modify.
  assert (Hw : witnessed a !! c = into_u64 <$> index t !! c) by (by rewrite <- Hi, lookup_fmap).
  assert (Hidx : into_u64 <$> <[c := pos]> (index t) = witnessed (move h0 c (into_u64 pos) a)) by (by rewrite fmap_insert, Hi).
  destruct (index t !! c) as [old|].
  - assert (Hold : list_kept h0 (contents a) (into_u64 old) = Some c) by (apply Hp; by left).
    destruct (top_rep_forget (inner t) (contents a) (into_u64 old) K) as (i' & Ef & K' & Ht); [by eapply kept_in_range|].
    rewrite (bind_on_inner _ _ (mkIndexed _ (inner t)) _ _ Ef), Hold, bool_decide_eq_true_2 by (by eexists).
    eexists. split; [reflexivity|]. split_and!; [|done|exact Ht]. split; [|exact Hidx]. unfold move. by rewrite Hw.
  - eexists. split; [reflexivity|]. split_and!; [|done|done]. split; [|exact Hidx]. unfold move. by rewrite Hw.
Qed.

(** All the commitments of a map, in any order. *)
Lemma remember_all_right {E Q} (f : Q -> P) (g : Q -> Z) p entries t a : indexed_rep t a ->
  (forall c q, (c, q) ∈ entries -> into_u64 (f q) = p + g q) ->
  pending h0 ((fun '(c, q) => (c, p + g q)) <$> entries) a ->
  exists t', for_each (E := E) entries (fun '(c, q) => remember c (f q)) t = (Ok tt, t')
    /\ indexed_rep t' (move_all h0 p ((fun '(c, q) => (c, g q)) <$> entries) a)
    /\ witnesses_ok h0 (move_all h0 p ((fun '(c, q) => (c, g q)) <$> entries) a) /\ track_forgotten (inner t') = track_forgotten (inner t).
Proof.
  revert t a. induction entries as [|[c q] entries IH]; intros t a K Hf Hp.
  - exists t. split_and!; [done|done|by apply pending_done|done].
  - pose proof (Hf c q ltac:(by left)) as Ef. cbn [fmap list_fmap] in Hp. rewrite <- Ef in Hp.
    destruct (remember_right (E := E) t a c (f q) _ K Hp) as (t1 & E1 & K1 & Hp1 & Ht1). cbn [for_each]. rewrite (bind_run_ok _ _ _ _ _ E1).
    destruct (IH t1 _ K1) as (t' & E' & K' & Hw & Ht); [intros c' q' Hin; apply (Hf c'); by right|exact Hp1|].
    exists t'. cbn [fmap list_fmap]. unfold move_all. cbn [foldl]. rewrite <- Ef, <- Ht1. by split_and!.
Qed.
End Indexed.

(** ** Positions as indices *)

Section Positions.
Lemma lor_add k p c : 0 <= k -> p mod 2 ^ k = 0 -> 0 <= c < 2 ^ k -> Z.lor p c = p + c.
Proof.
  intros Hk Hp Hc. pose proof (Z.add_lor_land p c). enough (E : Z.land p c = 0) by lia.
  rewrite (Z.div_mod p (2 ^ k)), Hp, Z.add_0_r, Z.mul_comm, <- Z.shiftl_mul_pow2 by lia.
  apply Z.bits_inj'. intros j Hj. rewrite Z.land_spec, Z.bits_0, Z.shiftl_spec by lia. destruct (Z.ltb_spec j k).
  - by rewrite Z.testbit_neg_r by lia.
  - rewrite <- (Z.mod_small c (2 ^ k)), Z.mod_pow2_bits_high by lia. apply andb_false_r.
Qed.

Lemma shiftl_mod x k m : 0 <= m <= k -> Z.shiftl x k mod 2 ^ m = 0.
Proof.
  intros Hk. rewrite Z.shiftl_mul_pow2 by lia. replace k with (k - m + m) by lia. rewrite Z.pow_add_r, Z.mul_assoc by lia. by apply Z_mod_mult.
Qed.

Lemma u64_of_tree_sum e b c : 0 <= b < 2 ^ 16 -> 0 <= c < 2 ^ 16 -> u64_of_tree (mkWithinTree e b c) = e * 2 ^ 32 + b * 2 ^ 16 + c.
Proof.
  intros Hb Hc. unfold u64_of_tree. cbn [in_tree_epoch in_tree_block in_tree_commitment].
  rewrite (lor_add 32 (Z.shiftl e 32)); [|lia|apply shiftl_mod; lia|rewrite Z.shiftl_mul_pow2; lia].
  rewrite (lor_add 16); [rewrite !Z.shiftl_mul_pow2; lia|lia| |lia]. by rewrite Z.add_mod, !shiftl_mod by lia.
Qed.

Lemma u64_tree_u64 p : 0 <= p < 2 ^ 48 -> u64_of_tree (tree_of_u64 p) = p.
Proof.
  intros Hp. unfold tree_of_u64. rewrite u64_of_tree_sum by (apply Z.mod_pos_bound; lia). rewrite !Z.shiftr_div_pow2 by lia.
  pose proof (Z.div_mod p (2 ^ 16)) as E1. pose proof (Z.div_mod (p / 2 ^ 16) (2 ^ 16)) as E2. rewrite Z.div_div in E2 by lia.
  change (2 ^ 16 * 2 ^ 16) with (2 ^ 32) in E2. rewrite (Z.mod_small (p / 2 ^ 32)); [lia|]. split; [apply Z.div_pos; lia|apply Z.div_lt_upper_bound; lia].
Qed.

(** The index of a commitment in a block, or in an epoch, that starts at a position. *)
Lemma u64_in_block p b : 0 <= p < 2 ^ 48 -> p mod 65536 = 0 -> 0 <= b < 65536 ->
  u64_of_tree (mkWithinTree (in_tree_epoch (tree_of_u64 p)) (in_tree_block (tree_of_u64 p)) b) = p + b.
Proof.
  intros Hp Hm Hb. pose proof (u64_tree_u64 p Hp) as E. unfold tree_of_u64 in E. rewrite u64_of_tree_sum in E by (apply Z.mod_pos_bound; lia).
  unfold tree_of_u64. cbn [in_tree_epoch in_tree_block]. rewrite u64_of_tree_sum by (lia || apply Z.mod_pos_bound; lia). change (2 ^ 16) with 65536 in *. lia.
Qed.

Lemma u64_in_epoch p e : 0 <= p < 2 ^ 48 -> p mod 4294967296 = 0 -> 0 <= u32_of_epoch e < 4294967296 ->
  u64_of_tree (mkWithinTree (in_tree_epoch (tree_of_u64 p)) (in_epoch_block e) (in_epoch_commitment e)) = p + u32_of_epoch e.
Proof.
  intros Hp Hm He. unfold u64_of_tree. cbn [in_tree_epoch in_tree_block in_tree_commitment tree_of_u64]. rewrite <- Z.lor_assoc. fold (u32_of_epoch e).
  rewrite (lor_add 32); [|lia|apply shiftl_mod; lia|lia]. f_equal. rewrite Z.shiftr_div_pow2, Z.shiftl_mul_pow2 by lia. change (2 ^ 32) with 4294967296 in *.
  rewrite Z.mod_small; [|split; [apply Z.div_pos; lia|apply Z.div_lt_upper_bound; lia]]. rewrite (Z.div_mod p 4294967296) at 2 by lia. lia.
Qed.
End Positions.

Section Refinement.
Context `{HashEnv}.

#[global] Instance block_represents : @Represents _ Block CBlock _ BlockD block_denotes := tier_represents.
#[global] Instance block_forgets : Forgets BlockD := tier_forgets 0.
#[global] Instance epoch_represents : @Represents _ Epoch CEpoch _ EpochD epoch_denotes := tier_represents (D := BlockD).
#[global] Instance epoch_forgets : Forgets EpochD := tier_forgets (D := BlockD) LEVELS.

Lemma tree_shape (t : FTop Epoch CEpoch) (l : list EpochD) : top_rep t l -> shape l.
Proof.
  intros K. split; [exact (top_rep_length _ _ K)|]. intros epochs blocks ->. destruct (top_rep_focus _ _ _ K) as (e & _ & Ke).
  split; [exact (tier_rep_length _ _ Ke)|]. intros blocks' items ->. destruct (tier_rep_focus _ _ _ Ke) as (b & _ & Kb). exact (tier_rep_length _ _ Kb).
Qed.
(** *** Inserting a commitment *)

Lemma insert_into_block_right {E} item d (full : E) (block : Block) (b : BlockD) : rep block b -> item_rep item d ->
  exists r block', insert_into_block item full block = Ok (r, block') /\
    match b with
    | Open items => if (length items <? capacity)%nat then r = Some (inl tt) /\ rep block' (Open (items ++ [d]) : BlockD)
                    else r = Some (inr full) /\ rep block' b
    | _ => r = None /\ rep block' b
    end.
Proof.
  intros K Hd. unfold insert_into_block. rewrite (tier_rep_finalized _ _ K). destruct b as [items|items|h]; cbn [tier_open negb]; [|by do 2 eexists..].
  pose proof (tier_rep_length _ _ K). destruct (Nat.ltb_spec (length items) capacity) as [Hlt|Hge].
  - destruct (tier_rep_insert block items item d K Hd Hlt) as (block' & -> & K'). by do 2 eexists.
  - rewrite (tier_rep_insert_full _ _ item K) by (cbn; apply bool_decide_eq_true; lia). by do 2 eexists.
Qed.

(** The outcome of an insertion into an open epoch. *)
Definition into_epoch (epoch : Epoch) (blocks : list BlockD) (res : list BlockD + InsertError) (r : option (unit + InsertError)) : Prop :=
  match res with
  | inl blocks' => r = Some (inl tt) /\ rep epoch (Open blocks' : EpochD)
  | inr err => r = Some (inr err) /\ rep epoch (Open blocks : EpochD)
  end.

Lemma insert_new_block_right item d (epoch : Epoch) blocks : rep epoch (Open blocks : EpochD) -> item_rep item d ->
  exists r epoch', insert_new_block item epoch = Ok (r, epoch') /\ into_epoch epoch' blocks (open_block d blocks) r.
Proof.
  intros K Hd. unfold insert_new_block, open_block. rewrite (tier_rep_finalized _ _ K). cbn [tier_open negb]. pose proof (tier_rep_length _ _ K).
  assert (Hnew : rep (tier_new item : Block) (Open [d] : BlockD)) by exact (tier_rep_new item d Hd).
  destruct (Nat.ltb_spec (length blocks) capacity) as [Hlt|Hge].
  - destruct (tier_rep_insert epoch _ _ _ K Hnew Hlt) as (epoch' & -> & K'). by do 2 eexists.
  - rewrite (tier_rep_insert_full _ _ (tier_new item) K) by (cbn; apply bool_decide_eq_true; lia). by do 2 eexists.
Qed.

Lemma insert_into_epoch_right item d (epoch : Epoch) (e : EpochD) : rep epoch e -> item_rep item d ->
  exists r epoch', insert_into_epoch item epoch = Ok (r, epoch') /\
    match e with Open blocks => into_epoch epoch' blocks (add_to_epoch d blocks) r | _ => r = None /\ rep epoch' e end.
Proof.
  intros K Hd. unfold insert_into_epoch. destruct e as [blocks|l|h].
  - pose proof (tier_rep_length _ _ K). destruct blocks as [|b blocks _] using rev_ind; [cbn in *; lia|].
    destruct (tier_rep_focus _ _ _ K) as (block & Hfocus & Kb). unfold add_to_epoch. rewrite split_last_snoc.
    destruct (insert_into_block_right item d Insert_BlockFull block b Kb Hd) as (r & block' & Eb & Hr).
    assert (Hup : forall b', rep block' b' -> exists epoch', tier_update (insert_into_block item Insert_BlockFull) epoch = Ok (Some r, epoch')
      /\ rep epoch' (Open (blocks ++ [b']) : EpochD)) by (intros b' Kb'; exact (tier_rep_update _ _ _ _ b' _ _ _ K Hfocus Eb Kb')).
    destruct b as [items|l|h]; [case_match|..]; destruct Hr as [-> Kb']; destruct (Hup _ Kb') as (epoch' & -> & K'); cbn [outcome_bind flatten mjoin option_join].
    + by do 2 eexists.
    + by do 2 eexists.
    + exact (insert_new_block_right _ _ _ _ K' Hd).
    + exact (insert_new_block_right _ _ _ _ K' Hd).
  - rewrite (tier_rep_update_closed _ _ _ K) by done. cbn [outcome_bind flatten mjoin option_join]. unfold insert_new_block.
    rewrite (tier_rep_finalized _ _ K). by do 2 eexists.
  - rewrite (tier_rep_update_closed _ _ _ K) by done. cbn [outcome_bind flatten mjoin option_join]. unfold insert_new_block.
    rewrite (tier_rep_finalized _ _ K). by do 2 eexists.
Qed.

(** *** The representation of a tree *)

Definition tree_rep (t : Tree) (a : TreeD) : Prop :=
  indexed_rep t a /\ witnesses_ok EPOCH_HEIGHT a /\ track_forgotten (inner t) = true.
Notation TH := (@height _ Epoch CEpoch _).

Lemma tree_rep_next (t : Tree) (a : TreeD) : tree_rep t a -> top_position (inner t) = tree_next (contents a).
Proof. intros [[K _] _]. exact (top_rep_position _ _ K). Qed.

Lemma next_range (t : FTop Epoch CEpoch) (l : list EpochD) p : top_rep t l -> tree_next l = Some p -> 0 <= p < 2 ^ 48.
Proof. intros K Hp. exact (top_rep_position_range _ _ _ K Hp). Qed.

Lemma new_epoch_rep item d : item_rep item d -> rep (tier_new (tier_new item) : Epoch) (Open [Open [d]] : EpochD).
Proof.
  intros Hd. assert (Hb : rep (tier_new item : Block) (Open [d] : BlockD)) by exact (tier_rep_new item d Hd). exact (tier_rep_new _ _ Hb).
Qed.

(** The closures of an insertion, run on the latest epoch. *)
Lemma update_epoch_right item d (t : FTop Epoch CEpoch) (l : list EpochD) : top_rep t l -> item_rep item d ->
  exists r t', top_update (insert_into_epoch item) t = Ok (r, t') /\ track_forgotten t' = track_forgotten t /\
    match split_last l with
    | Some (epochs, Open blocks) => match add_to_epoch d blocks with
                                    | inl blocks' => flatten r = Some (inl tt) /\ top_rep t' (epochs ++ [Open blocks'])
                                    | inr e => flatten r = Some (inr e) /\ top_rep t' l
                                    end
    | _ => flatten r = None /\ top_rep t' l
    end.
Proof.
  intros K Hd. destruct l as [|e epochs _] using rev_ind; [rewrite (top_rep_update_empty _ _ K); by do 2 eexists|]. rewrite split_last_snoc.
  destruct (top_rep_focus _ _ _ K) as (epoch & Hfocus & Ke). destruct (insert_into_epoch_right item d epoch e Ke Hd) as (r & epoch' & Ee & Hr).
  assert (Hup : forall e', rep epoch' e' -> exists t', top_update (insert_into_epoch item) t = Ok (Some r, t') /\ top_rep t' (epochs ++ [e'])
    /\ track_forgotten t' = track_forgotten t) by (intros e' Ke'; exact (top_rep_update _ _ _ _ e' _ _ _ K Hfocus Ee Ke')).
  destruct e as [blocks|l|h]; [unfold into_epoch in Hr; destruct (add_to_epoch d blocks)|..]; destruct Hr as [-> Ke'];
    destruct (Hup _ Ke') as (t' & -> & K' & Ht); by do 2 eexists.
Qed.

Definition same_position (res : outcome InsertError within_Tree) (spec : outcome InsertError Z) : Prop :=
  match spec with Ok p => res = Ok (tree_of_u64 p) | Err e => res = Err e | Panic => False end.

Lemma item_of_rep witness c : item_rep (item_of witness c) (leaf_of witness c).
Proof. by destruct witness. Qed.

(** A leaf has been added at the position: it remains to index it. *)
Lemma index_leaf_right {E} witness c p (t : Tree) (a : TreeD) l' : top_rep (inner t) l' -> into_u64 <$> index t = witnessed a -> track_forgotten (inner t) = true ->
  witnesses_ok EPOCH_HEIGHT a -> 0 <= p < 2 ^ 48 -> holds_at p 1 (leaf_at (leaf_of witness c)) (tree_kept (contents a)) (tree_kept l') ->
  exists t', (match witness with Witness_Keep => remember (E := E) c (tree_of_u64 p) | Witness_Forget => ret tt end) t = (Ok tt, t')
    /\ tree_rep t' (match witness with Witness_Keep => move EPOCH_HEIGHT c p (mkContents (witnessed a) l') | Witness_Forget => mkContents (witnessed a) l' end).
Proof.
  intros K Hi Ht Hw Hp Hh. destruct witness.
  - exists t. split; [done|]. split_and!; [by split| |done]. apply pending_done.
    apply (held_pending EPOCH_HEIGHT p 1 (leaf_at (leaf_of Witness_Forget c))); [done|lia|exact Hh|constructor|]. cbn. set_solver.
  - assert (Hpend : pending EPOCH_HEIGHT [(c, p)] (mkContents (witnessed a) l')).
    { apply (held_pending EPOCH_HEIGHT p 1 (leaf_at (leaf_of Witness_Keep c))); [done|lia|exact Hh|by apply NoDup_singleton|].
      intros c' i. rewrite list_elem_of_singleton. cbn. split; [intros [= -> ->]; by split; [lia|]|]. intros [? [= ->]]. f_equal. lia. }
    assert (E1 : into_u64 (tree_of_u64 p) = p) by by apply u64_tree_u64. rewrite <- E1 in Hpend.
    destruct (remember_right (E := E) t (mkContents (witnessed a) l') c (tree_of_u64 p) [] (conj K Hi) Hpend) as (t' & E' & K' & Hp' & Ht').
    exists t'. split; [exact E'|]. rewrite E1 in *. split_and!; [exact K'|by apply pending_done|by rewrite Ht'].
Qed.

Lemma tree_insert_right witness c t a : tree_rep t a ->
  exists res t', tree_insert witness c t = (res, t') /\ same_position res (spec_insert witness c a).1 /\ tree_rep t' (spec_insert witness c a).2.
Proof.
  intros K. pose proof K as [[Kt Hi] [Hw Ht]]. pose proof (tree_shape _ _ Kt) as Hs. unfold tree_insert, spec_insert. rewrite bind_gets, (tree_rep_next _ _ K).
  destruct (tree_next (contents a)) as [p|] eqn:Hp; [|by do 2 eexists]. cbn [ok_or]. rewrite bind_lift_ok.
  pose proof (next_range _ _ _ Kt Hp) as Hr. pose proof (add_leaf_right (leaf_of witness c) _ _ Hs Hp) as Hadd.
  destruct (update_epoch_right (item_of witness c) (leaf_of witness c) _ _ Kt (item_of_rep witness c)) as (r & i' & Eu & Ht' & Hu).
  rewrite (bind_on_inner _ _ _ _ _ Eu). rewrite Ht in Ht'.
  assert (Hdone : forall i'' l', add_leaf (leaf_of witness c) (contents a) = inl l' -> top_rep i'' l' -> track_forgotten i'' = true ->
    exists t', bind (match witness with Witness_Keep => remember (E := InsertError) c (tree_of_u64 p) | Witness_Forget => ret tt end)
        (fun _ => ret (tree_of_u64 p)) (mkIndexed (index t) i'') = (Ok (tree_of_u64 p), t')
      /\ tree_rep t' (match witness with Witness_Keep => move EPOCH_HEIGHT c p (mkContents (witnessed a) l') | Witness_Forget => mkContents (witnessed a) l' end)).
  { intros i'' l' El K'' Ht''. rewrite El in Hadd. destruct Hadd as [Hh _].
    destruct (index_leaf_right (E := InsertError) witness c p (mkIndexed (index t) i'') a l' K'' Hi Ht'' Hw Hr Hh) as (t' & E' & Kt'). exists t'.
    by rewrite (bind_run_ok _ _ _ _ _ E'). }
  assert (Hfail : forall i'', top_rep i'' (contents a) -> track_forgotten i'' = true -> tree_rep (mkIndexed (index t) i'') a) by (intros; by split_and!).
  unfold add_leaf in *. destruct (split_last (contents a)) as [[epochs [blocks|?|?]]|].
  1: { destruct (add_to_epoch _ blocks) as [blocks'|e]; destruct Hu as [-> K'].
    - destruct (Hdone i' _ eq_refl K' Ht') as (t' & E' & Kt'). cbn [into_result]. unfold bind at 1, ret at 1. rewrite E'. by do 2 eexists.
    - do 2 eexists. split; [reflexivity|]. split; [done|]. by apply Hfail. }
  all: destruct Hu as [-> K']; unfold open_epoch in *; destruct (Nat.ltb_spec (length (contents a)) capacity) as [Hlt|]; [|done];
    destruct (top_rep_insert i' _ (tier_new (tier_new (item_of witness c))) (Open [Open [leaf_of witness c]]) K') as (i'' & Ei & K'' & Ht''); [apply new_epoch_rep, item_of_rep|exact Hlt|]; rewrite Ht' in Ht'';
    destruct (Hdone i'' _ eq_refl K'' Ht'') as (t' & E' & Kt');
    rewrite (bind_run_ok _ _ _ tt (mkIndexed (index t) i'')) by (by rewrite (bind_on_inner _ _ (mkIndexed (index t) i') _ _ Ei)); rewrite E'; by do 2 eexists.
Qed.
End Refinement.
