(* ===== verification/TctBlocks.v ===== *)
(** * Inserting and ending blocks and epochs

    The operations of [TctTree] that add whole blocks and epochs, close the open ones, or read their
    roots refine their specifications; so do forgetting and witnessing a commitment. *)

From S2P Require Import Prelude.
From S2P Require Import Tct.
From S2P Require Import TctSpec.
From S2P Require Import TctLaws.
From S2P Require Import TctNodes.
From S2P Require Import TctTiers.
From S2P Require Import TctTree.
From S2P Require Import TctContents.
From S2P Require Import TctMachine.
Import Hashing.
Import Items.
Import Tiers.

#[local] Opaque cells.

Section Commitments.
Context `{HashEnv}.

(** ** One commitment *)

Lemma tree_kept_range (t : Tree) (a : TreeD) c i : tree_rep t a -> witnessed a !! c = Some i ->
  list_kept EPOCH_HEIGHT (contents a) i = Some c /\ 0 <= i < 2 ^ 48.
Proof.
  intros [[K _] [Hw _]] Hc. apply Hw in Hc. split; [done|]. exact (kept_in_range _ _ _ _ K Hc).
Qed.

Lemma tree_forget_right {E} c t a : tree_rep t a ->
  exists t', tree_forget (E := E) c t = (Ok (spec_forget c a).1, t') /\ tree_rep t' (spec_forget c a).2.
Proof.
  intros K. pose proof K as [[Kt Hi] [Hw Ht]]. unfold tree_forget, spec_forget. rewrite bind_gets.
  assert (Hl : witnessed a !! c = into_u64 <$> index t !! c) by (by rewrite <- Hi, lookup_fmap). rewrite Hl.
  destruct (index t !! c) as [old|] eqn:Ho; cbn [fmap option_fmap option_map]; [|by exists t].
  destruct (tree_kept_range t a c (into_u64 old) K Hl) as [Hk Hr].
  destruct (top_rep_forget (inner t) (contents a) (into_u64 old) Kt Hr) as (i' & Ef & K' & Ht').
  rewrite (bind_on_inner _ _ t _ _ Ef), (bool_decide_eq_true_2 (is_Some _)) by (eexists; exact Hk). eexists. split; [reflexivity|].
  split_and!; [split; [exact K'|]| |by rewrite <- Ht, <- Ht'].
  - cbn [index witnessed]. by rewrite fmap_delete, Hi.
  - intros c' j. cbn [contents witnessed fst snd]. rewrite (kept_after_forget EPOCH_HEIGHT) by lia. rewrite lookup_delete. specialize (Hw c').
    destruct (decide (into_u64 old = j)) as [<-|Hj], (decide (c = c')) as [<-|Hcc]; [done| | |apply Hw].
    + split; [done|]. intros Hc'. apply Hw in Hc'. congruence.
    + split; [|done]. intros Hc'. apply Hw in Hc'. rewrite Hl in Hc'. cbn in Hc'. congruence.
Qed.

Lemma tree_witness_right {E} c t a : tree_rep t a ->
  exists w t', tree_witness (E := E) c t = (Ok w, t') /\ tree_rep t' a /\
    match witnessed a !! c with
    | Some i => exists path, w = Some (mkProof i path c) /\ length path = TREE_HEIGHT /\ verify (mkProof i path c) (tree_root (contents a)) = Ok tt
    | None => w = None
    end.
Proof.
  intros K. pose proof K as [[Kt Hi] [Hw Ht]]. unfold tree_witness. rewrite bind_gets.
  assert (Hl : witnessed a !! c = into_u64 <$> index t !! c) by (by rewrite <- Hi, lookup_fmap). rewrite Hl.
  destruct (index t !! c) as [old|] eqn:Ho; cbn [fmap option_fmap option_map]; [|by do 2 eexists].
  destruct (tree_kept_range t a c (into_u64 old) K Hl) as [Hk Hr].
  destruct (top_rep_witness (inner t) (contents a) (into_u64 old) Kt Hr) as (w & i' & Ew & K' & Ht' & P1 & P2).
  destruct (P1 c Hk) as [path ->]. destruct (P2 path _ eq_refl) as [Hlen Hroot]. rewrite (bind_on_inner _ _ t _ _ Ew).
  unfold debug_asserts. rewrite bool_decide_eq_true_2 by done. do 2 eexists. split; [reflexivity|]. split.
  - split_and!; [by split|done|by rewrite <- Ht, <- Ht'].
  - exists path. split_and!; [done|exact Hlen|]. unfold verify, proof_root. cbn [auth_path proof_position proof_leaf]. rewrite decide_True; [done|].
    symmetry. exact Hroot.
Qed.

Lemma root_right t a : tree_rep t a -> (root t).1 = tree_root (contents a) /\ tree_rep (root t).2 a.
Proof.
  intros [[K Hi] [Hw Ht]]. split; [exact (top_rep_hash _ _ K)|]. split_and!; [split; [exact (top_rep_fill _ _ K)|done]|done|done].
Qed.
End Commitments.

(** ** Finalized blocks and epochs *)

Section Finalized.
Context `{HashEnv} `{!HashOrder} {P X CX D : Type} `{!Focus X CX} `{!Denotes D} `{!Forgets D} `{!Represents X CX D} `{!InnerLaws X CX D} `{!IntoU64 P}.
Notation h0 := (@height _ X CX _).

(** A finalized block or epoch is closed, and its index is of what is kept in it. *)
Definition finalized_rep (f : Finalized P CX) (d : TierD D) : Prop :=
  tier_rep (tier_of_top (finalized_inner f) : FTier X CX) d /\ tier_open d = false
  /\ forall c i, list_kept h0 (tier_items d) i = Some c <-> into_u64 <$> finalized_index f !! c = Some i.

Definition finalized_entries (f : Finalized P CX) : list (StateCommitment * Z) :=
  (fun '(c, q) => (c, into_u64 q)) <$> hash_order (finalized_index f).

Lemma in_order (f : Finalized P CX) c q : (c, q) ∈ hash_order (finalized_index f) <-> finalized_index f !! c = Some q.
Proof. rewrite hash_order_all. apply elem_of_map_to_list. Qed.

Lemma entries_new (f : Finalized P CX) d p : finalized_rep f d -> 0 <= p ->
  let new := (fun '(c, q) => (c, p + into_u64 q)) <$> hash_order (finalized_index f) in
  NoDup new.*1 /\ forall c i, (c, i) ∈ new <-> p <= i < p + 4 ^ Z.of_nat (LEVELS + h0) /\ list_kept h0 (tier_items d) (i - p) = Some c.
Proof.
  intros (K & _ & Hk) Hp new. split.
  - assert (E : new.*1 = (hash_order (finalized_index f)).*1) by (unfold new; rewrite <- list_fmap_compose; apply list_fmap_ext; by intros ? [? ?] _).
    rewrite E, hash_order_all. apply NoDup_fst_map_to_list.
  - intros c i. unfold new. rewrite list_elem_of_fmap, Hk. split.
    + intros ([c' q] & [= -> ->] & Hin). apply in_order in Hin. rewrite Hin. replace (p + into_u64 q - p) with (into_u64 q) by lia. split; [|done].
      assert (Hq : list_kept h0 (tier_items d) (into_u64 q) = Some c') by (apply Hk; by rewrite Hin).
      pose proof (tier_rep_range _ _ _ _ K Hq) as Hr. rewrite inner_height in Hr. lia.
    + intros [Hr Hi]. destruct (finalized_index f !! c) as [q|] eqn:Hq; [|done]. injection Hi as Hi. exists (c, q). rewrite Hi.
      split; [f_equal; lia|]. by apply in_order.
Qed.

Lemma finalized_whole (f : Finalized P CX) (d : TierD D) : finalized_rep f d ->
  @whole _ (TierD D) (tier_denotes h0) (LEVELS + h0) d.
Proof.
  intros (K & Ho & _). split; [by destruct d|]. intros i c Hk. rewrite <- inner_height. exact (tier_rep_range _ _ _ _ K Hk).
Qed.

Lemma top_of_tier_of_top (x : Insert (CTop CX)) : top_of_tier (tier_of_top x : FTier X CX) = x.
Proof. by destruct x as [[c]|h]. Qed.

Lemma finalized_root_right (f : Finalized P CX) d : finalized_rep f d -> finalized_root (I := X) f = @closed_hash _ _ (tier_denotes h0) d.
Proof.
  intros (K & Ho & _). transitivity (hash (tier_of_top (finalized_inner f) : FTier X CX)); [by unfold finalized_root; destruct (finalized_inner f) as [[c]|h]|].
  pose proof (rep_hash (Represents := tier_represents) _ _ K) as E. rewrite E. destruct d; [discriminate Ho|reflexivity..].
Qed.

Lemma finalized_default_rep : finalized_rep (finalized_default (I := X)) (Opaque one).
Proof.
  split_and!; [done|done|]. intros c i. cbn [tier_items]. rewrite list_kept_nil. cbn. by rewrite lookup_empty.
Qed.

Lemma finalized_of_root_rep r : finalized_rep (finalized_of_root r) (Opaque r).
Proof.
  split_and!; [done|done|]. intros c i. cbn [tier_items]. rewrite list_kept_nil. cbn. by rewrite lookup_empty.
Qed.
End Finalized.

(** ** Blocks *)

Section Blocks.
Context `{HashEnv} `{!HashOrder}.

(** A closure that closes the last block of the last epoch. *)
Lemma update_last_block {A} (g : Block -> outcome never (A * Block)) (ga : BlockD -> A) (t : FTop Epoch CEpoch) l : top_rep t l ->
  (forall block b, rep block b -> exists block', g block = Ok (ga b, block') /\ rep block' (close_tier b)) ->
  exists r t', top_update (tier_update g) t = Ok (r, t') /\ top_rep t' (close_block l) /\ track_forgotten t' = track_forgotten t
    /\ flatten r = match split_last l with
                   | Some (_, Open blocks) => match split_last blocks with Some (_, b) => Some (ga b) | None => None end
                   | _ => None
                   end.
Proof.
  intros K Hg. destruct l as [|e epochs _] using rev_ind; [rewrite (top_rep_update_empty _ _ K); by do 2 eexists|]. unfold close_block. rewrite split_last_snoc.
  destruct (top_rep_focus _ _ _ K) as (epoch & Hfocus & Ke).
  destruct e as [blocks|l|h].
  - pose proof (tier_rep_length _ _ Ke). destruct blocks as [|b blocks _] using rev_ind; [cbn in *; lia|]. rewrite split_last_snoc.
    destruct (tier_rep_focus _ _ _ Ke) as (block & Hblock & Kb). destruct (Hg block b Kb) as (block' & Eg & Kb').
    destruct (tier_rep_update g _ _ _ _ _ _ _ Ke Hblock Eg Kb') as (epoch' & Ee & Ke').
    destruct (top_rep_update (tier_update g) _ _ _ _ _ _ _ K Hfocus Ee Ke') as (t' & -> & K' & Ht). by do 2 eexists.
  - destruct (top_rep_update (tier_update g) _ _ _ _ _ _ _ K Hfocus (tier_rep_update_closed _ _ _ Ke eq_refl) Ke) as (t' & -> & K' & Ht). by do 2 eexists.
  - destruct (top_rep_update (tier_update g) _ _ _ _ _ _ _ K Hfocus (tier_rep_update_closed _ _ _ Ke eq_refl) Ke) as (t' & -> & K' & Ht). by do 2 eexists.
Qed.

Lemma close_block_rep (block : Block) (b : BlockD) : rep block b ->
  exists block', (Ok (tier_finalize block) : outcome never (bool * Block)) = Ok (negb (tier_open b), block') /\ rep block' (close_tier b).
Proof. intros K. destruct (tier_rep_finalize _ _ K) as (block' & -> & K'). by exists block'. Qed.

Lemma insert_block_into_epoch_right (tier : Block) (d : BlockD) idx (epoch : Epoch) (e : EpochD) : rep epoch e -> rep tier d ->
  exists r epoch', insert_block_into_epoch tier idx epoch = Ok (r, epoch') /\
    match e with
    | Open blocks => if (length blocks <? capacity)%nat then r = Some (inl (open_hash d)) /\ rep epoch' (Open (blocks ++ [d]) : EpochD)
                     else r = Some (inr (InsertBlock_EpochFull (mkFinalized idx (top_of_tier tier)))) /\ rep epoch' e
    | _ => r = None /\ rep epoch' e
    end.
Proof.
  intros K Kd. unfold insert_block_into_epoch. rewrite (tier_rep_finalized _ _ K), (tier_rep_is_full _ _ K).
  destruct e as [blocks|l|h]; cbn [tier_open negb tier_full]; [|by do 2 eexists..]. pose proof (tier_rep_length _ _ K).
  destruct (Nat.ltb_spec (length blocks) capacity) as [Hlt|Hge].
  - rewrite bool_decide_eq_false_2 by lia. destruct (tier_rep_insert epoch blocks (fill tier) d K (proj1 (rep_fill _ _ Kd)) Hlt) as (epoch' & -> & K').
    rewrite (rep_hash _ _ Kd). by do 2 eexists.
  - rewrite bool_decide_eq_true_2 by lia. by do 2 eexists.
Qed.

Lemma update_insert_block (tier : Block) (d : BlockD) idx (t : FTop Epoch CEpoch) (l : list EpochD) : top_rep t l -> rep tier d ->
  exists r t', top_update (insert_block_into_epoch tier idx) t = Ok (r, t') /\ track_forgotten t' = track_forgotten t /\
    match split_last l with
    | Some (epochs, Open blocks) =>
        if (length blocks <? capacity)%nat then flatten r = Some (inl (open_hash d)) /\ top_rep t' (epochs ++ [Open (blocks ++ [d])])
        else flatten r = Some (inr (InsertBlock_EpochFull (mkFinalized idx (top_of_tier tier)))) /\ top_rep t' l
    | _ => flatten r = None /\ top_rep t' l
    end.
Proof.
  intros K Kd. destruct l as [|e epochs _] using rev_ind; [rewrite (top_rep_update_empty _ _ K); by do 2 eexists|]. rewrite split_last_snoc.
  destruct (top_rep_focus _ _ _ K) as (epoch & Hfocus & Ke). destruct (insert_block_into_epoch_right tier d idx epoch e Ke Kd) as (r & epoch' & Ee & Hr).
  assert (Hup : forall e', rep epoch' e' -> exists t', top_update (insert_block_into_epoch tier idx) t = Ok (Some r, t') /\ top_rep t' (epochs ++ [e'])
    /\ track_forgotten t' = track_forgotten t) by (intros e' Ke'; exact (top_rep_update _ _ _ _ e' _ _ _ K Hfocus Ee Ke')).
  destruct e as [blocks|l|h]; [destruct (_ <? _)%nat|..]; destruct Hr as [-> Ke']; destruct (Hup _ Ke') as (t' & -> & K' & Ht); by do 2 eexists.
Qed.

(** The result of an operation that adds a block or an epoch: what does not fit is given back. *)
Definition same_block_result (block : Finalized within_Block CItem) (res : outcome InsertBlockError Hash) (spec : outcome Full Hash) : Prop :=
  match spec with
  | Ok h => res = Ok h
  | Err Tree_is_full => res = Err (InsertBlock_Full block)
  | Err Epoch_is_full => res = Err (InsertBlock_EpochFull block)
  | Panic => False
  end.

Notation block_rep := (finalized_rep (P := within_Block) (X := FItem) (CX := CItem) (D := LeafD)).

(** The block is there: it remains to index its commitments. *)
Lemma index_block_right {E} (block : Finalized within_Block CItem) (b : BlockD) p (t : Tree) w l l' : block_rep block b ->
  top_rep (inner t) l' -> into_u64 <$> index t = w -> track_forgotten (inner t) = true ->
  witnesses_ok EPOCH_HEIGHT (mkContents w l) -> 0 <= p < 2 ^ 48 -> p mod 65536 = 0 -> holds_at p 65536 (kept_at b) (tree_kept l) (tree_kept l') ->
  exists t', index_block (E := E) (Some p) (finalized_index block) t = (Ok tt, t')
    /\ tree_rep t' (move_all EPOCH_HEIGHT p (finalized_entries block) (mkContents w l')).
Proof.
  intros Kb K Hi Ht Hw Hp Hm Hh. destruct (entries_new block b p Kb) as [Hnd Hnew]; [lia|].
  pose proof (held_pending EPOCH_HEIGHT p 65536 (kept_at b) _ (mkContents w l) l' Hw ltac:(lia) Hh Hnd Hnew) as Hpend.
  destruct (remember_all_right (E := E) (fun q : within_Block => mkWithinTree (in_tree_epoch (tree_of_u64 p)) (in_tree_block (tree_of_u64 p)) (in_block_commitment q))
    into_u64 p (hash_order (finalized_index block)) t (mkContents w l') (conj K Hi)) as (t' & E' & K' & Hw' & Ht'); [|exact Hpend|].
  - intros c q Hq. apply u64_in_block; [done|done|]. assert (Hin : (c, p + into_u64 q) ∈ (fun '(c, q) => (c, p + into_u64 q)) <$> hash_order (finalized_index block))
      by (apply list_elem_of_fmap; by exists (c, q)). apply Hnew in Hin as [Hr _]. change (p <= p + into_u64 q < p + 65536) in Hr. lia.
  - exists t'. split; [exact E'|]. split_and!; [exact K'|exact Hw'|by rewrite Ht'].
Qed.

Lemma close_block_witnesses a : witnesses_ok EPOCH_HEIGHT a -> witnesses_ok EPOCH_HEIGHT (mkContents (witnessed a) (close_block (contents a))).
Proof. intros Hw c i. rewrite <- (Hw c i). cbn [contents]. pose proof (close_block_kept (contents a) i) as E. unfold tree_kept in E. by rewrite E. Qed.

(** The closures that insert a block, on a tree whose last block is closed. *)
Definition placed (block : Finalized within_Block CItem) (r : outcome InsertBlockError Hash * Tree) (b : BlockD) (l : list EpochD)
    (index : gmap StateCommitment within_Tree) : Prop :=
  let '(res, t') := r in same_block_result block res (match add_block b l with inl _ => Ok (closed_hash b) | inr e => Err e end)
  /\ top_rep (inner t') (match add_block b l with inl l' => l' | inr _ => l end) /\ TctTree.index t' = index /\ track_forgotten (inner t') = true.

Lemma insert_block_as_epoch_right block b t l : block_rep block b -> top_rep (inner t) l -> track_forgotten (inner t) = true ->
  (match split_last l with Some (_, Open _) => false | _ => true end) = true ->
  placed block (insert_block_as_epoch (tier_of_top (finalized_inner block)) (finalized_index block) t) b l (index t).
Proof.
  intros Kb K Ht Hl. pose proof Kb as (Kd & Ho & _). unfold insert_block_as_epoch. rewrite bind_gets, (top_rep_is_full _ _ K), top_of_tier_of_top.
  assert (Ea : add_block b l = if (length l <? capacity)%nat then inl (l ++ [Open [b]]) else inr Tree_is_full)
    by (unfold add_block; destruct (split_last l) as [[? [?|?|?]]|]; done).
  unfold placed. rewrite Ea. pose proof (top_rep_length _ _ K). destruct (Nat.ltb_spec (length l) capacity) as [Hlt|Hge].
  - rewrite bool_decide_eq_false_2 by lia.
    assert (Ke : rep (tier_new (fill (tier_of_top (finalized_inner block) : Block)) : Epoch) (Open [b] : EpochD)).
    { assert (Kf : rep (fill (tier_of_top (finalized_inner block) : Block)) b) by exact (proj1 (rep_fill (Represents := block_represents) _ _ Kd)). exact (tier_rep_new _ _ Kf). }
    destruct (top_rep_insert _ _ _ _ K Ke Hlt) as (t' & E' & K' & Ht'). rewrite (bind_on_inner _ _ t _ _ E'). cbn [expect_inserted].
    unfold bind at 1, ret. split_and!; [|exact K'|done|exact (eq_trans Ht' Ht)].
    pose proof (finalized_root_right block b Kb) as E. cbn [same_block_result].
    f_equal. etransitivity; [|exact E]. unfold finalized_root. by destruct (finalized_inner block) as [[c]|h].
  - rewrite bool_decide_eq_true_2 by lia. split_and!; [|exact K|done|done]. by destruct block.
Qed.

Lemma finalized_entries_default : finalized_entries (finalized_default (P := within_Block) (I := FItem) (CI := CItem)) = [].
Proof.
  unfold finalized_entries. assert (E : hash_order (∅ : gmap StateCommitment within_Block) = []).
  { apply Permutation_nil. by rewrite <- map_to_list_empty, <- hash_order_all. }
  cbn. by rewrite E.
Qed.


Lemma place_block_right block b t l : block_rep block b -> top_rep (inner t) l -> track_forgotten (inner t) = true ->
  placed block (place_block (tier_of_top (finalized_inner block)) (finalized_index block) t) b l (index t).
Proof.
  intros Kb K Ht. pose proof Kb as (Kd & Ho & _). unfold place_block.
  destruct (update_insert_block (tier_of_top (finalized_inner block)) b (finalized_index block) (inner t) l K Kd) as (r & t' & E & Ht' & Hr).
  rewrite (bind_on_inner _ _ t _ _ E). rewrite Ht in Ht'. rewrite top_of_tier_of_top in Hr.
  assert (Hroot : open_hash b = closed_hash b) by (destruct b; [discriminate Ho|reflexivity..]). rewrite Hroot in Hr.
  destruct (split_last l) as [[epochs [blocks|?|?]]|] eqn:El.
  2-4: destruct Hr as [-> K']; apply (insert_block_as_epoch_right block b (mkIndexed (index t) t') l Kb K' Ht'); by rewrite El.
  unfold placed, add_block. rewrite El. destruct (_ <? _)%nat; destruct Hr as [-> K']; unfold ret, fail; split_and!; try done. by destruct block.
Qed.

Lemma tree_insert_block_right block b t a : tree_rep t a -> block_rep block b ->
  exists res t', tree_insert_block block t = (res, t') /\ same_block_result block res (spec_insert_block b (finalized_entries block) a).1
    /\ tree_rep t' (spec_insert_block b (finalized_entries block) a).2.
Proof.
  intros [[Kt Hi] [Hw Ht]] Kb. unfold tree_insert_block, spec_insert_block.
  destruct (update_last_block (fun b => Ok (tier_finalize b)) (fun b => negb (tier_open b)) _ _ Kt close_block_rep) as (r1 & t1 & E1 & K1 & Ht1 & _).
  rewrite (bind_on_inner _ _ t _ _ E1), bind_gets. cbn [inner]. clear E1 r1. rewrite Ht in Ht1.
  pose proof (close_block_right _ (tree_shape _ _ Kt)) as (Hs & Hc & _). apply close_block_witnesses in Hw. set (l := close_block (contents a)) in *. clearbody l.
  assert (Hpos : top_position t1 = tree_next l) by exact (top_rep_position _ _ K1). rewrite Hpos.
  pose proof (place_block_right block b (mkIndexed (index t) t1) l Kb K1 Ht1) as Hplaced. pose proof (add_block_right b l Hs Hc (finalized_whole _ _ Kb)) as Hadd.
  destruct (place_block _ _ _) as [res t2] eqn:Eplace. destruct Hplaced as (Hres & K2 & Hi2 & Ht2).
  destruct (add_block b l) as [l'|e].
  - destruct Hadd as (p & Hp & Hm & Hh & _). change (res = Ok (closed_hash b)) in Hres. subst res. rewrite (bind_run_ok _ _ _ _ _ Eplace).
    rewrite Hp. cbn [default].
    assert (Hi' : into_u64 <$> index t2 = witnessed a) by (by rewrite Hi2).
    destruct (index_block_right (E := InsertBlockError) block b p t2 (witnessed a) l l' Kb K2 Hi' Ht2 Hw (next_range _ _ _ K1 Hp) Hm Hh) as (t3 & E3 & K3).
    rewrite (bind_run_ok _ _ _ _ _ E3). by do 2 eexists.
  - exists res, t2. split; [|split; [exact Hres|split_and!; [split; [exact K2|by rewrite Hi2]|exact Hw|done]]].
    destruct e; cbn [same_block_result] in Hres; subst res; by rewrite (bind_run_err _ _ _ _ _ Eplace).
Qed.

(** *** The end of a block *)

Definition end_result (b : BlockD) : bool * Hash :=
  match b with Open items => (false, closed_root 0 LEVELS items) | _ => (true, finalized_root (finalized_default (P := within_Block) (I := FItem) (CI := CItem))) end.

Lemma close_or_empty_right (block : Block) (b : BlockD) : rep block b ->
  exists block', close_or_empty block = Ok (end_result b, block') /\ rep block' (close_tier b).
Proof.
  intros K. unfold close_or_empty. destruct (tier_rep_finalize _ _ K) as (block' & -> & K'). destruct b as [items|l|h]; cbn [tier_open negb tier_close close_tier end_result] in *.
  - destruct (rep_fill (Represents := block_represents) _ _ K') as [Kf _]. pose proof (rep_hash (Represents := block_represents) _ _ K') as Eh.
    exists (fill block'). split; [|exact Kf]. do 3 f_equal. exact Eh.
  - by exists block'.
  - by exists block'.
Qed.

(** Whether the last block is open, and what ending it then returns. *)
Definition open_items (l : list EpochD) : option (list LeafD) :=
  match split_last l with
  | Some (_, Open blocks) => match split_last blocks with Some (_, Open items) => Some items | _ => None end
  | _ => None
  end.

Lemma open_items_none l : open_items l = None -> close_block l = l.
Proof.
  unfold open_items, close_block. destruct (split_last l) as [[epochs [blocks|?|?]]|] eqn:El; try done. apply split_last_inv in El as ->.
  destruct (split_last blocks) as [[blocks' [items|?|?]]|] eqn:Eb; try done; by apply split_last_inv in Eb as ->.
Qed.

Lemma spec_end_block_is a : spec_end_block a = match open_items (contents a) with
  | Some items => (Ok (closed_root 0 LEVELS items), mkContents (witnessed a) (close_block (contents a)))
  | None => spec_insert_block (Opaque one) [] a
  end.
Proof.
  unfold spec_end_block, open_items. destruct (split_last _) as [[? [blocks|?|?]]|]; try done. by destruct (split_last blocks) as [[? [?|?|?]]|].
Qed.

Lemma tree_end_block_right t a : tree_rep t a ->
  exists res t', tree_end_block t = (res, t') /\ same_block_result finalized_default res (spec_end_block a).1 /\ tree_rep t' (spec_end_block a).2.
Proof.
  intros K. pose proof K as [[Kt Hi] [Hw Ht]]. unfold tree_end_block. rewrite spec_end_block_is.
  destruct (update_last_block close_or_empty end_result _ _ Kt close_or_empty_right) as (r & t1 & E1 & K1 & Ht1 & Hr). rewrite (bind_on_inner _ _ t _ _ E1).
  rewrite Ht in Ht1. assert (Kc : tree_rep (mkIndexed (index t) t1) (mkContents (witnessed a) (close_block (contents a)))).
  { split_and!; [by split|by apply close_block_witnesses|done]. }
  destruct (open_items (contents a)) as [items|] eqn:Ho.
  - assert (Hres : flatten r = Some (false, closed_root 0 LEVELS items)).
    { rewrite Hr. unfold open_items in Ho. destruct (split_last (contents a)) as [[? [blocks|?|?]]|]; try done. destruct (split_last blocks) as [[? [?|?|?]]|]; try done.
      by injection Ho as ->. }
    rewrite Hres. do 2 eexists. split; [reflexivity|]. by split.
  - assert (Hres : default (true, finalized_root (finalized_default (P := within_Block) (I := FItem) (CI := CItem))) (flatten r) = (true, one)).
    { rewrite Hr. unfold open_items in Ho. destruct (split_last (contents a)) as [[? [blocks|?|?]]|]; try done. by destruct (split_last blocks) as [[? [?|?|?]]|]. }
    rewrite Hres. cbv iota. rewrite (open_items_none _ Ho) in Kc.
    destruct (tree_insert_block_right finalized_default (Opaque one) _ _ Kc finalized_default_rep) as (res & t2 & E2 & Hsame & K2). rewrite finalized_entries_default in *.
    replace (mkContents (witnessed a) (contents a)) with a in * by (by destruct a). exists (match res with Ok _ => Ok one | _ => res end), t2.
    unfold bind at 1 2, ret. rewrite E2. destruct (spec_insert_block (Opaque one) [] a) as [[h|[|]|] a'] eqn:Es; cbn [fst snd same_block_result] in *; subst; try done.
    split_and!; [done| |exact K2]. f_equal. unfold spec_insert_block in Es. destruct (add_block _ _); [|done]. by injection Es as <- _.
Qed.
End Blocks.

Section Epochs.
Context `{HashEnv} `{!HashOrder}.

Notation epoch_rep := (finalized_rep (P := within_Epoch) (X := Block) (CX := CBlock) (D := BlockD)).

(** A closure that closes the last epoch. *)
Lemma update_last_epoch {A} (g : Epoch -> outcome never (A * Epoch)) (ga : EpochD -> A) (t : FTop Epoch CEpoch) l : top_rep t l ->
  (forall epoch e, rep epoch e -> exists epoch', g epoch = Ok (ga e, epoch') /\ rep epoch' (close_tier e)) ->
  exists r t', top_update g t = Ok (r, t') /\ top_rep t' (close_epoch l) /\ track_forgotten t' = track_forgotten t
    /\ r = (fun p => ga p.2) <$> split_last l.
Proof.
  intros K Hg. destruct l as [|e epochs _] using rev_ind; [rewrite (top_rep_update_empty _ _ K); by do 2 eexists|]. unfold close_epoch. rewrite split_last_snoc.
  destruct (top_rep_focus _ _ _ K) as (epoch & Hfocus & Ke). destruct (Hg epoch e Ke) as (epoch' & Eg & Ke').
  destruct (top_rep_update g _ _ _ _ _ _ _ K Hfocus Eg Ke') as (t' & -> & K' & Ht). by do 2 eexists.
Qed.

Lemma close_epoch_witnesses a : witnesses_ok EPOCH_HEIGHT a -> witnesses_ok EPOCH_HEIGHT (mkContents (witnessed a) (close_epoch (contents a))).
Proof. intros Hw c i. rewrite <- (Hw c i). cbn [contents]. pose proof (close_epoch_kept (contents a) i) as E. unfold tree_kept in E. by rewrite E. Qed.

Lemma close_epoch_rep (epoch : Epoch) (e : EpochD) : rep epoch e ->
  exists epoch', (Ok (tier_finalize epoch) : outcome never (bool * Epoch)) = Ok (negb (tier_open e), epoch') /\ rep epoch' (close_tier e).
Proof. intros K. destruct (tier_rep_finalize _ _ K) as (epoch' & -> & K'). by exists epoch'. Qed.

Definition same_epoch_result (epoch : Finalized within_Epoch CBlock) (res : outcome InsertEpochError Hash) (spec : outcome Full Hash) : Prop :=
  match spec with
  | Ok h => res = Ok h
  | Err Tree_is_full => res = Err (InsertEpochError_ epoch)
  | Err Epoch_is_full | Panic => False
  end.

(** The epoch is there: it remains to index its commitments. *)
Lemma index_epoch_right {E} (epoch : Finalized within_Epoch CBlock) (e : EpochD) p (t : Tree) w l l' : epoch_rep epoch e ->
  top_rep (inner t) l' -> into_u64 <$> index t = w -> track_forgotten (inner t) = true ->
  witnesses_ok EPOCH_HEIGHT (mkContents w l) -> 0 <= p < 2 ^ 48 -> p mod 4294967296 = 0 -> holds_at p 4294967296 (kept_at e) (tree_kept l) (tree_kept l') ->
  exists t', index_epoch (E := E) (tree_of_u64 p) (finalized_index epoch) t = (Ok tt, t')
    /\ tree_rep t' (move_all EPOCH_HEIGHT p (finalized_entries epoch) (mkContents w l')).
Proof.
  intros Ke K Hi Ht Hw Hp Hm Hh. destruct (entries_new epoch e p Ke) as [Hnd Hnew]; [lia|].
  pose proof (held_pending EPOCH_HEIGHT p 4294967296 (kept_at e) _ (mkContents w l) l' Hw ltac:(lia) Hh Hnd Hnew) as Hpend.
  destruct (remember_all_right (E := E) (fun q : within_Epoch => mkWithinTree (in_tree_epoch (tree_of_u64 p)) (in_epoch_block q) (in_epoch_commitment q))
    into_u64 p (hash_order (finalized_index epoch)) t (mkContents w l') (conj K Hi)) as (t' & E' & K' & Hw' & Ht'); [|exact Hpend|].
  - intros c q Hq. apply u64_in_epoch; [done|done|]. assert (Hin : (c, p + into_u64 q) ∈ (fun '(c, q) => (c, p + into_u64 q)) <$> hash_order (finalized_index epoch))
      by (apply list_elem_of_fmap; by exists (c, q)). apply Hnew in Hin as [Hr _]. change (p <= p + u32_of_epoch q < p + 4294967296) in Hr. lia.
  - exists t'. split; [exact E'|]. split_and!; [exact K'|exact Hw'|by rewrite Ht'].
Qed.

Lemma tree_insert_epoch_right epoch e t a : tree_rep t a -> epoch_rep epoch e ->
  exists res t', tree_insert_epoch epoch t = (res, t') /\ same_epoch_result epoch res (spec_insert_epoch e (finalized_entries epoch) a).1
    /\ tree_rep t' (spec_insert_epoch e (finalized_entries epoch) a).2.
Proof.
  intros K Ke. pose proof K as [[Kt Hi] [Hw Ht]]. pose proof Ke as (Kd & Ho & _). unfold tree_insert_epoch, spec_insert_epoch.
  rewrite bind_gets, (top_rep_is_full _ _ Kt). pose proof (top_rep_length _ _ Kt) as Hl.
  destruct (Nat.ltb_spec (length (contents a)) capacity) as [Hlt|Hge]; [|rewrite bool_decide_eq_true_2 by lia; by do 2 eexists].
  rewrite bool_decide_eq_false_2 by lia. unfold bind at 1, ret at 1.
  destruct (update_last_epoch (fun e => Ok (tier_finalize e)) (fun e => negb (tier_open e)) _ _ Kt close_epoch_rep) as (r1 & t1 & E1 & K1 & Ht1 & _).
  rewrite (bind_on_inner _ _ t _ _ E1), bind_gets. cbn [inner]. clear E1 r1. rewrite Ht in Ht1.
  destruct (close_epoch_closed (contents a)) as [Hc Hlen]. rewrite <- Hlen in Hlt. apply close_epoch_witnesses in Hw.
  set (l := close_epoch (contents a)) in *. clearbody l.
  assert (Hpos : top_position t1 = tree_next l) by exact (top_rep_position _ _ K1). rewrite Hpos.
  destruct (finalized_whole _ _ Ke) as [Hnext Hkept].
  destruct (epoch_into_tree l e 4294967296 (kept_at e)) as (Hp & Hh & _); [done|done|exact (whole_holds _ _ (conj Hnext Hkept))|lia| |].
  { intros q Hq. exfalso. revert Hq. change (next_position e) with (@next_position _ _ (tier_denotes (@height _ Block CBlock _)) e). by rewrite Hnext. }
  set (p := Z.of_nat (length l) * 4294967296) in *. rewrite Hp. cbn [expect_some default]. rewrite bind_lift_ok. cbv zeta.
  assert (Kf : rep (fill (tier_of_top (finalized_inner epoch) : Epoch)) e) by exact (proj1 (rep_fill (Represents := epoch_represents) _ _ Kd)).
  destruct (top_rep_insert t1 l _ e K1 Kf Hlt) as (t2 & E2 & K2 & Ht2). rewrite (bind_on_inner _ _ (mkIndexed (index t) t1) _ _ E2). rewrite Ht1 in Ht2.
  cbn [expect_inserted]. unfold bind at 1, ret at 1.
  destruct (index_epoch_right (E := InsertEpochError) epoch e p (mkIndexed (index t) t2) (witnessed a) l (l ++ [e]) Ke K2 Hi Ht2 Hw
    (next_range _ _ _ K1 Hp) ltac:(by apply Z_mod_mult) Hh) as (t3 & E3 & K3).
  rewrite (bind_run_ok _ _ _ _ _ E3). do 2 eexists. split; [reflexivity|]. split; [|exact K3]. cbn [fst same_epoch_result]. f_equal.
  pose proof (finalized_root_right epoch e Ke) as E. etransitivity; [|exact E]. unfold finalized_root. by destruct (finalized_inner epoch) as [[c]|h].
Qed.

(** *** The end of an epoch *)

Definition end_epoch_result (e : EpochD) : bool * Hash :=
  match e with Open blocks => (false, closed_root LEVELS LEVELS blocks) | _ => (true, finalized_root (finalized_default (P := within_Epoch) (I := Block) (CI := CBlock))) end.

Lemma close_or_empty_epoch_right (epoch : Epoch) (e : EpochD) : rep epoch e ->
  exists epoch', close_or_empty_epoch epoch = Ok (end_epoch_result e, epoch') /\ rep epoch' (close_tier e).
Proof.
  intros K. unfold close_or_empty_epoch. destruct (tier_rep_finalize _ _ K) as (epoch' & -> & K').
  destruct e as [blocks|l|h]; cbn [tier_open negb tier_close close_tier end_epoch_result] in *; [|by exists epoch'..].
  destruct (rep_fill (Represents := epoch_represents) _ _ K') as [Kf _]. pose proof (rep_hash (Represents := epoch_represents) _ _ K') as Eh.
  exists (fill epoch'). split; [|exact Kf]. do 3 f_equal. exact Eh.
Qed.

Lemma finalized_entries_default_epoch : finalized_entries (finalized_default (P := within_Epoch) (I := Block) (CI := CBlock)) = [].
Proof.
  unfold finalized_entries. assert (E : hash_order (∅ : gmap StateCommitment within_Epoch) = []).
  { apply Permutation_nil. by rewrite <- map_to_list_empty, <- hash_order_all. }
  cbn. by rewrite E.
Qed.

(** Whether the last epoch is open. *)
Definition open_blocks (l : list EpochD) : option (list BlockD) := match split_last l with Some (_, Open blocks) => Some blocks | _ => None end.

Lemma open_blocks_none l : open_blocks l = None -> close_epoch l = l.
Proof.
  unfold open_blocks, close_epoch. destruct (split_last l) as [[epochs [blocks|?|?]]|] eqn:El; try done; by apply split_last_inv in El as ->.
Qed.

Lemma spec_end_epoch_is a : spec_end_epoch a = match open_blocks (contents a) with
  | Some blocks => (Ok (closed_root LEVELS LEVELS blocks), mkContents (witnessed a) (close_epoch (contents a)))
  | None => spec_insert_epoch (Opaque one) [] a
  end.
Proof. unfold spec_end_epoch, open_blocks. by destruct (split_last _) as [[? [blocks|?|?]]|]. Qed.

Lemma tree_end_epoch_right t a : tree_rep t a ->
  exists res t', tree_end_epoch t = (res, t') /\ same_epoch_result finalized_default res (spec_end_epoch a).1 /\ tree_rep t' (spec_end_epoch a).2.
Proof.
  intros K. pose proof K as [[Kt Hi] [Hw Ht]]. unfold tree_end_epoch. rewrite spec_end_epoch_is.
  destruct (update_last_epoch close_or_empty_epoch end_epoch_result _ _ Kt close_or_empty_epoch_right) as (r & t1 & E1 & K1 & Ht1 & ->). rewrite (bind_on_inner _ _ t _ _ E1).
  rewrite Ht in Ht1. assert (Kc : tree_rep (mkIndexed (index t) t1) (mkContents (witnessed a) (close_epoch (contents a)))).
  { split_and!; [by split|by apply close_epoch_witnesses|done]. }
  destruct (open_blocks (contents a)) as [blocks|] eqn:Ho.
  - assert (Hres : (fun p => end_epoch_result p.2) <$> split_last (contents a) = Some (false, closed_root LEVELS LEVELS blocks)).
    { unfold open_blocks in Ho. destruct (split_last (contents a)) as [[? [?|?|?]]|]; try done. by injection Ho as ->. }
    rewrite Hres. do 2 eexists. split; [reflexivity|]. by split.
  - assert (Hres : default (true, finalized_root (finalized_default (P := within_Epoch) (I := Block) (CI := CBlock)))
      ((fun p => end_epoch_result p.2) <$> split_last (contents a)) = (true, one)).
    { unfold open_blocks in Ho. by destruct (split_last (contents a)) as [[? [?|?|?]]|]. }
    rewrite Hres. cbv iota. rewrite (open_blocks_none _ Ho) in Kc.
    destruct (tree_insert_epoch_right finalized_default (Opaque one) _ _ Kc finalized_default_rep) as (res & t2 & E2 & Hsame & K2). rewrite finalized_entries_default_epoch in *.
    replace (mkContents (witnessed a) (contents a)) with a in * by (by destruct a). exists (match res with Ok _ => Ok one | _ => res end), t2.
    unfold bind at 1 2, ret. rewrite E2. unfold spec_insert_epoch in *. destruct (_ <? _)%nat; cbn [fst snd same_epoch_result] in *; subst; by split_and!.
Qed.

(** ** The current roots *)

Definition current_block (l : list EpochD) : Hash := match open_items l with Some items => open_root 0 LEVELS items | None => zero end.
Definition current_epoch (l : list EpochD) : Hash := match open_blocks l with Some blocks => open_root LEVELS LEVELS blocks | None => zero end.

(** Reading the hash of an unfinalized item fills its caches. *)
Lemma peek_block (block : Block) (b : BlockD) : rep block b -> let g := fun block : Block => if tier_is_finalized block then block else fill block in
  rep (g block) b /\ fills block (g block).
Proof.
  intros K g. unfold g. destruct (tier_is_finalized block); [split; [exact K|exact id]|].
  destruct (rep_fill (Represents := block_represents) _ _ K) as [Kf Hc]. split; [exact Kf|]. intros _. rewrite Hc. by eexists.
Qed.

Lemma peek_epoch (epoch : Epoch) (e : EpochD) : rep epoch e -> let g := fun epoch : Epoch => if tier_is_finalized epoch then epoch else fill epoch in
  rep (g epoch) e /\ fills epoch (g epoch).
Proof.
  intros K g. unfold g. destruct (tier_is_finalized epoch); [split; [exact K|exact id]|].
  destruct (rep_fill (Represents := epoch_represents) _ _ K) as [Kf Hc]. split; [exact Kf|]. intros _. rewrite Hc. by eexists.
Qed.

Lemma current_epoch_root_right t a : tree_rep t a -> (current_epoch_root t).1 = current_epoch (contents a) /\ tree_rep (current_epoch_root t).2 a.
Proof.
  intros [[K Hi] [Hw Ht]]. unfold current_epoch_root, current_epoch, open_blocks. cbn [fst snd].
  destruct (contents a) as [|e epochs _] eqn:Ec using rev_ind.
  - destruct (inner t) as [tr [f|]] eqn:Et; [pose proof (rep_length _ _ K) as Hl; cbn in Hl; lia|]. split; [done|].
    split_and!; [split; [|done]|done|done]. rewrite Ec. done.
  - rewrite split_last_snoc. destruct (top_rep_focus _ _ _ K) as (epoch & Hfocus & Ke). rewrite Hfocus, (tier_rep_finalized _ _ Ke).
    destruct (peek_epoch epoch e Ke) as [Kp Hf]. split.
    + destruct e as [blocks|l|h]; cbn [tier_open negb]; [|done..]. exact (rep_hash (Represents := epoch_represents) _ _ Ke).
    + split_and!; [split; [|done]|done|by destruct (inner t)]. rewrite Ec. exact (top_rep_peek _ _ _ _ _ K Hfocus Hf Kp).
Qed.

Lemma current_block_root_right t a : tree_rep t a -> (current_block_root t).1 = current_block (contents a) /\ tree_rep (current_block_root t).2 a.
Proof.
  intros [[K Hi] [Hw Ht]]. unfold current_block_root, current_block, open_items. cbn [fst snd].
  set (gb := fun block : Block => if tier_is_finalized block then block else fill block).
  assert (Hrep : forall t', top_rep t' (contents a) -> track_forgotten t' = true -> tree_rep (mkIndexed (index t) t') a) by (intros; by split_and!).
  destruct (contents a) as [|e epochs _] eqn:Ec using rev_ind.
  { destruct (inner t) as [tr [f|]] eqn:Et; [pose proof (rep_length _ _ K) as Hl; cbn in Hl; lia|]. split; [done|]. by apply Hrep. }
  rewrite split_last_snoc. destruct (top_rep_focus _ _ _ K) as (epoch & Hfocus & Ke). rewrite Hfocus. cbn [mbind option_bind].
  assert (Hpeek : rep (tier_peek gb epoch) e -> fills epoch (tier_peek gb epoch) -> tree_rep (mkIndexed (index t) (top_peek (tier_peek gb) (inner t))) a).
  { intros Kp Hf. apply Hrep; [exact (top_rep_peek _ _ _ _ _ K Hfocus Hf Kp)|by destruct (inner t)]. }
  destruct e as [blocks|l|h].
  - pose proof (tier_rep_length _ _ Ke) as Hl. destruct blocks as [|b blocks _] using rev_ind; [cbn in Hl; lia|]. rewrite split_last_snoc.
    destruct (tier_rep_focus _ _ _ Ke) as (block & Hblock & Kb). rewrite Hblock, (tier_rep_finalized _ _ Kb). destruct (peek_block block b Kb) as [Kp Hf]. split.
    + destruct b as [items|l|h]; cbn [tier_open negb]; [|done..]. exact (rep_hash (Represents := block_represents) _ _ Kb).
    + destruct (tier_rep_peek gb _ _ _ _ Ke Hblock Hf Kp) as [Kp' Hf']. exact (Hpeek Kp' Hf').
  - split; [by destruct epoch|]. apply Hpeek; rewrite (tier_rep_peek_closed gb _ _ Ke eq_refl); [exact Ke|exact id].
  - split; [by destruct epoch|]. apply Hpeek; rewrite (tier_rep_peek_closed gb _ _ Ke eq_refl); [exact Ke|exact id].
Qed.
End Epochs.
