(* ===== verification/TctBuilders.v ===== *)
(** * Builders

    A builder of blocks refines a list of leaves with its index; what a builder of blocks or of epochs
    finalizes can be inserted into a tree. *)

From S2P Require Import Prelude.
From S2P Require Import Tct.
From S2P Require Import TctSpec.
From S2P Require Import TctLaws.
From S2P Require Import TctNodes.
From S2P Require Import TctTiers.
From S2P Require Import TctTree.
From S2P Require Import TctContents.
From S2P Require Import TctMachine.
From S2P Require Import TctBlocks.
Import Hashing.
Import Items.
Import Tiers.

#[local] Opaque cells.

(** ** Finalizing *)

Section Finalizing.
Context `{HashEnv} `{!HashOrder} {P X CX D : Type} `{!Focus X CX} `{!Denotes D} `{!Forgets D} `{!Represents X CX D} `{!InnerLaws X CX D} `{!IntoU64 P}.
Notation h0 := (@height _ X CX _).

Definition builder_rep (b : Indexed P X CX) (a : ContentsD D) : Prop := indexed_rep b a /\ witnesses_ok h0 a.

Lemma builder_default_rep : builder_rep builder_default (mkContents ∅ []).
Proof.
  split; [split; [done|exact (fmap_empty into_u64)]|]. intros c i. cbn [contents witnessed]. by rewrite list_kept_nil, lookup_empty.
Qed.

Lemma builder_finalize_right b a : builder_rep b a -> finalized_rep (builder_finalize b).1 (closed_tier (contents a)).
Proof.
  intros [[K Hi] Hw]. split_and!; [exact (top_rep_finalize _ _ K)|by destruct (contents a)|]. intros c i. cbn [builder_finalize fst finalized_index].
  rewrite <- lookup_fmap, Hi, <- (Hw c i). by destruct (contents a).
Qed.
End Finalizing.

(** ** Blocks *)

Section Blocks.
Context `{HashEnv} `{!HashOrder}.

Definition spec_block_insert (witness : Witness) (c : StateCommitment) (a : ContentsD LeafD) : outcome BlockInsertError unit * ContentsD LeafD :=
  if (length (contents a) <? capacity)%nat then
    let p := Z.of_nat (length (contents a)) in
    let a := mkContents (witnessed a) (contents a ++ [leaf_of witness c]) in
    (Ok tt, match witness with Witness_Keep => move 0 c p a | Witness_Forget => a end)
  else (Err BlockInsertError_, a).

Lemma leaf_push_holds (l : list LeafD) d : holds_at (Z.of_nat (length l)) 1 (leaf_at d) (list_kept 0 l) (list_kept 0 (l ++ [d])).
Proof.
  pose proof (holds_push 0 l d 0 1 (leaf_at d) (leaf_holds d) ltac:(lia) ltac:(done)) as Hk. change (item_size 0) with 1 in Hk.
  by rewrite Z.mul_1_r, Z.add_0_r in Hk.
Qed.

Lemma block_insert_right witness c (b : BlockBuilder) (a : ContentsD LeafD) : builder_rep b a ->
  exists b', block_insert witness c b = ((spec_block_insert witness c a).1, b') /\ builder_rep b' (spec_block_insert witness c a).2.
Proof.
  intros [[K Hi] Hw]. unfold block_insert, spec_block_insert. rewrite bind_gets, (top_rep_position _ _ K). pose proof (top_rep_length _ _ K) as Hl.
  change (list_position _ LEVELS (contents a)) with (list_position 0 LEVELS (contents a)). rewrite block_next by done. pose proof capacity_Z as Hcap.
  destruct (Nat.ltb_spec (length (contents a)) capacity) as [Hlt|Hge]; cbn [ok_or]; [|exists b; split; [reflexivity|exact (conj (conj K Hi) Hw)]]. rewrite bind_lift_ok.
  rewrite (proj2 (Z.ltb_lt _ _)) by lia. unfold bind at 1, ret at 1.
  destruct (top_rep_insert _ _ (item_of witness c) (leaf_of witness c) K (item_of_rep witness c) Hlt) as (i' & Ei & K' & _).
  rewrite (bind_on_inner _ _ b _ _ Ei). cbn [expect_inserted]. unfold bind at 1, ret at 1.
  pose proof (leaf_push_holds (contents a) (leaf_of witness c)) as Hh. destruct witness.
  - eexists. split; [reflexivity|]. split; [by split|]. apply pending_done.
    apply (held_pending 0 (Z.of_nat (length (contents a))) 1 (leaf_at (leaf_of Witness_Forget c))); [exact Hw|lia|exact Hh|constructor|].
    intros c' i. split; [by intros ?%elem_of_nil|intros [_ E]; discriminate E].
  - assert (Hpend : pending 0 [(c, into_u64 (block_of_u16 (Z.of_nat (length (contents a)))))] (mkContents (witnessed a) (contents a ++ [leaf_of Witness_Keep c]))).
    { apply (held_pending 0 (Z.of_nat (length (contents a))) 1 (leaf_at (leaf_of Witness_Keep c))); [exact Hw|lia|exact Hh|by apply NoDup_singleton|].
      intros c' i. rewrite list_elem_of_singleton. cbn. split; [intros [= -> ->]; by split; [lia|]|]. intros [? [= ->]]. f_equal. lia. }
    destruct (remember_right (E := BlockInsertError) (mkIndexed (index b) i') (mkContents (witnessed a) (contents a ++ [leaf_of Witness_Keep c])) c
      (block_of_u16 (Z.of_nat (length (contents a)))) [] (conj K' Hi) Hpend) as (b' & E' & K'' & Hp' & _).
    exists b'. split; [exact E'|]. split; [exact K''|by apply pending_done].
Qed.

(** *** Many commitments *)

Definition bare (c : StateCommitment) : LeafD := mkLeafD (hash_of c) None.

Lemma same_hashes_refl (l : list LeafD) : Forall2 same_hashes l l.
Proof. by apply Forall_Forall2_diag, Forall_true. Qed.

Lemma same_hashes_trans (l l' l'' : list LeafD) : Forall2 same_hashes l l' -> Forall2 same_hashes l' l'' -> Forall2 same_hashes l l''.
Proof.
  intros H1. revert l''. induction H1 as [|x y l l' Hxy _ IH]; intros l'' H2; inversion H2 as [|? z ? ? Hyz ?]; subst; constructor; [|by apply IH].
  destruct Hxy as (E1 & E2 & E3), Hyz as (E4 & E5 & E6). split_and!; congruence.
Qed.

Lemma move_hashes c p (a : ContentsD LeafD) : Forall2 same_hashes (contents (move 0 c p a)) (contents a).
Proof. cbn [move contents]. destruct (witnessed a !! c); [apply list_forget_same|apply same_hashes_refl]. Qed.

Lemma block_inserts_right cs (b : BlockBuilder) (a : ContentsD LeafD) : builder_rep b a -> (length (contents a) + length cs <= capacity)%nat ->
  exists b' a', for_each cs (fun '(witness, c) => block_insert witness c) b = (Ok tt, b') /\ builder_rep b' a'
    /\ Forall2 same_hashes (contents a') (contents a ++ (bare <$> cs.*2)).
Proof.
  revert b a. induction cs as [|[witness c] cs IH]; intros b a K Hl.
  - exists b, a. split_and!; [done|done|]. cbn. rewrite app_nil_r. apply same_hashes_refl.
  - cbn [length] in Hl. destruct (block_insert_right witness c b a K) as (b1 & E1 & K1). unfold spec_block_insert in *.
    rewrite (proj2 (Nat.ltb_lt _ _)) in * by lia. cbn [fst snd] in *.
    set (a1 := match witness with Witness_Keep => _ | Witness_Forget => _ end) in *.
    assert (H1 : Forall2 same_hashes (contents a1) (contents a ++ [bare c])).
    { assert (Hleaf : Forall2 same_hashes (contents a ++ [leaf_of witness c]) (contents a ++ [bare c])) by (apply Forall2_app; [apply same_hashes_refl|by constructor]).
      unfold a1. destruct witness; [exact Hleaf|]. eapply same_hashes_trans; [apply move_hashes|exact Hleaf]. }
    destruct (IH b1 a1 K1) as (b' & a' & E' & K' & H'); [rewrite (Forall2_length _ _ _ H1), length_app; cbn [length]; lia|].
    exists b', a'. cbn [for_each]. rewrite (bind_run_ok _ _ _ _ _ E1). split_and!; [exact E'|exact K'|]. eapply same_hashes_trans; [exact H'|].
    cbn [fmap list_fmap snd]. rewrite cons_middle, app_assoc. apply Forall2_app; [exact H1|apply same_hashes_refl].
Qed.
End Blocks.
