(* ===== verification/TctTheorems.v ===== *)
(** * Theorems about the commitment tree

    The trees that the operations reach, with what they contain: their roots are those of their
    contents, what is witnessed can be proved, and positions only go up.  The last part runs a tree
    whose hashes are terms. *)

From S2P Require Import Prelude.
From S2P Require Import Tct.
From S2P Require Import TctSpec.
From S2P Require Import TctLaws.
From S2P Require Import TctNodes.
From S2P Require Import TctTiers.
From S2P Require Import TctTree.
From S2P Require Import TctContents.
From S2P Require Import TctMachine.
From S2P Require Import TctBlocks.
From S2P Require Import TctBuilders.
Import Hashing.
Import Items.
Import Tiers.

#[local] Opaque cells.

(** ** The trees that are reached *)

Section Theorems.
Context `{HashEnv} `{!HashOrder}.

Abbreviation finalized_block := (finalized_rep (P := within_Block) (X := FItem) (CX := CItem) (D := LeafD)).
Abbreviation finalized_epoch := (finalized_rep (P := within_Epoch) (X := Block) (CX := CBlock) (D := BlockD)).

(** One operation on a tree, with its specification on the contents. *)
Inductive tree_step (t : Tree) (a : TreeD) : Tree -> TreeD -> Prop :=
| step_insert witness c : tree_step t a (tree_insert witness c t).2 (spec_insert witness c a).2
| step_forget c : tree_step t a (tree_forget (E := never) c t).2 (spec_forget c a).2
| step_insert_block block b : finalized_block block b ->
    tree_step t a (tree_insert_block block t).2 (spec_insert_block b (finalized_entries block) a).2
| step_end_block : tree_step t a (tree_end_block t).2 (spec_end_block a).2
| step_insert_epoch epoch e : finalized_epoch epoch e ->
    tree_step t a (tree_insert_epoch epoch t).2 (spec_insert_epoch e (finalized_entries epoch) a).2
| step_end_epoch : tree_step t a (tree_end_epoch t).2 (spec_end_epoch a).2
| step_witness c : tree_step t a (tree_witness (E := never) c t).2 a
| step_root : tree_step t a (root t).2 a
| step_block_root : tree_step t a (current_block_root t).2 a
| step_epoch_root : tree_step t a (current_epoch_root t).2 a.

Inductive reaches : Tree -> TreeD -> Prop :=
| reaches_default : reaches tree_default (mkContents ∅ [])
| reaches_step t a t' a' : reaches t a -> tree_step t a t' a' -> reaches t' a'.

Lemma tree_default_rep : tree_rep tree_default (mkContents ∅ []).
Proof.
  split_and!; [split; [done|exact (fmap_empty into_u64)]| |done]. intros c i. cbn [contents witnessed]. unfold list_kept.
  rewrite lookup_nil, lookup_empty. by destruct (_ <? _).
Qed.

Lemma step_rep t a t' a' : tree_rep t a -> tree_step t a t' a' -> tree_rep t' a'.
Proof.
  intros K [witness c|c|block b Kb| |epoch e Ke| |c| | |].
  - destruct (tree_insert_right witness c t a K) as (res & ? & -> & _ & K'). exact K'.
  - destruct (tree_forget_right (E := never) c t a K) as (? & -> & K'). exact K'.
  - destruct (tree_insert_block_right block b t a K Kb) as (res & ? & -> & _ & K'). exact K'.
  - destruct (tree_end_block_right t a K) as (res & ? & -> & _ & K'). exact K'.
  - destruct (tree_insert_epoch_right epoch e t a K Ke) as (res & ? & -> & _ & K'). exact K'.
  - destruct (tree_end_epoch_right t a K) as (res & ? & -> & _ & K'). exact K'.
  - destruct (tree_witness_right (E := never) c t a K) as (w & ? & -> & K' & _). exact K'.
  - exact (proj2 (root_right t a K)).
  - exact (proj2 (current_block_root_right t a K)).
  - exact (proj2 (current_epoch_root_right t a K)).
Qed.

Lemma reaches_rep t a : reaches t a -> tree_rep t a.
Proof. induction 1 as [|t a t' a' _ K Hs]; [apply tree_default_rep|]. by eapply step_rep. Qed.

(** *** Positions *)

Lemma move_next c p (a : TreeD) : tree_next (contents (move EPOCH_HEIGHT c p a)) = tree_next (contents a).
Proof. cbn [move contents]. destruct (witnessed a !! c); [|done]. apply list_position_same, list_forget_same. Qed.

Lemma move_all_next p cs (a : TreeD) : tree_next (contents (move_all EPOCH_HEIGHT p cs a)) = tree_next (contents a).
Proof. revert a. induction cs as [|[c i] cs IH]; intros a; [done|]. unfold move_all in *. cbn [foldl]. by rewrite IH, move_next. Qed.

Lemma not_before_trans p q r : not_before p q -> not_before q r -> not_before p r.
Proof. destruct p, q, r; cbn; try done; lia. Qed.

Lemma later_not_before p q : later p q -> not_before (Some p) q.
Proof. destruct q; cbn; [lia|done]. Qed.

Lemma spec_insert_next witness c t (a : TreeD) : tree_rep t a ->
  match (spec_insert witness c a).1 with
  | Ok p => tree_next (contents a) = Some p /\ later p (tree_next (contents (spec_insert witness c a).2))
  | _ => (spec_insert witness c a).2 = a
  end.
Proof.
  intros [[K _] _]. unfold spec_insert. destruct (tree_next (contents a)) as [p|] eqn:Hp; [|done].
  pose proof (add_leaf_right (leaf_of witness c) _ _ (tree_shape _ _ K) Hp) as Hadd. destruct (add_leaf _ _) as [l'|e]; cbn [fst snd]; [|done].
  split; [done|]. destruct Hadd as [_ Hl]. by destruct witness; rewrite ?move_next.
Qed.

Lemma spec_insert_block_next b cs t (a : TreeD) : tree_rep t a -> whole LEVELS b ->
  not_before (tree_next (contents a)) (tree_next (contents (spec_insert_block b cs a).2)).
Proof.
  intros [[K _] _] Hb. unfold spec_insert_block. destruct (close_block_right _ (tree_shape _ _ K)) as (Hs & Hc & Hn).
  pose proof (add_block_right b _ Hs Hc Hb) as Hadd. destruct (add_block _ _) as [l'|e]; cbn [snd contents]; [|exact Hn].
  rewrite move_all_next. destruct Hadd as (p & Hp & _ & _ & Hl). eapply not_before_trans; [exact Hn|]. rewrite Hp. by apply later_not_before.
Qed.

Lemma spec_insert_epoch_next e cs t (a : TreeD) : tree_rep t a -> whole EPOCH_HEIGHT e ->
  not_before (tree_next (contents a)) (tree_next (contents (spec_insert_epoch e cs a).2)).
Proof.
  intros [[K _] _] He. unfold spec_insert_epoch. destruct (Nat.ltb_spec (length (contents a)) capacity) as [Hlt|]; [|apply not_before_refl].
  pose proof (close_epoch_next _ (tree_shape _ _ K)) as Hn. destruct (close_epoch_closed (contents a)) as [Hc Hlen]. rewrite <- Hlen in Hlt.
  cbn [snd contents]. rewrite move_all_next. destruct He as [Hnext Hkept].
  destruct (epoch_into_tree _ e 4294967296 (kept_at e) Hlt Hc (whole_holds EPOCH_HEIGHT _ (conj Hnext Hkept))) as (Hp & _ & Hl); [lia|by intros q; rewrite Hnext|].
  eapply not_before_trans; [exact Hn|]. rewrite Hp. by apply later_not_before.
Qed.

Lemma opaque_whole {D} `{!Denotes D} h0 h r : @whole _ (TierD D) (tier_denotes h0) h (Opaque r).
Proof. split; [done|]. intros i c. cbn. unfold list_kept. rewrite lookup_nil. by destruct (_ <? _). Qed.

Lemma step_next t a t' a' : tree_rep t a -> tree_step t a t' a' -> not_before (tree_next (contents a)) (tree_next (contents a')).
Proof.
  intros K Hs. pose proof K as [[Kt _] _]. pose proof (tree_shape _ _ Kt) as Hsh. destruct Hs as [witness c|c|block b Kb| |epoch e Ke| |c| | |]; try apply not_before_refl.
  - pose proof (spec_insert_next witness c t a K) as Hn. destruct (spec_insert witness c a) as [[p| |] a']; cbn [fst snd] in *; [|subst; apply not_before_refl..].
    destruct Hn as [-> Hl]. by apply later_not_before.
  - unfold spec_forget. destruct (witnessed a !! c); [|apply not_before_refl]. cbn [snd contents].
    rewrite (list_position_same EPOCH_HEIGHT LEVELS _ _ (list_forget_same EPOCH_HEIGHT z (contents a)) : tree_next _ = tree_next _). apply not_before_refl.
  - exact (spec_insert_block_next b _ t a K (finalized_whole _ _ Kb)).
  - rewrite spec_end_block_is. destruct (open_items _); [by apply close_block_right|]. exact (spec_insert_block_next _ _ t a K (opaque_whole 0 LEVELS one)).
  - exact (spec_insert_epoch_next e _ t a K (finalized_whole _ _ Ke)).
  - rewrite spec_end_epoch_is. destruct (open_blocks _); [by apply close_epoch_next|]. exact (spec_insert_epoch_next _ _ t a K (opaque_whole LEVELS EPOCH_HEIGHT one)).
Qed.

(** (C17) Whatever was inserted, forgotten, closed or read before, and whatever is cached: the root of a
    tree, and those of its current block and epoch, are the hashes of its contents, computed from
    scratch. *)
Theorem tree_roots_are_hashes_of_contents t a : reaches t a ->
  (root t).1 = tree_root (contents a)
  /\ (current_block_root t).1 = current_block (contents a)
  /\ (current_epoch_root t).1 = current_epoch (contents a).
Proof.
  intros K%reaches_rep. split_and!; [apply (root_right t a K)|apply (current_block_root_right t a K)|apply (current_epoch_root_right t a K)].
Qed.

(** (C16) Operations on a tree do what they do to its contents: they return what the specification
    returns, give back the block or epoch that does not fit, and never panic. *)
Theorem tree_operations_refine_contents t a : reaches t a ->
  (forall witness c, same_position (tree_insert witness c t).1 (spec_insert witness c a).1)
  /\ (forall c, (tree_forget (E := never) c t).1 = Ok (spec_forget c a).1)
  /\ (forall block b, finalized_block block b -> same_block_result block (tree_insert_block block t).1 (spec_insert_block b (finalized_entries block) a).1)
  /\ same_block_result finalized_default (tree_end_block t).1 (spec_end_block a).1
  /\ (forall epoch e, finalized_epoch epoch e -> same_epoch_result epoch (tree_insert_epoch epoch t).1 (spec_insert_epoch e (finalized_entries epoch) a).1)
  /\ same_epoch_result finalized_default (tree_end_epoch t).1 (spec_end_epoch a).1.
Proof.
  intros K%reaches_rep. split_and!.
  - intros witness c. by destruct (tree_insert_right witness c t a K) as (res & t' & -> & Hs & _).
  - intros c. by destruct (tree_forget_right (E := never) c t a K) as (t' & -> & _).
  - intros block b Kb. by destruct (tree_insert_block_right block b t a K Kb) as (res & t' & -> & Hs & _).
  - by destruct (tree_end_block_right t a K) as (res & t' & -> & Hs & _).
  - intros epoch e Ke. by destruct (tree_insert_epoch_right epoch e t a K Ke) as (res & t' & -> & Hs & _).
  - by destruct (tree_end_epoch_right t a K) as (res & t' & -> & Hs & _).
Qed.

(** (C18) A commitment that is indexed has a witness that verifies against the root of the tree, at the
    position of the index; one that is not has none.  The branch for an index that disagrees with the
    tree is never taken. *)
Theorem indexed_commitments_are_proved t a c : reaches t a -> exists w, (tree_witness (E := never) c t).1 = Ok w /\
  match index t !! c with
  | Some position => exists path, w = Some (mkProof (u64_of_tree position) path c) /\ length path = TREE_HEIGHT
      /\ verify (mkProof (u64_of_tree position) path c) (root t).1 = Ok tt
  | None => w = None
  end.
Proof.
  intros K%reaches_rep. destruct (tree_witness_right (E := never) c t a K) as (w & t' & -> & _ & Hw). exists w. split; [done|].
  rewrite (proj1 (root_right t a K)). destruct K as [[_ Hi] _]. assert (Hl : witnessed a !! c = into_u64 <$> index t !! c) by (by rewrite <- Hi, lookup_fmap).
  rewrite Hl in Hw. by destruct (index t !! c).
Qed.

(** (C20) The position only goes up, whatever is done to the tree; a commitment is inserted at the
    position of the tree, which is then a later one; and no position exceeds 48 bits. *)
Theorem positions_only_go_up t a : reaches t a ->
  (forall t' a', tree_step t a t' a' -> not_before (top_position (inner t)) (top_position (inner t')))
  /\ (forall witness c position t', tree_insert witness c t = (Ok position, t') ->
       top_position (inner t) = Some (u64_of_tree position) /\ later (u64_of_tree position) (top_position (inner t')))
  /\ (forall p, top_position (inner t) = Some p -> 0 <= p < 2 ^ 48).
Proof.
  intros K%reaches_rep. pose proof K as [[Kt _] _]. rewrite (tree_rep_next _ _ K). split_and!.
  - intros t' a' Hs. rewrite (tree_rep_next _ _ (step_rep _ _ _ _ K Hs)). exact (step_next _ _ _ _ K Hs).
  - intros witness c position t' E. destruct (tree_insert_right witness c t a K) as (res & t1 & E1 & Hsame & K1). rewrite E in E1. injection E1 as <- <-.
    pose proof (spec_insert_next witness c t a K) as Hn. destruct (spec_insert witness c a) as [[p| |] a']; cbn [fst snd same_position] in *; try done.
    injection Hsame as ->. destruct Hn as [Hp Hl]. rewrite u64_tree_u64 by exact (next_range _ _ _ Kt Hp). by rewrite (tree_rep_next _ _ K1).
  - intros p Hp. exact (next_range _ _ _ Kt Hp).
Qed.

(** Where the witnessed commitments are. *)
Definition positions (t : Tree) : gmap StateCommitment Z := u64_of_tree <$> index t.

Lemma positions_witnessed t a : tree_rep t a -> positions t = witnessed a.
Proof. by intros [[_ Hi] _]. Qed.

(** (C21) A commitment that is inserted to be kept is indexed at the position that is returned, and
    inserting others leaves it there; a failed insertion leaves all as it is.  Forgetting a commitment
    takes it out of the index, and changes neither the root nor the position. *)
Theorem insertions_and_forgetting_are_indexed t a : reaches t a ->
  (forall c position t', tree_insert Witness_Keep c t = (Ok position, t') -> positions t' = <[c := u64_of_tree position]> (positions t))
  /\ (forall c position t', tree_insert Witness_Forget c t = (Ok position, t') -> positions t' = positions t)
  /\ (forall witness c e t', tree_insert witness c t = (Err e, t') ->
       positions t' = positions t /\ (root t').1 = (root t).1 /\ top_position (inner t') = top_position (inner t))
  /\ (forall c b t', tree_forget (E := never) c t = (Ok b, t') ->
       positions t' = base.delete c (positions t) /\ b = bool_decide (is_Some (positions t !! c))
       /\ (root t').1 = (root t).1 /\ top_position (inner t') = top_position (inner t)).
Proof.
  intros K%reaches_rep. rewrite (positions_witnessed _ _ K), (proj1 (root_right t a K)), (tree_rep_next _ _ K).
  assert (Hins : forall witness c res t', tree_insert witness c t = (res, t') ->
    same_position res (spec_insert witness c a).1 /\ tree_rep t' (spec_insert witness c a).2 /\ (forall p, (spec_insert witness c a).1 = Ok p ->
    match res with Ok position => u64_of_tree position = p | _ => False end)).
  { intros witness c res t' E. destruct (tree_insert_right witness c t a K) as (res1 & t1 & E1 & Hsame & K1). rewrite E in E1. injection E1 as <- <-.
    split_and!; [done|done|]. intros p Ep. rewrite Ep in Hsame. cbn in Hsame. subst res. pose proof K as [[Kt _] _]. apply u64_tree_u64.
    pose proof (spec_insert_next witness c t a K) as Hn. rewrite Ep in Hn. exact (next_range _ _ _ Kt (proj1 Hn)). }
  split_and!.
  - intros c position t' E. destruct (Hins _ _ _ _ E) as (Hsame & K' & Hp). rewrite (positions_witnessed _ _ K').
    unfold spec_insert in *. destruct (tree_next (contents a)) as [p|]; [|done]. destruct (add_leaf _ _); [|done]. by rewrite (Hp p eq_refl).
  - intros c position t' E. destruct (Hins _ _ _ _ E) as (Hsame & K' & Hp). rewrite (positions_witnessed _ _ K').
    unfold spec_insert in *. destruct (tree_next (contents a)) as [p|]; [|done]. by destruct (add_leaf _ _).
  - intros witness c e t' E. destruct (Hins _ _ _ _ E) as (Hsame & K' & _). pose proof (spec_insert_next witness c t a K) as Hn.
    destruct (spec_insert witness c a) as [[p|e'|] a']; cbn [fst snd same_position] in *; [done| |done]. subst a'.
    split_and!; [by apply positions_witnessed|by apply root_right|by apply tree_rep_next].
  - intros c b t' E. destruct (tree_forget_right (E := never) c t a K) as (t1 & E1 & K1). rewrite E in E1. injection E1 as -> <-.
    rewrite (positions_witnessed _ _ K1), (proj1 (root_right _ _ K1)), (tree_rep_next _ _ K1). unfold spec_forget.
    destruct (witnessed a !! c) as [i|] eqn:Hc; cbn [fst snd witnessed contents].
    + split_and!; [done|by rewrite bool_decide_eq_true_2|exact (open_root_same EPOCH_HEIGHT LEVELS _ _ (list_forget_same EPOCH_HEIGHT i _))|
        exact (list_position_same EPOCH_HEIGHT LEVELS _ _ (list_forget_same EPOCH_HEIGHT i _))].
    + split_and!; [by rewrite delete_id|by rewrite bool_decide_eq_false_2 by (by intros [])|done|done].
Qed.

(** *** Builders *)

(** A block builder takes up to 65536 commitments; finalizing it gives a block whose root is the
    hash of all of them, kept or not, and which can be inserted into any tree that has been reached:
    this returns that root, unless the tree or its last epoch is full, when it returns the block. *)
Theorem built_blocks_can_be_inserted cs : (length cs <= capacity)%nat ->
  exists b, for_each cs (fun '(witness, c) => block_insert witness c) builder_default = (Ok tt, b)
    /\ let block := (builder_finalize b).1 in
       finalized_root (I := FItem) block = closed_root 0 LEVELS (bare <$> cs.*2)
       /\ forall t a, reaches t a -> let res := (tree_insert_block block t).1 in
          res = Ok (finalized_root (I := FItem) block) \/ res = Err (InsertBlock_Full block) \/ res = Err (InsertBlock_EpochFull block).
Proof.
  intros Hl. destruct (block_inserts_right cs _ _ builder_default_rep Hl) as (b & a' & E & K & Hsame). exists b. split; [exact E|].
  pose proof (builder_finalize_right b a' K) as Kf. pose proof (finalized_root_right _ _ Kf) as Er. split.
  - rewrite Er. etransitivity; [|exact (closed_root_same 0 LEVELS _ _ Hsame)]. destruct (contents a'); reflexivity.
  - intros t a Ht%reaches_rep. destruct (tree_insert_block_right _ _ t a Ht Kf) as (res & t' & -> & Hres & _). cbn [fst]. unfold spec_insert_block in Hres.
    destruct (add_block _ _) as [l'|[|]]; cbn [fst same_block_result] in Hres; [left|right; left; exact Hres|right; right; exact Hres].
    rewrite Hres. f_equal. symmetry. exact Er.
Qed.

(** *** Binding *)

(** Hashes without collisions. *)
Class CollisionFree := {
  hash_1_inj :: Inj (=) (=) hash_1;
  hash_4_inj h a b c d h' a' b' c' d' : hash_4 h a b c d = hash_4 h' a' b' c' d' -> h = h' /\ (a, b, c, d) = (a', b', c', d');
}.

Lemma path_insert_inj {T} w (x y : T) s s' : Path.insert w x s = Path.insert w y s' -> x = y /\ s = s'.
Proof. destruct s as [[a b] c], s' as [[a' b'] c']. destruct w; cbn; by intros [= -> -> -> ->]. Qed.

Lemma path_root_inj `{!CollisionFree} height path path' i leaf leaf' : length path = height -> length path' = height ->
  path_root height path i leaf = path_root height path' i leaf' -> path = path' /\ leaf = leaf'.
Proof.
  revert path path'. induction height as [|n IH]; intros [|s path] [|s' path'] Hl Hl' E; try done. cbn [path_root] in E.
  injection Hl as Hl. injection Hl' as Hl'. set (w := (Path.at_height _ i).1) in *.
  destruct (Path.insert w _ s) as [[[a b] c] d] eqn:E1, (Path.insert w _ s') as [[[a' b'] c'] d'] eqn:E2.
  rewrite !node_is_hash_node in E. apply hash_4_inj in E as [_ Eq]. rewrite Eq, <- E2 in E1. apply path_insert_inj in E1 as [E1 ->].
  destruct (IH _ _ Hl Hl' E1) as [-> ->]. done.
Qed.

(** (C19) Proofs are binding: if hashes do not collide, whatever proof verifies against the root of a
    tree at the position of a witnessed commitment is a proof of that commitment, along the path of its
    witness. *)
Theorem proofs_are_binding `{!CollisionFree} t a c position p : reaches t a -> index t !! c = Some position ->
  length (auth_path p) = TREE_HEIGHT -> proof_position p = u64_of_tree position -> verify p (root t).1 = Ok tt ->
  proof_leaf p = c /\ (tree_witness (E := never) c t).1 = Ok (Some p).
Proof.
  intros K%reaches_rep Hc Hlen Hpos Hv. destruct (tree_witness_right (E := never) c t a K) as (w & t' & -> & _ & Hw).
  assert (Hl : witnessed a !! c = Some (u64_of_tree position)) by (destruct K as [[_ <-] _]; by rewrite lookup_fmap, Hc). rewrite Hl in Hw.
  destruct Hw as (path & -> & Hlen' & Hv'). rewrite (proj1 (root_right t a K)) in Hv. unfold verify, proof_root in *. cbn [auth_path proof_position proof_leaf] in Hv'.
  destruct (decide (_ = path_root _ _ (proof_position p) _)) as [E|]; [|done]. destruct (decide (_ = path_root _ path _ _)) as [E'|]; [|done].
  rewrite E, Hpos in E'. apply path_root_inj in E' as [Epath Eleaf]; [|done|done]. apply (inj hash_1) in Eleaf. destruct p as [pp ap pl]. cbn [auth_path proof_position proof_leaf] in *. subst. by split.
Qed.
End Theorems.

(** ** Indices *)

(** An index of three 16-bit numbers and its position determine each other. *)
Theorem positions_roundtrip :
  (forall e b c, 0 <= e < 2 ^ 16 -> 0 <= b < 2 ^ 16 -> 0 <= c < 2 ^ 16 ->
     tree_of_u64 (u64_of_tree (mkWithinTree e b c)) = mkWithinTree e b c /\ 0 <= u64_of_tree (mkWithinTree e b c) < 2 ^ 48)
  /\ (forall p, 0 <= p < 2 ^ 48 -> u64_of_tree (tree_of_u64 p) = p).
Proof.
  split; [|exact u64_tree_u64]. intros e b c He Hb Hc. rewrite u64_of_tree_sum by done. split; [|lia]. unfold tree_of_u64. rewrite !Z.shiftr_div_pow2 by lia.
  assert (E1 : (e * 2 ^ 32 + b * 2 ^ 16 + c) / 2 ^ 32 = e) by (symmetry; apply (Z.div_unique_pos _ _ _ (b * 2 ^ 16 + c)); lia).
  assert (E2 : (e * 2 ^ 32 + b * 2 ^ 16 + c) / 2 ^ 16 = e * 2 ^ 16 + b) by (symmetry; apply (Z.div_unique_pos _ _ _ c); lia).
  rewrite E1, E2. f_equal; [by apply Z.mod_small|symmetry; apply (Z.mod_unique_pos _ _ e); lia|symmetry; apply (Z.mod_unique_pos _ _ (e * 2 ^ 16 + b)); lia].
Qed.

(** ** A tree that runs *)

Module Free.
(** Hashes as terms, which do not collide. *)
Inductive hash_term := HZero | HOne | HCommitment (c : Z) | HNode (height : Z) (a b c d : hash_term).

#[export] Instance hash_term_eq_dec : EqDecision hash_term.
Proof. solve_decision. Defined.

#[export] Instance free_hashes : HashEnv := {
  Hash := hash_term;
  StateCommitment := Z;
  zero := HZero;
  one := HOne;
  hash_1 := HCommitment;
  hash_4 := HNode;
}.

#[export, refine] Instance free_order : HashOrder := { hash_order P m := map_to_list m }.
Proof. done. Defined.

#[export] Instance free_collision_free : CollisionFree.
Proof. split; [by intros ? ? [= ->]|]. intros ? ? ? ? ? ? ? ? ? ? [= -> -> -> -> ->]. done. Qed.

Definition seven : StateCommitment := 7.
Definition eight : StateCommitment := 8.
Definition tree_1 : Tree := (tree_insert Witness_Keep seven tree_default).2.
Definition contents_1 : TreeD := (spec_insert Witness_Keep seven (mkContents ∅ [])).2.
Definition tree_2 : Tree := (tree_end_block (tree_insert Witness_Forget eight tree_1).2).2.

Lemma reaches_1 : reaches tree_1 contents_1.
Proof. exact (reaches_step _ _ _ _ reaches_default (step_insert _ _ Witness_Keep seven)). Qed.

Example run_position : tree_position tree_2 = Some (mkWithinTree 0 1 0).
Proof. vm_compute. reflexivity. Qed.
Example run_witness : match (tree_witness (E := never) seven tree_2).1 with Ok (Some p) => verify p (root tree_2).1 = Ok tt | _ => False end.
Proof. vm_compute. reflexivity. Qed.
Example run_forgotten : (tree_witness (E := never) eight tree_2).1 = Ok None.
Proof. vm_compute. reflexivity. Qed.

(** Ending an empty block of a tree returns the root of the empty block that is inserted; ending one of
    an epoch builder returns the root of the block before it once more. *)
Definition builder_1 : EpochBuilder := (epoch_end_block (epoch_insert Witness_Forget seven builder_default).2).2.

Example tree_ends_empty_blocks : (tree_end_block tree_2).1 = Ok one.
Proof. vm_compute. reflexivity. Qed.
Example builder_ends_empty_blocks : match (epoch_end_block (epoch_insert Witness_Forget seven builder_default).2).1 with
  | Ok block_root => (epoch_end_block builder_1).1 = Ok block_root /\ block_root <> one
  | _ => False
  end.
Proof. vm_compute. split; [reflexivity|discriminate]. Qed.

Definition proof_1 : Proof_ := match (tree_witness (E := never) seven tree_1).1 with Ok (Some p) => p | _ => mkProof 0 [] seven end.

Lemma index_1 : index tree_1 !! seven = Some (mkWithinTree 0 0 0).
Proof. vm_compute. reflexivity. Qed.
Lemma proof_1_length : length (auth_path proof_1) = TREE_HEIGHT.
Proof. vm_compute. reflexivity. Qed.
Lemma proof_1_position : proof_position proof_1 = u64_of_tree (mkWithinTree 0 0 0).
Proof. vm_compute. reflexivity. Qed.
Lemma proof_1_verifies : verify proof_1 (root tree_1).1 = Ok tt.
Proof. vm_compute. reflexivity. Qed.
Lemma forget_1 : (tree_forget (E := never) seven tree_1).1 = Ok true.
Proof. vm_compute. reflexivity. Qed.
End Free.

(** ** Witnesses of the theorems *)

Section Witnesses.
Import Free.

Lemma tree_roots_are_hashes_of_contents_witness : (root tree_1).1 = tree_root (contents contents_1)
  /\ (current_block_root tree_1).1 = current_block (contents contents_1) /\ (current_epoch_root tree_1).1 = current_epoch (contents contents_1).
Proof. apply tree_roots_are_hashes_of_contents. exact reaches_1. Defined.

Lemma tree_operations_refine_contents_witness : same_block_result finalized_default (tree_end_block tree_1).1 (spec_end_block contents_1).1.
Proof. apply (tree_operations_refine_contents tree_1 contents_1). exact reaches_1. Defined.

Lemma indexed_commitments_are_proved_witness : exists w, (tree_witness (E := never) seven tree_1).1 = Ok w /\ exists path, w = Some (mkProof 0 path seven).
Proof.
  destruct (indexed_commitments_are_proved tree_1 contents_1 seven reaches_1) as (w & E & Hw). rewrite index_1 in Hw.
  destruct Hw as (path & Ew & _). exists w. split; [exact E|]. exists path. exact Ew.
Defined.

Lemma positions_only_go_up_witness : not_before (top_position (inner tree_1)) (top_position (inner (tree_end_block tree_1).2)).
Proof. exact (proj1 (positions_only_go_up tree_1 contents_1 reaches_1) _ _ (step_end_block tree_1 contents_1)). Defined.

Lemma insertions_and_forgetting_are_indexed_witness : positions (tree_forget (E := never) seven tree_1).2 = base.delete seven (positions tree_1).
Proof.
  assert (E : tree_forget (E := never) seven tree_1 = (Ok true, (tree_forget (E := never) seven tree_1).2)) by (rewrite <- forget_1; apply surjective_pairing).
  exact (proj1 (proj2 (proj2 (proj2 (insertions_and_forgetting_are_indexed tree_1 contents_1 reaches_1))) seven true _ E)).
Defined.

Lemma built_blocks_can_be_inserted_witness : exists b, for_each [(Witness_Keep, seven); (Witness_Forget, eight)] (fun '(witness, c) => block_insert witness c) builder_default = (Ok tt, b).
Proof.
  destruct (built_blocks_can_be_inserted [(Witness_Keep, seven); (Witness_Forget, eight)]) as (b & E & _); [|exists b; exact E].
  apply Nat.leb_le. vm_compute. reflexivity.
Defined.

Lemma proofs_are_binding_witness : proof_leaf proof_1 = seven /\ (tree_witness (E := never) seven tree_1).1 = Ok (Some proof_1).
Proof.
  exact (proofs_are_binding tree_1 contents_1 seven (mkWithinTree 0 0 0) proof_1 reaches_1 index_1 proof_1_length proof_1_position proof_1_verifies).
Defined.
End Witnesses.
